(* ===== verification/_CoqProject ===== *)
-Q . S2P
Prelude.v
Ring.v
Ipc.v
EventQueue.v
Wm.v
Fb.v
Cursor.v
Compositor.v
FrameAlloc.v
Paging.v
VaAlloc.v
Elf.v
Sched.v
ContextSwitch.v
Sha256.v
Manifest.v
Http.v
AppRegistry.v
Process.v
Dispatch.v
X86Machine.v
SyscallEntry.v
Trampolines.v
Qsort.v
CString.v
UserHeap.v
PkgCache.v
Resolver.v
Tar.v
Ramdisk.v
Vfs.v
Ext2.v
Poll.v
EpollWait.v
Fd.v
AppStore.v
