(* ===== verification/Prelude.v ===== *)
(** * OSCortex kernel: verification development

    The program is the OSCortex kernel ([src/kernel/src]): physical and virtual
    memory, kernel tasks, processes and threads, the window manager and
    compositor that put Flutter surfaces on a framebuffer, the package system that fetches, verifies,
    caches and installs applications, the file systems and descriptors, and
    inter-process messages.

    ** How the parts interact

    The frame allocator hands 4 KiB frames to the page tables; the pager maps
    them on faults.  The process table creates address spaces, loads ELF files
    into them, gives threads stacks from the user address ranges and releases
    all of it at exit.  The dispatcher picks processes of the table for the
    processors, which the timer takes away again.  Every process has the pages
    of stubs that the loader resolves libc symbols to; a stub enters the kernel
    by the system-call entry, behind which the kernel serves the heap and the
    string functions of the C library, descriptors, pipes, timers and event
    counters.  Paths lead to the texts below "/sys", the RAM disk below "/tmp"
    or the embedded archive; an open file is a reference to bytes of one of
    them.  Threads wait for descriptors in epoll sets and are woken by writers
    and timers.  The scheduler picks kernel
    tasks and the context switch changes to them.  Input events enter the window manager, which asks the
    compositor which surface is under the pointer, routes the event to the
    thread group that owns it and queues it in the event ring.  Processes
    upload pixels to their surfaces; the compositor paints the surfaces into
    the framebuffer and the cursor is drawn when buffers are swapped.  The
    resolver fetches a signed catalog and packages over HTTP, checks their
    SHA-256, and installs them in the application registry, with a cache in
    front; the registry keeps the bundles in a store on the block device.

    ** Files

    - [Prelude] (this file): Rust results and panics ([result], [outcome] with
      [let!]), machine integers as [Z] with wrap-around ([u8] to [u64], [i32]),
      checked loads and stores, counted loops, list and option lemmas, the hint
      databases and tactics.
    - [Ring]: circular buffers of fixed capacity, used by the rings below.
    - [Ipc]: [ipc/mod.rs], the per-process inboxes and the static buffer [recv]
      returns a slice of.
    - [EventQueue]: the event ring of [wm/mod.rs] ([push], [push_front],
      [pop_for] and the counting scans) and the list queue it implements.
    - [Wm]: the rest of [wm/mod.rs], its statics and the calls that route
      input.  The classes [ProcessGroups] (leader of a thread group) and
      [HitTest] (surface under a point) are what it asks of the process table
      and of the compositor.
    - [Fb]: [drivers/fb.rs], buffers, pixel formats, fills, blits, swap.
    - [Cursor]: the software cursor of [compositor/mod.rs].
    - [Compositor]: [compositor/mod.rs], the surface table, ownership, uploads,
      GPU submits, flips, damage, rendering and the hit test, which is the
      instance of [HitTest].
    - [FrameAlloc]: [mm/frame_allocator.rs] and the boot map of [mm/mod.rs].
    - [Paging]: the x86_64 part and the public calls of [mm/paging.rs]; memory
      is a function from word addresses to values, tables are frames of
      [FrameAlloc].
    - [VaAlloc]: the allocator of user address ranges of [process/dl.rs], for
      libraries and for anonymous mappings.
    - [Elf]: [process/elf.rs], the loader of executables.
    - [Process]: [process/mod.rs] and [security/mod.rs], the table of processes
      and threads with the calls that change it; its leader walk is the
      instance of [ProcessGroups].
    - [Dispatch]: the picks, claims and context saves of [process/mod.rs], the
      entry to user mode of [arch/x86_64/enter_user.rs] and the timer and
      reschedule handlers of [arch/x86_64/idt.rs], on several processors, with
      a step for each acquisition of the table lock; the class [WmQueries] is
      what the pick asks of the window manager.
    - [X86Machine]: the x86_64 instructions the kernel writes or is entered by,
      with their decoder; [SyscallEntry]: the entry routine of
      [arch/x86_64/syscall.rs] and [dispatch_fast], whose calling convention is
      the class [Dispatcher], also for handlers that do not return; [Trampolines]: [process/posix_trampolines.rs],
      the stubs of the libc symbols and the data page; [Qsort]: the machine
      code of the sort among them.
    - [CString], [UserHeap]: the string functions and the heap of user programs
      in [syscall/posix.rs], with user memory as a function from addresses to
      bytes; blocks of the heap are ranges of [VaAlloc].
    - [Tar], [Ramdisk], [Vfs]: the archive reader, the RAM disk and the mount
      table with the texts below "/sys" of [fs/]; [Ext2]: [fs/ext2.rs] on a
      block device that is a parameter.
    - [Poll]: the tables of timers, event counters and epoll sets of
      [syscall/poll.rs]; [EpollWait]: waiting and waking as steps of several
      processors.
    - [Fd]: [syscall/handlers/fd.rs] and [syscall/tables.rs], open files and
      pipes, on [Vfs] and [Poll]; what the memory of a dropped vector holds is
      a parameter.
    - [Sched]: [sched/mod.rs]; [ContextSwitch]: the switch sequences of
      [arch/x86_64/mod.rs] and [arch/aarch64/mod.rs] and the first frame of a
      task.
    - [Sha256], [Manifest], [Http], [PkgCache], [Resolver]: [pkg/]; [AppRegistry]:
      [app_registry/mod.rs]; [AppStore]: [app_store/mod.rs], the bundles on the
      block device, with the sector loops of [drivers/virtio_blk.rs].

    ** Conventions

    A panic (index out of range, failed [unwrap], explicit [panic!]) is the
    value [Panic].  Integers wrap as in the release profile where the source
    uses plain operators on them.  A lock is the atomicity of a call: each
    call is one step, and histories are sequences of steps; [Dispatch] and
    [EpollWait] split calls at each acquisition of a lock.  Log output and
    statistics counters are left out.  Loops are structural over the data they
    traverse; where the source loops until a condition holds, the fuel is the
    bound of the loop (the slot count of a ring, the frame count of the bitmap,
    the retry counts of the HTTP loops) and is proved or seen to be enough at
    its use.

    ** What the theorems show

    - Refinement: the event ring is a list queue, the IPC inboxes are bounded
      FIFOs, the page tables of all address spaces are finite maps, descriptors
      are a table of open files with a byte queue for each pipe, the ext2
      reader serves the tree of inodes on the volume, [hash] is FIPS 180-4.
    - Safety and invariants: frames are handed out to one owner, a live
      process is on one processor (the hand-over of [sys_exec_wait] and states
      set after an exit apart), surfaces of a thread group are untouched by the
      others but for the flip of submitted buffers, user address ranges and the
      blocks of the user heap are disjoint, the process table, the surface table,
      the window manager statics, the task table and the registry keep their
      invariants in every reachable state, a package is installed only under a verified
      catalog, a waiting thread is not passed over by writers.
    - Functional results: what a frame shows, where a submitted pixel ends up,
      what the pager maps, what teardown releases, what image the ELF loader
      builds, how often an exit code is collected, what calling a libc symbol
      does, that the machine code of [qsort] sorts, that the string functions
      agree with their definitions on lists, what a program reads from a path
      it opened, how often a timer has expired, what the HTTP client returns
      whatever the chunking.
    - Termination, liveness and bounds: the walk to a group leader ends, a ready
      task or process runs within one round, relaunches are bounded, allocation fails only
      when memory is exhausted.
    - Round trips: context switches, preemption of user code, [longjmp], catalogs,
      archives, installed apps over a restart.
    - Defects: the theorems of kind "error" exhibit inputs on which the code
      does not do what it means to.

    ** Not modelled

    The handlers behind [dispatch_fast] are parameters of [SyscallEntry]; those
    of the string functions, the heap, descriptors, timers and epoll are
    modelled on their own, futexes, condition variables and the rest of the
    POSIX calls are not.  Of [process/mod.rs] [fork] and the aarch64 frame
    snapshots are left out, of [syscall/poll.rs] the cooperative hand-over
    between threads.  Device drivers program
    registers and DMA rings; network, WASM and TLS code wraps third-party
    crates; start-up, interrupt entry and processor bring-up are assembly.  The
    boot console and splash of [drivers/fb.rs], the aarch64 page tables, the
    loading and relocation of shared objects, isolates,
    ports, platform channels and the Cortex agent are
    not modelled either; the user programs under [tools/], [packages/] and
    [engine-port/] are outside the kernel. *)

From Stdlib Require Import ZArith Lia.
From stdpp Require Import base numbers strings option list.

(** ** Rust results and panics *)

(** [Result<A, &'static str>]. *)
Inductive result (A : Type) : Type :=
| Ok (a : A)
| Err (e : string).
Arguments Ok {A} a.
Arguments Err {A} e%_string.

(** A computation that may panic: an index or slice out of range, or an
    [unwrap] of [None], ends in [Panic]; everything else is [Val]. *)
Inductive outcome (A : Type) : Type :=
| Val (a : A)
| Panic.
Arguments Val {A} a.
Arguments Panic {A}.

Definition obind {A B} (m : outcome A) (k : A → outcome B) : outcome B :=
  match m with Val a => k a | Panic => Panic end.

Declare Scope rust_scope.
Delimit Scope rust_scope with rust.
Notation "'let!' x ':=' m 'in' k" := (obind m (λ x, k))
  (at level 10, x pattern, m at level 100, k at level 200) : rust_scope.
Open Scope rust_scope.

Definition is_ok {A} (r : result A) : bool :=
  match r with Ok _ => true | Err _ => false end.

(** ** Machine integers

    A [uN] is a [Z] kept in [0, 2^N) by writing the wrap-around out. *)
Definition wrap (w z : Z) : Z := z mod 2 ^ w.
Definition u8 (z : Z) : Z := wrap 8 z.
Definition u16 (z : Z) : Z := wrap 16 z.
Definition u32 (z : Z) : Z := wrap 32 z.
Definition u64 (z : Z) : Z := wrap 64 z.
Definition u32_MAX : Z := 2 ^ 32 - 1.
Definition u64_MAX : Z := 2 ^ 64 - 1.

(** [x as i32]: the two's complement reading of the low 32 bits. *)
Definition i32 (z : Z) : Z :=
  let r := wrap 32 z in if Z.ltb r (2 ^ 31) then r else (r - 2 ^ 32)%Z.

(** [x.saturating_add(y)] on [i32]. *)
Definition sat_add32 (x y : Z) : Z := Z.max (- 2 ^ 31) (Z.min (2 ^ 31 - 1) (x + y)).

Definition is_u (w z : Z) : Prop := (0 ≤ z < 2 ^ w)%Z.

(** [n.wrapping_add(1).max(1)] on [u32] and [u64]: the id counters of the
    kernel tables skip 0 when they wrap. *)
Definition next_id32 (n : Z) : Z := Z.max (u32 (n + 1)) 1.
Definition next_id64 (n : Z) : Z := Z.max (u64 (n + 1)) 1.

(** [x.saturating_sub(y)] on unsigned integers. *)
Definition sat_sub (x y : Z) : Z := Z.max 0 (x - y).

(** ** Bytes: little- and big-endian codecs *)
Definition is_byte (b : Z) : Prop := (0 ≤ b < 256)%Z.
Abbreviation bytes := (list Z).
Definition bytes_ok (bs : bytes) : Prop := Forall is_byte bs.

Fixpoint le_bytes (n : nat) (z : Z) : bytes :=
  match n with
  | O => []
  | S n' => (z mod 256)%Z :: le_bytes n' (z / 256)
  end.

Fixpoint le_val (bs : bytes) : Z :=
  match bs with
  | [] => 0
  | b :: bs' => b + 256 * le_val bs'
  end%Z.

Definition be_bytes (n : nat) (z : Z) : bytes := reverse (le_bytes n z).
Definition be_val (bs : bytes) : Z := le_val (reverse bs).

(** ASCII literals of the source as bytes. *)
Definition byte_of_ascii (c : Ascii.ascii) : Z := Z.of_N (Ascii.N_of_ascii c).
Fixpoint str (s : string) : bytes :=
  match s with
  | EmptyString => []
  | String c s' => byte_of_ascii c :: str s'
  end.

(** ** Slices

    [slice l a b] is [&l[a..b]] for [a <= b <= l.len()]; [copy_at dst off src]
    is [dst[off..off + src.len()].copy_from_slice(src)] for a range that is in
    bounds, and [fill_prefix] is the case [off = 0]. *)
Definition slice {A} (l : list A) (a b : nat) : list A := take (b - a) (drop a l).

Definition slice_checked {A} (l : list A) (a b : nat) : outcome (list A) :=
  if (a <=? b)%nat && (b <=? length l)%nat then Val (slice l a b) else Panic.

Definition copy_at {A} (dst : list A) (off : nat) (src : list A) : list A :=
  take off dst ++ src ++ drop (off + length src) dst.

(** [l[i]] and [l[i] = v], which panic out of range. *)
Definition load {A} (l : list A) (i : nat) : outcome A :=
  match l !! i with Some x => Val x | None => Panic end.

Definition store {A} (l : list A) (i : nat) (x : A) : outcome (list A) :=
  if (i <? length l)%nat then Val (<[i := x]> l) else Panic.

(** [for k in i..i + n { s = body(k, s) }]. *)
Fixpoint for_range {S} (i n : nat) (body : nat → S → outcome S) (s : S) : outcome S :=
  match n with
  | O => Val s
  | S n' => let! s' := body i s in for_range (Datatypes.S i) n' body s'
  end.

(** The same for a body with [?]: the loop ends at the first error. *)
Fixpoint try_range {S} (i n : nat) (body : nat → S → outcome (S * result unit)) (s : S)
    : outcome (S * result unit) :=
  match n with
  | O => Val (s, Ok tt)
  | S n' =>
      let! r := body i s in
      match r with
      | (s', Ok _) => try_range (Datatypes.S i) n' body s'
      | (s', Err e) => Val (s', Err e)
      end
  end.

(** [for x in l { s = body(x, s) }], and the integers [lo..=hi]. *)
Fixpoint for_list {A S} (l : list A) (body : A → S → outcome S) (s : S) : outcome S :=
  match l with
  | [] => Val s
  | x :: l' => let! s' := body x s in for_list l' body s'
  end.

Definition zrange (lo hi : Z) : list Z :=
  (λ k, (lo + Z.of_nat k)%Z) <$> seq 0 (Z.to_nat (hi - lo + 1)).

(** ** Iterators

    [position p l] is [l.iter().position(p)]; [find_first] is
    [l.iter().find(p)].  [update_first p g l] is the loop
    [for s in l.iter_mut() { if p(s) { *s = g(s); return .. } }], [None] when
    no element matches. *)
Fixpoint position {A} (p : A → bool) (l : list A) : option nat :=
  match l with
  | [] => None
  | x :: l' => if p x then Some O else S <$> position p l'
  end.

Fixpoint find_first {A} (p : A → bool) (l : list A) : option A :=
  match l with
  | [] => None
  | x :: l' => if p x then Some x else find_first p l'
  end.

Fixpoint update_first {A} (p : A → bool) (g : A → A) (l : list A) : option (list A) :=
  match l with
  | [] => None
  | x :: l' => if p x then Some (g x :: l') else cons x <$> update_first p g l'
  end.

Definition countb {A} (p : A → bool) (l : list A) : nat :=
  length (List.filter p l).

(** [slots.iter().flatten()]: the occupied slots, in slot order. *)
Fixpoint flatten {A} (l : list (option A)) : list A :=
  match l with
  | [] => []
  | Some x :: l' => x :: flatten l'
  | None :: l' => flatten l'
  end.

Definition isSome {A} (o : option A) : bool :=
  match o with Some _ => true | None => false end.

(** [bytes == bytes]. *)
Fixpoint bytes_eqb (a b : bytes) : bool :=
  match a, b with
  | [], [] => true
  | x :: a', y :: b' => Z.eqb x y && bytes_eqb a' b'
  | _, _ => false
  end.

(** [a.starts_with(b)]: the remainder when [b] is a prefix of [a]. *)
Fixpoint strip_prefix (p a : bytes) : option bytes :=
  match p, a with
  | [], _ => Some a
  | x :: p', y :: a' => if Z.eqb x y then strip_prefix p' a' else None
  | _ :: _, [] => None
  end.
Definition starts_with (a p : bytes) : bool := isSome (strip_prefix p a).

(** Length of the NUL-padded text in a fixed field:
    [f.iter().position(|&b| b == 0).unwrap_or(f.len())]. *)
Definition nul_end (f : bytes) : nat := default (length f) (position (Z.eqb 0) f).
Definition nul_trim (f : bytes) : bytes := take (nul_end f) f.

(** ** Tactics and hints *)

Create HintDb osc.
Create Rewrite HintDb osc.

(** Turn boolean tests of the code into the propositions they decide. *)
Ltac unbool :=
  repeat match goal with
  | H : _ && _ = true |- _ => apply andb_true_iff in H; destruct H
  | H : _ || _ = false |- _ => apply orb_false_iff in H; destruct H
  | H : negb _ = true |- _ => apply negb_true_iff in H
  | H : negb _ = false |- _ => apply negb_false_iff in H
  | H : Z.eqb _ _ = true |- _ => apply Z.eqb_eq in H
  | H : Z.eqb _ _ = false |- _ => apply Z.eqb_neq in H
  | H : Z.ltb _ _ = true |- _ => apply Z.ltb_lt in H
  | H : Z.ltb _ _ = false |- _ => apply Z.ltb_ge in H
  | H : Z.leb _ _ = true |- _ => apply Z.leb_le in H
  | H : Z.leb _ _ = false |- _ => apply Z.leb_gt in H
  | H : Nat.eqb _ _ = true |- _ => apply Nat.eqb_eq in H
  | H : Nat.eqb _ _ = false |- _ => apply Nat.eqb_neq in H
  | H : Nat.ltb _ _ = true |- _ => apply Nat.ltb_lt in H
  | H : Nat.ltb _ _ = false |- _ => apply Nat.ltb_ge in H
  | H : Nat.leb _ _ = true |- _ => apply Nat.leb_le in H
  | H : Nat.leb _ _ = false |- _ => apply Nat.leb_gt in H
  end.

(** Split on the guard of the first [if] of the goal or of [H]. *)
Ltac case_if :=
  match goal with
  | |- context [if ?b then _ else _] =>
      lazymatch type of b with bool => let E := fresh "E" in destruct b eqn:E end
  end.
Ltac case_if_in H :=
  match type of H with
  | context [if ?b then _ else _] =>
      lazymatch type of b with bool => let E := fresh "E" in destruct b eqn:E end
  end.

(** Split on the scrutinee of the first [match] of [H], discarding the
    branches the equation refutes. *)
Ltac case_match_in H :=
  match type of H with
  | context [match ?x with _ => _ end] => let E := fresh "E" in destruct x eqn:E
  end.

(** Push [Z.testbit] at a concrete index down to the variables. *)
Ltac testbits :=
  repeat match goal with
  | |- context [Z.testbit ?a ?n] => rewrite (Z.testbit_neg_r a n) by lia
  | |- context [Z.testbit (Z.lor ?a ?b) ?n] => rewrite (Z.lor_spec a b n)
  | |- context [Z.testbit (Z.land ?a ?b) ?n] => rewrite (Z.land_spec a b n)
  | |- context [Z.testbit (Z.shiftl ?a ?k) ?n] => rewrite (Z.shiftl_spec a k n) by lia
  | |- context [Z.testbit (Z.shiftr ?a ?k) ?n] => rewrite (Z.shiftr_spec a k n) by lia
  | |- context [Z.testbit (Zpos ?c) ?n] =>
      let b := eval vm_compute in (Z.testbit (Zpos c) n) in
      lazymatch b with
      | true => change (Z.testbit (Zpos c) n) with true
      | false => change (Z.testbit (Zpos c) n) with false
      end
  end;
  rewrite ?andb_true_r, ?andb_false_r, ?orb_false_r, ?orb_false_l.

(** ** Integers *)

Lemma is_u_wrap w z : (0 ≤ w)%Z → is_u w (wrap w z).
Proof. intros. unfold is_u, wrap. apply Z.mod_pos_bound. lia. Qed.

Lemma wrap_small w z : is_u w z → wrap w z = z.
Proof. intros. unfold wrap. by apply Z.mod_small. Qed.

Lemma i32_small z : (- 2 ^ 31 ≤ z < 2 ^ 31)%Z → i32 z = z.
Proof.
  intros H. unfold i32, wrap. destruct (Z_lt_le_dec z 0).
  - rewrite <- (Z.mod_add z 1) by lia. rewrite Z.mod_small by lia.
    rewrite (proj2 (Z.ltb_ge _ _)) by lia. lia.
  - rewrite Z.mod_small by lia. by rewrite (proj2 (Z.ltb_lt _ _)) by lia.
Qed.

Lemma next_id32_range n : (1 ≤ next_id32 n < 2 ^ 32)%Z.
Proof.
  unfold next_id32. pose proof (is_u_wrap 32 (n + 1) ltac:(lia)) as H.
  unfold is_u in H. fold (u32 (n + 1)) in H. lia.
Qed.

Lemma next_id64_range n : (1 ≤ next_id64 n < 2 ^ 64)%Z.
Proof.
  unfold next_id64. pose proof (is_u_wrap 64 (n + 1) ltac:(lia)) as H.
  unfold is_u in H. fold (u64 (n + 1)) in H. lia.
Qed.

(** Below the top of the range the counter just increments. *)
Lemma next_id32_succ n : (0 ≤ n < u32_MAX)%Z → next_id32 n = (n + 1)%Z.
Proof.
  unfold next_id32, u32, u32_MAX. intros. rewrite wrap_small by (unfold is_u; lia). lia.
Qed.

Lemma next_id64_succ n : (0 ≤ n < u64_MAX)%Z → next_id64 n = (n + 1)%Z.
Proof.
  unfold next_id64, u64, u64_MAX. intros. rewrite wrap_small by (unfold is_u; lia). lia.
Qed.

(** ** Byte codecs *)

Lemma le_bytes_length n z : length (le_bytes n z) = n.
Proof. revert z. induction n; intros; simpl; [done|]. by rewrite IHn. Qed.

Lemma le_bytes_ok n z : bytes_ok (le_bytes n z).
Proof.
  revert z. induction n; intros; simpl; constructor; [|apply IHn].
  apply Z.mod_pos_bound. lia.
Qed.

Lemma le_val_bytes n z : le_val (le_bytes n z) = (z mod 2 ^ (8 * Z.of_nat n))%Z.
Proof.
  revert z. induction n as [|n IH]; intros z.
  { cbn [le_bytes le_val]. by rewrite Z.mod_1_r. }
  cbn [le_bytes le_val]. rewrite IH.
  replace (8 * Z.of_nat (S n))%Z with (8 + 8 * Z.of_nat n)%Z by lia.
  rewrite Z.pow_add_r by lia. change (2 ^ 8)%Z with 256%Z.
  rewrite Z.rem_mul_r by lia. lia.
Qed.

Lemma le_val_bounds bs : bytes_ok bs → (0 ≤ le_val bs < 2 ^ (8 * Z.of_nat (length bs)))%Z.
Proof.
  induction 1 as [|b bs Hb _ IH]; [simpl; lia|]. cbn [le_val length].
  replace (8 * Z.of_nat (S (length bs)))%Z with (8 + 8 * Z.of_nat (length bs))%Z by lia.
  rewrite Z.pow_add_r by lia. change (2 ^ 8)%Z with 256%Z. unfold is_byte in Hb. lia.
Qed.

Lemma le_bytes_val bs : bytes_ok bs → le_bytes (length bs) (le_val bs) = bs.
Proof.
  induction 1 as [|b bs Hb _ IH]; [done|]. cbn [le_val length le_bytes].
  unfold is_byte in Hb.
  rewrite (Z.mul_comm 256), Z.mod_add, Z.mod_small by lia.
  rewrite Z.div_add, Z.div_small by lia. by rewrite Z.add_0_l, IH.
Qed.

Lemma be_bytes_length n z : length (be_bytes n z) = n.
Proof. unfold be_bytes. by rewrite length_reverse, le_bytes_length. Qed.

Lemma be_bytes_ok n z : bytes_ok (be_bytes n z).
Proof. unfold be_bytes, bytes_ok. apply Forall_reverse, le_bytes_ok. Qed.

Lemma be_val_bytes n z : be_val (be_bytes n z) = (z mod 2 ^ (8 * Z.of_nat n))%Z.
Proof. unfold be_val, be_bytes. by rewrite reverse_involutive, le_val_bytes. Qed.

Lemma be_bytes_val bs : bytes_ok bs → be_bytes (length bs) (be_val bs) = bs.
Proof.
  intros H. unfold be_val, be_bytes. rewrite <- length_reverse.
  rewrite le_bytes_val by by apply Forall_reverse. apply reverse_involutive.
Qed.

Lemma be_val_bounds bs : bytes_ok bs → (0 ≤ be_val bs < 2 ^ (8 * Z.of_nat (length bs)))%Z.
Proof.
  intros H. unfold be_val. rewrite <- length_reverse. apply le_val_bounds.
  by apply Forall_reverse.
Qed.

#[export] Hint Resolve le_bytes_ok be_bytes_ok : osc.
#[export] Hint Rewrite le_bytes_length be_bytes_length : osc.

(** ** Byte strings *)

Lemma bytes_eqb_eq a b : bytes_eqb a b = true ↔ a = b.
Proof.
  revert b. induction a as [|x a IH]; intros [|y b]; simpl; try done.
  rewrite andb_true_iff, Z.eqb_eq, IH. naive_solver.
Qed.

Lemma bytes_eqb_refl a : bytes_eqb a a = true.
Proof. by apply bytes_eqb_eq. Qed.

Lemma bytes_eqb_neq a b : bytes_eqb a b = false ↔ a ≠ b.
Proof. rewrite <- bytes_eqb_eq. by destruct (bytes_eqb a b). Qed.

Lemma strip_prefix_Some p a r : strip_prefix p a = Some r ↔ a = p ++ r.
Proof.
  revert a. induction p as [|x p IH]; intros a; simpl; [naive_solver|].
  destruct a as [|y a]; [naive_solver|]. destruct (Z.eqb_spec x y) as [->|].
  - rewrite IH. naive_solver.
  - naive_solver.
Qed.

Lemma starts_with_app p r : starts_with (p ++ r) p = true.
Proof.
  unfold starts_with. by rewrite (proj2 (strip_prefix_Some p (p ++ r) r) eq_refl).
Qed.

Lemma nul_end_le f : nul_end f ≤ length f.
Proof.
  unfold nul_end. destruct (position (Z.eqb 0) f) as [i|] eqn:E; simpl; [|done].
  apply Nat.lt_le_incl. revert i E. induction f as [|b f IH]; intros i; [done|].
  cbn [position length]. destruct (0 =? b)%Z; [intros [= <-]; lia|].
  destruct (position _ f) as [j|]; [|done]. intros [= <-]. specialize (IH j eq_refl). lia.
Qed.

(** ** Slices *)

Lemma slice_length {A} (l : list A) a b :
  a ≤ b → b ≤ length l → length (slice l a b) = b - a.
Proof. intros. unfold slice. rewrite length_take, length_drop. lia. Qed.

Lemma slice_lookup {A} (l : list A) a b i :
  i < b - a → slice l a b !! i = l !! (a + i).
Proof. intros. unfold slice. by rewrite lookup_take_lt, lookup_drop by lia. Qed.

Lemma slice_app_mid {A} (x y z : list A) :
  slice (x ++ y ++ z) (length x) (length x + length y) = y.
Proof.
  unfold slice. rewrite drop_app_length.
  replace (length x + length y - length x) with (length y) by lia. apply take_app_length.
Qed.

Lemma slice_ok {A} (l : list A) a b :
  a ≤ b → b ≤ length l → slice_checked l a b = Val (slice l a b).
Proof.
  intros. unfold slice_checked.
  rewrite (proj2 (Nat.leb_le a b)), (proj2 (Nat.leb_le b (length l))) by lia. done.
Qed.

Lemma slice_bytes_ok l a b : bytes_ok l → bytes_ok (slice l a b).
Proof. intros. unfold slice, bytes_ok. by apply Forall_take, Forall_drop. Qed.

Lemma copy_at_length {A} (dst src : list A) off :
  off + length src ≤ length dst → length (copy_at dst off src) = length dst.
Proof.
  intros. unfold copy_at. rewrite !length_app, length_take, length_drop. lia.
Qed.

Lemma copy_at_lookup_in {A} (dst src : list A) off i :
  off + length src ≤ length dst → off ≤ i < off + length src →
  copy_at dst off src !! i = src !! (i - off).
Proof.
  intros. unfold copy_at.
  rewrite lookup_app_r by (rewrite length_take; lia).
  rewrite length_take, Nat.min_l by lia. by rewrite lookup_app_l by lia.
Qed.

Lemma copy_at_lookup_out {A} (dst src : list A) off i :
  off + length src ≤ length dst → (i < off ∨ off + length src ≤ i) →
  copy_at dst off src !! i = dst !! i.
Proof.
  intros ? [?|?]; unfold copy_at.
  - rewrite lookup_app_l by (rewrite length_take; lia). by rewrite lookup_take_lt by lia.
  - rewrite lookup_app_r by (rewrite length_take; lia).
    rewrite length_take, Nat.min_l by lia.
    rewrite lookup_app_r by lia. rewrite lookup_drop. f_equal. lia.
Qed.

(** Reading back the range just written. *)
Lemma slice_copy_at {A} (dst src : list A) off :
  off + length src ≤ length dst →
  slice (copy_at dst off src) off (off + length src) = src.
Proof.
  intros H. unfold copy_at.
  assert (length (take off dst) = off) as Hl by (rewrite length_take; lia).
  pose proof (slice_app_mid (take off dst) src (drop (off + length src) dst)) as E.
  by rewrite Hl in E.
Qed.

Lemma take_copy_at_0 {A} (dst src : list A) :
  take (length src) (copy_at dst 0 src) = src.
Proof. unfold copy_at. simpl. apply take_app_length. Qed.

Lemma slice_drop {A} (l : list A) n a b : slice (drop n l) a b = slice l (n + a) (n + b).
Proof. unfold slice. rewrite drop_drop. f_equal. lia. Qed.

Lemma slice_take {A} (l : list A) n a b : (b ≤ n) → slice (take n l) a b = slice l a b.
Proof.
  intros H. unfold slice. rewrite skipn_firstn_comm, take_take. f_equal. lia.
Qed.

(** Reading a field back out of a concatenation. *)
Lemma slice_at {A} (x y z : list A) a b :
  length x = a → (a + length y) = b → slice (x ++ y ++ z) a b = y.
Proof. intros <- <-. apply slice_app_mid. Qed.

Lemma slice_join {A} (l : list A) a b c :
  (a ≤ b) → (b ≤ c) → slice l a b ++ slice l b c = slice l a c.
Proof.
  intros. unfold slice. replace b with ((b - a) + a) at 3 by lia.
  rewrite Nat.add_comm, <- drop_drop, take_take_drop. f_equal. lia.
Qed.

#[export] Hint Resolve slice_bytes_ok : osc.

(** ** Checked accesses and counted loops *)

Lemma load_Some {A} (l : list A) i x : l !! i = Some x → load l i = Val x.
Proof. unfold load. by intros ->. Qed.

Lemma store_ok {A} (l : list A) i x : i < length l → store l i x = Val (<[i := x]> l).
Proof. intros H. unfold store. by rewrite (proj2 (Nat.ltb_lt _ _) H). Qed.

(** The invariant rule of a counted loop: the loop ends without a panic and
    the invariant holds at its upper bound. *)
Lemma for_range_inv {S} (P : nat → S → Prop) body i n s :
  P i s →
  (∀ k t, i ≤ k < i + n → P k t → ∃ t', body k t = Val t' ∧ P (Datatypes.S k) t') →
  ∃ s', for_range i n body s = Val s' ∧ P (i + n) s'.
Proof.
  revert i s. induction n as [|n IH]; intros i s Hs Hb; simpl.
  { exists s. by rewrite Nat.add_0_r. }
  destruct (Hb i s ltac:(lia) Hs) as (t & -> & Ht). simpl.
  destruct (IH (Datatypes.S i) t Ht) as (s' & Hf & Hs').
  { intros k u Hk. apply Hb. lia. }
  exists s'. split; [done|]. by replace (i + Datatypes.S n) with (Datatypes.S i + n) by lia.
Qed.

(** A counted loop whose body must panic at some iteration panics. *)
Lemma try_range_inv {S} (P : nat → S → Prop) (E : S → string → Prop) body i n s :
  P i s →
  (∀ j s, i ≤ j < i + n → P j s → ∃ s' r, body j s = Val (s', r) ∧
    match r with Ok _ => P (Datatypes.S j) s' | Err e => E s' e end) →
  ∃ s' r, try_range i n body s = Val (s', r) ∧
    match r with Ok _ => P (i + n) s' | Err e => E s' e end.
Proof.
  revert i s. induction n as [|n IH]; intros i s HP Hstep; simpl.
  { exists s, (Ok tt). by rewrite Nat.add_0_r. }
  destruct (Hstep i s) as (s1 & [[]|e] & -> & H1); [lia|done| |]; cbn [obind].
  - destruct (IH (Datatypes.S i) s1 H1) as (s' & r & -> & H2).
    { intros j s0 Hj. apply Hstep. lia. }
    exists s', r. split; [done|]. by rewrite Nat.add_succ_r.
  - by exists s1, (Err e).
Qed.

Lemma for_range_panic {S} (P : S → Prop) body i n s k :
  P s → (∀ j t t', P t → body j t = Val t' → P t') →
  i ≤ k < i + n → (∀ t, P t → body k t = Panic) →
  for_range i n body s = Panic.
Proof.
  intros Hs Hp Hk Hb. revert i s Hs Hk. induction n as [|n IH]; intros i s Hs Hk; [lia|]. simpl.
  destruct (decide (i = k)) as [->|Hne]; [by rewrite Hb|].
  destruct (body i s) as [t|] eqn:E; [|done]. simpl. apply IH; [by eapply Hp|lia].
Qed.

Lemma elem_of_zrange lo hi z : z ∈ zrange lo hi ↔ (lo ≤ z ≤ hi)%Z.
Proof.
  unfold zrange. rewrite list_elem_of_fmap. setoid_rewrite elem_of_seq. split.
  - intros (k & -> & Hk). lia.
  - intros H. exists (Z.to_nat (z - lo)). lia.
Qed.

(** ** Iterators *)

Lemma position_Some {A} (p : A → bool) l i :
  position p l = Some i ↔
  (∃ x, l !! i = Some x ∧ p x = true) ∧ (∀ j y, j < i → l !! j = Some y → p y = false).
Proof.
  revert i. induction l as [|x l IH]; intros i; simpl.
  { split; [done|]. intros [(x & Hx & _) _]. by rewrite lookup_nil in Hx. }
  destruct (p x) eqn:Hp.
  - split.
    + intros [= <-]. split; [eauto|]. intros. lia.
    + intros [_ Hlt]. destruct i as [|i]; [done|].
      specialize (Hlt 0 x ltac:(lia) eq_refl). congruence.
  - destruct i as [|i].
    + split; [by destruct (position p l)|]. intros [(y & [= <-] & Hy) _]. congruence.
    + destruct (position p l) as [k|] eqn:Hk; simpl.
      * split.
        -- intros [= ->]. destruct (proj1 (IH i) eq_refl) as [Hi Hlt]. split; [done|].
           intros [|j] y ?; simpl; [naive_solver|]. intros. eapply Hlt; [|done]. lia.
        -- intros [Hi Hlt]. do 2 f_equal.
           enough (Some k = Some i) as [= ->]; [done|]. apply IH. split; [done|].
           intros j y ??. apply (Hlt (S j) y); [lia|done].
      * split; [done|]. intros [Hi Hlt]. exfalso.
        enough (None = Some i) as ?; [done|]. apply IH. split; [done|].
        intros j y ??. apply (Hlt (S j) y); [lia|done].
Qed.

Lemma position_None {A} (p : A → bool) l :
  position p l = None ↔ Forall (λ x, p x = false) l.
Proof.
  induction l as [|x l IH]; simpl; [by split; constructor|].
  rewrite Forall_cons_iff. destruct (p x); [naive_solver|].
  destruct (position p l); naive_solver.
Qed.

Lemma position_lt {A} (p : A → bool) l i : position p l = Some i → i < length l.
Proof. intros [(x & Hx & _) _]%position_Some. by eapply lookup_lt_Some. Qed.

Lemma find_first_position {A} (p : A → bool) l :
  find_first p l = (position p l) ≫= (λ i, l !! i).
Proof.
  induction l as [|x l IH]; simpl; [done|]. destruct (p x); [done|].
  rewrite IH. by destruct (position p l).
Qed.

Lemma find_first_Some {A} (p : A → bool) l x :
  find_first p l = Some x → x ∈ l ∧ p x = true.
Proof.
  induction l as [|y l IH]; simpl; [done|]. destruct (p y) eqn:E.
  - intros [= ->]. split; [left|done].
  - intros [??]%IH. split; [by right|done].
Qed.

Lemma find_first_None {A} (p : A → bool) l :
  find_first p l = None ↔ ∀ x, x ∈ l → p x = false.
Proof.
  induction l as [|y l IH]; simpl.
  { split; [|done]. intros _ x Hx. by apply elem_of_nil in Hx. }
  destruct (p y) eqn:E.
  - split; [done|]. intros H. rewrite H in E by left. done.
  - rewrite IH. setoid_rewrite elem_of_cons. naive_solver.
Qed.

(** [update_first] changes the first match and nothing else. *)
Lemma update_first_Some {A} (p : A → bool) g l l' :
  update_first p g l = Some l' ↔
  ∃ i x, position p l = Some i ∧ l !! i = Some x ∧ l' = <[i := g x]> l.
Proof.
  revert l'. induction l as [|x l IH]; intros l'; simpl; [naive_solver|].
  destruct (p x) eqn:Hp.
  - split; [intros [= <-]; by exists 0, x|]. intros (i & y & [= <-] & [= <-] & ->). done.
  - destruct (update_first p g l) as [m|] eqn:Hm; simpl.
    + destruct (proj1 (IH m) eq_refl) as (i & y & Hi & Hy & ->).
      rewrite Hi. simpl. split.
      * intros [= <-]. by exists (S i), y.
      * intros (j & z & [= <-] & Hz & ->). simpl in *. by simplify_eq.
    + split; [done|]. intros (i & y & Hi & Hy & ->).
      destruct (position p l) as [k|] eqn:Hk; [|done]. simpl in Hi. simplify_eq. simpl in *.
      specialize (proj2 (IH (<[k := g y]> l)) ltac:(eauto)). done.
Qed.

Lemma update_first_None {A} (p : A → bool) g l :
  update_first p g l = None ↔ position p l = None.
Proof.
  induction l as [|x l IH]; simpl; [done|]. destruct (p x); [done|].
  destruct (update_first p g l), (position p l); naive_solver.
Qed.

Lemma update_first_length {A} (p : A → bool) g l l' :
  update_first p g l = Some l' → length l' = length l.
Proof. intros (i & x & _ & _ & ->)%update_first_Some. apply length_insert. Qed.

Lemma Forall_update_first {A} (P : A → Prop) (p : A → bool) g l l' :
  update_first p g l = Some l' → Forall P l → (∀ x, P x → P (g x)) → Forall P l'.
Proof.
  intros (i & x & _ & Hx & ->)%update_first_Some HP Hg. apply Forall_insert; [done|].
  apply Hg. by eapply Forall_lookup_1.
Qed.

Lemma countb_app {A} (p : A → bool) l k : countb p (l ++ k) = countb p l + countb p k.
Proof. unfold countb. by rewrite List.filter_app, length_app. Qed.

Lemma countb_cons {A} (p : A → bool) x l :
  countb p (x :: l) = (if p x then 1 else 0) + countb p l.
Proof. unfold countb. simpl. by destruct (p x). Qed.

Lemma countb_le {A} (p : A → bool) l : countb p l ≤ length l.
Proof. induction l; [done|]. rewrite countb_cons. simpl. case_if; lia. Qed.

Lemma countb_insert {A} (p : A → bool) l i x y :
  l !! i = Some x →
  countb p (<[i := y]> l) + (if p x then 1 else 0) = countb p l + (if p y then 1 else 0).
Proof.
  revert i. induction l as [|z l IH]; intros [|i]; simpl; try done.
  - intros [= ->]. rewrite !countb_cons. lia.
  - intros H%IH. rewrite !countb_cons. lia.
Qed.

(** ** Slot tables *)

Lemma elem_of_flatten {A} (l : list (option A)) x : x ∈ flatten l ↔ Some x ∈ l.
Proof.
  induction l as [|[y|] l IH]; simpl.
  - by rewrite !elem_of_nil.
  - rewrite !elem_of_cons, IH. naive_solver.
  - rewrite elem_of_cons, IH. naive_solver.
Qed.

Lemma flatten_app {A} (l k : list (option A)) : flatten (l ++ k) = flatten l ++ flatten k.
Proof. induction l as [|[y|] l IH]; simpl; [done| |]; by rewrite IH. Qed.

Lemma flatten_count {A} (l : list (option A)) : length (flatten l) = countb isSome l.
Proof. induction l as [|[x|] l IH]; [done| |]; rewrite countb_cons; simpl; lia. Qed.

(** Overwriting a slot, seen through [flatten]: the table splits around it. *)
Lemma flatten_insert {A} (l : list (option A)) i o o' :
  l !! i = Some o →
  flatten l = flatten (take i l) ++ flatten [o] ++ flatten (drop (S i) l) ∧
  flatten (<[i := o']> l) = flatten (take i l) ++ flatten [o'] ++ flatten (drop (S i) l).
Proof.
  intros H. rewrite insert_take_drop by by eapply lookup_lt_Some.
  rewrite <- (take_drop_middle l i o H) at 1.
  rewrite !flatten_app. by destruct o, o'.
Qed.

Lemma list_alter_insert {A} (f : A → A) (l : list A) i x :
  l !! i = Some x → alter f i l = <[i := f x]> l.
Proof.
  revert i. induction l as [|y l IH]; intros [|i]; simpl; try done.
  - by intros [= ->].
  - intros H. f_equal/=. by apply IH.
Qed.

Lemma list_alter_None {A} (f : A → A) (l : list A) i : l !! i = None → alter f i l = l.
Proof.
  revert i. induction l as [|y l IH]; intros [|i]; simpl; try done.
  intros H. f_equal/=. by apply IH.
Qed.

Lemma filter_filter_negb_nil {A} (p : A → bool) l :
  List.filter p (List.filter (λ x, negb (p x)) l) = [].
Proof. induction l as [|x l IH]; simpl; [done|]. destruct (p x) eqn:E; simpl; by rewrite ?E. Qed.

Lemma position_None_countb {A} (p : A → bool) l : position p l = None → countb p l = 0.
Proof.
  rewrite position_None. induction 1 as [|x l Hx _ IH]; [done|].
  rewrite countb_cons, Hx. lia.
Qed.

(** Two tests that differ at exactly one element of the list. *)
Lemma countb_flip {A} (p q : A → bool) (l : list A) x :
  NoDup l → x ∈ l → p x = true → q x = false →
  (∀ y, y ∈ l → y ≠ x → p y = q y) → countb p l = S (countb q l).
Proof.
  intros Hnd Hx Hp Hq Hy. induction l as [|y l IH]; [by apply elem_of_nil in Hx|].
  apply NoDup_cons in Hnd as [Hn Hnd]. rewrite !countb_cons.
  apply elem_of_cons in Hx as [->|Hx].
  - rewrite Hp, Hq. simpl. f_equal.
    assert (∀ z, z ∈ l → p z = q z) as Hall.
    { intros z Hz. apply Hy; [by right|]. by intros ->. }
    clear -Hall. induction l as [|z l IH]; [done|]. rewrite !countb_cons.
    rewrite (Hall z) by left. f_equal. apply IH. intros. apply Hall. by right.
  - rewrite (Hy y); [|by left|by intros ->].
    rewrite IH; [lia|done|done|]. intros z Hz. apply Hy. by right.
Qed.
