(* ===== verification/Ring.v ===== *)
(** * Circular buffers

    Three components keep a ring in a fixed array: the IPC inboxes
    ([ipc/mod.rs]), the window-manager event queue ([wm/mod.rs]) and the pty
    byte rings ([drivers/pty.rs]).  [ring_view] is the queue such a ring
    stands for, oldest element first; the lemmas say what writing a slot,
    advancing the head and moving it back do to that queue. *)

From Stdlib Require Import Lia.
From stdpp Require Import base numbers list.
From S2P Require Import Prelude.

Section ring.
Context {A : Type} `{!Inhabited A} (cap : nat).

Definition ring_slot (head off : nat) : nat := (head + off) mod cap.

Definition ring_view (buf : list A) (head len : nat) : list A :=
  (λ k, buf !!! ring_slot head k) <$> seq 0 len.

Lemma ring_view_length buf head len : length (ring_view buf head len) = len.
Proof. unfold ring_view. by rewrite length_fmap, length_seq. Qed.

Lemma ring_view_lookup buf head len k :
  k < len → ring_view buf head len !! k = Some (buf !!! ring_slot head k).
Proof. intros. unfold ring_view. by rewrite list_lookup_fmap, lookup_seq_lt by done. Qed.

Lemma ring_view_ext buf buf' head len :
  (∀ k, k < len → buf !!! ring_slot head k = buf' !!! ring_slot head k) →
  ring_view buf head len = ring_view buf' head len.
Proof.
  intros H. apply list_eq_same_length with len; rewrite ?ring_view_length; try done.
  intros i x y Hi. rewrite !ring_view_lookup by lia. naive_solver.
Qed.

(** A shorter length drops the newest elements. *)
Lemma ring_view_take buf head len n :
  n ≤ len → ring_view buf head n = take n (ring_view buf head len).
Proof.
  intros H. unfold ring_view. rewrite <- fmap_take, take_seq. do 2 f_equal. lia.
Qed.

Context (Hcap : 0 < cap).

Lemma ring_slot_lt head off : ring_slot head off < cap.
Proof. unfold ring_slot. apply Nat.mod_upper_bound. lia. Qed.

(** Distinct offsets below the capacity are distinct slots. *)
Lemma ring_slot_inj head i j :
  i < cap → j < cap → ring_slot head i = ring_slot head j → i = j.
Proof.
  unfold ring_slot. intros Hi Hj H.
  pose proof (Nat.div_mod_eq (head + i) cap) as Ei.
  pose proof (Nat.div_mod_eq (head + j) cap) as Ej. rewrite H in Ei.
  generalize dependent ((head + i) / cap). generalize dependent ((head + j) / cap).
  intros q Eq q' Eq'. destruct (Nat.lt_trichotomy q q') as [?|[?|?]]; nia.
Qed.

Lemma ring_slot_succ head k : ring_slot ((head + 1) mod cap) k = ring_slot head (S k).
Proof.
  unfold ring_slot. rewrite Nat.Div0.add_mod_idemp_l. f_equal. lia.
Qed.

Lemma ring_slot_back head len :
  0 < len → (ring_slot head len + cap - 1) mod cap = ring_slot head (len - 1).
Proof.
  intros H. unfold ring_slot.
  replace ((head + len) mod cap + cap - 1) with ((head + len) mod cap + (cap - 1)) by lia.
  rewrite Nat.Div0.add_mod_idemp_l.
  replace (head + len + (cap - 1)) with (head + (len - 1) + 1 * cap) by lia.
  apply Nat.Div0.mod_add.
Qed.

Lemma ring_slot_next head len : (ring_slot head len + 1) mod cap = ring_slot head (len + 1).
Proof. unfold ring_slot. rewrite Nat.Div0.add_mod_idemp_l. f_equal. lia. Qed.

Lemma ring_slot_pred head k : ring_slot ((head + cap - 1) mod cap) (S k) = ring_slot head k.
Proof.
  unfold ring_slot. rewrite Nat.Div0.add_mod_idemp_l.
  replace (head + cap - 1 + S k) with (head + k + 1 * cap) by lia.
  apply Nat.Div0.mod_add.
Qed.

(** Writing the slot at offset [off] updates element [off] of the queue. *)
Lemma ring_view_insert buf head len off x :
  length buf = cap → off < len → len ≤ cap →
  ring_view (<[ring_slot head off := x]> buf) head len = <[off := x]> (ring_view buf head len).
Proof.
  intros Hb Ho Hl. apply list_eq. intros k. destruct (decide (k < len)) as [Hk|Hk].
  - rewrite ring_view_lookup by done. destruct (decide (k = off)) as [->|Hne].
    + rewrite list_lookup_insert_eq by (rewrite ring_view_length; lia).
      by rewrite list_lookup_total_insert_eq by (rewrite Hb; apply ring_slot_lt).
    + rewrite list_lookup_insert_ne, ring_view_lookup by done.
      rewrite list_lookup_total_insert_ne; [done|].
      intros E. apply ring_slot_inj in E; lia.
  - rewrite !lookup_ge_None_2; rewrite ?length_insert, ?ring_view_length; try done; lia.
Qed.

(** Enqueue: the slot after the last element. *)
Lemma ring_view_push buf head len x :
  length buf = cap → len < cap →
  ring_view (<[ring_slot head len := x]> buf) head (S len) = ring_view buf head len ++ [x].
Proof.
  intros Hb Hl. rewrite ring_view_insert by lia.
  unfold ring_view. rewrite seq_S, fmap_app. simpl.
  rewrite insert_app_r_alt by (rewrite length_fmap, length_seq; lia).
  by rewrite length_fmap, length_seq, Nat.sub_diag.
Qed.

(** Dequeue: the head slot holds the oldest element. *)
Lemma ring_view_pop buf head len :
  head < cap →
  ring_view buf head (S len) = buf !!! head :: ring_view buf ((head + 1) mod cap) len.
Proof.
  intros Hh. unfold ring_view. simpl. f_equal.
  - unfold ring_slot. by rewrite Nat.add_0_r, Nat.mod_small.
  - rewrite <- fmap_S_seq, <- list_fmap_compose. apply list_fmap_ext.
    intros i k _. simpl. by rewrite ring_slot_succ.
Qed.

(** Push at the front: step the head back and write there. *)
Lemma ring_view_push_front buf head len x :
  length buf = cap → len < cap → head < cap →
  let h' := (head + cap - 1) mod cap in
  ring_view (<[h' := x]> buf) h' (S len) = x :: ring_view buf head len.
Proof.
  intros Hb Hl Hh h'. assert (h' < cap) as Hh' by (apply Nat.mod_upper_bound; lia).
  rewrite ring_view_pop by done. rewrite list_lookup_total_insert_eq by lia. f_equal.
  apply list_eq_same_length with len; rewrite ?ring_view_length; try done.
  intros i y z Hi. rewrite !ring_view_lookup by lia. rewrite ring_slot_succ.
  assert (ring_slot h' (S i) = ring_slot head i) as <- by apply ring_slot_pred.
  rewrite list_lookup_total_insert_ne; [naive_solver|]. intros E.
  assert (ring_slot h' 0 = ring_slot h' (S i)) as E'.
  { rewrite <- E. unfold ring_slot. by rewrite Nat.add_0_r, Nat.mod_small. }
  apply ring_slot_inj in E'; lia.
Qed.

End ring.

#[export] Hint Rewrite @ring_view_length : osc.
