(* ===== verification/Ipc.v ===== *)
(** * Process inboxes ([kernel/src/ipc/mod.rs])

    Every process has a ring of 16 messages of at most 64 bytes.  [send] and
    [recv] run under the [INBOXES] lock, so each is one step on the state; the
    slice [recv] returns is a reference into the static [RECV_BUF], modelled
    as such.  The abstract inbox is the list of payloads, oldest first. *)

From Stdlib Require Import ZArith Lia.
From stdpp Require Import base numbers strings option list.
From S2P Require Import Prelude Ring.

Module Ipc.

Definition MAX_PROCS : nat := 256.
Definition MSG_LEN : nat := 64.
Definition INBOX_CAP : nat := 16.

Record Message := mkMessage { msg_len : nat; msg_data : bytes }.
Definition Message_empty : Message := mkMessage 0 (replicate MSG_LEN 0%Z).
#[export] Instance Message_inhabited : Inhabited Message := populate Message_empty.

Record Inbox := mkInbox { ib_buf : list Message; ib_head : nat; ib_tail : nat; ib_len : nat }.
Definition Inbox_new : Inbox := mkInbox (replicate INBOX_CAP Message_empty) 0 0 0.

Definition push (ib : Inbox) (msg : Message) : Inbox * bool :=
  if (ib_len ib =? INBOX_CAP)%nat then (ib, false)
  else (mkInbox (<[ib_tail ib := msg]> (ib_buf ib)) (ib_head ib)
                ((ib_tail ib + 1) mod INBOX_CAP) (ib_len ib + 1), true).

Definition pop (ib : Inbox) : Inbox * option Message :=
  if (ib_len ib =? 0)%nat then (ib, None)
  else (mkInbox (ib_buf ib) ((ib_head ib + 1) mod INBOX_CAP) (ib_tail ib) (ib_len ib - 1),
        Some (ib_buf ib !!! ib_head ib)).

(** The statics of the module: the inbox table and the receive buffer. *)
Record State := mkState { INBOXES : list Inbox; RECV_BUF : Message }.
Definition State_init : State := mkState (replicate MAX_PROCS Inbox_new) Message_empty.

Definition send (st : State) (dst_pid : nat) (data : bytes) : State :=
  if (MAX_PROCS <=? dst_pid)%nat then st
  else
    let copy_len := Nat.min (length data) MSG_LEN in
    let msg := mkMessage copy_len (copy_at (msg_data Message_empty) 0 (take copy_len data)) in
    match INBOXES st !! dst_pid with
    | Some ib => mkState (<[dst_pid := (push ib msg).1]> (INBOXES st)) (RECV_BUF st)
    | None => st
    end.

(** A returned slice: the first [len] bytes of [RECV_BUF], whatever it holds
    when it is read. *)
Definition recv_ref : Type := nat.
Definition deref (st : State) (r : recv_ref) : bytes := take r (msg_data (RECV_BUF st)).

Definition recv (st : State) (src_pid : nat) : State * option recv_ref :=
  if (MAX_PROCS <=? src_pid)%nat then (st, None)
  else
    match INBOXES st !! src_pid with
    | Some ib =>
        match pop ib with
        | (ib', Some msg) => (mkState (<[src_pid := ib']> (INBOXES st)) msg, Some (msg_len msg))
        | (ib', None) => (mkState (<[src_pid := ib']> (INBOXES st)) (RECV_BUF st), None)
        end
    | None => (st, None)
    end.

(** ** Abstract inboxes *)

Definition payload (m : Message) : bytes := take (msg_len m) (msg_data m).

Definition inbox_view (ib : Inbox) : list bytes :=
  payload <$> ring_view INBOX_CAP (ib_buf ib) (ib_head ib) (ib_len ib).

Definition abs (st : State) : list (list bytes) := inbox_view <$> INBOXES st.

Definition spec_send (q : list (list bytes)) (pid : nat) (data : bytes) : list (list bytes) :=
  match q !! pid with
  | Some ms => if (length ms <? INBOX_CAP)%nat then <[pid := ms ++ [take MSG_LEN data]]> q else q
  | None => q
  end.

Definition spec_recv (q : list (list bytes)) (pid : nat) : list (list bytes) * option bytes :=
  match q !! pid with
  | Some (m :: ms) => (<[pid := ms]> q, Some m)
  | _ => (q, None)
  end.

Inductive op := OpSend (pid : nat) (data : bytes) | OpRecv (pid : nat).

(** A caller that reads the slice before anything else runs. *)
Definition step (st : State) (o : op) : State * option bytes :=
  match o with
  | OpSend p d => (send st p d, None)
  | OpRecv p => let '(st', r) := recv st p in (st', deref st' <$> r)
  end.

Definition spec_step (q : list (list bytes)) (o : op) : list (list bytes) * option bytes :=
  match o with
  | OpSend p d => (spec_send q p d, None)
  | OpRecv p => spec_recv q p
  end.

Fixpoint run {S R} (f : S → op → S * R) (s : S) (os : list op) : S * list R :=
  match os with
  | [] => (s, [])
  | o :: os' => let '(s1, r) := f s o in let '(s2, rs) := run f s1 os' in (s2, r :: rs)
  end.

(** ** Invariant *)

Record inbox_wf (ib : Inbox) : Prop := {
  wf_buf : length (ib_buf ib) = INBOX_CAP;
  wf_head : ib_head ib < INBOX_CAP;
  wf_len : ib_len ib ≤ INBOX_CAP;
  wf_tail : ib_tail ib = ring_slot INBOX_CAP (ib_head ib) (ib_len ib)
}.

Definition wf (st : State) : Prop :=
  length (INBOXES st) = MAX_PROCS ∧ Forall inbox_wf (INBOXES st).

Lemma ipc_cap_pos : 0 < INBOX_CAP.
Proof. unfold INBOX_CAP. lia. Qed.
#[local] Hint Resolve ipc_cap_pos : core.
Lemma inbox_new_wf : inbox_wf Inbox_new.
Proof. split; simpl; unfold INBOX_CAP; (done || lia). Qed.

#[local] Opaque INBOX_CAP MAX_PROCS MSG_LEN.

Lemma inbox_view_length ib : length (inbox_view ib) = ib_len ib.
Proof. unfold inbox_view. by rewrite length_fmap, ring_view_length. Qed.

Lemma push_spec ib msg : inbox_wf ib →
  inbox_wf (push ib msg).1 ∧
  inbox_view (push ib msg).1 =
    if (length (inbox_view ib) <? INBOX_CAP)%nat then inbox_view ib ++ [payload msg]
    else inbox_view ib.
Proof.
  intros Hw. pose proof Hw as [Hb Hh Hl Ht]. rewrite inbox_view_length. unfold push.
  destruct (Nat.eqb_spec (ib_len ib) INBOX_CAP) as [He|Hne]; simpl.
  - rewrite He, Nat.ltb_irrefl. done.
  - rewrite (proj2 (Nat.ltb_lt _ _)) by lia. split.
    + split; simpl; [by rewrite length_insert|done|lia|].
      rewrite Ht. unfold ring_slot. rewrite Nat.Div0.add_mod_idemp_l. f_equal. lia.
    + unfold inbox_view. simpl. rewrite Ht, Nat.add_1_r, ring_view_push by (auto; lia).
      by rewrite fmap_app.
Qed.

Lemma pop_spec ib : inbox_wf ib →
  inbox_wf (pop ib).1 ∧
  match inbox_view ib with
  | [] => pop ib = (ib, None)
  | m :: ms => inbox_view (pop ib).1 = ms ∧ ∃ msg, (pop ib).2 = Some msg ∧ payload msg = m
  end.
Proof.
  intros Hw. pose proof Hw as [Hb Hh Hl Ht]. unfold pop.
  destruct (ib_len ib) as [|n] eqn:Hn; simpl.
  - split; [done|]. pose proof (inbox_view_length ib) as E. rewrite Hn in E.
    by destruct (inbox_view ib).
  - rewrite Nat.sub_0_r. split.
    + split; simpl; [done|apply Nat.mod_upper_bound; lia|lia|].
      rewrite Ht, ring_slot_succ by auto. done.
    + unfold inbox_view. rewrite Hn, ring_view_pop by auto. simpl. eauto.
Qed.

Lemma abs_lookup st pid : abs st !! pid = inbox_view <$> INBOXES st !! pid.
Proof. unfold abs. by rewrite list_lookup_fmap. Qed.

Lemma abs_insert ibs rb pid ib :
  abs (mkState (<[pid := ib]> ibs) rb) = <[pid := inbox_view ib]> (abs (mkState ibs rb)).
Proof. unfold abs. simpl. by rewrite list_fmap_insert. Qed.

Lemma wf_insert st rb pid ib :
  wf st → inbox_wf ib → wf (mkState (<[pid := ib]> (INBOXES st)) rb).
Proof. intros [Hl Hf] ?. split; simpl; [by rewrite length_insert|by apply Forall_insert]. Qed.

Lemma send_payload data :
  let n := Nat.min (length data) MSG_LEN in
  payload (mkMessage n (copy_at (msg_data Message_empty) 0 (take n data))) = take MSG_LEN data.
Proof.
  intros n. unfold payload. simpl. rewrite <- (length_take_le data n) at 1 by (unfold n; lia).
  rewrite take_copy_at_0. unfold n.
  destruct (Nat.le_ge_cases (length data) MSG_LEN).
  - by rewrite Nat.min_l, !take_ge by lia.
  - by rewrite Nat.min_r by lia.
Qed.

Lemma send_refines st pid data : wf st →
  wf (send st pid data) ∧ abs (send st pid data) = spec_send (abs st) pid data.
Proof.
  intros Hw. pose proof Hw as [Hlen Hf]. unfold send, spec_send. rewrite abs_lookup.
  destruct (Nat.leb_spec MAX_PROCS pid) as [Hge|Hlt].
  { rewrite lookup_ge_None_2 by lia. done. }
  destruct (lookup_lt_is_Some_2 (INBOXES st) pid) as [ib Hib]; [lia|].
  rewrite Hib. simpl. pose proof (Forall_lookup_1 _ _ _ _ Hf Hib) as Hwib.
  match goal with |- context [push ib ?m] => destruct (push_spec ib m Hwib) as [Hwf' Hv] end.
  split; [by apply wf_insert|].
  rewrite abs_insert, Hv, send_payload. destruct st as [ibs rb]. simpl.
  case_if; [done|]. rewrite list_insert_id; [done|]. by rewrite abs_lookup, Hib.
Qed.

Lemma recv_refines st pid : wf st →
  wf (recv st pid).1 ∧
  spec_recv (abs st) pid = (abs (recv st pid).1, deref (recv st pid).1 <$> (recv st pid).2).
Proof.
  intros Hw. pose proof Hw as [Hlen Hf]. unfold recv, spec_recv. rewrite abs_lookup.
  destruct (Nat.leb_spec MAX_PROCS pid) as [Hge|Hlt].
  { rewrite lookup_ge_None_2 by lia. done. }
  destruct (lookup_lt_is_Some_2 (INBOXES st) pid) as [ib Hib]; [lia|].
  rewrite Hib. simpl. pose proof (Forall_lookup_1 _ _ _ _ Hf Hib) as Hwib.
  destruct (pop_spec ib Hwib) as [Hwf' Hv]. destruct (inbox_view ib) as [|m ms] eqn:Hm.
  - rewrite Hv. simpl. split; [by apply wf_insert|]. rewrite list_insert_id by done.
    by destruct st.
  - destruct Hv as (Hv & msg & Hmsg & Hp). destruct (pop ib) as [ib' r]. simpl in *. subst r.
    simpl. split; [by apply wf_insert|]. rewrite abs_insert, Hv. unfold deref. simpl.
    unfold payload in Hp. rewrite Hp. by destruct st.
Qed.

Lemma ipc_init_wf : wf State_init.
Proof.
  split; simpl; [by rewrite length_replicate|].
  apply Forall_replicate, inbox_new_wf.
Qed.

Lemma run_refines os st : wf st →
  wf (run step st os).1 ∧
  run spec_step (abs st) os = (abs (run step st os).1, (run step st os).2).
Proof.
  revert st. induction os as [|o os IH]; intros st Hw; [done|]. simpl.
  destruct o as [p d|p]; simpl.
  - destruct (send_refines st p d Hw) as [Hw' He]. rewrite <- He.
    destruct (IH _ Hw') as [Hw'' IH']. rewrite IH'.
    by destruct (run step (send st p d) os).
  - destruct (recv_refines st p Hw) as [Hw' He]. rewrite He.
    destruct (recv st p) as [st1 r]. simpl in *.
    destruct (IH _ Hw') as [Hw'' IH']. rewrite IH'. by destruct (run step st1 os).
Qed.

Lemma abs_init : abs State_init = replicate MAX_PROCS [].
Proof. unfold abs. simpl. by rewrite fmap_replicate. Qed.

(** C16: bounded FIFO: every sequence of [send]s and [recv]s from boot returns
    exactly what 256 independent bounded FIFO queues return, each holding at
    most 16 payloads cut to 64 bytes and dropping a message that arrives when
    its queue is full; the ring invariant holds after every prefix. *)
Theorem ipc_run_is_bounded_fifo os :
  wf (run step State_init os).1 ∧
  run spec_step (replicate MAX_PROCS []) os =
    (abs (run step State_init os).1, (run step State_init os).2).
Proof. rewrite <- abs_init. apply run_refines, ipc_init_wf. Qed.

(** the slice [recv] returns is a reference into the static receive
    buffer: after another successful [recv], for whichever process, the earlier
    slice reads the bytes of the later message. *)
Theorem ipc_recv_slice_is_overwritten st p q st1 r1 st2 r2 m2 :
  wf st → recv st p = (st1, Some r1) → recv st1 q = (st2, Some r2) →
  (spec_recv (abs st1) q).2 = Some m2 → r1 ≤ r2 →
  deref st2 r1 = take r1 m2.
Proof.
  intros Hw H1 H2 Hm Hle.
  destruct (recv_refines st p Hw) as [Hw1 _]. rewrite H1 in Hw1.
  destruct (recv_refines st1 q Hw1) as [_ E]. rewrite E, H2 in Hm. simpl in Hm.
  injection Hm as <-. unfold deref. rewrite take_take. by rewrite Nat.min_l.
Qed.

(** Two processes with one message each: the slice read for the first process
    turns into the second one's bytes. *)
Lemma ipc_recv_slice_witness :
  let st := send (send State_init 3 [1; 2; 3]%Z) 5 [7; 8; 9]%Z in
  deref (recv (recv st 3).1 5).1 3 = [7; 8; 9]%Z.
Proof.
  intros st. rewrite (ipc_recv_slice_is_overwritten st 3 5 (recv st 3).1 3
    (recv (recv st 3).1 5).1 3 [7; 8; 9]%Z); try (vm_compute; reflexivity).
  apply send_refines, send_refines, ipc_init_wf.
Defined.

End Ipc.
