(* ===== verification/EventQueue.v ===== *)
(** * The window-manager event ring ([EventQueue] of [kernel/src/wm/mod.rs])

    A 256-slot ring of events with the owning process group of each slot in a
    parallel array.  The operations are the methods of [EventQueue], each run
    under the queue lock; owner and consumer ids are already canonical.
    [view] is the queue the ring stands for, and [spec_*] are the same
    operations on that list; the refinement lemmas relate the two. *)

From Stdlib Require Import ZArith Lia.
From stdpp Require Import base numbers strings option list.
From S2P Require Import Prelude Ring.

Module EventQueue.

(** ** Data ([embedder/abi.rs], [wm/mod.rs]) *)

Record WmEvent := mkEvent {
  ev_seq : Z; ev_kind : Z; ev_flags : Z; ev_a : Z; ev_b : Z
}.
Definition WmEvent_empty : WmEvent := mkEvent 0 0 0 0 0.
#[export] Instance WmEvent_inhabited : Inhabited WmEvent := populate WmEvent_empty.

Definition EV_VSYNC : Z := 1.
Definition EV_POINTER : Z := 2.
Definition EV_KEY : Z := 3.
Definition EV_APP : Z := 4.
Definition EV_FOCUS : Z := 5.
Definition EV_PLATFORM_MSG : Z := 6.
Definition EV_ISOLATE : Z := 7.
Definition EV_ISOLATE_MSG : Z := 8.
Definition EV_SCROLL : Z := 9.

Definition EVENT_CAP : nat := 256.

Record EventQueue := mkQueue {
  q_buf : list WmEvent;
  q_owner : list Z;
  q_head : nat;
  q_tail : nat;
  q_len : nat;
  q_next_seq : Z;
  q_dropped : Z
}.

Definition EventQueue_new : EventQueue :=
  mkQueue (replicate EVENT_CAP WmEvent_empty) (replicate EVENT_CAP 0%Z) 0 0 0 1 0.

(** ** Methods *)

Definition owner_visible_to_consumer (owner_pid consumer_pid : Z) : bool :=
  (owner_pid =? 0)%Z || (owner_pid =? consumer_pid)%Z.

Definition slot (q : EventQueue) (off : nat) : nat := (q_head q + off) mod EVENT_CAP.
Definition ev_at (q : EventQueue) (off : nat) : WmEvent := q_buf q !!! slot q off.
Definition owner_at (q : EventQueue) (off : nat) : Z := q_owner q !!! slot q off.

(** [for off in 0..self.len { if test(off) { return .. off .. } }] *)
Definition scan (q : EventQueue) (test : WmEvent → Z → bool) : option nat :=
  find_first (λ off, test (ev_at q off) (owner_at q off)) (seq 0 (q_len q)).

Definition set_seq (ev : WmEvent) (s : Z) : WmEvent :=
  mkEvent s (ev_kind ev) (ev_flags ev) (ev_a ev) (ev_b ev).
Definition set_a (ev : WmEvent) (a : Z) : WmEvent :=
  mkEvent (ev_seq ev) (ev_kind ev) (ev_flags ev) a (ev_b ev).
Definition set_ab (ev : WmEvent) (a b : Z) : WmEvent :=
  mkEvent (ev_seq ev) (ev_kind ev) (ev_flags ev) a b.

Definition with_buf (q : EventQueue) (buf : list WmEvent) : EventQueue :=
  mkQueue buf (q_owner q) (q_head q) (q_tail q) (q_len q) (q_next_seq q) (q_dropped q).
Definition bump_seq (q : EventQueue) : EventQueue :=
  mkQueue (q_buf q) (q_owner q) (q_head q) (q_tail q) (q_len q)
          (next_id64 (q_next_seq q)) (q_dropped q).

(** Drop the oldest ([push]) or the newest ([push_front]) event of a full ring. *)
Definition drop_oldest (q : EventQueue) : EventQueue :=
  if (q_len q =? EVENT_CAP)%nat then
    mkQueue (q_buf q) (q_owner q) ((q_head q + 1) mod EVENT_CAP) (q_tail q) (q_len q - 1)
            (q_next_seq q) (u64 (q_dropped q + 1))
  else q.
Definition drop_newest (q : EventQueue) : EventQueue :=
  if (q_len q =? EVENT_CAP)%nat then
    mkQueue (q_buf q) (q_owner q) (q_head q) ((q_tail q + EVENT_CAP - 1) mod EVENT_CAP)
            (q_len q - 1) (q_next_seq q) (u64 (q_dropped q + 1))
  else q.

Definition enqueue (q : EventQueue) (ev : WmEvent) (owner : Z) : EventQueue :=
  mkQueue (<[q_tail q := ev]> (q_buf q)) (<[q_tail q := owner]> (q_owner q)) (q_head q)
          ((q_tail q + 1) mod EVENT_CAP) (q_len q + 1) (q_next_seq q) (q_dropped q).

(** The two coalescing tests of [push]. *)
Definition is_tick (ev : WmEvent) : bool := (ev_kind ev =? EV_VSYNC)%Z && (ev_b ev =? 0)%Z.
Definition tick_of (owner : Z) (e : WmEvent) (o : Z) : bool := is_tick e && (o =? owner)%Z.
Definition pointer_like (ev : WmEvent) (owner : Z) (e : WmEvent) (o : Z) : bool :=
  (ev_kind e =? EV_POINTER)%Z && (o =? owner)%Z && (ev_flags e =? ev_flags ev)%Z.

Definition tail_idx (q : EventQueue) : nat := (q_tail q + EVENT_CAP - 1) mod EVENT_CAP.

Definition push (q0 : EventQueue) (ev0 : WmEvent) (owner : Z) : EventQueue :=
  let ev := set_seq ev0 (q_next_seq q0) in
  let q := bump_seq q0 in
  let coalesced_tick := if is_tick ev then scan q (tick_of owner) else None in
  match coalesced_tick with
  | Some off =>
      let idx := slot q off in
      with_buf q (<[idx := set_a (q_buf q !!! idx) (ev_a ev)]> (q_buf q))
  | None =>
      let ti := tail_idx q in
      if (ev_kind ev =? EV_POINTER)%Z && (0 <? q_len q)%nat
         && pointer_like ev owner (q_buf q !!! ti) (q_owner q !!! ti)
      then
        let e := q_buf q !!! ti in
        with_buf q (<[ti := set_ab e (ev_a ev) (Z.lor (ev_b e) (ev_b ev))]> (q_buf q))
      else enqueue (drop_oldest q) ev owner
  end.

Definition push_front (q0 : EventQueue) (ev0 : WmEvent) (owner : Z) : EventQueue :=
  let ev := set_seq ev0 (q_next_seq q0) in
  let q := drop_newest (bump_seq q0) in
  let head := (q_head q + EVENT_CAP - 1) mod EVENT_CAP in
  mkQueue (<[head := ev]> (q_buf q)) (<[head := owner]> (q_owner q)) head (q_tail q)
          (q_len q + 1) (q_next_seq q) (q_dropped q).

Definition is_baton (ev : WmEvent) : bool := (ev_kind ev =? EV_VSYNC)%Z && negb (ev_b ev =? 0)%Z.
Definition is_input (ev : WmEvent) : bool :=
  (ev_kind ev =? EV_POINTER)%Z || (ev_kind ev =? EV_KEY)%Z.

Definition visible_baton (pid : Z) (e : WmEvent) (o : Z) : bool :=
  owner_visible_to_consumer o pid && is_baton e.
Definition visible_input (pid : Z) (e : WmEvent) (o : Z) : bool :=
  owner_visible_to_consumer o pid && is_input e.
Definition visible_any (pid : Z) (_ : WmEvent) (o : Z) : bool := owner_visible_to_consumer o pid.

(** The [while j + 1 < self.len] loop of [pop_for]; [fuel] bounds its rounds
    and [len] rounds are enough. *)
Fixpoint shift_loop (fuel : nat) (buf : list WmEvent) (own : list Z) (head len j : nat)
  : list WmEvent * list Z :=
  match fuel with
  | O => (buf, own)
  | S fuel' =>
      if (j + 1 <? len)%nat then
        let from := (head + j + 1) mod EVENT_CAP in
        let to := (head + j) mod EVENT_CAP in
        shift_loop fuel' (<[to := buf !!! from]> buf) (<[to := own !!! from]> own) head len (j + 1)
      else (buf, own)
  end.

Definition remove_at (q : EventQueue) (off : nat) : EventQueue :=
  let '(buf, own) := shift_loop (q_len q) (q_buf q) (q_owner q) (q_head q) (q_len q) off in
  mkQueue buf own (q_head q) ((q_tail q + EVENT_CAP - 1) mod EVENT_CAP) (q_len q - 1)
          (q_next_seq q) (q_dropped q).

Definition pop_for (q : EventQueue) (pid : Z) : EventQueue * option WmEvent :=
  if (q_len q =? 0)%nat then (q, None)
  else
    let found :=
      match scan q (visible_baton pid) with
      | Some off => Some off
      | None =>
          match scan q (visible_input pid) with
          | Some off => Some off
          | None => scan q (visible_any pid)
          end
      end in
    match found with
    | None => (q, None)
    | Some off => (remove_at q off, Some (ev_at q off))
    end.

(** The counting loops [pending_for] and [input_pending_for]. *)
Definition count_scan (q : EventQueue) (test : WmEvent → Z → bool) : nat :=
  foldl (λ n off, if test (ev_at q off) (owner_at q off) then n + 1 else n) 0 (seq 0 (q_len q)).
Definition pending_for (q : EventQueue) (pid : Z) : nat := count_scan q (visible_any pid).
Definition input_pending_for (q : EventQueue) (pid : Z) : nat := count_scan q (visible_input pid).
Definition has_baton_vsync_for (q : EventQueue) (pid : Z) : bool :=
  isSome (scan q (visible_baton pid)).

Definition high_priority (pid : Z) (e : WmEvent) (o : Z) : bool :=
  owner_visible_to_consumer o pid &&
  ((ev_kind e =? EV_KEY)%Z ||
   ((ev_kind e =? EV_POINTER)%Z && (negb (ev_flags e =? 0)%Z || negb (ev_b e =? 0)%Z))).
Definition high_priority_pending_for (q : EventQueue) (pid : Z) : bool :=
  isSome (scan q (high_priority pid)).

(** ** The abstract queue *)

Abbreviation entry := (WmEvent * Z)%type.

Definition view (q : EventQueue) : list entry :=
  ring_view EVENT_CAP (zip (q_buf q) (q_owner q)) (q_head q) (q_len q).

Definition on (test : WmEvent → Z → bool) (x : entry) : bool := test x.1 x.2.

Definition spec_push (l : list entry) (ev : WmEvent) (owner : Z) : list entry :=
  let tick := if is_tick ev then position (on (tick_of owner)) l else None in
  match tick with
  | Some i => alter (λ x, (set_a x.1 (ev_a ev), x.2)) i l
  | None =>
      match last l with
      | Some x =>
          if (ev_kind ev =? EV_POINTER)%Z && on (pointer_like ev owner) x
          then alter (λ x, (set_ab x.1 (ev_a ev) (Z.lor (ev_b x.1) (ev_b ev)), x.2))
                     (length l - 1) l
          else (if (length l =? EVENT_CAP)%nat then tail l else l) ++ [(ev, owner)]
      | None => [(ev, owner)]
      end
  end.

Definition spec_push_front (l : list entry) (ev : WmEvent) (owner : Z) : list entry :=
  (ev, owner) :: take (EVENT_CAP - 1) l.

(** What [pop_for] delivers next: a vsync baton, else input, else anything. *)
Definition spec_choose (l : list entry) (pid : Z) : option nat :=
  match position (on (visible_baton pid)) l with
  | Some i => Some i
  | None =>
      match position (on (visible_input pid)) l with
      | Some i => Some i
      | None => position (on (visible_any pid)) l
      end
  end.

Definition spec_pop (l : list entry) (pid : Z) : list entry * option WmEvent :=
  match spec_choose l pid with
  | Some i => (delete i l, fst <$> l !! i)
  | None => (l, None)
  end.

(** A run of queue calls on the ring and on the abstract queue; the abstract
    state carries the sequence counter. *)
Inductive qop :=
| QPush (ev : WmEvent) (owner : Z)
| QPushFront (ev : WmEvent) (owner : Z)
| QPop (pid : Z).

Definition qstep (q : EventQueue) (o : qop) : EventQueue * option WmEvent :=
  match o with
  | QPush ev w => (push q ev w, None)
  | QPushFront ev w => (push_front q ev w, None)
  | QPop pid => pop_for q pid
  end.

Definition spec_qstep (s : list entry * Z) (o : qop) : (list entry * Z) * option WmEvent :=
  let '(l, n) := s in
  match o with
  | QPush ev w => ((spec_push l (set_seq ev n) w, next_id64 n), None)
  | QPushFront ev w => ((spec_push_front l (set_seq ev n) w, next_id64 n), None)
  | QPop pid => let '(l', r) := spec_pop l pid in ((l', n), r)
  end.

Fixpoint qrun {S R} (f : S → qop → S * R) (s : S) (os : list qop) : S * list R :=
  match os with
  | [] => (s, [])
  | o :: os' => let '(s1, r) := f s o in let '(s2, rs) := qrun f s1 os' in (s2, r :: rs)
  end.

(** Poll [n] times for one consumer. *)
Fixpoint pop_n (n : nat) (q : EventQueue) (pid : Z) : EventQueue * list WmEvent :=
  match n with
  | O => (q, [])
  | S n' =>
      let '(q1, r) := pop_for q pid in
      let '(q2, evs) := pop_n n' q1 pid in
      (q2, match r with Some ev => ev :: evs | None => evs end)
  end.

(** ** Invariant and refinement *)

Record wf (q : EventQueue) : Prop := {
  wf_buf : length (q_buf q) = EVENT_CAP;
  wf_own : length (q_owner q) = EVENT_CAP;
  wf_head : q_head q < EVENT_CAP;
  wf_len : q_len q ≤ EVENT_CAP;
  wf_tail : q_tail q = ring_slot EVENT_CAP (q_head q) (q_len q)
}.

Lemma event_cap_pos : 0 < EVENT_CAP.
Proof. unfold EVENT_CAP. lia. Qed.
#[local] Hint Resolve event_cap_pos : core.

Lemma queue_new_wf : wf EventQueue_new.
Proof. split; simpl; rewrite ?length_replicate; auto. unfold EVENT_CAP. lia. Qed.
#[local] Opaque EVENT_CAP.

Lemma view_new : view EventQueue_new = [].
Proof. done. Qed.

Lemma view_length q : length (view q) = q_len q.
Proof. apply ring_view_length. Qed.

Lemma zip_cap q : wf q → length (zip (q_buf q) (q_owner q)) = EVENT_CAP.
Proof. intros [? ? _ _ _]. rewrite length_zip_with. lia. Qed.

Lemma zip_total (l : list WmEvent) (k : list Z) i :
  i < length l → i < length k → zip l k !!! i = (l !!! i, k !!! i).
Proof.
  intros Hl Hk. apply list_lookup_total_correct.
  apply lookup_zip_with_Some. eexists _, _. split; [done|].
  split; by apply list_lookup_lookup_total_lt.
Qed.

Lemma slot_lt q off : slot q off < EVENT_CAP.
Proof. by apply ring_slot_lt. Qed.

Lemma view_lookup q off : wf q → off < q_len q →
  view q !! off = Some (ev_at q off, owner_at q off).
Proof.
  intros [Hb Ho Hh Hl Ht] Hoff. unfold view. rewrite ring_view_lookup by done.
  unfold ev_at, owner_at, slot. fold (ring_slot EVENT_CAP (q_head q) off).
  rewrite zip_total; [done|rewrite Hb|rewrite Ho]; by apply ring_slot_lt.
Qed.

(** Scanning offsets is [position] on the queue. *)
Lemma find_first_seq_position {A} (l : list A) (p : A → bool) (t : nat → bool) s :
  (∀ i x, l !! i = Some x → t (s + i) = p x) →
  find_first t (seq s (length l)) = (Nat.add s) <$> position p l.
Proof.
  revert s. induction l as [|x l IH]; intros s H; simpl; [done|].
  rewrite <- (Nat.add_0_r s) at 1. rewrite (H 0 x eq_refl).
  destruct (p x); [simpl; by rewrite Nat.add_0_r|].
  rewrite (IH (S s)).
  - destruct (position p l); simpl; [|done]. do 2 f_equal. lia.
  - intros i y Hi. rewrite <- (H (S i) y Hi). f_equal. lia.
Qed.

Lemma scan_position q test : wf q → scan q test = position (on test) (view q).
Proof.
  intros Hw. unfold scan. rewrite <- (view_length q).
  rewrite (find_first_seq_position (view q) (on test)).
  - by destruct (position _ _).
  - intros i x Hi. assert (i < q_len q) as Hlt.
    { apply lookup_lt_Some in Hi. by rewrite view_length in Hi. }
    rewrite view_lookup in Hi by done. injection Hi as <-. done.
Qed.

Lemma count_scan_countb q test : wf q → count_scan q test = countb (on test) (view q).
Proof.
  intros Hw. unfold count_scan. rewrite <- (view_length q).
  assert (∀ l s n, (∀ i x, l !! i = Some x → test (ev_at q (s + i)) (owner_at q (s + i)) = on test x) →
    foldl (λ n off, if test (ev_at q off) (owner_at q off) then n + 1 else n) n (seq s (length l))
    = n + countb (on test) l) as Hgen.
  { induction l as [|x l IH]; intros s n H; [simpl; unfold countb; simpl; lia|].
    simpl. rewrite IH; [|intros i y Hi; rewrite <- (H (S i) y Hi); do 2 f_equal; lia].
    specialize (H 0 x eq_refl). rewrite Nat.add_0_r in H. rewrite H, countb_cons.
    destruct (on test x); lia. }
  rewrite Hgen; [done|]. intros i x Hi. simpl. assert (i < q_len q).
  { apply lookup_lt_Some in Hi. by rewrite view_length in Hi. }
  rewrite view_lookup in Hi by done. by injection Hi as <-.
Qed.

(** Overwriting one slot of both arrays. *)
Lemma zip_insert (l : list WmEvent) (k : list Z) i x y :
  zip (<[i := x]> l) (<[i := y]> k) = <[i := (x, y)]> (zip l k).
Proof. symmetry. apply insert_zip_with. Qed.

Lemma zip_insert_l (l : list WmEvent) (k : list Z) i x :
  i < length l → i < length k → zip (<[i := x]> l) k = <[i := (x, k !!! i)]> (zip l k).
Proof.
  intros Hl Hk. rewrite <- zip_insert. f_equal.
  rewrite list_insert_id; [done|]. by apply list_lookup_lookup_total_lt.
Qed.

Lemma with_buf_wf q off e : wf q → wf (with_buf q (<[slot q off := e]> (q_buf q))).
Proof. intros [? ? ? ? ?]. split; simpl; rewrite ?length_insert; done. Qed.

Lemma view_with_buf q off f : wf q → off < q_len q →
  view (with_buf q (<[slot q off := f (ev_at q off)]> (q_buf q))) =
  alter (λ x, (f x.1, x.2)) off (view q).
Proof.
  intros Hw Hoff. pose proof Hw as [Hb Ho Hh Hl Ht]. unfold view. simpl.
  rewrite zip_insert_l by (rewrite ?Hb, ?Ho; apply slot_lt).
  unfold slot. fold (ring_slot EVENT_CAP (q_head q) off).
  rewrite ring_view_insert by (auto; by apply zip_cap).
  rewrite (list_alter_insert _ _ _ (ev_at q off, owner_at q off)); [done|].
  by apply (view_lookup q off Hw).
Qed.

Lemma bump_seq_wf q : wf q → wf (bump_seq q).
Proof. by intros [? ? ? ? ?]. Qed.

Lemma drop_oldest_spec q : wf q →
  wf (drop_oldest q) ∧ q_len (drop_oldest q) < EVENT_CAP ∧
  view (drop_oldest q) = if (length (view q) =? EVENT_CAP)%nat then tail (view q) else view q.
Proof.
  intros Hw. pose proof Hw as [Hb Ho Hh Hl Ht]. rewrite view_length. unfold drop_oldest.
  destruct (Nat.eqb_spec (q_len q) EVENT_CAP) as [He|Hne]; [|split; [done|split; [lia|done]]].
  destruct (q_len q) as [|n] eqn:Hn; [pose proof event_cap_pos; lia|].
  simpl. rewrite Nat.sub_0_r. repeat split; simpl; try done.
  - apply Nat.mod_upper_bound. lia.
  - lia.
  - by rewrite Ht, ring_slot_succ by auto.
  - unfold view. simpl. by rewrite Hn, ring_view_pop by auto.
Qed.

Lemma enqueue_spec q ev owner : wf q → q_len q < EVENT_CAP →
  wf (enqueue q ev owner) ∧ view (enqueue q ev owner) = view q ++ [(ev, owner)].
Proof.
  intros Hw Hlt. pose proof Hw as [Hb Ho Hh Hl Ht]. split.
  - split; simpl; rewrite ?length_insert; try done; [lia|].
    rewrite Ht. by apply ring_slot_next.
  - unfold view. simpl. rewrite zip_insert, Nat.add_1_r, Ht.
    apply ring_view_push; auto. by apply zip_cap.
Qed.

Lemma tail_idx_slot q : wf q → 0 < q_len q → tail_idx q = slot q (q_len q - 1).
Proof. intros [Hb Ho Hh Hl Ht] Hlt. unfold tail_idx. rewrite Ht. by apply ring_slot_back. Qed.

Lemma last_view q : wf q → 0 < q_len q →
  list.last (view q) = Some (q_buf q !!! tail_idx q, q_owner q !!! tail_idx q).
Proof.
  intros Hw Hlt. rewrite last_lookup, view_length, tail_idx_slot by done.
  rewrite <- Nat.sub_1_r, view_lookup by (done || lia). done.
Qed.

Lemma push_refines q ev owner : wf q →
  wf (push q ev owner) ∧
  view (push q ev owner) = spec_push (view q) (set_seq ev (q_next_seq q)) owner.
Proof.
  intros Hw0. unfold push, spec_push. set (e := set_seq ev (q_next_seq q)).
  pose proof (bump_seq_wf q Hw0) as Hw. change (view q) with (view (bump_seq q)).
  set (q1 := bump_seq q) in *. clearbody q1 e. rewrite scan_position by done.
  set (tk := if is_tick e then _ else None). destruct tk as [off|] eqn:Htk.
  { assert (off < q_len q1) as Hoff.
    { unfold tk in Htk. destruct (is_tick e); [|done].
      apply position_lt in Htk. by rewrite view_length in Htk. }
    split; [by apply with_buf_wf|].
    apply (view_with_buf q1 off (λ x, set_a x (ev_a e)) Hw Hoff). }
  destruct (drop_oldest_spec q1 Hw) as (Hd & Hdl & Hdv).
  destruct (enqueue_spec _ e owner Hd Hdl) as [Hew Hev]. rewrite Hdv in Hev.
  destruct (q_len q1) as [|n] eqn:Hn.
  { rewrite andb_false_r. simpl. split; [done|]. rewrite Hev.
    pose proof (view_length q1) as Hl0. rewrite Hn in Hl0.
    destruct (view q1); [|done]. simpl. by case_if. }
  rewrite last_view by (done || lia). rewrite andb_true_r. unfold on. simpl.
  case_if; [|by split]. rewrite tail_idx_slot by (done || lia).
  split; [by apply with_buf_wf|]. rewrite view_length.
  apply (view_with_buf q1 (q_len q1 - 1)
           (λ x, set_ab x (ev_a e) (Z.lor (ev_b x) (ev_b e))) Hw). lia.
Qed.

Lemma drop_newest_spec q : wf q →
  wf (drop_newest q) ∧ q_len (drop_newest q) < EVENT_CAP ∧
  view (drop_newest q) = take (EVENT_CAP - 1) (view q).
Proof.
  intros Hw. pose proof Hw as [Hb Ho Hh Hl Ht]. unfold drop_newest.
  destruct (Nat.eqb_spec (q_len q) EVENT_CAP) as [He|Hne].
  - pose proof event_cap_pos. repeat split; simpl; try done; try lia.
    + rewrite Ht. apply ring_slot_back; auto; lia.
    + unfold view. simpl. rewrite He. apply ring_view_take. lia.
  - split; [done|]. split; [lia|]. rewrite take_ge; [done|]. rewrite view_length. lia.
Qed.

Lemma push_front_refines q ev owner : wf q →
  wf (push_front q ev owner) ∧
  view (push_front q ev owner) = spec_push_front (view q) (set_seq ev (q_next_seq q)) owner.
Proof.
  intros Hw0. unfold push_front, spec_push_front.
  destruct (drop_newest_spec (bump_seq q) (bump_seq_wf q Hw0)) as (Hw & Hlt & Hv).
  change (view q) with (view (bump_seq q)). rewrite <- Hv.
  set (q1 := drop_newest (bump_seq q)) in *. pose proof Hw as [Hb Ho Hh Hl Ht]. split.
  - split; simpl; rewrite ?length_insert; try done.
    + apply Nat.mod_upper_bound. lia.
    + lia.
    + by rewrite Nat.add_1_r, ring_slot_pred by auto.
  - unfold view. simpl. rewrite zip_insert, Nat.add_1_r.
    apply ring_view_push_front; auto. by apply zip_cap.
Qed.

(** The shifting loop closes the gap left by element [j]. *)
Lemma shift_loop_spec fuel buf own head len j :
  length buf = EVENT_CAP → length own = EVENT_CAP → len ≤ EVENT_CAP → len ≤ j + fuel →
  let r := shift_loop fuel buf own head len j in
  length r.1 = EVENT_CAP ∧ length r.2 = EVENT_CAP ∧
  ∀ k, k < len →
    let v := ring_view EVENT_CAP (zip buf own) head len in
    ring_view EVENT_CAP (zip r.1 r.2) head len !! k =
    if decide (j ≤ k ∧ k + 1 < len) then v !! (k + 1) else v !! k.
Proof.
  revert buf own j. induction fuel as [|fuel IH]; intros buf own j Hb Ho Hl Hf; simpl.
  { split; [done|]. split; [done|]. intros k Hk. case_decide; [lia|done]. }
  case_if; unbool; [|split; [done|]; split; [done|]; intros k Hk; case_decide; [lia|done]].
  set (v := ring_view EVENT_CAP (zip buf own) head len).
  rewrite <- (Nat.add_assoc head j 1). fold (ring_slot EVENT_CAP head (j + 1)).
  fold (ring_slot EVENT_CAP head j).
  set (from := ring_slot EVENT_CAP head (j + 1)). set (to := ring_slot EVENT_CAP head j).
  destruct (IH (<[to := buf !!! from]> buf) (<[to := own !!! from]> own) (j + 1))
    as (H1 & H2 & H3); rewrite ?length_insert; try lia.
  split; [done|]. split; [done|]. intros k Hk. rewrite H3 by done.
  assert (zip buf own !!! from = (buf !!! from, own !!! from)) as Hz.
  { apply zip_total; rewrite ?Hb, ?Ho; by apply ring_slot_lt. }
  rewrite zip_insert, <- Hz. unfold to.
  rewrite ring_view_insert by (rewrite ?length_zip_with; auto; lia). fold v.
  assert (v !! (j + 1) = Some (zip buf own !!! from)) as Hv by (apply ring_view_lookup; lia).
  repeat case_decide; try lia.
  - by rewrite list_lookup_insert_ne by lia.
  - assert (k = j) as -> by lia.
    rewrite list_lookup_insert_eq by (unfold v; rewrite ring_view_length; lia). done.
  - by rewrite list_lookup_insert_ne by lia.
Qed.

Lemma remove_at_refines q off : wf q → off < q_len q →
  wf (remove_at q off) ∧ view (remove_at q off) = delete off (view q).
Proof.
  intros Hw Hoff. pose proof Hw as [Hb Ho Hh Hl Ht]. unfold remove_at.
  destruct (shift_loop_spec (q_len q) (q_buf q) (q_owner q) (q_head q) (q_len q) off)
    as (H1 & H2 & H3); try done; [lia|].
  destruct (shift_loop _ _ _ _ _ _) as [buf own]. simpl in *. split.
  - split; simpl; try done; [lia|]. rewrite Ht. apply ring_slot_back; auto; lia.
  - apply list_eq. intros k. unfold view at 1. simpl.
    rewrite (ring_view_take _ _ _ (q_len q)) by lia.
    destruct (decide (k < q_len q - 1)) as [Hk|Hk].
    + rewrite lookup_take_lt, H3 by lia. fold (view q). rewrite list_lookup_delete.
      case_decide; destruct (decide (k < off)); try lia; [|done].
      by rewrite Nat.add_1_r.
    + rewrite !lookup_ge_None_2; [done| |rewrite length_take; lia].
      rewrite length_delete; rewrite ?view_length; [lia|].
      rewrite view_lookup by done. eauto.
Qed.

Lemma choose_refines q pid : wf q →
  match scan q (visible_baton pid) with
  | Some off => Some off
  | None => match scan q (visible_input pid) with
            | Some off => Some off
            | None => scan q (visible_any pid)
            end
  end = spec_choose (view q) pid.
Proof. intros Hw. unfold spec_choose. by rewrite !scan_position by done. Qed.

Lemma spec_choose_lt l pid i : spec_choose l pid = Some i → i < length l.
Proof.
  unfold spec_choose. intros Hc. repeat case_match; simplify_eq; eauto using position_lt.
Qed.

Lemma pop_for_refines q pid : wf q →
  wf (pop_for q pid).1 ∧
  spec_pop (view q) pid = (view (pop_for q pid).1, (pop_for q pid).2).
Proof.
  intros Hw. unfold pop_for, spec_pop. destruct (Nat.eqb_spec (q_len q) 0) as [He|Hne].
  - split; [done|]. pose proof (view_length q) as Hv. rewrite He in Hv.
    simpl. by destruct (view q).
  - rewrite choose_refines by done. destruct (spec_choose (view q) pid) as [i|] eqn:Hi; [|done].
    apply spec_choose_lt in Hi. rewrite view_length in Hi.
    destruct (remove_at_refines q i Hw Hi) as [Hw' Hv]. simpl. split; [done|].
    by rewrite Hv, view_lookup by done.
Qed.

Lemma push_next_seq q ev o : q_next_seq (push q ev o) = next_id64 (q_next_seq q).
Proof.
  unfold push. destruct (if is_tick _ then _ else None); [done|]. case_if; [done|].
  unfold enqueue, drop_oldest. simpl. by case_if.
Qed.

Lemma push_front_next_seq q ev o : q_next_seq (push_front q ev o) = next_id64 (q_next_seq q).
Proof. unfold push_front, drop_newest. simpl. by case_if. Qed.

Lemma pop_for_next_seq q pid : q_next_seq (pop_for q pid).1 = q_next_seq q.
Proof.
  unfold pop_for. case_if; [done|]. case_match; [|done].
  unfold remove_at. by destruct (shift_loop _ _ _ _ _ _).
Qed.

Lemma qstep_refines q o : wf q →
  wf (qstep q o).1 ∧
  spec_qstep (view q, q_next_seq q) o =
    ((view (qstep q o).1, q_next_seq (qstep q o).1), (qstep q o).2).
Proof.
  intros Hw. destruct o as [ev w|ev w|pid]; cbn [qstep spec_qstep fst snd].
  - destruct (push_refines q ev w Hw) as [Hw' Hv]. by rewrite Hv, push_next_seq.
  - destruct (push_front_refines q ev w Hw) as [Hw' Hv]. by rewrite Hv, push_front_next_seq.
  - destruct (pop_for_refines q pid Hw) as [Hw' Hv]. by rewrite Hv, pop_for_next_seq.
Qed.

Lemma qrun_refines os q : wf q →
  wf (qrun qstep q os).1 ∧
  qrun spec_qstep (view q, q_next_seq q) os =
    ((view (qrun qstep q os).1, q_next_seq (qrun qstep q os).1), (qrun qstep q os).2).
Proof.
  revert q. induction os as [|o os IH]; intros q Hw; [done|]. cbn [qrun].
  destruct (qstep_refines q o Hw) as [Hw' Hs]. rewrite Hs.
  destruct (qstep q o) as [q1 r]. cbn [fst snd] in *.
  destruct (IH q1 Hw') as [Hw'' Hr]. rewrite Hr. by destruct (qrun qstep q1 os).
Qed.

(** The event [pop_for] picks is visible to the consumer. *)
Lemma spec_choose_visible l pid i x :
  spec_choose l pid = Some i → l !! i = Some x → on (visible_any pid) x = true.
Proof.
  unfold spec_choose. intros Hc Hx.
  assert (∀ t, position (on t) l = Some i → on t x = true) as Hp.
  { intros t [(y & Hy & Ht) _]%position_Some. by simplify_eq. }
  unfold on, visible_any. repeat case_match; simplify_eq;
    match goal with H : position _ _ = Some _ |- _ => apply Hp in H; rename H into Hs end;
    unfold on, visible_baton, visible_input, visible_any in Hs; by unbool.
Qed.

Lemma spec_choose_None l pid :
  spec_choose l pid = None ↔ countb (on (visible_any pid)) l = 0.
Proof.
  unfold spec_choose. split.
  - repeat case_match; try done. apply position_None_countb.
  - intros H0.
    assert (∀ t, (∀ x, on t x = true → on (visible_any pid) x = true) → position (on t) l = None)
      as Hp.
    { intros t Ht. apply position_None, Forall_forall. intros x Hx.
      destruct (on t x) eqn:E; [|done]. apply Ht in E.
      apply list_elem_of_split in Hx as (l1 & l2 & ->).
      rewrite countb_app, countb_cons, E in H0. lia. }
    rewrite !Hp; [done| | |]; intros x; unfold on, visible_any, visible_input, visible_baton;
      try done; intros; by unbool.
Qed.

Lemma filter_delete (p : entry → bool) l i x :
  l !! i = Some x →
  if p x then List.filter p l ≡ₚ x :: List.filter p (delete i l)
  else List.filter p (delete i l) = List.filter p l.
Proof.
  intros Hx. rewrite delete_take_drop.
  pose proof (take_drop_middle l i x Hx) as E. remember (take i l) as l1. remember (drop (S i) l) as l2.
  clear Heql1 Heql2. subst l. rewrite !List.filter_app. simpl. destruct (p x); [|done].
  by rewrite Permutation_middle.
Qed.

Lemma pop_n_spec n q pid : wf q → countb (on (visible_any pid)) (view q) = n →
  wf (pop_n n q pid).1 ∧
  (pop_n n q pid).2 ≡ₚ fst <$> List.filter (on (visible_any pid)) (view q) ∧
  view (pop_n n q pid).1 = List.filter (λ x, negb (on (visible_any pid) x)) (view q).
Proof.
  revert q. induction n as [|n IH]; intros q Hw Hn; simpl.
  - split; [done|]. apply length_zero_iff_nil in Hn. rewrite Hn. split; [done|].
    symmetry. apply forallb_filter_id, forallb_forall. intros x Hx.
    destruct (on (visible_any pid) x) eqn:E; [|done].
    assert (In x (List.filter (on (visible_any pid)) (view q))) as Hin by by apply filter_In.
    by rewrite Hn in Hin.
  - destruct (pop_for_refines q pid Hw) as [Hw' Hp].
    destruct (pop_for q pid) as [q1 r]. simpl in *. unfold spec_pop in Hp.
    destruct (spec_choose (view q) pid) as [i|] eqn:Hc.
    2: { apply spec_choose_None in Hc. lia. }
    destruct (lookup_lt_is_Some_2 (view q) i) as [x Hx]; [by eapply spec_choose_lt|].
    pose proof (spec_choose_visible _ _ _ _ Hc Hx) as Hvis. rewrite Hx in Hp. simpl in Hp.
    injection Hp as Hv <-. pose proof (filter_delete (on (visible_any pid)) _ i x Hx) as Hf.
    pose proof (filter_delete (λ x, negb (on (visible_any pid) x)) _ i x Hx) as Hg.
    cbv beta in Hg. rewrite Hvis in Hf, Hg. simpl in Hg. rewrite Hv in Hf, Hg.
    assert (countb (on (visible_any pid)) (view q1) = n) as Hn1.
    { unfold countb in *. rewrite Hf in Hn. simpl in Hn. lia. }
    destruct (IH q1 Hw' Hn1) as (H1 & H2 & H3).
    destruct (pop_n n q1 pid) as [q2 evs]. simpl in *.
    split; [done|]. split; [by rewrite Hf, H2|]. by rewrite H3.
Qed.

(** ** Theorems *)

(** C1: the ring implements the abstract priority queue: for every sequence
    of [push], [push_front] and [pop_for] calls from boot, the ring invariant
    holds and the delivered events, the queued events in order and the sequence
    counter are those of the same calls on a plain list. *)
Theorem event_ring_refines_queue os :
  wf (qrun qstep EventQueue_new os).1 ∧
  qrun spec_qstep ([], 1%Z) os =
    ((view (qrun qstep EventQueue_new os).1, q_next_seq (qrun qstep EventQueue_new os).1),
     (qrun qstep EventQueue_new os).2).
Proof. apply (qrun_refines os EventQueue_new queue_new_wf). Qed.

(** polling drains: a consumer that polls as often as [pending_for] says
    receives every event visible to it, each exactly once, leaves all other
    events queued in their order, and the next poll finds nothing. *)
Theorem event_ring_polling_drains q pid : wf q →
  let '(q', evs) := pop_n (pending_for q pid) q pid in
  evs ≡ₚ fst <$> List.filter (on (visible_any pid)) (view q) ∧
  view q' = List.filter (λ x, negb (on (visible_any pid) x)) (view q) ∧
  (pop_for q' pid).2 = None.
Proof.
  intros Hw. unfold pending_for. rewrite count_scan_countb by done.
  destruct (pop_n_spec _ q pid Hw eq_refl) as (H1 & H2 & H3).
  destruct (pop_n _ q pid) as [q' evs]. simpl in *. split; [done|]. split; [done|].
  destruct (pop_for_refines q' pid H1) as [_ Hp]. apply (f_equal snd) in Hp. simpl in Hp.
  rewrite <- Hp. unfold spec_pop. rewrite (proj2 (spec_choose_None _ _)); [done|].
  rewrite H3. unfold countb. rewrite filter_filter_negb_nil. done.
Qed.

Lemma event_ring_polling_drains_witness :
  let q := push (push (push EventQueue_new (mkEvent 0 4 0 1 0) 7) (mkEvent 0 2 0 2 0) 7)
                (mkEvent 0 4 0 3 0) 9 in
  (pop_n (pending_for q 7) q 7).2 = [mkEvent 2 2 0 2 0; mkEvent 1 4 0 1 0] ∧
  view (pop_n (pending_for q 7) q 7).1 = [(mkEvent 3 4 0 3 0, 9%Z)].
Proof.
  intros q. assert (wf q) as Hw by (apply push_refines, push_refines, push_refines, queue_new_wf).
  pose proof (event_ring_polling_drains q 7 Hw) as H.
  split; [vm_compute; reflexivity|].
  destruct (pop_n (pending_for q 7) q 7) as [q' evs] eqn:E.
  destruct H as (_ & H & _). simpl. rewrite H. vm_compute. reflexivity.
Defined.

End EventQueue.
