(* ===== verification/Wm.v ===== *)
(** * Window manager ([kernel/src/wm/mod.rs])

    The statics of the module around the event ring: focus, the registered
    waiter, the vsync baton and the cursor and input counters, with the public
    API that updates them.  A call of [process::wake_process] is recorded in
    [wakes], newest first.  Calls into other components go through the
    interfaces [ProcessGroups] (process/mod.rs, [get_group_leader]) and
    [HitTest] (compositor/mod.rs, [surface_at_point] and [is_fb_bypass]).

    [core_step] is one API call on the event-related statics; the invariant of
    the reachable states is proved by induction on it. *)

From Stdlib Require Import ZArith Lia.
From stdpp Require Import base numbers strings option list.
From S2P Require Import Prelude Ring EventQueue.
Import EventQueue.

(** What the window manager needs of the process table: the leader of a
    thread group, which is its own leader and is never pid 0. *)
Class ProcessGroups := {
  group_leader : Z → Z;
  group_leader_idem p : group_leader (group_leader p) = group_leader p;
  group_leader_pos p : (0 < p)%Z → (0 < group_leader p)%Z
}.

(** What it needs of the compositor. *)
Class HitTest := {
  surface_at_point : Z → Z → option (Z * Z);
  is_fb_bypass : bool
}.

Module Wm.

Definition FOCUS_LOST : Z := 1.
Definition FOCUS_GAINED : Z := 2.
Definition FOCUS_MIRROR_EV : Z := 3.

Record Core := mkCore {
  Q : EventQueue;
  WM_WAITER : Z;
  FOCUS_PID : Z;
  FOCUS_MIRROR : bool;
  VSYNC_BATON : Z;
  BATON_VSYNC_QUEUED : bool;
  wakes : list Z
}.

Record Input := mkInput {
  LAST_BUTTONS : Z;
  CURSOR_X : Z;
  CURSOR_Y : Z;
  CURSOR_BUTTONS : Z;
  CURSOR_SEEN : bool;
  CURSOR_LAST_ACT_NS : Z;
  INPUT_SOURCE : Z;
  PTR_COUNT : Z;
  KEY_COUNT : Z;
  SCROLL_COUNT : Z;
  LAST_KEY : Z;
  VERBOSE : bool
}.

Record Wm := mkWm { core : Core; input : Input; FLUTTER_INIT_READY : bool }.

Definition Core_init : Core := mkCore EventQueue_new 0 0 false 0 false [].
Definition Input_init : Input := mkInput 0 32 32 0 false 0 0 0 0 0 0 false.
Definition Wm_init : Wm := mkWm Core_init Input_init false.

Definition set_Q (c : Core) (q : EventQueue) : Core :=
  mkCore q (WM_WAITER c) (FOCUS_PID c) (FOCUS_MIRROR c) (VSYNC_BATON c) (BATON_VSYNC_QUEUED c)
         (wakes c).
Definition set_wm_waiter (c : Core) (pid : Z) : Core :=
  mkCore (Q c) pid (FOCUS_PID c) (FOCUS_MIRROR c) (VSYNC_BATON c) (BATON_VSYNC_QUEUED c) (wakes c).
Definition set_focus_raw (c : Core) (pid : Z) : Core :=
  mkCore (Q c) (WM_WAITER c) pid (FOCUS_MIRROR c) (VSYNC_BATON c) (BATON_VSYNC_QUEUED c) (wakes c).
Definition set_focus_mirror_enabled (c : Core) (b : bool) : Core :=
  mkCore (Q c) (WM_WAITER c) (FOCUS_PID c) b (VSYNC_BATON c) (BATON_VSYNC_QUEUED c) (wakes c).
Definition set_baton (c : Core) (b : Z) : Core :=
  mkCore (Q c) (WM_WAITER c) (FOCUS_PID c) (FOCUS_MIRROR c) b (BATON_VSYNC_QUEUED c) (wakes c).
Definition set_baton_queued (c : Core) (b : bool) : Core :=
  mkCore (Q c) (WM_WAITER c) (FOCUS_PID c) (FOCUS_MIRROR c) (VSYNC_BATON c) b (wakes c).
Definition wake_process (c : Core) (pid : Z) : Core :=
  mkCore (Q c) (WM_WAITER c) (FOCUS_PID c) (FOCUS_MIRROR c) (VSYNC_BATON c) (BATON_VSYNC_QUEUED c)
         (pid :: wakes c).

(** ** Event API *)

Section api.
Context {PG : ProcessGroups}.

Definition canonical_pid (pid : Z) : Z := if (pid <=? 1)%Z then pid else group_leader pid.

Definition pending_count (c : Core) : nat := q_len (Q c).
Definition pending_count_for (c : Core) (pid : Z) : nat := pending_for (Q c) (canonical_pid pid).
Definition input_pending_count_for (c : Core) (pid : Z) : nat :=
  input_pending_for (Q c) (canonical_pid pid).
Definition high_priority_input_pending_for (c : Core) (pid : Z) : bool :=
  high_priority_pending_for (Q c) (canonical_pid pid).
Definition dropped_count (c : Core) : Z := q_dropped (Q c).
Definition baton_vsync_queued_for (c : Core) (pid : Z) : bool :=
  has_baton_vsync_for (Q c) (canonical_pid pid).
Definition vsync_baton_pending (c : Core) : bool :=
  negb (VSYNC_BATON c =? 0)%Z || BATON_VSYNC_QUEUED c.

Definition pop_event_for (c : Core) (pid : Z) : Core * option WmEvent :=
  let '(q, r) := pop_for (Q c) (canonical_pid pid) in
  let c1 := set_Q c q in
  match r with
  | None => (c1, None)
  | Some ev => (if is_baton ev then set_baton_queued c1 false else c1, Some ev)
  end.

(** The waiter handshake after a push: wake and forget an eligible waiter. *)
Definition wake_waiter (c : Core) (eligible : Z → bool) : Core :=
  let waiter := WM_WAITER c in
  if negb (waiter =? 0)%Z && eligible waiter
  then wake_process (set_wm_waiter c 0) waiter else c.

Definition push_event_for (c : Core) (owner kind flags a b : Z) : Core :=
  let owner_pid := canonical_pid owner in
  let c1 := set_Q c (push (Q c) (mkEvent 0 kind flags a b) owner_pid) in
  let c2 := wake_waiter c1 (λ w, owner_visible_to_consumer owner_pid (canonical_pid w)) in
  if (kind =? EV_POINTER)%Z || (kind =? EV_KEY)%Z then
    let target := if negb (owner_pid =? 0)%Z then owner_pid else FOCUS_PID c2 in
    if negb (target =? 0)%Z then wake_process c2 target else c2
  else c2.

Definition push_event (c : Core) (kind flags a b : Z) : Core := push_event_for c 0 kind flags a b.

Definition push_app_event (c : Core) (target subkind surface_id : Z) : Core :=
  push_event_for c target EV_APP subkind surface_id 0.

Definition set_focus_pid (c : Core) (pid0 : Z) : Core :=
  let pid := canonical_pid pid0 in
  let old := FOCUS_PID c in
  let c1 := set_focus_raw c pid in
  if (old =? pid)%Z then c1
  else
    let c2 := if negb (old =? 0)%Z then push_event_for c1 old EV_FOCUS FOCUS_LOST pid 0 else c1 in
    let c3 := if negb (pid =? 0)%Z then push_event_for c2 pid EV_FOCUS FOCUS_GAINED old 0 else c2 in
    if FOCUS_MIRROR c3 then push_event c3 EV_FOCUS FOCUS_MIRROR_EV old pid else c3.

Definition push_vsync (c : Core) (frame : Z) : Core :=
  let baton := VSYNC_BATON c in
  let c0 := set_baton c 0 in
  if negb (baton =? 0)%Z then
    let c1 := set_Q c0 (push_front (Q c0) (mkEvent 0 EV_VSYNC 0 frame baton) 0) in
    let c2 := wake_process (set_baton_queued c1 true) 1 in
    wake_waiter c2 (λ _, true)
  else push_event c0 EV_VSYNC 0 frame baton.

Definition set_vsync_baton (c : Core) (pid baton : Z) : Core :=
  if (baton =? 0)%Z then set_baton c 0
  else
    let c0 := set_baton c 0 in
    let owner := canonical_pid pid in
    let c1 := set_Q c0 (push_front (Q c0) (mkEvent 0 EV_VSYNC 0 0 baton) owner) in
    let c2 := wake_process (set_baton_queued c1 true) owner in
    wake_waiter c2 (λ _, true).

(** ** Input routing *)

Context {HT : HitTest}.

Definition pack_xy (x y : Z) : Z := Z.lor (Z.shiftl (u32 x) 32) (u32 y).

Definition set_input (w : Wm) (i : Input) : Wm := mkWm (core w) i (FLUTTER_INIT_READY w).
Definition set_core (w : Wm) (c : Core) : Wm := mkWm c (input w) (FLUTTER_INIT_READY w).
Definition set_flutter_init_ready (w : Wm) : Wm := mkWm (core w) (input w) true.

Definition set_input_source (i : Input) (src : Z) : Input :=
  mkInput (LAST_BUTTONS i) (CURSOR_X i) (CURSOR_Y i) (CURSOR_BUTTONS i) (CURSOR_SEEN i)
          (CURSOR_LAST_ACT_NS i) src (PTR_COUNT i) (KEY_COUNT i) (SCROLL_COUNT i) (LAST_KEY i)
          (VERBOSE i).

Definition record_pointer (i : Input) (x y buttons now : Z) : Input :=
  mkInput buttons x y buttons true now (INPUT_SOURCE i) (u32 (PTR_COUNT i + 1)) (KEY_COUNT i)
          (SCROLL_COUNT i) (LAST_KEY i) (VERBOSE i).
Definition record_scroll (i : Input) : Input :=
  mkInput (LAST_BUTTONS i) (CURSOR_X i) (CURSOR_Y i) (CURSOR_BUTTONS i) (CURSOR_SEEN i)
          (CURSOR_LAST_ACT_NS i) (INPUT_SOURCE i) (PTR_COUNT i) (KEY_COUNT i)
          (u32 (SCROLL_COUNT i + 1)) (LAST_KEY i) (VERBOSE i).
Definition record_key (i : Input) (scancode : Z) (pressed : bool) : Input :=
  mkInput (LAST_BUTTONS i) (CURSOR_X i) (CURSOR_Y i) (CURSOR_BUTTONS i) (CURSOR_SEEN i)
          (CURSOR_LAST_ACT_NS i) (INPUT_SOURCE i) (PTR_COUNT i) (u32 (KEY_COUNT i + 1))
          (SCROLL_COUNT i) (Z.lor (u32 (Z.shiftl scancode 1)) (if pressed then 1 else 0))
          (if pressed && (scancode =? 0x3C)%Z then negb (VERBOSE i) else VERBOSE i).

(** [last_key]: the unpacked last key event. *)
Definition last_key (i : Input) : Z * bool :=
  (Z.shiftr (LAST_KEY i) 1, negb (Z.land (LAST_KEY i) 1 =? 0)%Z).

(** The process a pointer or scroll event goes to: the focused one, else the
    owner of the surface under the pointer, else the engine host. *)
Definition route (focus x y : Z) : Z :=
  if negb (focus =? 0)%Z then focus
  else if is_fb_bypass then 1
  else match surface_at_point x y with
       | Some (_, owner_pid) => owner_pid
       | None => 1
       end.

Definition push_pointer (w : Wm) (x y buttons now : Z) : Wm :=
  let b_val := if (buttons =? LAST_BUTTONS (input w))%Z then 0%Z else 1%Z in
  let w1 := set_input w (record_pointer (input w) x y buttons now) in
  set_core w1 (push_event_for (core w1) (route (FOCUS_PID (core w1)) x y)
                 EV_POINTER buttons (pack_xy x y) b_val).

Definition push_scroll (w : Wm) (x y dz : Z) : Wm :=
  let w1 := set_input w (record_scroll (input w)) in
  set_core w1 (push_event_for (core w1) (route (FOCUS_PID (core w1)) x y)
                 EV_SCROLL 0 (pack_xy x y) (u32 dz)).

Definition push_key (w : Wm) (scancode : Z) (pressed : bool) : Wm :=
  let w1 := set_input w (record_key (input w) scancode pressed) in
  let focus := FOCUS_PID (core w1) in
  let flags := if pressed then 1%Z else 0%Z in
  set_core w1 (if (focus =? 0)%Z then push_event (core w1) EV_KEY flags scancode 0
               else push_event_for (core w1) focus EV_KEY flags scancode 0).

(** ** Reachable states of the event statics *)

Inductive core_step : Core → Core → Prop :=
| step_push c o k f a b : core_step c (push_event_for c o k f a b)
| step_pop c pid : core_step c (pop_event_for c pid).1
| step_focus c pid : core_step c (set_focus_pid c pid)
| step_mirror c b : core_step c (set_focus_mirror_enabled c b)
| step_vsync c frame : core_step c (push_vsync c frame)
| step_baton c pid baton : core_step c (set_vsync_baton c pid baton)
| step_waiter c pid : core_step c (set_wm_waiter c pid).

Inductive reachable : Core → Prop :=
| reach_init : reachable Core_init
| reach_step c c' : reachable c → core_step c c' → reachable c'.

(** At most one plain vsync tick per owner is ever queued. *)
Definition ticks_unique (l : list entry) : Prop :=
  ∀ owner, countb (on (tick_of owner)) l ≤ 1.

Definition core_inv (c : Core) : Prop := wf (Q c) ∧ ticks_unique (view (Q c)).

(** ** Lemmas *)

Lemma Q_wake_waiter c e : Q (wake_waiter c e) = Q c.
Proof. unfold wake_waiter. by case_if. Qed.

Lemma Q_push_event_for c o k f a b :
  Q (push_event_for c o k f a b) = push (Q c) (mkEvent 0 k f a b) (canonical_pid o).
Proof.
  unfold push_event_for. set (c1 := set_Q _ _).
  destruct ((k =? EV_POINTER)%Z || (k =? EV_KEY)%Z); [|apply Q_wake_waiter].
  destruct (negb _) in |- * at 1; simpl; apply Q_wake_waiter.
Qed.

Lemma countb_alter_same (p : entry → bool) l i g :
  (∀ x, l !! i = Some x → p (g x) = p x) → countb p (alter g i l) = countb p l.
Proof.
  intros H. destruct (l !! i) as [x|] eqn:Hx.
  - rewrite (list_alter_insert _ _ _ x Hx). pose proof (countb_insert p l i x (g x) Hx) as E.
    rewrite H in E by done. lia.
  - by rewrite list_alter_None.
Qed.

Lemma countb_delete (p : entry → bool) l i : countb p (delete i l) ≤ countb p l.
Proof.
  revert i. induction l as [|x l IH]; intros [|i]; simpl; try done.
  - rewrite countb_cons. lia.
  - specialize (IH i). rewrite !countb_cons. lia.
Qed.

Lemma countb_tail (p : entry → bool) l : countb p (tail l) ≤ countb p l.
Proof. destruct l; simpl; [done|]. rewrite countb_cons. lia. Qed.

Lemma countb_take (p : entry → bool) n l : countb p (take n l) ≤ countb p l.
Proof. rewrite <- (take_drop n l) at 2. rewrite countb_app. lia. Qed.

Lemma ticks_unique_le l l' :
  (∀ o, countb (on (tick_of o)) l' ≤ countb (on (tick_of o)) l) →
  ticks_unique l → ticks_unique l'.
Proof. intros H Hu o. specialize (H o). specialize (Hu o). lia. Qed.

Lemma ticks_unique_push l ev owner :
  ticks_unique l → ticks_unique (spec_push l ev owner).
Proof.
  intros Hu. unfold spec_push.
  assert (∀ k, (∀ o, countb (on (tick_of o)) k ≤ countb (on (tick_of o)) l) →
    (is_tick ev = true → position (on (tick_of owner)) l = None) →
    ticks_unique (k ++ [(ev, owner)])) as Happ.
  { intros k Hk Hn o. rewrite countb_app, countb_cons. unfold countb at 2. simpl.
    specialize (Hk o). pose proof (Hu o) as Huo. unfold on at 2, tick_of at 2. simpl.
    destruct (is_tick ev) eqn:Ht; simpl; [|lia].
    destruct (Z.eqb_spec owner o) as [<-|]; [|lia].
    specialize (Hn eq_refl). apply position_None_countb in Hn. lia. }
  destruct (if is_tick ev then _ else None) as [i|] eqn:Htk.
  { eapply ticks_unique_le; [|done]. intros o. rewrite countb_alter_same; done. }
  assert (is_tick ev = true → position (on (tick_of owner)) l = None) as Hn.
  { intros E. by rewrite E in Htk. }
  destruct (list.last l) as [x|] eqn:Hlast.
  - case_if; [|apply Happ; [|done]; intros o; case_if; [apply countb_tail|done]].
    eapply ticks_unique_le; [|done]. intros o. rewrite countb_alter_same; [done|].
    intros y Hy. rewrite last_lookup, <- Nat.sub_1_r, Hy in Hlast. simplify_eq.
    unfold on, tick_of, is_tick, pointer_like in *. simpl. unbool.
    rewrite H0. done.
  - apply (Happ []); [|done]. intros o. unfold countb. simpl. lia.
Qed.

Lemma core_inv_set_Q c q : wf q → ticks_unique (view q) → core_inv (set_Q c q).
Proof. done. Qed.

Lemma core_inv_push_event_for c o k f a b : core_inv c → core_inv (push_event_for c o k f a b).
Proof.
  intros [Hw Hu]. unfold core_inv. rewrite Q_push_event_for.
  destruct (push_refines (Q c) (mkEvent 0 k f a b) (canonical_pid o) Hw) as [Hw' Hv].
  split; [done|]. rewrite Hv. by apply ticks_unique_push.
Qed.

(** [push_front] only ever carries a non-zero baton, so it adds no tick. *)
Lemma core_inv_push_front c ev o :
  core_inv c → is_tick ev = false → core_inv (set_Q c (push_front (Q c) ev o)).
Proof.
  intros [Hw Hu] Ht. destruct (push_front_refines (Q c) ev o Hw) as [Hw' Hv].
  split; [done|]. simpl. rewrite Hv. unfold spec_push_front. eapply ticks_unique_le; [|done].
  intros o'. rewrite countb_cons. unfold on at 1, tick_of at 1. simpl.
  replace (is_tick _) with (is_tick ev) by done. rewrite Ht. simpl. apply countb_take.
Qed.

Lemma core_inv_pop c pid : core_inv c → core_inv (pop_event_for c pid).1.
Proof.
  intros [Hw Hu]. unfold pop_event_for.
  destruct (pop_for_refines (Q c) (canonical_pid pid) Hw) as [Hw' He].
  destruct (pop_for (Q c) (canonical_pid pid)) as [q r]. simpl in *.
  assert (core_inv (set_Q c q)) as Hc.
  { split; [done|]. apply (f_equal fst) in He. simpl in He |- *. rewrite <- He. unfold spec_pop.
    destruct (spec_choose _ _); [|done]. simpl.
    eapply ticks_unique_le; [|done]. intros o. apply countb_delete. }
  destruct r; [case_if; exact Hc|exact Hc].
Qed.

Lemma core_inv_wake_waiter c e : core_inv c → core_inv (wake_waiter c e).
Proof. intros H. unfold core_inv. by rewrite Q_wake_waiter. Qed.

Lemma core_inv_step c c' : core_inv c → core_step c c' → core_inv c'.
Proof.
  intros Hi Hs. destruct Hs; try done.
  - by apply core_inv_push_event_for.
  - by apply core_inv_pop.
  - unfold set_focus_pid, push_event.
    repeat (case_if || apply core_inv_push_event_for); done.
  - unfold push_vsync, push_event. case_if; [|by apply core_inv_push_event_for].
    apply core_inv_wake_waiter. unbool.
    apply (core_inv_push_front (set_baton c 0)); [done|]. unfold is_tick. simpl.
    by apply Z.eqb_neq.
  - unfold set_vsync_baton. case_if; [done|]. apply core_inv_wake_waiter.
    apply (core_inv_push_front (set_baton c 0)); [done|]. unfold is_tick. simpl. done.
Qed.

Lemma core_inv_reachable c : reachable c → core_inv c.
Proof.
  induction 1 as [|c c' _ IH Hs]; [|by eapply core_inv_step].
  split; [apply queue_new_wf|]. intros o. simpl. rewrite view_new. unfold countb. simpl. lia.
Qed.

Lemma wakes_wake_waiter c e x : x ∈ wakes c → x ∈ wakes (wake_waiter c e).
Proof. intros H. unfold wake_waiter. case_if; simpl; [by right|done]. Qed.

Lemma canonical_pid_nonzero p : (0 < p)%Z → (0 < canonical_pid p)%Z.
Proof.
  intros H. unfold canonical_pid. case_if; unbool; [done|]. by apply group_leader_pos.
Qed.

Lemma canonical_pid_idem p : (0 ≤ p)%Z → canonical_pid (canonical_pid p) = canonical_pid p.
Proof.
  intros H. unfold canonical_pid at 2 3. destruct (p <=? 1)%Z eqn:E; unbool.
  - unfold canonical_pid. by rewrite (proj2 (Z.leb_le p 1)).
  - unfold canonical_pid. case_if; [done|]. apply group_leader_idem.
Qed.

(** Pushing an input event wakes its (non-zero) target. *)
Lemma push_input_wakes c o k f a b :
  is_input (mkEvent 0 k f a b) = true → (0 < o)%Z →
  canonical_pid o ∈ wakes (push_event_for c o k f a b).
Proof.
  intros Hk Ho. unfold push_event_for. unfold is_input in Hk. simpl in Hk. rewrite Hk.
  pose proof (canonical_pid_nonzero o Ho) as Hc.
  assert ((canonical_pid o =? 0)%Z = false) as E by (apply Z.eqb_neq; lia).
  rewrite E. simpl. rewrite E. simpl. left.
Qed.

(** After a pointer push the newest queued event is that pointer state. *)
Lemma spec_push_pointer_last l ev o :
  ev_kind ev = EV_POINTER →
  ∃ e, list.last (spec_push l ev o) = Some (e, o) ∧ ev_kind e = EV_POINTER ∧
       ev_flags e = ev_flags ev ∧ ev_a e = ev_a ev ∧
       ∃ b0, ev_b e = Z.lor b0 (ev_b ev).
Proof.
  intros Hk. unfold spec_push. replace (is_tick ev) with false by (unfold is_tick; by rewrite Hk).
  assert (∀ k, ∃ e, list.last (k ++ [(ev, o)]) = Some (e, o) ∧ ev_kind e = EV_POINTER ∧
    ev_flags e = ev_flags ev ∧ ev_a e = ev_a ev ∧ ∃ b0, ev_b e = Z.lor b0 (ev_b ev)) as Happ.
  { intros k. rewrite last_snoc. exists ev. repeat split; try done. by exists 0%Z. }
  destruct (list.last l) as [x|] eqn:Hl; [|apply (Happ [])].
  case_if; [|apply Happ]. unfold on, pointer_like in E. unbool.
  pose proof Hl as Hl'. rewrite last_lookup, <- Nat.sub_1_r in Hl'.
  rewrite (list_alter_insert _ _ _ x Hl').
  rewrite last_lookup, length_insert, <- Nat.sub_1_r.
  rewrite list_lookup_insert_eq by by eapply lookup_lt_Some.
  destruct x as [e o']. simpl in *. subst o'.
  exists (set_ab e (ev_a ev) (Z.lor (ev_b e) (ev_b ev))). simpl. eauto 10.
Qed.

Lemma last_position_true (p : entry → bool) l x :
  list.last l = Some x → p x = true → isSome (position p l) = true.
Proof.
  intros [k ->]%last_Some Hp. destruct (position p (k ++ [x])) eqn:E; [done|].
  apply position_None in E. apply Forall_app in E as [_ E]. inv E. congruence.
Qed.

(** What a consumer sees of an entry, the sequence number and [b] apart. *)
Definition ev_sig (x : entry) : Z * Z * Z * Z := (ev_kind x.1, ev_flags x.1, ev_a x.1, x.2).

Lemma push_focus_spec c o f a : wf (Q c) → q_len (Q c) < EVENT_CAP →
  let c' := push_event_for c o EV_FOCUS f a 0 in
  wf (Q c') ∧ FOCUS_PID c' = FOCUS_PID c ∧ FOCUS_MIRROR c' = FOCUS_MIRROR c ∧
  q_len (Q c') = q_len (Q c) + 1 ∧
  (ev_sig <$> view (Q c')) = (ev_sig <$> view (Q c)) ++ [(EV_FOCUS, f, a, canonical_pid o)].
Proof.
  intros Hw Hl c'. set (ev := mkEvent 0 EV_FOCUS f a 0).
  destruct (push_refines (Q c) ev (canonical_pid o) Hw) as [Hw' Hv].
  assert (view (push (Q c) ev (canonical_pid o)) =
          view (Q c) ++ [(set_seq ev (q_next_seq (Q c)), canonical_pid o)]) as Ha.
  { rewrite Hv. unfold spec_push. simpl. pose proof (view_length (Q c)).
    destruct (list.last (view (Q c))) as [z|] eqn:Hz.
    - by rewrite (proj2 (Nat.eqb_neq _ _)) by lia.
    - apply last_None in Hz. by rewrite Hz. }
  unfold c'. rewrite Q_push_event_for. fold ev. split; [done|].
  assert (FOCUS_PID c' = FOCUS_PID c ∧ FOCUS_MIRROR c' = FOCUS_MIRROR c) as [? ?].
  { unfold c', push_event_for, wake_waiter. simpl. by case_if. }
  split; [done|]. split; [done|]. split.
  - apply (f_equal length) in Ha. by rewrite view_length, length_app, view_length in Ha.
  - rewrite Ha, fmap_app. done.
Qed.

(** ** Theorems *)

(** C23: in every state reachable by calls of the window-manager API the ring
    is well formed, holds at most 256 events, and holds at most one plain vsync
    tick per owner, however many ticks were pushed. *)
Theorem wm_reachable_invariant c :
  reachable c →
  wf (Q c) ∧ length (view (Q c)) ≤ EVENT_CAP ∧
  ∀ owner, countb (on (tick_of owner)) (view (Q c)) ≤ 1.
Proof.
  intros [Hw Hu]%core_inv_reachable. split; [done|]. split; [|done].
  rewrite view_length. by destruct Hw.
Qed.

(** C24: isolation and priority of delivery: an event handed to [pid] is
    queued as a broadcast or for [pid]'s own group; it is removed alone, every
    other event keeping its place; a queued vsync baton goes before input and
    input before everything else; among equals the oldest goes first. *)
Theorem wm_pop_isolated_and_prioritised c pid ev c' :
  wf (Q c) → pop_event_for c pid = (c', Some ev) →
  let me := canonical_pid pid in
  ∃ i owner,
    view (Q c) !! i = Some (ev, owner) ∧
    (owner = 0%Z ∨ owner = me) ∧
    view (Q c') = delete i (view (Q c)) ∧
    (∀ j x, view (Q c) !! j = Some x → on (visible_any me) x = true →
       (is_baton x.1 = true → is_baton ev = true ∧ i ≤ j) ∧
       (is_input x.1 = true → is_baton ev = true ∨ (is_input ev = true ∧ i ≤ j)) ∧
       (is_baton ev = true ∨ is_input ev = true ∨ i ≤ j)).
Proof.
  intros Hw Hp me. unfold pop_event_for in Hp. fold me in Hp.
  destruct (pop_for_refines (Q c) me Hw) as [Hw' Hr].
  destruct (pop_for (Q c) me) as [q r]. simpl in *. destruct r as [e|]; [|done].
  assert (e = ev ∧ Q c' = q) as [-> Hq] by (simplify_eq; split; [done|by case_if]).
  rewrite Hq. unfold spec_pop in Hr. destruct (spec_choose _ me) as [i|] eqn:Hc; [|done].
  destruct (lookup_lt_is_Some_2 (view (Q c)) i) as [[e o] Hx]; [by eapply spec_choose_lt|].
  pose proof (spec_choose_visible _ _ _ _ Hc Hx) as Hvis. rewrite Hx in Hr. simpl in Hr.
  injection Hr as Hv <-. exists i, o. split; [done|]. split.
  { unfold on, visible_any, owner_visible_to_consumer in Hvis. simpl in Hvis.
    apply orb_true_iff in Hvis as [?|?]; unbool; auto. }
  split; [done|]. intros j x Hj Hxv. unfold spec_choose in Hc.
  assert (∀ t n, position (on t) (view (Q c)) = Some n → on t x = true → n ≤ j) as Hmin.
  { intros t n [_ Hlt]%position_Some Ht. destruct (decide (n ≤ j)); [done|].
    specialize (Hlt j x ltac:(lia) Hj). congruence. }
  assert (∀ t, position (on t) (view (Q c)) = None → on t x = false) as Hnone.
  { intros t Hn%position_None. by eapply Forall_lookup_1 in Hn. }
  assert (∀ t, position (on t) (view (Q c)) = Some i → on t (e, o) = true) as Hsel.
  { intros t [(y & Hy & Ht) _]%position_Some. by simplify_eq. }
  unfold on, visible_any in Hxv. destruct x as [ex ox]. simpl in *.
  destruct (position (on (visible_baton me)) _) as [i1|] eqn:E1; [simplify_eq|].
  { pose proof (Hsel _ E1) as Hs. apply andb_true_iff in Hs as [_ Hs].
    specialize (Hmin _ _ E1). unfold on, visible_baton in Hmin. simpl in Hs, Hmin.
    rewrite Hxv in Hmin. clear -Hs Hmin. simpl in Hmin. intuition auto. }
  specialize (Hnone _ E1) as Hn1. unfold on, visible_baton in Hn1. simpl in Hn1.
  rewrite Hxv in Hn1. simpl in Hn1.
  destruct (position (on (visible_input me)) _) as [i2|] eqn:E2; [simplify_eq|].
  { pose proof (Hsel _ E2) as Hs. apply andb_true_iff in Hs as [_ Hs].
    specialize (Hmin _ _ E2). unfold on, visible_input in Hmin. simpl in Hs, Hmin.
    rewrite Hxv in Hmin. clear -Hs Hmin Hn1. simpl in Hmin. intuition congruence. }
  specialize (Hnone _ E2) as Hn2. unfold on, visible_input in Hn2. simpl in Hn2.
  rewrite Hxv in Hn2. simpl in Hn2.
  specialize (Hmin _ _ Hc Hxv). clear -Hmin Hn1 Hn2. intuition congruence.
Qed.

(** a button press or release is never lost to coalescing: after
    [push_pointer] with buttons that differ from the last report, the newest
    queued event carries the new buttons and position and is flagged as high
    priority for the process it is routed to, and that process is woken. *)
Theorem wm_button_transition_delivered w x y buttons now :
  wf (Q (core w)) → buttons ≠ LAST_BUTTONS (input w) →
  let target := route (FOCUS_PID (core w)) x y in
  (0 < target)%Z →
  let c' := core (push_pointer w x y buttons now) in
  (∃ e, list.last (view (Q c')) = Some (e, canonical_pid target) ∧
        ev_kind e = EV_POINTER ∧ ev_flags e = buttons ∧ ev_a e = pack_xy x y) ∧
  high_priority_input_pending_for c' target = true ∧
  canonical_pid target ∈ wakes c'.
Proof.
  intros Hw Hb target Ht c'. unfold c', push_pointer.
  rewrite (proj2 (Z.eqb_neq _ _)) by done. cbn [core set_core set_input].
  fold target. set (ev := mkEvent 0 EV_POINTER buttons (pack_xy x y) 1).
  destruct (push_refines (Q (core w)) ev (canonical_pid target) Hw) as [Hw' Hv].
  destruct (spec_push_pointer_last (view (Q (core w))) (set_seq ev (q_next_seq (Q (core w))))
              (canonical_pid target) eq_refl) as (e & Hl & Hk & Hf & Ha & b0 & Hb0).
  split; [|split].
  - rewrite Q_push_event_for. fold ev. rewrite Hv. eauto.
  - unfold high_priority_input_pending_for, high_priority_pending_for.
    rewrite Q_push_event_for. fold ev. rewrite scan_position, Hv by done.
    eapply last_position_true; [done|]. unfold on, high_priority, owner_visible_to_consumer.
    cbn [fst snd]. rewrite Z.eqb_refl, orb_true_r, Hk, Hb0. simpl.
    assert ((Z.lor b0 1 =? 0)%Z = false) as ->; [|by rewrite orb_true_r].
    apply Z.eqb_neq. intros [_ ?]%Z.lor_eq_0_iff. done.
  - by apply push_input_wakes.
Qed.

(** a focus change is announced to both sides, once each: the loser and
    the winner get one targeted event naming the other, in that order, and
    re-focusing the current process queues nothing. *)
Theorem wm_focus_change_events c pid :
  wf (Q c) → q_len (Q c) + 2 ≤ EVENT_CAP → FOCUS_MIRROR c = false →
  canonical_pid (FOCUS_PID c) = FOCUS_PID c → (0 ≤ pid)%Z →
  let old := FOCUS_PID c in
  let new := canonical_pid pid in
  let c' := set_focus_pid c pid in
  FOCUS_PID c' = new ∧
  (ev_sig <$> view (Q c')) = (ev_sig <$> view (Q c)) ++
    (if (old =? new)%Z then []
     else (if (old =? 0)%Z then [] else [(EV_FOCUS, FOCUS_LOST, new, old)]) ++
          (if (new =? 0)%Z then [] else [(EV_FOCUS, FOCUS_GAINED, old, new)])).
Proof.
  intros Hw Hlen Hm Hcan Hpid old new c'.
  assert (canonical_pid new = new) as Hcn by by apply canonical_pid_idem.
  unfold c', set_focus_pid. fold new old.
  destruct (old =? new)%Z eqn:Eon; [by rewrite app_nil_r|].
  set (c1 := set_focus_raw c new).
  destruct (push_focus_spec c1 old FOCUS_LOST new) as (H1 & H2 & H3 & H4 & H5);
    [done|simpl; lia|].
  set (c2 := if negb (old =? 0)%Z then _ else c1).
  assert (wf (Q c2) ∧ FOCUS_PID c2 = new ∧ FOCUS_MIRROR c2 = false ∧ q_len (Q c2) < EVENT_CAP ∧
    (ev_sig <$> view (Q c2)) = (ev_sig <$> view (Q c)) ++
      (if (old =? 0)%Z then [] else [(EV_FOCUS, FOCUS_LOST, new, old)]))
    as (Hw2 & Hf2 & Hm2 & Hl2 & Hv2).
  { unfold c2. destruct (old =? 0)%Z; simpl.
    - rewrite app_nil_r. split_and!; try done. change (q_len (Q c) < EVENT_CAP). lia.
    - rewrite H2, H3, H4, H5. split_and!; try done; [change (q_len (Q c) + 1 < EVENT_CAP); lia|].
      unfold old. by rewrite Hcan. }
  clearbody c2. destruct (new =? 0)%Z; simpl; [by rewrite Hm2, app_nil_r|].
  destruct (push_focus_spec c2 new FOCUS_GAINED old Hw2 Hl2) as (G1 & G2 & G3 & G4 & G5).
  rewrite G3, Hm2, G2. split; [done|]. by rewrite G5, Hv2, Hcn, <- app_assoc.
Qed.

(** a full ring loses the vsync baton: [push_front] puts the baton at the
    head, which is the slot [push] frees when the ring is full.  Any further
    event that does not coalesce then removes the only queued baton for every
    consumer, while [vsync_baton_pending] keeps reporting it. *)
Theorem wm_full_ring_evicts_baton c e o rest owner kind flags a b :
  wf (Q c) → view (Q c) = (e, o) :: rest → length rest = EVENT_CAP - 1 →
  is_baton e = true → Forall (λ x, is_baton x.1 = false) rest →
  BATON_VSYNC_QUEUED c = true → kind ≠ EV_VSYNC → kind ≠ EV_POINTER →
  let c' := push_event_for c owner kind flags a b in
  (∀ pid, baton_vsync_queued_for c' pid = false) ∧ vsync_baton_pending c' = true.
Proof.
  intros Hw Hv Hlen He Hrest Hq Hk1 Hk2 c'. split.
  - intros pid. unfold baton_vsync_queued_for, has_baton_vsync_for, c'.
    rewrite Q_push_event_for. set (ev := mkEvent 0 kind flags a b).
    destruct (push_refines (Q c) ev (canonical_pid owner) Hw) as [Hw' Hp].
    rewrite scan_position, Hp by done. unfold spec_push, is_tick. simpl.
    rewrite (proj2 (Z.eqb_neq kind EV_VSYNC)), (proj2 (Z.eqb_neq kind EV_POINTER)) by done.
    simpl. destruct (list.last (view (Q c))) as [z|] eqn:Hz.
    2: { apply last_None in Hz. congruence. }
    rewrite Hv. cbn [length tail].
    rewrite (proj2 (Nat.eqb_eq _ EVENT_CAP)) by (pose proof event_cap_pos; lia).
    rewrite (proj2 (position_None _ _)); [done|]. apply Forall_app. split.
    + eapply Forall_impl; [exact Hrest|]. intros x Hx. unfold on, visible_baton.
      by rewrite Hx, andb_false_r.
    + constructor; [|constructor]. unfold on, visible_baton, is_baton. simpl.
      by rewrite (proj2 (Z.eqb_neq kind EV_VSYNC)), andb_false_r by done.
  - unfold vsync_baton_pending.
    assert (BATON_VSYNC_QUEUED c' = true) as ->; [|by rewrite orb_true_r].
    unfold c', push_event_for, wake_waiter. simpl. repeat case_if; done.
Qed.

End api.

(** ** Witnesses: every process its own group leader, nothing on screen *)

Definition solo_groups : ProcessGroups :=
  {| group_leader := λ p, p; group_leader_idem := λ p, eq_refl; group_leader_pos := λ p H, H |}.
Definition no_surfaces : HitTest :=
  {| surface_at_point := λ _ _, None; is_fb_bypass := false |}.
#[local] Existing Instance solo_groups.
#[local] Existing Instance no_surfaces.

Definition sample_core : Core := push_event_for (push_vsync (set_vsync_baton Core_init 7 5) 1) 7 4 1 0 0.

Lemma sample_reachable : reachable sample_core.
Proof.
  unfold sample_core. repeat (eapply reach_step; [|constructor]). constructor.
Qed.

Lemma wm_reachable_invariant_witness :
  reachable sample_core ∧ length (view (Q sample_core)) = 3 ∧
  countb (on (tick_of 0)) (view (Q sample_core)) ≤ 1.
Proof.
  split; [apply sample_reachable|]. split; [vm_compute; reflexivity|].
  apply (wm_reachable_invariant sample_core sample_reachable).
Defined.

Lemma wm_pop_witness :
  ∃ i owner, view (Q sample_core) !! i = Some (mkEvent 1 1 0 0 5, owner) ∧
             (owner = 0%Z ∨ owner = canonical_pid 7).
Proof.
  destruct (wm_pop_isolated_and_prioritised sample_core 7 (mkEvent 1 1 0 0 5)
              (pop_event_for sample_core 7).1) as (i & owner & H1 & H2 & _).
  - apply core_inv_reachable, sample_reachable.
  - vm_compute. reflexivity.
  - exists i, owner. split; assumption.
Defined.

Definition focused_wm : Wm := set_core Wm_init (set_focus_pid Core_init 7).

Lemma wm_button_witness : 7%Z ∈ wakes (core (push_pointer focused_wm 10 20 1 99)).
Proof.
  destruct (wm_button_transition_delivered focused_wm 10 20 1 99) as (_ & _ & H).
  - apply (core_inv_reachable (set_focus_pid Core_init 7)).
    eapply reach_step; constructor.
  - discriminate.
  - vm_compute. reflexivity.
  - exact H.
Defined.

Lemma wm_focus_witness :
  FOCUS_PID (set_focus_pid sample_core 9) = 9%Z ∧
  (ev_sig <$> view (Q (set_focus_pid sample_core 9))) =
  (ev_sig <$> view (Q sample_core)) ++ [(EV_FOCUS, FOCUS_GAINED, 0, 9)%Z].
Proof.
  cut (FOCUS_PID sample_core = 0%Z); [|reflexivity]. intros E0.
  pose proof (wm_focus_change_events sample_core 9) as H. rewrite E0 in H.
  apply H.
  - apply core_inv_reachable, sample_reachable.
  - vm_compute. lia.
  - reflexivity.
  - reflexivity.
  - lia.
Defined.

(** 255 application events behind a baton fill the ring. *)
Definition full_core : Core :=
  Nat.iter 255 (λ c, push_event_for c 3 EV_APP 1 0 0) (set_vsync_baton Core_init 7 5).

Lemma wm_full_ring_witness :
  vsync_baton_pending (push_event_for full_core 3 EV_APP 1 0 0) = true ∧
  baton_vsync_queued_for (push_event_for full_core 3 EV_APP 1 0 0) 7 = false.
Proof.
  assert (wf (Q full_core)) as Hw.
  { apply core_inv_reachable. unfold full_core. generalize 255. intros n.
    induction n as [|n IH]; simpl.
    - eapply reach_step; [constructor|]. constructor.
    - eapply reach_step; [exact IH|]. constructor. }
  destruct (wm_full_ring_evicts_baton full_core (mkEvent 1 1 0 0 5) 7
              (tail (view (Q full_core))) 3 EV_APP 1 0 0) as [H1 H2];
    [exact Hw|vm_compute; reflexivity|vm_compute; reflexivity|reflexivity| |
     vm_compute; reflexivity|discriminate|discriminate|].
  - apply Forall_forall. intros x Hx. apply list_elem_of_In in Hx. revert x Hx.
    apply List.Forall_forall. vm_compute. repeat constructor.
  - split; [exact H2|apply H1].
Defined.

End Wm.
