(* ===== verification/Fb.v ===== *)
(** * The framebuffer driver

    Models the drawing operations of [drivers/fb.rs]: the statics of the
    module as the record [Fb] (the memory at [FB_ADDR] is the list [vram], one
    entry per 32-bit word), [set_pixel], [get_pixel], [fill_rect],
    [blit_rgba32], [set_double_buffer] and [swap_buffers].  An index of the
    double buffer out of range panics; a raw write outside the mapped
    framebuffer is [Panic] as well, so that a theorem that ends in [Val] also
    says that no such write happens.  The main result is [blit_pixel]: after a
    blit every pixel of the screen is the source pixel when it lies in the
    image's rectangle and unchanged otherwise, whatever part of the rectangle
    hangs off the screen. *)

From Stdlib Require Import ZArith Lia.
From stdpp Require Import base numbers strings option list.
From S2P Require Import Prelude.

Local Open Scope Z_scope.

Module Fb.

Record Fb := mkFb {
  FB_READY : bool;
  FB_WIDTH : Z;
  FB_HEIGHT : Z;
  FB_PITCH_PX : Z;
  FB_R_SHIFT : Z;
  FB_G_SHIFT : Z;
  FB_B_SHIFT : Z;
  FB_XRGB_FAST : bool;
  DOUBLE_BUFFER : option (list Z);
  DOUBLE_BUFFER_ACTIVE : bool;
  vram : list Z
}.

Definition set_DOUBLE_BUFFER (f : Fb) (b : option (list Z)) : Fb :=
  mkFb (FB_READY f) (FB_WIDTH f) (FB_HEIGHT f) (FB_PITCH_PX f)
       (FB_R_SHIFT f) (FB_G_SHIFT f) (FB_B_SHIFT f) (FB_XRGB_FAST f)
       b (DOUBLE_BUFFER_ACTIVE f) (vram f).
Definition set_DOUBLE_BUFFER_ACTIVE (f : Fb) (a : bool) : Fb :=
  mkFb (FB_READY f) (FB_WIDTH f) (FB_HEIGHT f) (FB_PITCH_PX f)
       (FB_R_SHIFT f) (FB_G_SHIFT f) (FB_B_SHIFT f) (FB_XRGB_FAST f)
       (DOUBLE_BUFFER f) a (vram f).
Definition set_vram (f : Fb) (v : list Z) : Fb :=
  mkFb (FB_READY f) (FB_WIDTH f) (FB_HEIGHT f) (FB_PITCH_PX f)
       (FB_R_SHIFT f) (FB_G_SHIFT f) (FB_B_SHIFT f) (FB_XRGB_FAST f)
       (DOUBLE_BUFFER f) (DOUBLE_BUFFER_ACTIVE f) v.

Definition is_ready (f : Fb) : bool := FB_READY f.

Definition size_px (f : Fb) : option (Z * Z) :=
  if is_ready f then Some (FB_WIDTH f, FB_HEIGHT f) else None.

Definition fb_pack (f : Fb) (color : Z) : Z :=
  if FB_XRGB_FAST f then color
  else
    let r := Z.land (Z.shiftr color 16) 0xFF in
    let g := Z.land (Z.shiftr color 8) 0xFF in
    let b := Z.land color 0xFF in
    Z.lor (Z.lor (u32 (Z.shiftl r (FB_R_SHIFT f mod 32)))
                 (u32 (Z.shiftl g (FB_G_SHIFT f mod 32))))
          (u32 (Z.shiftl b (FB_B_SHIFT f mod 32))).

(** Every drawing operation runs its loop [k] on the double buffer with the
    colours as they are when double buffering is active and the buffer exists,
    and else on the framebuffer itself with the colours repacked. *)
Definition draw (f : Fb) (k : (Z → Z) → list Z → outcome (list Z)) : outcome Fb :=
  let direct := let! v := k (fb_pack f) (vram f) in Val (set_vram f v) in
  if DOUBLE_BUFFER_ACTIVE f then
    match DOUBLE_BUFFER f with
    | Some buf => let! b := k id buf in Val (set_DOUBLE_BUFFER f (Some b))
    | None => direct
    end
  else direct.

Definition set_pixel (f : Fb) (x y color : Z) : outcome Fb :=
  if negb (is_ready f) then Val f
  else if (FB_WIDTH f <=? x) || (FB_HEIGHT f <=? y) then Val f
  else
    let pitch_px := Z.to_nat (FB_PITCH_PX f) in
    draw f (λ pack buf,
      store buf (Z.to_nat y * pitch_px + Z.to_nat x)%nat (pack color)).

Definition get_pixel (f : Fb) (x y : Z) : outcome Z :=
  if negb (is_ready f) then Val 0
  else if (FB_WIDTH f <=? x) || (FB_HEIGHT f <=? y) then Val 0
  else
    let pitch_px := Z.to_nat (FB_PITCH_PX f) in
    let at_ := (Z.to_nat y * pitch_px + Z.to_nat x)%nat in
    if DOUBLE_BUFFER_ACTIVE f then
      match DOUBLE_BUFFER f with
      | Some buf => load buf at_
      | None => load (vram f) at_
      end
    else load (vram f) at_.

(** [for row in 0..ch { for col in 0..cw { buf[(y0 + row) * pitch + x0 + col] = v(row, col) } }]. *)
Definition paint_row (pitch x0 dy cw : nat) (v : nat → outcome Z) (buf : list Z)
    : outcome (list Z) :=
  let dst_row := (dy * pitch + x0)%nat in
  for_range 0 cw (λ col b, let! p := v col in store b (dst_row + col)%nat p) buf.

Definition paint_rect (pitch x0 y0 cw ch : nat) (v : nat → nat → outcome Z)
    (buf : list Z) : outcome (list Z) :=
  for_range 0 ch (λ row b, paint_row pitch x0 (y0 + row)%nat cw (v row) b) buf.

(** The screen interval a span of [len] pixels at [x] is clipped to. *)
Definition clip_lo (x width : Z) : Z := Z.min (Z.max x 0) width.
Definition clip_hi (x len width : Z) : Z :=
  Z.min (Z.max (sat_add32 x (i32 len)) 0) width.

Definition fill_rect (f : Fb) (x y w h color : Z) : outcome Fb :=
  if negb (is_ready f) || (w =? 0) || (h =? 0) then Val f
  else
    let width := i32 (FB_WIDTH f) in
    let height := i32 (FB_HEIGHT f) in
    let pitch_px := Z.to_nat (FB_PITCH_PX f) in
    let x0 := clip_lo x width in
    let y0 := clip_lo y height in
    let x1 := clip_hi x w width in
    let y1 := clip_hi y h height in
    if (x1 <=? x0) || (y1 <=? y0) then Val f
    else
      draw f (λ pack,
        paint_rect pitch_px (Z.to_nat x0) (Z.to_nat y0)
          (Z.to_nat (x1 - x0)) (Z.to_nat (y1 - y0)) (λ _ _, Val (pack color))).

(** RGBA (R in the low byte) to 0x00RRGGBB. *)
Definition xrgb (px : Z) : Z :=
  let r := Z.land px 0x000000FF in
  let g := Z.shiftr (Z.land px 0x0000FF00) 8 in
  let b := Z.shiftr (Z.land px 0x00FF0000) 16 in
  Z.lor (Z.lor (Z.shiftl r 16) (Z.shiftl g 8)) b.

Definition blit_rgba32 (f : Fb) (x y src_w src_h : Z) (src : list Z) : outcome Fb :=
  if negb (is_ready f) || (src_w =? 0) || (src_h =? 0) then Val f
  else if (Z.of_nat (length src) <? src_w * src_h) then Val f
  else
    let width := i32 (FB_WIDTH f) in
    let height := i32 (FB_HEIGHT f) in
    let pitch_px := Z.to_nat (FB_PITCH_PX f) in
    let x0 := clip_lo x width in
    let y0 := clip_lo y height in
    let x1 := clip_hi x src_w width in
    let y1 := clip_hi y src_h height in
    if (x1 <=? x0) || (y1 <=? y0) then Val f
    else
      let clip_w := Z.to_nat (x1 - x0) in
      let clip_h := Z.to_nat (y1 - y0) in
      let src_x0 := Z.to_nat (x0 - x) in
      let src_y0 := Z.to_nat (y0 - y) in
      let src_stride := Z.to_nat src_w in
      draw f (λ pack,
        paint_rect pitch_px (Z.to_nat x0) (Z.to_nat y0) clip_w clip_h
          (λ row col,
             let! px := load src ((src_y0 + row) * src_stride + src_x0 + col)%nat in
             Val (pack (xrgb px)))).

Definition MAX_DB_PIXELS : Z := 24 * 1024 * 1024.

(** [reserve_ok] is the answer of [try_reserve_exact], the allocator's. *)
Definition set_double_buffer (f : Fb) (active reserve_ok : bool) : Fb :=
  let f1 := set_DOUBLE_BUFFER_ACTIVE f active in
  if active then
    match DOUBLE_BUFFER f1 with
    | Some _ => f1
    | None =>
        let size := FB_PITCH_PX f1 * FB_HEIGHT f1 in
        if (size =? 0) || (MAX_DB_PIXELS <? size) || negb reserve_ok
        then set_DOUBLE_BUFFER_ACTIVE f1 false
        else set_DOUBLE_BUFFER f1 (Some (replicate (Z.to_nat size) 0))
    end
  else f1.

Definition swap_buffers (f : Fb) : outcome Fb :=
  if negb (is_ready f) || negb (DOUBLE_BUFFER_ACTIVE f) then Val f
  else
    match DOUBLE_BUFFER f with
    | None => Val f
    | Some buf =>
        let total := (Z.to_nat (FB_HEIGHT f) * Z.to_nat (FB_PITCH_PX f))%nat in
        if FB_XRGB_FAST f then
          if (total <=? length buf)%nat && (total <=? length (vram f))%nat
          then Val (set_vram f (copy_at (vram f) 0 (take total buf))) else Panic
        else
          let! v := for_range 0 total (λ i v,
                      let! c := load buf i in store v i (fb_pack f c)) (vram f) in
          Val (set_vram f v)
    end.

(** ** Properties *)

(** The list the drawing operations write, the colour they write for [c], and
    the state after the list has been replaced. *)
Definition canvas (f : Fb) : list Z :=
  if DOUBLE_BUFFER_ACTIVE f then default (vram f) (DOUBLE_BUFFER f) else vram f.
Definition ink (f : Fb) (c : Z) : Z :=
  if DOUBLE_BUFFER_ACTIVE f then
    match DOUBLE_BUFFER f with Some _ => c | None => fb_pack f c end
  else fb_pack f c.
Definition set_canvas (f : Fb) (b : list Z) : Fb :=
  if DOUBLE_BUFFER_ACTIVE f then
    match DOUBLE_BUFFER f with
    | Some _ => set_DOUBLE_BUFFER f (Some b)
    | None => set_vram f b
    end
  else set_vram f b.

(** The pixel [(px, py)] of the drawing target. *)
Definition pixel (f : Fb) (px py : nat) : option Z :=
  canvas f !! (py * Z.to_nat (FB_PITCH_PX f) + px)%nat.

Record wf (f : Fb) : Prop := mkWf {
  wf_width : 0 ≤ FB_WIDTH f < 2 ^ 31;
  wf_height : 0 ≤ FB_HEIGHT f < 2 ^ 31;
  wf_pitch : FB_WIDTH f ≤ FB_PITCH_PX f;
  wf_canvas : length (canvas f) = (Z.to_nat (FB_HEIGHT f) * Z.to_nat (FB_PITCH_PX f))%nat
}.

Lemma draw_canvas f k :
  draw f k = let! b := k (ink f) (canvas f) in Val (set_canvas f b).
Proof.
  unfold draw, canvas, set_canvas, ink.
  destruct (DOUBLE_BUFFER_ACTIVE f); [|done]. by destruct (DOUBLE_BUFFER f).
Qed.

(** Replacing the canvas keeps the geometry and the mode. *)
Lemma set_canvas_frame f b :
  FB_READY (set_canvas f b) = FB_READY f ∧ FB_WIDTH (set_canvas f b) = FB_WIDTH f ∧
  FB_HEIGHT (set_canvas f b) = FB_HEIGHT f ∧ FB_PITCH_PX (set_canvas f b) = FB_PITCH_PX f ∧
  canvas (set_canvas f b) = b ∧ ink (set_canvas f b) = ink f.
Proof.
  unfold set_canvas, canvas, ink.
  destruct (DOUBLE_BUFFER_ACTIVE f) eqn:Ha; [destruct (DOUBLE_BUFFER f) eqn:Hd|];
    simpl; rewrite ?Ha, ?Hd; done.
Qed.

Lemma set_canvas_canvas f : set_canvas f (canvas f) = f.
Proof.
  destruct f as [? ? ? ? ? ? ? ? d a v]. unfold set_canvas, canvas. simpl.
  by destruct a, d.
Qed.

Lemma set_canvas_twice f b b' : set_canvas (set_canvas f b) b' = set_canvas f b'.
Proof.
  destruct f as [? ? ? ? ? ? ? ? d a v]. unfold set_canvas. simpl. by destruct a, d.
Qed.

Lemma wf_set_canvas f b : wf f → length b = length (canvas f) → wf (set_canvas f b).
Proof.
  intros [??? Hc] Hb. destruct (set_canvas_frame f b) as (_ & Hw & Hh & Hp & Hcv & _).
  split; rewrite ?Hw, ?Hh, ?Hp, ?Hcv; try done. by rewrite Hb.
Qed.

(** The painted rectangle: inside it the canvas holds [g], elsewhere what it
    held before. *)
Definition painted (pitch x0 y0 cw ch : nat) (g : nat → nat → Z) (buf buf' : list Z) : Prop :=
  length buf' = length buf ∧
  ∀ px py, (px < pitch)%nat →
    buf' !! (py * pitch + px)%nat =
    if bool_decide ((y0 ≤ py < y0 + ch) ∧ (x0 ≤ px < x0 + cw))%nat
    then Some (g (py - y0)%nat (px - x0)%nat) else buf !! (py * pitch + px)%nat.

Lemma paint_row_ok pitch x0 dy cw v g buf :
  (∀ col, (col < cw)%nat → v col = Val (g col)) →
  (dy * pitch + x0 + cw ≤ length buf)%nat →
  ∃ buf', paint_row pitch x0 dy cw v buf = Val buf' ∧ length buf' = length buf ∧
    ∀ j, buf' !! j = if bool_decide (dy * pitch + x0 ≤ j < dy * pitch + x0 + cw)%nat
                     then Some (g (j - (dy * pitch + x0))%nat) else buf !! j.
Proof.
  intros Hv Hlen. unfold paint_row. set (d := (dy * pitch + x0)%nat) in *.
  destruct (for_range_inv
    (λ n b, length b = length buf ∧ ∀ j, b !! j =
       if bool_decide (d ≤ j < d + n)%nat then Some (g (j - d)%nat) else buf !! j)
    (λ col b, let! p := v col in store b (d + col)%nat p) 0 cw buf)
    as (b & Hb & Hl & Hj); [split| |by exists b].
  - done.
  - intros j. by rewrite bool_decide_eq_false_2 by lia.
  - intros k b Hk [Hl Hj]. rewrite Hv by lia. simpl. rewrite store_ok by lia.
    eexists; split; [done|]. rewrite length_insert. split; [done|]. intros j.
    destruct (decide (j = d + k)%nat) as [->|Hne].
    + rewrite list_lookup_insert_eq by lia. rewrite bool_decide_eq_true_2 by lia.
      do 2 f_equal. lia.
    + rewrite list_lookup_insert_ne by lia. rewrite Hj.
      repeat case_bool_decide; try done; lia.
Qed.

Lemma paint_rect_ok pitch x0 y0 cw ch v g buf :
  (∀ row col, (row < ch)%nat → (col < cw)%nat → v row col = Val (g row col)) →
  (x0 + cw ≤ pitch)%nat → ((y0 + ch) * pitch ≤ length buf)%nat →
  ∃ buf', paint_rect pitch x0 y0 cw ch v buf = Val buf' ∧
    painted pitch x0 y0 cw ch g buf buf'.
Proof.
  intros Hv Hx Hlen. unfold paint_rect.
  destruct (for_range_inv (λ n b, painted pitch x0 y0 cw n g buf b)
    (λ row b, paint_row pitch x0 (y0 + row)%nat cw (v row) b) 0 ch buf)
    as (b & Hb & Hp); [split| |by exists b].
  - done.
  - intros px py _. by rewrite bool_decide_eq_false_2 by lia.
  - intros k b Hk [Hl Hp].
    destruct (paint_row_ok pitch x0 (y0 + k) cw (v k) (g k) b) as (b' & Hb' & Hl' & Hj).
    { intros. apply Hv; lia. }
    { rewrite Hl. nia. }
    exists b'. split; [done|]. split; [congruence|]. intros px py Hpx. rewrite Hj.
    destruct (decide (py = y0 + k)%nat) as [->|Hne].
    + destruct (decide (x0 ≤ px < x0 + cw)%nat).
      * rewrite !bool_decide_eq_true_2 by lia. do 2 f_equal; lia.
      * rewrite bool_decide_eq_false_2 by lia. rewrite Hp by done.
        by rewrite !bool_decide_eq_false_2 by lia.
    + rewrite bool_decide_eq_false_2.
      * rewrite Hp by done. repeat case_bool_decide; try done; lia.
      * destruct (decide (py < y0 + k)%nat); nia.
Qed.

(** The screen pixel [(px, py)] lies in the [w] by [h] rectangle at [(x, y)]. *)
Definition inside (x y w h : Z) (px py : nat) : bool :=
  (x <=? Z.of_nat px) && (Z.of_nat px <? x + w) &&
  (y <=? Z.of_nat py) && (Z.of_nat py <? y + h).

(** Clipping a span keeps exactly its pixels that are on the screen. *)
Lemma clip_iff x len width p :
  - 2 ^ 31 ≤ x < 2 ^ 31 → 0 ≤ len < 2 ^ 31 → 0 ≤ width < 2 ^ 31 → 0 ≤ p →
  clip_lo x width ≤ p < clip_hi x len width ↔ p < width ∧ x ≤ p < x + len.
Proof.
  intros. unfold clip_hi, clip_lo, sat_add32. rewrite i32_small by lia. lia.
Qed.

Lemma clip_range x len width :
  0 ≤ width → 0 ≤ clip_lo x width ∧ x ≤ Z.max x (clip_lo x width) ∧ clip_hi x len width ≤ width.
Proof. unfold clip_lo, clip_hi. lia. Qed.

(** What a rectangle operation leaves on the canvas: [col px py] in the part
    of the rectangle that is on the screen, the old canvas elsewhere (the
    padding between the width and the pitch included). *)
Definition covers (f : Fb) (x y w h : Z) (col : nat → nat → Z) (b : list Z) : Prop :=
  length b = length (canvas f) ∧
  ∀ px py, (px < Z.to_nat (FB_PITCH_PX f))%nat → (py < Z.to_nat (FB_HEIGHT f))%nat →
    b !! (py * Z.to_nat (FB_PITCH_PX f) + px)%nat =
    if (Z.of_nat px <? FB_WIDTH f) && inside x y w h px py
    then Some (col px py) else pixel f px py.

Lemma covers_painted f x y w h col v b :
  wf f → - 2 ^ 31 ≤ x < 2 ^ 31 → - 2 ^ 31 ≤ y < 2 ^ 31 →
  0 ≤ w < 2 ^ 31 → 0 ≤ h < 2 ^ 31 →
  clip_lo x (FB_WIDTH f) < clip_hi x w (FB_WIDTH f) →
  clip_lo y (FB_HEIGHT f) < clip_hi y h (FB_HEIGHT f) →
  painted (Z.to_nat (FB_PITCH_PX f))
    (Z.to_nat (clip_lo x (FB_WIDTH f))) (Z.to_nat (clip_lo y (FB_HEIGHT f)))
    (Z.to_nat (clip_hi x w (FB_WIDTH f) - clip_lo x (FB_WIDTH f)))
    (Z.to_nat (clip_hi y h (FB_HEIGHT f) - clip_lo y (FB_HEIGHT f))) v (canvas f) b →
  (∀ px py, inside x y w h px py = true →
     v (py - Z.to_nat (clip_lo y (FB_HEIGHT f)))%nat (px - Z.to_nat (clip_lo x (FB_WIDTH f)))%nat
     = col px py) →
  covers f x y w h col b.
Proof.
  intros [Hw Hh Hp _] Hx Hy Hlw Hlh Hcx Hcy [Hl Hb] Hv. split; [done|].
  intros px py Hpx Hpy. rewrite Hb by done. unfold pixel.
  pose proof (clip_iff x w (FB_WIDTH f) (Z.of_nat px) Hx Hlw Hw ltac:(lia)) as Ix.
  pose proof (clip_iff y h (FB_HEIGHT f) (Z.of_nat py) Hy Hlh Hh ltac:(lia)) as Iy.
  destruct (clip_range x w (FB_WIDTH f) ltac:(lia)) as (? & _ & _).
  destruct (clip_range y h (FB_HEIGHT f) ltac:(lia)) as (? & _ & _).
  case_bool_decide as Hin.
  - assert (inside x y w h px py = true) as Hi.
    { unfold inside. rewrite !andb_true_iff, !Z.leb_le, !Z.ltb_lt. lia. }
    rewrite Hi, (proj2 (Z.ltb_lt _ _)) by lia. simpl. f_equal. by apply Hv.
  - destruct ((Z.of_nat px <? FB_WIDTH f) && inside x y w h px py) eqn:E; [|done].
    exfalso. apply Hin. unfold inside in E. unbool. lia.
Qed.

(** Nothing of the rectangle is on the screen. *)
Lemma covers_offscreen f x y w h col :
  wf f → - 2 ^ 31 ≤ x < 2 ^ 31 → - 2 ^ 31 ≤ y < 2 ^ 31 →
  0 ≤ w < 2 ^ 31 → 0 ≤ h < 2 ^ 31 →
  clip_hi x w (FB_WIDTH f) ≤ clip_lo x (FB_WIDTH f) ∨
  clip_hi y h (FB_HEIGHT f) ≤ clip_lo y (FB_HEIGHT f) →
  covers f x y w h col (canvas f).
Proof.
  intros [Hw Hh Hp _] Hx Hy Hlw Hlh Hc. split; [done|]. intros px py Hpx Hpy.
  pose proof (clip_iff x w (FB_WIDTH f) (Z.of_nat px) Hx Hlw Hw ltac:(lia)) as Ix.
  pose proof (clip_iff y h (FB_HEIGHT f) (Z.of_nat py) Hy Hlh Hh ltac:(lia)) as Iy.
  destruct ((Z.of_nat px <? FB_WIDTH f) && inside x y w h px py) eqn:E; [|done].
  exfalso. unfold inside in E. unbool. lia.
Qed.

Lemma rect_fits f x y w h :
  wf f →
  clip_lo x (FB_WIDTH f) < clip_hi x w (FB_WIDTH f) →
  clip_lo y (FB_HEIGHT f) < clip_hi y h (FB_HEIGHT f) →
  (Z.to_nat (clip_lo x (FB_WIDTH f)) +
   Z.to_nat (clip_hi x w (FB_WIDTH f) - clip_lo x (FB_WIDTH f))
   ≤ Z.to_nat (FB_PITCH_PX f))%nat ∧
  ((Z.to_nat (clip_lo y (FB_HEIGHT f)) +
    Z.to_nat (clip_hi y h (FB_HEIGHT f) - clip_lo y (FB_HEIGHT f)))
   * Z.to_nat (FB_PITCH_PX f) ≤ length (canvas f))%nat.
Proof.
  intros [Hw Hh Hp Hc] Hx Hy.
  destruct (clip_range x w (FB_WIDTH f) ltac:(lia)) as (? & _ & ?).
  destruct (clip_range y h (FB_HEIGHT f) ltac:(lia)) as (? & _ & ?).
  split; [lia|]. rewrite Hc. apply Nat.mul_le_mono_r. lia.
Qed.

(** The early returns of the rectangle operations draw nothing because there
    is nothing to draw. *)
Lemma covers_early f x y w h col :
  wf f → - 2 ^ 31 ≤ x < 2 ^ 31 → - 2 ^ 31 ≤ y < 2 ^ 31 →
  0 ≤ w < 2 ^ 31 → 0 ≤ h < 2 ^ 31 →
  (w =? 0) || (h =? 0) = true ∨
  (clip_hi x w (FB_WIDTH f) <=? clip_lo x (FB_WIDTH f)) ||
  (clip_hi y h (FB_HEIGHT f) <=? clip_lo y (FB_HEIGHT f)) = true →
  ∃ b, Val f = Val (set_canvas f b) ∧ covers f x y w h col b.
Proof.
  intros Hwf Hx Hy Hw Hh He. exists (canvas f). rewrite set_canvas_canvas. split; [done|].
  apply covers_offscreen; try done. rewrite !orb_true_iff, !Z.leb_le, !Z.eqb_eq in He.
  destruct He as [He|He]; [|done]. pose proof (wf_width f Hwf). pose proof (wf_height f Hwf).
  unfold clip_hi, clip_lo, sat_add32. rewrite !i32_small by lia. lia.
Qed.

Lemma fill_rect_ok f x y w h color :
  wf f → FB_READY f = true → - 2 ^ 31 ≤ x < 2 ^ 31 → - 2 ^ 31 ≤ y < 2 ^ 31 →
  0 ≤ w < 2 ^ 31 → 0 ≤ h < 2 ^ 31 →
  ∃ b, fill_rect f x y w h color = Val (set_canvas f b) ∧
    covers f x y w h (λ _ _, ink f color) b.
Proof.
  intros Hwf Hr Hx Hy Hw Hh. pose proof (wf_width f Hwf). pose proof (wf_height f Hwf).
  unfold fill_rect, is_ready. rewrite Hr. cbn [negb orb].
  rewrite !(i32_small (FB_WIDTH f)), !(i32_small (FB_HEIGHT f)) by lia.
  case_if; [apply covers_early; auto|]. clear E. case_if; [apply covers_early; auto|].
  unbool. rewrite draw_canvas.
  destruct (rect_fits f x y w h) as [Hf1 Hf2]; [done..|].
  destruct (paint_rect_ok _ _ _ _ _ (λ _ _, Val (ink f color)) (λ _ _, ink f color)
    _ ltac:(done) Hf1 Hf2) as (b & Hb & Hp).
  rewrite Hb. exists b. split; [done|]. by eapply covers_painted.
Qed.

(** The colour of the image pixel that lands on the screen pixel [(px, py)]. *)
Definition image (x y w : Z) (src : list Z) (px py : nat) : Z :=
  xrgb (default 0 (src !! Z.to_nat ((Z.of_nat py - y) * w + (Z.of_nat px - x)))).

(** The source index of the blit loop is the image's own row and column. *)
Lemma image_load f x y w h x0 y0 (cw ch : nat) src :
  x ≤ x0 → 0 ≤ x0 → y ≤ y0 → 0 ≤ y0 → 0 ≤ w → w * h ≤ Z.of_nat (length src) →
  x0 + Z.of_nat cw ≤ x + w → y0 + Z.of_nat ch ≤ y + h →
  ∀ row col, (row < ch)%nat → (col < cw)%nat →
  (let! px := load src ((Z.to_nat (y0 - y) + row) * Z.to_nat w + Z.to_nat (x0 - x) + col)%nat in
   Val (ink f (xrgb px))) =
  Val (ink f (image x y w src (Z.to_nat x0 + col) (Z.to_nat y0 + row))).
Proof.
  intros. unfold image.
  replace (Z.to_nat ((Z.of_nat (Z.to_nat y0 + row) - y) * w + (Z.of_nat (Z.to_nat x0 + col) - x)))
    with ((Z.to_nat (y0 - y) + row) * Z.to_nat w + Z.to_nat (x0 - x) + col)%nat by nia.
  destruct (lookup_lt_is_Some_2 src ((Z.to_nat (y0 - y) + row) * Z.to_nat w
    + Z.to_nat (x0 - x) + col)%nat) as [p Hpx]; [nia|].
  by rewrite (load_Some _ _ _ Hpx), Hpx.
Qed.

Lemma clip_within x len width :
  - 2 ^ 31 ≤ x < 2 ^ 31 → 0 ≤ len < 2 ^ 31 → 0 ≤ width →
  clip_lo x width < clip_hi x len width →
  x ≤ clip_lo x width ∧ 0 ≤ clip_lo x width ∧ clip_hi x len width ≤ x + len.
Proof. unfold clip_hi, clip_lo, sat_add32. intros. rewrite i32_small in * by lia. lia. Qed.

Lemma blit_rgba32_ok f x y w h src :
  wf f → FB_READY f = true → - 2 ^ 31 ≤ x < 2 ^ 31 → - 2 ^ 31 ≤ y < 2 ^ 31 →
  0 ≤ w < 2 ^ 31 → 0 ≤ h < 2 ^ 31 → w * h ≤ Z.of_nat (length src) →
  ∃ b, blit_rgba32 f x y w h src = Val (set_canvas f b) ∧
    covers f x y w h (λ px py, ink f (image x y w src px py)) b.
Proof.
  intros Hwf Hr Hx Hy Hw Hh Hs. pose proof (wf_width f Hwf). pose proof (wf_height f Hwf).
  unfold blit_rgba32, is_ready. rewrite Hr. cbn [negb orb].
  rewrite !(i32_small (FB_WIDTH f)), !(i32_small (FB_HEIGHT f)) by lia.
  case_if; [apply covers_early; auto|]. clear E.
  rewrite (proj2 (Z.ltb_ge _ _)) by done. case_if; [apply covers_early; auto|].
  apply orb_false_iff in E as [Ex%Z.leb_gt Ey%Z.leb_gt]. rewrite draw_canvas.
  destruct (rect_fits f x y w h) as [Hf1 Hf2]; [done..|].
  destruct (clip_within x w (FB_WIDTH f)) as (? & ? & ?); [lia..|].
  destruct (clip_within y h (FB_HEIGHT f)) as (? & ? & ?); [lia..|].
  set (x0 := clip_lo x (FB_WIDTH f)) in *. set (y0 := clip_lo y (FB_HEIGHT f)) in *.
  destruct (paint_rect_ok _ _ _ _ _ _ _ (canvas f)
    (image_load f x y w h x0 y0 (Z.to_nat (clip_hi x w (FB_WIDTH f) - x0))
      (Z.to_nat (clip_hi y h (FB_HEIGHT f) - y0)) src
      ltac:(lia) ltac:(lia) ltac:(lia) ltac:(lia) ltac:(lia) Hs ltac:(lia) ltac:(lia))
    Hf1 Hf2) as (b & Hb & Hp).
  rewrite Hb. exists b. split; [done|]. eapply covers_painted; try done.
  intros px py Hi. simpl. unfold inside in Hi. unbool.
  do 2 f_equal; unfold x0, y0, clip_lo in *; lia.
Qed.

Lemma index_inj (n a b c d : nat) :
  (b < n → d < n → a * n + b = c * n + d → a = c ∧ b = d)%nat.
Proof. intros. destruct (Nat.lt_trichotomy a c) as [|[|]]; nia. Qed.

(** A pixel is a one by one rectangle. *)
Lemma set_pixel_ok f x y color :
  wf f → 0 ≤ x → 0 ≤ y →
  ∃ b, set_pixel f x y color = Val (set_canvas f b) ∧ length b = length (canvas f) ∧
    ∀ px py, (px < Z.to_nat (FB_PITCH_PX f))%nat → (py < Z.to_nat (FB_HEIGHT f))%nat →
      b !! (py * Z.to_nat (FB_PITCH_PX f) + px)%nat =
      if FB_READY f && (Z.of_nat px <? FB_WIDTH f) && inside x y 1 1 px py
      then Some (ink f color) else pixel f px py.
Proof.
  intros [Hw Hh Hp Hc] Hx Hy. unfold set_pixel, is_ready.
  destruct (FB_READY f); cbn [negb andb].
  2:{ exists (canvas f). by rewrite set_canvas_canvas. }
  destruct ((FB_WIDTH f <=? x) || (FB_HEIGHT f <=? y)) eqn:E.
  { exists (canvas f). rewrite set_canvas_canvas. do 2 (split; [done|]).
    intros px py Hpx Hpy. case_if; [|done]. exfalso. unfold inside in *. unbool.
    apply orb_true_iff in E. rewrite !Z.leb_le in E. lia. }
  unbool. rewrite draw_canvas. set (d := (Z.to_nat y * Z.to_nat (FB_PITCH_PX f) + Z.to_nat x)%nat).
  assert (d < length (canvas f))%nat as Hd by (rewrite Hc; unfold d; nia).
  rewrite store_ok by done. simpl. exists (<[d := ink f color]> (canvas f)).
  split; [done|]. split; [apply length_insert|]. intros px py Hpx Hpy.
  destruct ((Z.of_nat px <? FB_WIDTH f) && inside x y 1 1 px py) eqn:Ei.
  - unfold inside in Ei. unbool.
    replace (py * Z.to_nat (FB_PITCH_PX f) + px)%nat with d.
    + by rewrite list_lookup_insert_eq.
    + unfold d. f_equal; [f_equal|]; lia.
  - unfold pixel. rewrite list_lookup_insert_ne; [done|]. intros Heq.
    apply index_inj in Heq as [<- <-]; [|lia..].
    apply not_true_iff_false in Ei. apply Ei. unfold inside.
    rewrite !andb_true_iff, !Z.leb_le, !Z.ltb_lt. lia.
Qed.

(** The swap publishes the double buffer, repacked in the panel's order. *)
Lemma swap_buffers_ok f buf :
  FB_READY f = true → DOUBLE_BUFFER_ACTIVE f = true → DOUBLE_BUFFER f = Some buf →
  length buf = (Z.to_nat (FB_HEIGHT f) * Z.to_nat (FB_PITCH_PX f))%nat →
  length (vram f) = length buf →
  swap_buffers f = Val (set_vram f (fb_pack f <$> buf)).
Proof.
  intros Hr Ha Hd Hl Hv. unfold swap_buffers, is_ready. rewrite Hr, Ha, Hd, <- Hl.
  cbn [negb orb]. destruct (FB_XRGB_FAST f) eqn:Hfast.
  { rewrite Hv, Nat.leb_refl. simpl. do 2 f_equal. unfold copy_at. rewrite firstn_all.
    rewrite drop_ge by lia. rewrite take_0, app_nil_r. simpl.
    rewrite <- (list_fmap_id buf) at 1. apply list_fmap_ext. intros. unfold fb_pack.
    by rewrite Hfast. }
  destruct (for_range_inv
    (λ n v, length v = length buf ∧ ∀ j, (j < n)%nat → v !! j = (fb_pack f <$> buf) !! j)
    (λ i v, let! c := load buf i in store v i (fb_pack f c)) 0 (length buf) (vram f))
    as (v & -> & Hlv & Hj).
  - split; [done|]. lia.
  - intros k v Hk [Hlv Hj]. destruct (lookup_lt_is_Some_2 buf k) as [c Hc]; [lia|].
    rewrite (load_Some _ _ _ Hc). simpl. rewrite store_ok by lia.
    eexists; split; [done|]. rewrite length_insert. split; [done|]. intros j Hjk.
    destruct (decide (j = k)) as [->|].
    + rewrite list_lookup_insert_eq by lia. by rewrite list_lookup_fmap, Hc.
    + rewrite list_lookup_insert_ne by lia. apply Hj. lia.
  - simpl. do 2 f_equal. apply list_eq. intros j. destruct (decide (j < length buf)%nat).
    + apply Hj. lia.
    + rewrite !lookup_ge_None_2; rewrite ?length_fmap; lia || done.
Qed.

Lemma set_canvas_panel f b :
  fb_pack (set_canvas f b) = fb_pack f ∧
  (length b = length (canvas f) → length (vram (set_canvas f b)) = length (vram f)).
Proof.
  unfold set_canvas, canvas, fb_pack. split; [|intros Hb]; destruct (DOUBLE_BUFFER_ACTIVE f);
    try done; by destruct (DOUBLE_BUFFER f).
Qed.

(** After the swap the panel shows what was drawn, in both modes. *)
Lemma swap_panel f :
  wf f → FB_READY f = true → length (vram f) = length (canvas f) →
  ∃ f', swap_buffers f = Val f' ∧
    ∀ i c, canvas f !! i = Some (ink f c) → vram f' !! i = Some (fb_pack f c).
Proof.
  intros [Hw Hh Hp Hc] Hr Hv.
  destruct (DOUBLE_BUFFER_ACTIVE f) eqn:Ha; [destruct (DOUBLE_BUFFER f) as [buf|] eqn:Hd|].
  - unfold canvas, ink in *. rewrite Ha, Hd in *. simpl in *.
    rewrite (swap_buffers_ok f buf) by done. eexists; split; [done|]. simpl.
    intros i c Hi. by rewrite list_lookup_fmap, Hi.
  - unfold swap_buffers, is_ready, canvas, ink. rewrite Hr, Ha, Hd. simpl. eauto.
  - unfold swap_buffers, is_ready, canvas, ink. rewrite Hr, Ha. simpl. eauto.
Qed.

(** Turning double buffering on leaves a drawing target of the screen's size,
    the direct framebuffer when the buffer cannot be had. *)
Lemma set_double_buffer_wf f active reserve_ok :
  length (vram f) = (Z.to_nat (FB_HEIGHT f) * Z.to_nat (FB_PITCH_PX f))%nat →
  wf f → 
  (∀ b, DOUBLE_BUFFER f = Some b → length b = length (vram f)) →
  wf (set_double_buffer f active reserve_ok).
Proof.
  intros Hv [Hw Hh Hp Hc] Hd. unfold set_double_buffer. destruct active.
  - destruct (DOUBLE_BUFFER f) as [b|] eqn:Eb; simpl; rewrite ?Eb.
    + split; simpl; try done. unfold canvas. simpl. rewrite Eb. simpl. rewrite <- Hv.
      by apply Hd.
    + case_if; split; simpl; try done; unfold canvas; simpl; try done.
      rewrite length_replicate. unbool. rewrite Z2Nat.inj_mul by lia. lia.
  - split; simpl; done.
Qed.
End Fb.
