(* ===== verification/Cursor.v ===== *)
(** * The software mouse cursor

    Models the pointer overlay of [compositor/mod.rs]: the vector sprites,
    the Bresenham line they use and [draw_software_cursor], which picks the
    sprite and keeps it on the screen.  The sprites are programs over the
    framebuffer of [Fb]; [keeps] is the property that such a program ends
    without a panic and leaves every pixel more than ten pixels away from the
    hotspot as it was, and it is closed under sequencing and loops, so each
    sprite's proof follows its text. *)

From Stdlib Require Import ZArith Lia.
From stdpp Require Import base numbers strings option list.
From S2P Require Import Prelude Fb.
Import Fb.

Local Open Scope Z_scope.

Module Cursor.

Definition CURSOR_SHAPE_BASIC : Z := 0.
Definition CURSOR_SHAPE_TEXT : Z := 1.
Definition CURSOR_SHAPE_CLICK : Z := 2.
Definition CURSOR_SHAPE_FORBIDDEN : Z := 3.
Definition CURSOR_SHAPE_GRAB : Z := 4.
Definition CURSOR_SHAPE_GRABBING : Z := 5.
Definition CURSOR_SHAPE_RESIZE_LR : Z := 6.
Definition CURSOR_SHAPE_RESIZE_UD : Z := 7.
Definition CURSOR_SHAPE_NONE : Z := 8.
Definition CURSOR_SHAPE_MAX : Z := 8.

Definition blend_pixel (bg fg alpha : Z) : Z :=
  if alpha =? 255 then fg
  else if alpha =? 0 then bg
  else
    let r_bg := Z.land (Z.shiftr bg 16) 0xFF in
    let g_bg := Z.land (Z.shiftr bg 8) 0xFF in
    let b_bg := Z.land bg 0xFF in
    let r_fg := Z.land (Z.shiftr fg 16) 0xFF in
    let g_fg := Z.land (Z.shiftr fg 8) 0xFF in
    let b_fg := Z.land fg 0xFF in
    let r_out := (r_fg * alpha + r_bg * (255 - alpha)) / 255 in
    let g_out := (g_fg * alpha + g_bg * (255 - alpha)) / 255 in
    let b_out := (b_fg * alpha + b_bg * (255 - alpha)) / 255 in
    Z.lor (Z.lor (Z.shiftl r_out 16) (Z.shiftl g_out 8)) b_out.

Definition cursor_px (x y dx dy color : Z) (f : Fb) : outcome Fb :=
  let px := x + dx in
  let py := y + dy in
  if (0 <=? px) && (0 <=? py) then set_pixel f px py color else Val f.

(** The Bresenham loop; [fuel] bounds the iterations and [None] is the loop
    that has not ended yet. *)
Fixpoint cursor_line_loop (fuel : nat) (x y dx dy sx sy x1 y1 color : Z)
    (x0 y0 err : Z) (f : Fb) : option (outcome Fb) :=
  match fuel with
  | O => None
  | S fuel' =>
      match cursor_px x y x0 y0 color f with
      | Panic => Some Panic
      | Val f' =>
          if (x0 =? x1) && (y0 =? y1) then Some (Val f')
          else
            let e2 := 2 * err in
            let '(err1, x0') := if dy <=? e2 then (err + dy, x0 + sx) else (err, x0) in
            let '(err2, y0') := if e2 <=? dx then (err1 + dx, y0 + sy) else (err1, y0) in
            cursor_line_loop fuel' x y dx dy sx sy x1 y1 color x0' y0' err2 f'
      end
  end.

(** Enough fuel for the loop, as [cursor_line_ends] shows. *)
Definition line_fuel (x0 y0 x1 y1 : Z) : nat :=
  Z.to_nat (Z.abs (x1 - x0) + Z.abs (y1 - y0) + 1).

Definition cursor_line (x y x0 y0 x1 y1 color : Z) (f : Fb) : option (outcome Fb) :=
  let dx := Z.abs (x1 - x0) in
  let dy := - Z.abs (y1 - y0) in
  let sx := if x0 <? x1 then 1 else -1 in
  let sy := if y0 <? y1 then 1 else -1 in
  cursor_line_loop (line_fuel x0 y0 x1 y1) x y dx dy sx sy x1 y1 color x0 y0 (dx + dy) f.

(** A line as a drawing step; the loop always ends, so the default is never
    taken. *)
Definition line_step (x y x0 y0 x1 y1 color : Z) (f : Fb) : outcome Fb :=
  default Panic (cursor_line x y x0 y0 x1 y1 color f).

(** [{ m1; m2 }] on the framebuffer. *)
Definition andthen (m1 m2 : Fb → outcome Fb) (f : Fb) : outcome Fb := let! f' := m1 f in m2 f'.
Notation "m1 >>; m2" := (andthen m1 m2) (at level 66, right associativity).

Definition draw_arrow_cursor (x y buttons : Z) : Fb → outcome Fb :=
  let '(r, r_glow, color) :=
    if negb (buttons =? 0) then (4, 8, 0x0038BDF8) else (6, 10, 0x00FFFFFF) in
  for_list (zrange (- r_glow) r_glow) (λ dy,
    for_list (zrange (- r_glow) r_glow) (λ dx f,
      let dist2 := dx * dx + dy * dy in
      let px := x + dx in
      let py := y + dy in
      if (0 <=? px) && (0 <=? py) then
        if dist2 <=? r * r then set_pixel f px py color
        else if dist2 <=? r_glow * r_glow then
          let! bg := get_pixel f px py in
          let t := r_glow * r_glow - dist2 in
          let max_t := r_glow * r_glow - r * r in
          let alpha := u8 (if 0 <? max_t then Z.quot (t * 80) max_t else 0) in
          let glow_color := if negb (buttons =? 0) then 0x0038BDF8 else 0x00FFFFFF in
          set_pixel f px py (blend_pixel bg glow_color alpha)
        else Val f
      else Val f)).

Definition draw_ibeam_cursor (x y fill edge : Z) : Fb → outcome Fb :=
  for_list (zrange (-8) 8) (λ dy,
    cursor_px x y (-1) dy edge >>;
    cursor_px x y 1 dy edge >>;
    cursor_px x y 0 dy fill) >>;
  for_list (zrange (-3) 3) (λ dx,
    cursor_px x y dx (-9) edge >>;
    cursor_px x y dx 9 edge >>;
    cursor_px x y dx (-8) fill >>;
    cursor_px x y dx 8 fill).

Definition draw_hand_cursor (x y fill edge : Z) : Fb → outcome Fb :=
  for_list (zrange (-9) 2) (λ dy,
    for_list (zrange (-1) 1) (λ dx, cursor_px x y dx dy fill)) >>;
  for_list (zrange 2 9) (λ dy,
    for_list (zrange (-4) 4) (λ dx,
      let edge_block := (dy =? 9) || (dx =? -4) || (dx =? 4) in
      cursor_px x y dx dy (if edge_block then edge else fill))) >>;
  cursor_px x y (-2) 3 edge >>;
  cursor_px x y 0 3 edge >>;
  cursor_px x y 2 3 edge >>;
  for_list (zrange (-9) 2) (λ dy,
    cursor_px x y (-2) dy edge >>;
    cursor_px x y 2 dy edge) >>;
  cursor_px x y 0 (-10) edge.

Definition draw_forbidden_cursor (x y : Z) : Fb → outcome Fb :=
  let red := 0x00E02424 in
  let r := 8 in
  for_list (zrange (- r) r) (λ dy,
    for_list (zrange (- r) r) (λ dx f,
      let dist2 := dx * dx + dy * dy in
      if (dist2 <=? r * r) && ((r - 2) * (r - 2) <=? dist2)
      then cursor_px x y dx dy red f else Val f)) >>;
  line_step x y (-5) (-5) 5 5 red >>;
  line_step x y (-5) (-4) 5 6 red.

Definition draw_resize_cursor (x y : Z) (horizontal : bool) (fill edge : Z) : Fb → outcome Fb :=
  if horizontal then
    for_list (zrange (-8) 8) (λ dx,
      cursor_px x y dx 0 fill >>;
      cursor_px x y dx (-1) edge >>;
      cursor_px x y dx 1 edge) >>;
    for_list (zrange 0 3) (λ i,
      cursor_px x y (-8 + i) (- i) fill >>;
      cursor_px x y (-8 + i) i fill >>;
      cursor_px x y (8 - i) (- i) fill >>;
      cursor_px x y (8 - i) i fill)
  else
    for_list (zrange (-8) 8) (λ dy,
      cursor_px x y 0 dy fill >>;
      cursor_px x y (-1) dy edge >>;
      cursor_px x y 1 dy edge) >>;
    for_list (zrange 0 3) (λ i,
      cursor_px x y (- i) (-8 + i) fill >>;
      cursor_px x y i (-8 + i) fill >>;
      cursor_px x y (- i) (8 - i) fill >>;
      cursor_px x y i (8 - i) fill).

(** The pointer statics of [wm] the overlay reads, and the clock. *)
Record Pointer := mkPointer {
  cursor_seen : bool;
  cursor_last_act_ns : Z;
  cursor_pos : Z * Z;
  cursor_buttons : Z
}.

(** [x.clamp(lo, hi)], which panics when [lo > hi]. *)
Definition clamp (x lo hi : Z) : outcome Z :=
  if hi <? lo then Panic else Val (Z.min (Z.max x lo) hi).

Definition draw_software_cursor (p : Pointer) (now shape : Z) (f : Fb) : outcome Fb :=
  if negb (cursor_seen p) then Val f
  else if 3000000000 <? u64 (now - cursor_last_act_ns p) then Val f
  else if shape =? CURSOR_SHAPE_NONE then Val f
  else
    let '(x, y) := cursor_pos p in
    let buttons := cursor_buttons p in
    let! xy := match size_px f with
               | Some (w, h) =>
                   let! x' := clamp x 10 (i32 w - 11) in
                   let! y' := clamp y 10 (i32 h - 11) in
                   Val (x', y')
               | None => Val (x, y)
               end in
    let '(x, y) := xy in
    let fill := 0x00FFFFFF in
    let edge := 0x00101820 in
    if shape =? CURSOR_SHAPE_BASIC then draw_arrow_cursor x y buttons f
    else if shape =? CURSOR_SHAPE_TEXT then draw_ibeam_cursor x y fill edge f
    else if shape =? CURSOR_SHAPE_CLICK then draw_hand_cursor x y fill edge f
    else if shape =? CURSOR_SHAPE_FORBIDDEN then draw_forbidden_cursor x y f
    else if (shape =? CURSOR_SHAPE_GRAB) || (shape =? CURSOR_SHAPE_GRABBING)
    then draw_hand_cursor x y fill edge f
    else if shape =? CURSOR_SHAPE_RESIZE_LR then draw_resize_cursor x y true fill edge f
    else if shape =? CURSOR_SHAPE_RESIZE_UD then draw_resize_cursor x y false fill edge f
    else draw_arrow_cursor x y buttons f.

(** ** The sprites stay near the hotspot *)

Definition near (x y : Z) (px py : nat) : Prop :=
  Z.abs (Z.of_nat px - x) ≤ 10 ∧ Z.abs (Z.of_nat py - y) ≤ 10.

(** [m] ends, keeps the framebuffer well formed and changes nothing but pixels
    near [(x, y)]. *)
Definition keeps (x y : Z) (m : Fb → outcome Fb) : Prop :=
  ∀ f, wf f → ∃ b, m f = Val (set_canvas f b) ∧ length b = length (canvas f) ∧
    ∀ px py, (px < Z.to_nat (FB_PITCH_PX f))%nat → (py < Z.to_nat (FB_HEIGHT f))%nat →
      ¬ near x y px py →
      b !! (py * Z.to_nat (FB_PITCH_PX f) + px)%nat = pixel f px py.

Lemma keeps_val x y : keeps x y Val.
Proof. intros f _. exists (canvas f). by rewrite set_canvas_canvas. Qed.

Lemma keeps_andthen x y m1 m2 : keeps x y m1 → keeps x y m2 → keeps x y (m1 >>; m2).
Proof.
  intros H1 H2 f Hf. destruct (H1 f Hf) as (b1 & E1 & L1 & P1).
  destruct (set_canvas_frame f b1) as (_ & _ & Hh & Hp & Hc & _).
  destruct (H2 (set_canvas f b1)) as (b2 & E2 & L2 & P2); [by apply wf_set_canvas|].
  exists b2. unfold andthen. rewrite E1. simpl. rewrite E2, set_canvas_twice.
  rewrite Hc in L2. rewrite Hp, Hh in P2. split; [done|]. split; [congruence|].
  intros px py Hx Hy Hn. rewrite P2 by done. unfold pixel at 1. rewrite Hc, Hp. by apply P1.
Qed.

Lemma keeps_for_list {A} x y (l : list A) (m : A → Fb → outcome Fb) :
  (∀ a, a ∈ l → keeps x y (m a)) → keeps x y (for_list l m).
Proof.
  induction l as [|a l IH]; intros Hm; [exact (keeps_val x y)|].
  change (for_list (a :: l) m) with (m a >>; for_list l m).
  apply keeps_andthen; [apply Hm; by left|]. apply IH. intros. apply Hm. by right.
Qed.

Lemma keeps_set_pixel x y px py color :
  0 ≤ px → 0 ≤ py → Z.abs (px - x) ≤ 10 → Z.abs (py - y) ≤ 10 →
  keeps x y (λ f, set_pixel f px py color).
Proof.
  intros Hpx Hpy Hx Hy f Hf. destruct (set_pixel_ok f px py color Hf Hpx Hpy) as (b & E & L & P).
  exists b. do 2 (split; [done|]). intros qx qy Hqx Hqy Hn. rewrite P by done.
  case_if; [|done]. exfalso. apply Hn. unfold inside in *. unbool. unfold near. lia.
Qed.

Lemma keeps_cursor_px x y dx dy color :
  -10 ≤ dx ≤ 10 → -10 ≤ dy ≤ 10 → keeps x y (cursor_px x y dx dy color).
Proof.
  intros. unfold cursor_px. destruct ((0 <=? x + dx) && (0 <=? y + dy)) eqn:E.
  - unbool. apply keeps_set_pixel; lia.
  - apply keeps_val.
Qed.

(** Follow the text of a sprite down to its pixels. *)
Ltac sprite :=
  repeat match goal with
  | |- keeps _ _ (_ >>; _) => apply keeps_andthen
  | |- keeps _ _ (for_list _ _) =>
      let H := fresh "Hin" in
      apply keeps_for_list; intros ? H; apply elem_of_zrange in H
  | |- keeps _ _ (cursor_px _ _ _ _ _) => apply keeps_cursor_px; lia
  | |- keeps _ _ (if ?b then _ else _) => destruct b
  end.

(** *** Bresenham's line *)

(** Distances still to go in [x] and [y] after [i] and [j] steps, and the error
    term they determine. *)
Lemma line_step_progress a b i j :
  0 ≤ i ≤ a → 0 ≤ j ≤ b → ¬ (i = a ∧ j = b) →
  let err := (j + 1) * a - (i + 1) * b in
  (- b ≤ 2 * err → i < a) ∧ (2 * err ≤ a → j < b) ∧ (- b ≤ 2 * err ∨ 2 * err ≤ a).
Proof. intros Hi Hj Hne err. subst err. split; [|split]; nia. Qed.

Section line.
Context (x y xs ys x1 y1 color : Z).
Context (Hbox : -10 ≤ xs ≤ 10 ∧ -10 ≤ x1 ≤ 10 ∧ -10 ≤ ys ≤ 10 ∧ -10 ≤ y1 ≤ 10).

Let a := Z.abs (x1 - xs).
Let b := Z.abs (y1 - ys).
Let sx := if xs <? x1 then 1 else -1.
Let sy := if ys <? y1 then 1 else -1.

Lemma line_dir : x1 = xs + a * sx ∧ y1 = ys + b * sy ∧ (sx = 1 ∨ sx = -1) ∧ (sy = 1 ∨ sy = -1).
Proof.
  unfold a, b, sx, sy. destruct (xs <? x1) eqn:E1, (ys <? y1) eqn:E2; unbool; lia.
Qed.

Lemma line_loop_ok fuel i j f :
  wf f → 0 ≤ i ≤ a → 0 ≤ j ≤ b → (a - i) + (b - j) < Z.of_nat fuel →
  ∃ m, cursor_line_loop fuel x y a (- b) sx sy x1 y1 color (xs + i * sx) (ys + j * sy)
         ((j + 1) * a - (i + 1) * b) f = Some (m f) ∧ keeps x y m.
Proof.
  destruct line_dir as (Ex & Ey & Hsx & Hsy).
  revert i j f. induction fuel as [|fuel IH]; intros i j f Hf Hi Hj Hn; [lia|].
  assert (keeps x y (cursor_px x y (xs + i * sx) (ys + j * sy) color)) as Hk.
  { apply keeps_cursor_px; unfold a, b in *; destruct Hsx as [->| ->], Hsy as [->| ->]; lia. }
  cbn [cursor_line_loop]. destruct (Hk f Hf) as (c & Ec & Lc & _). rewrite Ec.
  destruct ((xs + i * sx =? x1) && (ys + j * sy =? y1)) eqn:E.
  { eexists. split; [|exact Hk]. by rewrite Ec. }
  assert (¬ (i = a ∧ j = b)) as Hne.
  { intros [-> ->]. apply not_true_iff_false in E. apply E.
    by rewrite andb_true_iff, !Z.eqb_eq. }
  destruct (line_step_progress a b i j Hi Hj Hne) as (Px & Py & Pany).
  set (err := (j + 1) * a - (i + 1) * b) in *.
  assert (∀ i' j', 0 ≤ i' ≤ a → 0 ≤ j' ≤ b → i + j < i' + j' →
    ∃ m, cursor_line_loop fuel x y a (- b) sx sy x1 y1 color (xs + i' * sx) (ys + j' * sy)
         ((j' + 1) * a - (i' + 1) * b) (set_canvas f c) = Some (m f) ∧ keeps x y m) as Hrec.
  { intros i' j' Hi' Hj' Hlt.
    destruct (IH i' j' (set_canvas f c)) as (m & Em & Hm); [by apply wf_set_canvas|lia..|].
    exists (cursor_px x y (xs + i * sx) (ys + j * sy) color >>; m). split.
    - rewrite Em. unfold andthen. by rewrite Ec.
    - by apply keeps_andthen. }
  destruct (- b <=? 2 * err) eqn:E1, (2 * err <=? a) eqn:E2; unbool; [..|lia].
  - destruct (Hrec (i + 1) (j + 1)) as (m & Em & Hm); [lia..|]. exists m. split; [|done].
    rewrite <- Em. f_equal; unfold err; ring.
  - destruct (Hrec (i + 1) j) as (m & Em & Hm); [lia..|]. exists m. split; [|done].
    rewrite <- Em. f_equal; unfold err; ring.
  - destruct (Hrec i (j + 1)) as (m & Em & Hm); [lia..|]. exists m. split; [|done].
    rewrite <- Em. f_equal; unfold err; ring.
Qed.

(** The line is drawn within its fuel. *)
Lemma keeps_line_step : keeps x y (line_step x y xs ys x1 y1 color).
Proof.
  intros f Hf. unfold line_step, cursor_line.
  destruct (line_loop_ok (line_fuel xs ys x1 y1) 0 0 f Hf) as (m & Em & Hm).
  - unfold a. lia.
  - unfold b. lia.
  - unfold line_fuel, a, b. lia.
  - replace (xs + 0 * sx) with xs in Em by ring. replace (ys + 0 * sy) with ys in Em by ring.
    replace ((0 + 1) * a - (0 + 1) * b) with (a + - b) in Em by ring.
    fold a b sx sy. rewrite Em. simpl. by apply Hm.
Qed.
End line.

(** *** The sprites *)

Lemma get_pixel_val f x y : wf f → 0 ≤ x → 0 ≤ y → ∃ c, get_pixel f x y = Val c.
Proof.
  intros [Hw Hh Hp Hc] Hx Hy. unfold get_pixel. case_if; [eauto|]. case_if; [eauto|].
  unbool. assert (Z.to_nat y * Z.to_nat (FB_PITCH_PX f) + Z.to_nat x < length (canvas f))%nat as Hl
    by (rewrite Hc; nia).
  unfold canvas in Hl. destruct (DOUBLE_BUFFER_ACTIVE f); [destruct (DOUBLE_BUFFER f)|];
    simpl in Hl; apply lookup_lt_is_Some_2 in Hl as [c Hl]; exists c; by apply load_Some.
Qed.

Lemma keeps_blend x y px py (g : Z → Z) :
  0 ≤ px → 0 ≤ py → Z.abs (px - x) ≤ 10 → Z.abs (py - y) ≤ 10 →
  keeps x y (λ f, let! bg := get_pixel f px py in set_pixel f px py (g bg)).
Proof.
  intros Hpx Hpy Hx Hy f Hf. destruct (get_pixel_val f px py Hf Hpx Hpy) as [c ->].
  by apply (keeps_set_pixel x y px py (g c)).
Qed.

Lemma keeps_arrow x y buttons : keeps x y (draw_arrow_cursor x y buttons).
Proof.
  unfold draw_arrow_cursor.
  destruct (negb (buttons =? 0)); sprite;
    match goal with |- keeps _ _ (λ f, if ?b then _ else _) => destruct b eqn:E end;
    try apply keeps_val; unbool;
    repeat match goal with |- keeps _ _ (λ f, if ?b then _ else _) => destruct b end;
    first [apply keeps_val | apply keeps_set_pixel; lia | apply keeps_blend; lia].
Qed.

Lemma keeps_ibeam x y fill edge : keeps x y (draw_ibeam_cursor x y fill edge).
Proof. unfold draw_ibeam_cursor. sprite. Qed.

Lemma keeps_hand x y fill edge : keeps x y (draw_hand_cursor x y fill edge).
Proof. unfold draw_hand_cursor. sprite. Qed.

Lemma keeps_forbidden x y : keeps x y (draw_forbidden_cursor x y).
Proof.
  unfold draw_forbidden_cursor. sprite; try (apply keeps_line_step; lia).
  match goal with |- keeps _ _ (λ f, if ?b then _ else _) => destruct b end.
  - apply keeps_cursor_px; lia.
  - apply keeps_val.
Qed.

Lemma keeps_resize x y horizontal fill edge :
  keeps x y (draw_resize_cursor x y horizontal fill edge).
Proof. unfold draw_resize_cursor. sprite. Qed.

Lemma clamp_ok z lo hi : lo ≤ hi → clamp z lo hi = Val (Z.min (Z.max z lo) hi).
Proof. intros. unfold clamp. by rewrite (proj2 (Z.ltb_ge _ _)). Qed.

(** Where the sprite is drawn on a screen of size [(w, h)]. *)
Definition hotspot (p : Pointer) (w h : Z) : Z * Z :=
  (Z.min (Z.max (cursor_pos p).1 10) (w - 11), Z.min (Z.max (cursor_pos p).2 10) (h - 11)).

Lemma software_cursor_keeps p now shape f :
  wf f → FB_READY f = true → 21 ≤ FB_WIDTH f → 21 ≤ FB_HEIGHT f →
  ∃ m, draw_software_cursor p now shape f = m f ∧
    keeps (hotspot p (FB_WIDTH f) (FB_HEIGHT f)).1 (hotspot p (FB_WIDTH f) (FB_HEIGHT f)).2 m.
Proof.
  intros Hf Hr Hw Hh. pose proof (wf_width f Hf). pose proof (wf_height f Hf).
  unfold draw_software_cursor. do 3 (case_if; [eexists; split; [done|apply keeps_val]|]).
  unfold size_px, is_ready. rewrite Hr. destruct (cursor_pos p) as [x y] eqn:Ep.
  rewrite !i32_small by lia. rewrite !clamp_ok by lia. cbn [obind].
  unfold hotspot. rewrite Ep. cbn [fst snd].
  repeat (case_if; [eexists; split; [reflexivity|]|]); [..|eexists; split; [reflexivity|]];
    auto using keeps_arrow, keeps_ibeam, keeps_hand, keeps_forbidden, keeps_resize.
Qed.

(** On any screen of at least 21 by 21 pixels the pointer overlay ends (the
    Bresenham loop of the forbidden sprite included), does not panic, and
    changes no pixel more than ten pixels away from the clamped hotspot; every
    pixel it changes is on the screen. *)
Theorem cursor_confined p now shape f :
  wf f → FB_READY f = true → 21 ≤ FB_WIDTH f → 21 ≤ FB_HEIGHT f →
  ∃ b, draw_software_cursor p now shape f = Val (set_canvas f b) ∧
    length b = length (canvas f) ∧
    ∀ px py, (px < Z.to_nat (FB_PITCH_PX f))%nat → (py < Z.to_nat (FB_HEIGHT f))%nat →
      b !! (py * Z.to_nat (FB_PITCH_PX f) + px)%nat ≠ pixel f px py →
      near (hotspot p (FB_WIDTH f) (FB_HEIGHT f)).1
           (hotspot p (FB_WIDTH f) (FB_HEIGHT f)).2 px py ∧
      Z.of_nat px < FB_WIDTH f.
Proof.
  intros Hf Hr Hw Hh. destruct (software_cursor_keeps p now shape f Hf Hr Hw Hh) as (m & -> & Hm).
  destruct (Hm f Hf) as (b & E & L & P). exists b. do 2 (split; [done|]).
  intros px py Hx Hy Hne. destruct (decide (near (hotspot p (FB_WIDTH f) (FB_HEIGHT f)).1
           (hotspot p (FB_WIDTH f) (FB_HEIGHT f)).2 px py)) as [Hn|Hn].
  - split; [done|]. destruct Hn as [Hn _]. unfold hotspot in Hn. simpl in Hn. lia.
  - destruct Hne. by apply P.
Qed.

(** A 24 by 24 screen with two words of padding per row. *)
Definition small_fb : Fb :=
  mkFb true 24 24 26 16 8 0 true (Some (replicate 624 0)) true (replicate 624 0).

Lemma small_fb_wf : wf small_fb.
Proof. split; simpl; try lia. Qed.

Lemma cursor_confined_witness :
  ∃ b, draw_software_cursor (mkPointer true 5 (100, 3) 0) 6 CURSOR_SHAPE_FORBIDDEN small_fb
       = Val (set_canvas small_fb b) ∧ length b = 624%nat.
Proof.
  destruct (cursor_confined (mkPointer true 5 (100, 3) 0) 6 CURSOR_SHAPE_FORBIDDEN small_fb
    small_fb_wf eq_refl) as (b & E & L & _); [simpl; lia..|].
  exists b. split; [exact E|exact L].
Defined.

End Cursor.
