(* ===== verification/Compositor.v ===== *)
(** * The compositor

    Models [compositor/mod.rs]: the table of surfaces with its parallel arrays
    ([owners], [buffers], [back_buffers], [presented], [back_pending]), the
    owner-checked operations of the system calls, the hit test of the pointer
    and the frame renderer.

    The operations under the [COMP] lock are functions of [CompositorState];
    [render_frame], [tick] and the operations that render act on [Display],
    which adds the framebuffer ([Fb]), the window manager ([Wm]) and the other
    statics of the module.  The pixel loops index their buffers with checks, so
    [Panic] is an index out of range; in [submit_write] the source is read
    through a raw pointer and [Panic] stands for a read past the end of the
    payload.  The boot screen drawn before the first frame is a parameter. *)

From Stdlib Require Import ZArith Lia Sorted.
From stdpp Require Import base numbers strings option relations list.
From S2P Require Import Prelude Ring EventQueue Wm Fb Cursor.

Local Open Scope Z_scope.

Module Compositor.

Definition MAX_SURFACES : nat := 32.
Definition MAX_SURFACES_PER_PID : nat := 8.
Definition MAX_SURFACE_PIXELS : Z := 1920 * 1080 * 2.
Definition i32_MIN : Z := - 2 ^ 31.

Record Surface := mkSurface {
  id : Z;
  x : Z;
  y : Z;
  width : Z;
  height : Z;
  z : Z;
  visible : bool;
  clip_x : Z;
  clip_y : Z;
  clip_w : Z;
  clip_h : Z;
  damage_x : Z;
  damage_y : Z;
  damage_w : Z;
  damage_h : Z;
  has_damage : bool;
  in_use : bool
}.

Definition Surface_empty : Surface :=
  mkSurface 0 0 0 0 0 0 true 0 0 0 0 0 0 0 0 false false.

#[global] Instance Surface_eq_dec : EqDecision Surface.
Proof. solve_decision. Defined.

(** The fields each operation assigns. *)
Definition set_place (s : Surface) (x' y' z' : Z) : Surface :=
  mkSurface (id s) x' y' (width s) (height s) z' (visible s)
    (clip_x s) (clip_y s) (clip_w s) (clip_h s)
    (damage_x s) (damage_y s) (damage_w s) (damage_h s) (has_damage s) (in_use s).
Definition set_geometry (s : Surface) (x' y' w' h' : Z) : Surface :=
  mkSurface (id s) x' y' w' h' (z s) (visible s)
    (clip_x s) (clip_y s) (clip_w s) (clip_h s)
    (damage_x s) (damage_y s) (damage_w s) (damage_h s) (has_damage s) (in_use s).
Definition set_visible (s : Surface) (v : bool) : Surface :=
  mkSurface (id s) (x s) (y s) (width s) (height s) (z s) v
    (clip_x s) (clip_y s) (clip_w s) (clip_h s)
    (damage_x s) (damage_y s) (damage_w s) (damage_h s) (has_damage s) (in_use s).
Definition set_clip (s : Surface) (cx cy cw ch : Z) : Surface :=
  mkSurface (id s) (x s) (y s) (width s) (height s) (z s) (visible s)
    cx cy cw ch
    (damage_x s) (damage_y s) (damage_w s) (damage_h s) (has_damage s) (in_use s).
Definition set_damage (s : Surface) (dx dy dw dh : Z) : Surface :=
  mkSurface (id s) (x s) (y s) (width s) (height s) (z s) (visible s)
    (clip_x s) (clip_y s) (clip_w s) (clip_h s)
    dx dy dw dh ((0 <? dw) && (0 <? dh)) (in_use s).

Abbreviation buffer := (option (list Z)).

Record CompositorState := mkComp {
  surfaces : list Surface;
  owners : list Z;
  buffers : list buffer;
  back_buffers : list buffer;
  presented : list bool;
  back_pending : list bool;
  next_id : Z;
  frame_counter : Z
}.

Definition CompositorState_new : CompositorState :=
  mkComp (replicate MAX_SURFACES Surface_empty) (replicate MAX_SURFACES 0)
    (replicate MAX_SURFACES None) (replicate MAX_SURFACES None)
    (replicate MAX_SURFACES false) (replicate MAX_SURFACES false) 1 0.

Definition set_surface (c : CompositorState) (i : nat) (s : Surface) : CompositorState :=
  mkComp (<[i := s]> (surfaces c)) (owners c) (buffers c) (back_buffers c)
    (presented c) (back_pending c) (next_id c) (frame_counter c).
Definition set_owner (c : CompositorState) (i : nat) (o : Z) : CompositorState :=
  mkComp (surfaces c) (<[i := o]> (owners c)) (buffers c) (back_buffers c)
    (presented c) (back_pending c) (next_id c) (frame_counter c).
Definition set_buffer (c : CompositorState) (i : nat) (b : buffer) : CompositorState :=
  mkComp (surfaces c) (owners c) (<[i := b]> (buffers c)) (back_buffers c)
    (presented c) (back_pending c) (next_id c) (frame_counter c).
Definition set_back_buffer (c : CompositorState) (i : nat) (b : buffer) : CompositorState :=
  mkComp (surfaces c) (owners c) (buffers c) (<[i := b]> (back_buffers c))
    (presented c) (back_pending c) (next_id c) (frame_counter c).
Definition set_presented (c : CompositorState) (i : nat) (p : bool) : CompositorState :=
  mkComp (surfaces c) (owners c) (buffers c) (back_buffers c)
    (<[i := p]> (presented c)) (back_pending c) (next_id c) (frame_counter c).
Definition set_back_pending (c : CompositorState) (i : nat) (p : bool) : CompositorState :=
  mkComp (surfaces c) (owners c) (buffers c) (back_buffers c)
    (presented c) (<[i := p]> (back_pending c)) (next_id c) (frame_counter c).
Definition set_next_id (c : CompositorState) (n : Z) : CompositorState :=
  mkComp (surfaces c) (owners c) (buffers c) (back_buffers c)
    (presented c) (back_pending c) n (frame_counter c).
Definition set_frame_counter (c : CompositorState) (n : Z) : CompositorState :=
  mkComp (surfaces c) (owners c) (buffers c) (back_buffers c)
    (presented c) (back_pending c) (next_id c) n.

(** Reads of the arrays; every index the module uses is below [MAX_SURFACES]. *)
Definition surface_at (c : CompositorState) (i : nat) : Surface :=
  default Surface_empty (surfaces c !! i).
Definition owner_at (c : CompositorState) (i : nat) : Z := default 0 (owners c !! i).
Definition buffer_at (c : CompositorState) (i : nat) : buffer := default None (buffers c !! i).
Definition back_at (c : CompositorState) (i : nat) : buffer := default None (back_buffers c !! i).
Definition presented_at (c : CompositorState) (i : nat) : bool :=
  default false (presented c !! i).
Definition pending_at (c : CompositorState) (i : nat) : bool :=
  default false (back_pending c !! i).

Section ops.
Context {PG : ProcessGroups}.

Definition owned_by (c : CompositorState) (leader : Z) (i : nat) : bool :=
  in_use (surface_at c i) && (owner_at c i =? leader).

Definition create_surface_for (c : CompositorState) (owner_pid w h : Z)
    : CompositorState * result Z :=
  if (w =? 0) || (h =? 0) then (c, Err "invalid size")
  else
    let pixels := w * h in
    if MAX_SURFACE_PIXELS <? pixels then (c, Err "surface too large")
    else
      let owner_leader := if negb (owner_pid =? 0) then group_leader owner_pid else 0 in
      if negb (owner_leader =? 0) &&
         (MAX_SURFACES_PER_PID <=?
            countb (owned_by c owner_leader) (seq 0 MAX_SURFACES))%nat
      then (c, Err "per-pid surface limit reached")
      else
        let id := next_id c in
        match position (λ s, negb (in_use s)) (surfaces c) with
        | Some idx =>
            let c1 := set_surface c idx
              (mkSurface id 0 0 w h 0 true 0 0 w h 0 0 0 0 false true) in
            let c2 := set_owner c1 idx owner_leader in
            let c3 := set_buffer c2 idx (Some (replicate (Z.to_nat pixels) 0)) in
            let c4 := set_presented c3 idx false in
            (set_next_id c4 (next_id32 (next_id c4)), Ok id)
        | None => (c, Err "surface table full")
        end.

Definition create_surface (c : CompositorState) (w h : Z) := create_surface_for c 0 w h.

(** [c.surfaces.iter().position(|s| s.in_use && s.id == id)]. *)
Definition find_surface (c : CompositorState) (sid : Z) : option nat :=
  position (λ s, in_use s && (id s =? sid)) (surfaces c).

(** The lookup and the ownership test every owner-enforced call starts with. *)
Definition checked (c : CompositorState) (caller_pid sid : Z) : result nat :=
  match find_surface c sid with
  | None => Err "no such surface"
  | Some idx =>
      if negb (caller_pid =? 0) && negb (owner_at c idx =? group_leader caller_pid)
      then Err "permission denied" else Ok idx
  end.

(** An owner-enforced assignment of surface fields. *)
Definition modify_for (c : CompositorState) (caller_pid sid : Z) (g : Surface → Surface)
    : CompositorState * result unit :=
  match checked c caller_pid sid with
  | Err e => (c, Err e)
  | Ok idx => (set_surface c idx (g (surface_at c idx)), Ok tt)
  end.

Definition move_surface_for (c : CompositorState) (caller_pid sid x' y' z' : Z) :=
  modify_for c caller_pid sid (λ s, set_place s x' y' z').

Definition destroy_surface_for (c : CompositorState) (caller_pid sid : Z)
    : CompositorState * result unit :=
  match checked c caller_pid sid with
  | Err e => (c, Err e)
  | Ok idx =>
      let c1 := set_surface c idx Surface_empty in
      let c2 := set_owner c1 idx 0 in
      let c3 := set_buffer c2 idx None in
      let c4 := set_back_buffer c3 idx None in
      let c5 := set_back_pending c4 idx false in
      (set_presented c5 idx false, Ok tt)
  end.

Definition active_surfaces (c : CompositorState) : nat := countb in_use (surfaces c).

Definition surface_owner (c : CompositorState) (sid : Z) : option Z :=
  owner_at c <$> find_surface c sid.

Definition surface_z_get (c : CompositorState) (sid : Z) : option Z :=
  z <$> find_first (λ s, in_use s && (id s =? sid)) (surfaces c).

Definition surface_z_set_for (c : CompositorState) (caller_pid sid z' : Z) :=
  modify_for c caller_pid sid (λ s, set_place s (x s) (y s) z').

Definition surface_geometry_get (c : CompositorState) (sid : Z) : option (Z * Z * Z * Z) :=
  (λ s, (x s, y s, width s, height s)) <$>
  find_first (λ s, in_use s && (id s =? sid)) (surfaces c).

Definition surface_geometry_set_for (c : CompositorState) (caller_pid sid x' y' w h : Z)
    : CompositorState * result unit :=
  if (w =? 0) || (h =? 0) then (c, Err "invalid size")
  else if MAX_SURFACE_PIXELS <? w * h then (c, Err "surface too large")
  else modify_for c caller_pid sid (λ s, set_geometry s x' y' w h).

Definition surface_visibility_get (c : CompositorState) (sid : Z) : option bool :=
  visible <$> find_first (λ s, in_use s && (id s =? sid)) (surfaces c).

Definition surface_visibility_set_for (c : CompositorState) (caller_pid sid : Z) (v : bool) :=
  modify_for c caller_pid sid (λ s, set_visible s v).

(** A rectangle clamped to the surface: [max_w - clip_x] is an [i32] that the
    code reads as a [u32]. *)
Definition clamp_rect (s : Surface) (x' y' w h : Z) : Z * Z * Z * Z :=
  let max_w := i32 (width s) in
  let max_h := i32 (height s) in
  let cx := Z.min (Z.max x' 0) max_w in
  let cy := Z.min (Z.max y' 0) max_h in
  let cw := Z.min w (u32 (max_w - cx)) in
  let ch := Z.min h (u32 (max_h - cy)) in
  (cx, cy, cw, ch).

Definition surface_clip_set_for (c : CompositorState) (caller_pid sid x' y' w h : Z) :=
  modify_for c caller_pid sid (λ s,
    let '(cx, cy, cw, ch) := clamp_rect s x' y' w h in set_clip s cx cy cw ch).

Definition surface_count_for (c : CompositorState) (pid : Z) : nat :=
  let leader := if negb (pid =? 0) then group_leader pid else 0 in
  countb (owned_by c leader) (seq 0 MAX_SURFACES).

Definition surface_damage_set_for (c : CompositorState) (caller_pid sid x' y' w h : Z) :=
  modify_for c caller_pid sid (λ s,
    let '(dx, dy, dw, dh) := clamp_rect s x' y' w h in set_damage s dx dy dw dh).

Definition surface_damage_get (c : CompositorState) (sid : Z) : option (Z * Z * Z * Z * bool) :=
  (λ s, (damage_x s, damage_y s, damage_w s, damage_h s, has_damage s)) <$>
  find_first (λ s, in_use s && (id s =? sid)) (surfaces c).

(** [surf.x + surf.width as i32], with the wrap-around of the release build. *)
Definition right (s : Surface) : Z := i32 (x s + i32 (width s)).
Definition bottom (s : Surface) : Z := i32 (y s + i32 (height s)).

Definition hit (s : Surface) (px py : Z) : bool :=
  in_use s && (x s <=? px) && (px <? right s) && (y s <=? py) && (py <? bottom s).

(** One iteration of the loop of [surface_at_point]. *)
Definition hit_step (c : CompositorState) (px py : Z)
    (st : Z * option (Z * Z)) (idx : nat) : Z * option (Z * Z) :=
  let '(best_z, res) := st in
  let surf := surface_at c idx in
  if hit surf px py && (best_z <? z surf) then (z surf, Some (id surf, owner_at c idx))
  else (best_z, res).

Definition surface_at_point (c : CompositorState) (px py : Z) : option (Z * Z) :=
  (fold_left (hit_step c px py) (seq 0 MAX_SURFACES) (i32_MIN, None)).2.

(** *** The locked sections of the pixel operations *)

Definition pixels_of (s : Surface) : nat := Z.to_nat (width s * height s).

Definition flip_swap (c : CompositorState) (caller_pid sid : Z)
    : CompositorState * result unit :=
  match checked c caller_pid sid with
  | Err e => (c, Err e)
  | Ok idx =>
      let pixels := pixels_of (surface_at c idx) in
      let c1 := match back_at c idx with
                | Some _ => c
                | None => set_back_buffer c idx
                            (Some (default (replicate pixels 0) (buffer_at c idx)))
                end in
      let front := buffer_at c1 idx in
      let back := back_at c1 idx in
      let c2 := set_buffer c1 idx back in
      let c3 := set_back_buffer c2 idx front in
      (set_presented c3 idx true, Ok tt)
  end.

(** Four payload bytes as one pixel, R in the low byte. *)
Definition rgba_at (payload : bytes) (i : nat) : outcome Z :=
  let b := (i * 4)%nat in
  let! r := load payload b in
  let! g := load payload (b + 1) in
  let! bl := load payload (b + 2) in
  let! a := load payload (b + 3) in
  Val (Z.lor (Z.lor (Z.lor r (Z.shiftl g 8)) (Z.shiftl bl 16)) (Z.shiftl a 24)).

Definition copy_rgba (payload : bytes) (pixels : nat) (target : list Z) : outcome (list Z) :=
  for_range 0 pixels (λ i t, let! p := rgba_at payload i in store t i p) target.

Definition upload_surface_rgba32_for (c : CompositorState) (caller_pid sid : Z) (payload : bytes)
    : outcome (CompositorState * result unit) :=
  match checked c caller_pid sid with
  | Err e => Val (c, Err e)
  | Ok idx =>
      let pixels := pixels_of (surface_at c idx) in
      if negb (length payload =? pixels * 4)%nat then Val (c, Err "bad payload size")
      else
        match back_at c idx with
        | Some back =>
            let target := if negb (length back =? pixels)%nat
                          then replicate pixels 0 else back in
            let! t := copy_rgba payload pixels target in
            Val (set_back_buffer c idx (Some t), Ok tt)
        | None =>
            let target := default (replicate pixels 0) (buffer_at c idx) in
            let! t := copy_rgba payload pixels target in
            Val (set_presented (set_buffer c idx (Some t)) idx true, Ok tt)
        end
  end.

Definition present_mark (c : CompositorState) (caller_pid sid : Z)
    : CompositorState * result unit :=
  match checked c caller_pid sid with
  | Err e => (c, Err e)
  | Ok idx => (set_presented c idx true, Ok tt)
  end.

(** [ptr::read_unaligned] of the [i]-th little-endian word of the payload. *)
Definition read_word (payload : bytes) (i : nat) : outcome Z :=
  if (i * 4 + 4 <=? length payload)%nat
  then Val (le_val (slice payload (i * 4) (i * 4 + 4))) else Panic.

Definition swap_br (p : Z) : Z :=
  Z.lor (Z.lor (Z.land p 0xFF00FF00) (Z.shiftl (Z.land p 0x000000FF) 16))
        (Z.shiftr (Z.land p 0x00FF0000) 16).

Definition copy_bgra (payload : bytes) (w h row_px : nat) (buf : list Z) : outcome (list Z) :=
  for_range 0 h (λ y b,
    for_range 0 w (λ x b',
      let! p := read_word payload (y * row_px + x)%nat in
      store b' (y * w + x)%nat (swap_br p)) b) buf.

Definition submit_write (c : CompositorState) (caller_pid sid : Z) (payload : bytes)
    (src_row_bytes : nat) : outcome (CompositorState * result unit) :=
  match checked c caller_pid sid with
  | Err e => Val (c, Err e)
  | Ok idx =>
      let w := Z.to_nat (width (surface_at c idx)) in
      let h := Z.to_nat (height (surface_at c idx)) in
      let pixels := (w * h)%nat in
      let row_px := if (src_row_bytes =? 0)%nat then w else (src_row_bytes / 4)%nat in
      if (length payload <? row_px * 4 * h)%nat then Val (c, Err "bad payload size")
      else
        let buf := match back_at c idx with
                   | Some b => if negb (length b =? pixels)%nat then replicate pixels 0 else b
                   | None => replicate pixels 0
                   end in
        let! b := copy_bgra payload w h row_px buf in
        Val (set_back_pending (set_back_buffer c idx (Some b)) idx true, Ok tt)
  end.

End ops.

(** ** Rendering *)

Definition has_visible_content (c : CompositorState) : bool :=
  existsb (λ idx, in_use (surface_at c idx) && presented_at c idx && isSome (buffer_at c idx))
    (seq 0 MAX_SURFACES).

(** The flip of one pending back buffer, and the loop over the table. *)
Definition flip_at (c : CompositorState) (idx : nat) : CompositorState :=
  if pending_at c idx then
    let back := back_at c idx in
    let front := buffer_at c idx in
    let c1 := set_buffer c idx back in
    let c2 := set_back_buffer c1 idx front in
    let c3 := set_back_pending c2 idx false in
    set_presented c3 idx true
  else c.

Definition flip_pending (c : CompositorState) : CompositorState :=
  fold_left flip_at (seq 0 MAX_SURFACES) c.

Definition covered (c : CompositorState) (w h : Z) : bool :=
  existsb (λ idx,
    let s := surface_at c idx in
    in_use s && presented_at c idx && (x s <=? 0) && (y s <=? 0) &&
    (i32 w <=? right s) && (i32 h <=? bottom s)) (seq 0 MAX_SURFACES).

Definition z_at (c : CompositorState) (idx : nat) : Z := z (surface_at c idx).

(** The inner loop of the insertion sort, from [j] down, and its outer loop. *)
Fixpoint shift (c : CompositorState) (key_z : Z) (order : list nat) (j : nat)
    : list nat * nat :=
  match j with
  | O => (order, O)
  | S j' =>
      let prev := default O (order !! j') in
      if key_z <? z_at c prev then shift c key_z (<[j := prev]> order) j'
      else (order, j)
  end.

Definition sort_step (c : CompositorState) (order : list nat) (i : nat) : list nat :=
  let key := default O (order !! i) in
  let key_z := z_at c key in
  let '(order', j) := shift c key_z order i in
  <[j := key]> order'.

Definition used_indices (c : CompositorState) : list nat :=
  List.filter (λ idx, in_use (surface_at c idx)) (seq 0 MAX_SURFACES).

(** [order[..count]]: the in-use slots in slot order, then sorted in place. *)
Definition paint_order (c : CompositorState) : list nat :=
  let order := used_indices c in
  let count := length order in
  fold_left (sort_step c) (seq 1 (count - 1)) order.

Definition blit_at (c : CompositorState) (idx : nat) (f : Fb.Fb) : outcome Fb.Fb :=
  if negb (presented_at c idx) then Val f
  else
    let s := surface_at c idx in
    match buffer_at c idx with
    | Some buf => Fb.blit_rgba32 f (x s) (y s) (width s) (height s) buf
    | None => Val f
    end.

Definition BACKGROUND : Z := 0x00101820.

(** The composition proper: clear the screen unless a surface covers it, then
    blit the presented surfaces in paint order. *)
Definition compose (c : CompositorState) (bypass : bool) (f : Fb.Fb) : outcome Fb.Fb :=
  let! f1 := (if negb bypass then
                match Fb.size_px f with
                | Some (w, h) =>
                    if negb (covered c w h) then Fb.fill_rect f 0 0 w h BACKGROUND else Val f
                | None => Val f
                end
              else Val f) in
  for_list (paint_order c) (blit_at c) f1.

Record Display := mkDisplay {
  comp : CompositorState;
  fb : Fb.Fb;
  wm : Wm.Wm;
  FB_BYPASS : bool;
  FRAME_DIRTY : bool;
  ACTIVE_CURSOR_SHAPE : Z;
  LAST_SURFACES : list Surface;
  boot_done : bool
}.

Definition set_comp (d : Display) (c : CompositorState) : Display :=
  mkDisplay c (fb d) (wm d) (FB_BYPASS d) (FRAME_DIRTY d) (ACTIVE_CURSOR_SHAPE d)
    (LAST_SURFACES d) (boot_done d).
Definition set_fb (d : Display) (f : Fb.Fb) : Display :=
  mkDisplay (comp d) f (wm d) (FB_BYPASS d) (FRAME_DIRTY d) (ACTIVE_CURSOR_SHAPE d)
    (LAST_SURFACES d) (boot_done d).
Definition set_FRAME_DIRTY (d : Display) (b : bool) : Display :=
  mkDisplay (comp d) (fb d) (wm d) (FB_BYPASS d) b (ACTIVE_CURSOR_SHAPE d)
    (LAST_SURFACES d) (boot_done d).
Definition set_fb_bypass (d : Display) (b : bool) : Display :=
  mkDisplay (comp d) (fb d) (wm d) b (FRAME_DIRTY d) (ACTIVE_CURSOR_SHAPE d)
    (LAST_SURFACES d) (boot_done d).
Definition set_LAST_SURFACES (d : Display) (l : list Surface) : Display :=
  mkDisplay (comp d) (fb d) (wm d) (FB_BYPASS d) (FRAME_DIRTY d) (ACTIVE_CURSOR_SHAPE d)
    l (boot_done d).
Definition mark_done (d : Display) : Display :=
  mkDisplay (comp d) (fb d) (wm d) (FB_BYPASS d) (FRAME_DIRTY d) (ACTIVE_CURSOR_SHAPE d)
    (LAST_SURFACES d) true.

Definition invalidate (d : Display) : Display := set_FRAME_DIRTY d true.

Definition set_cursor_shape (d : Display) (shape : Z) : Display * bool :=
  if Cursor.CURSOR_SHAPE_MAX <? shape then (d, false)
  else
    (invalidate (mkDisplay (comp d) (fb d) (wm d) (FB_BYPASS d) (FRAME_DIRTY d) shape
                   (LAST_SURFACES d) (boot_done d)), true).

(** The pointer statics of the window manager, as the overlay reads them. *)
Definition pointer_of (w : Wm.Wm) : Cursor.Pointer :=
  let i := Wm.input w in
  Cursor.mkPointer (Wm.CURSOR_SEEN i) (Wm.CURSOR_LAST_ACT_NS i)
    (Wm.CURSOR_X i, Wm.CURSOR_Y i) (Wm.CURSOR_BUTTONS i).

Section render.
Context {PG : ProcessGroups}.

(** [bootscreen::render], drawn while nothing has been presented. *)
Context (bootscreen_render : Fb.Fb → outcome Fb.Fb).

(** [c.frame_counter = c.frame_counter.wrapping_add(1); wm::push_vsync(c.frame_counter)]. *)
Definition advance_frame (d : Display) : Display :=
  let frame := u64 (frame_counter (comp d) + 1) in
  mkDisplay (set_frame_counter (comp d) frame) (fb d)
    (Wm.set_core (wm d) (Wm.push_vsync (Wm.core (wm d)) frame))
    (FB_BYPASS d) (FRAME_DIRTY d) (ACTIVE_CURSOR_SHAPE d) (LAST_SURFACES d) (boot_done d).

(** The pointer overlay and the swap that end both branches of a frame; the
    debug HUD is compiled out. *)
Definition finish_frame (d : Display) (now : Z) : outcome Display :=
  let! f1 := Cursor.draw_software_cursor (pointer_of (wm d)) now (ACTIVE_CURSOR_SHAPE d) (fb d) in
  let! f2 := Fb.swap_buffers f1 in
  Val (set_fb d f2).

Definition render_frame (now : Z) (d : Display) : outcome Display :=
  if negb (Fb.is_ready (fb d)) then Val d
  else
    let d1 := set_comp d (flip_pending (comp d)) in
    if negb (has_visible_content (comp d1)) then
      let! f := bootscreen_render (fb d1) in
      let! d2 := finish_frame (set_fb d1 f) now in
      Val (advance_frame d2)
    else
      let d2 := mark_done d1 in
      let! f := compose (comp d2) (FB_BYPASS d2) (fb d2) in
      let! d3 := finish_frame (set_fb d2 f) now in
      Val (advance_frame d3).

(** Run a locked section and render when it succeeds. *)
Definition then_render (now : Z) (d : Display) (r : CompositorState * result unit)
    : outcome (Display * result unit) :=
  let '(c, res) := r in
  match res with
  | Err e => Val (set_comp d c, Err e)
  | Ok _ => let! d' := render_frame now (set_comp d c) in Val (d', Ok tt)
  end.

Definition surface_flip_for (now : Z) (d : Display) (caller_pid sid : Z) :=
  then_render now d (flip_swap (comp d) caller_pid sid).

Definition present_surface_for (now : Z) (d : Display) (caller_pid sid : Z) :=
  then_render now d (present_mark (comp d) caller_pid sid).

Definition gpu_submit_strided_for (now : Z) (d : Display) (caller_pid sid : Z)
    (payload : bytes) (row_bytes : nat) : outcome (Display * result unit) :=
  let! r := submit_write (comp d) caller_pid sid payload row_bytes in then_render now d r.

Definition gpu_submit_for (now : Z) (d : Display) (caller_pid sid : Z) (payload : bytes) :=
  gpu_submit_strided_for now d caller_pid sid payload 0.

Definition wait_vsync (d : Display) (last_seen : Z) : option Z :=
  let now := frame_counter (comp d) in if last_seen <? now then Some now else None.

(** The timer's lightweight tick; [locked] is [try_lock]'s failure. *)
Definition vsync_baton_tick (locked : bool) (d : Display) : Display :=
  if locked then d else advance_frame d.

Definition tick (now : Z) (locked : bool) (d : Display) : outcome Display :=
  if negb (Fb.is_ready (fb d)) then Val d
  else if FB_BYPASS d then Val (if locked then d else advance_frame d)
  else if locked then Val d
  else
    let dirty := FRAME_DIRTY d in
    let d1 := set_FRAME_DIRTY d false in
    let changed := negb (bool_decide (surfaces (comp d1) = LAST_SURFACES d1)) in
    let d2 := if changed then set_LAST_SURFACES d1 (surfaces (comp d1)) else d1 in
    let dirty := dirty || changed in
    let dirty := dirty || existsb (pending_at (comp d2)) (seq 0 MAX_SURFACES) in
    let dirty := dirty || (negb (has_visible_content (comp d2)) &&
                           (frame_counter (comp d2) mod 5 =? 0)) in
    if dirty then render_frame now d2 else Val (advance_frame d2).

End render.

(** ** Paint order *)

(** Back to front: by [z], then by slot. *)
Definition below (c : CompositorState) (i j : nat) : Prop :=
  z_at c i < z_at c j ∨ (z_at c i = z_at c j ∧ (i < j)%nat).

(** The insertion on the reversed prefix the in-place loop performs. *)
Fixpoint place (c : CompositorState) (key : nat) (l : list nat) : list nat :=
  match l with
  | [] => [key]
  | p :: l' => if z_at c key <? z_at c p then p :: place c key l' else key :: p :: l'
  end.

Lemma shift_place c key l y r :
  let '(order, j) := shift c (z_at c key) (l ++ y :: r) (length l) in
  <[j := key]> order = reverse (place c key (reverse l)) ++ r.
Proof.
  revert y r. induction l as [|p l IH] using rev_ind; intros y r; [done|].
  rewrite length_app. simpl. rewrite Nat.add_1_r. cbn [shift].
  rewrite <- app_assoc. simpl. rewrite list_lookup_middle by done. simpl.
  rewrite reverse_snoc. cbn [place]. destruct (z_at c key <? z_at c p).
  - replace (<[S (length l) := p]> (l ++ p :: y :: r)) with (l ++ p :: p :: r).
    + specialize (IH p (p :: r)). destruct (shift _ _ _ _) as [o j]. rewrite IH.
      by rewrite reverse_cons, <- app_assoc.
    + rewrite insert_app_r_alt by lia. by replace (S (length l) - length l)%nat with 1%nat by lia.
  - rewrite insert_app_r_alt by lia. replace (S (length l) - length l)%nat with 1%nat by lia.
    simpl. by rewrite !reverse_cons, reverse_involutive, <- !app_assoc.
Qed.

Lemma place_perm c key l : place c key l ≡ₚ key :: l.
Proof.
  induction l as [|p l IH]; simpl; [done|]. case_if; [|done]. rewrite IH. apply Permutation_swap.
Qed.

Lemma place_sorted c key l :
  (∀ p, p ∈ l → (p < key)%nat) → StronglySorted (flip (below c)) l →
  StronglySorted (flip (below c)) (place c key l).
Proof.
  intros Hlt Hs. induction Hs as [|p l Hs IH Hp]; simpl; [repeat constructor|]. case_if; unbool.
  - constructor.
    + apply IH. intros. apply Hlt. by right.
    + rewrite place_perm. constructor; [|done]. by left.
  - assert (below c p key) as Hpk.
    { destruct (Z_lt_le_dec (z_at c p) (z_at c key)); [by left|right].
      split; [lia|]. apply Hlt. by left. }
    constructor; [by constructor|]. constructor; [done|].
    eapply Forall_impl; [exact Hp|]. unfold flip, below in *. intros q. lia.
Qed.

Lemma StronglySorted_snoc {A} (R : A → A → Prop) l a :
  StronglySorted R l → Forall (λ b, R b a) l → StronglySorted R (l ++ [a]).
Proof.
  induction 1 as [|b l Hs IH Hb]; simpl; [repeat constructor|].
  intros [Hba Hl]%Forall_cons. constructor; [by apply IH|].
  apply Forall_app. split; [done|]. by constructor.
Qed.

Lemma StronglySorted_reverse {A} (R : A → A → Prop) l :
  StronglySorted R l → StronglySorted (flip R) (reverse l).
Proof.
  induction 1 as [|a l Hs IH Ha]; [constructor|]. rewrite reverse_cons.
  apply StronglySorted_snoc; [done|]. by apply Forall_reverse.
Qed.

Lemma sort_step_place c s k r :
  sort_step c (s ++ k :: r) (length s) = reverse (place c k (reverse s)) ++ r.
Proof.
  unfold sort_step. rewrite list_lookup_middle by done. cbn [default].
  pose proof (shift_place c k s k r) as H. by destruct (shift _ _ _ _).
Qed.

Lemma sort_fold c r s :
  StronglySorted (below c) s → StronglySorted lt r → (∀ a b, a ∈ s → b ∈ r → (a < b)%nat) →
  fold_left (sort_step c) (seq (length s) (length r)) (s ++ r) ≡ₚ s ++ r ∧
  StronglySorted (below c) (fold_left (sort_step c) (seq (length s) (length r)) (s ++ r)).
Proof.
  revert s. induction r as [|k r IH]; intros s Hs Hr Hsr; simpl.
  { rewrite app_nil_r. done. }
  rewrite sort_step_place. set (s' := reverse (place c k (reverse s))).
  assert (s' ≡ₚ k :: s) as Hp.
  { unfold s'. rewrite reverse_Permutation, place_perm, reverse_Permutation. done. }
  apply StronglySorted_inv in Hr as [Hr Hk].
  replace (S (length s)) with (length s') by by rewrite (Permutation_length Hp).
  destruct (IH s') as [IHp IHs]; [| |..].
  - unfold s'. apply StronglySorted_reverse in Hs.
    apply (StronglySorted_reverse (flip (below c))). apply place_sorted; [|done].
    intros p Hp'. rewrite elem_of_reverse in Hp'. apply Hsr; [done|by left].
  - done.
  - intros a b Ha Hb. rewrite Hp in Ha. apply elem_of_cons in Ha as [->|Ha].
    + by eapply Forall_forall in Hk.
    + apply Hsr; [done|by right].
  - split; [|done]. rewrite IHp, Hp. simpl. apply Permutation_middle.
Qed.

Lemma used_sorted c n m : StronglySorted lt (List.filter (λ i, in_use (surface_at c i)) (seq n m)).
Proof.
  revert n. induction m as [|m IH]; intros n; simpl; [constructor|]. case_if; [|apply IH].
  constructor; [apply IH|]. apply Forall_forall. intros j Hj.
  apply list_elem_of_In, filter_In in Hj as [Hj _]. apply list_elem_of_In, elem_of_seq in Hj. lia.
Qed.

(** The surfaces in use, each once, back to front. *)
Lemma paint_order_sorted c :
  paint_order c ≡ₚ used_indices c ∧ StronglySorted (below c) (paint_order c).
Proof.
  unfold paint_order. assert (StronglySorted lt (used_indices c)) as Hu by exact (used_sorted c 0 MAX_SURFACES).
  destruct (used_indices c) as [|k r]; [split; [done|constructor]|].
  apply StronglySorted_inv in Hu as [Hr Hk]. simpl length.
  replace (S (length r) - 1)%nat with (length r) by lia.
  apply (sort_fold c r [k]); [repeat constructor|done|].
  intros a b Ha Hb. apply list_elem_of_singleton in Ha as ->. by eapply Forall_forall in Hk.
Qed.

Lemma elem_of_paint_order c i :
  i ∈ paint_order c ↔ (i < MAX_SURFACES)%nat ∧ in_use (surface_at c i) = true.
Proof.
  destruct (paint_order_sorted c) as [Hp _]. rewrite Hp. unfold used_indices.
  rewrite list_elem_of_In, filter_In, <- list_elem_of_In, elem_of_seq.
  split; intros [? ?]; (split; [lia|done]).
Qed.

(** ** What a frame shows *)

Definition shows (c : CompositorState) (px py : nat) (i : nat) : bool :=
  let s := surface_at c i in
  in_use s && presented_at c i && isSome (buffer_at c i) &&
  Fb.inside (x s) (y s) (width s) (height s) px py.

(** The colour surface [i] has at the screen pixel [(px, py)]. *)
Definition colour (c : CompositorState) (px py : nat) (i : nat) : Z :=
  let s := surface_at c i in
  Fb.image (x s) (y s) (width s) (default [] (buffer_at c i)) px py.

(** Surface [i] is the one on top at the pixel: the greatest [z] of those that
    show there, and the greatest slot among equals. *)
Definition topmost (c : CompositorState) (px py : nat) (i : nat) : Prop :=
  (i < MAX_SURFACES)%nat ∧ shows c px py i = true ∧
  ∀ j, (j < MAX_SURFACES)%nat → shows c px py j = true → j = i ∨ below c j i.

(** Every presented surface has a buffer that its geometry fits. *)
Definition drawable (c : CompositorState) : Prop :=
  ∀ i, (i < MAX_SURFACES)%nat → in_use (surface_at c i) = true → presented_at c i = true →
  let s := surface_at c i in
  - 2 ^ 31 ≤ x s < 2 ^ 31 ∧ - 2 ^ 31 ≤ y s < 2 ^ 31 ∧
  0 ≤ width s < 2 ^ 31 ∧ 0 ≤ height s < 2 ^ 31 ∧
  ∃ buf, buffer_at c i = Some buf ∧ width s * height s ≤ Z.of_nat (length buf).

(** The pixels on the screen of a canvas [b] for the framebuffer [f]. *)
Definition on_screen (f : Fb.Fb) (px py : nat) : Prop :=
  Z.of_nat px < Fb.FB_WIDTH f ∧ Z.of_nat py < Fb.FB_HEIGHT f.
Definition at_px (f : Fb.Fb) (b : list Z) (px py : nat) : option Z :=
  b !! (py * Z.to_nat (Fb.FB_PITCH_PX f) + px)%nat.

Lemma blit_at_ok c i f :
  Fb.wf f → Fb.FB_READY f = true → drawable c → (i < MAX_SURFACES)%nat →
  in_use (surface_at c i) = true →
  ∃ b, blit_at c i f = Val (Fb.set_canvas f b) ∧ length b = length (Fb.canvas f) ∧
    ∀ px py, on_screen f px py →
      at_px f b px py =
      if shows c px py i then Some (Fb.ink f (colour c px py i)) else Fb.pixel f px py.
Proof.
  intros Hf Hr Hd Hi Hu. pose proof (Fb.wf_pitch f Hf). unfold blit_at, shows, colour. rewrite Hu.
  destruct (presented_at c i) eqn:Hp; cbn [negb andb].
  2:{ exists (Fb.canvas f). rewrite Fb.set_canvas_canvas. done. }
  destruct (Hd i Hi Hu Hp) as (Hx & Hy & Hw & Hh & buf & Hb & Hl). rewrite Hb.
  destruct (Fb.blit_rgba32_ok f _ _ _ _ buf Hf Hr Hx Hy Hw Hh Hl) as (b & Eb & Lb & Pb).
  exists b. do 2 (split; [done|]). intros px py [Hpx Hpy]. unfold at_px.
  rewrite Pb by lia. by rewrite (proj2 (Z.ltb_lt _ _) Hpx).
Qed.

Lemma find_first_app {A} (p : A → bool) l k :
  find_first p (l ++ k) = match find_first p l with Some a => Some a | None => find_first p k end.
Proof. induction l as [|a l IH]; simpl; [done|]. by destruct (p a). Qed.

(** Blitting a list of surfaces in order: the last one that shows wins. *)
Lemma blits_ok c l f :
  Fb.wf f → Fb.FB_READY f = true → drawable c →
  (∀ i, i ∈ l → (i < MAX_SURFACES)%nat ∧ in_use (surface_at c i) = true) →
  ∃ b, for_list l (blit_at c) f = Val (Fb.set_canvas f b) ∧ length b = length (Fb.canvas f) ∧
    ∀ px py, on_screen f px py →
      at_px f b px py =
      match find_first (shows c px py) (reverse l) with
      | Some i => Some (Fb.ink f (colour c px py i))
      | None => Fb.pixel f px py
      end.
Proof.
  revert f. induction l as [|i l IH]; intros f Hf Hr Hd Hl; simpl.
  { exists (Fb.canvas f). by rewrite Fb.set_canvas_canvas. }
  destruct (Hl i) as [Hi Hu]; [by left|].
  destruct (blit_at_ok c i f Hf Hr Hd Hi Hu) as (b1 & -> & L1 & P1). simpl.
  destruct (Fb.set_canvas_frame f b1) as (Er & Ew & Eh & Ep & Ec & Ei).
  destruct (IH (Fb.set_canvas f b1)) as (b2 & -> & L2 & P2); try done.
  { by apply Fb.wf_set_canvas. }
  { by rewrite Er. }
  { intros. apply Hl. by right. }
  exists b2. rewrite Fb.set_canvas_twice. split; [done|]. split; [congruence|].
  intros px py Hon. specialize (P2 px py). unfold on_screen, at_px in *.
  rewrite Ew, Eh, Ep, Ei in P2. rewrite P2 by done. rewrite reverse_cons, find_first_app.
  destruct (find_first _ (reverse l)); [done|]. unfold Fb.pixel at 1. rewrite Ec, Ep.
  rewrite P1 by done. simpl. by destruct (shows c px py i).
Qed.

(** In a list sorted front to back the topmost surface is found first. *)
Lemma find_topmost c px py i l :
  StronglySorted (flip (below c)) l → i ∈ l → shows c px py i = true →
  (∀ j, j ∈ l → shows c px py j = true → j = i ∨ below c j i) →
  find_first (shows c px py) l = Some i.
Proof.
  induction 1 as [|h l Hs IH Hh]; intros Hi Hsi Hj; [by apply elem_of_nil in Hi|]. simpl.
  destruct (shows c px py h) eqn:Hsh.
  - destruct (Hj h) as [->|Hb]; [by left|done|done|]. exfalso.
    apply elem_of_cons in Hi as [->|Hi]; [unfold below in Hb; lia|].
    rewrite Forall_forall in Hh. specialize (Hh i Hi). unfold flip, below in *. lia.
  - apply IH; [|done|].
    + apply elem_of_cons in Hi as [->|Hi]; [congruence|done].
    + intros j Hjl. apply Hj. by right.
Qed.

(** The scene, and its description in terms of the topmost surface. *)
Definition scene (c : CompositorState) (px py : nat) : Z :=
  match find_first (shows c px py) (reverse (paint_order c)) with
  | Some i => colour c px py i
  | None => BACKGROUND
  end.

Lemma shows_in_use c px py i : shows c px py i = true → in_use (surface_at c i) = true.
Proof. unfold shows. intros. by unbool. Qed.

Lemma scene_topmost c px py i : topmost c px py i → scene c px py = colour c px py i.
Proof.
  intros (Hi & Hs & Ht). unfold scene. destruct (paint_order_sorted c) as [_ Hsort].
  rewrite (find_topmost c px py i).
  - done.
  - by apply StronglySorted_reverse.
  - rewrite elem_of_reverse, elem_of_paint_order. split; [done|]. by eapply shows_in_use.
  - done.
  - intros j Hj Hsj. rewrite elem_of_reverse, elem_of_paint_order in Hj.
    destruct Hj. by apply Ht.
Qed.

Lemma scene_background c px py :
  (∀ i, (i < MAX_SURFACES)%nat → shows c px py i = false) → scene c px py = BACKGROUND.
Proof.
  intros Hn. unfold scene. rewrite (proj2 (find_first_None _ _)); [done|].
  intros i Hi. rewrite elem_of_reverse, elem_of_paint_order in Hi.
  destruct Hi. by apply Hn.
Qed.

Lemma right_i32 a w b :
  - 2 ^ 31 ≤ a < 2 ^ 31 → 0 ≤ w < 2 ^ 31 → b < 2 ^ 31 → b ≤ i32 (a + i32 w) → b ≤ a + w.
Proof.
  intros. rewrite (i32_small w) in * by lia. destruct (Z_lt_le_dec (a + w) (2 ^ 31)); [|lia].
  rewrite i32_small in * by lia. lia.
Qed.

(** A covering surface shows at every pixel, so the skipped clear is not
    missed. *)
Lemma covered_shows c f px py :
  Fb.wf f → drawable c → covered c (Fb.FB_WIDTH f) (Fb.FB_HEIGHT f) = true → on_screen f px py →
  find_first (shows c px py) (reverse (paint_order c)) ≠ None.
Proof.
  intros Hf Hd Hc [Hpx Hpy] Hn. apply existsb_exists in Hc as (i & Hi & Hc).
  apply list_elem_of_In, elem_of_seq in Hi. rewrite !andb_true_iff, !Z.leb_le in Hc.
  destruct Hc as (((((Hu & Hp) & Hx) & Hy) & Hw) & Hh).
  destruct (Hd i) as (Rx & Ry & Rw & Rh & buf & Hb & _); [lia|done..|].
  pose proof (Fb.wf_width f Hf). pose proof (Fb.wf_height f Hf).
  rewrite i32_small in Hw, Hh by lia. unfold right, bottom in *.
  apply right_i32 in Hw, Hh; try lia. rewrite find_first_None in Hn.
  assert (shows c px py i = true) as Hs.
  { unfold shows, Fb.inside. rewrite Hu, Hp, Hb. simpl.
    rewrite !andb_true_iff, !Z.leb_le, !Z.ltb_lt. lia. }
  rewrite Hn in Hs; [done|]. rewrite elem_of_reverse, elem_of_paint_order.
  split; [lia|done].
Qed.

Lemma compose_ok c f :
  Fb.wf f → Fb.FB_READY f = true → drawable c →
  ∃ b, compose c false f = Val (Fb.set_canvas f b) ∧ length b = length (Fb.canvas f) ∧
    ∀ px py, on_screen f px py → at_px f b px py = Some (Fb.ink f (scene c px py)).
Proof.
  intros Hf Hr Hd. unfold compose, Fb.size_px, Fb.is_ready. rewrite Hr. cbn [negb].
  pose proof (Fb.wf_width f Hf). pose proof (Fb.wf_height f Hf).
  assert (∀ i, i ∈ paint_order c → (i < MAX_SURFACES)%nat ∧ in_use (surface_at c i) = true) as Ho
    by (intros; by apply elem_of_paint_order).
  destruct (covered c (Fb.FB_WIDTH f) (Fb.FB_HEIGHT f)) eqn:Ec; cbn [negb obind].
  - destruct (blits_ok c (paint_order c) f Hf Hr Hd Ho) as (b & -> & L & P).
    exists b. do 2 (split; [done|]). intros px py Hon. rewrite P by done. unfold scene.
    pose proof (covered_shows c f px py Hf Hd Ec Hon). by destruct (find_first _ _).
  - destruct (Fb.fill_rect_ok f 0 0 (Fb.FB_WIDTH f) (Fb.FB_HEIGHT f) BACKGROUND Hf Hr)
      as (b1 & -> & L1 & P1); [lia..|]. cbn [obind].
    destruct (Fb.set_canvas_frame f b1) as (Er & Ew & Eh & Ep & Ecv & Ei).
    destruct (blits_ok c (paint_order c) (Fb.set_canvas f b1)) as (b & -> & L & P); try done.
    { by apply Fb.wf_set_canvas. }
    { by rewrite Er. }
    exists b. rewrite Fb.set_canvas_twice. split; [done|]. split; [congruence|].
    intros px py Hon. specialize (P px py). unfold at_px, on_screen in *.
    rewrite Ew, Eh, Ep, Ei in P. rewrite P by done. unfold scene.
    destruct (find_first _ _); [done|]. unfold Fb.pixel. rewrite Ecv, Ep.
    pose proof (Fb.wf_pitch f Hf). rewrite P1 by lia.
    replace ((Z.of_nat px <? Fb.FB_WIDTH f) && _) with true; [done|]. symmetry.
    unfold Fb.inside. rewrite !andb_true_iff, !Z.leb_le, !Z.ltb_lt. lia.
Qed.

Section frame.
Context {PG : ProcessGroups} (bootscreen_render : Fb.Fb → outcome Fb.Fb).

Lemma flip_at_counter c i : frame_counter (flip_at c i) = frame_counter c.
Proof. unfold flip_at. by case_if. Qed.

Lemma flip_pending_counter c : frame_counter (flip_pending c) = frame_counter c.
Proof.
  unfold flip_pending. generalize (seq 0 MAX_SURFACES). intros l. revert c.
  induction l as [|i l IH]; intros c; simpl; [done|]. by rewrite IH, flip_at_counter.
Qed.

(** Where the frame's pointer is drawn. *)
Definition under_cursor (d : Display) (px py : nat) : Prop :=
  let p := Cursor.hotspot (pointer_of (wm d)) (Fb.FB_WIDTH (fb d)) (Fb.FB_HEIGHT (fb d)) in
  Cursor.near p.1 p.2 px py.

(** The display can render: the framebuffer is up, consistent and large enough
    for the pointer, and the kernel owns it. *)
Record renders (d : Display) : Prop := mkRenders {
  rd_wf : Fb.wf (fb d);
  rd_ready : Fb.FB_READY (fb d) = true;
  rd_width : 21 ≤ Fb.FB_WIDTH (fb d);
  rd_height : 21 ≤ Fb.FB_HEIGHT (fb d);
  rd_vram : length (Fb.vram (fb d)) = length (Fb.canvas (fb d));
  rd_bypass : FB_BYPASS d = false;
  rd_drawable : drawable (flip_pending (comp d));
  rd_visible : has_visible_content (flip_pending (comp d)) = true
}.

Lemma render_frame_ok now d :
  renders d →
  ∃ d', render_frame bootscreen_render now d = Val d' ∧
    comp d' = set_frame_counter (flip_pending (comp d)) (u64 (frame_counter (comp d) + 1)) ∧
    ∀ px py, on_screen (fb d) px py → ¬ under_cursor d px py →
      at_px (fb d) (Fb.vram (fb d')) px py =
      Some (Fb.fb_pack (fb d) (scene (flip_pending (comp d)) px py)).
Proof.
  intros [Hf Hr Hw Hh Hv Hby Hd Hvis]. unfold render_frame, Fb.is_ready. rewrite Hr.
  cbn [negb comp set_comp fb mark_done FB_BYPASS]. rewrite Hvis, Hby. cbn [negb].
  destruct (compose_ok (flip_pending (comp d)) (fb d) Hf Hr Hd) as (b1 & -> & L1 & P1).
  cbn [obind]. destruct (Fb.set_canvas_frame (fb d) b1) as (Er & Ew & Eh & Ep & Ec & Ei).
  destruct (Fb.set_canvas_panel (fb d) b1) as [Epk Evr].
  unfold finish_frame. cbn [fb wm set_fb mark_done set_comp ACTIVE_CURSOR_SHAPE].
  assert (Fb.wf (Fb.set_canvas (fb d) b1)) as Hf1 by by apply Fb.wf_set_canvas.
  destruct (Cursor.software_cursor_keeps (pointer_of (wm d)) now (ACTIVE_CURSOR_SHAPE d)
    (Fb.set_canvas (fb d) b1)) as (m & -> & Hm); [done|by rewrite ?Er, ?Ew, ?Eh..|].
  rewrite Ew, Eh in Hm.
  destruct (Hm _ Hf1) as (b2 & -> & L2 & P2). cbn [obind]. rewrite Fb.set_canvas_twice.
  rewrite Ec in L2. rewrite Ep, Eh in P2.
  destruct (Fb.set_canvas_frame (fb d) b2) as (Er2 & Ew2 & Eh2 & Ep2 & Ec2 & Ei2).
  destruct (Fb.set_canvas_panel (fb d) b2) as [Epk2 Evr2].
  destruct (Fb.swap_panel (Fb.set_canvas (fb d) b2)) as (f' & -> & Hp).
  { apply Fb.wf_set_canvas; [done|congruence]. }
  { by rewrite Er2. }
  { rewrite Ec2, Evr2 by congruence. congruence. }
  cbn [obind]. eexists. split; [reflexivity|]. split.
  { unfold advance_frame. cbn [comp set_fb mark_done set_comp].
    by rewrite flip_pending_counter. }
  intros px py Hon Hnc. cbn [fb advance_frame set_fb]. unfold at_px.
  rewrite Epk2, Ei2, Ec2 in Hp. apply Hp.
  destruct Hon as [Hpx Hpy]. pose proof (Fb.wf_pitch _ Hf).
  rewrite P2; [|lia|lia|exact Hnc]. unfold Fb.pixel. rewrite Ec, Ep. by apply P1.
Qed.

(** C3: A rendered frame is the painter's picture: when the framebuffer is up,
    consistent, at least 21 by 21 pixels and the kernel's own, buffers fit their
    surfaces and a surface has been presented, with the pending back buffers
    flipped in every screen pixel the pointer does not touch shows the colour
    of the topmost presented surface there (greatest [z], the later slot among
    equals), and the background colour where no surface shows, also when the
    clear was skipped because a surface covers the screen.  The visibility flag
    and the clip rectangle of a surface play no part. *)
Theorem frame_shows_topmost now d :
  renders d →
  ∃ d', render_frame bootscreen_render now d = Val d' ∧
    frame_counter (comp d') = u64 (frame_counter (comp d) + 1) ∧
    ∀ px py, on_screen (fb d) px py → ¬ under_cursor d px py →
      (∀ i, topmost (flip_pending (comp d)) px py i →
         at_px (fb d) (Fb.vram (fb d')) px py =
         Some (Fb.fb_pack (fb d) (colour (flip_pending (comp d)) px py i))) ∧
      ((∀ i, (i < MAX_SURFACES)%nat → shows (flip_pending (comp d)) px py i = false) →
         at_px (fb d) (Fb.vram (fb d')) px py = Some (Fb.fb_pack (fb d) BACKGROUND)).
Proof.
  intros Hr. destruct (render_frame_ok now d Hr) as (d' & E & Ec & P).
  exists d'. split; [done|]. split; [by rewrite Ec|]. intros px py Hon Hnc.
  rewrite P by done. split.
  - intros i Hi. by rewrite (scene_topmost _ _ _ _ Hi).
  - intros Hn. by rewrite scene_background.
Qed.

End frame.

(** ** The hit test *)

(** Surface [i] is the hit test's choice at the point: the greatest [z] of those
    hit, and the least slot among equals. *)
Definition front (c : CompositorState) (px py : Z) (n i : nat) : Prop :=
  (i < n)%nat ∧ hit (surface_at c i) px py = true ∧ i32_MIN < z_at c i ∧
  ∀ k, (k < n)%nat → hit (surface_at c k) px py = true →
    z_at c k < z_at c i ∨ (z_at c k = z_at c i ∧ (i ≤ k)%nat).

Lemma hit_fold c px py n :
  let st := fold_left (hit_step c px py) (seq 0 n) (i32_MIN, None) in
  (∃ i, st = (z_at c i, Some (id (surface_at c i), owner_at c i)) ∧ front c px py n i) ∨
  (st = (i32_MIN, None) ∧
   ∀ k, (k < n)%nat → hit (surface_at c k) px py = true → z_at c k ≤ i32_MIN).
Proof.
  induction n as [|n IH]; [right; split; [done|lia]|].
  rewrite seq_S, fold_left_app. cbn [fold_left Nat.add]. cbn zeta in IH.
  destruct IH as [(i & -> & Hi & Hh & Hm & Hf)|[-> Hn]]; unfold hit_step;
    destruct (hit (surface_at c n) px py) eqn:Hhn; cbn [andb].
  - destruct (z_at c i <? z (surface_at c n)) eqn:E; unbool; left.
    + exists n. split; [done|]. split; [lia|]. split; [done|]. unfold z_at in *. split; [lia|].
      intros k Hk Hhk. destruct (decide (k = n)) as [->|]; [right; lia|]. left.
      specialize (Hf k ltac:(lia) Hhk). lia.
    + exists i. split; [done|]. split; [lia|]. do 2 (split; [done|]). intros k Hk Hhk.
      destruct (decide (k = n)) as [->|]; [unfold z_at in *; lia|]. apply Hf; [lia|done].
  - left. exists i. split; [done|]. split; [lia|]. do 2 (split; [done|]). intros k Hk Hhk.
    destruct (decide (k = n)) as [->|]; [congruence|]. apply Hf; [lia|done].
  - destruct (i32_MIN <? z (surface_at c n)) eqn:E; unbool.
    + left. exists n. split; [done|]. split; [lia|]. split; [done|]. split; [done|].
      intros k Hk Hhk. destruct (decide (k = n)) as [->|]; [right; lia|]. left.
      specialize (Hn k ltac:(lia) Hhk). unfold z_at in *. lia.
    + right. split; [done|]. intros k Hk Hhk.
      destruct (decide (k = n)) as [->|]; [done|]. apply Hn; [lia|done].
  - right. split; [done|]. intros k Hk Hhk.
    destruct (decide (k = n)) as [->|]; [congruence|]. apply Hn; [lia|done].
Qed.

Lemma surface_at_point_cases c px py :
  (∃ i, surface_at_point c px py = Some (id (surface_at c i), owner_at c i) ∧
        front c px py MAX_SURFACES i) ∨
  (surface_at_point c px py = None ∧
   ∀ k, (k < MAX_SURFACES)%nat → hit (surface_at c k) px py = true → z_at c k ≤ i32_MIN).
Proof.
  unfold surface_at_point.
  destruct (hit_fold c px py MAX_SURFACES) as [(i & Hf & Hi)|[Hf Hn]].
  - left. exists i. split; [|done]. apply (f_equal snd) in Hf. exact Hf.
  - right. split; [|done]. apply (f_equal snd) in Hf. exact Hf.
Qed.

(** The surfaces' right and lower edges are within [i32]. *)
Definition edges_ok (c : CompositorState) : Prop :=
  ∀ i, (i < MAX_SURFACES)%nat → in_use (surface_at c i) = true →
  let s := surface_at c i in
  0 ≤ width s < 2 ^ 31 ∧ 0 ≤ height s < 2 ^ 31 ∧
  - 2 ^ 31 ≤ x s + width s < 2 ^ 31 ∧ - 2 ^ 31 ≤ y s + height s < 2 ^ 31.

Lemma hit_inside c i px py :
  edges_ok c → (i < MAX_SURFACES)%nat →
  hit (surface_at c i) (Z.of_nat px) (Z.of_nat py) =
  in_use (surface_at c i) &&
  Fb.inside (x (surface_at c i)) (y (surface_at c i))
    (width (surface_at c i)) (height (surface_at c i)) px py.
Proof.
  intros He Hi. unfold hit, Fb.inside, right, bottom.
  destruct (in_use (surface_at c i)) eqn:Hu; [|done]. cbn [andb].
  destruct (He i Hi Hu) as (Hw & Hh & Hx & Hy).
  rewrite (i32_small (width _)), (i32_small (height _)) by lia.
  rewrite !i32_small by lia. done.
Qed.

Lemma shows_hit c px py i :
  edges_ok c → (i < MAX_SURFACES)%nat → shows c px py i = true →
  hit (surface_at c i) (Z.of_nat px) (Z.of_nat py) = true.
Proof.
  intros He Hi Hs. rewrite hit_inside by done. unfold shows in Hs. unbool.
  by apply andb_true_iff.
Qed.

(** A click lands on what is on top of the screen: when every surface under
    the point is presented and their [z] values are distinct, [surface_at_point]
    returns the surface whose pixel the frame shows there. *)
Theorem hit_test_matches_frame c px py i :
  edges_ok c → topmost c px py i → i32_MIN < z_at c i →
  (∀ k, (k < MAX_SURFACES)%nat → hit (surface_at c k) (Z.of_nat px) (Z.of_nat py) = true →
     shows c px py k = true ∧ (z_at c k = z_at c i → k = i)) →
  surface_at_point c (Z.of_nat px) (Z.of_nat py) =
  Some (id (surface_at c i), owner_at c i).
Proof.
  intros He (Hi & Hs & Ht) Hz Hall. pose proof (shows_hit c px py i He Hi Hs) as Hh.
  destruct (surface_at_point_cases c (Z.of_nat px) (Z.of_nat py))
    as [(k & -> & Hk & Hhk & Hzk & Hf)|[_ Hn]].
  - destruct (Hall k Hk Hhk) as [Hsk Hu].
    enough (k = i) as -> by done. apply Hu.
    destruct (Hf i Hi Hh) as [Hlt|[Heq _]]; [|done].
    destruct (Ht k Hk Hsk) as [->|[Hb|[Hb _]]]; lia.
  - specialize (Hn i Hi Hh). lia.
Qed.

(** Surfaces of equal [z] are painted in slot order but hit in the opposite
    order: when the topmost surface at a pixel shares its [z] with an earlier
    slot under the same pixel, a click there is given to an earlier slot, which
    the frame does not show.  Every surface is created with [z] 0. *)
Theorem hit_test_tie_goes_under c px py i j :
  edges_ok c → topmost c px py j → (i < j)%nat →
  hit (surface_at c i) (Z.of_nat px) (Z.of_nat py) = true → z_at c i = z_at c j →
  i32_MIN < z_at c j →
  (∀ k, (k < MAX_SURFACES)%nat → hit (surface_at c k) (Z.of_nat px) (Z.of_nat py) = true →
     z_at c k ≤ z_at c j) →
  ∃ k, (k ≤ i)%nat ∧
    surface_at_point c (Z.of_nat px) (Z.of_nat py) =
    Some (id (surface_at c k), owner_at c k) ∧ ¬ topmost c px py k.
Proof.
  intros He (Hj & Hs & Ht) Hij Hhi Hz Hm Hmax. pose proof (shows_hit c px py j He Hj Hs) as Hh.
  destruct (surface_at_point_cases c (Z.of_nat px) (Z.of_nat py))
    as [(k & -> & Hk & Hhk & Hzk & Hf)|[_ Hn]].
  - exists k. specialize (Hmax k Hk Hhk).
    destruct (Hf j Hj Hh) as [?|[Hzj _]]; [lia|].
    destruct (Hf i ltac:(lia) Hhi) as [?|[_ Hki]]; [lia|].
    split; [done|]. split; [done|]. intros (_ & _ & Htk).
    destruct (Htk j Hj Hs) as [->|Hb]; [lia|]. unfold below in Hb. lia.
  - specialize (Hn j Hj Hh). lia.
Qed.

(** ** Ownership *)

Section ownership.
Context {PG : ProcessGroups}.

(** The calls that change the table, as values, and what they do to it under its
    lock. *)
Inductive Op :=
| OCreate (w h : Z)
| OMove (sid x' y' z' : Z)
| ODestroy (sid : Z)
| OZSet (sid z' : Z)
| OGeometry (sid x' y' w h : Z)
| OVisibility (sid : Z) (v : bool)
| OClip (sid x' y' w h : Z)
| ODamage (sid x' y' w h : Z)
| OFlip (sid : Z)
| OUpload (sid : Z) (payload : bytes)
| OPresent (sid : Z)
| OSubmit (sid : Z) (payload : bytes) (row_bytes : nat).

Definition run (c : CompositorState) (caller : Z) (op : Op)
    : outcome (CompositorState * result unit) :=
  match op with
  | OCreate w h =>
      let '(c', r) := create_surface_for c caller w h in
      Val (c', match r with Ok _ => Ok tt | Err e => Err e end)
  | OMove sid x' y' z' => Val (move_surface_for c caller sid x' y' z')
  | ODestroy sid => Val (destroy_surface_for c caller sid)
  | OZSet sid z' => Val (surface_z_set_for c caller sid z')
  | OGeometry sid x' y' w h => Val (surface_geometry_set_for c caller sid x' y' w h)
  | OVisibility sid v => Val (surface_visibility_set_for c caller sid v)
  | OClip sid x' y' w h => Val (surface_clip_set_for c caller sid x' y' w h)
  | ODamage sid x' y' w h => Val (surface_damage_set_for c caller sid x' y' w h)
  | OFlip sid => Val (flip_swap c caller sid)
  | OUpload sid payload => upload_surface_rgba32_for c caller sid payload
  | OPresent sid => Val (present_mark c caller sid)
  | OSubmit sid payload row_bytes => submit_write c caller sid payload row_bytes
  end.

(** Everything the table holds of slot [i]. *)
Definition slot (c : CompositorState) (i : nat) :=
  (surfaces c !! i, owners c !! i, buffers c !! i, back_buffers c !! i,
   presented c !! i, back_pending c !! i).

(** [c'] is [c] but for slot [idx]. *)
Definition touches (idx : nat) (c c' : CompositorState) : Prop :=
  ∀ i, i ≠ idx → slot c' i = slot c i.

Lemma touches_refl idx c : touches idx c c.
Proof. done. Qed.

Lemma touches_trans idx c1 c2 c3 : touches idx c1 c2 → touches idx c2 c3 → touches idx c1 c3.
Proof. intros H1 H2 i Hi. by rewrite H2, H1. Qed.

Ltac touch := intros i Hi; unfold slot; simpl; by rewrite ?list_lookup_insert_ne by done.

Lemma touches_surface idx c s : touches idx c (set_surface c idx s).
Proof. touch. Qed.
Lemma touches_owner idx c o : touches idx c (set_owner c idx o).
Proof. touch. Qed.
Lemma touches_buffer idx c b : touches idx c (set_buffer c idx b).
Proof. touch. Qed.
Lemma touches_back idx c b : touches idx c (set_back_buffer c idx b).
Proof. touch. Qed.
Lemma touches_presented idx c b : touches idx c (set_presented c idx b).
Proof. touch. Qed.
Lemma touches_pending idx c b : touches idx c (set_back_pending c idx b).
Proof. touch. Qed.
Lemma touches_next_id idx c n : touches idx c (set_next_id c n).
Proof. done. Qed.

Create HintDb touch.
Hint Resolve touches_refl touches_surface touches_owner touches_buffer touches_back
  touches_presented touches_pending touches_next_id : touch.

(** A chain of updates of slot [idx]. *)
Ltac touch_chain :=
  match goal with
  | |- touches _ ?c ?c => apply touches_refl
  | |- touches _ _ (_ ?c' _ _) => eapply (touches_trans _ _ c'); [touch_chain|auto with touch]
  | |- touches _ _ (_ ?c' _) => eapply (touches_trans _ _ c'); [touch_chain|auto with touch]
  end.

Lemma checked_Ok c caller sid idx :
  checked c caller sid = Ok idx →
  (idx < length (surfaces c))%nat ∧ in_use (surface_at c idx) = true ∧
  (caller ≠ 0 → owner_at c idx = group_leader caller).
Proof.
  unfold checked, find_surface. destruct (position _ _) as [k|] eqn:Ek; [|done].
  case_if; [done|]. intros [= <-]. pose proof (position_lt _ _ _ Ek).
  apply position_Some in Ek as [(s & Hs & Hp) _]. unbool.
  split; [done|]. split; [by unfold surface_at; rewrite Hs|]. intros Hc.
  apply andb_false_iff in E as [E|E]; unbool; congruence.
Qed.

(** Which slot an operation may change. *)
Definition may_change (c : CompositorState) (caller : Z) (idx : nat) : Prop :=
  in_use (surface_at c idx) = false ∨ (caller ≠ 0 → owner_at c idx = group_leader caller).

Lemma modify_for_touches c caller sid g c' r :
  modify_for c caller sid g = (c', r) →
  (c' = c ∧ ¬ is_ok r) ∨ ∃ idx, touches idx c c' ∧ may_change c caller idx.
Proof.
  unfold modify_for. destruct (checked c caller sid) as [idx|e] eqn:Ec; intros [= <- <-].
  - right. exists idx. split; [touch_chain|]. right. by apply checked_Ok in Ec as (_ & _ & ?).
  - left. split; [done|]. simpl. auto.
Qed.

Lemma position_unused c idx :
  position (λ s, negb (in_use s)) (surfaces c) = Some idx →
  (idx < length (surfaces c))%nat ∧ in_use (surface_at c idx) = false.
Proof.
  intros Hp. split; [by eapply position_lt|].
  apply position_Some in Hp as [(s & Hs & Hu) _]. unbool. unfold surface_at. by rewrite Hs.
Qed.

Lemma run_touches c caller op c' r :
  run c caller op = Val (c', r) →
  (c' = c ∧ ¬ is_ok r) ∨ ∃ idx, touches idx c c' ∧ may_change c caller idx.
Proof.
  assert (∀ e, (c = c ∧ ¬ is_ok (@Err unit e)) ∨ ∃ idx, touches idx c c ∧ may_change c caller idx)
    as Herr by (left; split; [done|simpl; auto]).
  destruct op; cbn [run]; intros H;
    try (injection H as H; by eapply modify_for_touches).
  - unfold create_surface_for in H. destruct (_ || _); [injection H as <- <-; apply Herr|].
    destruct (_ <? _); [injection H as <- <-; apply Herr|].
    destruct (_ && _); [injection H as <- <-; apply Herr|].
    destruct (position _ _) as [idx|] eqn:Ep; [|injection H as <- <-; apply Herr].
    injection H as <- <-. right. exists idx. split; [touch_chain|]. left.
    by apply position_unused.
  - unfold destroy_surface_for in H. destruct (checked _ _ _) as [idx|e] eqn:Ec;
      injection H as <- <-; [|apply Herr].
    right. exists idx. split; [touch_chain|]. right. by apply checked_Ok in Ec as (_ & _ & ?).
  - unfold surface_geometry_set_for in H. destruct (_ || _); [injection H as <- <-; apply Herr|].
    destruct (_ <? _); [injection H as <- <-; apply Herr|]. injection H as H.
    by eapply modify_for_touches.
  - unfold flip_swap in H. destruct (checked _ _ _) as [idx|e] eqn:Ec;
      injection H as <- <-; [|apply Herr].
    right. exists idx. split; [destruct (back_at c idx); touch_chain|].
    right. by apply checked_Ok in Ec as (_ & _ & ?).
  - unfold upload_surface_rgba32_for in H. destruct (checked _ _ _) as [idx|e] eqn:Ec;
      [|injection H as <- <-; apply Herr].
    destruct (negb _); [injection H as <- <-; apply Herr|]. right. exists idx.
    split; [|right; by apply checked_Ok in Ec as (_ & _ & ?)].
    destruct (back_at c idx); destruct (copy_rgba _ _ _); try done;
      injection H as <- <-; touch_chain.
  - unfold present_mark in H. destruct (checked _ _ _) as [idx|e] eqn:Ec;
      injection H as <- <-; [|apply Herr].
    right. exists idx. split; [touch_chain|]. right. by apply checked_Ok in Ec as (_ & _ & ?).
  - unfold submit_write in H. destruct (checked _ _ _) as [idx|e] eqn:Ec;
      [|injection H as <- <-; apply Herr].
    destruct (_ <? _)%nat; [injection H as <- <-; apply Herr|]. right. exists idx.
    split; [|right; by apply checked_Ok in Ec as (_ & _ & ?)].
    destruct (copy_bgra _ _ _ _ _); [|done]. injection H as <- <-. touch_chain.
Qed.

(** ** The table's invariant *)

#[local] Opaque MAX_SURFACES MAX_SURFACES_PER_PID.

Definition lens (c : CompositorState) : Prop :=
  length (surfaces c) = MAX_SURFACES ∧ length (owners c) = MAX_SURFACES ∧
  length (buffers c) = MAX_SURFACES ∧ length (back_buffers c) = MAX_SURFACES ∧
  length (presented c) = MAX_SURFACES ∧ length (back_pending c) = MAX_SURFACES.

(** A free slot holds nothing; a slot in use has a front buffer, and a back
    buffer whenever a flip is pending. *)
Definition slot_ok (c : CompositorState) (i : nat) : Prop :=
  if in_use (surface_at c i)
  then isSome (buffer_at c i) = true ∧ (pending_at c i = true → isSome (back_at c i) = true)
  else owner_at c i = 0 ∧ buffer_at c i = None ∧ back_at c i = None ∧
       presented_at c i = false ∧ pending_at c i = false.

Definition owned_count (c : CompositorState) (leader : Z) : nat :=
  countb (owned_by c leader) (seq 0 MAX_SURFACES).

Record inv (c : CompositorState) : Prop := mkInv {
  inv_lens : lens c;
  inv_slots : ∀ i, (i < MAX_SURFACES)%nat → slot_ok c i;
  inv_quota : ∀ leader, leader ≠ 0 → (owned_count c leader ≤ MAX_SURFACES_PER_PID)%nat
}.

Lemma slot_readers c c' i :
  slot c' i = slot c i →
  surface_at c' i = surface_at c i ∧ owner_at c' i = owner_at c i ∧
  buffer_at c' i = buffer_at c i ∧ back_at c' i = back_at c i ∧
  presented_at c' i = presented_at c i ∧ pending_at c' i = pending_at c i.
Proof.
  unfold slot, surface_at, owner_at, buffer_at, back_at, presented_at, pending_at.
  intros [= -> -> -> -> -> ->]. done.
Qed.

(** The reads of a slot just written. *)
Ltac reads :=
  unfold slot_ok, owned_by, surface_at, owner_at, buffer_at, back_at, presented_at, pending_at;
  simpl; rewrite ?list_lookup_insert_eq by (rewrite ?length_insert; lia); simpl.

Lemma countb_ext_in {A} (p q : A → bool) l :
  (∀ a, a ∈ l → p a = q a) → countb p l = countb q l.
Proof.
  induction l as [|a l IH]; intros H; [done|]. rewrite !countb_cons, (H a) by left.
  f_equal. apply IH. intros. apply H. by right.
Qed.

(** Changing one slot preserves the invariant when the slot stays consistent
    and gains no owner beyond the quota. *)
Lemma inv_touch c c' idx :
  inv c → touches idx c c' → (idx < MAX_SURFACES)%nat → lens c' → slot_ok c' idx →
  (∀ leader, leader ≠ 0 → owned_by c' leader idx = true →
     owned_by c leader idx = true ∨ (owned_count c leader < MAX_SURFACES_PER_PID)%nat) →
  inv c'.
Proof.
  intros [Hl Hs Hq] Ht Hi Hl' Hs' Ho.
  assert (∀ leader j, j ≠ idx → owned_by c' leader j = owned_by c leader j) as Hne.
  { intros leader j Hj. destruct (slot_readers c c' j (Ht j Hj)) as (E1 & E2 & _).
    unfold owned_by. by rewrite E1, E2. }
  split; [done| |].
  - intros i Hi'. destruct (decide (i = idx)) as [->|Hij]; [done|].
    destruct (slot_readers c c' i (Ht i Hij)) as (E1 & E2 & E3 & E4 & E5 & E6).
    specialize (Hs i Hi'). unfold slot_ok in *. by rewrite E1, E2, E3, E4, E5, E6.
  - intros leader Hld. specialize (Hq leader Hld). unfold owned_count in *.
    assert (idx ∈ seq 0 MAX_SURFACES) as Hin by (apply elem_of_seq; lia).
    pose proof (NoDup_seq 0 MAX_SURFACES) as Hnd.
    destruct (owned_by c' leader idx) eqn:E', (owned_by c leader idx) eqn:E.
    + rewrite (countb_ext_in _ (owned_by c leader)); [done|]. intros j _.
      destruct (decide (j = idx)) as [->|]; [congruence|by apply Hne].
    + destruct (Ho leader Hld E') as [?|Hlt]; [congruence|].
      rewrite (countb_flip _ (owned_by c leader) _ idx Hnd Hin E' E); [exact Hlt|].
      intros. by apply Hne.
    + assert (countb (owned_by c leader) (seq 0 MAX_SURFACES)
              = S (countb (owned_by c' leader) (seq 0 MAX_SURFACES))) as Hc; [|lia].
      apply (countb_flip _ _ _ idx Hnd Hin E E'). intros. symmetry. by apply Hne.
    + rewrite (countb_ext_in _ (owned_by c leader)); [done|]. intros j _.
      destruct (decide (j = idx)) as [->|]; [congruence|by apply Hne].
Qed.

Ltac lens_tac := unfold lens in *; simpl; rewrite ?length_insert; done.

Lemma inv_create c caller w h : inv c → inv (create_surface_for c caller w h).1.
Proof.
  intros Hi. unfold create_surface_for. case_if; [done|]. case_if; [done|]. case_if; [done|].
  destruct (position _ _) as [idx|] eqn:Ep; [|done]. simpl. clear E E0.
  destruct (position_unused c idx Ep) as [Hlt Hu]. pose proof (inv_lens c Hi) as Hl.
  assert (idx < MAX_SURFACES)%nat as Hidx by (unfold lens in Hl; lia).
  pose proof (inv_slots c Hi idx Hidx) as Hs. unfold slot_ok in Hs. rewrite Hu in Hs.
  destruct Hs as (_ & _ & _ & _ & Hpend). unfold pending_at in Hpend.
  eapply (inv_touch c _ idx Hi); [touch_chain|done|lens_tac| |].
  - unfold lens in Hl. reads. rewrite Hpend. done.
  - intros leader Hld Ho. right. unfold lens in Hl. revert Ho. reads. intros Ho. unbool. subst leader.
    apply andb_false_iff in E1 as [E1|E1]; unbool; [congruence|]. exact E1.
Qed.

(** An assignment of surface fields keeps the slot in use. *)
Lemma inv_modify c caller sid g c' r :
  (∀ s, in_use (g s) = in_use s) → inv c → modify_for c caller sid g = (c', r) → inv c'.
Proof.
  intros Hg Hi. unfold modify_for. destruct (checked _ _ _) as [idx|e] eqn:Ec; intros [= <- _]; [|done].
  destruct (checked_Ok _ _ _ _ Ec) as (Hlt & Hu & _). pose proof (inv_lens c Hi) as Hl.
  assert (idx < MAX_SURFACES)%nat as Hidx by (unfold lens in Hl; lia).
  pose proof (inv_slots c Hi idx Hidx) as Hs.
  eapply (inv_touch c _ idx Hi); [touch_chain|done|lens_tac| |].
  - unfold slot_ok in *. rewrite Hu in Hs. unfold surface_at at 1. simpl.
    rewrite list_lookup_insert_eq by lia. simpl. rewrite Hg, Hu. exact Hs.
  - intros leader Hld Ho. left. unfold owned_by in *. rewrite Hu. apply andb_true_iff in Ho as [_ Ho].
    exact Ho.
Qed.

Lemma inv_destroy c caller sid : inv c → inv (destroy_surface_for c caller sid).1.
Proof.
  intros Hi. unfold destroy_surface_for. destruct (checked _ _ _) as [idx|e] eqn:Ec; [|done].
  destruct (checked_Ok _ _ _ _ Ec) as (Hlt & Hu & _). pose proof (inv_lens c Hi) as Hl. simpl.
  assert (idx < MAX_SURFACES)%nat as Hidx by (unfold lens in Hl; lia).
  eapply (inv_touch c _ idx Hi); [touch_chain|done|lens_tac| |]; unfold lens in Hl.
  - reads. done.
  - intros leader Hld Ho. revert Ho. reads. done.
Qed.

(** The pixel operations leave the surface and its owner alone. *)
Lemma inv_pixels c c' idx :
  inv c → touches idx c c' → (idx < MAX_SURFACES)%nat → lens c' →
  surfaces c' = surfaces c → owners c' = owners c → in_use (surface_at c idx) = true →
  isSome (buffer_at c' idx) = true → (pending_at c' idx = true → isSome (back_at c' idx) = true) →
  inv c'.
Proof.
  intros Hi Ht Hidx Hl Hsf How Hu Hb Hp. eapply (inv_touch c c' idx Hi); [done..| |].
  - unfold slot_ok, surface_at. rewrite Hsf. fold (surface_at c idx). by rewrite Hu.
  - intros leader Hld Ho. left. unfold owned_by, surface_at, owner_at in *.
    by rewrite Hsf, How in Ho.
Qed.

Lemma slot_in_use c idx :
  inv c → (idx < MAX_SURFACES)%nat → in_use (surface_at c idx) = true →
  isSome (buffer_at c idx) = true ∧ (pending_at c idx = true → isSome (back_at c idx) = true).
Proof. intros Hi Hidx Hu. pose proof (inv_slots c Hi idx Hidx) as H. unfold slot_ok in H. by rewrite Hu in H. Qed.

Lemma inv_flip_swap c caller sid : inv c → inv (flip_swap c caller sid).1.
Proof.
  intros Hi. unfold flip_swap. destruct (checked _ _ _) as [idx|e] eqn:Ec; [|done].
  destruct (checked_Ok _ _ _ _ Ec) as (Hlt & Hu & _). pose proof (inv_lens c Hi) as Hl. simpl.
  assert (idx < MAX_SURFACES)%nat as Hidx by (unfold lens in Hl; lia).
  destruct (slot_in_use c idx Hi Hidx Hu) as [Hb Hp].
  assert (∀ c1, touches idx c c1 → lens c1 → surfaces c1 = surfaces c → owners c1 = owners c →
    isSome (back_at c1 idx) = true → isSome (buffer_at c1 idx) = true →
    inv (set_presented (set_back_buffer (set_buffer c1 idx (back_at c1 idx)) idx
           (buffer_at c1 idx)) idx true)) as Hgo.
  { intros c1 Ht Hl1 Hs1 Ho1 Hk1 Hf1. eapply (inv_pixels c _ idx Hi); simpl; try done.
    - eapply touches_trans; [exact Ht|]. touch_chain.
    - lens_tac.
    - unfold lens in Hl1. unfold buffer_at. simpl. by rewrite list_lookup_insert_eq by lia.
    - intros _. unfold lens in Hl1. unfold back_at at 1. simpl.
      by rewrite list_lookup_insert_eq by lia. }
  destruct (back_at c idx) as [b|] eqn:Hk; apply Hgo; try done.
  - by rewrite Hk.
  - auto with touch.
  - lens_tac.
  - unfold lens in Hl. reads. done.
Qed.

Lemma inv_upload c caller sid payload c' r :
  inv c → upload_surface_rgba32_for c caller sid payload = Val (c', r) → inv c'.
Proof.
  intros Hi. unfold upload_surface_rgba32_for.
  destruct (checked _ _ _) as [idx|e] eqn:Ec; [|by intros [= <- _]].
  case_if; [by intros [= <- _]|]. destruct (checked_Ok _ _ _ _ Ec) as (Hlt & Hu & _).
  pose proof (inv_lens c Hi) as Hl.
  assert (idx < MAX_SURFACES)%nat as Hidx by (unfold lens in Hl; lia).
  destruct (slot_in_use c idx Hi Hidx Hu) as [Hb Hp].
  destruct (back_at c idx) as [back|] eqn:Hk; destruct (copy_rgba _ _ _) as [t|]; try done;
    intros [= <- _]; eapply (inv_pixels c _ idx Hi); simpl; try done;
    try touch_chain; try lens_tac; unfold lens in Hl.
  - intros _. reads. done.
  - reads. done.
  - intros Hpe. specialize (Hp Hpe). unfold back_at in *. simpl in *. by rewrite Hk.
Qed.

Lemma inv_submit c caller sid payload row c' r :
  inv c → submit_write c caller sid payload row = Val (c', r) → inv c'.
Proof.
  intros Hi. unfold submit_write.
  destruct (checked _ _ _) as [idx|e] eqn:Ec; [|by intros [= <- _]].
  case_if; [by intros [= <- _]|]. destruct (checked_Ok _ _ _ _ Ec) as (Hlt & Hu & _).
  pose proof (inv_lens c Hi) as Hl.
  assert (idx < MAX_SURFACES)%nat as Hidx by (unfold lens in Hl; lia).
  destruct (slot_in_use c idx Hi Hidx Hu) as [Hb Hp].
  destruct (copy_bgra _ _ _ _ _) as [t|]; [|done]. intros [= <- _].
  eapply (inv_pixels c _ idx Hi); simpl; try done; [touch_chain|lens_tac|].
  unfold lens in Hl. intros _. reads. done.
Qed.

Lemma inv_present c caller sid : inv c → inv (present_mark c caller sid).1.
Proof.
  intros Hi. unfold present_mark. destruct (checked _ _ _) as [idx|e] eqn:Ec; [|done].
  destruct (checked_Ok _ _ _ _ Ec) as (Hlt & Hu & _). pose proof (inv_lens c Hi) as Hl. simpl.
  assert (idx < MAX_SURFACES)%nat as Hidx by (unfold lens in Hl; lia).
  destruct (slot_in_use c idx Hi Hidx Hu) as [Hb Hp].
  eapply (inv_pixels c _ idx Hi); simpl; try done; [touch_chain|lens_tac].
Qed.

Lemma inv_flip_at c idx : inv c → (idx < MAX_SURFACES)%nat → inv (flip_at c idx).
Proof.
  intros Hi Hidx. unfold flip_at. case_if; [|done].
  pose proof (inv_lens c Hi) as Hl. pose proof (inv_slots c Hi idx Hidx) as Hs.
  unfold slot_ok in Hs. destruct (in_use (surface_at c idx)) eqn:Hu;
    [|destruct Hs as (_ & _ & _ & _ & ?); congruence].
  destruct Hs as [Hb Hp]. eapply (inv_pixels c _ idx Hi); simpl; try done;
    [touch_chain|lens_tac| |]; unfold lens in Hl.
  - unfold buffer_at. simpl. rewrite list_lookup_insert_eq by lia. by apply Hp.
  - intros Hq. revert Hq. reads. done.
Qed.

Lemma inv_flip_pending c : inv c → inv (flip_pending c).
Proof.
  unfold flip_pending. intros Hi.
  assert (∀ i, i ∈ seq 0 MAX_SURFACES → (i < MAX_SURFACES)%nat) as Hl
    by (intros i ?%elem_of_seq; lia).
  revert c Hi Hl. generalize (seq 0 MAX_SURFACES). intros l.
  induction l as [|i l IH]; intros c Hi Hl; simpl; [done|]. apply IH.
  - apply inv_flip_at; [done|]. apply Hl. by left.
  - intros j Hj. apply Hl. by right.
Qed.

Lemma inv_set_frame_counter c n : inv c → inv (set_frame_counter c n).
Proof. intros [H1 H2 H3]. split; [exact H1|exact H2|exact H3]. Qed.

(** One call of a process, or one frame. *)
Inductive step : CompositorState → CompositorState → Prop :=
| step_run c caller op c' r : run c caller op = Val (c', r) → step c c'
| step_frame c n : step c (set_frame_counter (flip_pending c) n).

Lemma inv_step c c' : inv c → step c c' → inv c'.
Proof.
  intros Hi Hs. revert Hi. destruct Hs as [c0 caller op c1 r Hr|c0 n]; intros Hi.
  - destruct op; cbn [run] in Hr;
      try (injection Hr as Hr; by eapply inv_modify in Hr).
    + pose proof (inv_create c0 caller w h Hi) as H.
      destruct (create_surface_for c0 caller w h). by injection Hr as <- _.
    + injection Hr as Hr. pose proof (inv_destroy c0 caller sid Hi) as H. by rewrite Hr in H.
    + injection Hr as Hr. unfold surface_geometry_set_for in Hr.
      case_if_in Hr; [by simplify_eq|]. case_if_in Hr; [by simplify_eq|].
      by eapply inv_modify in Hr.
    + injection Hr as Hr. pose proof (inv_flip_swap c0 caller sid Hi) as H. by rewrite Hr in H.
    + by eapply inv_upload.
    + injection Hr as Hr. pose proof (inv_present c0 caller sid Hi) as H. by rewrite Hr in H.
    + by eapply inv_submit.
  - by apply inv_set_frame_counter, inv_flip_pending.
Qed.

Lemma inv_new : inv CompositorState_new.
Proof.
  split.
  - unfold lens, CompositorState_new. simpl. by rewrite !length_replicate.
  - intros i Hi. unfold slot_ok, surface_at, owner_at, buffer_at, back_at, presented_at, pending_at.
    simpl. by rewrite !lookup_replicate_2 by done.
  - intros leader Hl. unfold owned_count. rewrite (countb_ext_in _ (λ _, false)).
    + generalize (seq 0 MAX_SURFACES). intros l. induction l; [apply Nat.le_0_l|].
      by rewrite countb_cons.
    + intros i Hi%elem_of_seq. unfold owned_by, surface_at. simpl.
      by rewrite lookup_replicate_2 by lia.
Qed.

(** Whatever calls are made by whatever processes, with frames rendered in
    between: a thread group owns at most [MAX_SURFACES_PER_PID] surfaces, a free
    slot keeps no owner, buffer or flag of the surface it held before, and a
    surface in use always has its front buffer, and its back buffer while a
    flip is pending. *)
Theorem surface_table_invariant c :
  rtc step CompositorState_new c →
  (∀ pid, group_leader pid ≠ 0 → pid ≠ 0 →
     (surface_count_for c pid ≤ MAX_SURFACES_PER_PID)%nat) ∧
  ∀ i, (i < MAX_SURFACES)%nat →
    if in_use (surface_at c i)
    then isSome (buffer_at c i) = true ∧ (pending_at c i = true → isSome (back_at c i) = true)
    else owner_at c i = 0 ∧ buffer_at c i = None ∧ back_at c i = None ∧
         presented_at c i = false ∧ pending_at c i = false.
Proof.
  intros Hr. assert (inv c) as [Hl Hs Hq].
  { eapply (rtc_ind_r inv); [apply inv_new| |exact Hr]. intros. by eapply inv_step. }
  split; [|exact Hs]. intros pid Hld Hpid. unfold surface_count_for.
  rewrite (proj2 (Z.eqb_neq pid 0)) by done. by apply Hq.
Qed.

End ownership.

#[local] Transparent MAX_SURFACES MAX_SURFACES_PER_PID.

(** ** Submitted pixels *)

Section pixels.
Context {PG : ProcessGroups}.

(** The [i]-th 32-bit word of a payload. *)
Definition word (payload : bytes) (i : nat) : Z :=
  le_val (slice payload (i * 4) (i * 4 + 4)).

Lemma read_word_ok payload i :
  (i * 4 + 4 ≤ length payload)%nat → read_word payload i = Val (word payload i).
Proof. intros H. unfold read_word. by rewrite (proj2 (Nat.leb_le _ _) H). Qed.

Lemma copy_bgra_row payload w h row_px y buf :
  (w ≤ row_px)%nat → (row_px * 4 * h ≤ length payload)%nat → (y < h)%nat →
  length buf = (w * h)%nat →
  ∃ b, for_range 0 w (λ x b', let! p := read_word payload (y * row_px + x)%nat in
                              store b' (y * w + x)%nat (swap_br p)) buf = Val b ∧
    length b = (w * h)%nat ∧
    ∀ j, b !! j = if bool_decide (y * w ≤ j < y * w + w)%nat
                  then Some (swap_br (word payload (y * row_px + (j - y * w))%nat)) else buf !! j.
Proof.
  intros Hw Hlen Hy Hb.
  destruct (for_range_inv (λ n b, length b = (w * h)%nat ∧ ∀ j, b !! j =
      if bool_decide (y * w ≤ j < y * w + n)%nat
      then Some (swap_br (word payload (y * row_px + (j - y * w))%nat)) else buf !! j)
    (λ x b', let! p := read_word payload (y * row_px + x)%nat in
             store b' (y * w + x)%nat (swap_br p)) 0 w buf)
    as (b & Eb & Lb & Pb); [split| |by exists b].
  - done.
  - intros j. by rewrite bool_decide_eq_false_2 by lia.
  - intros k b Hk [Lb Pb]. rewrite read_word_ok by nia. simpl. rewrite store_ok by nia.
    eexists; split; [done|]. rewrite length_insert. split; [done|]. intros j.
    destruct (decide (j = y * w + k)%nat) as [->|Hne].
    + rewrite list_lookup_insert_eq by nia. rewrite bool_decide_eq_true_2 by lia.
      do 4 f_equal. lia.
    + rewrite list_lookup_insert_ne by done. rewrite Pb.
      repeat case_bool_decide; try done; lia.
Qed.

(** The strided copy: pixel [(x, y)] of the surface is the payload's pixel at
    column [x] of scanline [y], with blue and red exchanged. *)
Lemma copy_bgra_ok payload w h row_px buf :
  (w ≤ row_px)%nat → (row_px * 4 * h ≤ length payload)%nat → length buf = (w * h)%nat →
  ∃ b, copy_bgra payload w h row_px buf = Val b ∧ length b = (w * h)%nat ∧
    ∀ x y, (x < w)%nat → (y < h)%nat →
      b !! (y * w + x)%nat = Some (swap_br (word payload (y * row_px + x)%nat)).
Proof.
  intros Hw Hlen Hb. unfold copy_bgra.
  destruct (for_range_inv (λ n b, length b = (w * h)%nat ∧
      ∀ x y, (x < w)%nat → (y < n)%nat →
        b !! (y * w + x)%nat = Some (swap_br (word payload (y * row_px + x)%nat)))
    (λ y b, for_range 0 w (λ x b', let! p := read_word payload (y * row_px + x)%nat in
                                   store b' (y * w + x)%nat (swap_br p)) b) 0 h buf)
    as (b & Eb & Lb & Pb); [split; [done|lia]| |by exists b].
  intros k b Hk [Lb Pb].
  destruct (copy_bgra_row payload w h row_px k b Hw Hlen ltac:(lia) Lb) as (b' & Eb & Lb' & Pb').
  exists b'. split; [done|]. split; [done|]. intros x y Hx Hy. rewrite Pb'.
  destruct (decide (y = k)) as [->|Hne].
  - rewrite bool_decide_eq_true_2 by lia. do 4 f_equal. lia.
  - rewrite bool_decide_eq_false_2 by nia. apply Pb; lia.
Qed.

Lemma flip_at_touches c idx : touches idx c (flip_at c idx).
Proof.
  intros i Hi. unfold flip_at. case_if; [|done]. unfold slot. simpl.
  by rewrite ?list_lookup_insert_ne by done.
Qed.

Lemma flips_elsewhere l c i : i ∉ l → slot (fold_left flip_at l c) i = slot c i.
Proof.
  revert c. induction l as [|k l IH]; intros c Hi; simpl; [done|].
  apply not_elem_of_cons in Hi as [Hk Hi]. rewrite IH by done. by apply flip_at_touches.
Qed.

(** The flip of a slot looks at this slot only. *)
Lemma flip_at_slot c c' i : slot c' i = slot c i → slot (flip_at c' i) i = slot (flip_at c i) i.
Proof.
  unfold slot, flip_at, pending_at, buffer_at, back_at. intros [= E1 E2 E3 E4 E5 E6]. rewrite E3, E4, E6.
  assert (∀ {A} (l l' : list A) x, l' !! i = l !! i → <[i := x]> l' !! i = <[i := x]> l !! i) as Hins.
  { intros A l l' x E. destruct (l !! i) as [y|] eqn:El.
    - rewrite !list_lookup_insert_eq; [done|by eapply lookup_lt_Some..].
    - rewrite !list_insert_ge by (by apply lookup_ge_None). congruence. }
  destruct (default false _); cbn; [|congruence]. rewrite E1, E2.
  by rewrite (Hins _ _ _ _ E3), (Hins _ _ _ _ E4), (Hins _ _ _ _ E5), (Hins _ _ _ _ E6).
Qed.

Lemma flip_pending_slot c i :
  slot (flip_pending c) i = slot c i ∨ slot (flip_pending c) i = slot (flip_at c i) i.
Proof.
  unfold flip_pending. destruct (decide (i < MAX_SURFACES)%nat) as [Hi|Hi].
  2: { left. apply flips_elsewhere. rewrite elem_of_seq. lia. }
  right. replace (seq 0 MAX_SURFACES) with (seq 0 i ++ i :: seq (S i) (MAX_SURFACES - S i)).
  2:{ change (i :: seq (S i) (MAX_SURFACES - S i)) with (seq i (S (MAX_SURFACES - S i))).
      replace i with (0 + i)%nat at 2 by lia. rewrite <- seq_app. f_equal. lia. }
  rewrite fold_left_app. cbn [fold_left]. rewrite flips_elsewhere by (rewrite elem_of_seq; lia).
  apply flip_at_slot, flips_elsewhere. rewrite elem_of_seq. lia.
Qed.

(** ** Isolation *)

(** The whole calls: three of them render a frame. *)
Definition renders_frame (op : Op) : bool :=
  match op with OFlip _ | OPresent _ | OSubmit _ _ _ => true | _ => false end.

Definition run_call (bootscreen_render : Fb.Fb → outcome Fb.Fb) (now : Z) (d : Display) (caller : Z) (op : Op)
    : outcome (Display * result unit) :=
  match op with
  | OFlip sid => surface_flip_for bootscreen_render now d caller sid
  | OPresent sid => present_surface_for bootscreen_render now d caller sid
  | OSubmit sid payload row_bytes => gpu_submit_strided_for bootscreen_render now d caller sid payload row_bytes
  | _ => let! r := run (comp d) caller op in Val (set_comp d r.1, r.2)
  end.

Lemma render_frame_slot bootscreen now d d' i :
  render_frame bootscreen now d = Val d' →
  slot (comp d') i = slot (comp d) i ∨ slot (comp d') i = slot (flip_at (comp d) i) i.
Proof.
  unfold render_frame. destruct (negb _); [intros [= <-]; by left|]. intros H.
  assert (slot (comp d') i = slot (flip_pending (comp d)) i) as ->; [|apply flip_pending_slot].
  cbv zeta in H. revert H. generalize (flip_pending (comp d)). intros c1. destruct (negb _).
  - destruct (bootscreen _) as [f|]; [|done]. cbn [obind]. unfold finish_frame.
    destruct (Cursor.draw_software_cursor _ _ _ _) as [f1|]; [|done]. cbn [obind].
    destruct (Fb.swap_buffers f1) as [f2|]; [|done]. by intros [= <-].
  - destruct (compose _ _ _) as [f|]; [|done]. cbn [obind]. unfold finish_frame.
    destruct (Cursor.draw_software_cursor _ _ _ _) as [f1|]; [|done]. cbn [obind].
    destruct (Fb.swap_buffers f1) as [f2|]; [|done]. by intros [= <-].
Qed.

Lemma then_render_slot bootscreen now d c res d' r i :
  then_render bootscreen now d (c, res) = Val (d', r) → slot c i = slot (comp d) i →
  slot (comp d') i = slot (comp d) i ∨ slot (comp d') i = slot (flip_at (comp d) i) i.
Proof.
  intros H Hc. unfold then_render in H. destruct res as [?|e]; [|injection H as <- _; by left].
  destruct (render_frame _ _ _) as [d1|] eqn:Er; [|done]. cbn in H. injection H as <- _.
  destruct (render_frame_slot _ _ _ _ i Er) as [E|E]; cbn [comp set_comp] in E; [left; congruence|].
  right. rewrite E. by apply flip_at_slot.
Qed.

Lemma run_isolated c caller op c' r i :
  caller ≠ 0 → run c caller op = Val (c', r) →
  in_use (surface_at c i) = true → owner_at c i ≠ group_leader caller → slot c' i = slot c i.
Proof.
  intros Hc Hr Hu Ho. destruct (run_touches c caller op c' r Hr) as [[-> _]|(idx & Ht & Hm)]; [done|].
  apply Ht. intros ->. destruct Hm as [Hm|Hm]; [congruence|]. by apply Ho, Hm.
Qed.

(** C15: Owner enforcement.  Whatever call a process makes, with whatever
    arguments, every surface owned by another thread group keeps its fields,
    owner, buffers and flags, but for one thing: the three calls that render a
    frame (flip, present and submit) flip in the back buffer of every surface
    whose owner has submitted one, as each frame does. *)
Theorem surface_isolation bootscreen now d caller op d' r i :
  caller ≠ 0 → run_call bootscreen now d caller op = Val (d', r) →
  in_use (surface_at (comp d) i) = true → owner_at (comp d) i ≠ group_leader caller →
  slot (comp d') i = slot (comp d) i ∨
  renders_frame op = true ∧ pending_at (comp d) i = true ∧
    slot (comp d') i = slot (flip_at (comp d) i) i.
Proof.
  intros Hc Hr Hu Ho.
  assert (∀ c' res, run (comp d) caller op = Val (c', res) → slot c' i = slot (comp d) i) as Hrun
    by (intros c' res H; by eapply run_isolated).
  assert (slot (comp d') i = slot (flip_at (comp d) i) i → slot (comp d') i = slot (comp d) i ∨
    pending_at (comp d) i = true ∧ slot (comp d') i = slot (flip_at (comp d) i) i) as Hflip.
  { intros E. unfold flip_at in E |- *. destruct (pending_at (comp d) i); [by right|by left]. }
  enough (slot (comp d') i = slot (comp d) i ∨
    renders_frame op = true ∧ slot (comp d') i = slot (flip_at (comp d) i) i) as [H|[H1 H2]];
    [by left|destruct (Hflip H2) as [|[]]; [by left|by right]|].
  destruct op; cbn [run_call renders_frame] in *;
    try (destruct (run (comp d) caller _) as [[c1 res]|] eqn:E; [|done]; cbn [obind] in Hr;
         injection Hr as <- _; left; by eapply Hrun).
  - unfold surface_flip_for in Hr. destruct (flip_swap _ _ _) as [c1 res] eqn:E.
    cbn [run] in Hrun. rewrite E in Hrun.
    destruct (then_render_slot _ _ _ _ _ _ _ i Hr (Hrun _ _ eq_refl)); auto.
  - unfold present_surface_for in Hr. destruct (present_mark _ _ _) as [c1 res] eqn:E.
    cbn [run] in Hrun. rewrite E in Hrun.
    destruct (then_render_slot _ _ _ _ _ _ _ i Hr (Hrun _ _ eq_refl)); auto.
  - unfold gpu_submit_strided_for in Hr. cbn [run] in Hrun.
    destruct (submit_write _ _ _ _ _) as [[c1 res]|] eqn:E; [|done]. cbn [obind] in Hr.
    destruct (then_render_slot _ _ _ _ _ _ _ i Hr (Hrun _ _ eq_refl)); auto.
Qed.

(** A pending back buffer becomes the front buffer. *)
Lemma flip_pending_at c i :
  lens c → (i < MAX_SURFACES)%nat →
  surface_at (flip_pending c) i = surface_at c i ∧
  buffer_at (flip_pending c) i = (if pending_at c i then back_at c i else buffer_at c i).
Proof.
  intros Hl Hi. unfold flip_pending.
  replace (seq 0 MAX_SURFACES) with (seq 0 i ++ i :: seq (S i) (MAX_SURFACES - S i)).
  2:{ change (i :: seq (S i) (MAX_SURFACES - S i)) with (seq i (S (MAX_SURFACES - S i))).
      replace i with (0 + i)%nat at 2 by lia. rewrite <- seq_app. f_equal. lia. }
  rewrite fold_left_app. cbn [fold_left].
  set (c1 := fold_left flip_at (seq 0 i) c).
  assert (slot c1 i = slot c i) as Hs1.
  { apply flips_elsewhere. rewrite elem_of_seq. lia. }
  destruct (slot_readers (flip_at c1 i) (fold_left flip_at (seq (S i) (MAX_SURFACES - S i)) (flip_at c1 i)) i)
    as (-> & _ & -> & _).
  { apply flips_elsewhere. rewrite elem_of_seq. lia. }
  destruct (slot_readers c c1 i Hs1) as (E1 & _ & E3 & E4 & _ & E6).
  assert (i < length (buffers c1))%nat as Hlb.
  { unfold slot in Hs1. injection Hs1 as _ _ Hb _ _ _. apply lookup_lt_is_Some. rewrite Hb.
    apply lookup_lt_is_Some. unfold lens in Hl. lia. }
  unfold flip_at. rewrite E6. destruct (pending_at c i).
  - split; [exact E1|]. unfold buffer_at at 1. simpl. by rewrite list_lookup_insert_eq, E4.
  - by rewrite E1, E3.
Qed.
(** The channel order of a submitted pixel survives both conversions: the low
    24 bits of the BGRA word are the panel's 0x00RRGGBB. *)
Lemma xrgb_swap_br p : Fb.xrgb (swap_br p) = Z.land p 0x00FFFFFF.
Proof.
  apply Z.bits_inj'. intros n Hn. unfold Fb.xrgb.
  destruct (Z_lt_le_dec n 24) as [Hlt|Hge].
  - assert (n ∈ zrange 0 23) as Hin by (apply elem_of_zrange; lia). vm_compute in Hin.
    unfold swap_br.
    repeat (apply elem_of_cons in Hin as [->|Hin]; [testbits; reflexivity|]).
    by apply elem_of_nil in Hin.
  - rewrite !Z.lor_spec, !Z.land_spec, !Z.shiftl_spec, !Z.shiftr_spec, !Z.land_spec by lia.
    rewrite (Z.bits_above_log2 0xFF), (Z.bits_above_log2 0xFF00),
      (Z.bits_above_log2 0xFF0000), (Z.bits_above_log2 0xFFFFFF) by (cbn; lia).
    by rewrite !andb_false_r.
Qed.

(** The source stride in pixels. *)
Definition stride_px (s : Surface) (row_bytes : nat) : nat :=
  if (row_bytes =? 0)%nat then Z.to_nat (width s) else (row_bytes / 4)%nat.

Lemma submit_write_ok c caller sid payload row_bytes idx :
  checked c caller sid = Ok idx →
  let s := surface_at c idx in
  (Z.to_nat (width s) ≤ stride_px s row_bytes)%nat →
  (stride_px s row_bytes * 4 * Z.to_nat (height s) ≤ length payload)%nat →
  ∃ b, submit_write c caller sid payload row_bytes =
         Val (set_back_pending (set_back_buffer c idx (Some b)) idx true, Ok tt) ∧
    ∀ x y, (x < Z.to_nat (width s))%nat → (y < Z.to_nat (height s))%nat →
      b !! (y * Z.to_nat (width s) + x)%nat =
      Some (swap_br (word payload (y * stride_px s row_bytes + x)%nat)).
Proof.
  intros Hc s Hw Hl. unfold submit_write. rewrite Hc. fold s. fold (stride_px s row_bytes).
  rewrite (proj2 (Nat.ltb_ge _ _)) by done.
  set (buf := match back_at c idx with Some _ => _ | None => _ end).
  assert (length buf = Z.to_nat (width s) * Z.to_nat (height s))%nat as Hb.
  { unfold buf. destruct (back_at c idx) as [b|]; [|by rewrite length_replicate].
    case_if; [by rewrite length_replicate|]. unbool. done. }
  destruct (copy_bgra_ok payload _ _ _ buf Hw Hl Hb) as (b & -> & _ & Pb). by exists b.
Qed.

#[local] Opaque flip_pending scene render_frame submit_write topmost.

Lemma inside_iff x y w h px py :
  Fb.inside x y w h px py = true ↔ x ≤ Z.of_nat px < x + w ∧ y ≤ Z.of_nat py < y + h.
Proof. unfold Fb.inside. rewrite !andb_true_iff, !Z.leb_le, !Z.ltb_lt. lia. Qed.

(** A submitted frame reaches the panel: an owner's strided submit of a
    payload with full scanlines succeeds, renders, and wherever the surface is
    then topmost (and the pointer is not drawn) the panel shows the payload's
    pixel at that row and column, its red, green and blue bytes in place. *)
Theorem submitted_frame_on_panel bootscreen now d caller sid payload row_bytes idx :
  checked (comp d) caller sid = Ok idx →
  lens (comp d) →
  let s := surface_at (comp d) idx in
  (Z.to_nat (width s) ≤ stride_px s row_bytes)%nat →
  (stride_px s row_bytes * 4 * Z.to_nat (height s) ≤ length payload)%nat →
  ∃ c1, submit_write (comp d) caller sid payload row_bytes = Val (c1, Ok tt) ∧
    (renders (set_comp d c1) →
     ∃ d', gpu_submit_strided_for bootscreen now d caller sid payload row_bytes
           = Val (d', Ok tt) ∧
       ∀ px py, on_screen (fb d) px py → ¬ under_cursor (set_comp d c1) px py →
         topmost (flip_pending c1) px py idx →
         at_px (fb d) (Fb.vram (fb d')) px py =
         Some (Fb.fb_pack (fb d) (Z.land
           (word payload (Z.to_nat (Z.of_nat py - y s) * stride_px s row_bytes
                          + Z.to_nat (Z.of_nat px - x s))%nat) 0x00FFFFFF))).
Proof.
  intros Hc Hlens s Hw Hl.
  destruct (submit_write_ok _ _ _ _ _ _ Hc Hw Hl) as (b & Es & Pb). fold s in Pb.
  eexists. split; [exact Es|]. set (c1 := set_back_pending _ _ _). intros Hr.
  destruct (render_frame_ok bootscreen now (set_comp d c1) Hr) as (d' & Ed & _ & P).
  unfold gpu_submit_strided_for. rewrite Es. cbn [obind then_render]. fold c1. rewrite Ed. simpl.
  exists d'. split; [done|]. intros px py Hon Hnc Htop.
  specialize (P px py Hon Hnc). cbn [fb set_comp comp] in P. rewrite P. rewrite (scene_topmost _ _ _ _ Htop).
  destruct (checked_Ok _ _ _ _ Hc) as (Hlt & _). destruct Htop as (Hidx & Hsh & _).
  assert (lens c1) as Hl1 by (unfold lens in *; simpl; by rewrite !length_insert).
  destruct (flip_pending_at c1 idx Hl1 Hidx) as [Hsf Hbf].
  unfold lens in Hlens.
  assert (buffer_at (flip_pending c1) idx = Some b) as Hbuf.
  { rewrite Hbf. unfold pending_at, back_at. simpl. by rewrite !list_lookup_insert_eq by lia. }
  assert (surface_at (flip_pending c1) idx = s) as Hsurf by exact Hsf.
  unfold shows in Hsh. rewrite Hsurf in Hsh. apply andb_true_iff in Hsh as [_ Hin].
  apply inside_iff in Hin. unfold colour. rewrite Hsurf, Hbuf. cbn [default].
  unfold Fb.image. do 2 f_equal.
  replace (Z.to_nat ((Z.of_nat py - y s) * width s + (Z.of_nat px - x s)))
    with (Z.to_nat (Z.of_nat py - y s) * Z.to_nat (width s) + Z.to_nat (Z.of_nat px - x s))%nat by nia.
  rewrite Pb by lia. cbn [default]. apply xrgb_swap_br.
Qed.

#[local] Transparent flip_pending scene render_frame submit_write topmost.

(** A stride shorter than the surface's row passes the length check, and the
    copy then reads past the end of the payload. *)
Theorem submit_short_stride_overreads c caller sid payload row_bytes idx :
  checked c caller sid = Ok idx →
  row_bytes ≠ 0%nat →
  (row_bytes / 4 < Z.to_nat (width (surface_at c idx)))%nat →
  (0 < Z.to_nat (height (surface_at c idx)))%nat →
  length payload = (row_bytes / 4 * 4 * Z.to_nat (height (surface_at c idx)))%nat →
  submit_write c caller sid payload row_bytes = Panic.
Proof.
  intros Hc Hr Hw Hh Hl. unfold submit_write. rewrite Hc.
  rewrite (proj2 (Nat.eqb_neq row_bytes 0)) by done. rewrite (proj2 (Nat.ltb_ge _ _)) by lia.
  set (w := Z.to_nat (width _)) in *. set (h := Z.to_nat (height _)) in *.
  unfold copy_bgra.
  rewrite (for_range_panic (λ _, True) _ 0 h _ (h - 1)); [done|done|done|lia|].
  intros b _. apply (for_range_panic (λ _, True) _ 0 w _ (row_bytes / 4)); [done|done|lia|].
  intros b' _. unfold read_word. by rewrite (proj2 (Nat.leb_gt _ _)) by nia.
Qed.

(** Growing a single-buffered surface does not grow its buffer: an upload of
    the new size is accepted and then indexes past the end of the old buffer. *)
Theorem upload_after_grow_panics c caller sid payload idx buf :
  checked c caller sid = Ok idx →
  back_at c idx = None → buffer_at c idx = Some buf →
  (length buf < pixels_of (surface_at c idx))%nat →
  length payload = (pixels_of (surface_at c idx) * 4)%nat →
  upload_surface_rgba32_for c caller sid payload = Panic.
Proof.
  intros Hc Hk Hb Hlt Hl. unfold upload_surface_rgba32_for. rewrite Hc, Hk, Hb, Hl, Nat.eqb_refl.
  cbn [negb default]. unfold copy_rgba.
  rewrite (for_range_panic (λ t, length t = length buf) _ 0 _ buf (length buf)); [done|done| |lia|].
  - intros j t t' Ht. destruct (rgba_at payload j); [|done]. simpl. unfold store.
    case_if; [|done]. intros [= <-]. by rewrite length_insert.
  - intros t Ht. destruct (rgba_at payload (length buf)); [|done]. simpl. unfold store.
    by rewrite Ht, Nat.ltb_irrefl.
Qed.

End pixels.

(** ** Deciding the hypotheses on a concrete table *)

Definition drawableb (c : CompositorState) : bool :=
  forallb (λ i, let s := surface_at c i in
    negb (in_use s && presented_at c i) ||
    ((- 2 ^ 31 <=? x s) && (x s <? 2 ^ 31) && (- 2 ^ 31 <=? y s) && (y s <? 2 ^ 31) &&
     (0 <=? width s) && (width s <? 2 ^ 31) && (0 <=? height s) && (height s <? 2 ^ 31) &&
     match buffer_at c i with
     | Some buf => width s * height s <=? Z.of_nat (length buf)
     | None => false
     end)) (seq 0 MAX_SURFACES).

Definition topmostb (c : CompositorState) (px py i : nat) : bool :=
  (i <? MAX_SURFACES)%nat && shows c px py i &&
  forallb (λ j, negb (shows c px py j) || (j =? i)%nat || (z_at c j <? z_at c i) ||
                ((z_at c j =? z_at c i) && (j <? i)%nat)) (seq 0 MAX_SURFACES).

Definition edges_okb (c : CompositorState) : bool :=
  forallb (λ i, let s := surface_at c i in
    negb (in_use s) ||
    ((0 <=? width s) && (width s <? 2 ^ 31) && (0 <=? height s) && (height s <? 2 ^ 31) &&
     (- 2 ^ 31 <=? x s + width s) && (x s + width s <? 2 ^ 31) &&
     (- 2 ^ 31 <=? y s + height s) && (y s + height s <? 2 ^ 31))) (seq 0 MAX_SURFACES).

Lemma forallb_slots (p : nat → bool) :
  forallb p (seq 0 MAX_SURFACES) = true → ∀ i, (i < MAX_SURFACES)%nat → p i = true.
Proof.
  rewrite forallb_forall. intros H i Hi. apply H, in_seq. lia.
Qed.

Lemma drawableb_ok c : drawableb c = true → drawable c.
Proof.
  intros H i Hi Hu Hp. apply (forallb_slots _ H) in Hi. cbn beta zeta in Hi.
  rewrite Hu, Hp in Hi. cbn [andb negb orb] in Hi. unbool.
  destruct (buffer_at c i) as [buf|]; [|done]. unbool. do 4 (split; [lia|]). exists buf.
  split; [done|lia].
Qed.

Lemma topmostb_ok c px py i : topmostb c px py i = true → topmost c px py i.
Proof.
  unfold topmostb. intros H. apply andb_true_iff in H as [H Hall].
  apply andb_true_iff in H as [Hi Hs]. apply Nat.ltb_lt in Hi. split; [done|]. split; [done|].
  intros j Hj Hsj. apply (forallb_slots _ Hall) in Hj. rewrite Hsj in Hj. cbn [negb orb] in Hj.
  rewrite !orb_true_iff, andb_true_iff, Nat.eqb_eq, Z.ltb_lt, Z.eqb_eq, Nat.ltb_lt in Hj.
  unfold below. tauto.
Qed.

Lemma edges_okb_ok c : edges_okb c = true → edges_ok c.
Proof.
  intros H i Hi Hu. apply (forallb_slots _ H) in Hi. cbn beta zeta in Hi.
  rewrite Hu in Hi. cbn [negb orb] in Hi. unbool. cbn zeta. lia.
Qed.

(** ** Witnesses

    Process 7 has two presented 2 by 2 surfaces in the upper left corner of a
    24 by 24 screen, away from the pointer. *)

#[local] Existing Instance Wm.solo_groups.

Definition demo1 (z2 : Z) : CompositorState :=
  let c1 := (create_surface_for CompositorState_new 7 2 2).1 in
  let c2 := (move_surface_for c1 7 1 0 0 0).1 in
  let c3 := (create_surface_for c2 7 2 2).1 in
  let c4 := (move_surface_for c3 7 2 0 0 z2).1 in
  let c5 := (present_mark c4 7 1).1 in
  (present_mark c5 7 2).1.

Definition demo_display (c : CompositorState) : Display :=
  mkDisplay c Cursor.small_fb Wm.Wm_init false false 0 [] false.

Lemma demo_renders c :
  drawableb (flip_pending c) = true → has_visible_content (flip_pending c) = true →
  renders (demo_display c).
Proof.
  intros Hd Hv. split; cbn [fb demo_display comp FB_BYPASS].
  - exact Cursor.small_fb_wf.
  - reflexivity.
  - simpl. lia.
  - simpl. lia.
  - reflexivity.
  - reflexivity.
  - exact (drawableb_ok _ Hd).
  - exact Hv.
Qed.

Lemma demo_not_under c : ¬ under_cursor (demo_display c) 1 1.
Proof. intros [H _]. vm_compute in H. by apply H. Qed.

Lemma frame_shows_topmost_witness :
  let d := demo_display (demo1 0) in
  ∃ d', render_frame Val 0 d = Val d' ∧
    at_px (fb d) (Fb.vram (fb d')) 1 1 =
    Some (Fb.fb_pack (fb d) (colour (flip_pending (comp d)) 1 1 1)).
Proof.
  intros d.
  assert (renders d) as Hr by (apply demo_renders; vm_compute; reflexivity).
  assert (topmost (flip_pending (comp d)) 1 1 1) as Ht
    by (apply topmostb_ok; vm_compute; reflexivity).
  assert (on_screen (fb d) 1 1) as Hon by (split; simpl; lia).
  pose proof (demo_not_under (demo1 0)) as Hn. fold d in Hn. clearbody d.
  destruct (frame_shows_topmost Val 0 d Hr) as (d' & E & _ & P).
  exists d'. split; [exact E|]. apply (proj1 (P 1%nat 1%nat Hon Hn) 1%nat Ht).
Defined.

Lemma all_slots (P : nat → Prop) (p : nat → bool) :
  (∀ i, p i = true → P i) → forallb p (seq 0 MAX_SURFACES) = true →
  ∀ i, (i < MAX_SURFACES)%nat → P i.
Proof. intros Hp H i Hi. by apply Hp, forallb_slots. Qed.

Lemma hit_test_matches_witness :
  let c := demo1 5 in
  surface_at_point c (Z.of_nat 1) (Z.of_nat 1) = Some (id (surface_at c 1), owner_at c 1).
Proof.
  intros c.
  assert (edges_okb c = true) as He by (vm_compute; reflexivity).
  assert (topmostb c 1 1 1 = true) as Ht by (vm_compute; reflexivity).
  assert (i32_MIN < z_at c 1) as Hz by (vm_compute; reflexivity).
  assert (forallb (λ k, negb (hit (surface_at c k) (Z.of_nat 1) (Z.of_nat 1)) ||
    (shows c 1 1 k && (negb (z_at c k =? z_at c 1) || (k =? 1)%nat))) (seq 0 MAX_SURFACES) = true)
    as Hall by (vm_compute; reflexivity).
  clearbody c.
  apply (hit_test_matches_frame c 1 1 1 (edges_okb_ok c He) (topmostb_ok c 1 1 1 Ht) Hz).
  intros k Hk Hh. apply (forallb_slots _ Hall) in Hk. rewrite Hh in Hk. simpl in Hk.
  apply andb_true_iff in Hk as [Hs Hk]. split; [exact Hs|]. intros Hzk.
  rewrite Hzk, Z.eqb_refl in Hk. by apply Nat.eqb_eq.
Defined.

Lemma hit_test_tie_witness :
  let c := demo1 0 in
  ∃ k, (k ≤ 0)%nat ∧
    surface_at_point c (Z.of_nat 1) (Z.of_nat 1) = Some (id (surface_at c k), owner_at c k) ∧
    ¬ topmost c 1 1 k.
Proof.
  intros c.
  assert (edges_okb c = true) as He by (vm_compute; reflexivity).
  assert (topmostb c 1 1 1 = true) as Ht by (vm_compute; reflexivity).
  assert (i32_MIN < z_at c 1) as Hm by (vm_compute; reflexivity).
  assert (hit (surface_at c 0) (Z.of_nat 1) (Z.of_nat 1) = true) as Hh by (vm_compute; reflexivity).
  assert (z_at c 0 = z_at c 1) as Hz by (vm_compute; reflexivity).
  assert (forallb (λ k, negb (hit (surface_at c k) (Z.of_nat 1) (Z.of_nat 1)) ||
    (z_at c k <=? z_at c 1)) (seq 0 MAX_SURFACES) = true) as Hall by (vm_compute; reflexivity).
  clearbody c.
  apply (hit_test_tie_goes_under c 1 1 0 1 (edges_okb_ok c He) (topmostb_ok c 1 1 1 Ht)
    (Nat.lt_0_succ 0) Hh Hz Hm).
  intros k Hk Hhk. apply (forallb_slots _ Hall) in Hk. rewrite Hhk in Hk. by apply Z.leb_le.
Defined.

(** Another process presents a surface it does not own: it is refused. *)
Lemma surface_isolation_witness :
  let d := demo_display (demo1 0) in
  let d' := match run_call Val 0 d 9 (OPresent 1) with Val r => r.1 | Panic => d end in
  slot (comp d') 0 = slot (comp d) 0.
Proof.
  intros d d'.
  assert (run_call Val 0 d 9 (OPresent 1) = Val (d', Err "permission denied")) as Hr by (vm_compute; reflexivity).
  assert (in_use (surface_at (comp d) 0) = true) as Hu by (vm_compute; reflexivity).
  assert (owner_at (comp d) 0 ≠ group_leader 9) as Ho by (vm_compute; discriminate).
  assert (pending_at (comp d) 0 = false) as Hp by (vm_compute; reflexivity).
  clearbody d d'. destruct (surface_isolation Val 0 d 9 (OPresent 1) d' _ 0 ltac:(lia) Hr Hu Ho) as [H|(_ & H & _)];
    [exact H|congruence].
Defined.

Lemma demo_reachable : rtc step CompositorState_new (demo1 0).
Proof.
  unfold demo1.
  set (c1 := (create_surface_for CompositorState_new 7 2 2).1).
  set (c2 := (move_surface_for c1 7 1 0 0 0).1).
  set (c3 := (create_surface_for c2 7 2 2).1).
  set (c4 := (move_surface_for c3 7 2 0 0 0).1).
  assert (step CompositorState_new c1) as S1 by (apply (step_run _ 7 (OCreate 2 2) _ (Ok tt)); vm_compute; reflexivity).
  assert (step c1 c2) as S2 by (apply (step_run _ 7 (OMove 1 0 0 0) _ (Ok tt)); vm_compute; reflexivity).
  assert (step c2 c3) as S3 by (apply (step_run _ 7 (OCreate 2 2) _ (Ok tt)); vm_compute; reflexivity).
  assert (step c3 c4) as S4 by (apply (step_run _ 7 (OMove 2 0 0 0) _ (Ok tt)); vm_compute; reflexivity).
  set (c5 := (present_mark c4 7 1).1).
  assert (step c4 c5) as S5 by (apply (step_run _ 7 (OPresent 1) _ (Ok tt)); vm_compute; reflexivity).
  set (c6 := (present_mark c5 7 2).1).
  assert (step c5 c6) as S6 by (apply (step_run _ 7 (OPresent 2) _ (Ok tt)); vm_compute; reflexivity).
  clearbody c6 c5 c4 c3 c2 c1. eauto 8 using rtc_l, rtc_refl.
Qed.

Lemma surface_table_witness : (surface_count_for (demo1 0) 7 ≤ MAX_SURFACES_PER_PID)%nat.
Proof.
  assert (group_leader 7 ≠ 0) as H1 by discriminate.
  assert (7 ≠ 0) as H2 by discriminate.
  exact (proj1 (surface_table_invariant (demo1 0) demo_reachable) 7 H1 H2).
Defined.

(** A tight 2 by 2 BGRA payload submitted to the upper surface. *)
Definition demo_payload : bytes := Z.of_nat <$> seq 1 16.

(** The table an operation leaves, [c] when it panics. *)
Definition table_of (c : CompositorState) (o : outcome (CompositorState * result unit))
    : CompositorState :=
  match o with Val (c', _) => c' | Panic => c end.

Definition demo_submitted : CompositorState :=
  table_of (demo1 0) (submit_write (demo1 0) 7 2 demo_payload 0).

Lemma submitted_frame_witness :
  let d := demo_display (demo1 0) in
  ∃ d', gpu_submit_strided_for Val 0 d 7 2 demo_payload 0 = Val (d', Ok tt) ∧
    at_px (fb d) (Fb.vram (fb d')) 1 1 =
    Some (Fb.fb_pack (fb d) (Z.land (word demo_payload 3) 0x00FFFFFF)).
Proof.
  intros d.
  assert (checked (comp d) 7 2 = Ok 1%nat) as Hc by (vm_compute; reflexivity).
  assert (lens (comp d)) as Hl by (vm_compute; repeat split).
  assert (width (surface_at (comp d) 1) = 2 ∧ height (surface_at (comp d) 1) = 2 ∧
          x (surface_at (comp d) 1) = 0 ∧ y (surface_at (comp d) 1) = 0) as (Hw & Hh & Hx & Hy)
    by (vm_compute; repeat split).
  assert (renders (set_comp d demo_submitted)) as Hr.
  { apply (demo_renders demo_submitted); vm_compute; reflexivity. }
  assert (topmost (flip_pending demo_submitted) 1 1 1) as Ht
    by (apply topmostb_ok; vm_compute; reflexivity).
  assert (on_screen (fb d) 1 1) as Hon by (split; simpl; lia).
  assert (table_of (demo1 0) (submit_write (comp d) 7 2 demo_payload 0) = demo_submitted) as Hs
    by (vm_compute; reflexivity).
  pose proof (demo_not_under demo_submitted) as Hn.
  change (demo_display demo_submitted) with (set_comp d demo_submitted) in Hn.
  clearbody d. revert Hs Hr Ht Hn. generalize demo_submitted. intros c1 Hs Hr Ht Hn.
  destruct (submitted_frame_on_panel Val 0 d 7 2 demo_payload 0 1 Hc Hl) as (c & E & H).
  - reflexivity.
  - unfold stride_px. rewrite Hw, Hh. simpl. lia.
  - rewrite E in Hs. simpl in Hs. subst c. destruct (H Hr) as (d' & Ed & P).
    exists d'. split; [exact Ed|]. rewrite (P 1%nat 1%nat Hon Hn Ht).
    unfold stride_px. rewrite Hw, Hx, Hy. reflexivity.
Defined.

Lemma submit_short_stride_witness :
  submit_write (demo1 0) 7 2 (replicate 8 0) 4 = Panic.
Proof.
  assert (width (surface_at (demo1 0) 1) = 2 ∧ height (surface_at (demo1 0) 1) = 2) as (Hw & Hh)
    by (vm_compute; split; reflexivity).
  assert (checked (demo1 0) 7 2 = Ok 1%nat) as Hc by (vm_compute; reflexivity).
  revert Hw Hh Hc. generalize (demo1 0). intros c Hw Hh Hc.
  apply (submit_short_stride_overreads c 7 2 (replicate 8 0) 4 1 Hc);
    rewrite ?Hw, ?Hh; simpl; lia.
Defined.

(** The upper surface grown to 3 by 3. *)
Definition demo_grown : CompositorState := (surface_geometry_set_for (demo1 0) 7 2 0 0 3 3).1.

Lemma upload_after_grow_witness :
  upload_surface_rgba32_for demo_grown 7 2 (replicate 36 0) = Panic.
Proof.
  assert (checked demo_grown 7 2 = Ok 1%nat) as Hc by (vm_compute; reflexivity).
  assert (back_at demo_grown 1 = None) as Hk by (vm_compute; reflexivity).
  assert (buffer_at demo_grown 1 = Some (replicate 4 0)) as Hb by (vm_compute; reflexivity).
  assert (pixels_of (surface_at demo_grown 1) = 9%nat) as Hp by (vm_compute; reflexivity).
  revert Hc Hk Hb Hp. generalize demo_grown. intros c Hc Hk Hb Hp.
  apply (upload_after_grow_panics c 7 2 (replicate 36 0) 1 (replicate 4 0) Hc Hk Hb);
    rewrite Hp, ?length_replicate; simpl; lia.
Defined.

(** The compositor's side of the window manager's hit-test interface. *)
Definition compositor_hit_test (d : Display) : HitTest :=
  Build_HitTest (surface_at_point (comp d)) (FB_BYPASS d).

End Compositor.
