(* ===== verification/FrameAlloc.v ===== *)
(** * Physical frame allocator ([kernel/src/mm/frame_allocator.rs], [mm/mod.rs])

    The bitmap of 2^20 frames as 16384 words of 64 bits, a set bit meaning a
    free frame, with the word scan of [alloc], the run scan of
    [alloc_contiguous], [free], [reserve_range] and the boot initialisation
    from a region list.  Frame numbers and addresses are integers, word indices
    naturals.

    The functional lemmas say what each operation does to the set of free
    frames; [step] adds the ledger of frames handed out, and the invariant of
    the reachable states gives exclusive ownership and the accounting of
    [used] and [total]. *)

From Stdlib Require Import ZArith Lia.
From stdpp Require Import base numbers strings option list.
From S2P Require Import Prelude.
Open Scope Z_scope.

Module FrameAlloc.

Definition FRAME_SIZE : Z := 4096.
Definition MAX_FRAMES : Z := Z.shiftl 1 20.
Definition MIN_ALLOC_PHYS : Z := 0x100000.
Definition MIN_ALLOC_FRAME : Z := MIN_ALLOC_PHYS / FRAME_SIZE.

Record FrameBitmap := mkBitmap { bits : list Z; total : Z; used : Z; hhdm : Z }.

Definition FrameBitmap_new : FrameBitmap :=
  mkBitmap (replicate (Z.to_nat (MAX_FRAMES / 64)) 0) 0 0 0.

(** [frame / 64], [1 << (frame % 64)] and the test of a frame's bit. *)
Definition idx (frame : Z) : nat := Z.to_nat (frame / 64).
Definition mask (frame : Z) : Z := Z.shiftl 1 (frame mod 64).
Definition is_free (ws : list Z) (frame : Z) : bool :=
  negb (Z.land (ws !!! idx frame) (mask frame) =? 0).
Definition set_bit (ws : list Z) (frame : Z) : list Z :=
  alter (λ w, Z.lor w (mask frame)) (idx frame) ws.
Definition clear_bit (ws : list Z) (frame : Z) : list Z :=
  alter (λ w, Z.land w (Z.lnot (mask frame))) (idx frame) ws.

Definition mark_free (bm : FrameBitmap) (frame : Z) : FrameBitmap :=
  mkBitmap (set_bit (bits bm) frame) (total bm + 1) (used bm) (hhdm bm).

Definition mark_used (bm : FrameBitmap) (frame : Z) : FrameBitmap :=
  mkBitmap (clear_bit (bits bm) frame) (total bm) (used bm + 1) (hhdm bm).

(** [u64::trailing_zeros]. *)
Definition trailing_zeros (w : Z) : Z :=
  default 64 (Z.of_nat <$> position (λ k, Z.testbit w (Z.of_nat k)) (seq 0 64)).

(** The word loop of [alloc], from word [i] on. *)
Fixpoint alloc_scan (i : Z) (ws : list Z) (u : Z) : list Z * Z * option Z :=
  match ws with
  | [] => ([], u, None)
  | w :: ws' =>
      if w =? 0 then let '(r, u', o) := alloc_scan (i + 1) ws' u in (w :: r, u', o)
      else
        let bit := trailing_zeros w in
        let w' := Z.land w (Z.lnot (Z.shiftl 1 bit)) in
        let frame := i * 64 + bit in
        if frame <? MIN_ALLOC_FRAME
        then let '(r, u', o) := alloc_scan (i + 1) ws' (u + 1) in (w' :: r, u', o)
        else (w' :: ws', u + 1, Some (frame * FRAME_SIZE))
  end.

Definition alloc (bm : FrameBitmap) : FrameBitmap * option Z :=
  let skip := Z.to_nat (MIN_ALLOC_FRAME / 64) in
  let '(ws, u, o) := alloc_scan (MIN_ALLOC_FRAME / 64) (drop skip (bits bm)) (used bm) in
  (mkBitmap (take skip (bits bm) ++ ws) (total bm) u (hhdm bm), o).

(** The frame loop of [alloc_contiguous]: the start of the first run. *)
Fixpoint contig_scan (fuel : nat) (ws : list Z) (frame run_start run_len count : Z) : option Z :=
  match fuel with
  | O => None
  | S fuel' =>
      if is_free ws frame then
        let run_start' := if run_len =? 0 then frame else run_start in
        let run_len' := run_len + 1 in
        if run_len' =? count then Some run_start'
        else contig_scan fuel' ws (frame + 1) run_start' run_len' count
      else contig_scan fuel' ws (frame + 1) run_start 0 count
  end.

Definition clear_range (ws : list Z) (start count : Z) : list Z :=
  foldl clear_bit ws (seqZ start count).

Definition alloc_contiguous (bm : FrameBitmap) (count : Z) : FrameBitmap * option Z :=
  if count =? 0 then (bm, None)
  else
    match contig_scan (Z.to_nat (MAX_FRAMES - MIN_ALLOC_FRAME)) (bits bm) MIN_ALLOC_FRAME 0 0 count with
    | Some run_start =>
        (mkBitmap (clear_range (bits bm) run_start count) (total bm) (used bm + count) (hhdm bm),
         Some (run_start * FRAME_SIZE))
    | None => (bm, None)
    end.

Definition free (bm : FrameBitmap) (phys : Z) : FrameBitmap :=
  let frame := phys / FRAME_SIZE in
  if frame <? MAX_FRAMES then
    if negb (is_free (bits bm) frame)
    then mkBitmap (set_bit (bits bm) frame) (total bm) (sat_sub (used bm) 1) (hhdm bm)
    else bm
  else bm.

(** ** Boot *)

Record BootMemRegion := mkRegion { base : Z; len : Z }.
Definition MAX_BOOT_REGIONS : nat := 128.

(** [BootMemMap]: the pushed regions, [regions()] of the fixed array. *)
Definition BootMemMap : Type := list BootMemRegion.
Definition map_push (map : BootMemMap) (b l : Z) : BootMemMap :=
  if (l =? 0) || (MAX_BOOT_REGIONS <=? length map)%nat then map else map ++ [mkRegion b l].

(** The frames the loop over one region visits. *)
Definition region_frames (r : BootMemRegion) : list Z :=
  let start_frame := base r / FRAME_SIZE in
  let end_frame := u64 (base r + len r) / FRAME_SIZE in
  let lo := Z.max start_frame MIN_ALLOC_FRAME in
  seqZ lo (Z.min end_frame MAX_FRAMES - lo).

Definition init_from_regions (bm : FrameBitmap) (map : BootMemMap) (hhdm_offset : Z) : FrameBitmap :=
  foldl (λ b r, foldl mark_free b (region_frames r))
        (mkBitmap (bits bm) (total bm) (used bm) hhdm_offset) map.

Definition reserve_one (bm : FrameBitmap) (frame : Z) : FrameBitmap :=
  if is_free (bits bm) frame
  then mkBitmap (clear_bit (bits bm) frame) (total bm) (used bm + 1) (hhdm bm)
  else bm.

Definition range_frames (b l : Z) : list Z :=
  let start_frame := b / FRAME_SIZE in
  let end_frame := Z.min (u64 (b + l + FRAME_SIZE - 1) / FRAME_SIZE) MAX_FRAMES in
  seqZ start_frame (end_frame - start_frame).

Definition reserve_range (bm : FrameBitmap) (b l : Z) : FrameBitmap :=
  if l =? 0 then bm else foldl reserve_one bm (range_frames b l).

(** ** Well-formedness and the set of free frames *)

Record wf (ws : list Z) : Prop := {
  wf_len : length ws = Z.to_nat (MAX_FRAMES / 64);
  wf_word : Forall (is_u 64) ws
}.

Definition frame_ok (f : Z) : Prop := 0 ≤ f < MAX_FRAMES.
Definition all_frames : list Z := seqZ 0 MAX_FRAMES.
Definition count_free (ws : list Z) : Z := Z.of_nat (countb (is_free ws) all_frames).

(** Frames [s .. s+n) are all free. *)
Definition run_free (ws : list Z) (s n : Z) : Prop := ∀ f, s ≤ f < s + n → is_free ws f = true.


(** ** The ledger: frames handed out and frames reserved *)

Record Ledger := mkLedger { bm : FrameBitmap; live : list Z; reserved : list Z }.

Definition boot_frames (map : BootMemMap) : list Z := mjoin (region_frames <$> map).

(** One call.  Callers free only what they own: the frame leaves [live]. *)
Inductive step : Ledger → Ledger → Prop :=
| step_alloc s b p :
    alloc (bm s) = (b, Some p) → step s (mkLedger b (p / FRAME_SIZE :: live s) (reserved s))
| step_alloc_fail s b :
    alloc (bm s) = (b, None) → step s (mkLedger b (live s) (reserved s))
| step_contig s b count p :
    0 < count → alloc_contiguous (bm s) count = (b, Some p) →
    step s (mkLedger b (seqZ (p / FRAME_SIZE) count ++ live s) (reserved s))
| step_contig_fail s b count :
    0 ≤ count → alloc_contiguous (bm s) count = (b, None) → step s (mkLedger b (live s) (reserved s))
| step_free s p live' :
    live s ≡ₚ (p / FRAME_SIZE) :: live' → step s (mkLedger (free (bm s) p) live' (reserved s))
| step_reserve s b l :
    0 ≤ b → step s (mkLedger (reserve_range (bm s) b l) (live s)
      (reserved s ++ if l =? 0 then [] else List.filter (is_free (bits (bm s))) (range_frames b l))).

Inductive reachable (map : BootMemMap) (hhdm_offset : Z) : Ledger → Prop :=
| reach_boot : reachable map hhdm_offset
    (mkLedger (init_from_regions FrameBitmap_new map hhdm_offset) [] [])
| reach_step s s' : reachable map hhdm_offset s → step s s' → reachable map hhdm_offset s'.

Record inv (map : BootMemMap) (s : Ledger) : Prop := {
  inv_wf : wf (bits (bm s));
  inv_nodup : NoDup (live s ++ reserved s);
  inv_taken f : f ∈ live s ++ reserved s → is_free (bits (bm s)) f = false ∧ f ∈ boot_frames map;
  inv_ram f : frame_ok f → is_free (bits (bm s)) f = true → f ∈ boot_frames map;
  inv_used : used (bm s) = Z.of_nat (length (live s ++ reserved s));
  inv_total : count_free (bits (bm s)) + used (bm s) = total (bm s);
  inv_boot : total (bm s) = Z.of_nat (length (boot_frames map))
}.

(** ** Bits *)

Lemma max_frames_val : MAX_FRAMES = 1048576.
Proof. reflexivity. Qed.
Lemma min_frame_val : MIN_ALLOC_FRAME = 256.
Proof. reflexivity. Qed.

Lemma idx_lt ws f : wf ws → frame_ok f → (idx f < length ws)%nat.
Proof.
  intros [Hl _] Hf. rewrite Hl. unfold idx, frame_ok in *. rewrite max_frames_val in *.
  apply Z2Nat.inj_lt; [apply Z.div_pos; lia..|].
  change (1048576 / 64) with 16384. apply Z.div_lt_upper_bound; lia.
Qed.

Lemma frame_split f : f = 64 * (f / 64) + f mod 64 ∧ 0 ≤ f mod 64 < 64.
Proof. split; [apply Z.div_mod; lia|apply Z.mod_pos_bound; lia]. Qed.

Lemma mask_testbit f k : 0 ≤ k → Z.testbit (mask f) k = (k =? f mod 64).
Proof.
  intros Hk. unfold mask. pose proof (frame_split f) as [_ ?].
  rewrite Z.shiftl_spec by lia. destruct (Z.eqb_spec k (f mod 64)) as [->|Hne].
  - by rewrite Z.sub_diag.
  - destruct (Z.ltb_spec k (f mod 64)); [by rewrite Z.testbit_neg_r by lia|].
    rewrite Z.testbit_odd. assert (1 = 2 ^ 0) as -> by done.
    rewrite Z.shiftr_div_pow2, Z.div_small; [done| |lia].
    split; [lia|]. apply Z.pow_lt_mono_r; lia.
Qed.

Lemma is_free_testbit ws f : is_free ws f = Z.testbit (ws !!! idx f) (f mod 64).
Proof.
  unfold is_free. pose proof (frame_split f) as [_ ?].
  destruct (Z.testbit (ws !!! idx f) (f mod 64)) eqn:E.
  - apply negb_true_iff, Z.eqb_neq. intros H0.
    assert (Z.testbit (Z.land (ws !!! idx f) (mask f)) (f mod 64) = true) as H1.
    { rewrite Z.land_spec, E, mask_testbit by lia. simpl. apply Z.eqb_refl. }
    by rewrite H0, Z.testbit_0_l in H1.
  - apply negb_false_iff, Z.eqb_eq, Z.bits_inj'. intros k Hk.
    rewrite Z.land_spec, mask_testbit, Z.testbit_0_l by done.
    destruct (Z.eqb_spec k (f mod 64)) as [->|]; [by rewrite E|apply andb_false_r].
Qed.

(** What rewriting one frame's word does to every other frame. *)
Lemma is_free_alter ws g f h :
  wf ws → frame_ok f → frame_ok h →
  (∀ w k, 0 ≤ k → Z.testbit (g w) k = if k =? f mod 64 then Z.testbit (g w) k else Z.testbit w k) →
  is_free (alter g (idx f) ws) h =
    if h =? f then Z.testbit (g (ws !!! idx f)) (f mod 64) else is_free ws h.
Proof.
  intros Hw Hf Hh Hg. rewrite !is_free_testbit.
  pose proof (frame_split f) as [Ef ?]. pose proof (frame_split h) as [Eh ?].
  pose proof (idx_lt ws f Hw Hf) as Hi.
  destruct (lookup_lt_is_Some_2 ws (idx f) Hi) as [w Hwd].
  rewrite (list_alter_insert _ _ _ w Hwd). rewrite (list_lookup_total_correct _ _ _ Hwd).
  destruct (decide (f / 64 = h / 64)) as [E|E].
  - assert (idx h = idx f) as -> by (unfold idx; by rewrite E).
    rewrite list_lookup_total_insert_eq by done. rewrite (list_lookup_total_correct _ _ _ Hwd).
    rewrite Hg by lia. destruct (Z.eqb_spec (h mod 64) (f mod 64)) as [Em|Em].
    + assert (h = f) as -> by lia. by rewrite Z.eqb_refl.
    + by destruct (Z.eqb_spec h f); [congruence|].
  - assert (idx h ≠ idx f) as Hne.
    { unfold idx, frame_ok in *. intros H1. apply Z2Nat.inj in H1; [lia| |];
        apply Z.div_pos; lia. }
    rewrite list_lookup_total_insert_ne by done.
    destruct (Z.eqb_spec h f); [congruence|done].
Qed.

Lemma is_free_set ws f h :
  wf ws → frame_ok f → frame_ok h → is_free (set_bit ws f) h = (h =? f) || is_free ws h.
Proof.
  intros Hw Hf Hh. unfold set_bit. rewrite is_free_alter; try done.
  2: { intros w k Hk. rewrite Z.lor_spec, mask_testbit by done.
       destruct (k =? f mod 64); [done|apply orb_false_r]. }
  destruct (Z.eqb_spec h f) as [->|]; [|done]. pose proof (frame_split f) as [_ ?].
  rewrite Z.lor_spec, mask_testbit, Z.eqb_refl by lia. apply orb_true_r.
Qed.

Lemma is_free_clear ws f h :
  wf ws → frame_ok f → frame_ok h → is_free (clear_bit ws f) h = negb (h =? f) && is_free ws h.
Proof.
  intros Hw Hf Hh. unfold clear_bit. rewrite is_free_alter; try done.
  2: { intros w k Hk. rewrite Z.land_spec, Z.lnot_spec, mask_testbit by done.
       destruct (k =? f mod 64); [done|apply andb_true_r]. }
  destruct (Z.eqb_spec h f) as [->|]; [|done]. pose proof (frame_split f) as [_ ?].
  rewrite Z.land_spec, Z.lnot_spec, mask_testbit, Z.eqb_refl by lia. apply andb_false_r.
Qed.

Lemma is_u64_bits w : 0 ≤ w → (∀ k, 64 ≤ k → Z.testbit w k = false) → is_u 64 w.
Proof.
  intros H0 Hb. split; [done|]. destruct (Z.eq_dec w 0) as [->|Hn]; [lia|].
  apply Z.log2_lt_pow2; [lia|]. apply Z.nle_gt. intros Hge.
  specialize (Hb (Z.log2 w) Hge). rewrite Z.bit_log2 in Hb by lia. done.
Qed.

Lemma is_u64_high w k : is_u 64 w → 64 ≤ k → Z.testbit w k = false.
Proof.
  intros [H0 H1] Hk. destruct (Z.eq_dec w 0) as [->|Hn]; [apply Z.testbit_0_l|].
  apply Z.bits_above_log2; [done|]. apply Z.log2_lt_pow2; [lia|].
  eapply Z.lt_le_trans; [exact H1|]. apply Z.pow_le_mono_r; lia.
Qed.

Lemma is_u64_clear w m : is_u 64 w → is_u 64 (Z.land w (Z.lnot m)).
Proof.
  intros Hw. apply is_u64_bits; [apply Z.land_nonneg; left; apply Hw|].
  intros k Hk. by rewrite Z.land_spec, (is_u64_high w k).
Qed.

Lemma is_u64_set w f : is_u 64 w → is_u 64 (Z.lor w (mask f)).
Proof.
  intros Hw. apply is_u64_bits.
  - apply Z.lor_nonneg. split; [apply Hw|]. unfold mask. apply Z.shiftl_nonneg. lia.
  - intros k Hk. pose proof (frame_split f) as [_ ?].
    rewrite Z.lor_spec, (is_u64_high w k), mask_testbit by (done || lia).
    apply Z.eqb_neq. lia.
Qed.

Lemma wf_alter ws g i : wf ws → (∀ w, is_u 64 w → is_u 64 (g w)) → wf (alter g i ws).
Proof.
  intros [Hl Hw] Hg. split; [by rewrite length_alter|]. apply Forall_alter; eauto.
Qed.

Lemma wf_set ws f : wf ws → wf (set_bit ws f).
Proof. intros. apply wf_alter; [done|]. intros. by apply is_u64_set. Qed.
Lemma wf_clear ws f : wf ws → wf (clear_bit ws f).
Proof. intros. apply wf_alter; [done|]. intros. by apply is_u64_clear. Qed.
#[local] Hint Resolve wf_set wf_clear : osc.

(** ** [alloc]: the lowest free frame *)

Lemma trailing_zeros_spec w :
  is_u 64 w → w ≠ 0 →
  0 ≤ trailing_zeros w < 64 ∧ Z.testbit w (trailing_zeros w) = true ∧
  ∀ c, 0 ≤ c < trailing_zeros w → Z.testbit w c = false.
Proof.
  intros Hw Hn. unfold trailing_zeros.
  destruct (position _ (seq 0 64)) as [i|] eqn:E; simpl.
  - apply position_Some in E as [(k & Hk & Ht) Hlt].
    apply lookup_seq in Hk as [-> Hi]. simpl in Ht. split; [lia|]. split; [done|].
    intros c Hc. specialize (Hlt (Z.to_nat c) (Z.to_nat c)). rewrite Z2Nat.id in Hlt by lia.
    apply Hlt; [lia|]. apply lookup_seq. lia.
  - apply position_None in E. exfalso. apply Hn, Z.bits_inj'. intros k Hk.
    rewrite Z.testbit_0_l. destruct (Z.ltb_spec k 64); [|by apply is_u64_high].
    rewrite Forall_forall in E. specialize (E (Z.to_nat k)). rewrite Z2Nat.id in E by lia.
    apply E, elem_of_seq. lia.
Qed.

Lemma alloc_scan_spec ws i u :
  MIN_ALLOC_FRAME / 64 ≤ i → Forall (is_u 64) ws →
  match alloc_scan i ws u with
  | (ws', u', None) => ws' = ws ∧ u' = u ∧ Forall (λ w, w = 0) ws
  | (ws', u', Some p) =>
      ∃ (k : nat) b, (k < length ws)%nat ∧ 0 ≤ b < 64 ∧
        p = ((i + Z.of_nat k) * 64 + b) * FRAME_SIZE ∧ u' = u + 1 ∧
        Z.testbit (ws !!! k) b = true ∧ (∀ c, 0 ≤ c < b → Z.testbit (ws !!! k) c = false) ∧
        (∀ j, (j < k)%nat → ws !!! j = 0) ∧
        ws' = alter (λ w, Z.land w (Z.lnot (Z.shiftl 1 b))) k ws
  end.
Proof.
  rewrite min_frame_val. change (256 / 64) with 4.
  intros Hi Hws. revert i Hi. induction Hws as [|w ws Hw _ IH]; intros i Hi; simpl; [done|].
  destruct (Z.eqb_spec w 0) as [->|Hn].
  - specialize (IH (i + 1) ltac:(lia)).
    destruct (alloc_scan (i + 1) ws u) as [[ws' u'] [p|]].
    + destruct IH as (k & b & ? & ? & -> & ? & Ht & Hc & Hj & ->).
      exists (S k), b. split_and!; try done; try lia.
      intros [|j] ?; [done|]. apply (Hj j). lia.
    + destruct IH as (-> & -> & ?). auto.
  - destruct (trailing_zeros_spec w Hw Hn) as (Hb & Ht & Hc). rewrite min_frame_val.
    rewrite (proj2 (Z.ltb_ge _ _)) by lia.
    exists O, (trailing_zeros w). split_and!; try done; try lia.
Qed.

Lemma idx_of (k : nat) b : 0 ≤ b < 64 →
  idx (Z.of_nat k * 64 + b) = k ∧ mask (Z.of_nat k * 64 + b) = Z.shiftl 1 b ∧
  (Z.of_nat k * 64 + b) mod 64 = b.
Proof.
  intros Hb. unfold idx, mask. rewrite Z.add_comm.
  rewrite Z.div_add, Z.mod_add, Z.div_small, Z.mod_small by lia. split_and!; try done. lia.
Qed.

Lemma alloc_spec bm :
  wf (bits bm) →
  match alloc bm with
  | (bm', Some p) =>
      ∃ f, p = f * FRAME_SIZE ∧ MIN_ALLOC_FRAME ≤ f < MAX_FRAMES ∧
        is_free (bits bm) f = true ∧
        (∀ g, MIN_ALLOC_FRAME ≤ g < f → is_free (bits bm) g = false) ∧
        bm' = mkBitmap (clear_bit (bits bm) f) (total bm) (used bm + 1) (hhdm bm)
  | (bm', None) =>
      bm' = bm ∧ ∀ g, MIN_ALLOC_FRAME ≤ g < MAX_FRAMES → is_free (bits bm) g = false
  end.
Proof.
  intros [Hl Hw]. unfold alloc. destruct bm as [ws t u h]. cbn [bits total used hhdm] in *.
  change (MIN_ALLOC_FRAME / 64) with 4. change (Z.to_nat 4) with 4%nat.
  pose proof (alloc_scan_spec (drop 4 ws) 4 u ltac:(done) ltac:(by apply Forall_drop)) as H.
  change (Z.to_nat (MAX_FRAMES / 64)) with (Z.to_nat 16384) in Hl.
  rewrite min_frame_val, max_frames_val.
  assert (∀ j : nat, drop 4 ws !!! j = ws !!! (4 + j)%nat) as Hd.
  { intros j. rewrite !list_lookup_total_alt. by rewrite lookup_drop. }
  destruct (alloc_scan 4 (drop 4 ws) u) as [[ws' u'] [p|]].
  - destruct H as (k & b & Hk & Hb & -> & -> & Ht & Hc & Hj & ->).
    rewrite length_drop in Hk. rewrite Hd in Ht, Hc.
    destruct (idx_of (4 + k) b Hb) as (Ei & Em & Eb).
    replace (4 + Z.of_nat k) with (Z.of_nat (4 + k)) by lia.
    set (f := Z.of_nat (4 + k) * 64 + b) in *. exists f. split_and!; try done; try (unfold f; lia).
    + by rewrite is_free_testbit, Ei, Eb.
    + intros g Hg. rewrite is_free_testbit. pose proof (frame_split g) as [Eg ?].
      destruct (decide (g / 64 = Z.of_nat (4 + k))) as [E|E].
      * assert (idx g = (4 + k)%nat) as -> by (unfold idx; rewrite E; lia).
        apply Hc. unfold f in Hg. lia.
      * assert (4 ≤ g / 64 < Z.of_nat (4 + k)) as Hq.
        { split; [apply Z.div_le_lower_bound; lia|].
          enough (g / 64 < Z.of_nat (4 + k) + 1) by lia.
          apply Z.div_lt_upper_bound; [lia|]. unfold f in Hg. lia. }
        specialize (Hj (idx g - 4)%nat ltac:(unfold idx; lia)). rewrite Hd in Hj.
        replace (4 + (idx g - 4))%nat with (idx g) in Hj by (unfold idx; lia).
        by rewrite Hj, Z.testbit_0_l.
    + f_equal. unfold clear_bit. rewrite Ei, Em.
      rewrite <- (take_drop 4 ws) at 3. rewrite alter_app_r_alt by (rewrite length_take; lia).
      rewrite length_take. do 2 f_equal. lia.
  - destruct H as (-> & -> & Hz). rewrite take_drop. split; [done|]. intros g Hg.
    rewrite is_free_testbit. rewrite Forall_lookup in Hz.
    assert (4 ≤ g / 64 < 16384) as Hq.
    { split; [apply Z.div_le_lower_bound; lia|apply Z.div_lt_upper_bound; lia]. }
    assert (drop 4 ws !!! (idx g - 4)%nat = 0) as Hj.
    { destruct (lookup_lt_is_Some_2 (drop 4 ws) (idx g - 4)%nat) as [w Hwg].
      - rewrite length_drop, Hl. unfold idx. lia.
      - by rewrite (list_lookup_total_correct _ _ _ Hwg), (Hz _ _ Hwg). }
    rewrite Hd in Hj. replace (4 + (idx g - 4))%nat with (idx g) in Hj by (unfold idx; lia).
    by rewrite Hj, Z.testbit_0_l.
Qed.

(** ** [alloc_contiguous]: the first run that fits *)

(** The loop state at [frame]: the current run is [frame - run_len, frame), it
    cannot be extended to the left, and no complete run ends by [frame]. *)
Record scan_inv (ws : list Z) (count frame run_start run_len : Z) : Prop := {
  si_len : 0 ≤ run_len < count;
  si_start : run_len ≠ 0 → run_start = frame - run_len;
  si_low : MIN_ALLOC_FRAME ≤ frame - run_len;
  si_run : run_free ws (frame - run_len) run_len;
  si_left : frame - run_len = MIN_ALLOC_FRAME ∨ is_free ws (frame - run_len - 1) = false;
  si_none : ∀ s, MIN_ALLOC_FRAME ≤ s → s + count ≤ frame → ¬ run_free ws s count
}.

Lemma scan_inv_free ws count frame rs rl :
  scan_inv ws count frame rs rl → is_free ws frame = true → rl + 1 ≠ count →
  scan_inv ws count (frame + 1) (if rl =? 0 then frame else rs) (rl + 1).
Proof.
  intros [H1 H2 H3 H4 H5 H6] Hf Hne.
  assert (run_free ws (frame - rl) (rl + 1)) as Hr.
  { intros f Hr. destruct (decide (f = frame)) as [->|]; [done|]. apply H4. lia. }
  constructor; replace (frame + 1 - (rl + 1)) with (frame - rl) by lia; try done; try lia.
  - intros _. destruct (Z.eqb_spec rl 0); [lia|]. by apply H2.
  - intros s Hs He Hrun. destruct (decide (s + count ≤ frame)) as [|]; [by apply (H6 s)|].
    destruct H5 as [H5|H5]; [lia|]. rewrite Hrun in H5; [done|lia].
Qed.

Lemma scan_inv_used ws count frame rs rl :
  scan_inv ws count frame rs rl → is_free ws frame = false →
  scan_inv ws count (frame + 1) rs 0.
Proof.
  intros [H1 H2 H3 H4 H5 H6] Hf. constructor; rewrite ?Z.sub_0_r; try lia.
  - intros f ?. lia.
  - right. by replace (frame + 1 - 1) with frame by lia.
  - intros s Hs He Hrun. destruct (decide (s + count ≤ frame)) as [|]; [by apply (H6 s)|].
    rewrite Hrun in Hf; [done|lia].
Qed.

Lemma contig_scan_spec fuel ws count frame rs rl :
  scan_inv ws count frame rs rl →
  match contig_scan fuel ws frame rs rl count with
  | Some s => MIN_ALLOC_FRAME ≤ s ∧ s + count ≤ frame + Z.of_nat fuel ∧ run_free ws s count ∧
              ∀ s', MIN_ALLOC_FRAME ≤ s' < s → ¬ run_free ws s' count
  | None => ∀ s, MIN_ALLOC_FRAME ≤ s → s + count ≤ frame + Z.of_nat fuel → ¬ run_free ws s count
  end.
Proof.
  revert frame rs rl. induction fuel as [|fuel IH]; intros frame rs rl Hinv; cbn [contig_scan].
  { intros s Hs He. apply (si_none _ _ _ _ _ Hinv); lia. }
  replace (frame + Z.of_nat (S fuel)) with (frame + 1 + Z.of_nat fuel) by lia.
  destruct (is_free ws frame) eqn:Hf.
  - destruct (Z.eqb_spec (rl + 1) count) as [E|E].
    + destruct Hinv as [H1 H2 H3 H4 H5 H6].
      assert ((if rl =? 0 then frame else rs) = frame - rl) as ->.
      { destruct (Z.eqb_spec rl 0); [lia|by apply H2]. }
      split_and!; [lia|lia| |].
      * intros f Hr. destruct (decide (f = frame)) as [->|]; [done|]. apply H4. lia.
      * intros s' Hs' Hrun. destruct (decide (s' + count ≤ frame)); [exfalso; apply (H6 s'); [lia|done|done]|].
        destruct H5 as [H5|H5]; [lia|]. rewrite Hrun in H5; [done|lia].
    + apply (IH _ _ _ (scan_inv_free _ _ _ _ _ Hinv Hf E)).
  - apply (IH _ _ _ (scan_inv_used _ _ _ _ _ Hinv Hf)).
Qed.

Lemma clear_range_spec ws s n :
  wf ws → 0 ≤ s → s + n ≤ MAX_FRAMES →
  wf (clear_range ws s n) ∧
  ∀ f, frame_ok f →
    is_free (clear_range ws s n) f = negb ((s <=? f) && (f <? s + n)) && is_free ws f.
Proof.
  intros Hw Hs Hn. unfold clear_range.
  assert (∀ l ws, wf ws → Forall frame_ok l →
    wf (foldl clear_bit ws l) ∧ ∀ f, frame_ok f →
      is_free (foldl clear_bit ws l) f = negb (bool_decide (f ∈ l)) && is_free ws f) as Hl.
  { clear ws Hw. induction l as [|x l IH]; intros ws Hw Hok.
    - cbn [foldl]. split; [done|]. intros f _.
      by rewrite bool_decide_eq_false_2 by apply not_elem_of_nil.
    - apply Forall_cons_iff in Hok as [Hx Hok]. cbn [foldl].
      destruct (IH (clear_bit ws x) ltac:(auto with osc) Hok) as [Hw' Hf]. split; [done|].
      intros f Hfo. rewrite Hf, is_free_clear by done.
      destruct (Z.eqb_spec f x) as [->|Hne].
      + rewrite (bool_decide_eq_true_2 (x ∈ x :: l)) by left. by rewrite andb_false_r.
      + rewrite (bool_decide_ext (f ∈ x :: l) (f ∈ l)) by (rewrite elem_of_cons; naive_solver).
        done. }
  destruct (Hl (seqZ s n) ws Hw) as [H1 H2].
  { apply Forall_forall. intros f Hf%elem_of_seqZ. unfold frame_ok. lia. }
  split; [done|]. intros f Hf. rewrite H2 by done. do 2 f_equal.
  destruct ((s <=? f) && (f <? s + n)) eqn:E.
  - unbool. apply bool_decide_eq_true_2, elem_of_seqZ. lia.
  - apply bool_decide_eq_false_2. rewrite elem_of_seqZ. intros [??].
    rewrite (proj2 (Z.leb_le _ _)), (proj2 (Z.ltb_lt _ _)) in E by lia. done.
Qed.

Lemma contig_scan_top ws count :
  0 < count →
  match contig_scan (Z.to_nat (MAX_FRAMES - MIN_ALLOC_FRAME)) ws MIN_ALLOC_FRAME 0 0 count with
  | Some s => MIN_ALLOC_FRAME ≤ s ∧ s + count ≤ MAX_FRAMES ∧ run_free ws s count ∧
              ∀ s', MIN_ALLOC_FRAME ≤ s' < s → ¬ run_free ws s' count
  | None => ∀ s, MIN_ALLOC_FRAME ≤ s → s + count ≤ MAX_FRAMES → ¬ run_free ws s count
  end.
Proof.
  intros Hc. set (fuel := Z.to_nat (MAX_FRAMES - MIN_ALLOC_FRAME)).
  assert (MIN_ALLOC_FRAME + Z.of_nat fuel = MAX_FRAMES) as Hfuel.
  { unfold fuel. rewrite Z2Nat.id; [lia|]. rewrite min_frame_val, max_frames_val. lia. }
  rewrite <- Hfuel. apply contig_scan_spec.
  constructor; rewrite ?Z.sub_0_r; try lia. intros f ?. lia.
Qed.

(** [alloc_contiguous] is sound, first-fit and complete: it hands out the
    lowest run of [count] free frames at or above 1 MiB, clears exactly those
    frames and counts them as used; it refuses, changing nothing, only when no
    such run exists. *)
Theorem alloc_contiguous_first_fit bm count :
  wf (bits bm) → 0 < count →
  match alloc_contiguous bm count with
  | (bm', Some p) =>
      ∃ s, p = s * FRAME_SIZE ∧ MIN_ALLOC_FRAME ≤ s ∧ s + count ≤ MAX_FRAMES ∧
        run_free (bits bm) s count ∧
        (∀ s', MIN_ALLOC_FRAME ≤ s' < s → ¬ run_free (bits bm) s' count) ∧
        (∀ f, frame_ok f → is_free (bits bm') f =
           negb ((s <=? f) && (f <? s + count)) && is_free (bits bm) f) ∧
        wf (bits bm') ∧ used bm' = used bm + count ∧ total bm' = total bm
  | (bm', None) =>
      bm' = bm ∧ ∀ s, MIN_ALLOC_FRAME ≤ s → s + count ≤ MAX_FRAMES → ¬ run_free (bits bm) s count
  end.
Proof.
  intros Hw Hc. unfold alloc_contiguous. rewrite (proj2 (Z.eqb_neq _ _)) by lia.
  pose proof (contig_scan_top (bits bm) count Hc) as H.
  destruct (contig_scan _ _ _ _ _ _) as [s|]; [|done].
  destruct H as (H1 & H2 & H3 & H4). rewrite min_frame_val in H1.
  destruct (clear_range_spec (bits bm) s count Hw) as [Hw' Hf]; [lia|lia|].
  exists s. rewrite min_frame_val in *. split_and!; try done.
Qed.

(** ** Counting *)

Lemma all_frames_nodup : NoDup all_frames.
Proof. apply NoDup_seqZ. Qed.
Lemma elem_of_all_frames f : f ∈ all_frames ↔ frame_ok f.
Proof. unfold all_frames, frame_ok. rewrite elem_of_seqZ. lia. Qed.

#[local] Opaque MAX_FRAMES all_frames.

Lemma count_flip ws ws' f :
  frame_ok f → is_free ws f = true → is_free ws' f = false →
  (∀ h, frame_ok h → h ≠ f → is_free ws h = is_free ws' h) →
  count_free ws = count_free ws' + 1.
Proof.
  intros Hf H1 H2 H3. unfold count_free.
  rewrite (countb_flip (is_free ws) (is_free ws') all_frames f); try done; try lia.
  - apply all_frames_nodup.
  - by apply elem_of_all_frames.
  - intros y Hy%elem_of_all_frames. by apply H3.
Qed.

Lemma count_clear ws f :
  wf ws → frame_ok f → is_free ws f = true → count_free ws = count_free (clear_bit ws f) + 1.
Proof.
  intros Hw Hf H. apply count_flip with f; try done.
  - by rewrite is_free_clear, Z.eqb_refl by done.
  - intros h Hh Hne. rewrite is_free_clear by done. by destruct (Z.eqb_spec h f).
Qed.

Lemma count_set ws f :
  wf ws → frame_ok f → is_free ws f = false → count_free (set_bit ws f) = count_free ws + 1.
Proof.
  intros Hw Hf H. apply count_flip with f; try done.
  - by rewrite is_free_set, Z.eqb_refl by done.
  - intros h Hh Hne. rewrite is_free_set by done. by destruct (Z.eqb_spec h f).
Qed.

Lemma boot_frames_ok map f : f ∈ boot_frames map → MIN_ALLOC_FRAME ≤ f < MAX_FRAMES.
Proof.
  unfold boot_frames. intros (l & Hf & Hl)%list_elem_of_join.
  apply list_elem_of_fmap in Hl as (r & -> & _). unfold region_frames in Hf.
  apply elem_of_seqZ in Hf. lia.
Qed.

Lemma boot_frame_ok map f : f ∈ boot_frames map → frame_ok f.
Proof. intros H%boot_frames_ok. unfold frame_ok. rewrite min_frame_val in H. lia. Qed.

Lemma mark_free_fold l b :
  wf (bits b) → NoDup l → Forall frame_ok l → (∀ f, f ∈ l → is_free (bits b) f = false) →
  let b' := foldl mark_free b l in
  wf (bits b') ∧ used b' = used b ∧
  total b' = total b + Z.of_nat (length l) ∧
  count_free (bits b') = count_free (bits b) + Z.of_nat (length l) ∧
  (∀ f, frame_ok f → is_free (bits b') f = bool_decide (f ∈ l) || is_free (bits b) f).
Proof.
  revert b. induction l as [|x l IH]; intros b Hw Hnd Hok Hnf; cbn [foldl length].
  { split_and!; try done; lia. }
  apply NoDup_cons in Hnd as [Hx Hnd]. apply Forall_cons_iff in Hok as [Hxo Hok].
  destruct (IH (mark_free b x)) as (H1 & H2 & H3 & H4 & H5); cbn [mark_free bits] in *; auto with osc.
  { intros f Hf. rewrite is_free_set; [|done|done|by eapply (Forall_forall frame_ok l)].
    rewrite Hnf by by right. destruct (Z.eqb_spec f x) as [->|]; done. }
  rewrite count_set in H4 by (try done; apply Hnf; left).
  change (total (mark_free b x)) with (total b + 1) in H3.
  change (used (mark_free b x)) with (used b) in H2.
  split_and!; try done; try lia. intros f Hf. rewrite H5, is_free_set by done.
  rewrite orb_assoc. f_equal. destruct (Z.eqb_spec f x) as [->|Hne].
  - rewrite (bool_decide_eq_true_2 (x ∈ x :: l)) by left. apply orb_true_r.
  - rewrite orb_false_r. apply bool_decide_ext. rewrite elem_of_cons. naive_solver.
Qed.

Lemma clear_fold_count l ws :
  wf ws → NoDup l → Forall frame_ok l → (∀ f, f ∈ l → is_free ws f = true) →
  count_free ws = count_free (foldl clear_bit ws l) + Z.of_nat (length l).
Proof.
  revert ws. induction l as [|x l IH]; intros ws Hw Hnd Hok Hf; cbn [foldl length]; [lia|].
  apply NoDup_cons in Hnd as [Hx Hnd]. apply Forall_cons_iff in Hok as [Hxo Hok].
  rewrite (count_clear ws x Hw Hxo) by (apply Hf; left).
  rewrite (IH (clear_bit ws x)); auto with osc; [lia|].
  intros f Hfl. rewrite is_free_clear; [|done|done|by eapply (Forall_forall frame_ok l)].
  rewrite Hf by by right. destruct (Z.eqb_spec f x) as [->|]; done.
Qed.

Lemma reserve_fold l b :
  wf (bits b) → NoDup l → Forall frame_ok l →
  let b' := foldl reserve_one b l in
  wf (bits b') ∧ total b' = total b ∧
  used b' = used b + Z.of_nat (length (List.filter (is_free (bits b)) l)) ∧
  count_free (bits b') + used b' = count_free (bits b) + used b ∧
  (∀ f, frame_ok f → is_free (bits b') f = negb (bool_decide (f ∈ l)) && is_free (bits b) f).
Proof.
  revert b. induction l as [|x l IH]; intros b Hw Hnd Hok; cbn [foldl].
  { split_and!; try done; simpl; lia. }
  apply NoDup_cons in Hnd as [Hx Hnd]. apply Forall_cons_iff in Hok as [Hxo Hok].
  assert (∀ ws f, f ≠ x → negb (bool_decide (f ∈ x :: l)) && is_free ws f =
                          negb (bool_decide (f ∈ l)) && is_free ws f) as Hm.
  { intros ws f Hne. do 2 f_equal. apply bool_decide_ext. rewrite elem_of_cons. naive_solver. }
  cbv zeta. assert (reserve_one b x = if is_free (bits b) x then
    mkBitmap (clear_bit (bits b) x) (total b) (used b + 1) (hhdm b) else b) as -> by done.
  cbn [List.filter]. destruct (is_free (bits b) x) eqn:Hfx.
  - set (b1 := mkBitmap (clear_bit _ _) _ _ _).
    assert (wf (bits b1)) as Hw1 by by apply wf_clear.
    destruct (IH b1 Hw1 Hnd Hok) as (H1 & H2 & H3 & H4 & H5).
    cbn [b1 bits total used] in H2, H3, H4. rewrite (count_clear (bits b) x) by done.
    assert (List.filter (is_free (clear_bit (bits b) x)) l = List.filter (is_free (bits b)) l) as Hfl.
    { apply List.filter_ext_in. intros f Hf%list_elem_of_In.
      rewrite is_free_clear; [|done|done|by eapply (Forall_forall frame_ok l)].
      destruct (Z.eqb_spec f x) as [->|]; done. }
    rewrite Hfl in H3. cbn [length]. split_and!; try done; try lia.
    intros f Hf. rewrite H5 by done. cbn [b1 bits]. rewrite is_free_clear by done.
    destruct (Z.eqb_spec f x) as [->|Hne]; [|by rewrite Hm].
    rewrite (bool_decide_eq_true_2 (x ∈ x :: l)) by left. by rewrite andb_false_r.
  - destruct (IH b Hw Hnd Hok) as (H1 & H2 & H3 & H4 & H5). split_and!; try done.
    intros f Hf. rewrite H5 by done. destruct (decide (f = x)) as [->|Hne]; [|by rewrite Hm].
    by rewrite Hfx, !andb_false_r.
Qed.

(** ** The invariant of the reachable states *)

Lemma new_wf : wf (bits FrameBitmap_new).
Proof.
  split; unfold FrameBitmap_new; cbn [bits]; [apply length_replicate|].
  apply Forall_replicate. unfold is_u. lia.
Qed.

Lemma new_free f : frame_ok f → is_free (bits FrameBitmap_new) f = false.
Proof.
  intros Hf. pose proof (idx_lt _ _ new_wf Hf) as Hi. unfold is_free.
  destruct (lookup_lt_is_Some_2 _ _ Hi) as [w Hw]. rewrite (list_lookup_total_correct _ _ _ Hw).
  unfold FrameBitmap_new in Hw. cbn [bits] in Hw. by apply lookup_replicate in Hw as [-> _].
Qed.

Lemma new_count : count_free (bits FrameBitmap_new) = 0.
Proof.
  unfold count_free. rewrite position_None_countb; [done|].
  apply position_None, Forall_forall. intros f Hf%elem_of_all_frames. by apply new_free.
Qed.

Lemma init_as_fold bm map h :
  init_from_regions bm map h =
  foldl mark_free (mkBitmap (bits bm) (total bm) (used bm) h) (boot_frames map).
Proof.
  unfold init_from_regions, boot_frames. generalize (mkBitmap (bits bm) (total bm) (used bm) h).
  induction map as [|r map IH]; intros b; [done|]. cbn [foldl]. rewrite IH.
  unfold boot_frames. change (mjoin (region_frames <$> r :: map))
    with (region_frames r ++ mjoin (region_frames <$> map)). by rewrite foldl_app.
Qed.

Lemma boot_inv map h :
  NoDup (boot_frames map) → inv map (mkLedger (init_from_regions FrameBitmap_new map h) [] []).
Proof.
  intros Hnd. rewrite init_as_fold. set (b0 := mkBitmap _ _ _ _).
  destruct (mark_free_fold (boot_frames map) b0) as (H1 & H2 & H3 & H4 & H5).
  - apply new_wf.
  - done.
  - apply Forall_forall. apply boot_frame_ok.
  - intros f Hf. by eapply new_free, boot_frame_ok.
  - change (count_free (bits b0)) with (count_free (bits FrameBitmap_new)) in H4.
    rewrite new_count in H4. cbn [b0 used total FrameBitmap_new] in H2, H3.
    constructor; cbn [bm live reserved app length]; try done; try lia.
    + constructor.
    + intros f Hf. by apply elem_of_nil in Hf.
    + intros f Hf. rewrite H5 by done. change (is_free (bits b0) f) with
        (is_free (bits FrameBitmap_new) f). rewrite new_free, orb_false_r by done.
      apply bool_decide_eq_true_1.
Qed.

(** Taking a free frame out of the bitmap. *)
Lemma inv_take map s f b :
  inv map s → frame_ok f → is_free (bits (bm s)) f = true →
  b = mkBitmap (clear_bit (bits (bm s)) f) (total (bm s)) (used (bm s) + 1) (hhdm (bm s)) →
  inv map (mkLedger b (f :: live s) (reserved s)).
Proof.
  intros [Hw Hnd Ht Hr Hu Hc Hb] Hf Hfr ->.
  pose proof (count_clear _ _ Hw Hf Hfr) as Hcc.
  constructor; cbn [bm live reserved bits total used app length]; auto with osc; try lia.
  - apply NoDup_cons. split; [|done]. intros Hin. apply Ht in Hin as [Hin _]. congruence.
  - intros g [->|Hg]%elem_of_cons.
    + rewrite is_free_clear, Z.eqb_refl by done. split; [done|by apply Hr].
    + destruct (Ht g Hg) as [Hgf Hgb]. split; [|done].
      rewrite is_free_clear by (try done; by eapply boot_frame_ok). by rewrite Hgf, andb_false_r.
  - intros g Hg. rewrite is_free_clear by done. rewrite andb_true_iff. intros [_ ?]. by apply Hr.
Qed.

Lemma inv_alloc map s :
  inv map s → match alloc (bm s) with
              | (b, Some p) => inv map (mkLedger b (p / FRAME_SIZE :: live s) (reserved s))
              | (b, None) => b = bm s
              end.
Proof.
  intros Hi. pose proof (alloc_spec (bm s) (inv_wf _ _ Hi)) as H.
  destruct (alloc (bm s)) as [b [p|]]; [|by destruct H].
  destruct H as (f & -> & Hf & Hfree & _ & Hb). rewrite Z.div_mul by done.
  eapply inv_take; try done. unfold frame_ok. rewrite min_frame_val in Hf. lia.
Qed.

Lemma inv_contig map s count :
  inv map s → 0 ≤ count →
  match alloc_contiguous (bm s) count with
  | (b, Some p) => inv map (mkLedger b (seqZ (p / FRAME_SIZE) count ++ live s) (reserved s))
  | (b, None) => b = bm s
  end.
Proof.
  intros [Hw Hnd Ht Hr Hu Hc Hb] Hcount. unfold alloc_contiguous.
  destruct (Z.eqb_spec count 0) as [|Hn]; [done|].
  pose proof (contig_scan_top (bits (bm s)) count ltac:(lia)) as H.
  destruct (contig_scan _ _ _ _ _ _) as [st|]; [|done].
  destruct H as (H1 & H2 & H3 & _). rewrite min_frame_val in H1.
  destruct (clear_range_spec (bits (bm s)) st count Hw) as [Hw' Hf]; [lia|lia|].
  rewrite Z.div_mul by done.
  assert (∀ f, f ∈ seqZ st count ↔ st ≤ f < st + count) as Hel by (intros; apply elem_of_seqZ).
  assert (Forall frame_ok (seqZ st count)) as Hok.
  { apply Forall_forall. intros f Hff%Hel. unfold frame_ok. lia. }
  pose proof (clear_fold_count (seqZ st count) (bits (bm s)) Hw (NoDup_seqZ _ _) Hok
    (λ f Hff, H3 f (proj1 (Hel f) Hff))) as Hcc. rewrite length_seqZ in Hcc.
  fold (clear_range (bits (bm s)) st count) in Hcc.
  constructor; cbn [bm live reserved bits total used]; try done;
    rewrite <- ?app_assoc, ?length_app, ?length_seqZ in *; try lia.
  - apply NoDup_app. split; [apply NoDup_seqZ|]. split; [|done].
    intros f Hff%Hel Hin. apply Ht in Hin as [Hin _]. rewrite H3 in Hin by done. done.
  - intros f [Hff|Hff]%elem_of_app.
    + assert (frame_ok f) as Hfo by by eapply (Forall_forall frame_ok (seqZ st count)).
      apply Hel in Hff. split; [|by apply Hr; [|apply H3]]. rewrite Hf by done.
      by rewrite (proj2 (Z.leb_le _ _)), (proj2 (Z.ltb_lt _ _)) by lia.
    + destruct (Ht f Hff) as [Hgf Hgb]. split; [|done].
      rewrite Hf by (by eapply boot_frame_ok). by rewrite Hgf, andb_false_r.
  - intros f Hfo. rewrite Hf by done. rewrite andb_true_iff. intros [_ ?]. by apply Hr.
Qed.

Lemma inv_free map s p live' :
  inv map s → live s ≡ₚ (p / FRAME_SIZE) :: live' →
  inv map (mkLedger (free (bm s) p) live' (reserved s)).
Proof.
  intros [Hw Hnd Ht Hr Hu Hc Hb] Hp. set (f := p / FRAME_SIZE) in *.
  rewrite Hp in Hnd, Hu. cbn [app length] in Hnd, Hu. apply NoDup_cons in Hnd as [Hni Hnd].
  destruct (Ht f) as [Hff Hfb]; [rewrite Hp; left|].
  pose proof (boot_frame_ok _ _ Hfb) as Hfo.
  unfold free. fold f. rewrite (proj2 (Z.ltb_lt f MAX_FRAMES)) by apply Hfo.
  rewrite Hff. cbn [negb]. pose proof (count_set _ _ Hw Hfo Hff) as Hcs.
  constructor; cbn [bm live reserved bits total used]; auto with osc; unfold sat_sub; try lia.
  - intros g Hg. destruct (Ht g) as [Hgf Hgb]; [rewrite Hp; by right|]. split; [|done].
    rewrite is_free_set by (try done; by eapply boot_frame_ok). rewrite Hgf, orb_false_r.
    apply Z.eqb_neq. by intros ->.
  - intros g Hg. rewrite is_free_set by done.
    intros [->%Z.eqb_eq|?]%orb_true_iff; [done|by apply Hr].
Qed.

Lemma inv_reserve map s b l :
  inv map s → 0 ≤ b →
  inv map (mkLedger (reserve_range (bm s) b l) (live s)
    (reserved s ++ if l =? 0 then [] else List.filter (is_free (bits (bm s))) (range_frames b l))).
Proof.
  intros Hi Hb. unfold reserve_range. destruct (l =? 0).
  { rewrite app_nil_r. by destruct s. }
  destruct Hi as [Hw Hnd Ht Hr Hu Hc Hbt]. set (rf := range_frames b l).
  assert (Forall frame_ok rf) as Hok.
  { apply Forall_forall. unfold rf, range_frames, frame_ok. intros f Hf%elem_of_seqZ.
    assert (0 ≤ b / FRAME_SIZE) by by apply Z.div_pos. lia. }
  assert (NoDup rf) as Hrnd by apply NoDup_seqZ.
  destruct (reserve_fold rf (bm s) Hw Hrnd Hok) as (H1 & H2 & H3 & H4 & H5).
  constructor; cbn [bm live reserved]; try done; rewrite ?app_assoc, ?length_app in *; try lia.
  - apply NoDup_app. split; [done|]. split; [|by apply NoDup_ListNoDup, List.NoDup_filter, NoDup_ListNoDup].
    intros f Hf Hin. apply list_elem_of_In, List.filter_In in Hin as [_ Hin].
    apply Ht in Hf as [Hf _]. congruence.
  - intros f [Hf|Hf]%elem_of_app.
    + destruct (Ht f Hf) as [Hff Hfb]. split; [|done].
      rewrite H5 by by eapply boot_frame_ok. by rewrite Hff, andb_false_r.
    + apply list_elem_of_In, List.filter_In in Hf as [Hf Hff]. apply list_elem_of_In in Hf.
      assert (frame_ok f) as Hfo by by eapply (Forall_forall frame_ok rf).
      split; [|by apply Hr]. rewrite H5 by done. by rewrite bool_decide_eq_true_2.
  - intros f Hf. rewrite H5 by done. rewrite andb_true_iff. intros [_ ?]. by apply Hr.
Qed.

Lemma frames_reachable_inv map h s : NoDup (boot_frames map) → reachable map h s → inv map s.
Proof.
  intros Hnd. induction 1 as [|s s' _ IH Hstep]; [by apply boot_inv|].
  destruct Hstep as [s b p E|s b E|s b count p Hc E|s b count Hc E|s p live' Hp|s b l Hb].
  - pose proof (inv_alloc map s IH) as H. by rewrite E in H.
  - pose proof (inv_alloc map s IH) as H. rewrite E in H. subst. by destruct s.
  - pose proof (inv_contig map s count IH ltac:(lia)) as H. by rewrite E in H.
  - pose proof (inv_contig map s count IH Hc) as H. rewrite E in H. subst. by destruct s.
  - by apply inv_free.
  - by apply inv_reserve.
Qed.

(** C4: exclusive ownership: after boot from a map without overlaps, whatever
    the sequence of allocations, releases of owned frames and reservations, no
    frame is owned twice, every owned frame is RAM of the boot map, is not a
    reserved frame and is not in the free set; [used] counts the owned and
    reserved frames and the free frames make up the rest of [total]. *)
Theorem frames_exclusive map h s :
  NoDup (boot_frames map) → reachable map h s →
  NoDup (live s) ∧
  (∀ f, f ∈ live s → f ∈ boot_frames map ∧ f ∉ reserved s ∧ is_free (bits (bm s)) f = false) ∧
  used (bm s) = Z.of_nat (length (live s) + length (reserved s)) ∧
  count_free (bits (bm s)) + used (bm s) = total (bm s) ∧
  total (bm s) = Z.of_nat (length (boot_frames map)).
Proof.
  intros Hnd [Hw Hl Ht Hr Hu Hc Hb]%frames_reachable_inv; [|done]. rewrite length_app in Hu.
  apply NoDup_app in Hl as (Hl & Hlr & _). split_and!; try done.
  intros f Hf. destruct (Ht f); [apply elem_of_app; by left|]. split_and!; try done. by apply Hlr.
Qed.

(** [alloc_frame] fails only when memory is exhausted: in every
    reachable state it returns a frame exactly when [used < total]. *)
Theorem alloc_fails_only_when_exhausted map h s :
  NoDup (boot_frames map) → reachable map h s →
  (∃ p, (alloc (bm s)).2 = Some p) ↔ used (bm s) < total (bm s).
Proof.
  intros Hnd [Hw Hl Ht Hr Hu Hc Hb]%frames_reachable_inv; [|done].
  pose proof (alloc_spec (bm s) Hw) as H. destruct (alloc (bm s)) as [b [p|]]; cbn [snd].
  - destruct H as (f & _ & Hf & Hfree & _ & _). split; [intros _|by eauto].
    rewrite min_frame_val in Hf. pose proof (count_clear _ f Hw) as Hcc.
    specialize (Hcc ltac:(unfold frame_ok; lia) Hfree). unfold count_free in *. lia.
  - destruct H as [-> Hnone]. split; [by intros []|]. intros Hlt. exfalso.
    assert (count_free (bits (bm s)) = 0); [|lia].
    unfold count_free. rewrite position_None_countb; [done|].
    apply position_None, Forall_forall. intros f Hf%elem_of_all_frames.
    destruct (is_free (bits (bm s)) f) eqn:E; [|done].
    specialize (Hr f Hf E). apply boot_frames_ok in Hr. by rewrite Hnone in E.
Qed.

(** ** Witnesses: 16 KiB of RAM at 1 MiB *)

Definition sample_map : BootMemMap := map_push [] 0x100000 0x4000.
Definition sample_boot : FrameBitmap := init_from_regions FrameBitmap_new sample_map 0.
Definition sample_held : FrameBitmap := reserve_range sample_boot 0x101000 1.
Definition sample_ledger : Ledger :=
  mkLedger (alloc sample_held).1 [0x100000 / FRAME_SIZE]
    ([] ++ if 1 =? 0 then [] else List.filter (is_free (bits sample_boot)) (range_frames 0x101000 1)).

Lemma sample_nodup : NoDup (boot_frames sample_map).
Proof. apply (bool_decide_eq_true_1 _). vm_compute. reflexivity. Qed.

Lemma sample_alloc : (alloc sample_held).2 = Some 0x100000.
Proof. vm_compute. reflexivity. Qed.

Lemma frames_sample_reachable : reachable sample_map 0 sample_ledger.
Proof.
  unfold sample_ledger. eapply reach_step.
  - eapply reach_step; [apply reach_boot|]. fold sample_boot.
    apply (step_reserve (mkLedger sample_boot [] []) 0x101000 1). done.
  - cbn [bm live reserved]. fold sample_held.
    match goal with |- step ?s _ => apply (step_alloc s) end.
    cbn [bm]. rewrite (surjective_pairing (alloc sample_held)), sample_alloc. reflexivity.
Qed.

Lemma frames_exclusive_witness :
  live sample_ledger = [256] ∧ 256 ∉ reserved sample_ledger ∧
  total (bm sample_ledger) = Z.of_nat (length (boot_frames sample_map)).
Proof.
  destruct (frames_exclusive sample_map 0 sample_ledger sample_nodup frames_sample_reachable)
    as (_ & H & _ & _ & Ht).
  split; [reflexivity|]. split; [|exact Ht]. apply (H 256). left.
Defined.

Lemma alloc_exhausted_witness :
  (∃ p, (alloc (bm sample_ledger)).2 = Some p) ↔ used (bm sample_ledger) < total (bm sample_ledger).
Proof.
  exact (alloc_fails_only_when_exhausted sample_map 0 sample_ledger sample_nodup frames_sample_reachable).
Defined.

Lemma alloc_contiguous_witness :
  (alloc_contiguous sample_boot 2).2 = Some 0x100000 ∧
  match alloc_contiguous sample_boot 2 with
  | (b, Some p) => ∃ s, p = s * FRAME_SIZE ∧ run_free (bits sample_boot) s 2
  | (b, None) => False
  end.
Proof.
  split; [vm_compute; reflexivity|].
  pose proof (alloc_contiguous_first_fit sample_boot 2) as H.
  destruct (alloc_contiguous sample_boot 2) as [b [p|]] eqn:E.
  - destruct H as (s & Hp & _ & _ & Hr & _); [|lia|by exists s].
    exact (inv_wf _ _ (boot_inv sample_map 0 sample_nodup)).
  - exfalso. assert ((alloc_contiguous sample_boot 2).2 = Some 0x100000) as E2
      by (vm_compute; reflexivity). rewrite E in E2. discriminate.
Defined.

End FrameAlloc.
