(* ===== verification/Paging.v ===== *)
(** * Page tables of x86_64 ([mm/paging.rs], module [x86_64_impl] and the public API)

    Physical memory is a function from the address of a 64-bit word to its
    value; the higher-half window maps it at a constant offset, so a table is
    addressed by its physical address and [phys_to_virt] keeps only its range
    check.  Tables come from the frame allocator of [FrameAlloc].  [invlpg] is
    recorded in [flushed], newest first.

    The walks and the mapping of the source are unrolled over the four levels;
    [last_table] is the same walk as a recursion over the level and the proofs
    go through it.  [tables_ok] is the shape invariant: the
    tables of all address spaces form a forest whose nodes are frames in use,
    each referenced from one slot.  The result is [paging_refines_spaces]: the
    operations on any number of address spaces behave as one finite map from
    (root, page) to page-table entry. *)

From Stdlib Require Import ZArith Lia.
From stdpp Require Import base numbers strings option list gmap.
From S2P Require Import Prelude FrameAlloc.

Local Open Scope Z_scope.

Module Paging.

Definition PRESENT : Z := Z.shiftl 1 0.
Definition WRITABLE : Z := Z.shiftl 1 1.
Definition USER : Z := Z.shiftl 1 2.
Definition WRITE_THROUGH : Z := Z.shiftl 1 3.
Definition CACHE_DISABLE : Z := Z.shiftl 1 4.
Definition HUGE : Z := Z.shiftl 1 7.
Definition NO_EXECUTE : Z := Z.shiftl 1 63.

Definition flags_mmio : Z :=
  Z.lor (Z.lor (Z.lor (Z.lor PRESENT WRITABLE) CACHE_DISABLE) WRITE_THROUGH) NO_EXECUTE.
Definition flags_kernel_rw : Z := Z.lor (Z.lor PRESENT WRITABLE) NO_EXECUTE.

Definition PAGE_SIZE : Z := 4096.
Definition PHYS_MASK : Z := 0x000ffffffffff000.
Definition PHYS_LIMIT : Z := 0x0000000400000000.

Record Mm := mkMm {
  mem : Z → Z;
  frames : FrameAlloc.FrameBitmap;
  cr3 : Z;
  flushed : list Z
}.

Definition upd (m : Z → Z) (a v : Z) : Z → Z := λ b, if b =? a then v else m b.
Definition write (s : Mm) (a v : Z) : Mm := mkMm (upd (mem s) a v) (frames s) (cr3 s) (flushed s).
Definition set_frames (s : Mm) (f : FrameAlloc.FrameBitmap) : Mm :=
  mkMm (mem s) f (cr3 s) (flushed s).
Definition invlpg (s : Mm) (virt : Z) : Mm := mkMm (mem s) (frames s) (cr3 s) (virt :: flushed s).

(** [write_bytes(phys, 0, PAGE_SIZE)]. *)
Definition zero_page (s : Mm) (phys : Z) : Mm :=
  mkMm (λ a, if (phys <=? a) && (a <? phys + PAGE_SIZE) then 0 else mem s a)
    (frames s) (cr3 s) (flushed s).

Definition present (e : Z) : bool := negb (Z.land e PRESENT =? 0).

(** [table.add(i)]. *)
Definition slot (table i : Z) : Z := table + 8 * i.

(** [(virt >> 39) & 0x1ff], [>> 30], [>> 21] and [>> 12] for levels 3 to 0. *)
Definition index (level : nat) (virt : Z) : Z :=
  Z.land (Z.shiftr virt (12 + 9 * Z.of_nat level)) 0x1ff.

Definition phys_to_virt (phys : Z) : outcome Z :=
  if PHYS_LIMIT <=? phys then Panic else Val phys.

Definition walk_table (phys : Z) : option Z :=
  if (phys =? 0) || (PHYS_LIMIT <=? phys) then None else Some phys.

Definition alloc_frame (s : Mm) : Mm * option Z :=
  let '(f, o) := FrameAlloc.alloc (frames s) in (set_frames s f, o).
Definition free_frame (s : Mm) (phys : Z) : Mm :=
  set_frames s (FrameAlloc.free (frames s) phys).

Definition alloc_page_table (s : Mm) : outcome (Mm * option Z) :=
  let '(s1, o) := alloc_frame s in
  match o with
  | None => Val (s1, None)
  | Some phys => let! v := phys_to_virt phys in Val (zero_page s1 v, Some phys)
  end.

Definition ensure_next_table_flags (s : Mm) (entry flags : Z) : outcome (Mm * option Z) :=
  let e := mem s entry in
  if present e then Val (s, Some (Z.land e PHYS_MASK))
  else
    let! r := alloc_page_table s in
    match r with
    | (s1, None) => Val (s1, None)
    | (s1, Some phys) => Val (write s1 entry (Z.lor phys flags), Some phys)
    end.

Definition ensure_next_table (s : Mm) (entry : Z) : outcome (Mm * option Z) :=
  ensure_next_table_flags s entry (Z.lor PRESENT WRITABLE).

(** The kernel's own mapping, in the active tables; out of memory is logged. *)
Definition map_page (s : Mm) (virt phys flags : Z) : outcome Mm :=
  let cr3_phys := Z.land (cr3 s) PHYS_MASK in
  let! pml4 := phys_to_virt cr3_phys in
  let! r := ensure_next_table s (slot pml4 (index 3 virt)) in
  match r with
  | (s1, None) => Val s1
  | (s1, Some pdpt_phys) =>
      let! pdpt := phys_to_virt pdpt_phys in
      let! r := ensure_next_table s1 (slot pdpt (index 2 virt)) in
      match r with
      | (s2, None) => Val s2
      | (s2, Some pd_phys) =>
          let! pd := phys_to_virt pd_phys in
          let! r := ensure_next_table s2 (slot pd (index 1 virt)) in
          match r with
          | (s3, None) => Val s3
          | (s3, Some pt_phys) =>
              let! pt := phys_to_virt pt_phys in
              let s4 := write s3 (slot pt (index 0 virt)) (Z.lor (Z.land phys PHYS_MASK) flags) in
              Val (invlpg s4 virt)
          end
      end
  end.

Definition map_mmio (s : Mm) (phys virt size : Z) : outcome Mm :=
  let pages := Z.to_nat ((size + (PAGE_SIZE - 1)) / PAGE_SIZE) in
  for_range 0 pages (λ i s',
    map_page s' (u64 (virt + Z.of_nat i * PAGE_SIZE)) (u64 (phys + Z.of_nat i * PAGE_SIZE))
      flags_mmio) s.

Definition alloc_user_pml4 (s : Mm) : outcome (Mm * option Z) :=
  let! r := alloc_page_table s in
  match r with
  | (s1, None) => Val (s1, None)
  | (s1, Some new_pml4_phys) =>
      let! new_pml4 := phys_to_virt new_pml4_phys in
      let kernel_cr3 := Z.land (cr3 s1) PHYS_MASK in
      let! kernel_pml4 := phys_to_virt kernel_cr3 in
      let! s2 := for_range 256 256 (λ i s',
        Val (write s' (slot new_pml4 (Z.of_nat i)) (mem s' (slot kernel_pml4 (Z.of_nat i))))) s1 in
      Val (s2, Some new_pml4_phys)
  end.

Definition user_flags : Z := Z.lor (Z.lor PRESENT WRITABLE) USER.

Definition map_page_in (s : Mm) (pml4_phys virt phys flags : Z) : outcome (Mm * result unit) :=
  let! pml4 := phys_to_virt pml4_phys in
  let! r := ensure_next_table_flags s (slot pml4 (index 3 virt)) user_flags in
  match r with
  | (s1, None) => Val (s1, Err "OOM: PDPT")
  | (s1, Some pdpt_phys) =>
      let! pdpt := phys_to_virt pdpt_phys in
      let! r := ensure_next_table_flags s1 (slot pdpt (index 2 virt)) user_flags in
      match r with
      | (s2, None) => Val (s2, Err "OOM: PD")
      | (s2, Some pd_phys) =>
          let! pd := phys_to_virt pd_phys in
          let! r := ensure_next_table_flags s2 (slot pd (index 1 virt)) user_flags in
          match r with
          | (s3, None) => Val (s3, Err "OOM: PT")
          | (s3, Some pt_phys) =>
              let! pt := phys_to_virt pt_phys in
              let s4 := write s3 (slot pt (index 0 virt)) (Z.lor (Z.land phys PHYS_MASK) flags) in
              let active_cr3 := Z.land (cr3 s4) PHYS_MASK in
              Val (if pml4_phys =? active_cr3 then invlpg s4 virt else s4, Ok tt)
          end
      end
  end.

(** The read-only walk to the page-table entry. *)
Definition walk_pte (s : Mm) (pml4_phys virt : Z) : option Z :=
  pml4 ← walk_table pml4_phys;
  let pml4e := mem s (slot pml4 (index 3 virt)) in
  if negb (present pml4e) then None
  else
    pdpt ← walk_table (Z.land pml4e PHYS_MASK);
    let pdpte := mem s (slot pdpt (index 2 virt)) in
    if negb (present pdpte) then None
    else
      pd ← walk_table (Z.land pdpte PHYS_MASK);
      let pde := mem s (slot pd (index 1 virt)) in
      if negb (present pde) then None
      else
        pt ← walk_table (Z.land pde PHYS_MASK);
        let pte := mem s (slot pt (index 0 virt)) in
        if negb (present pte) then None else Some pte.

Definition translate_x86 (s : Mm) (pml4_phys virt : Z) : option Z :=
  (λ pte, Z.land pte PHYS_MASK) <$> walk_pte s pml4_phys virt.

Definition translate_flags_x86 (s : Mm) (pml4_phys virt : Z) : option (Z * bool * bool) :=
  (λ pte, (Z.land pte PHYS_MASK, negb (Z.land pte WRITABLE =? 0), Z.land pte NO_EXECUTE =? 0))
  <$> walk_pte s pml4_phys virt.

(** The walk of the operations that write the entry: its address, or [Err]. *)
Definition find_pte (s : Mm) (pml4_phys virt : Z) : outcome (result Z) :=
  let! pml4 := phys_to_virt pml4_phys in
  let pml4e := mem s (slot pml4 (index 3 virt)) in
  if negb (present pml4e) then Val (Err "not present")
  else
    let! pdpt := phys_to_virt (Z.land pml4e PHYS_MASK) in
    let pdpte := mem s (slot pdpt (index 2 virt)) in
    if negb (present pdpte) then Val (Err "not present")
    else
      let! pd := phys_to_virt (Z.land pdpte PHYS_MASK) in
      let pde := mem s (slot pd (index 1 virt)) in
      if negb (present pde) then Val (Err "not present")
      else
        let! pt := phys_to_virt (Z.land pde PHYS_MASK) in
        let pte_ptr := slot pt (index 0 virt) in
        if negb (present (mem s pte_ptr)) then Val (Err "not present") else Val (Ok pte_ptr).

Definition leaf_flags (writable exec : bool) : Z :=
  let flags := Z.lor PRESENT USER in
  let flags := if writable then Z.lor flags WRITABLE else flags in
  if negb exec then Z.lor flags NO_EXECUTE else flags.

Definition update_x86 (s : Mm) (pml4_phys virt : Z) (writable exec : bool)
    : outcome (Mm * result unit) :=
  let! r := find_pte s pml4_phys virt in
  match r with
  | Err e => Val (s, Err e)
  | Ok pte_ptr =>
      let phys := Z.land (mem s pte_ptr) PHYS_MASK in
      Val (invlpg (write s pte_ptr (Z.lor phys (leaf_flags writable exec))) virt, Ok tt)
  end.

Definition unmap_x86 (s : Mm) (pml4_phys virt : Z) : outcome (Mm * result Z) :=
  let! r := find_pte s pml4_phys virt in
  match r with
  | Err e => Val (s, Err e)
  | Ok pte_ptr =>
      let phys := Z.land (mem s pte_ptr) PHYS_MASK in
      Val (invlpg (write s pte_ptr 0) virt, Ok phys)
  end.

(** The four nested loops of [free_user_pml4], innermost first. *)
Definition free_pte (s : Mm) (pte : Z) : Mm :=
  if present pte then free_frame s (Z.land pte PHYS_MASK) else s.

Definition free_table (one : Mm → Z → Mm) (n : nat) (s : Mm) (table : Z) : Mm :=
  fold_left (λ s' i, one s' (mem s' (slot table (Z.of_nat i)))) (seq 0 n) s.

Definition free_pde (s : Mm) (pde : Z) : Mm :=
  if negb (present pde) then s
  else if negb (Z.land pde HUGE =? 0) then free_frame s (Z.land pde PHYS_MASK)
  else match walk_table (Z.land pde PHYS_MASK) with
       | Some pt => free_frame (free_table free_pte 512 s pt) (Z.land pde PHYS_MASK)
       | None => s
       end.

Definition free_pdpte (s : Mm) (pdpte : Z) : Mm :=
  if negb (present pdpte) then s
  else if negb (Z.land pdpte HUGE =? 0) then free_frame s (Z.land pdpte PHYS_MASK)
  else match walk_table (Z.land pdpte PHYS_MASK) with
       | Some pd => free_frame (free_table free_pde 512 s pd) (Z.land pdpte PHYS_MASK)
       | None => s
       end.

Definition free_pml4e (s : Mm) (pml4e : Z) : Mm :=
  if negb (present pml4e) then s
  else match walk_table (Z.land pml4e PHYS_MASK) with
       | Some pdpt => free_frame (free_table free_pdpte 512 s pdpt) (Z.land pml4e PHYS_MASK)
       | None => s
       end.

Definition free_x86 (s : Mm) (pml4_phys : Z) : Mm :=
  match walk_table pml4_phys with
  | None => s
  | Some pml4 => free_frame (free_table free_pml4e 256 s pml4) pml4_phys
  end.

(** ** The public API *)

Definition pml4_root_walkable (pml4_phys : Z) : bool :=
  negb (pml4_phys =? 0) && (pml4_phys <? PHYS_LIMIT).

Definition map_user_page (s : Mm) (pml4_phys virt phys : Z) : outcome (Mm * result unit) :=
  map_page_in s pml4_phys virt phys (Z.lor (Z.lor (Z.lor PRESENT WRITABLE) USER) NO_EXECUTE).

Definition map_user_page_with_flags (s : Mm) (pml4_phys virt phys : Z) (writable exec : bool)
    : outcome (Mm * result unit) :=
  map_page_in s pml4_phys virt phys (leaf_flags writable exec).

Definition translate_user_page (s : Mm) (pml4_phys virt : Z) : option Z :=
  if negb (pml4_root_walkable pml4_phys) then None else translate_x86 s pml4_phys virt.

Definition translate_user_page_flags (s : Mm) (pml4_phys virt : Z) : option (Z * bool * bool) :=
  if negb (pml4_root_walkable pml4_phys) then None else translate_flags_x86 s pml4_phys virt.

Definition free_user_pml4 (s : Mm) (pml4_phys : Z) : Mm :=
  if negb (pml4_root_walkable pml4_phys) then s else free_x86 s pml4_phys.

Definition update_user_page (s : Mm) (pml4_phys virt : Z) (writable exec : bool) :=
  update_x86 s pml4_phys virt writable exec.

Definition unmap_user_page (s : Mm) (pml4_phys virt : Z) : outcome (Mm * result Z) :=
  if negb (pml4_root_walkable pml4_phys) then Val (s, Err "dead/null pml4")
  else unmap_x86 s pml4_phys virt.

(** [virt & !0xFFF] on [u64]. *)
Definition page_floor (virt : Z) : Z := Z.ldiff virt 0xFFF.

Definition unmap_user_range (s : Mm) (pml4_phys start_va size : Z) : outcome Mm :=
  if negb (pml4_root_walkable pml4_phys) then Val s
  else if size =? 0 then Val s
  else
    let start := page_floor start_va in
    let end_ := page_floor (u64 (start_va + size + 4095)) in
    let pages := Z.to_nat ((end_ - start + 4095) / 4096) in
    for_range 0 pages (λ i s',
      let! r := unmap_user_page s' pml4_phys (start + Z.of_nat i * 4096) in
      match r with
      | (s1, Ok phys) => Val (free_frame s1 phys)
      | (s1, Err _) => Val s1
      end) s.

(** The pager: [true] when the fault is resolved. *)
Definition demand_page (s : Mm) (cr2 error : Z) : outcome (Mm * bool) :=
  if negb (Z.land error 1 =? 0) then Val (s, false)
  else
    let cr3_phys := Z.land (cr3 s) 0x000ffffffffff000 in
    let page_va := page_floor cr2 in
    match translate_user_page s cr3_phys page_va with
    | Some _ => Val (invlpg s page_va, true)
    | None =>
        let target :=
          if (0x100000000 <=? page_va) && (page_va <? 0x300000000)
          then translate_user_page_flags s cr3_phys (page_va - 0x100000000) else None in
        match target with
        | Some (phys, writable, exec) =>
            let! r := map_user_page_with_flags s cr3_phys page_va phys writable exec in
            match r with
            | (s1, Ok _) => Val (s1, true)
            | (s1, Err _) => Val (s1, false)
            end
        | None =>
            if (0x300000000 <=? page_va) && (page_va <? 0x10000000000) then
              let '(s1, frame_opt) := alloc_frame s in
              match frame_opt with
              | Some phys =>
                  let! r := map_user_page_with_flags (zero_page s1 phys) cr3_phys page_va phys true true in
                  match r with
                  | (s2, Ok _) => Val (s2, true)
                  | (s2, Err _) => Val (free_frame s2 phys, false)
                  end
              | None => Val (s1, false)
              end
            else Val (s, false)
        end
    end.

(** ** Addresses and entries *)

Lemma index_range l va : 0 ≤ index l va < 512.
Proof.
  unfold index. change 0x1ff with (Z.ones 9). rewrite Z.land_ones by lia.
  apply Z.mod_pos_bound. lia.
Qed.

Lemma index_val l va : index l va = (va / 4096 / 512 ^ Z.of_nat l) mod 512.
Proof.
  unfold index. change 0x1ff with (Z.ones 9). rewrite Z.land_ones by lia.
  rewrite Z.shiftr_div_pow2 by lia. rewrite Z.pow_add_r, Z.pow_mul_r by lia.
  by rewrite <- Z.div_div by lia.
Qed.

(** Two user addresses with the same four indices are on the same page. *)
Lemma index_page va1 va2 :
  0 ≤ va1 < 2 ^ 48 → 0 ≤ va2 < 2 ^ 48 → (∀ l, (l ≤ 3)%nat → index l va1 = index l va2) →
  va1 / 4096 = va2 / 4096.
Proof.
  intros H1 H2 Hl.
  assert (∀ va, 0 ≤ va < 2 ^ 48 →
    va / 4096 = index 0 va + 512 * (index 1 va + 512 * (index 2 va + 512 * index 3 va))) as Hs.
  { intros va Hva. rewrite !index_val. set (v := va / 4096).
    assert (0 ≤ v < 2 ^ 36) as Hv
      by (unfold v; split; [apply Z.div_pos|apply Z.div_lt_upper_bound]; lia).
    change (512 ^ Z.of_nat 0) with 1. change (512 ^ Z.of_nat 1) with 512.
    change (512 ^ Z.of_nat 2) with (512 * 512). change (512 ^ Z.of_nat 3) with (512 * 512 * 512).
    rewrite Z.div_1_r, <- !Z.div_div by lia.
    pose proof (Z.div_mod v 512). pose proof (Z.div_mod (v / 512) 512).
    pose proof (Z.div_mod (v / 512 / 512) 512).
    assert (0 ≤ v / 512 / 512 / 512 < 512) as Hq.
    { rewrite !Z.div_div by lia. split; [apply Z.div_pos; lia|apply Z.div_lt_upper_bound; lia]. }
    rewrite (Z.mod_small (v / 512 / 512 / 512)) by done. lia. }
  rewrite (Hs va1 H1), (Hs va2 H2). rewrite !Hl by lia. done.
Qed.

Lemma present_testbit e : present e = Z.testbit e 0.
Proof.
  unfold present, PRESENT. change (Z.shiftl 1 0) with (Z.ones 1). rewrite Z.land_ones by lia.
  change (2 ^ 1) with 2. rewrite Zmod_odd, Z.bit0_odd. by destruct (Z.odd e).
Qed.

Lemma present_lor a f : Z.testbit f 0 = true → present (Z.lor a f) = true.
Proof. intros H. by rewrite present_testbit, Z.lor_spec, H, orb_true_r. Qed.

Lemma present_0 : present 0 = false.
Proof. done. Qed.

Lemma mask_aligned t : t mod 4096 = 0 → 0 ≤ t < 2 ^ 52 → Z.land t PHYS_MASK = t.
Proof.
  intros Ha Ht. change PHYS_MASK with (Z.shiftl (Z.ones 40) 12).
  assert (t = Z.shiftl (t / 4096) 12) as E.
  { rewrite Z.shiftl_mul_pow2 by lia. change (2 ^ 12) with 4096.
    pose proof (Z.div_mod t 4096). lia. }
  rewrite E at 1. rewrite <- Z.shiftl_land, Z.land_ones by lia. rewrite Z.mod_small; [done|].
  split; [apply Z.div_pos; lia|apply Z.div_lt_upper_bound; lia].
Qed.

Lemma land_mask_idem a : Z.land (Z.land a PHYS_MASK) PHYS_MASK = Z.land a PHYS_MASK.
Proof. by rewrite <- Z.land_assoc, Z.land_diag. Qed.

(** The address part of an entry built from a masked address and attributes. *)
Lemma entry_phys a f :
  Z.land f PHYS_MASK = 0 → Z.land (Z.lor (Z.land a PHYS_MASK) f) PHYS_MASK = Z.land a PHYS_MASK.
Proof. intros Hf. by rewrite Z.land_lor_distr_l, Hf, Z.lor_0_r, land_mask_idem. Qed.

Lemma leaf_flags_ok w x :
  Z.land (leaf_flags w x) PHYS_MASK = 0 ∧ Z.testbit (leaf_flags w x) 0 = true.
Proof. by destruct w, x. Qed.

(** A table: a page-aligned frame of physical memory. *)
Record is_table (t : Z) : Prop := mkIsTable {
  it_aligned : t mod 4096 = 0;
  it_range : 0 < t < PHYS_LIMIT
}.

(** Two pages that share an address are one page. *)
Lemma page_unique t1 t2 a :
  is_table t1 → is_table t2 → t1 ≤ a < t1 + 4096 → t2 ≤ a < t2 + 4096 → t1 = t2.
Proof.
  intros [A1 _] [A2 _] H1 H2.
  pose proof (Z.div_mod t1 4096). pose proof (Z.div_mod t2 4096).
  assert (t1 / 4096 = t2 / 4096) as Hq; [|lia].
  destruct (Z.lt_trichotomy (t1 / 4096) (t2 / 4096)) as [|[|]]; lia.
Qed.

Lemma slot_inj t1 t2 i1 i2 :
  is_table t1 → is_table t2 → 0 ≤ i1 < 512 → 0 ≤ i2 < 512 →
  slot t1 i1 = slot t2 i2 → t1 = t2 ∧ i1 = i2.
Proof.
  intros T1 T2 H1 H2 E. unfold slot in E.
  assert (t1 = t2) as ->; [|lia]. apply (page_unique t1 t2 (t1 + 8 * i1)); try done; lia.
Qed.

Lemma slot_page t1 t2 i :
  is_table t1 → is_table t2 → 0 ≤ i < 512 →
  (t2 <=? slot t1 i) && (slot t1 i <? t2 + PAGE_SIZE) = true → t1 = t2.
Proof.
  intros H1 H2 Hi H. unfold slot, PAGE_SIZE in H. unbool.
  apply (page_unique t1 t2 (t1 + 8 * i)); try done; lia.
Qed.

Lemma table_entry t f :
  is_table t → Z.land f PHYS_MASK = 0 → Z.land (Z.lor t f) PHYS_MASK = t.
Proof.
  intros [Ha Hr] Hf. unfold PHYS_LIMIT in Hr.
  rewrite <- (mask_aligned t) at 1 by lia. rewrite entry_phys by done. apply mask_aligned; lia.
Qed.

Lemma table_virt t : is_table t → phys_to_virt t = Val t.
Proof. intros [_ H]. unfold phys_to_virt. by rewrite (proj2 (Z.leb_gt _ _)) by lia. Qed.

Lemma table_walk t : is_table t → walk_table t = Some t.
Proof.
  intros [_ H]. unfold walk_table. rewrite (proj2 (Z.eqb_neq _ _)), (proj2 (Z.leb_gt _ _)) by lia.
  done.
Qed.

(** ** The walks as recursions over the level *)

(** The last-level table on the way of [va] from table [t] of level [l]. *)
Fixpoint last_table (m : Z → Z) (l : nat) (t va : Z) : option Z :=
  match l with
  | O => Some t
  | S l' =>
      let e := m (slot t (index l va)) in
      if present e then last_table m l' (Z.land e PHYS_MASK) va else None
  end.

(** The page-table entry of [va], when it is present. *)
Definition leaf (m : Z → Z) (l : nat) (t va : Z) : option Z :=
  pt ← last_table m l t va;
  let pte := m (slot pt (index 0 va)) in
  if present pte then Some pte else None.

(** The tables of a system: [lvl] gives the level of each table frame, [par]
    the slot that refers to it.  Only the lower half of a root belongs to the
    address space; the upper half is the kernel's and shared. *)
Definition slots_of (l : nat) : Z := if (l =? 3)%nat then 256 else 512.

Record tables_ok (m : Z → Z) (ws : list Z) (lvl : gmap Z nat) (par : gmap Z (Z * Z)) : Prop :=
  mkTablesOk {
    tk_wf : FrameAlloc.wf ws;
    tk_table t l : lvl !! t = Some l →
      (l ≤ 3)%nat ∧ is_table t ∧ t / 4096 < FrameAlloc.MAX_FRAMES ∧
      FrameAlloc.is_free ws (t / 4096) = false;
    tk_child t l i : lvl !! t = Some (S l) → 0 ≤ i < slots_of (S l) →
      present (m (slot t i)) = true →
      ∃ c, m (slot t i) = Z.lor c user_flags ∧ lvl !! c = Some l ∧ par !! c = Some (t, i)
  }.

Definition user (va : Z) : Prop := 0 ≤ va < 2 ^ 47.

Lemma user_index l va : (l ≤ 3)%nat → user va → 0 ≤ index l va < slots_of l.
Proof.
  intros Hl Hva. pose proof (index_range l va). unfold slots_of.
  destruct (Nat.eqb_spec l 3) as [->|]; [|lia].
  split; [lia|]. rewrite index_val. change (512 ^ Z.of_nat 3) with (512 * 512 * 512).
  unfold user in Hva. rewrite Z.mod_small; rewrite Z.div_div by lia;
    try (split; [apply Z.div_pos; lia|]); apply Z.div_lt_upper_bound; lia.
Qed.

Lemma slots_le l : slots_of l ≤ 512.
Proof. unfold slots_of. by destruct (l =? 3)%nat. Qed.

Section tables.
Context {m : Z → Z} {ws : list Z} {lvl : gmap Z nat} {par : gmap Z (Z * Z)}.
Context (Hok : tables_ok m ws lvl par).

Lemma tk_is_table t l : lvl !! t = Some l → is_table t.
Proof. intros H. by destruct (tk_table _ _ _ _ Hok t l H) as (_ & ? & _). Qed.

Lemma tk_level t l : lvl !! t = Some l → (l ≤ 3)%nat.
Proof. intros H. by destruct (tk_table _ _ _ _ Hok t l H) as (? & _). Qed.

(** The entry on the way of a user address: absent, or a child table. *)
Lemma tk_walk t l va :
  lvl !! t = Some (S l) → user va → present (m (slot t (index (S l) va))) = true →
  ∃ c, m (slot t (index (S l) va)) = Z.lor c user_flags ∧
    Z.land (m (slot t (index (S l) va))) PHYS_MASK = c ∧
    lvl !! c = Some l ∧ par !! c = Some (t, index (S l) va).
Proof.
  intros Ht Hva Hp. pose proof (tk_level _ _ Ht).
  destruct (tk_child _ _ _ _ Hok t l _ Ht (user_index (S l) va ltac:(lia) Hva) Hp)
    as (c & E & Hl & Hc).
  exists c. split_and!; try done. rewrite E. apply table_entry; [|done]. by eapply tk_is_table.
Qed.

Lemma last_table_level l t va pt :
  lvl !! t = Some l → user va → last_table m l t va = Some pt → lvl !! pt = Some O.
Proof.
  revert t. induction l as [|l IH]; intros t Ht Hva H; cbn [last_table] in H.
  { by simplify_eq. }
  destruct (present _) eqn:Hp; [|done].
  destruct (tk_walk t l va Ht Hva Hp) as (c & _ & Ec & Hc & _). rewrite Ec in H. by eapply IH.
Qed.

(** A last-level table is on the way of one root and one triple of indices. *)
Lemma last_table_inj l t1 t2 va1 va2 pt :
  lvl !! t1 = Some l → lvl !! t2 = Some l → user va1 → user va2 →
  last_table m l t1 va1 = Some pt → last_table m l t2 va2 = Some pt →
  t1 = t2 ∧ ∀ j, (1 ≤ j ≤ l)%nat → index j va1 = index j va2.
Proof.
  revert t1 t2. induction l as [|l IH]; intros t1 t2 H1 H2 U1 U2 L1 L2; cbn [last_table] in L1, L2.
  { simplify_eq. split; [done|lia]. }
  destruct (present (m (slot t1 _))) eqn:P1; [|done].
  destruct (present (m (slot t2 _))) eqn:P2; [|done].
  destruct (tk_walk t1 l va1 H1 U1 P1) as (c1 & _ & E1 & Hc1 & Hp1). rewrite E1 in L1.
  destruct (tk_walk t2 l va2 H2 U2 P2) as (c2 & _ & E2 & Hc2 & Hp2). rewrite E2 in L2.
  destruct (IH c1 c2 Hc1 Hc2 U1 U2 L1 L2) as [-> Hj].
  rewrite Hp1 in Hp2. simplify_eq. split; [done|]. intros j Hjl.
  destruct (decide (j = S l)) as [->|]; [done|]. apply Hj. lia.
Qed.

(** Memory that keeps the entries of the tables keeps the leaves. *)
Lemma leaf_agree m' l t va :
  (∀ t l i, lvl !! t = Some l → 0 ≤ i < slots_of l → m' (slot t i) = m (slot t i)) →
  lvl !! t = Some l → user va → leaf m' l t va = leaf m l t va.
Proof.
  intros Hm. revert t. induction l as [|l IH]; intros t Ht Hva.
  - unfold leaf. cbn. rewrite (Hm t O); [done..|]. apply user_index; [lia|done].
  - unfold leaf. cbn [last_table]. pose proof (tk_level _ _ Ht).
    rewrite (Hm t (S l)) by (try apply user_index; done || lia).
    destruct (present _) eqn:Hp; [|done].
    destruct (tk_walk t l va Ht Hva Hp) as (c & _ & -> & Hc & _). by apply IH.
Qed.
End tables.

(** ** Growing the forest *)

(** [s'] has the tables of [s] and more: non-leaf entries that were present and
    all leaf entries are kept, and so is what every address maps to. *)
Record grown (s : Mm) (lvl : gmap Z nat) (s' : Mm) (lvl' : gmap Z nat) (par' : gmap Z (Z * Z))
    : Prop := mkGrown {
  g_ok : tables_ok (mem s') (FrameAlloc.bits (frames s')) lvl' par';
  g_sub : lvl ⊆ lvl';
  g_new t l : lvl' !! t = Some l → lvl !! t = None →
    (l < 3)%nat ∧ FrameAlloc.is_free (FrameAlloc.bits (frames s)) (t / 4096) = true;
  g_mono f : FrameAlloc.frame_ok f → FrameAlloc.is_free (FrameAlloc.bits (frames s')) f = true →
    FrameAlloc.is_free (FrameAlloc.bits (frames s)) f = true;
  g_frame n a : is_table n → lvl' !! n = None → n ≤ a < n + 4096 → mem s' a = mem s a;
  g_keep t l i : lvl !! t = Some l → 0 ≤ i < slots_of l → present (mem s (slot t i)) = true →
    mem s' (slot t i) = mem s (slot t i);
  g_leaf l t va : lvl !! t = Some l → user va → leaf (mem s') l t va = leaf (mem s) l t va;
  g_cr3 : cr3 s' = cr3 s
}.

Lemma table_frame_ok m ws lvl par t l :
  tables_ok m ws lvl par → lvl !! t = Some l → FrameAlloc.frame_ok (t / 4096).
Proof.
  intros Hok Ht. destruct (tk_table _ _ _ _ Hok t l Ht) as (_ & [_ Hr] & Hm & _).
  split; [apply Z.div_pos; lia|done].
Qed.

Lemma grown_refl s lvl par :
  tables_ok (mem s) (FrameAlloc.bits (frames s)) lvl par → grown s lvl s lvl par.
Proof. intros H. split; try done. congruence. Qed.

Lemma grown_trans s lvl s1 lvl1 par1 s2 lvl2 par2 :
  grown s lvl s1 lvl1 par1 → grown s1 lvl1 s2 lvl2 par2 → grown s lvl s2 lvl2 par2.
Proof.
  intros G1 G2. split.
  - apply G2.
  - etrans; [apply G1|apply G2].
  - intros t l Ht Hn. destruct (lvl1 !! t) as [l1|] eqn:E.
    + pose proof (lookup_weaken _ _ _ _ E (g_sub _ _ _ _ _ G2)). simplify_eq.
      by eapply (g_new _ _ _ _ _ G1).
    + destruct (g_new _ _ _ _ _ G2 t l Ht E) as [? Hf]. split; [done|].
      apply (g_mono _ _ _ _ _ G1); [|done]. by eapply table_frame_ok; [apply G2|].
  - intros f Hf H. by apply (g_mono _ _ _ _ _ G1), (g_mono _ _ _ _ _ G2).
  - intros n a Hn Hl Ha. rewrite (g_frame _ _ _ _ _ G2 n) by done.
    apply (g_frame _ _ _ _ _ G1 n); try done. by eapply lookup_weaken_None, (g_sub _ _ _ _ _ G2).
  - intros t l i Ht Hi Hp. pose proof (lookup_weaken _ _ _ _ Ht (g_sub _ _ _ _ _ G1)) as Ht1.
    pose proof (g_keep _ _ _ _ _ G1 t l i Ht Hi Hp) as E1.
    rewrite <- E1. eapply (g_keep _ _ _ _ _ G2); [done..|by rewrite E1].
  - intros l t va Ht Hva. pose proof (lookup_weaken _ _ _ _ Ht (g_sub _ _ _ _ _ G1)) as Ht1.
    rewrite (g_leaf _ _ _ _ _ G2) by done. by apply (g_leaf _ _ _ _ _ G1).
  - rewrite (g_cr3 _ _ _ _ _ G2). apply G1.
Qed.

Lemma frame_is_table f :
  FrameAlloc.MIN_ALLOC_FRAME ≤ f < FrameAlloc.MAX_FRAMES →
  is_table (f * FrameAlloc.FRAME_SIZE) ∧ f * FrameAlloc.FRAME_SIZE / 4096 = f.
Proof.
  rewrite FrameAlloc.min_frame_val, FrameAlloc.max_frames_val. unfold FrameAlloc.FRAME_SIZE.
  intros Hf. split; [split|apply Z.div_mul; lia]; [apply Z.mod_mul; lia|unfold PHYS_LIMIT; lia].
Qed.

(** No frame is left for [alloc]. *)
Definition exhausted (s : Mm) : Prop :=
  ∀ g, FrameAlloc.MIN_ALLOC_FRAME ≤ g < FrameAlloc.MAX_FRAMES →
    FrameAlloc.is_free (FrameAlloc.bits (frames s)) g = false.

(** Taking a frame: it was free, is no longer, and nothing else changes. *)
Lemma alloc_frame_spec s :
  FrameAlloc.wf (FrameAlloc.bits (frames s)) →
  match alloc_frame s with
  | (s', None) => s' = s ∧ exhausted s
  | (s', Some n) =>
      is_table n ∧ n / 4096 < FrameAlloc.MAX_FRAMES ∧
      FrameAlloc.is_free (FrameAlloc.bits (frames s)) (n / 4096) = true ∧
      mem s' = mem s ∧ cr3 s' = cr3 s ∧ flushed s' = flushed s ∧
      FrameAlloc.bits (frames s') = FrameAlloc.clear_bit (FrameAlloc.bits (frames s)) (n / 4096)
  end.
Proof.
  intros Hw. unfold alloc_frame. pose proof (FrameAlloc.alloc_spec _ Hw) as H.
  destruct (FrameAlloc.alloc (frames s)) as [bm' [n|]].
  - destruct H as (f & -> & Hf & Hfree & _ & ->).
    destruct (frame_is_table f Hf) as [Ht ->]. split_and!; try done. lia.
  - destruct H as [-> H]. split; [by destruct s|done].
Qed.

(** A table's frame is in use, so a frame that was free is not a table. *)
Lemma fresh_not_table m ws lvl par n :
  tables_ok m ws lvl par → FrameAlloc.is_free ws (n / 4096) = true → lvl !! n = None.
Proof.
  intros Hok Hf. destruct (lvl !! n) as [l|] eqn:E; [|done].
  destruct (tk_table _ _ _ _ Hok n l E) as (_ & _ & _ & H). congruence.
Qed.

Lemma used_clear ws f h :
  FrameAlloc.wf ws → FrameAlloc.frame_ok f → FrameAlloc.frame_ok h →
  FrameAlloc.is_free ws h = false → FrameAlloc.is_free (FrameAlloc.clear_bit ws f) h = false.
Proof. intros. rewrite FrameAlloc.is_free_clear by done. by rewrite H2, andb_false_r. Qed.

Lemma empty_leaf m l t va : m (slot t (index l va)) = 0 → leaf m l t va = None.
Proof. intros E. unfold leaf. destruct l as [|l]; cbn; by rewrite E. Qed.

(** Adding an empty table [n] of level [l], referred to from at most one slot
    of the tables there were, which was not present. *)
Section add_table.
Context {m : Z → Z} {ws : list Z} {lvl : gmap Z nat} {par : gmap Z (Z * Z)}.
Context (Hok : tables_ok m ws lvl par).
Context (n : Z) (l : nat) (p : Z * Z) (m' : Z → Z).
Context (Hn : is_table n) (Hmax : n / 4096 < FrameAlloc.MAX_FRAMES).
Context (Hfree : FrameAlloc.is_free ws (n / 4096) = true) (Hl : (l ≤ 3)%nat).
Context (Hzero : ∀ i, 0 ≤ i < slots_of l → m' (slot n i) = 0).
Context (Hrest : ∀ t k i, lvl !! t = Some k → 0 ≤ i < slots_of k →
  m' (slot t i) = m (slot t i) ∨
  (k = S l ∧ p = (t, i) ∧ m' (slot t i) = Z.lor n user_flags ∧ present (m (slot t i)) = false)).

Lemma add_table_fresh : lvl !! n = None.
Proof. by eapply fresh_not_table. Qed.

Lemma add_table_ok :
  tables_ok m' (FrameAlloc.clear_bit ws (n / 4096)) (<[n:=l]> lvl) (<[n:=p]> par).
Proof.
  pose proof add_table_fresh as Hfr. pose proof (tk_wf _ _ _ _ Hok) as Hw.
  assert (FrameAlloc.frame_ok (n / 4096)) as Hfn
    by (split; [apply Z.div_pos; destruct Hn; lia|done]).
  split.
  - by apply FrameAlloc.wf_clear.
  - intros t k Ht. destruct (decide (t = n)) as [->|Hne].
    + rewrite lookup_insert_eq in Ht. simplify_eq. split_and!; try done.
      rewrite FrameAlloc.is_free_clear by done. by rewrite Z.eqb_refl.
    + rewrite lookup_insert_ne in Ht by done.
      destruct (tk_table _ _ _ _ Hok t k Ht) as (? & ? & ? & Hu). split_and!; try done.
      apply used_clear; try done. by eapply table_frame_ok.
  - intros t k i Ht Hi Hp. destruct (decide (t = n)) as [->|Hne].
    { rewrite lookup_insert_eq in Ht. simplify_eq. by rewrite Hzero in Hp. }
    rewrite lookup_insert_ne in Ht by done.
    destruct (Hrest t (S k) i Ht Hi) as [E|(Ek & -> & E & _)]; rewrite E in Hp |- *.
    + destruct (tk_child _ _ _ _ Hok t k i Ht Hi Hp) as (c & Ec & Hc & Hpc).
      assert (c ≠ n) as Hcn by congruence.
      exists c. by rewrite !lookup_insert_ne.
    + simplify_eq. exists n. by rewrite !lookup_insert_eq.
Qed.

Lemma add_table_empty va : user va → leaf m' l n va = None.
Proof. intros Hva. by apply empty_leaf, Hzero, user_index. Qed.

Lemma add_table_leaf k t va :
  lvl !! t = Some k → user va → leaf m' k t va = leaf m k t va.
Proof.
  revert t. induction k as [|k IH]; intros t Ht Hva.
  - pose proof (user_index 0 va ltac:(lia) Hva) as Hi. unfold leaf. cbn.
    by destruct (Hrest t O _ Ht Hi) as [->|(? & _)].
  - pose proof (tk_level Hok _ _ Ht) as Hk.
    pose proof (user_index (S k) va Hk Hva) as Hi. unfold leaf. cbn [last_table].
    destruct (Hrest t (S k) _ Ht Hi) as [->|(Ek & _ & -> & ->)].
    + destruct (present _) eqn:Hp; [|done].
      destruct (tk_walk Hok t k va Ht Hva Hp) as (c & _ & -> & Hc & _). by apply IH.
    + assert (k = l) as -> by lia. rewrite present_lor, table_entry by done.
      by apply add_table_empty.
Qed.
End add_table.

(** ** One level of [map_page_in] *)

Lemma zero_page_other s phys t i :
  is_table phys → is_table t → 0 ≤ i < 512 → t ≠ phys →
  mem (zero_page s phys) (slot t i) = mem s (slot t i).
Proof.
  intros Hp Ht Hi Hne. cbn. destruct (_ && _) eqn:E; [|done].
  exfalso. by apply Hne, (slot_page t phys i).
Qed.

Lemma zero_page_own s phys i : 0 ≤ i < 512 → mem (zero_page s phys) (slot phys i) = 0.
Proof.
  intros Hi. cbn. unfold slot, PAGE_SIZE.
  by rewrite (proj2 (Z.leb_le _ _)), (proj2 (Z.ltb_lt _ _)) by lia.
Qed.

Lemma upd_eq m a v : upd m a v a = v.
Proof. unfold upd. by rewrite Z.eqb_refl. Qed.

Lemma upd_ne m a v b : b ≠ a → upd m a v b = m b.
Proof. intros H. unfold upd. by rewrite (proj2 (Z.eqb_neq _ _)). Qed.

(** The memory after a fresh table [n] was zeroed and entered in a slot. *)
Lemma fresh_entry_mem s s1 lvl par n t l i0 :
  tables_ok (mem s) (FrameAlloc.bits (frames s)) lvl par → mem s1 = mem s →
  is_table n → lvl !! n = None → lvl !! t = Some (S l) → 0 ≤ i0 < slots_of (S l) →
  present (mem s (slot t i0)) = false →
  let s' := write (zero_page s1 n) (slot t i0) (Z.lor n user_flags) in
  (∀ i, 0 ≤ i < slots_of l → mem s' (slot n i) = 0) ∧
  (∀ t' k i, lvl !! t' = Some k → 0 ≤ i < slots_of k →
    mem s' (slot t' i) = mem s (slot t' i) ∨
    (k = S l ∧ (t, i0) = (t', i) ∧ mem s' (slot t' i) = Z.lor n user_flags ∧
     present (mem s (slot t' i)) = false)).
Proof.
  intros Hok Em Hn Hfr Ht Hi Hp s'. pose proof (tk_is_table Hok _ _ Ht) as Htt.
  pose proof (slots_le (S l)). assert (t ≠ n) as Htn by congruence. split.
  - intros i Hi'. pose proof (slots_le l). cbn [s' write mem]. rewrite upd_ne.
    + apply zero_page_own. lia.
    + intros E. by destruct (slot_inj n t i i0 Hn Htt ltac:(lia) ltac:(lia) E).
  - intros t' k i Ht' Hi'. pose proof (slots_le k). pose proof (tk_is_table Hok _ _ Ht') as Htt'.
    cbn [s' write mem]. destruct (decide (slot t' i = slot t i0)) as [E|Hne].
    + destruct (slot_inj t' t i i0 Htt' Htt ltac:(lia) ltac:(lia) E) as [-> ->]. right.
      rewrite Ht in Ht'. simplify_eq. by rewrite upd_eq.
    + left. rewrite upd_ne by done. rewrite zero_page_other by (congruence || lia || done).
      by rewrite Em.
Qed.

Lemma fresh_entry_frame s1 n t i v n' a :
  is_table t → is_table n → is_table n' → 0 ≤ i < 512 → n' ≠ n → n' ≠ t → n' ≤ a < n' + 4096 →
  mem (write (zero_page s1 n) (slot t i) v) a = mem s1 a.
Proof.
  intros Ht Hn Hn' Hi Hne Hnt Ha. cbn [write zero_page mem]. unfold PAGE_SIZE. rewrite upd_ne.
  - destruct (_ && _) eqn:E; [|done]. unbool. exfalso. apply Hne.
    apply (page_unique n' n a); done || lia.
  - intros ->. apply Hnt, (page_unique n' t (slot t i)); try done. unfold slot. lia.
Qed.

Lemma ensure_step s lvl par t l va :
  tables_ok (mem s) (FrameAlloc.bits (frames s)) lvl par → lvl !! t = Some (S l) → user va →
  ∃ s' o lvl' par',
    ensure_next_table_flags s (slot t (index (S l) va)) user_flags = Val (s', o) ∧
    grown s lvl s' lvl' par' ∧
    match o with
    | None => exhausted s'
    | Some n => lvl' !! n = Some l ∧ mem s' (slot t (index (S l) va)) = Z.lor n user_flags
    end.
Proof.
  intros Hok Ht Hva. unfold ensure_next_table_flags.
  destruct (present (mem s (slot t (index (S l) va)))) eqn:Hp.
  { destruct (tk_walk Hok t l va Ht Hva Hp) as (c & E & Ec & Hc & _).
    exists s, (Some c), lvl, par. rewrite Ec. split; [done|]. split; [by apply grown_refl|done]. }
  unfold alloc_page_table. pose proof (alloc_frame_spec s (tk_wf _ _ _ _ Hok)) as H.
  destruct (alloc_frame s) as [s1 [n|]]; cbn [obind].
  2: { destruct H as [-> H]. exists s, None, lvl, par. split; [done|]. by split; [apply grown_refl|]. }
  destruct H as (Hn & Hmax & Hfree & Em & Ec & _ & Eb). rewrite (table_virt n Hn). cbn [obind].
  pose proof (tk_level Hok _ _ Ht) as Hl. pose proof (user_index (S l) va Hl Hva) as Hi.
  pose proof (fresh_not_table _ _ _ _ n Hok Hfree) as Hfr.
  destruct (fresh_entry_mem s s1 lvl par n t l _ Hok Em Hn Hfr Ht Hi Hp) as [Hz Hr].
  set (s' := write (zero_page s1 n) (slot t (index (S l) va)) (Z.lor n user_flags)) in *.
  exists s', (Some n), (<[n:=l]> lvl), (<[n:=(t, index (S l) va)]> par). split; [done|].
  split; [split|].
  - cbn [s' write zero_page frames]. rewrite Eb. eapply add_table_ok; [done..|lia|done|done].
  - by apply insert_subseteq.
  - intros t' k Ht' Hn'. destruct (decide (t' = n)) as [->|].
    + rewrite lookup_insert_eq in Ht'. simplify_eq. split; [lia|done].
    + rewrite lookup_insert_ne in Ht' by done. congruence.
  - intros f Hf. cbn [s' write zero_page frames]. rewrite Eb, FrameAlloc.is_free_clear; try done.
    + intros H. by apply andb_true_iff in H as [_ H].
    + apply Hok.
    + split; [apply Z.div_pos; destruct Hn; lia|done].
  - intros n' a Hn' Hl' Ha. apply lookup_insert_None in Hl' as [Hl' Hne].
    rewrite <- Em. apply (fresh_entry_frame s1 n t _ _ n'); try done.
    + by eapply (tk_is_table Hok).
    + apply index_range.
    + intros ->. congruence.
  - intros t' k i Ht' Hi' Hp'. destruct (Hr t' k i Ht' Hi') as [|(_ & _ & _ & ?)]; congruence.
  - intros k t' va' Ht' Hva'. eapply (add_table_leaf Hok n l); [done..|lia|done|done|done|done].
  - done.
  - split; [apply lookup_insert_eq|]. cbn. apply upd_eq.
Qed.

(** ** Writing a page-table entry *)

Lemma index_same_page l va va' : va / 4096 = va' / 4096 → index l va = index l va'.
Proof. intros H. by rewrite !index_val, H. Qed.

Lemma user_page_eq va va' : user va → user va' →
  (∀ l, (l ≤ 3)%nat → index l va = index l va') → va / 4096 = va' / 4096.
Proof. unfold user. intros H1 H2 H. apply index_page; [lia..|done]. Qed.

Section set_leaf.
Context {m : Z → Z} {ws : list Z} {lvl : gmap Z nat} {par : gmap Z (Z * Z)}.
Context (Hok : tables_ok m ws lvl par).
Context (r va pt v : Z) (Hr : lvl !! r = Some 3%nat) (Hva : user va).
Context (Hpt : last_table m 3 r va = Some pt).
Let m' : Z → Z := upd m (slot pt (index 0 va)) v.

Lemma set_leaf_inner t l i :
  lvl !! t = Some (S l) → 0 ≤ i < slots_of (S l) → m' (slot t i) = m (slot t i).
Proof.
  intros Ht Hi. apply upd_ne. intros E. pose proof (slots_le (S l)).
  pose proof (last_table_level Hok 3 r va pt Hr Hva Hpt) as H0.
  destruct (slot_inj t pt i (index 0 va)) as [-> _]; try done.
  - by eapply tk_is_table.
  - by eapply tk_is_table.
  - lia.
  - apply index_range.
  - congruence.
Qed.

Lemma set_leaf_ok : tables_ok m' ws lvl par.
Proof.
  split; [apply Hok|apply Hok|]. intros t l i Ht Hi Hp.
  rewrite (set_leaf_inner t l i Ht Hi) in Hp |- *. by apply (tk_child _ _ _ _ Hok).
Qed.

Lemma set_leaf_last l t va' :
  lvl !! t = Some l → user va' → last_table m' l t va' = last_table m l t va'.
Proof.
  revert t. induction l as [|l IH]; intros t Ht Hva'; [done|]. cbn [last_table].
  pose proof (tk_level Hok _ _ Ht) as Hl. rewrite (set_leaf_inner t l _ Ht (user_index _ _ Hl Hva')).
  destruct (present _) eqn:Hp; [|done].
  destruct (tk_walk Hok t l va' Ht Hva' Hp) as (c & _ & -> & Hc & _). by apply IH.
Qed.

Lemma set_leaf_at va' : user va' → va' / 4096 = va / 4096 →
  leaf m' 3 r va' = if present v then Some v else None.
Proof.
  intros Hva' E. assert (last_table m' 3 r va' = Some pt) as Hl.
  { rewrite set_leaf_last by done. rewrite <- Hpt. cbn [last_table].
    by rewrite !(index_same_page _ va' va E). }
  unfold leaf. rewrite Hl. cbn. rewrite (index_same_page _ va' va E). unfold m'. by rewrite upd_eq.
Qed.

Lemma set_leaf_other r' va' : lvl !! r' = Some 3%nat → user va' →
  r' ≠ r ∨ va' / 4096 ≠ va / 4096 → leaf m' 3 r' va' = leaf m 3 r' va'.
Proof.
  intros Hr' Hva' Hne. unfold leaf. rewrite set_leaf_last by done.
  destruct (last_table m 3 r' va') as [pt'|] eqn:E; [|done]. cbn.
  unfold m'. rewrite upd_ne; [done|]. intros Es.
  pose proof (last_table_level Hok 3 r va pt Hr Hva Hpt) as H0.
  pose proof (last_table_level Hok 3 r' va' pt' Hr' Hva' E) as H1.
  destruct (slot_inj pt' pt (index 0 va') (index 0 va)) as [-> Hi];
    [by eapply tk_is_table|by eapply tk_is_table|apply index_range|apply index_range|done|].
  destruct (last_table_inj Hok 3 r' r va' va pt) as [-> Hj]; try done.
  destruct Hne as [|Hne]; [done|]. apply Hne, user_page_eq; [done..|].
  intros l Hl. destruct (decide (l = O)) as [->|]; [done|]. apply Hj. lia.
Qed.
End set_leaf.

(** The unrolled walks against [last_table]. *)
Section walks.
Context {s : Mm} {lvl : gmap Z nat} {par : gmap Z (Z * Z)}.
Context (Hok : tables_ok (mem s) (FrameAlloc.bits (frames s)) lvl par).
Context (r va : Z) (Hr : lvl !! r = Some 3%nat) (Hva : user va).

Lemma walk_pte_leaf : walk_pte s r va = leaf (mem s) 3 r va.
Proof.
  unfold walk_pte, leaf. cbn [last_table]. rewrite (table_walk _ (tk_is_table Hok _ _ Hr)). cbn.
  destruct (present (mem s (slot r _))) eqn:P3; [|done]. cbn.
  destruct (tk_walk Hok r 2 va Hr Hva P3) as (c & _ & -> & Hc & _).
  rewrite (table_walk _ (tk_is_table Hok _ _ Hc)). cbn.
  destruct (present (mem s (slot c _))) eqn:P2; [|done]. cbn.
  destruct (tk_walk Hok c 1 va Hc Hva P2) as (c1 & _ & -> & Hc1 & _).
  rewrite (table_walk _ (tk_is_table Hok _ _ Hc1)). cbn.
  destruct (present (mem s (slot c1 _))) eqn:P1; [|done]. cbn.
  destruct (tk_walk Hok c1 0 va Hc1 Hva P1) as (c0 & _ & -> & Hc0 & _).
  rewrite (table_walk _ (tk_is_table Hok _ _ Hc0)). cbn. by destruct (present (mem s (slot c0 _))).
Qed.

Lemma find_pte_leaf :
  find_pte s r va = Val
    match last_table (mem s) 3 r va with
    | Some pt => if present (mem s (slot pt (index 0 va))) then Ok (slot pt (index 0 va))
                 else Err "not present"
    | None => Err "not present"
    end.
Proof.
  unfold find_pte. cbn [last_table]. rewrite (table_virt _ (tk_is_table Hok _ _ Hr)). cbn.
  destruct (present (mem s (slot r _))) eqn:P3; [|done]. cbn.
  destruct (tk_walk Hok r 2 va Hr Hva P3) as (c & _ & -> & Hc & _).
  rewrite (table_virt _ (tk_is_table Hok _ _ Hc)). cbn.
  destruct (present (mem s (slot c _))) eqn:P2; [|done]. cbn.
  destruct (tk_walk Hok c 1 va Hc Hva P2) as (c1 & _ & -> & Hc1 & _).
  rewrite (table_virt _ (tk_is_table Hok _ _ Hc1)). cbn.
  destruct (present (mem s (slot c1 _))) eqn:P1; [|done]. cbn.
  destruct (tk_walk Hok c1 0 va Hc1 Hva P1) as (c0 & _ & -> & Hc0 & _).
  rewrite (table_virt _ (tk_is_table Hok _ _ Hc0)). cbn. by destruct (present (mem s (slot c0 _))).
Qed.

Lemma root_walkable : pml4_root_walkable r = true.
Proof.
  destruct (tk_is_table Hok r 3 Hr) as [_ H]. unfold pml4_root_walkable.
  by rewrite (proj2 (Z.eqb_neq _ _)), (proj2 (Z.ltb_lt _ _)) by lia.
Qed.
End walks.

(** ** The operations on the forest *)

(** [m'] maps the page of [va] under root [r] to entry [v], all else as [m]. *)
Definition leaf_set (m m' : Z → Z) (lvl : gmap Z nat) (r va v : Z) : Prop :=
  (∀ va', user va' → va' / 4096 = va / 4096 →
    leaf m' 3 r va' = if present v then Some v else None) ∧
  (∀ r' va', lvl !! r' = Some 3%nat → user va' → r' ≠ r ∨ va' / 4096 ≠ va / 4096 →
    leaf m' 3 r' va' = leaf m 3 r' va').

Lemma leaf_set_write m ws lvl par r va pt v :
  tables_ok m ws lvl par → lvl !! r = Some 3%nat → user va → last_table m 3 r va = Some pt →
  leaf_set m (upd m (slot pt (index 0 va)) v) lvl r va v.
Proof.
  intros Hok Hr Hva Hpt. split; intros.
  - by apply (set_leaf_at Hok).
  - by apply (set_leaf_other Hok r va pt v Hr Hva Hpt).
Qed.

Lemma entry_child t f : is_table t → Z.land f PHYS_MASK = 0 → Z.testbit f 0 = true →
  present (Z.lor t f) = true ∧ Z.land (Z.lor t f) PHYS_MASK = t.
Proof. intros. by rewrite present_lor, table_entry. Qed.

Lemma kept_entry s lvl s' lvl' par' t l va n :
  grown s lvl s' lvl' par' → lvl !! t = Some (S l) → (S l ≤ 3)%nat → user va →
  mem s (slot t (index (S l) va)) = Z.lor n user_flags →
  mem s' (slot t (index (S l) va)) = Z.lor n user_flags.
Proof.
  intros G Ht Hl Hva E. rewrite (g_keep _ _ _ _ _ G t (S l)); try done.
  - by apply user_index.
  - rewrite E. by apply present_lor.
Qed.

(** Frames are taken from the allocator and none is given back. *)
Definition only_takes (s s' : Mm) : Prop :=
  ∀ f, FrameAlloc.frame_ok f → FrameAlloc.is_free (FrameAlloc.bits (frames s')) f = true →
    FrameAlloc.is_free (FrameAlloc.bits (frames s)) f = true.

(** What [map_page_in] does, by its result. *)
Definition mapped (s : Mm) (lvl : gmap Z nat) (r va v : Z) (s' : Mm) (res : result unit) : Prop :=
  ∃ lvl' par', tables_ok (mem s') (FrameAlloc.bits (frames s')) lvl' par' ∧ lvl ⊆ lvl' ∧
    cr3 s' = cr3 s ∧ only_takes s s' ∧
    (∀ n a, is_table n → lvl !! n = None →
      FrameAlloc.is_free (FrameAlloc.bits (frames s)) (n / 4096) = false →
      n ≤ a < n + 4096 → lvl' !! n = None ∧ mem s' a = mem s a) ∧
    match res with
    | Err _ => exhausted s' ∧
        ∀ t va', lvl !! t = Some 3%nat → user va' → leaf (mem s') 3 t va' = leaf (mem s) 3 t va'
    | Ok _ => leaf_set (mem s) (mem s') lvl r va v
    end.

(** A frame in use that is no table keeps its contents. *)
Lemma grown_frame s lvl s' lvl' par' n a :
  grown s lvl s' lvl' par' → is_table n → lvl !! n = None →
  FrameAlloc.is_free (FrameAlloc.bits (frames s)) (n / 4096) = false →
  n ≤ a < n + 4096 → lvl' !! n = None ∧ mem s' a = mem s a.
Proof.
  intros G Hn Hl Hu Ha. assert (lvl' !! n = None) as Hl'.
  { destruct (lvl' !! n) as [l|] eqn:E; [|done].
    destruct (g_new _ _ _ _ _ G n l E Hl) as [_ ?]. congruence. }
  split; [done|]. by apply (g_frame _ _ _ _ _ G n).
Qed.

Lemma grown_oom s lvl s' lvl' par' r va v e :
  grown s lvl s' lvl' par' → exhausted s' → mapped s lvl r va v s' (Err e).
Proof.
  intros G He. exists lvl', par'.
  split_and!; [apply G|apply G|apply G|exact (g_mono _ _ _ _ _ G)| |done|apply G].
  intros n a Hn Hl Hu Ha. by apply (grown_frame _ _ _ _ _ n a G).
Qed.

Lemma grown_mapped s lvl s1 lvl1 par1 r va v pt :
  grown s lvl s1 lvl1 par1 → lvl !! r = Some 3%nat → user va →
  last_table (mem s1) 3 r va = Some pt →
  mapped s lvl r va v (write s1 (slot pt (index 0 va)) v) (Ok tt).
Proof.
  intros G Hr Hva Hpt. pose proof (lookup_weaken _ _ _ _ Hr (g_sub _ _ _ _ _ G)) as Hr1.
  exists lvl1, par1. split_and!; cbn [write mem frames cr3].
  - exact (set_leaf_ok (g_ok _ _ _ _ _ G) r va pt v Hr1 Hva Hpt).
  - apply G.
  - apply G.
  - exact (g_mono _ _ _ _ _ G).
  - intros n a Hn Hl Hu Ha. destruct (grown_frame _ _ _ _ _ n a G Hn Hl Hu Ha) as [Hl' <-].
    pose proof (last_table_level (g_ok _ _ _ _ _ G) 3 r va pt Hr1 Hva Hpt) as Hlp.
    split; [done|]. rewrite upd_ne; [done|]. intros ->. pose proof (index_range 0 va).
    assert (n = pt) as ->; [|congruence].
    apply (page_unique n pt (slot pt (index 0 va))); try done.
    + by eapply (tk_is_table (g_ok _ _ _ _ _ G)).
    + unfold slot. lia.
  - destruct (leaf_set_write _ _ _ _ r va pt v (g_ok _ _ _ _ _ G) Hr1 Hva Hpt) as [Ha Ho].
    split; [done|]. intros r' va' Hr' Hva' Hne.
    rewrite Ho by (try done; by eapply lookup_weaken, (g_sub _ _ _ _ _ G)).
    by apply (g_leaf _ _ _ _ _ G).
Qed.

Lemma mapped_invlpg s lvl r va v s' res b w :
  mapped s lvl r va v s' res → mapped s lvl r va v (if b : bool then invlpg s' w else s') res.
Proof. by destruct b. Qed.

Lemma map_page_in_spec s lvl par r va pa fl :
  tables_ok (mem s) (FrameAlloc.bits (frames s)) lvl par → lvl !! r = Some 3%nat → user va →
  ∃ s' res, map_page_in s r va pa fl = Val (s', res) ∧
    mapped s lvl r va (Z.lor (Z.land pa PHYS_MASK) fl) s' res.
Proof.
  intros Hok Hr Hva. unfold map_page_in.
  rewrite (table_virt _ (tk_is_table Hok _ _ Hr)). cbn [obind].
  destruct (ensure_step s lvl par r 2 va Hok Hr Hva) as (s1 & o1 & lvl1 & par1 & -> & G1 & H1).
  cbn [obind]. destruct o1 as [n1|]; [|eexists _, _; split; [done|by eapply grown_oom]].
  destruct H1 as [L1 E1]. pose proof (g_ok _ _ _ _ _ G1) as Hok1.
  rewrite (table_virt _ (tk_is_table Hok1 _ _ L1)). cbn [obind].
  destruct (ensure_step s1 lvl1 par1 n1 1 va Hok1 L1 Hva) as (s2 & o2 & lvl2 & par2 & -> & G2 & H2).
  pose proof (grown_trans _ _ _ _ _ _ _ _ G1 G2) as G12.
  cbn [obind]. destruct o2 as [n2|]; [|eexists _, _; split; [done|by eapply grown_oom]].
  destruct H2 as [L2 E2]. pose proof (g_ok _ _ _ _ _ G2) as Hok2.
  rewrite (table_virt _ (tk_is_table Hok2 _ _ L2)). cbn [obind].
  destruct (ensure_step s2 lvl2 par2 n2 0 va Hok2 L2 Hva) as (s3 & o3 & lvl3 & par3 & -> & G3 & H3).
  pose proof (grown_trans _ _ _ _ _ _ _ _ G12 G3) as G123.
  cbn [obind]. destruct o3 as [n3|]; [|eexists _, _; split; [done|by eapply grown_oom]].
  destruct H3 as [L3 E3]. pose proof (g_ok _ _ _ _ _ G3) as Hok3.
  rewrite (table_virt _ (tk_is_table Hok3 _ _ L3)). cbn [obind].
  eexists _, _. split; [done|]. apply mapped_invlpg. eapply grown_mapped; [done..|].
  pose proof (grown_trans _ _ _ _ _ _ _ _ G2 G3) as G23.
  pose proof (kept_entry _ _ _ _ _ r 2 va n1 G23 (lookup_weaken _ _ _ _ Hr (g_sub _ _ _ _ _ G1))
    ltac:(lia) Hva E1) as F1.
  pose proof (kept_entry _ _ _ _ _ n1 1 va n2 G3 (lookup_weaken _ _ _ _ L1 (g_sub _ _ _ _ _ G2))
    ltac:(lia) Hva E2) as F2.
  cbn [last_table]. rewrite F1, present_lor by done.
  rewrite (table_entry _ _ (tk_is_table Hok1 _ _ L1)) by done. rewrite F2, present_lor by done.
  rewrite (table_entry _ _ (tk_is_table Hok2 _ _ L2)) by done. rewrite E3, present_lor by done.
  by rewrite (table_entry _ _ (tk_is_table Hok3 _ _ L3)).
Qed.

Lemma for_range_copy s n kernel i0 cnt :
  let body := λ i s', Val (write s' (slot n (Z.of_nat i)) (mem s' (slot kernel (Z.of_nat i)))) in
  ∃ s', for_range i0 cnt body s = Val s' ∧ frames s' = frames s ∧ cr3 s' = cr3 s ∧
    ∀ a, (∀ i, (i0 ≤ i < i0 + cnt)%nat → a ≠ slot n (Z.of_nat i)) → mem s' a = mem s a.
Proof.
  intros body.
  destruct (for_range_inv (λ k s', frames s' = frames s ∧ cr3 s' = cr3 s ∧ (i0 ≤ k)%nat ∧
    ∀ a, (∀ i, (i0 ≤ i < k)%nat → a ≠ slot n (Z.of_nat i)) → mem s' a = mem s a) body i0 cnt s)
    as (s' & H & ? & ? & _ & Ha).
  - split_and!; try done.
  - intros k t Hk (Hf & Hc & Hle & Ha). eexists. split; [done|]. cbn [write frames cr3 mem].
    split_and!; try done; [lia|]. intros a Hne. rewrite upd_ne by (apply Hne; lia).
    apply Ha. intros i Hi. apply Hne. lia.
  - by exists s'.
Qed.

(** Memory in which [n] is zeroed and then only its upper half is written. *)
Lemma fresh_root_mem s s1 s' lvl par n :
  tables_ok (mem s) (FrameAlloc.bits (frames s)) lvl par → mem s1 = mem s →
  is_table n → lvl !! n = None →
  (∀ a, (∀ i, (256 ≤ i < 256 + 256)%nat → a ≠ slot n (Z.of_nat i)) →
    mem s' a = mem (zero_page s1 n) a) →
  (∀ i, 0 ≤ i < slots_of 3 → mem s' (slot n i) = 0) ∧
  (∀ t k i, lvl !! t = Some k → 0 ≤ i < slots_of k → mem s' (slot t i) = mem s (slot t i)).
Proof.
  intros Hok Em Hn Hfr Ha. split.
  - intros i Hi. change (slots_of 3) with 256 in Hi. rewrite Ha.
    + apply zero_page_own. lia.
    + intros j Hj E. destruct (slot_inj n n i (Z.of_nat j) Hn Hn ltac:(lia) ltac:(lia) E). lia.
  - intros t k i Ht Hi. pose proof (slots_le k). pose proof (tk_is_table Hok _ _ Ht) as Htt.
    assert (t ≠ n) by congruence. rewrite Ha.
    + rewrite zero_page_other by (done || lia). by rewrite Em.
    + intros j Hj E. by destruct (slot_inj t n i (Z.of_nat j) Htt Hn ltac:(lia) ltac:(lia) E).
Qed.

Lemma alloc_user_pml4_spec s lvl par :
  tables_ok (mem s) (FrameAlloc.bits (frames s)) lvl par → Z.land (cr3 s) PHYS_MASK < PHYS_LIMIT →
  ∃ s' o, alloc_user_pml4 s = Val (s', o) ∧ cr3 s' = cr3 s ∧
    match o with
    | None => s' = s ∧ exhausted s
    | Some n => lvl !! n = None ∧
        (∃ par', tables_ok (mem s') (FrameAlloc.bits (frames s')) (<[n:=3%nat]> lvl) par') ∧
        (∀ va, user va → leaf (mem s') 3 n va = None) ∧
        (∀ r va, lvl !! r = Some 3%nat → user va → leaf (mem s') 3 r va = leaf (mem s) 3 r va)
    end.
Proof.
  intros Hok Hcr. unfold alloc_user_pml4, alloc_page_table.
  pose proof (alloc_frame_spec s (tk_wf _ _ _ _ Hok)) as H.
  destruct (alloc_frame s) as [s1 [n|]]; cbn [obind].
  2: { destruct H as [-> H]. by exists s, None. }
  destruct H as (Hn & Hmax & Hfree & Em & Ec & _ & Eb). rewrite !(table_virt n Hn). cbn [obind].
  rewrite (table_virt n Hn). cbn [obind]. change (cr3 (zero_page s1 n)) with (cr3 s1). rewrite Ec.
  unfold phys_to_virt at 1. rewrite (proj2 (Z.leb_gt _ _)) by lia. cbn [obind].
  destruct (for_range_copy (zero_page s1 n) n (Z.land (cr3 s) PHYS_MASK) 256 256)
    as (s' & Hrun & Ef & Ec' & Ha). rewrite Hrun. cbn [obind]. exists s', (Some n). split; [done|].
  split; [by rewrite Ec'|].
  pose proof (fresh_not_table _ _ _ _ n Hok Hfree) as Hfr. split; [done|].
  destruct (fresh_root_mem s s1 s' lvl par n Hok Em Hn Hfr Ha) as [Hz Hr]. split_and!.
  - exists (<[n:=(0, 0)]> par). rewrite Ef. cbn [zero_page frames]. rewrite Eb.
    exact (add_table_ok Hok n 3 (0, 0) (mem s') Hn Hmax Hfree (le_n 3) Hz
      (λ t k i Ht Hi, or_introl (Hr t k i Ht Hi))).
  - intros va Hva. by apply empty_leaf, Hz, user_index.
  - intros r va Hlr Hva. by apply (leaf_agree Hok).
Qed.

Lemma unmap_spec s lvl par r va :
  tables_ok (mem s) (FrameAlloc.bits (frames s)) lvl par → lvl !! r = Some 3%nat → user va →
  match leaf (mem s) 3 r va with
  | None => unmap_user_page s r va = Val (s, Err "not present")
  | Some pte => ∃ s', unmap_user_page s r va = Val (s', Ok (Z.land pte PHYS_MASK)) ∧
      tables_ok (mem s') (FrameAlloc.bits (frames s')) lvl par ∧ frames s' = frames s ∧
      cr3 s' = cr3 s ∧ leaf_set (mem s) (mem s') lvl r va 0
  end.
Proof.
  intros Hok Hr Hva. unfold unmap_user_page, unmap_x86.
  rewrite (root_walkable Hok r Hr), (find_pte_leaf Hok r va Hr Hva). cbn [negb obind]. unfold leaf.
  destruct (last_table (mem s) 3 r va) as [pt|] eqn:Hpt; cbn; [|done].
  destruct (present (mem s (slot pt (index 0 va)))); [|done].
  eexists. split; [done|]. cbn. split_and!; try done.
  - exact (set_leaf_ok Hok r va pt 0 Hr Hva Hpt).
  - by eapply leaf_set_write.
Qed.

Lemma update_spec s lvl par r va w x :
  tables_ok (mem s) (FrameAlloc.bits (frames s)) lvl par → lvl !! r = Some 3%nat → user va →
  match leaf (mem s) 3 r va with
  | None => update_user_page s r va w x = Val (s, Err "not present")
  | Some pte => ∃ s', update_user_page s r va w x = Val (s', Ok tt) ∧
      tables_ok (mem s') (FrameAlloc.bits (frames s')) lvl par ∧ frames s' = frames s ∧
      cr3 s' = cr3 s ∧
      leaf_set (mem s) (mem s') lvl r va (Z.lor (Z.land pte PHYS_MASK) (leaf_flags w x))
  end.
Proof.
  intros Hok Hr Hva. unfold update_user_page, update_x86.
  rewrite (find_pte_leaf Hok r va Hr Hva). cbn [obind]. unfold leaf.
  destruct (last_table (mem s) 3 r va) as [pt|] eqn:Hpt; cbn; [|done].
  destruct (present (mem s (slot pt (index 0 va)))); [|done].
  eexists. split; [done|]. cbn. split_and!; try done.
  - exact (set_leaf_ok Hok r va pt _ Hr Hva Hpt).
  - by eapply leaf_set_write.
Qed.

(** ** The specification: address spaces as finite maps *)

(** A page's frame, whether it is writable and whether it is executable. *)
Abbreviation space := (gmap Z (Z * bool * bool)).

Definition decode (pte : Z) : Z * bool * bool :=
  (Z.land pte PHYS_MASK, negb (Z.land pte WRITABLE =? 0), Z.land pte NO_EXECUTE =? 0).

Lemma decode_leaf pa w x :
  decode (Z.lor (Z.land pa PHYS_MASK) (leaf_flags w x)) = (Z.land pa PHYS_MASK, w, x).
Proof.
  unfold decode. destruct (leaf_flags_ok w x) as [Hf _]. rewrite entry_phys by done.
  rewrite !Z.land_lor_distr_l, <- !Z.land_assoc.
  change (Z.land PHYS_MASK WRITABLE) with 0. change (Z.land PHYS_MASK NO_EXECUTE) with 0.
  rewrite !Z.land_0_r, !Z.lor_0_l. by destruct w, x.
Qed.

(** Requests name the [k]-th address space created so far. *)
Inductive cmd :=
  | New
  | Map (k : nat) (va pa : Z) (writable exec : bool)
  | Unmap (k : nat) (va : Z)
  | Protect (k : nat) (va : Z) (writable exec : bool)
  | Translate (k : nat) (va : Z).

Inductive reply :=
  | RNew (ok : bool)
  | RUnit (r : result unit)
  | RPhys (r : result Z)
  | RTrans (o : option (Z * bool * bool))
  | RBad.

Definition on_root (s : Mm) (roots : list Z) (k : nat)
    (f : Z → outcome (Mm * reply)) : outcome (Mm * list Z * reply) :=
  match roots !! k with
  | None => Val (s, roots, RBad)
  | Some r => let! q := f r in Val (q.1, roots, q.2)
  end.

(** The requests on the machine. *)
Definition exec (s : Mm) (roots : list Z) (c : cmd) : outcome (Mm * list Z * reply) :=
  match c with
  | New => let! q := alloc_user_pml4 s in
      match q with
      | (s', Some r) => Val (s', roots ++ [r], RNew true)
      | (s', None) => Val (s', roots, RNew false)
      end
  | Map k va pa w x => on_root s roots k (λ r,
      let! q := map_user_page_with_flags s r va pa w x in Val (q.1, RUnit q.2))
  | Unmap k va => on_root s roots k (λ r, let! q := unmap_user_page s r va in Val (q.1, RPhys q.2))
  | Protect k va w x => on_root s roots k (λ r,
      let! q := update_user_page s r va w x in Val (q.1, RUnit q.2))
  | Translate k va => on_root s roots k (λ r, Val (s, RTrans (translate_user_page_flags s r va)))
  end.

(** A sequence of requests: the final state and roots, and after each request
    its reply and the state. *)
Fixpoint exec_all (s : Mm) (roots : list Z) (cs : list cmd)
    : outcome (Mm * list Z * list (reply * Mm)) :=
  match cs with
  | [] => Val (s, roots, [])
  | c :: cs' =>
      let! q := exec s roots c in
      let '(s', roots', rep) := q in
      let! q' := exec_all s' roots' cs' in
      let '(s2, roots2, log) := q' in Val (s2, roots2, (rep, s') :: log)
  end.

Definition handle (c : cmd) : option nat :=
  match c with
  | New => None
  | Map k _ _ _ _ | Unmap k _ | Protect k _ _ _ | Translate k _ => Some k
  end.

(** The requests on the specification; a request for a frame may fail only
    when [full]. *)
Inductive spec (full : Prop) (sps : list space) : cmd → reply → list space → Prop :=
  | spec_new : spec full sps New (RNew true) (sps ++ [∅])
  | spec_new_oom : full → spec full sps New (RNew false) sps
  | spec_bad c k : handle c = Some k → sps !! k = None → spec full sps c RBad sps
  | spec_map k sp va pa w x : sps !! k = Some sp →
      spec full sps (Map k va pa w x) (RUnit (Ok tt))
        (<[k := <[va / 4096 := (Z.land pa PHYS_MASK, w, x)]> sp]> sps)
  | spec_map_oom k sp va pa w x e : full → sps !! k = Some sp →
      spec full sps (Map k va pa w x) (RUnit (Err e)) sps
  | spec_unmap k sp va pa w x : sps !! k = Some sp → sp !! (va / 4096) = Some (pa, w, x) →
      spec full sps (Unmap k va) (RPhys (Ok pa)) (<[k := delete (va / 4096) sp]> sps)
  | spec_unmap_miss k sp va : sps !! k = Some sp → sp !! (va / 4096) = None →
      spec full sps (Unmap k va) (RPhys (Err "not present")) sps
  | spec_protect k sp va pa w x w' x' : sps !! k = Some sp → sp !! (va / 4096) = Some (pa, w, x) →
      spec full sps (Protect k va w' x') (RUnit (Ok tt))
        (<[k := <[va / 4096 := (pa, w', x')]> sp]> sps)
  | spec_protect_miss k sp va w' x' : sps !! k = Some sp → sp !! (va / 4096) = None →
      spec full sps (Protect k va w' x') (RUnit (Err "not present")) sps
  | spec_translate k sp va : sps !! k = Some sp →
      spec full sps (Translate k va) (RTrans (sp !! (va / 4096))) sps.

Inductive spec_all : list space → list cmd → list (reply * Mm) → list space → Prop :=
  | spec_nil sps : spec_all sps [] [] sps
  | spec_cons sps c rep s' sps1 cs log sps2 :
      spec (exhausted s') sps c rep sps1 → spec_all sps1 cs log sps2 →
      spec_all sps (c :: cs) ((rep, s') :: log) sps2.

Definition user_cmd (c : cmd) : Prop :=
  match c with
  | New => True
  | Map _ va _ _ _ | Unmap _ va | Protect _ va _ _ | Translate _ va => user va
  end.

(** ** The simulation *)

(** What the specification's maps say of the page tables. *)
Definition shows (m : Z → Z) (r : Z) (sp : space) : Prop :=
  ∀ va, user va → decode <$> leaf m 3 r va = sp !! (va / 4096).

Record rel (s : Mm) (roots : list Z) (sps : list space) : Prop := mkRel {
  rl_cr3 : Z.land (cr3 s) PHYS_MASK < PHYS_LIMIT;
  rl_nodup : NoDup roots;
  rl_spaces : Forall2 (shows (mem s)) roots sps;
  rl_tables : ∃ lvl par, tables_ok (mem s) (FrameAlloc.bits (frames s)) lvl par ∧
    Forall (λ r, lvl !! r = Some 3%nat) roots
}.

Lemma shows_set m m' lvl r va v sp :
  shows m r sp → lvl !! r = Some 3%nat → leaf_set m m' lvl r va v →
  shows m' r (partial_alter (λ _, if present v then Some (decode v) else None) (va / 4096) sp).
Proof.
  intros Hs Hr [Ha Ho] va' Hva'. destruct (decide (va' / 4096 = va / 4096)) as [E|Hne].
  - rewrite Ha by done. rewrite E, lookup_partial_alter_eq. by destruct (present v).
  - rewrite Ho by auto. rewrite lookup_partial_alter_ne by done. by apply Hs.
Qed.

(** Changing one page of the [k]-th space keeps the others. *)
Lemma rel_set s s' lvl lvl' par' roots sps k r sp va v :
  rel s roots sps → Forall (λ r, lvl !! r = Some 3%nat) roots →
  roots !! k = Some r → sps !! k = Some sp → lvl ⊆ lvl' →
  tables_ok (mem s') (FrameAlloc.bits (frames s')) lvl' par' → cr3 s' = cr3 s →
  leaf_set (mem s) (mem s') lvl r va v →
  rel s' roots (<[k := partial_alter (λ _, if present v then Some (decode v) else None)
                         (va / 4096) sp]> sps).
Proof.
  intros [Hc Hnd Hsp _] Hroots Hk Hks Hsub Hok' Ec Hset. split; [by rewrite Ec|done| |].
  - apply Forall2_same_length_lookup. split.
    { rewrite length_insert. by eapply Forall2_length. }
    intros j r' sp' Hj Hsj. pose proof (Forall_lookup_1 _ _ _ _ Hroots Hj) as Hr'. simpl in Hr'.
    destruct (decide (j = k)) as [->|Hne].
    + rewrite Hk in Hj. simplify_eq.
      rewrite list_lookup_insert_eq in Hsj by (by eapply lookup_lt_Some). simplify_eq.
      eapply shows_set; [|done..]. eapply Forall2_lookup_lr; [exact Hsp|done..].
    + rewrite list_lookup_insert_ne in Hsj by done. intros va' Hva'.
      destruct Hset as [_ Ho]. rewrite Ho; [|done|done|].
      * by eapply (Forall2_lookup_lr _ _ _ _ _ _ Hsp Hj Hsj).
      * left. intros ->. apply Hne. by eapply NoDup_lookup.
  - exists lvl', par'. split; [done|]. eapply Forall_impl; [done|]. intros r' Hr'. simpl in *.
    by eapply lookup_weaken.
Qed.

(** A step that keeps the meaning of every root. *)
Lemma rel_keep s s' lvl lvl' par' roots sps :
  rel s roots sps → Forall (λ r, lvl !! r = Some 3%nat) roots → lvl ⊆ lvl' →
  tables_ok (mem s') (FrameAlloc.bits (frames s')) lvl' par' → cr3 s' = cr3 s →
  (∀ t va, lvl !! t = Some 3%nat → user va → leaf (mem s') 3 t va = leaf (mem s) 3 t va) →
  rel s' roots sps.
Proof.
  intros [Hc Hnd Hsp _] Hroots Hsub Hok' Ec Hl. split; [by rewrite Ec|done| |].
  - apply Forall2_same_length_lookup. split; [by eapply Forall2_length|].
    intros j r sp Hj Hsj va Hva. pose proof (Forall_lookup_1 _ _ _ _ Hroots Hj) as Hr. simpl in Hr.
    rewrite Hl by done. by eapply (Forall2_lookup_lr _ _ _ _ _ _ Hsp Hj Hsj).
  - exists lvl', par'. split; [done|]. eapply Forall_impl; [done|]. intros r' Hr'. simpl in *.
    by eapply lookup_weaken.
Qed.

Definition simulates (s : Mm) (roots : list Z) (sps : list space) (c : cmd) : Prop :=
  ∃ s' roots' rep sps', exec s roots c = Val (s', roots', rep) ∧
    spec (exhausted s') sps c rep sps' ∧ rel s' roots' sps'.

Lemma sim_new s roots sps : rel s roots sps → simulates s roots sps New.
Proof.
  intros HR. destruct (rl_tables _ _ _ HR) as (lvl & par & Hok & Hroots).
  destruct (alloc_user_pml4_spec s lvl par Hok (rl_cr3 _ _ _ HR)) as (s' & [n|] & Hrun & Hc & H).
  - destruct H as (Hfr & (par' & Hok') & He & Hl).
    exists s', (roots ++ [n]), (RNew true), (sps ++ [∅]). cbn [exec]. rewrite Hrun.
    split; [done|]. split; [constructor|]. assert (n ∉ roots) as Hn.
    { intros Hin. rewrite Forall_forall in Hroots. specialize (Hroots n Hin). simpl in Hroots.
      congruence. }
    destruct (rel_keep s s' lvl _ par' roots sps HR Hroots (insert_subseteq _ _ _ Hfr) Hok' Hc Hl)
      as [Hcr Hnd Hsp _].
    split; [done| | |].
    + apply NoDup_app. split_and!; [done|set_solver|apply NoDup_singleton].
    + apply Forall2_app; [done|]. constructor; [|constructor]. intros va Hva.
      by rewrite He, lookup_empty by done.
    + exists (<[n:=3%nat]> lvl), par'. split; [done|]. apply Forall_app. split.
      * eapply Forall_impl; [done|]. intros r Hr. simpl in *. by rewrite lookup_insert_ne by congruence.
      * constructor; [|constructor]. apply lookup_insert_eq.
  - destruct H as [-> He]. exists s, roots, (RNew false), sps. cbn [exec]. rewrite Hrun.
    split; [done|]. by split; [constructor|].
Qed.

(** The root, the abstract space and the tables behind a handle. *)
Lemma rel_handle s roots sps k :
  rel s roots sps →
  (roots !! k = None ∧ sps !! k = None) ∨
  ∃ r sp lvl par, roots !! k = Some r ∧ sps !! k = Some sp ∧ shows (mem s) r sp ∧
    tables_ok (mem s) (FrameAlloc.bits (frames s)) lvl par ∧
    Forall (λ r, lvl !! r = Some 3%nat) roots ∧ lvl !! r = Some 3%nat.
Proof.
  intros [_ _ Hsp (lvl & par & Hok & Hroots)]. destruct (roots !! k) as [r|] eqn:Hr.
  - right. destruct (Forall2_lookup_l _ _ _ _ _ Hsp Hr) as (sp & ? & ?).
    exists r, sp, lvl, par. split_and!; try done. exact (Forall_lookup_1 _ _ _ _ Hroots Hr).
  - left. split; [done|]. apply lookup_ge_None. erewrite <- Forall2_length by done.
    by apply lookup_ge_None.
Qed.

Lemma sim_bad s roots sps c k :
  rel s roots sps → handle c = Some k → roots !! k = None → sps !! k = None →
  simulates s roots sps c.
Proof.
  intros HR Hh Hr Hs. exists s, roots, RBad, sps. split; [|split; [by econstructor|done]].
  destruct c; simplify_eq/=; unfold on_root; by rewrite Hr.
Qed.

Section sim.
Context {s : Mm} {roots : list Z} {sps : list space} (HR : rel s roots sps).

Lemma sim_map k va pa w x : user va → simulates s roots sps (Map k va pa w x).
Proof.
  intros Hva. destruct (rel_handle _ _ _ k HR)
    as [[Hr Hs]|(r & sp & lvl & par & Hr & Hs & _ & Hok & Hroots & Hlr)]; [by eapply sim_bad|].
  destruct (map_page_in_spec s lvl par r va pa (leaf_flags w x) Hok Hlr Hva)
    as (s' & res & Hrun & lvl' & par' & Hok' & Hsub & Hc & _ & _ & Hres).
  assert (exec s roots (Map k va pa w x) = Val (s', roots, RUnit res)) as He.
  { cbn [exec]. unfold on_root, map_user_page_with_flags. by rewrite Hr, Hrun. }
  unfold simulates. rewrite He. destruct res as [[]|e].
  - eexists _, _, _, _. split; [done|]. split; [by econstructor|].
    pose proof (rel_set _ _ _ _ _ _ _ k r sp va _ HR Hroots Hr Hs Hsub Hok' Hc Hres) as H.
    rewrite present_lor, decode_leaf in H by apply leaf_flags_ok. exact H.
  - destruct Hres as [Hfull Hl]. eexists _, _, _, _. split; [done|].
    split; [by eapply spec_map_oom|]. by eapply rel_keep.
Qed.

Lemma sim_unmap k va : user va → simulates s roots sps (Unmap k va).
Proof.
  intros Hva. destruct (rel_handle _ _ _ k HR)
    as [[Hr Hs]|(r & sp & lvl & par & Hr & Hs & Hsh & Hok & Hroots & Hlr)]; [by eapply sim_bad|].
  pose proof (unmap_spec s lvl par r va Hok Hlr Hva) as H. pose proof (Hsh va Hva) as Hd.
  unfold simulates. cbn [exec]. unfold on_root. rewrite Hr.
  destruct (leaf (mem s) 3 r va) as [pte|].
  - destruct H as (s' & -> & Hok' & _ & Hc & Hset). eexists _, _, _, _. split; [done|].
    split; [by eapply spec_unmap|].
    exact (rel_set _ _ _ _ _ _ _ k r sp va _ HR Hroots Hr Hs (reflexivity lvl) Hok' Hc Hset).
  - rewrite H. eexists _, _, _, _. split; [done|]. split; [by eapply spec_unmap_miss|done].
Qed.

Lemma sim_protect k va w x : user va → simulates s roots sps (Protect k va w x).
Proof.
  intros Hva. destruct (rel_handle _ _ _ k HR)
    as [[Hr Hs]|(r & sp & lvl & par & Hr & Hs & Hsh & Hok & Hroots & Hlr)]; [by eapply sim_bad|].
  pose proof (update_spec s lvl par r va w x Hok Hlr Hva) as H. pose proof (Hsh va Hva) as Hd.
  unfold simulates. cbn [exec]. unfold on_root. rewrite Hr.
  destruct (leaf (mem s) 3 r va) as [pte|].
  - destruct H as (s' & -> & Hok' & _ & Hc & Hset). eexists _, _, _, _. split; [done|].
    split; [by eapply spec_protect|].
    pose proof (rel_set _ _ _ _ _ _ _ k r sp va _ HR Hroots Hr Hs (reflexivity lvl) Hok' Hc Hset) as H.
    rewrite present_lor, decode_leaf in H by apply leaf_flags_ok. exact H.
  - rewrite H. eexists _, _, _, _. split; [done|]. split; [by eapply spec_protect_miss|done].
Qed.

Lemma translate_leaf lvl par r va :
  tables_ok (mem s) (FrameAlloc.bits (frames s)) lvl par → lvl !! r = Some 3%nat → user va →
  translate_user_page_flags s r va = decode <$> leaf (mem s) 3 r va.
Proof.
  intros Hok Hr Hva. unfold translate_user_page_flags, translate_flags_x86.
  by rewrite (root_walkable Hok r Hr), (walk_pte_leaf Hok r va Hr Hva).
Qed.

Lemma sim_translate k va : user va → simulates s roots sps (Translate k va).
Proof.
  intros Hva. destruct (rel_handle _ _ _ k HR)
    as [[Hr Hs]|(r & sp & lvl & par & Hr & Hs & Hsh & Hok & Hroots & Hlr)]; [by eapply sim_bad|].
  exists s, roots, (RTrans (sp !! (va / 4096))), sps. split; [|split; [by constructor|done]].
  cbn [exec]. unfold on_root. rewrite Hr. cbn [obind].
  by rewrite (translate_leaf lvl par r va Hok Hlr Hva), (Hsh va Hva).
Qed.

Lemma sim_step c : user_cmd c → simulates s roots sps c.
Proof.
  destruct c; cbn [user_cmd]; intros H.
  - by apply sim_new.
  - by apply sim_map.
  - by apply sim_unmap.
  - by apply sim_protect.
  - by apply sim_translate.
Qed.
End sim.

(** The machine before any address space exists. *)
Definition boot_ok (s : Mm) : Prop :=
  FrameAlloc.wf (FrameAlloc.bits (frames s)) ∧ Z.land (cr3 s) PHYS_MASK < PHYS_LIMIT.

Lemma rel_boot s : boot_ok s → rel s [] [].
Proof.
  intros [Hw Hc]. split; [done|constructor|constructor|].
  exists ∅, ∅. split; [|constructor]. split; [done| |]; intros *; by rewrite lookup_empty.
Qed.

Lemma sim_all cs s roots sps :
  rel s roots sps → Forall user_cmd cs →
  ∃ s' roots' log sps', exec_all s roots cs = Val (s', roots', log) ∧
    spec_all sps cs log sps' ∧ rel s' roots' sps'.
Proof.
  intros HR Hcs. revert s roots sps HR. induction Hcs as [|c cs Hc Hcs IH]; intros s roots sps HR.
  { exists s, roots, [], sps. by split_and!; [|constructor|]. }
  destruct (sim_step HR c Hc) as (s1 & roots1 & rep & sps1 & He & Hsp & HR').
  destruct (IH s1 roots1 sps1 HR') as (s' & roots' & log & sps' & Hlog & Hall & HR2).
  exists s', roots', ((rep, s1) :: log), sps'. cbn [exec_all]. rewrite He. cbn [obind]. rewrite Hlog.
  split_and!; [done|by econstructor|done].
Qed.

(** ** Teardown *)

(** The frames the walk of [va] goes through below table [t]: the tables and
    the page. *)
Fixpoint walk_frames (m : Z → Z) (l : nat) (t va : Z) : list Z :=
  let e := m (slot t (index l va)) in
  if present e then
    Z.land e PHYS_MASK / 4096 ::
    match l with O => [] | S l' => walk_frames m l' (Z.land e PHYS_MASK) va end
  else [].

(** The frames below table [t], by the entries that refer to them. *)
Fixpoint owns (m : Z → Z) (l : nat) (t h : Z) : Prop :=
  ∃ i, 0 ≤ i < slots_of l ∧ present (m (slot t i)) = true ∧
    (h = Z.land (m (slot t i)) PHYS_MASK / 4096 ∨
     match l with O => False | S l' => owns m l' (Z.land (m (slot t i)) PHYS_MASK) h end).

Lemma walk_owns m l t va h :
  (l ≤ 3)%nat → user va → h ∈ walk_frames m l t va → owns m l t h.
Proof.
  revert t. induction l as [|l IH]; intros t Hl Hva Hh; cbn [walk_frames] in Hh;
    (destruct (present _) eqn:Hp; [|by apply not_elem_of_nil in Hh]);
    apply elem_of_cons in Hh as [Hh|Hh].
  - exists (index 0 va). split_and!; [by apply user_index..|done|by left].
  - by apply not_elem_of_nil in Hh.
  - exists (index (S l) va). split_and!; [by apply user_index..|done|by left].
  - exists (index (S l) va). split_and!; [by apply user_index..|done|right].
    apply IH; [lia|done|done].
Qed.

(** Putting an index on top of a lower address. *)
Lemma index_compose l i v j :
  0 ≤ i < 512 → 0 ≤ v < 4096 * 512 ^ Z.of_nat (S l) →
  index j (i * (4096 * 512 ^ Z.of_nat (S l)) + v) =
    if (j =? S l)%nat then i else if (j <=? l)%nat then index j v else 0.
Proof.
  intros Hi Hv. rewrite !index_val. set (P := 512 ^ Z.of_nat (S l)) in *.
  replace (i * (4096 * P) + v) with ((i * P) * 4096 + v) by lia. rewrite Z.div_add_l by lia.
  assert (0 < P) as HP by (unfold P; lia).
  assert (0 ≤ v / 4096 < P) as Hq
    by (split; [apply Z.div_pos; lia|apply Z.div_lt_upper_bound; lia]).
  destruct (Nat.eqb_spec j (S l)) as [->|Hne].
  { fold P. rewrite Z.div_add_l by lia. rewrite (Z.div_small (v / 4096)) by done.
    rewrite Z.add_0_r. by apply Z.mod_small. }
  destruct (Nat.leb_spec j l) as [Hle|Hgt].
  - assert (P = 512 ^ Z.of_nat (l - j) * 512 * 512 ^ Z.of_nat j) as ->.
    { unfold P. rewrite <- Z.mul_assoc, <- (Z.pow_succ_r 512) by lia.
      rewrite <- Z.pow_add_r by lia. f_equal. lia. }
    rewrite !Z.mul_assoc, Z.div_add_l by lia. rewrite Z.add_comm. by apply Z.mod_add.
  - rewrite Z.div_small; [done|]. assert (512 * P ≤ 512 ^ Z.of_nat j) as HPj.
    { unfold P. rewrite <- Z.pow_succ_r by lia. apply Z.pow_le_mono_r; lia. }
    nia.
Qed.

Lemma walk_frames_ext m l t va va' :
  (∀ j, (j ≤ l)%nat → index j va = index j va') → walk_frames m l t va = walk_frames m l t va'.
Proof.
  revert t. induction l as [|l IH]; intros t H; cbn [walk_frames]; rewrite H by lia; [done|].
  rewrite (IH _ (λ j Hj, H j ltac:(lia))). done.
Qed.

Lemma owns_walk m l t h :
  (l ≤ 3)%nat → owns m l t h →
  ∃ va, 0 ≤ va < slots_of l * (4096 * 512 ^ Z.of_nat l) ∧ h ∈ walk_frames m l t va.
Proof.
  revert t. induction l as [|l IH]; intros t Hl (i & Hi & Hp & Hh).
  - destruct Hh as [->|[]]. exists (i * 4096). change (512 ^ Z.of_nat 0) with 1.
    change (slots_of 0) with 512 in *. split; [lia|].
    assert (index 0 (i * 4096) = i) as E.
    { rewrite index_val. change (512 ^ Z.of_nat 0) with 1. rewrite Z.div_1_r, Z.div_mul by lia.
      by apply Z.mod_small. }
    cbn [walk_frames]. rewrite E, Hp. by left.
  - pose proof (slots_le (S l)). set (P := 4096 * 512 ^ Z.of_nat (S l)).
    assert (0 < P) as HP by (unfold P; lia).
    assert (∃ v, 0 ≤ v < P ∧ (h = Z.land (m (slot t i)) PHYS_MASK / 4096 ∨
      h ∈ walk_frames m l (Z.land (m (slot t i)) PHYS_MASK) v)) as (v & Hv & Hhv).
    { destruct Hh as [Hh|Hh]; [exists 0; split; [lia|by left]|].
      destruct (IH _ ltac:(lia) Hh) as (v & Hv & Hin). exists v. split; [|by right].
      assert (slots_of l = 512) as E by (unfold slots_of; by destruct (Nat.eqb_spec l 3); [lia|]).
      unfold P. rewrite E in Hv. rewrite Nat2Z.inj_succ, Z.pow_succ_r by lia. lia. }
    exists (i * P + v). split; [nia|]. cbn [walk_frames].
    pose proof (λ j, index_compose l i v j ltac:(lia) Hv) as Hidx. fold P in Hidx.
    rewrite Hidx, Nat.eqb_refl, Hp. destruct Hhv as [->|Hhv]; [by left|right].
    rewrite (walk_frames_ext _ _ _ (i * P + v) v); [done|]. intros j Hj. rewrite Hidx.
    by rewrite (proj2 (Nat.eqb_neq _ _)), (proj2 (Nat.leb_le _ _)) by lia.
Qed.

(** [s'] is [s] with the frames of [F] released. *)
Record frees (s s' : Mm) (F : Z → Prop) : Prop := mkFrees {
  fr_mem : mem s' = mem s;
  fr_wf : FrameAlloc.wf (FrameAlloc.bits (frames s'));
  fr_bits h : FrameAlloc.frame_ok h →
    FrameAlloc.is_free (FrameAlloc.bits (frames s')) h = true ↔
    FrameAlloc.is_free (FrameAlloc.bits (frames s)) h = true ∨ F h
}.

Lemma frees_none s F :
  FrameAlloc.wf (FrameAlloc.bits (frames s)) → (∀ h, ¬ F h) → frees s s F.
Proof. intros Hw HF. split; [done|done|]. intros h _. specialize (HF h). tauto. Qed.

Lemma frees_trans s1 s2 s3 F G :
  frees s1 s2 F → frees s2 s3 G → frees s1 s3 (λ h, F h ∨ G h).
Proof.
  intros [M1 _ B1] [M2 W2 B2]. split; [congruence|done|]. intros h Hh.
  rewrite B2, B1 by done. tauto.
Qed.

Lemma frees_ext s s' F G : (∀ h, F h ↔ G h) → frees s s' F → frees s s' G.
Proof. intros E [M W B]. split; [done|done|]. intros h Hh. by rewrite B, E. Qed.

Lemma free_frame_frees s phys :
  FrameAlloc.wf (FrameAlloc.bits (frames s)) → 0 ≤ phys →
  frees s (free_frame s phys) (λ h, h = phys / 4096).
Proof.
  intros Hw Hp. unfold free_frame, FrameAlloc.free.
  change (phys / FrameAlloc.FRAME_SIZE) with (phys / 4096).
  assert (0 ≤ phys / 4096) by (apply Z.div_pos; lia).
  destruct (Z.ltb_spec (phys / 4096) FrameAlloc.MAX_FRAMES) as [Hlt|Hge].
  2: { split; [done|done|]. intros h [_ Hh]. cbn. split; [tauto|]. intros [?| ->]; [done|lia]. }
  destruct (FrameAlloc.is_free _ (phys / 4096)) eqn:Hf; cbn [negb].
  - split; [done|done|]. intros h Hh. cbn. split; [tauto|]. by intros [?| ->].
  - split; [done|by apply FrameAlloc.wf_set|]. intros h Hh. cbn [set_frames frames FrameAlloc.bits].
    rewrite FrameAlloc.is_free_set by done. rewrite orb_true_iff, Z.eqb_eq. tauto.
Qed.

(** The loop over a table frees what its steps free. *)
Lemma free_table_frees one m t (F : Z → Z → Prop) n s :
  mem s = m → FrameAlloc.wf (FrameAlloc.bits (frames s)) →
  (∀ i s', 0 ≤ i < Z.of_nat n → mem s' = m → FrameAlloc.wf (FrameAlloc.bits (frames s')) →
    frees s' (one s' (m (slot t i))) (F i)) →
  frees s (free_table one n s t) (λ h, ∃ i, 0 ≤ i < Z.of_nat n ∧ F i h).
Proof.
  intros Hm Hw Hone. unfold free_table. induction n as [|n IH].
  { cbn. apply frees_none; [done|]. intros h (i & ? & _). lia. }
  rewrite seq_S, fold_left_app. cbn [fold_left].
  assert (frees s (fold_left (λ s' i, one s' (mem s' (slot t (Z.of_nat i)))) (seq 0 n) s)
    (λ h, ∃ i, 0 ≤ i < Z.of_nat n ∧ F i h)) as H1.
  { apply IH. intros i s' Hi. apply Hone. lia. }
  set (s1 := fold_left _ _ s) in *. pose proof (fr_mem _ _ _ H1) as M1. rewrite Hm in M1.
  assert (frees s1 (one s1 (m (slot t (Z.of_nat n)))) (F (Z.of_nat n))) as H2.
  { apply Hone; [lia|done|apply H1]. }
  rewrite M1. cbn [Nat.add]. eapply frees_ext; [|exact (frees_trans _ _ _ _ _ H1 H2)].
  intros h. split.
  - intros [(i & Hi & HF)|HF]; [exists i|exists (Z.of_nat n)]; split; done || lia.
  - intros (i & Hi & HF). destruct (decide (i = Z.of_nat n)) as [->|]; [by right|left].
    exists i. split; [lia|done].
Qed.

Lemma mask_nonneg e : 0 ≤ Z.land e PHYS_MASK.
Proof. apply Z.land_nonneg. right. done. Qed.

Lemma table_not_huge c : is_table c → (Z.land (Z.lor c user_flags) HUGE =? 0) = true.
Proof.
  intros [Ha Hr]. unfold PHYS_LIMIT in Hr. apply Z.eqb_eq. rewrite Z.land_lor_distr_l.
  change (Z.land user_flags HUGE) with 0. rewrite Z.lor_0_r.
  rewrite <- (mask_aligned c) by lia. rewrite <- Z.land_assoc.
  change (Z.land PHYS_MASK HUGE) with 0. apply Z.land_0_r.
Qed.

(** What releasing one entry frees. *)
Definition entry_owns (m : Z → Z) (l : nat) (e h : Z) : Prop :=
  present e = true ∧ (h = Z.land e PHYS_MASK / 4096 ∨
    match l with O => False | S l' => owns m l' (Z.land e PHYS_MASK) h end).

Lemma frees_absent s m l e :
  present e = false → FrameAlloc.wf (FrameAlloc.bits (frames s)) → frees s s (entry_owns m l e).
Proof. intros Hp Hw. apply frees_none; [done|]. intros h [? _]. congruence. Qed.

Lemma free_pte_frees s m e :
  FrameAlloc.wf (FrameAlloc.bits (frames s)) → frees s (free_pte s e) (entry_owns m 0 e).
Proof.
  intros Hw. unfold free_pte. destruct (present e) eqn:Hp; [|by apply frees_absent].
  eapply frees_ext; [|by apply free_frame_frees, mask_nonneg]. intros h. unfold entry_owns. tauto.
Qed.

(** The common shape of [free_pde], [free_pdpte] and [free_pml4e]. *)
Lemma free_subtree_frees one s m l c n :
  mem s = m → FrameAlloc.wf (FrameAlloc.bits (frames s)) → 0 ≤ c → Z.of_nat n = slots_of l →
  (∀ i s', 0 ≤ i < slots_of l → mem s' = m → FrameAlloc.wf (FrameAlloc.bits (frames s')) →
    frees s' (one s' (m (slot c i))) (entry_owns m l (m (slot c i)))) →
  frees s (free_frame (free_table one n s c) c) (λ h, h = c / 4096 ∨ owns m l c h).
Proof.
  intros Hm Hw Hc Hn Hone. rewrite <- Hn in Hone.
  pose proof (free_table_frees one m c _ n s Hm Hw Hone) as H1.
  pose proof (free_frame_frees _ c (fr_wf _ _ _ H1) Hc) as H2.
  eapply frees_ext; [|exact (frees_trans _ _ _ _ _ H1 H2)]. intros h. rewrite Hn.
  destruct l; cbn [owns]; unfold entry_owns; (split;
    [intros [(i & Hi & Hp & Hh)| ->]; [right; by exists i|by left]
    |intros [->|(i & Hi & Hp & Hh)]; [by right|left; by exists i]]).
Qed.

Section teardown.
Context {m : Z → Z} {ws : list Z} {lvl : gmap Z nat} {par : gmap Z (Z * Z)}.
Context (Hok : tables_ok m ws lvl par).

(** A present entry of an inner table: a child table, not a huge page. *)
Lemma entry_cases t l i :
  lvl !! t = Some (S l) → 0 ≤ i < slots_of (S l) →
  present (m (slot t i)) = false ∨
  present (m (slot t i)) = true ∧ (Z.land (m (slot t i)) HUGE =? 0) = true ∧
    walk_table (Z.land (m (slot t i)) PHYS_MASK) = Some (Z.land (m (slot t i)) PHYS_MASK) ∧
    lvl !! Z.land (m (slot t i)) PHYS_MASK = Some l.
Proof.
  intros Ht Hi. destruct (present (m (slot t i))) eqn:Hp; [right|by left].
  destruct (tk_child _ _ _ _ Hok t l i Ht Hi Hp) as (c & E & Hc & _).
  pose proof (tk_is_table Hok _ _ Hc) as Htc. rewrite E, table_entry by done.
  split_and!; try done; [by apply table_not_huge|by apply table_walk].
Qed.

Lemma entry_owns_child l e :
  present e = true →
  ∀ h, (h = Z.land e PHYS_MASK / 4096 ∨ owns m l (Z.land e PHYS_MASK) h) ↔ entry_owns m (S l) e h.
Proof. intros Hp h. unfold entry_owns. tauto. Qed.

Lemma free_pde_frees t i s :
  lvl !! t = Some 1%nat → 0 ≤ i < 512 → mem s = m → FrameAlloc.wf (FrameAlloc.bits (frames s)) →
  frees s (free_pde s (m (slot t i))) (entry_owns m 1 (m (slot t i))).
Proof.
  intros Ht Hi Hm Hw. unfold free_pde.
  destruct (entry_cases t 0 i Ht Hi) as [Hp|(Hp & -> & -> & Hc)]; rewrite Hp;
    cbn [negb]; [by apply frees_absent|].
  eapply frees_ext; [by apply entry_owns_child|].
  apply free_subtree_frees; try done; [apply mask_nonneg|]. intros j s' Hj Hm' Hw'.
  by apply free_pte_frees.
Qed.

Lemma free_pdpte_frees t i s :
  lvl !! t = Some 2%nat → 0 ≤ i < 512 → mem s = m → FrameAlloc.wf (FrameAlloc.bits (frames s)) →
  frees s (free_pdpte s (m (slot t i))) (entry_owns m 2 (m (slot t i))).
Proof.
  intros Ht Hi Hm Hw. unfold free_pdpte.
  destruct (entry_cases t 1 i Ht Hi) as [Hp|(Hp & -> & -> & Hc)]; rewrite Hp;
    cbn [negb]; [by apply frees_absent|].
  eapply frees_ext; [by apply entry_owns_child|].
  apply free_subtree_frees; try done; [apply mask_nonneg|]. intros j s' Hj Hm' Hw'.
  by apply free_pde_frees.
Qed.

Lemma free_pml4e_frees t i s :
  lvl !! t = Some 3%nat → 0 ≤ i < 256 → mem s = m → FrameAlloc.wf (FrameAlloc.bits (frames s)) →
  frees s (free_pml4e s (m (slot t i))) (entry_owns m 3 (m (slot t i))).
Proof.
  intros Ht Hi Hm Hw. unfold free_pml4e.
  destruct (entry_cases t 2 i Ht Hi) as [Hp|(Hp & _ & -> & Hc)]; rewrite Hp;
    cbn [negb]; [by apply frees_absent|].
  eapply frees_ext; [by apply entry_owns_child|].
  apply free_subtree_frees; try done; [apply mask_nonneg|]. intros j s' Hj Hm' Hw'.
  by apply free_pdpte_frees.
Qed.

Lemma free_user_pml4_frees r s :
  lvl !! r = Some 3%nat → mem s = m → FrameAlloc.bits (frames s) = ws →
  frees s (free_user_pml4 s r) (λ h, h = r / 4096 ∨ owns m 3 r h).
Proof.
  intros Hr Hm Hb. pose proof (tk_is_table Hok r 3 Hr) as Ht. pose proof (it_range r Ht) as Hrange.
  assert (pml4_root_walkable r = true) as Hwalk.
  { unfold pml4_root_walkable. by rewrite (proj2 (Z.eqb_neq _ _)), (proj2 (Z.ltb_lt _ _)) by lia. }
  unfold free_user_pml4, free_x86. rewrite Hwalk, (table_walk r Ht). cbn [negb].
  apply free_subtree_frees; try done; [rewrite Hb; apply Hok|lia|]. intros j s' Hj Hm' Hw'.
  by apply free_pml4e_frees.
Qed.
End teardown.

(** ** The pager *)

Lemma page_floor_val va : page_floor va = va / 4096 * 4096.
Proof.
  unfold page_floor. change 0xFFF with (Z.ones 12). rewrite Z.ldiff_ones_r by lia.
  by rewrite Z.shiftl_mul_pow2, Z.shiftr_div_pow2 by lia.
Qed.

Lemma page_floor_user va : user va → user (page_floor va) ∧ page_floor va / 4096 = va / 4096.
Proof.
  unfold user. intros H. rewrite page_floor_val, Z.div_mul by lia. split; [|done].
  pose proof (Z.div_mod va 4096 ltac:(lia)). pose proof (Z.mod_pos_bound va 4096 ltac:(lia)).
  assert (0 ≤ va / 4096) by (apply Z.div_pos; lia). lia.
Qed.

Lemma translate_none s r va :
  translate_user_page s r va = None ↔ translate_user_page_flags s r va = None.
Proof.
  unfold translate_user_page, translate_user_page_flags, translate_x86, translate_flags_x86.
  destruct (negb _); [done|]. by destruct (walk_pte s r va).
Qed.

(** Where a resolved fault's page comes from: it was mapped meanwhile, it
    mirrors the page 4 GiB below, or it is a zeroed frame that was free. *)
Inductive pages_in (s s' : Mm) (sp : space) (page : Z) : Z * bool * bool → Prop :=
  | pg_present e : sp !! page = Some e → pages_in s s' sp page e
  | pg_mirror e : sp !! page = None → 0x100000 ≤ page < 0x300000 →
      sp !! (page - 0x100000) = Some e → pages_in s s' sp page e
  | pg_zero n : sp !! page = None → 0x300000 ≤ page < 0x10000000 →
      FrameAlloc.is_free (FrameAlloc.bits (frames s)) (n / 4096) = true →
      (∀ a, n ≤ a < n + 4096 → mem s' a = 0) →
      pages_in s s' sp page (n, true, true).

(** The outcome of the pager for space [k]. *)
Definition paged (s : Mm) (roots : list Z) (sps : list space) (k : nat) (sp : space) (page error : Z)
    (q : Mm * bool) : Prop :=
  match q with
  | (s', true) => ∃ e, Z.land error 1 = 0 ∧ pages_in s s' sp page e ∧
      rel s' roots (<[k := <[page := e]> sp]> sps)
  | (s', false) => rel s' roots sps ∧ (Z.land error 1 ≠ 0 ∨ sp !! page = None)
  end.

Section pager.
Context {s : Mm} {roots : list Z} {sps : list space} (HR : rel s roots sps).
Context {k : nat} {r : Z} {sp : space} (Hk : roots !! k = Some r) (Hks : sps !! k = Some sp).

Lemma rel_lookup va : user va → translate_user_page_flags s r va = sp !! (va / 4096).
Proof.
  intros Hva. destruct (rel_handle _ _ _ k HR)
    as [[? _]|(r' & sp' & lvl & par & Hr' & Hs' & Hsh & Hok & _ & Hl)]; [congruence|].
  simplify_eq. by rewrite (translate_leaf lvl par r va Hok Hl Hva), (Hsh va Hva).
Qed.

(** A mapping entered in space [k]; a frame in use that is no table is kept. *)
Lemma rel_map lvl par va pa w x :
  tables_ok (mem s) (FrameAlloc.bits (frames s)) lvl par →
  Forall (λ r, lvl !! r = Some 3%nat) roots → user va →
  ∃ s' res lvl' par', map_user_page_with_flags s r va pa w x = Val (s', res) ∧
    tables_ok (mem s') (FrameAlloc.bits (frames s')) lvl' par' ∧
    Forall (λ r, lvl' !! r = Some 3%nat) roots ∧
    (∀ n a, is_table n → lvl !! n = None →
      FrameAlloc.is_free (FrameAlloc.bits (frames s)) (n / 4096) = false →
      n ≤ a < n + 4096 → lvl' !! n = None ∧ mem s' a = mem s a) ∧
    only_takes s s' ∧ (is_ok res = false → exhausted s') ∧
    rel s' roots match res with
                 | Ok _ => <[k := <[va / 4096 := (Z.land pa PHYS_MASK, w, x)]> sp]> sps
                 | Err _ => sps
                 end.
Proof.
  intros Hok Hroots Hva. pose proof (Forall_lookup_1 _ _ _ _ Hroots Hk) as Hl. simpl in Hl.
  destruct (map_page_in_spec s lvl par r va pa (leaf_flags w x) Hok Hl Hva)
    as (s' & res & Hrun & lvl' & par' & Hok' & Hsub & Hc & Hmono & Hfr & Hres).
  exists s', res, lvl', par'. split_and!; [done|done| |done|done| |].
  { eapply Forall_impl; [done|]. intros r' Hr'. simpl in *. by eapply lookup_weaken. }
  { destruct res; [done|]. intros _. apply Hres. }
  destruct res as [[]|e].
  - pose proof (rel_set _ _ _ _ _ _ _ k r sp va _ HR Hroots Hk Hks Hsub Hok' Hc Hres) as H.
    by rewrite present_lor, decode_leaf in H by apply leaf_flags_ok.
  - destruct Hres as [_ Hl']. by eapply rel_keep.
Qed.

(** A frame taken from the allocator and zeroed. *)
Lemma rel_take lvl par s1 n :
  tables_ok (mem s) (FrameAlloc.bits (frames s)) lvl par →
  Forall (λ r, lvl !! r = Some 3%nat) roots → alloc_frame s = (s1, Some n) →
  is_table n ∧ lvl !! n = None ∧ FrameAlloc.frame_ok (n / 4096) ∧
  FrameAlloc.is_free (FrameAlloc.bits (frames s)) (n / 4096) = true ∧
  FrameAlloc.is_free (FrameAlloc.bits (frames s1)) (n / 4096) = false ∧
  tables_ok (mem (zero_page s1 n)) (FrameAlloc.bits (frames s1)) lvl par ∧
  rel (zero_page s1 n) roots sps.
Proof.
  intros Hok Hroots Ha. pose proof (alloc_frame_spec s (tk_wf _ _ _ _ Hok)) as H.
  rewrite Ha in H. destruct H as (Hn & Hmax & Hfree & Em & Ec & _ & Eb).
  pose proof (fresh_not_table _ _ _ _ n Hok Hfree) as Hfr.
  assert (FrameAlloc.frame_ok (n / 4096)) as Hfn
    by (split; [apply Z.div_pos; destruct Hn; lia|done]).
  assert (∀ t l i, lvl !! t = Some l → 0 ≤ i < slots_of l →
    mem (zero_page s1 n) (slot t i) = mem s (slot t i)) as Hm.
  { intros t l i Ht Hi. pose proof (slots_le l). rewrite zero_page_other; [by rewrite Em|done| |lia|].
    - by eapply (tk_is_table Hok).
    - congruence. }
  assert (tables_ok (mem (zero_page s1 n)) (FrameAlloc.bits (frames s1)) lvl par) as Hok1.
  { rewrite Eb. pose proof (tk_wf _ _ _ _ Hok). split; [by apply FrameAlloc.wf_clear| |].
    - intros t l Ht. destruct (tk_table _ _ _ _ Hok t l Ht) as (? & ? & ? & ?).
      split_and!; try done. apply used_clear; try done. by eapply table_frame_ok.
    - intros t l i Ht Hi Hp. rewrite (Hm t _ i Ht Hi) in Hp |- *. by apply (tk_child _ _ _ _ Hok). }
  split_and!; try done.
  - rewrite Eb, FrameAlloc.is_free_clear by (done || apply Hok). by rewrite Z.eqb_refl.
  - eapply (rel_keep s (zero_page s1 n) lvl lvl par); try done.
    intros t va Ht Hva. by apply (leaf_agree Hok).
Qed.

(** A frame that is no table given back. *)
Lemma rel_give lvl par n :
  tables_ok (mem s) (FrameAlloc.bits (frames s)) lvl par →
  Forall (λ r, lvl !! r = Some 3%nat) roots → 0 ≤ n →
  (∀ t l, lvl !! t = Some l → t / 4096 ≠ n / 4096) → rel (free_frame s n) roots sps.
Proof.
  intros Hok Hroots Hn Hne. pose proof (free_frame_frees s n (tk_wf _ _ _ _ Hok) Hn) as [_ Hw Hb].
  apply (rel_keep s (free_frame s n) lvl lvl par); try done.
  split; [done| |apply Hok]. intros t l Ht. destruct (tk_table _ _ _ _ Hok t l Ht) as (? & ? & ? & Hu).
  split_and!; try done. apply not_true_is_false.
  rewrite Hb by by eapply table_frame_ok. intros [?|?]; [congruence|]. by eapply Hne.
Qed.
End pager.

Lemma table_page t n : is_table t → is_table n → t / 4096 = n / 4096 → t = n.
Proof.
  intros [At _] [An _] E. pose proof (Z.div_mod t 4096). pose proof (Z.div_mod n 4096). lia.
Qed.

Lemma masked_entry m r sp va e :
  shows m r sp → user va → sp !! (va / 4096) = Some e → Z.land e.1.1 PHYS_MASK = e.1.1.
Proof.
  intros Hsh Hva He. rewrite <- (Hsh va Hva) in He. destruct (leaf m 3 r va) as [pte|]; [|done].
  simplify_eq/=. apply land_mask_idem.
Qed.

(** The two ways the pager maps a page. *)
Section pager_steps.
Context {s : Mm} {roots : list Z} {sps : list space} (HR : rel s roots sps).
Context {k : nat} {r : Z} {sp : space} (Hk : roots !! k = Some r) (Hks : sps !! k = Some sp).
Context (va error : Z) (Hva : user va) (Herr : Z.land error 1 = 0).
Context (Hnone : sp !! (va / 4096) = None).

Lemma page_mirror pa w x :
  0x100000 ≤ va / 4096 < 0x300000 → sp !! (va / 4096 - 0x100000) = Some (pa, w, x) →
  Z.land pa PHYS_MASK = pa →
  ∃ q, (let! t := map_user_page_with_flags s r va pa w x in
        match t with (s1, Ok _) => Val (s1, true) | (s1, Err _) => Val (s1, false) end) = Val q ∧
    paged s roots sps k sp (va / 4096) error q.
Proof.
  intros Hp Hm Hpa. destruct (rl_tables _ _ _ HR) as (lvl & par & Hok & Hroots).
  destruct (rel_map HR Hk Hks lvl par va pa w x Hok Hroots Hva)
    as (s' & res & _ & _ & -> & _ & _ & _ & _ & _ & HR'). cbn [obind].
  destruct res as [[]|e]; eexists; (split; [done|]); cbn [paged].
  - exists (pa, w, x). rewrite Hpa in HR'. split_and!; [done|by apply pg_mirror|done].
  - split; [done|by right].
Qed.

Lemma page_zero :
  0x300000 ≤ va / 4096 < 0x10000000 →
  ∃ q, (let '(s1, frame_opt) := alloc_frame s in
        match frame_opt with
        | Some phys =>
            let! t := map_user_page_with_flags (zero_page s1 phys) r va phys true true in
            match t with
            | (s2, Ok _) => Val (s2, true)
            | (s2, Err _) => Val (free_frame s2 phys, false)
            end
        | None => Val (s1, false)
        end) = Val q ∧ paged s roots sps k sp (va / 4096) error q.
Proof.
  intros Hp. destruct (rl_tables _ _ _ HR) as (lvl & par & Hok & Hroots).
  pose proof (alloc_frame_spec s (tk_wf _ _ _ _ Hok)) as Hal.
  destruct (alloc_frame s) as [s1 [n|]] eqn:Ea.
  2: { destruct Hal as [-> _]. eexists. split; [done|]. cbn. split; [done|by right]. }
  destruct (rel_take HR lvl par s1 n Hok Hroots Ea) as (Hn & Hfr & Hfn & Hfree & Hused & Hok1 & HR1).
  destruct (rel_map HR1 Hk Hks lvl par va n true true Hok1 Hroots Hva)
    as (s' & res & lvl' & par' & -> & Hok' & Hroots' & Hframe & _ & _ & HR'). cbn [obind].
  assert (∀ a, n ≤ a < n + 4096 → lvl' !! n = None ∧ mem s' a = 0) as Hz.
  { intros a Ha. destruct (Hframe n a Hn Hfr Hused Ha) as [? ->]. split; [done|].
    cbn. unfold PAGE_SIZE. by rewrite (proj2 (Z.leb_le _ _)), (proj2 (Z.ltb_lt _ _)) by lia. }
  destruct res as [[]|e]; eexists; (split; [done|]); cbn [paged].
  - exists (n, true, true). split_and!; [done| |].
    + apply pg_zero; try done. intros a Ha. by apply Hz.
    + destruct Hn as [Hal' Hrg]. unfold PHYS_LIMIT in Hrg.
      rewrite (mask_aligned n) in HR' by (done || lia). done.
  - split; [|by right]. pose proof (it_range n Hn).
    apply (rel_give HR' lvl' par'); [done|done|lia|]. intros t l Ht E.
    destruct (Hz n ltac:(lia)) as [Hl' _].
    rewrite (table_page t n) in Ht; [congruence| |done|done]. by eapply (tk_is_table Hok').
Qed.
End pager_steps.

Lemma demand_page_paged s roots sps k r sp cr2 error :
  rel s roots sps → roots !! k = Some r → sps !! k = Some sp → Z.land (cr3 s) PHYS_MASK = r →
  user cr2 →
  ∃ q, demand_page s cr2 error = Val q ∧ paged s roots sps k sp (cr2 / 4096) error q.
Proof.
  intros HR Hk Hks Hcr Hva. unfold demand_page. fold PHYS_MASK. rewrite Hcr.
  destruct (Z.eqb_spec (Z.land error 1) 0) as [Herr|Herr]; cbn [negb].
  2: { eexists. split; [done|]. split; [done|by left]. }
  destruct (page_floor_user cr2 Hva) as [Hfl Epg]. pose proof (rel_lookup HR Hk Hks) as Hlook.
  pose proof (Hlook _ Hfl) as Hl. rewrite Epg in Hl.
  destruct (translate_user_page s r (page_floor cr2)) as [p|] eqn:Et.
  { destruct (sp !! (cr2 / 4096)) as [e|] eqn:He.
    2: { apply translate_none in Hl. congruence. }
    eexists. split; [done|]. exists e. split_and!; [done|by constructor|].
    rewrite insert_id by done. rewrite list_insert_id by done.
    destruct HR as [? ? ? ?]. by split. }
  apply translate_none in Et. rewrite Et in Hl. symmetry in Hl.
  pose proof (page_floor_val cr2) as Ev. rewrite <- Epg in Hl |- *.
  set (va := page_floor cr2) in *. rewrite <- Epg in Ev. pose proof Hfl as [Hlo _].
  destruct ((0x100000000 <=? va) && (va <? 0x300000000)) eqn:Em; unbool.
  - pose proof (Hlook (va - 0x100000000) ltac:(unfold user in *; lia)) as Hm.
    assert ((va - 0x100000000) / 4096 = va / 4096 - 0x100000) as Eq.
    { replace (va - 0x100000000) with (va + - 0x100000 * 4096) by lia. rewrite Z.div_add; lia. }
    rewrite Eq in Hm.
    destruct (translate_user_page_flags s r (va - 0x100000000)) as [[[pa w] x]|] eqn:Ef.
    + pose proof (Forall2_lookup_lr _ _ _ _ _ _ (rl_spaces _ _ _ HR) Hk Hks) as Hsh.
      apply (page_mirror HR Hk Hks); try done; [lia|].
      refine (masked_entry _ _ _ (va - 0x100000000) (pa, w, x) Hsh _ _).
      * unfold user in *; lia.
      * by rewrite Eq.
    + rewrite (proj2 (Z.leb_gt _ _)) by lia. cbn [andb]. eexists. split; [done|].
      split; [done|by right].
  - destruct ((0x300000000 <=? va) && (va <? 0x10000000000)) eqn:Ea; unbool.
    + apply (page_zero HR Hk Hks); try done. lia.
    + eexists. split; [done|]. split; [done|by right].
Qed.

(** Unmapping a page of space [k]. *)
Lemma rel_unmap s roots sps k r sp va pa w x :
  rel s roots sps → roots !! k = Some r → sps !! k = Some sp → user va →
  sp !! (va / 4096) = Some (pa, w, x) →
  ∃ s', unmap_user_page s r va = Val (s', Ok pa) ∧ frames s' = frames s ∧
    rel s' roots (<[k := delete (va / 4096) sp]> sps).
Proof.
  intros HR Hk Hks Hva He. destruct (rel_handle _ _ _ k HR)
    as [[? _]|(r' & sp' & lvl & par & Hr' & Hs' & Hsh & Hok & Hroots & Hl)]; [congruence|].
  simplify_eq. pose proof (unmap_spec s lvl par r va Hok Hl Hva) as H.
  rewrite <- (Hsh va Hva) in He. destruct (leaf (mem s) 3 r va) as [pte|]; [|done].
  destruct H as (s' & Hrun & Hok' & Hf & Hc & Hset). exists s'.
  cbn in He. unfold decode in He. simplify_eq.
  split_and!; [done|done|].
  exact (rel_set _ _ _ _ _ _ _ k r sp va _ HR Hroots Hk Hks (reflexivity lvl) Hok' Hc Hset).
Qed.

(** One page of [unmap_user_range]. *)
Lemma unmap_one_page s roots sps k r sp page pa w x :
  rel s roots sps → roots !! k = Some r → sps !! k = Some sp → user (page * 4096) →
  sp !! page = Some (pa, w, x) →
  ∃ s', unmap_user_range s r (page * 4096) 4096 = Val (free_frame s' pa) ∧
    frames s' = frames s ∧ rel s' roots (<[k := delete page sp]> sps).
Proof.
  intros HR Hk Hks Hva He. pose proof Hva as [Hlo Hhi].
  destruct (rel_unmap s roots sps k r sp (page * 4096) pa w x HR Hk Hks Hva) as (s' & Hu & Hf & HR').
  { by rewrite Z.div_mul by lia. }
  rewrite Z.div_mul in HR' by lia. exists s'. split_and!; [|done|done].
  unfold unmap_user_range.
  destruct (pml4_root_walkable r) eqn:Hw.
  2: { unfold unmap_user_page in Hu. by rewrite Hw in Hu. }
  cbn [negb Z.eqb]. rewrite !page_floor_val. unfold u64, wrap. rewrite Z.mod_small by lia.
  replace (page * 4096 + 4096 + 4095) with ((page + 1) * 4096 + 4095) by lia.
  rewrite Z.div_add_l, Z.div_mul by lia. change (4095 / 4096) with 0. rewrite Z.add_0_r.
  replace ((page + 1) * 4096 - page * 4096 + 4095) with (1 * 4096 + 4095) by lia.
  change (Z.to_nat ((1 * 4096 + 4095) / 4096)) with 1%nat. cbn [for_range obind Z.of_nat].
  rewrite Z.mul_0_l, Z.add_0_r, Hu. done.
Qed.

(** C2: From a booted machine, any sequence of requests on user addresses
    (create an address space, map, unmap, change permissions, translate) runs
    without a panic and behaves as the specification says: each address space
    is a finite map from pages to (frame, writable, executable), a request on
    one space changes no other, and creating or mapping fails only when the
    frame allocator is exhausted.  At the end every translation is a lookup in
    those maps. *)
Theorem paging_refines_spaces cs s :
  boot_ok s → Forall user_cmd cs →
  ∃ s' roots log sps, exec_all s [] cs = Val (s', roots, log) ∧ spec_all [] cs log sps ∧
    ∀ k r sp va, roots !! k = Some r → sps !! k = Some sp → user va →
      translate_user_page_flags s' r va = sp !! (va / 4096).
Proof.
  intros Hb Hcs. destruct (sim_all cs s [] [] (rel_boot s Hb) Hcs)
    as (s' & roots & log & sps & Hrun & Hspec & HR).
  exists s', roots, log, sps. split_and!; [done..|]. intros k r sp va Hr Hs Hva.
  destruct (rel_handle _ _ _ k HR) as [[? _]|(r' & sp' & lvl & par & Hr' & Hs' & Hsh & Hok & _ & Hl)];
    [congruence|]. simplify_eq.
  by rewrite (translate_leaf lvl par r va Hok Hl Hva), (Hsh va Hva).
Qed.

(** C30: The pager on a fault in the running address space: it never panics; when
    it reports the fault resolved, the space has gained exactly the faulting
    page, which was mapped meanwhile, mirrors the page 4 GiB below with its
    permissions, or is a frame that was free and now reads as zero; when it
    reports failure no mapping has changed, and the fault was a protection
    fault or the page is unmapped. *)
Theorem demand_page_functional s roots sps k r sp cr2 error :
  rel s roots sps → roots !! k = Some r → sps !! k = Some sp → Z.land (cr3 s) PHYS_MASK = r →
  user cr2 →
  ∃ q, demand_page s cr2 error = Val q ∧ paged s roots sps k sp (cr2 / 4096) error q.
Proof. apply demand_page_paged. Qed.

(** C7: After any sequence of requests, [free_user_pml4] writes no memory and
    releases exactly the frames of the address space: the root and every
    frame, table or page, that the walk of some user address goes through. *)
Theorem teardown_releases_exactly cs s0 s roots log r h :
  boot_ok s0 → Forall user_cmd cs → exec_all s0 [] cs = Val (s, roots, log) → r ∈ roots →
  FrameAlloc.frame_ok h →
  mem (free_user_pml4 s r) = mem s ∧
  (FrameAlloc.is_free (FrameAlloc.bits (frames (free_user_pml4 s r))) h = true ↔
   FrameAlloc.is_free (FrameAlloc.bits (frames s)) h = true ∨
   h = r / 4096 ∨ ∃ va, user va ∧ h ∈ walk_frames (mem s) 3 r va).
Proof.
  intros Hb Hcs Hrun Hr Hh. destruct (sim_all cs s0 [] [] (rel_boot s0 Hb) Hcs)
    as (s' & roots' & log' & sps & Hrun' & _ & HR). rewrite Hrun in Hrun'. simplify_eq.
  destruct (rl_tables _ _ _ HR) as (lvl & par & Hok & Hroots).
  rewrite Forall_forall in Hroots. specialize (Hroots r Hr). simpl in Hroots.
  destruct (free_user_pml4_frees Hok r s' Hroots eq_refl eq_refl) as [Hm _ Hbits].
  split; [done|]. rewrite (Hbits h Hh). split; (intros [?|[?|Hw]]; [by left|right; by left|right; right]).
  - apply owns_walk in Hw as (va & Hva & Hin); [|lia]. exists va. split; [|done].
    change (slots_of 3 * (4096 * 512 ^ Z.of_nat 3)) with (2 ^ 47) in Hva. done.
  - destruct Hw as (va & Hva & Hin). eapply walk_owns; [|done|done]. lia.
Qed.

(** A page the pager mirrored shares its frame with the page 4 GiB below;
    [unmap_user_range] on the mirror releases that frame while the lower
    address still maps it. *)
Theorem mirror_unmap_frees_shared_frame s roots sps k r sp page pa w x s1 :
  rel s roots sps → roots !! k = Some r → sps !! k = Some sp → Z.land (cr3 s) PHYS_MASK = r →
  0x100000 ≤ page < 0x300000 → sp !! page = None → sp !! (page - 0x100000) = Some (pa, w, x) →
  FrameAlloc.frame_ok (pa / 4096) → demand_page s (page * 4096) 0 = Val (s1, true) →
  ∃ s2, unmap_user_range s1 r (page * 4096) 4096 = Val s2 ∧
    translate_user_page_flags s2 r ((page - 0x100000) * 4096) = Some (pa, w, x) ∧
    FrameAlloc.is_free (FrameAlloc.bits (frames s2)) (pa / 4096) = true.
Proof.
  intros HR Hk Hks Hcr Hp Hn Hm Hf Hd.
  assert (user (page * 4096)) as Hu by (unfold user; lia).
  destruct (demand_page_paged s roots sps k r sp (page * 4096) 0 HR Hk Hks Hcr Hu) as (q & Hq & Hpg).
  rewrite Hq in Hd. simplify_eq. cbn [paged] in Hpg. rewrite Z.div_mul in Hpg by lia.
  destruct Hpg as (e & _ & Hin & HR1). destruct Hin as [e He|e _ _ He|n _ ? _ _]; [congruence| |lia].
  rewrite Hm in He. simplify_eq. pose proof (lookup_lt_Some _ _ _ Hks) as Hlt.
  destruct (unmap_one_page s1 roots _ k _ (<[page:=(pa, w, x)]> sp) page pa w x HR1 Hk)
    as (s2 & Hrun & Hfr & HR2).
  { by rewrite list_lookup_insert_eq. } { done. } { by rewrite lookup_insert_eq. }
  eexists. split; [exact Hrun|]. split.
  - change (translate_user_page_flags s2 (Z.land (cr3 s) PHYS_MASK) ((page - 0x100000) * 4096) = Some (pa, w, x)).
    rewrite (rel_lookup HR2 Hk (sp := delete page (<[page:=(pa, w, x)]> sp))).
    + rewrite Z.div_mul by lia. rewrite lookup_delete_ne, lookup_insert_ne by lia. done.
    + by rewrite list_lookup_insert_eq by (rewrite length_insert; done).
    + unfold user. lia.
  - destruct (rl_tables _ _ _ HR2) as (lvl & par & Hok & _).
    assert (0 ≤ pa) as Hpa.
    { destruct Hf as [Hf _]. pose proof (Z.div_mod pa 4096 ltac:(lia)).
      pose proof (Z.mod_pos_bound pa 4096 ltac:(lia)). lia. }
    destruct (free_frame_frees s2 pa (tk_wf _ _ _ _ Hok) Hpa) as [_ _ Hb]. apply Hb; auto.
Qed.

(** ** Witnesses: 64 KiB of RAM at 1 MiB, its last frame held by a process *)

Definition sample_ram : FrameAlloc.BootMemMap := FrameAlloc.map_push [] 0x100000 0x10000.
Definition sample_frames : FrameAlloc.FrameBitmap :=
  FrameAlloc.reserve_range
    (FrameAlloc.init_from_regions FrameAlloc.FrameBitmap_new sample_ram 0) 0x10F000 1.
Definition sample_mm : Mm := mkMm (λ _, 0) sample_frames 0x1000 [].
Definition sample_cs : list cmd := [New; Map 0 0x400000 0x10F000 true false].

Definition run_state (q : outcome (Mm * list Z * list (reply * Mm))) : Mm :=
  match q with Val (s, _, _) => s | Panic => sample_mm end.
Definition run_roots (q : outcome (Mm * list Z * list (reply * Mm))) : list Z * list reply :=
  match q with Val (_, roots, log) => (roots, fst <$> log) | Panic => ([], []) end.

(** The process runs: [cr3] is its root. *)
Definition activate (s : Mm) (r : Z) : Mm := mkMm (mem s) (frames s) r (flushed s).
Definition sample_active : Mm := activate (run_state (exec_all sample_mm [] sample_cs)) 0x100000.
Definition sample_space : space := {[ 0x400 := (0x10F000, true, false) ]}.

Lemma sample_ram_nodup : NoDup (FrameAlloc.boot_frames sample_ram).
Proof. apply (bool_decide_eq_true_1 _). vm_compute. reflexivity. Qed.

Lemma reserved_wf map b l :
  NoDup (FrameAlloc.boot_frames map) → 0 ≤ b →
  FrameAlloc.wf (FrameAlloc.bits (FrameAlloc.reserve_range
    (FrameAlloc.init_from_regions FrameAlloc.FrameBitmap_new map 0) b l)).
Proof.
  intros Hnd Hb.
  exact (FrameAlloc.inv_wf _ _ (FrameAlloc.inv_reserve _ _ b l (FrameAlloc.boot_inv map 0 Hnd) Hb)).
Qed.

Lemma boot_ok_intro m f c fl :
  FrameAlloc.wf (FrameAlloc.bits f) → Z.land c PHYS_MASK < PHYS_LIMIT → boot_ok (mkMm m f c fl).
Proof. by split. Qed.

Lemma sample_boot_ok : boot_ok sample_mm.
Proof.
  unfold sample_mm, sample_frames. apply boot_ok_intro; [|reflexivity].
  apply reserved_wf; [exact sample_ram_nodup|lia].
Qed.

Lemma sample_cs_user : Forall user_cmd sample_cs.
Proof. repeat apply Forall_cons_2; [done|cbn; unfold user; lia|apply Forall_nil_2]. Qed.

Lemma sample_roots :
  run_roots (exec_all sample_mm [] sample_cs) = ([0x100000], [RNew true; RUnit (Ok tt)]).
Proof. vm_compute. reflexivity. Qed.

Lemma sample_rel : rel sample_active [0x100000] [sample_space].
Proof.
  unfold sample_active. pose proof sample_roots as Hroots.
  destruct (sim_all sample_cs sample_mm [] [] (rel_boot _ sample_boot_ok) sample_cs_user)
    as (s & roots & log & sps & Hrun & Hspec & HR).
  rewrite Hrun in Hroots |- *. cbn [run_roots run_state] in *.
  inversion Hspec as [|? ? rep1 s1 sps1 ? log1 ? H1 Hs1]; subst.
  inversion Hs1 as [|? ? rep2 s2 sps2 ? log2 ? H2 Hs2]; subst.
  inversion Hs2; subst. cbn in Hroots. injection Hroots as -> -> ->.
  inversion H1; subst. inversion H2 as [| | |k sp va pa w x Hk| | | | | |]; subst.
  cbn in Hk. injection Hk as <-. destruct HR as [_ Hnd Hsp Hok]. split; [done|done| |done].
  exact Hsp.
Qed.

Lemma paging_refines_witness :
  ∃ s' roots log sps, exec_all sample_mm [] sample_cs = Val (s', roots, log) ∧
    spec_all [] sample_cs log sps.
Proof.
  destruct (paging_refines_spaces sample_cs sample_mm sample_boot_ok sample_cs_user)
    as (s' & roots & log & sps & H1 & H2 & _).
  exists s', roots, log, sps. exact (conj H1 H2).
Defined.

Lemma demand_page_witness :
  ∃ q, demand_page sample_active 0x300000123 0 = Val q ∧
    paged sample_active [0x100000] [sample_space] 0 sample_space (0x300000123 / 4096) 0 q.
Proof.
  apply (demand_page_functional sample_active [0x100000] [sample_space] 0 0x100000 sample_space).
  - exact sample_rel.
  - reflexivity.
  - reflexivity.
  - reflexivity.
  - split; [discriminate|reflexivity].
Defined.

Lemma teardown_witness :
  ∃ s, mem (free_user_pml4 s 0x100000) = mem s ∧
    FrameAlloc.is_free (FrameAlloc.bits (frames (free_user_pml4 s 0x100000))) 0x100 = true.
Proof.
  destruct (exec_all sample_mm [] sample_cs) as [[[s roots] log]|] eqn:E.
  - pose proof sample_roots as Hr. rewrite E in Hr. cbn in Hr. injection Hr as -> _.
    exists s. destruct (teardown_releases_exactly sample_cs sample_mm s [0x100000] log 0x100000 0x100
      sample_boot_ok sample_cs_user E) as [Hm Hb].
    + left.
    + split; [discriminate|reflexivity].
    + split; [exact Hm|]. apply Hb. right. left. reflexivity.
  - exfalso. pose proof sample_roots as Hr. rewrite E in Hr. discriminate Hr.
Defined.

Lemma sample_fault_resolved :
  match demand_page sample_active (0x100400 * 4096) 0 with Val (_, b) => b | Panic => false end = true.
Proof. vm_compute. reflexivity. Qed.

Lemma mirror_unmap_witness :
  ∃ s1 s2, demand_page sample_active (0x100400 * 4096) 0 = Val (s1, true) ∧
    unmap_user_range s1 0x100000 (0x100400 * 4096) 4096 = Val s2 ∧
    translate_user_page_flags s2 0x100000 ((0x100400 - 0x100000) * 4096) =
      Some (0x10F000, true, false) ∧
    FrameAlloc.is_free (FrameAlloc.bits (frames s2)) (0x10F000 / 4096) = true.
Proof.
  pose proof sample_fault_resolved as Hb.
  destruct (demand_page sample_active (0x100400 * 4096) 0) as [[s1 b]|] eqn:E; [|discriminate].
  subst b. exists s1.
  destruct (mirror_unmap_frees_shared_frame sample_active [0x100000] [sample_space] 0 0x100000
    sample_space 0x100400 0x10F000 true false s1) as (s2 & H).
  - exact sample_rel.
  - reflexivity.
  - reflexivity.
  - reflexivity.
  - split; [discriminate|reflexivity].
  - reflexivity.
  - reflexivity.
  - split; [discriminate|reflexivity].
  - exact E.
  - exists s2. split; [reflexivity|exact H].
Defined.

End Paging.
