(* ===== verification/VaAlloc.v ===== *)
(** * Address ranges of user spaces ([process/dl.rs])

    The part of [LibTable] that hands out virtual address ranges: one pair of
    bump cursors per address space and a table of recycled ranges.  Frames are
    mapped later, by the pager, so whether a range is taken shows only in the
    cursors and in the page tables once a page was touched; [mmap_anon] asks
    the page tables through [Paging.translate_user_page].

    The history of an address space is a list of reserved ranges, of libraries
    and of anonymous mappings.  The result is [va_ranges_disjoint]: recorded
    ranges never overlap; [mmap_hint_not_reserved] shows that a hint that is
    honoured is not recorded. *)

From Stdlib Require Import ZArith Lia.
From stdpp Require Import base numbers strings option relations list.
From S2P Require Import Prelude FrameAlloc Paging.

Local Open Scope Z_scope.

Module VaAlloc.

Definition LIB_VA_BASE : Z := 0x140000000.
Definition ANON_VA_BASE : Z := 0x310000000.
Definition LIB_VA_STRIDE : Z := 0x01000000.
Definition MAX_RECYCLED : nat := 256.
Definition MAX_AS_SLOTS : nat := 64.

Record RecycledRange := mkRange { rr_pml4 : Z; rr_va : Z; rr_size : Z }.

(** [(pml4_phys, next_lib_va, next_anon_va)]; [pml4_phys = 0] is free. *)
Abbreviation as_slot := (Z * Z * Z)%type.

Record LibTable := mkTable {
  as_slots : list as_slot;
  recycled : list (option RecycledRange)
}.

Definition LibTable_new : LibTable :=
  mkTable (replicate MAX_AS_SLOTS (0, 0, 0)) (replicate MAX_RECYCLED None).

Definition set_slots (t : LibTable) (l : list as_slot) : LibTable := mkTable l (recycled t).
Definition set_recycled (t : LibTable) (l : list (option RecycledRange)) : LibTable :=
  mkTable (as_slots t) l.

Definition owned_by (pml4_phys : Z) (s : as_slot) : bool := s.1.1 =? pml4_phys.

(** [(va + mask) & !mask]. *)
Definition align_up (va mask : Z) : Z := Z.ldiff (u64 (va + mask)) mask.

Definition bump_lib_va (t : LibTable) (pml4_phys size : Z) : LibTable * Z :=
  let aligned := u64 (size + LIB_VA_STRIDE - 1) / LIB_VA_STRIDE * LIB_VA_STRIDE in
  match find_first (owned_by pml4_phys) (as_slots t) with
  | Some s =>
      (set_slots t (default (as_slots t) (update_first (owned_by pml4_phys)
         (λ s, (s.1.1, u64 (s.1.2 + aligned), s.2)) (as_slots t))), s.1.2)
  | None =>
      match update_first (owned_by 0) (λ _, (pml4_phys, LIB_VA_BASE + aligned, ANON_VA_BASE))
              (as_slots t) with
      | Some l => (set_slots t l, LIB_VA_BASE)
      | None =>
          let s0 := as_slots t !!! O in
          (set_slots t (<[O := (s0.1.1, u64 (s0.1.2 + aligned), s0.2)]> (as_slots t)), s0.1.2)
      end
  end.

(** The scan of the recycled ranges: the first one of the space that fits is
    cut at the end of the new range or removed. *)
Fixpoint take_recycled (l : list (option RecycledRange)) (pml4_phys align_mask aligned : Z)
    : option (list (option RecycledRange) * Z) :=
  match l with
  | [] => None
  | o :: l' =>
      let rest :=
        match take_recycled l' pml4_phys align_mask aligned with
        | Some (l2, base) => Some (o :: l2, base)
        | None => None
        end in
      match o with
      | None => rest
      | Some r =>
          if rr_pml4 r =? pml4_phys then
            let aligned_va := align_up (rr_va r) align_mask in
            let end_va := u64 (aligned_va + aligned) in
            if end_va <=? u64 (rr_va r + rr_size r) then
              let remaining_end := u64 (rr_va r + rr_size r) in
              if end_va <? remaining_end
              then Some (Some (mkRange pml4_phys end_va (remaining_end - end_va)) :: l', aligned_va)
              else Some (None :: l', aligned_va)
            else rest
          else rest
      end
  end.

Definition mask_of (size : Z) : Z := if 4096 <? size then 0x1fffff else 0xfff.

Definition bump_anon_va (t : LibTable) (pml4_phys size : Z) : LibTable * Z :=
  let aligned := u64 (size + 4095) / 4096 * 4096 in
  let align_mask := mask_of size in
  match take_recycled (recycled t) pml4_phys align_mask aligned with
  | Some (l, base) => (set_recycled t l, base)
  | None =>
      match find_first (owned_by pml4_phys) (as_slots t) with
      | Some s =>
          let base := align_up s.2 align_mask in
          (set_slots t (default (as_slots t) (update_first (owned_by pml4_phys)
             (λ s, (s.1, u64 (base + aligned))) (as_slots t))), base)
      | None =>
          let base := align_up ANON_VA_BASE align_mask in
          match update_first (owned_by 0) (λ _, (pml4_phys, LIB_VA_BASE, base + aligned))
                  (as_slots t) with
          | Some l => (set_slots t l, base)
          | None =>
              let s0 := as_slots t !!! O in
              let base := align_up s0.2 align_mask in
              (set_slots t (<[O := (s0.1, u64 (base + aligned))]> (as_slots t)), base)
          end
      end
  end.

Definition set_anon_cursor (t : LibTable) (pml4_phys va : Z) : LibTable :=
  match update_first (owned_by pml4_phys) (λ s, if s.2 <? va then (s.1, va) else s) (as_slots t) with
  | Some l => set_slots t l
  | None =>
      match update_first (owned_by 0) (λ _, (pml4_phys, LIB_VA_BASE, va)) (as_slots t) with
      | Some l => set_slots t l
      | None => t
      end
  end.

(** The first mapped page of [pages] pages from [va]. *)
Fixpoint first_mapped (mm : Paging.Mm) (pml4_phys va : Z) (pages : nat) : option Z :=
  match pages with
  | O => None
  | S n =>
      match Paging.translate_user_page mm pml4_phys va with
      | Some _ => Some va
      | None => first_mapped mm pml4_phys (u64 (va + 4096)) n
      end
  end.

(** The ['retry] loop; it gives up after 131072 conflicts, so [fuel] that many
    and one rounds are enough. *)
Fixpoint settle (fuel : nat) (mm : Paging.Mm) (pml4_phys : Z) (pages : nat)
    (align_mask candidate : Z) : Z :=
  match first_mapped mm pml4_phys candidate pages with
  | None => candidate
  | Some v =>
      let candidate' := align_up (u64 (v + 4096)) align_mask in
      match fuel with
      | O => candidate'
      | S fuel' => settle fuel' mm pml4_phys pages align_mask candidate'
      end
  end.

Definition MAX_CONFLICTS : nat := Z.to_nat 131072.

Definition mmap_anon (mm : Paging.Mm) (t : LibTable) (pml4_phys hint_va pages : Z)
    : LibTable * Z :=
  if (pages =? 0) || (65536 <? pages) then (t, u64_MAX)
  else
    let size_bytes := pages * 4096 in
    if negb (hint_va =? 0) then
      let aligned := Paging.page_floor hint_va in
      match first_mapped mm pml4_phys aligned (Z.to_nat pages) with
      | None => (t, aligned)
      | Some _ => bump_anon_va t pml4_phys size_bytes
      end
    else
      let '(t1, candidate0) := bump_anon_va t pml4_phys size_bytes in
      let candidate :=
        settle MAX_CONFLICTS mm pml4_phys (Z.to_nat pages) (mask_of size_bytes) candidate0 in
      (set_anon_cursor t1 pml4_phys (u64 (candidate + size_bytes)), candidate).

(** [root] is the page-table root of the running process, if it has one. *)
Definition recycle_anon_va (t : LibTable) (root : option Z) (va size : Z) : LibTable :=
  match root with
  | None => t
  | Some pml4_phys =>
      if (pml4_phys =? 0) || (va =? 0) || (size =? 0) then t
      else
        let adjacent := λ o : option RecycledRange,
          match o with
          | Some r => (rr_pml4 r =? pml4_phys) &&
              ((u64 (rr_va r + rr_size r) =? va) || (u64 (va + size) =? rr_va r))
          | None => false
          end in
        let merge := λ o : option RecycledRange,
          match o with
          | Some r =>
              if u64 (rr_va r + rr_size r) =? va
              then Some (mkRange (rr_pml4 r) (rr_va r) (u64 (rr_size r + size)))
              else Some (mkRange (rr_pml4 r) va (u64 (rr_size r + size)))
          | None => None
          end in
        match update_first adjacent merge (recycled t) with
        | Some l => set_recycled t l
        | None =>
            match update_first (λ o, negb (isSome o)) (λ _, Some (mkRange pml4_phys va size))
                    (recycled t) with
            | Some l => set_recycled t l
            | None => t
            end
        end
  end.

Definition clone_as_slot (t : LibTable) (parent_pml4 child_pml4 : Z) : LibTable :=
  if (parent_pml4 =? 0) || (child_pml4 =? 0) then t
  else
    let '(lib_va, anon_va) :=
      match find_first (owned_by parent_pml4) (as_slots t) with
      | Some s => (s.1.2, s.2)
      | None => (LIB_VA_BASE, ANON_VA_BASE)
      end in
    match update_first (owned_by child_pml4) (λ s, (s.1.1, lib_va, anon_va)) (as_slots t) with
    | Some l => set_slots t l
    | None =>
        match update_first (owned_by 0) (λ _, (child_pml4, lib_va, anon_va)) (as_slots t) with
        | Some l => set_slots t l
        | None => t
        end
    end.

(** ** Slot tables *)

Lemma find_update_same {A} (p : A → bool) g l l' :
  update_first p g l = Some l' → (∀ x, p x = true → p (g x) = true) →
  find_first p l' = g <$> find_first p l.
Proof.
  intros H Hg. revert l' H. induction l as [|x l IH]; intros l' H; simpl in *; [done|].
  destruct (p x) eqn:Hp; [simplify_eq; simpl; by rewrite Hg|].
  destruct (update_first p g l) as [m|]; simplify_eq/=. rewrite Hp. by apply IH.
Qed.

Lemma find_update_other {A} (p q : A → bool) g l l' :
  update_first p g l = Some l' → (∀ x, p x = true → q x = false ∧ q (g x) = false) →
  find_first q l' = find_first q l.
Proof.
  intros H Hg. revert l' H. induction l as [|x l IH]; intros l' H; simpl in *; [done|].
  destruct (p x) eqn:Hp.
  { simplify_eq. simpl. by destruct (Hg x Hp) as [-> ->]. }
  destruct (update_first p g l) as [m|]; simplify_eq/=. destruct (q x); [done|by apply IH].
Qed.

Lemma find_update_new {A} (p q : A → bool) g l l' :
  update_first p g l = Some l' → (∀ x, p x = true → q (g x) = true) → find_first q l = None →
  find_first q l' = g <$> find_first p l.
Proof.
  intros H Hg. revert l' H. induction l as [|x l IH]; intros l' H Hq; simpl in *; [done|].
  destruct (q x) eqn:Hqx; [done|].
  destruct (p x) eqn:Hp; [simplify_eq; simpl; by rewrite Hg|].
  destruct (update_first p g l) as [m|]; simplify_eq/=. rewrite Hqx. by apply IH.
Qed.

Lemma update_find {A} (p : A → bool) g l x :
  find_first p l = Some x → ∃ l', update_first p g l = Some l'.
Proof.
  induction l as [|y l IH]; simpl; [done|]. destruct (p y); [by eauto|].
  intros H. destruct (IH H) as [l' ->]. by eauto.
Qed.

(** [update_first] at the element it changes. *)
Lemma update_first_split {A} (p : A → bool) g l l' :
  update_first p g l = Some l' →
  ∃ pre x post, l = pre ++ x :: post ∧ p x = true ∧ l' = pre ++ g x :: post.
Proof.
  revert l'. induction l as [|x l IH]; intros l' H; simpl in *; [done|].
  destruct (p x) eqn:Hp; [simplify_eq; by exists [], x, l|].
  destruct (update_first p g l) as [m|]; simplify_eq/=.
  destruct (IH m eq_refl) as (pre & y & post & -> & Hy & ->). by exists (x :: pre), y, post.
Qed.

(** ** Ranges *)

Definition rr_end (r : RecycledRange) : Z := rr_va r + rr_size r.

Definition disjoint (r1 r2 : RecycledRange) : Prop :=
  rr_pml4 r1 ≠ rr_pml4 r2 ∨ rr_end r1 ≤ rr_va r2 ∨ rr_end r2 ≤ rr_va r1.

(** [r] lies within [r0]. *)
Definition within (r r0 : RecycledRange) : Prop :=
  rr_pml4 r = rr_pml4 r0 ∧ rr_va r0 ≤ rr_va r ∧ rr_end r ≤ rr_end r0.

Fixpoint pairwise (l : list RecycledRange) : Prop :=
  match l with
  | [] => True
  | r :: l' => Forall (disjoint r) l' ∧ pairwise l'
  end.

Lemma disjoint_sym r1 r2 : disjoint r1 r2 → disjoint r2 r1.
Proof. unfold disjoint. intuition. Qed.

Lemma pairwise_perm l l' : l ≡ₚ l' → pairwise l → pairwise l'.
Proof.
  induction 1 as [|x l l' Hp IH|x y l|l l1 l2 _ IH1 _ IH2]; simpl; [done| | |by auto].
  - intros [Hx Hl]. split; [by rewrite <- Hp|by apply IH].
  - intros [Hx [Hy Hl]]. apply Forall_cons in Hx as [Hxy Hx].
    split_and!; [|done|done]. constructor; [by apply disjoint_sym|done].
Qed.

Lemma pairwise_app l1 l2 :
  pairwise (l1 ++ l2) ↔ pairwise l1 ∧ pairwise l2 ∧ Forall (λ r, Forall (disjoint r) l2) l1.
Proof.
  induction l1 as [|r l1 IH]; simpl; [rewrite Forall_nil; tauto|].
  rewrite Forall_app, Forall_cons, IH. tauto.
Qed.

Lemma disjoint_within r r0 q : within r r0 → disjoint r0 q → disjoint r q.
Proof. unfold within, disjoint. intros (-> & ? & ?) [?|[?|?]]; [by left|right; left; lia|right; right; lia]. Qed.

(** Replacing a range by disjoint parts of it. *)
Lemma pairwise_split r parts rest :
  pairwise (r :: rest) → Forall (λ q, within q r) parts → pairwise parts →
  pairwise (parts ++ rest).
Proof.
  intros [Hr Hrest] Hin Hp. apply pairwise_app. split_and!; [done|done|].
  eapply Forall_impl; [done|]. intros q Hq. eapply Forall_impl; [exact Hr|].
  intros z. by apply disjoint_within.
Qed.

(** Replacing two adjacent ranges by their union. *)
Lemma pairwise_merge a b c rest :
  pairwise (a :: b :: rest) → rr_pml4 b = rr_pml4 a → rr_pml4 c = rr_pml4 a →
  Forall (λ r, 0 < rr_size r) rest → 0 ≤ rr_size a → 0 ≤ rr_size b →
  (rr_va c = rr_va a ∧ rr_end a = rr_va b ∧ rr_end c = rr_end b) ∨
  (rr_va c = rr_va b ∧ rr_end b = rr_va a ∧ rr_end c = rr_end a) →
  pairwise (c :: rest).
Proof.
  intros [Ha [Hb Hrest]] Eb Ec Sr Sa Sb Hc. apply Forall_cons in Ha as [_ Ha]. split; [|done].
  rewrite Forall_forall in Ha, Hb, Sr |- *. intros q Hq.
  specialize (Ha q Hq). specialize (Hb q Hq). specialize (Sr q Hq). simpl in Sr.
  unfold disjoint, rr_end in *. rewrite Eb in Hb. rewrite Ec. lia.
Qed.

(** ** Alignment *)

Definition is_mask (mask : Z) : Prop := mask = 0xfff ∨ mask = 0x1fffff.

Lemma mask_of_ok size : is_mask (mask_of size).
Proof. unfold mask_of, is_mask. destruct (_ <? _); auto. Qed.

Lemma align_up_spec va mask :
  is_mask mask → 0 ≤ va < 2 ^ 60 →
  va ≤ align_up va mask ≤ va + mask ∧ align_up va mask mod 4096 = 0.
Proof.
  intros Hm Hva. unfold align_up, u64, wrap. rewrite Z.mod_small by (destruct Hm; lia).
  assert (∃ k, 12 ≤ k ∧ mask = Z.ones k) as (k & Hk & ->).
  { destruct Hm as [->| ->]; [by exists 12|by exists 21]. }
  rewrite Z.ldiff_ones_r, Z.shiftl_mul_pow2, Z.shiftr_div_pow2 by lia.
  rewrite Z.ones_equiv, <- Z.sub_1_r. set (P := 2 ^ k). assert (P = 4096 * 2 ^ (k - 12)) as HP.
  { unfold P. change 4096 with (2 ^ 12). rewrite <- Z.pow_add_r by lia. f_equal. lia. }
  assert (0 < 2 ^ (k - 12)) as Hpos by (apply Z.pow_pos_nonneg; lia).
  assert (0 < P) as HP0 by (clearbody P; lia). clearbody P.
  pose proof (Z.div_mod (va + (P - 1)) P ltac:(lia)).
  pose proof (Z.mod_pos_bound (va + (P - 1)) P ltac:(lia)).
  split; [lia|]. set (q := (va + (P - 1)) / P). rewrite HP.
  replace (q * (4096 * 2 ^ (k - 12))) with (q * 2 ^ (k - 12) * 4096) by lia. apply Z.mod_mul. lia.
Qed.

(** ** The invariant *)

(** The end of the user half. *)
Definition USER_END : Z := 2 ^ 47.

Definition cursor (t : LibTable) (X : Z) : option Z := snd <$> find_first (owned_by X) (as_slots t).

(** The space has a slot or can get one. *)
Definition room (t : LibTable) (X : Z) : Prop :=
  isSome (find_first (owned_by X) (as_slots t)) || isSome (find_first (owned_by 0) (as_slots t)) = true.

Definition all_ranges (t : LibTable) (live : list RecycledRange) : list RecycledRange :=
  live ++ flatten (recycled t).

(** A reserved or recycled range lies between the base and its space's cursor. *)
Definition good (t : LibTable) (r : RecycledRange) : Prop :=
  0 < rr_size r ∧ ANON_VA_BASE ≤ rr_va r ∧ rr_pml4 r ≠ 0 ∧
  ∃ c, cursor t (rr_pml4 r) = Some c ∧ rr_end r ≤ c.

Record inv (t : LibTable) (live : list RecycledRange) : Prop := mkInv {
  i_cur X c : X ≠ 0 → cursor t X = Some c → ANON_VA_BASE ≤ c ≤ USER_END;
  i_good : Forall (good t) (all_ranges t live);
  i_pair : pairwise (all_ranges t live)
}.

Lemma inv_perm t live t' live' :
  as_slots t' = as_slots t → all_ranges t live ≡ₚ all_ranges t' live' → inv t live → inv t' live'.
Proof.
  intros Es Hp [Hc Hg Hd]. split.
  - intros X c. unfold cursor. rewrite Es. apply Hc.
  - rewrite <- Hp. eapply Forall_impl; [exact Hg|]. intros r. unfold good, cursor. by rewrite Es.
  - by eapply pairwise_perm.
Qed.

(** Cursors may only move up. *)
Lemma inv_cursors t l live :
  inv t live →
  (∀ X c, X ≠ 0 → cursor t X = Some c → ∃ c', cursor (set_slots t l) X = Some c' ∧ c ≤ c') →
  (∀ X c, X ≠ 0 → cursor (set_slots t l) X = Some c → ANON_VA_BASE ≤ c ≤ USER_END) →
  inv (set_slots t l) live.
Proof.
  intros [_ Hg Hd] Hmono Hc. split; [done| |done]. eapply Forall_impl; [exact Hg|].
  intros r (Hs & Hv & Hp & c & Hcur & Hle). split_and!; try done.
  destruct (Hmono _ _ Hp Hcur) as (c' & Hc' & ?). exists c'. split; [done|lia].
Qed.

(** ** Slots *)

Lemma owned_other X Y s : X ≠ Y → owned_by X s = true → owned_by Y s = false.
Proof. unfold owned_by. intros. unbool. lia. Qed.

(** What writing a cursor for [X] does to all cursors. *)
Lemma cursor_update t X g l :
  update_first (owned_by X) g (as_slots t) = Some l → (∀ s, (g s).1.1 = s.1.1) →
  (cursor (set_slots t l) X = snd ∘ g <$> find_first (owned_by X) (as_slots t)) ∧
  ∀ Y, Y ≠ X → cursor (set_slots t l) Y = cursor t Y.
Proof.
  intros H Hg. unfold cursor. cbn [set_slots as_slots]. split.
  - rewrite (find_update_same _ _ _ _ H).
    + by rewrite <- option_fmap_compose.
    + intros s. unfold owned_by. by rewrite Hg.
  - intros Y Hne. rewrite (find_update_other _ _ _ _ _ H); [done|]. intros s Hs.
    split; [by eapply owned_other|]. apply (owned_other X); [done|]. revert Hs.
    unfold owned_by. by rewrite Hg.
Qed.

Lemma cursor_new t X lib c l :
  update_first (owned_by 0) (λ _, (X, lib, c)) (as_slots t) = Some l → X ≠ 0 →
  cursor t X = None →
  cursor (set_slots t l) X = Some c ∧
  ∀ Y, Y ≠ 0 → Y ≠ X → cursor (set_slots t l) Y = cursor t Y.
Proof.
  intros H HX Hn. unfold cursor in *. cbn [set_slots as_slots]. split.
  - destruct (find_first (owned_by X) (as_slots t)) eqn:E; [done|].
    rewrite (find_update_new _ (owned_by X) _ _ _ H); [|intros; apply Z.eqb_refl|done].
    apply update_first_split in H as (pre & x & post & Hl & Hx & _).
    destruct (find_first (owned_by 0) (as_slots t)) eqn:E0; [done|].
    rewrite find_first_None in E0. rewrite (E0 x) in Hx; [done|]. rewrite Hl.
    apply elem_of_app. right. left.
  - intros Y HY Hne. rewrite (find_update_other _ _ _ _ _ H); [done|]. intros s Hs.
    split; [by eapply (owned_other 0)|]. unfold owned_by. cbn. by apply Z.eqb_neq.
Qed.

Lemma room_new t X g :
  room t X → cursor t X = None → ∃ l, update_first (owned_by 0) g (as_slots t) = Some l.
Proof.
  unfold room, cursor. destruct (find_first (owned_by X) (as_slots t)); [done|]. cbn.
  destruct (find_first (owned_by 0) (as_slots t)) as [s|] eqn:E; [|done]. intros _ _.
  by eapply update_find.
Qed.

(** A cursor set at or above the old one. *)
Lemma inv_set_cursor t live X l c :
  inv t live → X ≠ 0 → ANON_VA_BASE ≤ c ≤ USER_END →
  default 0 (cursor t X) ≤ c →
  cursor (set_slots t l) X = Some c →
  (∀ Y, Y ≠ 0 → Y ≠ X → cursor (set_slots t l) Y = cursor t Y) → inv (set_slots t l) live.
Proof.
  intros HI HX Hc Hle Hcur Hoth. apply inv_cursors; [done| |].
  - intros Y d HY Hd. destruct (decide (Y = X)) as [->|Hne].
    + exists c. rewrite Hd in Hle. done.
    + exists d. rewrite Hoth by done. by split; [|lia].
  - intros Y d HY Hd. destruct (decide (Y = X)) as [->|Hne]; [congruence|].
    rewrite Hoth in Hd by done. by eapply i_cur.
Qed.

(** ** Handing out ranges *)

(** Without a recycled range: the cursor, aligned. *)
Lemma bump_fresh t live X size :
  inv t live → X ≠ 0 → room t X → 0 < size ≤ 2 ^ 28 → size mod 4096 = 0 →
  take_recycled (recycled t) X (mask_of size) size = None →
  ∃ l base, bump_anon_va t X size = (set_slots t l, base) ∧
    default ANON_VA_BASE (cursor t X) ≤ base ≤ USER_END + 0x1fffff ∧
    base mod 4096 = 0 ∧ cursor (set_slots t l) X = Some (base + size) ∧
    ∀ Y, Y ≠ 0 → Y ≠ X → cursor (set_slots t l) Y = cursor t Y.
Proof.
  intros HI HX Hroom Hs Hmod Htake. unfold bump_anon_va.
  assert (u64 (size + 4095) / 4096 * 4096 = size) as ->.
  { unfold u64, wrap. rewrite Z.mod_small by lia. pose proof (Z.div_mod size 4096).
    replace (size + 4095) with (size / 4096 * 4096 + 4095) by lia.
    rewrite Z.div_add_l by lia. change (4095 / 4096) with 0. lia. }
  rewrite Htake. pose proof (i_cur _ _ HI X) as Hcur. unfold cursor in Hcur.
  pose proof (mask_of_ok size) as Hmask. assert (0 ≤ mask_of size ≤ 0x1fffff) by (destruct Hmask; lia).
  destruct (find_first (owned_by X) (as_slots t)) as [s|] eqn:Ef.
  - specialize (Hcur s.2 HX eq_refl). unfold ANON_VA_BASE, USER_END in *.
    destruct (align_up_spec s.2 (mask_of size) Hmask ltac:(lia)) as [Hb Hal].
    set (base := align_up s.2 (mask_of size)) in *.
    destruct (update_find _ (λ s : as_slot, (s.1, u64 (base + size))) _ _ Ef) as [l Hl].
    rewrite Hl. exists l, base. destruct (cursor_update _ _ _ _ Hl) as [Hc1 Hc2]; [done|].
    assert (cursor t X = Some s.2) as Hcx by (unfold cursor; by rewrite Ef).
    split; [done|]. rewrite Hcx. change (default 0x310000000 (Some s.2)) with s.2.
    split; [lia|]. split; [done|]. split; [|auto]. rewrite Hc1, Ef. cbn. unfold u64, wrap.
    by rewrite Z.mod_small by lia.
  - destruct (align_up_spec ANON_VA_BASE (mask_of size) Hmask) as [Hb Hal];
      [unfold ANON_VA_BASE; lia|].
    set (base := align_up ANON_VA_BASE (mask_of size)) in *.
    assert (cursor t X = None) as Hn by (unfold cursor; by rewrite Ef).
    destruct (room_new t X (λ _, (X, LIB_VA_BASE, base + size)) Hroom Hn) as [l Hl].
    rewrite Hl. exists l, base. destruct (cursor_new _ _ _ _ _ Hl HX Hn) as [Hc1 Hc2].
    rewrite Hn. change (default ANON_VA_BASE None) with ANON_VA_BASE.
    unfold ANON_VA_BASE, USER_END in *. split_and!; try done; lia.
Qed.

(** The retry loop only moves up. *)
Lemma first_mapped_range mm X va n v :
  0 ≤ va → va + Z.of_nat n * 4096 < 2 ^ 63 → first_mapped mm X va n = Some v →
  va ≤ v < va + Z.of_nat n * 4096.
Proof.
  revert va. induction n as [|n IH]; intros va H0 Hb H; cbn [first_mapped] in H; [done|].
  destruct (Paging.translate_user_page mm X va); [simplify_eq; lia|].
  unfold u64, wrap in H. rewrite Z.mod_small in H by lia.
  apply IH in H; lia.
Qed.

Lemma settle_range fuel mm X n mask c :
  is_mask mask → Z.of_nat n ≤ 65536 → 0 ≤ c → c mod 4096 = 0 →
  c + (Z.of_nat fuel + 1) * (2 ^ 28 + 2 ^ 22) < 2 ^ 59 →
  c ≤ settle fuel mm X n mask c ≤ c + (Z.of_nat fuel + 1) * (2 ^ 28 + 2 ^ 22) ∧
  settle fuel mm X n mask c mod 4096 = 0.
Proof.
  intros Hm Hn. assert (0 ≤ mask ≤ 0x1fffff) by (destruct Hm; lia).
  revert c. induction fuel as [|fuel IH]; intros c H0 Hal Hb; cbn [settle];
    (destruct (first_mapped mm X c n) as [v|] eqn:Ef; [|split; [lia|done]]);
    (apply first_mapped_range in Ef; [|lia|lia]);
    unfold u64, wrap; (rewrite (Z.mod_small (v + 4096)) by lia);
    destruct (align_up_spec (v + 4096) mask Hm ltac:(lia)) as [Hv Hal'].
  - split; [lia|done].
  - destruct (IH (align_up (v + 4096) mask) ltac:(lia) Hal' ltac:(lia)) as [H1 H2].
    split; [lia|done].
Qed.

Lemma settle_clear fuel mm X n mask c : first_mapped mm X c n = None → settle fuel mm X n mask c = c.
Proof. intros H. destruct fuel; cbn [settle]; by rewrite H. Qed.

Lemma inv_add t live r :
  inv t live → good t r → Forall (disjoint r) (all_ranges t live) → inv t (r :: live).
Proof. intros [Hc Hg Hd] Hr Hdis. split; [done|by constructor|done]. Qed.

(** Moving a cursor that exists to [va] or keeping it, whichever is higher. *)
Lemma set_anon_cursor_spec t X c va :
  cursor t X = Some c →
  ∃ l, set_anon_cursor t X va = set_slots t l ∧
    cursor (set_slots t l) X = Some (Z.max c va) ∧
    ∀ Y, Y ≠ X → cursor (set_slots t l) Y = cursor t Y.
Proof.
  unfold set_anon_cursor. intros Hc. unfold cursor in Hc.
  destruct (find_first (owned_by X) (as_slots t)) as [s|] eqn:Ef; [|done].
  set (g := λ s : as_slot, if s.2 <? va then (s.1, va) else s).
  destruct (update_find _ g _ _ Ef) as [l Hl]. rewrite Hl. exists l.
  destruct (cursor_update _ _ _ _ Hl) as [Hc1 Hc2].
  { intros s'. unfold g. by destruct (_ <? _). }
  split; [done|]. split; [|done]. rewrite Hc1, Ef. cbn in *. simplify_eq. unfold g.
  destruct (Z.ltb_spec s.2 va); cbn; f_equal; lia.
Qed.

Lemma mmap_fresh mm t live X pages t' base :
  inv t live → X ≠ 0 → room t X → 0 < pages ≤ 65536 →
  take_recycled (recycled t) X (mask_of (pages * 4096)) (pages * 4096) = None →
  mmap_anon mm t X 0 pages = (t', base) → base + pages * 4096 ≤ USER_END →
  inv t' (mkRange X base (pages * 4096) :: live).
Proof.
  intros HI HX Hroom Hp Htake Hm Hend. unfold mmap_anon in Hm.
  rewrite (proj2 (Z.eqb_neq pages 0)), (proj2 (Z.ltb_ge _ _)) in Hm by lia.
  cbn [orb Z.eqb negb] in Hm. pose proof (mask_of_ok (pages * 4096)) as Hmask.
  destruct (bump_fresh t live X (pages * 4096) HI HX Hroom ltac:(lia)) as
    (l & b0 & Hb & Hlo & Hal & Hcur & Hoth); [apply Z.mod_mul; lia|done|].
  rewrite Hb in Hm. unfold USER_END in *.
  assert (ANON_VA_BASE ≤ default ANON_VA_BASE (cursor t X)) as Hbase.
  { destruct (cursor t X) as [c|] eqn:E; cbn; [|done]. by destruct (i_cur _ _ HI X c HX E). }
  unfold ANON_VA_BASE in Hbase at 1. assert (Z.of_nat MAX_CONFLICTS = 131072) as Hmc by done.
  destruct (settle_range MAX_CONFLICTS mm X (Z.to_nat pages) (mask_of (pages * 4096)) b0 Hmask)
    as [Hset _]; [lia|lia|done|lia|].
  revert Hm Hset. generalize (settle MAX_CONFLICTS mm X (Z.to_nat pages) (mask_of (pages * 4096)) b0).
  intros cand Hm Hset. injection Hm as <- ->. unfold u64, wrap. rewrite Hmc in Hset. clear Hmc.
  rewrite Z.mod_small by lia.
  destruct (set_anon_cursor_spec _ X _ (base + pages * 4096) Hcur) as (l2 & -> & Hc1 & Hc2).
  change (set_slots (set_slots t l) l2) with (set_slots t l2) in *.
  rewrite Z.max_r in Hc1 by lia. apply inv_add.
  - apply (inv_set_cursor t live X l2 (base + pages * 4096)); try done.
    + unfold ANON_VA_BASE, USER_END. lia.
    + unfold ANON_VA_BASE in Hlo. destruct (cursor t X); cbn in Hlo |- *; lia.
    + intros Y HY Hne. by rewrite Hc2, Hoth.
  - unfold good, ANON_VA_BASE, rr_end. cbn. split_and!; [lia|lia|done|eauto with lia].
  - eapply Forall_impl; [exact (i_good _ _ HI)|]. intros r (_ & _ & _ & c & Hc & Hle).
    unfold disjoint. cbn. destruct (decide (rr_pml4 r = X)) as [<-|]; [|left; congruence].
    rewrite Hc in Hlo. cbn in Hlo. right. right. lia.
Qed.

(** [l'] is [l] with a range of [size] bytes at [base] cut from a recycled
    range of space [X]. *)
Definition cut (l l' : list (option RecycledRange)) (X size base : Z) : Prop :=
  ∃ pre r post o, l = pre ++ Some r :: post ∧ l' = pre ++ o :: post ∧ rr_pml4 r = X ∧
    rr_va r ≤ base ∧ base + size ≤ rr_end r ∧ base mod 4096 = 0 ∧
    (o = None ∨ base + size < rr_end r ∧ o = Some (mkRange X (base + size) (rr_end r - (base + size)))).

Lemma cut_cons o l l' X size base : cut l l' X size base → cut (o :: l) (o :: l') X size base.
Proof.
  intros (pre & r & post & o' & -> & -> & H). by exists (o :: pre), r, post, o'.
Qed.

Lemma take_recycled_spec l X mask size l' base :
  Forall (λ r, 0 < rr_size r ∧ ANON_VA_BASE ≤ rr_va r ∧ rr_end r ≤ USER_END) (flatten l) →
  is_mask mask → 0 < size ≤ 2 ^ 28 → take_recycled l X mask size = Some (l', base) →
  cut l l' X size base.
Proof.
  intros Hg Hm Hs. revert l'. induction l as [|o l IH]; intros l' H; cbn [take_recycled] in H; [done|].
  assert (Forall (λ r, 0 < rr_size r ∧ ANON_VA_BASE ≤ rr_va r ∧ rr_end r ≤ USER_END) (flatten l) →
    match take_recycled l X mask size with
    | Some (l2, base) => Some (o :: l2, base)
    | None => None
    end = Some (l', base) → cut (o :: l) l' X size base) as Hrest.
  { intros Hg' H'. destruct (take_recycled l X mask size) as [[l3 b3]|]; [|done].
    simplify_eq. by apply cut_cons, IH. }
  destruct o as [r|]; cbn [flatten] in Hg; [|by apply Hrest].
  apply Forall_cons in Hg as [(Hsz & Hva & Hend) Hg].
  destruct (Z.eqb_spec (rr_pml4 r) X) as [HX|]; [|by apply Hrest].
  unfold rr_end, ANON_VA_BASE, USER_END in *.
  destruct (align_up_spec (rr_va r) mask Hm ltac:(lia)) as [Hb Hal].
  assert (0 ≤ mask ≤ 0x1fffff) by (destruct Hm; lia).
  unfold u64, wrap in H. rewrite !Z.mod_small in H by lia.
  destruct (Z.leb_spec (align_up (rr_va r) mask + size) (rr_va r + rr_size r)); [|by apply Hrest].
  destruct (Z.ltb_spec (align_up (rr_va r) mask + size) (rr_va r + rr_size r)); simplify_eq.
  - eexists [], r, l, _. unfold rr_end. split_and!; try done; [lia|]. by right.
  - eexists [], r, l, None. unfold rr_end. split_and!; try done; [lia|]. by left.
Qed.

Lemma inv_bounds t live :
  inv t live →
  Forall (λ r, 0 < rr_size r ∧ ANON_VA_BASE ≤ rr_va r ∧ rr_end r ≤ USER_END) (all_ranges t live).
Proof.
  intros HI. eapply Forall_impl; [exact (i_good _ _ HI)|]. intros r (? & ? & Hp & c & Hc & ?).
  destruct (i_cur _ _ HI _ c Hp Hc). split_and!; try done. lia.
Qed.

(** Cutting keeps the ranges disjoint. *)
Lemma inv_cut t live l X size base :
  inv t live → 0 < size → cut (recycled t) l X size base →
  inv (set_recycled t l) (mkRange X base size :: live) ∧
  ∃ r c, r ∈ flatten (recycled t) ∧ rr_pml4 r = X ∧ within (mkRange X base size) r ∧
    cursor t X = Some c ∧ rr_end r ≤ c.
Proof.
  intros HI Hs (pre & r & post & o & Hl & -> & HX & Hlo & Hhi & Hal & Ho).
  set (new := mkRange X base size). set (rest := live ++ flatten pre ++ flatten post).
  assert (all_ranges t live ≡ₚ r :: rest) as Hp.
  { unfold all_ranges, rest. rewrite Hl, flatten_app. cbn. by rewrite !app_assoc, Permutation_middle. }
  assert (within new r) as Hwin by (unfold within, rr_end; cbn; unfold rr_end in *; lia).
  pose proof (i_good _ _ HI) as Hg. rewrite Hp in Hg. apply Forall_cons in Hg as [Hgr Hg].
  pose proof (pairwise_perm _ _ Hp (i_pair _ _ HI)) as Hd.
  destruct Hgr as (Hsr & Hvr & Hpr & c & Hc & Hle). subst X.
  assert (all_ranges (set_recycled t (pre ++ o :: post)) (new :: live) ≡ₚ
    (new :: option_list o) ++ rest) as Hp'.
  { unfold all_ranges, rest. cbn. rewrite flatten_app. constructor.
    destruct o as [q|]; cbn; [|done]. by rewrite !app_assoc, Permutation_middle. }
  split.
  - split.
    + exact (i_cur _ _ HI).
    + rewrite Hp'. apply Forall_app. split; [|exact Hg]. constructor.
      * unfold new, good, rr_end. cbn. split_and!; [done|lia|done|]. exists c. split; [done|].
        unfold rr_end in *. lia.
      * destruct Ho as [->|[? ->]]; cbn; [constructor|]. constructor; [|constructor].
        unfold good, rr_end in *. cbn. split_and!; [lia|lia|done|]. exists c. split; [done|lia].
    + eapply pairwise_perm; [symmetry; exact Hp'|]. apply (pairwise_split r); [done| |].
      * constructor; [done|]. destruct Ho as [->|[? ->]]; cbn; [constructor|].
        constructor; [|constructor]. unfold within, rr_end in *. cbn. lia.
      * destruct Ho as [->|[? ->]]; cbn; (split; [|by repeat split; constructor]).
        -- constructor.
        -- constructor; [|constructor]. unfold disjoint, rr_end. cbn. lia.
  - exists r, c. split_and!; try done. rewrite Hl, flatten_app. apply elem_of_app. right. left.
Qed.

Lemma first_mapped_clear mm X va n :
  0 ≤ va → va + Z.of_nat n * 4096 < 2 ^ 63 →
  (∀ a, va ≤ a < va + Z.of_nat n * 4096 → Paging.translate_user_page mm X a = None) →
  first_mapped mm X va n = None.
Proof.
  revert va. induction n as [|n IH]; intros va H0 Hb H; cbn [first_mapped]; [done|].
  rewrite H by lia. unfold u64, wrap. rewrite Z.mod_small by lia.
  apply IH; [lia|lia|]. intros a Ha. apply H. lia.
Qed.

(** The pages of the recycled ranges of [X] are not mapped. *)
Definition recycled_unmapped (mm : Paging.Mm) (t : LibTable) (X : Z) : Prop :=
  ∀ r, r ∈ flatten (recycled t) → rr_pml4 r = X →
    ∀ a, rr_va r ≤ a < rr_end r → Paging.translate_user_page mm X a = None.

Lemma mmap_reused mm t live X pages l b0 t' base :
  inv t live → 0 < pages ≤ 65536 → recycled_unmapped mm t X →
  take_recycled (recycled t) X (mask_of (pages * 4096)) (pages * 4096) = Some (l, b0) →
  mmap_anon mm t X 0 pages = (t', base) → inv t' (mkRange X base (pages * 4096) :: live).
Proof.
  intros HI Hp Hun Htake Hm. pose proof (inv_bounds _ _ HI) as Hb.
  pose proof Hb as Hb'. apply Forall_app in Hb' as [_ Hbr].
  pose proof (take_recycled_spec (recycled t) X _ (pages * 4096) l b0 Hbr (mask_of_ok _) ltac:(lia) Htake)
    as Hcut.
  destruct (inv_cut t live l X (pages * 4096) b0 HI ltac:(lia) Hcut)
    as (HI' & r & c & Hr & HX & (_ & Hw1 & Hw2) & Hc & Hle). cbn in Hw1. unfold rr_end in Hw2 at 1. cbn in Hw2.
  rewrite Forall_forall in Hbr. destruct (Hbr r Hr) as (_ & Hva & Hend).
  unfold ANON_VA_BASE, USER_END in Hva, Hend. unfold mmap_anon in Hm.
  rewrite (proj2 (Z.eqb_neq pages 0)), (proj2 (Z.ltb_ge _ _)) in Hm by lia.
  cbn [orb Z.eqb negb] in Hm. unfold bump_anon_va in Hm.
  replace (u64 (pages * 4096 + 4095) / 4096 * 4096) with (pages * 4096) in Hm.
  2: { unfold u64, wrap. rewrite Z.mod_small, Z.div_add_l by lia.
       change (4095 / 4096) with 0. lia. }
  rewrite Htake in Hm. rewrite settle_clear in Hm.
  2: { apply first_mapped_clear; [lia|lia|]. intros a Ha. apply (Hun r Hr HX). lia. }
  injection Hm as <- <-. unfold u64, wrap. rewrite Z.mod_small by lia.
  destruct (set_anon_cursor_spec (set_recycled t l) X c (b0 + pages * 4096) Hc) as (l2 & -> & Hc1 & Hc2).
  rewrite Z.max_l in Hc1 by lia. pose proof (i_good _ _ HI') as Hg'.
  apply Forall_cons in Hg' as [(_ & _ & HX0 & _) _]. cbn in HX0.
  apply (inv_set_cursor (set_recycled t l) _ X l2 c); try done.
  - by apply (i_cur _ _ HI X).
  - change (cursor (set_recycled t l) X) with (cursor t X). rewrite Hc. done.
  - intros Y HY Hne. by apply Hc2.
Qed.

(** ** Giving ranges back *)

(** What is left of [r] when [va .. va + size) is given back. *)
Definition leftover (r : RecycledRange) (va size : Z) : list RecycledRange :=
  (if rr_va r <? va then [mkRange (rr_pml4 r) (rr_va r) (va - rr_va r)] else []) ++
  (if va + size <? rr_end r then [mkRange (rr_pml4 r) (va + size) (rr_end r - (va + size))] else []).

Lemma leftover_parts r va size :
  rr_va r ≤ va → 0 < size → va + size ≤ rr_end r →
  let parts := mkRange (rr_pml4 r) va size :: leftover r va size in
  Forall (λ q, within q r ∧ 0 < rr_size q) parts ∧ pairwise parts.
Proof.
  unfold leftover, within, rr_end. intros Hva Hs Hend.
  destruct (Z.ltb_spec (rr_va r) va), (Z.ltb_spec (va + size) (rr_va r + rr_size r)); cbn;
    repeat split; repeat (apply Forall_cons_2 || apply Forall_nil_2);
    unfold disjoint, rr_end; cbn; lia.
Qed.

Lemma inv_leftover t live r live' va size :
  inv t live → live ≡ₚ r :: live' → rr_va r ≤ va → 0 < size → va + size ≤ rr_end r →
  inv t (mkRange (rr_pml4 r) va size :: leftover r va size ++ live').
Proof.
  intros HI Hl Hva Hs Hend.
  assert (all_ranges t live ≡ₚ r :: live' ++ flatten (recycled t)) as Hp.
  { unfold all_ranges. by rewrite Hl. }
  pose proof (i_good _ _ HI) as Hg. rewrite Hp in Hg. apply Forall_cons in Hg as [Hgr Hg].
  pose proof (pairwise_perm _ _ Hp (i_pair _ _ HI)) as Hd.
  destruct Hgr as (Hsr & Hvr & Hpr & c & Hc & Hle).
  destruct (leftover_parts r va size Hva Hs Hend) as [Hparts Hpw].
  set (parts := mkRange (rr_pml4 r) va size :: leftover r va size) in *.
  assert (all_ranges t (mkRange (rr_pml4 r) va size :: leftover r va size ++ live') =
    parts ++ live' ++ flatten (recycled t)) as E by (unfold all_ranges, parts; cbn; by rewrite <- app_assoc).
  split.
  - exact (i_cur _ _ HI).
  - rewrite E. apply Forall_app. split; [|done]. eapply Forall_impl; [exact Hparts|].
    intros q [(Hq1 & Hq2 & Hq3) Hq4]. unfold good. rewrite Hq1. split_and!; [done|lia|done|].
    exists c. split; [done|lia].
  - rewrite E. apply (pairwise_split r); [done| |done].
    eapply Forall_impl; [exact Hparts|]. by intros q [? _].
Qed.

(** Two adjacent ranges of a space become one. *)
Lemma inv_merge t live l q r c pre post :
  inv t (q :: live) → recycled t = pre ++ Some r :: post → l = pre ++ Some c :: post →
  rr_pml4 r = rr_pml4 q → rr_pml4 c = rr_pml4 r →
  (rr_va c = rr_va r ∧ rr_end r = rr_va q ∧ rr_end c = rr_end q) ∨
  (rr_va c = rr_va q ∧ rr_end q = rr_va r ∧ rr_end c = rr_end r) →
  inv (set_recycled t l) live.
Proof.
  intros HI Hl -> Eq Ec Hc. set (rest := live ++ flatten pre ++ flatten post).
  assert (all_ranges t (q :: live) ≡ₚ r :: q :: rest) as Hp.
  { unfold all_ranges, rest. rewrite Hl, flatten_app. cbn.
    rewrite (app_assoc live (flatten pre)), <- Permutation_middle, <- app_assoc. apply perm_swap. }
  assert (all_ranges (set_recycled t (pre ++ Some c :: post)) live ≡ₚ c :: rest) as Hp'.
  { unfold all_ranges, rest. cbn. rewrite flatten_app. cbn.
    by rewrite (app_assoc live (flatten pre)), <- Permutation_middle, <- app_assoc. }
  pose proof (i_good _ _ HI) as Hg. rewrite Hp in Hg.
  apply Forall_cons in Hg as [(Sr & Vr & Pr & cr & Cr & Lr) Hg].
  apply Forall_cons in Hg as [(Sq & Vq & Pq & cq & Cq & Lq) Hg].
  rewrite Eq in Cr. assert (cr = cq) as -> by congruence. split.
  - exact (i_cur _ _ HI).
  - rewrite Hp'. constructor; [|exact Hg]. unfold good. rewrite Ec, Eq.
    unfold rr_end in *. split_and!; [lia|lia|done|]. exists cq. split; [done|lia].
  - eapply pairwise_perm; [symmetry; exact Hp'|].
    apply (pairwise_merge r q c); try done; try lia.
    + exact (pairwise_perm _ _ Hp (i_pair _ _ HI)).
    + eapply Forall_impl; [exact Hg|]. by intros z (? & _).
Qed.

(** A range of [live] enters the recycled table, merged, added or dropped. *)
Lemma inv_recycle t live q :
  inv t (q :: live) → inv (recycle_anon_va t (Some (rr_pml4 q)) (rr_va q) (rr_size q)) live.
Proof.
  intros HI. pose proof (inv_bounds _ _ HI) as Hb.
  pose proof (Forall_inv (i_good _ _ HI)) as (Hsq & Hvq & Hpq & _).
  unfold all_ranges in Hb. cbn in Hb. apply Forall_cons in Hb as [(_ & _ & Hqe) Hb].
  apply Forall_app in Hb as [_ Hb]. unfold ANON_VA_BASE, USER_END, rr_end in *. unfold recycle_anon_va.
  rewrite (proj2 (Z.eqb_neq (rr_pml4 q) 0)), (proj2 (Z.eqb_neq (rr_va q) 0)),
    (proj2 (Z.eqb_neq (rr_size q) 0)) by lia. cbn [orb].
  destruct (update_first _ _ (recycled t)) as [l|] eqn:Eu.
  - apply update_first_split in Eu as (pre & o & post & Hl & Ho & ->).
    destruct o as [r|]; [|done]. apply andb_true_iff in Ho as [Hpr Hadj]. apply Z.eqb_eq in Hpr.
    rewrite Hl, flatten_app in Hb. apply Forall_app in Hb as [_ Hb].
    apply Forall_cons in Hb as [(Sr & Vr & Er) _]. unfold u64, wrap in *.
    rewrite !Z.mod_small in Hadj by lia. rewrite Z.mod_small by lia.
    rewrite (Z.mod_small (rr_size r + rr_size q)) by lia.
    destruct (Z.eqb_spec (rr_va r + rr_size r) (rr_va q)) as [Ea|Ea].
    + eapply inv_merge; [done|done|done|done|done|left]. unfold rr_end. cbn. lia.
    + cbn in Hadj. unbool. eapply inv_merge; [done|done|done|done|done|right].
      unfold rr_end. cbn. lia.
  - destruct (update_first (λ o, negb (isSome o)) _ (recycled t)) as [l|] eqn:Ea.
    + apply update_first_split in Ea as (pre & o & post & Hl & Ho & ->).
      destruct o as [r|]; [done|]. apply (inv_perm t (q :: live)); [done| |done].
      unfold all_ranges. cbn. rewrite Hl, !flatten_app. cbn. destruct q as [p v z]. cbn.
      by rewrite !(app_assoc live (flatten pre)), <- Permutation_middle.
    + destruct HI as [Hc Hg Hp]. split; [done|by inversion Hg|by destruct Hp].
Qed.

(** ** Libraries and forks *)

Lemma update_none {A} (p : A → bool) g l : find_first p l = None → update_first p g l = None.
Proof.
  intros H. apply update_first_None. rewrite find_first_position in H.
  destruct (position p l) as [i|] eqn:E; [|done]. cbn in H.
  apply position_lt in E. by apply lookup_lt_is_Some in E as [? ?]; congruence.
Qed.

Lemma inv_lib t live X size t' base :
  inv t live → X ≠ 0 → room t X → bump_lib_va t X size = (t', base) → inv t' live.
Proof.
  intros HI HX Hroom H. unfold bump_lib_va in H.
  set (aligned := u64 (size + LIB_VA_STRIDE - 1) / LIB_VA_STRIDE * LIB_VA_STRIDE) in *.
  destruct (find_first (owned_by X) (as_slots t)) as [s|] eqn:Ef.
  - set (g := λ s : as_slot, (s.1.1, u64 (s.1.2 + aligned), s.2)) in *.
    destruct (update_find _ g _ _ Ef) as [l Hl]. rewrite Hl in H. cbn in H. simplify_eq.
    destruct (cursor_update _ _ _ _ Hl) as [Hc1 Hc2]; [done|].
    assert (cursor t X = Some s.2) as Hcx by (unfold cursor; by rewrite Ef).
    rewrite Ef in Hc1. cbn in Hc1.
    apply (inv_set_cursor t live X l s.2); try done.
    + by apply (i_cur _ _ HI X).
    + by rewrite Hcx.
    + intros Y _ Hne. by apply Hc2.
  - assert (cursor t X = None) as Hn by (unfold cursor; by rewrite Ef).
    destruct (room_new t X (λ _, (X, LIB_VA_BASE + aligned, ANON_VA_BASE)) Hroom Hn) as [l Hl].
    rewrite Hl in H. simplify_eq. destruct (cursor_new _ _ _ _ _ Hl HX Hn) as [Hc1 Hc2].
    apply (inv_set_cursor t live X l ANON_VA_BASE); try done.
    by rewrite Hn.
Qed.

(** The ranges a forked space inherits. *)
Definition inherit (parent child : Z) (live : list RecycledRange) : list RecycledRange :=
  (λ r, mkRange child (rr_va r) (rr_size r)) <$> List.filter (λ r, rr_pml4 r =? parent) live.

Lemma inherit_elem parent child live q :
  q ∈ inherit parent child live → ∃ r, r ∈ live ∧ rr_pml4 r = parent ∧
    q = mkRange child (rr_va r) (rr_size r).
Proof.
  unfold inherit. rewrite list_elem_of_fmap. intros (r & -> & Hr).
  apply list_elem_of_In, filter_In in Hr as [Hr Hp]. exists r.
  split; [by apply list_elem_of_In|]. split; [by apply Z.eqb_eq|done].
Qed.

Lemma inherit_pairwise parent child live : pairwise live → pairwise (inherit parent child live).
Proof.
  induction live as [|r live IH]; cbn; [done|]. intros [Hr Hl]. unfold inherit. cbn.
  destruct (Z.eqb_spec (rr_pml4 r) parent) as [Hp|]; [|by apply IH]. cbn.
  split; [|by apply IH]. apply Forall_forall. intros q Hq.
  apply inherit_elem in Hq as (r' & Hin & Hp' & ->). rewrite Forall_forall in Hr.
  specialize (Hr r' Hin). unfold disjoint, rr_end in *. cbn. right. rewrite Hp, Hp' in Hr.
  destruct Hr as [|]; [done|lia].
Qed.

Lemma inv_clone t live parent child :
  inv t live → parent ≠ 0 → child ≠ 0 → cursor t child = None → room t child →
  Forall (λ r, rr_pml4 r ≠ child) (all_ranges t live) →
  inv (clone_as_slot t parent child) (inherit parent child live ++ live).
Proof.
  intros HI Hp Hch Hn Hroom Hfr. unfold clone_as_slot.
  rewrite (proj2 (Z.eqb_neq parent 0)), (proj2 (Z.eqb_neq child 0)) by done. cbn [orb].
  set (cur := match find_first (owned_by parent) (as_slots t) with
              | Some s => (s.1.2, s.2) | None => (LIB_VA_BASE, ANON_VA_BASE) end).
  assert (cur.2 = default ANON_VA_BASE (cursor t parent)) as Ecur.
  { unfold cur, cursor. by destruct (find_first (owned_by parent) (as_slots t)). }
  destruct cur as [lib anon] eqn:E. cbn in Ecur.
  assert (find_first (owned_by child) (as_slots t) = None) as Hnf.
  { unfold cursor in Hn. by destruct (find_first (owned_by child) (as_slots t)). }
  rewrite (update_none _ _ _ Hnf).
  destruct (room_new t child (λ _, (child, lib, anon)) Hroom Hn) as [l Hl]. rewrite Hl.
  destruct (cursor_new _ _ _ _ _ Hl Hch Hn) as [Hc1 Hc2].
  assert (ANON_VA_BASE ≤ anon ≤ USER_END) as Hb.
  { rewrite Ecur. destruct (cursor t parent) as [c|] eqn:Ec; cbn; [|done].
    by apply (i_cur _ _ HI parent). }
  assert (inv (set_slots t l) live) as HI'.
  { apply (inv_set_cursor t live child l anon); try done. rewrite Hn. cbn.
    unfold ANON_VA_BASE in Hb. lia. }
  assert (all_ranges (set_slots t l) (inherit parent child live ++ live) =
    inherit parent child live ++ all_ranges t live) as Ea by (unfold all_ranges; by rewrite <- app_assoc).
  split; [apply HI'| |]; rewrite Ea.
  - apply Forall_app. split; [|apply HI']. apply Forall_forall. intros q Hq.
    apply inherit_elem in Hq as (r & Hr & Hpr & ->). pose proof (i_good _ _ HI) as Hg.
    apply Forall_app in Hg as [Hg _]. rewrite Forall_forall in Hg.
    destruct (Hg r Hr) as (Hs & Hv & _ & c & Hc & Hle). unfold good. cbn. split_and!; try done.
    exists anon. split; [done|]. rewrite Hpr in Hc. rewrite Hc in Ecur. cbn in Ecur.
    unfold rr_end in *. cbn. lia.
  - pose proof (i_pair _ _ HI) as Hpw. apply pairwise_app. split_and!; [|done|].
    + apply inherit_pairwise. apply pairwise_app in Hpw. tauto.
    + apply Forall_forall. intros q Hq. apply inherit_elem in Hq as (r & _ & _ & ->).
      eapply Forall_impl; [exact Hfr|]. intros z Hz. left. cbn. congruence.
Qed.

(** ** Histories *)

Abbreviation vstate := (LibTable * list RecycledRange)%type.

(** One call.  Recycled pages are not mapped when a range is reused, a range
    given back was reserved, and a forked space is new. *)
Inductive vstep : vstate → vstate → Prop :=
| v_lib t live X size t' base :
    X ≠ 0 → room t X → bump_lib_va t X size = (t', base) → vstep (t, live) (t', live)
| v_mmap mm t live X pages t' base :
    X ≠ 0 → room t X → 0 < pages ≤ 65536 → recycled_unmapped mm t X →
    mmap_anon mm t X 0 pages = (t', base) → base + pages * 4096 ≤ USER_END →
    vstep (t, live) (t', mkRange X base (pages * 4096) :: live)
| v_unmap t live r live' va size :
    live ≡ₚ r :: live' → rr_va r ≤ va → 0 < size → va + size ≤ rr_end r →
    vstep (t, live) (recycle_anon_va t (Some (rr_pml4 r)) va size, leftover r va size ++ live')
| v_clone t live parent child :
    parent ≠ 0 → child ≠ 0 → cursor t child = None → room t child →
    Forall (λ r, rr_pml4 r ≠ child) (all_ranges t live) →
    vstep (t, live) (clone_as_slot t parent child, inherit parent child live ++ live).

Lemma va_inv_new : inv LibTable_new [].
Proof.
  split.
  - intros X c HX Hc. unfold cursor in Hc. destruct (find_first _ _) as [s|] eqn:E; [|done].
    apply find_first_Some in E as [Hin Hs]. apply elem_of_replicate in Hin as [-> _].
    unfold owned_by in Hs. apply Z.eqb_eq in Hs. cbn in Hs. congruence.
  - apply Forall_forall. intros r Hr. vm_compute in Hr. by apply elem_of_nil in Hr.
  - vm_compute. done.
Qed.

Lemma vstep_inv s s' : vstep s s' → inv s.1 s.2 → inv s'.1 s'.2.
Proof.
  destruct 1 as [t live X size t' base HX Hroom Hb
                |mm t live X pages t' base HX Hroom Hp Hun Hm Hend
                |t live r live' va size Hl Hva Hs Hend
                |t live parent child Hp Hc Hn Hroom Hfr]; cbn; intros HI.
  - by eapply inv_lib.
  - destruct (take_recycled (recycled t) X (mask_of (pages * 4096)) (pages * 4096))
      as [[l b0]|] eqn:Et; [by eapply mmap_reused|by eapply mmap_fresh].
  - exact (inv_recycle t _ (mkRange (rr_pml4 r) va size) (inv_leftover t live r live' va size HI Hl Hva Hs Hend)).
  - by apply inv_clone.
Qed.

Lemma pairwise_lookup l i j r1 r2 :
  pairwise l → i ≠ j → l !! i = Some r1 → l !! j = Some r2 → disjoint r1 r2.
Proof.
  revert i j. induction l as [|r l IH]; intros i j Hp Hne Hi Hj; [done|]. destruct Hp as [Hr Hl].
  rewrite Forall_lookup in Hr. destruct i as [|i], j as [|j]; cbn in Hi, Hj; simplify_eq; try done.
  - by eapply Hr.
  - apply disjoint_sym. by eapply Hr.
  - eapply (IH i j); [done|lia|done|done].
Qed.

(** ** Libraries *)

Definition lib_cursor (t : LibTable) (X : Z) : option Z :=
  (λ s : as_slot, s.1.2) <$> find_first (owned_by X) (as_slots t).

(** The bytes set aside for a library of [size] bytes. *)
Definition lib_span (size : Z) : Z := u64 (size + LIB_VA_STRIDE - 1) / LIB_VA_STRIDE * LIB_VA_STRIDE.

(** The library cursors stay; a new space starts at the base. *)
Definition lib_kept (t t' : LibTable) : Prop :=
  ∀ X, X ≠ 0 → lib_cursor t' X = lib_cursor t X ∨ lib_cursor t X = None ∧ lib_cursor t' X = Some LIB_VA_BASE.

Lemma lib_kept_refl t : lib_kept t t.
Proof. intros X _. by left. Qed.

Lemma lib_kept_trans t1 t2 t3 : lib_kept t1 t2 → lib_kept t2 t3 → lib_kept t1 t3.
Proof.
  intros H1 H2 X HX. destruct (H1 X HX) as [E1|[E1 F1]], (H2 X HX) as [E2|[E2 F2]].
  - left. congruence.
  - right. split; congruence.
  - right. split; congruence.
  - congruence.
Qed.

Lemma lib_kept_update t X g l :
  update_first (owned_by X) g (as_slots t) = Some l → (∀ s, (g s).1 = s.1) → lib_kept t (set_slots t l).
Proof.
  intros H Hg Y _. left. unfold lib_cursor. cbn [set_slots as_slots]. destruct (decide (Y = X)) as [->|Hne].
  - rewrite (find_update_same _ _ _ _ H) by (intros s; unfold owned_by; by rewrite Hg).
    destruct (find_first (owned_by X) (as_slots t)); [|done]. cbn. by rewrite Hg.
  - rewrite (find_update_other _ _ _ _ _ H); [done|]. intros s Hs. split; [by eapply owned_other|].
    apply (owned_other X); [done|]. revert Hs. unfold owned_by. by rewrite Hg.
Qed.

(** A slot that is taken for [X]. *)
Lemma lib_cursor_new t X lib c l :
  update_first (owned_by 0) (λ _, (X, lib, c)) (as_slots t) = Some l → X ≠ 0 →
  find_first (owned_by X) (as_slots t) = None →
  lib_cursor (set_slots t l) X = Some lib ∧
  ∀ Y, Y ≠ 0 → Y ≠ X → lib_cursor (set_slots t l) Y = lib_cursor t Y.
Proof.
  intros H HX Hn. unfold lib_cursor. cbn [set_slots as_slots]. split.
  - rewrite (find_update_new _ (owned_by X) _ _ _ H); [|intros; apply Z.eqb_refl|done].
    destruct (find_first (owned_by 0) (as_slots t)) eqn:E0; [done|].
    by rewrite (update_none _ _ _ E0) in H.
  - intros Y HY Hne. rewrite (find_update_other _ _ _ _ _ H); [done|]. intros s Hs.
    split; [by eapply (owned_other 0)|]. unfold owned_by. cbn. by apply Z.eqb_neq.
Qed.

Lemma lib_kept_new t X c l :
  update_first (owned_by 0) (λ _, (X, LIB_VA_BASE, c)) (as_slots t) = Some l → X ≠ 0 →
  find_first (owned_by X) (as_slots t) = None → lib_kept t (set_slots t l).
Proof.
  intros H HX Hn. destruct (lib_cursor_new _ _ _ _ _ H HX Hn) as [H1 H2]. intros Y HY.
  destruct (decide (Y = X)) as [->|Hne]; [|left; by apply H2]. right. split; [|done].
  unfold lib_cursor. by rewrite Hn.
Qed.

Lemma bump_anon_lib t X size t' base :
  X ≠ 0 → room t X → bump_anon_va t X size = (t', base) → lib_kept t t'.
Proof.
  intros HX Hroom. unfold bump_anon_va. destruct (take_recycled _ _ _ _) as [[l b]|].
  { intros [= <- _] Y _. by left. }
  destruct (find_first (owned_by X) (as_slots t)) as [s|] eqn:Ef.
  - set (g := λ s0 : as_slot, _). destruct (update_find _ g _ _ Ef) as [l Hl]. rewrite Hl.
    intros [= <- _]. by apply (lib_kept_update _ X g).
  - cbv zeta. set (c := _ + _).
    destruct (room_new t X (λ _, (X, LIB_VA_BASE, c)) Hroom) as [l Hl]; [unfold cursor; by rewrite Ef|].
    rewrite Hl. intros [= <- _]. by apply (lib_kept_new _ X c).
Qed.

Lemma set_anon_cursor_lib t X va : X ≠ 0 → lib_kept t (set_anon_cursor t X va).
Proof.
  intros HX. unfold set_anon_cursor. destruct (update_first (owned_by X) _ _) as [l|] eqn:Eu.
  { apply (lib_kept_update _ _ _ _ Eu). intros s. by destruct (_ <? _). }
  destruct (update_first (owned_by 0) _ _) as [l|] eqn:En; [|apply lib_kept_refl].
  apply (lib_kept_new _ _ _ _ En HX). apply update_first_None in Eu. rewrite find_first_position.
  by rewrite Eu.
Qed.

Lemma mmap_lib mm t X hint pages t' base :
  X ≠ 0 → room t X → mmap_anon mm t X hint pages = (t', base) → lib_kept t t'.
Proof.
  intros HX Hroom. unfold mmap_anon. destruct (_ || _); [intros [= <- _]; apply lib_kept_refl|].
  destruct (negb _).
  - destruct (first_mapped _ _ _ _); [by apply bump_anon_lib|intros [= <- _]; apply lib_kept_refl].
  - destruct (bump_anon_va t X _) as [t1 c0] eqn:Eb. cbv zeta.
    generalize (settle MAX_CONFLICTS mm X (Z.to_nat pages) (mask_of (pages * 4096)) c0). intros c [= <- _].
    eapply lib_kept_trans; [by eapply bump_anon_lib|by apply set_anon_cursor_lib].
Qed.

Lemma recycle_lib t root va size : lib_kept t (recycle_anon_va t root va size).
Proof.
  unfold recycle_anon_va. destruct root; [|apply lib_kept_refl]. destruct (_ || _); [apply lib_kept_refl|].
  destruct (update_first _ _ (recycled t)); [intros X _; by left|].
  destruct (update_first _ _ (recycled t)); [intros X _; by left|apply lib_kept_refl].
Qed.

(** Libraries lie between the two bases, below the cursor of their space. *)
Record lib_inv (t : LibTable) (libs : list RecycledRange) : Prop := mkLibInv {
  li_cur X c : X ≠ 0 → lib_cursor t X = Some c → LIB_VA_BASE ≤ c ≤ ANON_VA_BASE;
  li_good r : r ∈ libs → 0 < rr_size r ∧ LIB_VA_BASE ≤ rr_va r ∧ rr_pml4 r ≠ 0 ∧
    ∃ c, lib_cursor t (rr_pml4 r) = Some c ∧ rr_end r ≤ c;
  li_pair : pairwise libs
}.

Lemma lib_inv_kept t t' libs : lib_kept t t' → lib_inv t libs → lib_inv t' libs.
Proof.
  intros Hk [Hc Hg Hp]. split; [| |done].
  - intros X c HX H. destruct (Hk X HX) as [E|[_ E]]; [apply (Hc X); congruence|].
    rewrite E in H. injection H as <-. unfold LIB_VA_BASE, ANON_VA_BASE. lia.
  - intros r Hr. destruct (Hg r Hr) as (H1 & H2 & H3 & c & H4 & H5). split_and!; try done.
    exists c. destruct (Hk _ H3) as [E|[E _]]; [|congruence]. split; congruence.
Qed.

Lemma lib_span_pos size : 0 < size < 2 ^ 63 → 0 < lib_span size.
Proof.
  intros H. unfold lib_span, LIB_VA_STRIDE. unfold u64, wrap. rewrite Z.mod_small by lia.
  assert (1 ≤ (size + 0x1000000 - 1) / 0x1000000) by (apply Z.div_le_lower_bound; lia). lia.
Qed.

(** A library is put at the cursor of its space, which moves past it. *)
Lemma bump_lib_cursor t X size t' base :
  X ≠ 0 → room t X → bump_lib_va t X size = (t', base) →
  base = default LIB_VA_BASE (lib_cursor t X) ∧
  (0 ≤ base → 0 ≤ lib_span size → base + lib_span size < 2 ^ 64 →
     lib_cursor t' X = Some (base + lib_span size)) ∧
  ∀ Y, Y ≠ 0 → Y ≠ X → lib_cursor t' Y = lib_cursor t Y.
Proof.
  intros HX Hroom. unfold bump_lib_va. fold (lib_span size).
  destruct (find_first (owned_by X) (as_slots t)) as [s|] eqn:Ef.
  - set (g := λ s : as_slot, (s.1.1, u64 (s.1.2 + lib_span size), s.2)).
    destruct (update_find _ g _ _ Ef) as [l Hl]. rewrite Hl. intros [= <- <-].
    unfold lib_cursor. cbn [set_slots as_slots default]. rewrite Ef. split; [done|]. split.
    + intros H1 H2 H3. rewrite (find_update_same _ _ _ _ Hl), Ef by done. cbn.
      unfold u64, wrap. by rewrite Z.mod_small by lia.
    + intros Y HY Hne. rewrite (find_update_other _ _ _ _ _ Hl); [done|]. intros s' Hs.
      split; by apply (owned_other X).
  - destruct (room_new t X (λ _, (X, LIB_VA_BASE + lib_span size, ANON_VA_BASE)) Hroom) as [l Hl];
      [unfold cursor; by rewrite Ef|].
    rewrite Hl. intros [= <- <-]. destruct (lib_cursor_new _ _ _ _ _ Hl HX Ef) as [H1 H2].
    split; [unfold lib_cursor; by rewrite Ef|]. by split.
Qed.

Lemma lib_inv_load t libs X size t' base :
  lib_inv t libs → X ≠ 0 → room t X → 0 < size < 2 ^ 63 → bump_lib_va t X size = (t', base) →
  base + lib_span size ≤ ANON_VA_BASE → lib_inv t' (mkRange X base (lib_span size) :: libs).
Proof.
  intros [Hc Hg Hp] HX Hroom Hs Hb Hend. pose proof (lib_span_pos size Hs) as Hsp.
  destruct (bump_lib_cursor _ _ _ _ _ HX Hroom Hb) as (Hbase & Hcx & Hoth).
  assert (LIB_VA_BASE ≤ base) as Hlo.
  { rewrite Hbase. destruct (lib_cursor t X) as [c|] eqn:E; cbn; [by apply (Hc X)|done]. }
  assert (lib_cursor t' X = Some (base + lib_span size)) as Hcx'.
  { unfold LIB_VA_BASE, ANON_VA_BASE in *. apply Hcx; lia. }
  assert (∀ r, r ∈ libs → rr_pml4 r = X → rr_end r ≤ base) as Hbelow.
  { intros r Hr Hx. destruct (Hg r Hr) as (_ & _ & _ & c & H4 & H5). rewrite Hx in H4. rewrite H4 in Hbase.
    cbn in Hbase. lia. }
  split.
  - intros Y c HY H. destruct (decide (Y = X)) as [->|Hne].
    + rewrite Hcx' in H. injection H as <-. lia.
    + rewrite Hoth in H by done. by apply (Hc Y).
  - intros r [->|Hr]%elem_of_cons; cbn; [unfold rr_end; cbn; split_and!; try done; exists (base + lib_span size); by split|].
    destruct (Hg r Hr) as (H1 & H2 & H3 & c & H4 & H5). split_and!; try done.
    destruct (decide (rr_pml4 r = X)) as [E|Hne].
    + exists (base + lib_span size). rewrite E. split; [done|]. pose proof (Hbelow r Hr E). lia.
    + exists c. by rewrite Hoth.
  - split; [|done]. apply Forall_forall. intros r Hr. unfold disjoint. cbn.
    destruct (decide (rr_pml4 r = X)) as [E|Hne]; [|left; congruence]. right. right. by apply Hbelow.
Qed.

Lemma lib_inv_clone t libs parent child :
  lib_inv t libs → parent ≠ 0 → child ≠ 0 → cursor t child = None → room t child →
  lib_inv (clone_as_slot t parent child) (inherit parent child libs ++ libs).
Proof.
  intros [Hc Hg Hp] Hpar Hch Hn Hroom. unfold clone_as_slot.
  rewrite (proj2 (Z.eqb_neq parent 0)), (proj2 (Z.eqb_neq child 0)) by done. cbn [orb].
  assert (find_first (owned_by child) (as_slots t) = None) as Hnf.
  { unfold cursor in Hn. by destruct (find_first (owned_by child) (as_slots t)). }
  assert (lib_cursor t child = None) as Hnl by (unfold lib_cursor; by rewrite Hnf).
  assert (Forall (λ r, rr_pml4 r ≠ child) libs) as Hfr.
  { apply Forall_forall. intros r Hr E. destruct (Hg r Hr) as (_ & _ & _ & c & H & _). congruence. }
  set (cur := match find_first (owned_by parent) (as_slots t) with
              | Some s => (s.1.2, s.2) | None => (LIB_VA_BASE, ANON_VA_BASE) end).
  assert (cur.1 = default LIB_VA_BASE (lib_cursor t parent)) as Ecur.
  { unfold cur, lib_cursor. by destruct (find_first (owned_by parent) (as_slots t)). }
  destruct cur as [lib anon]. cbn in Ecur. rewrite (update_none _ _ _ Hnf).
  destruct (room_new t child (λ _, (child, lib, anon)) Hroom Hn) as [l Hl]. rewrite Hl.
  destruct (lib_cursor_new _ _ _ _ _ Hl Hch Hnf) as [H1 H2]. split.
  - intros X c HX H. destruct (decide (X = child)) as [->|Hne]; [|rewrite H2 in H by done; by apply (Hc X)].
    rewrite H1 in H. injection H as <-. rewrite Ecur. destruct (lib_cursor t parent) as [c|] eqn:E; cbn.
    + by apply (Hc parent).
    + unfold LIB_VA_BASE, ANON_VA_BASE. lia.
  - intros r [Hr|Hr]%elem_of_app.
    + apply inherit_elem in Hr as (q & Hq & Hpq & ->). destruct (Hg q Hq) as (G1 & G2 & _ & c & G4 & G5).
      unfold rr_end in *. cbn. split_and!; try done. exists lib. split; [done|].
      rewrite Ecur, <- Hpq, G4. done.
    + destruct (Hg r Hr) as (G1 & G2 & G3 & c & G4 & G5). split_and!; try done. exists c.
      rewrite H2; [done|done|]. rewrite Forall_forall in Hfr. by apply Hfr.
  - apply pairwise_app. split_and!; [by apply inherit_pairwise|done|].
    apply Forall_forall. intros q Hq. apply inherit_elem in Hq as (r & _ & _ & ->).
    eapply Forall_impl; [exact Hfr|]. intros z Hz. left. cbn. congruence.
Qed.

(** A request whose hint is taken is answered like one of the cursor, without
    a look at the page tables. *)
Lemma bump_anon_inv t live X pages t' base :
  inv t live → X ≠ 0 → room t X → 0 < pages ≤ 65536 → bump_anon_va t X (pages * 4096) = (t', base) →
  base + pages * 4096 ≤ USER_END → inv t' (mkRange X base (pages * 4096) :: live).
Proof.
  intros HI HX Hroom Hp Hb Hend.
  destruct (take_recycled (recycled t) X (mask_of (pages * 4096)) (pages * 4096)) as [[l b0]|] eqn:Et.
  - pose proof (inv_bounds _ _ HI) as Hbd. apply Forall_app in Hbd as [_ Hbr].
    pose proof (take_recycled_spec (recycled t) X _ (pages * 4096) l b0 Hbr (mask_of_ok _) ltac:(lia) Et)
      as Hcut.
    destruct (inv_cut t live l X (pages * 4096) b0 HI ltac:(lia) Hcut) as (HI' & _).
    unfold bump_anon_va in Hb. replace (u64 (pages * 4096 + 4095) / 4096 * 4096) with (pages * 4096) in Hb.
    2: { unfold u64, wrap. rewrite Z.mod_small, Z.div_add_l by lia. change (4095 / 4096) with 0. lia. }
    rewrite Et in Hb. by injection Hb as <- <-.
  - destruct (bump_fresh t live X (pages * 4096) HI HX Hroom ltac:(lia)) as
      (l & b0 & Hb' & Hlo & Hal & Hcur & Hoth); [apply Z.mod_mul; lia|done|].
    rewrite Hb' in Hb. injection Hb as <- <-.
    assert (ANON_VA_BASE ≤ default ANON_VA_BASE (cursor t X)) as Hbase.
    { destruct (cursor t X) as [c|] eqn:E; cbn; [|done]. by destruct (i_cur _ _ HI X c HX E). }
    unfold ANON_VA_BASE in Hbase at 1. apply inv_add.
    + apply (inv_set_cursor t live X l (b0 + pages * 4096)); try done.
      * unfold ANON_VA_BASE, USER_END in *. lia.
      * unfold ANON_VA_BASE in Hlo. destruct (cursor t X); cbn in Hlo |- *; lia.
    + unfold good, ANON_VA_BASE, rr_end in *. cbn. split_and!; [lia|lia|done|eauto with lia].
    + eapply Forall_impl; [exact (i_good _ _ HI)|]. intros r (_ & _ & _ & c & Hc & Hle).
      unfold disjoint. cbn. destruct (decide (rr_pml4 r = X)) as [<-|]; [|left; congruence].
      rewrite Hc in Hlo. cbn in Hlo. right. right. lia.
Qed.

(** ** All ranges *)

Record spaces := mkSpaces { tbl : LibTable; anon : list RecycledRange; libs : list RecycledRange }.

(** The calls on all address spaces.  The table of spaces is not full, ranges end
    before the limits nobody checks, recycled pages have been unmapped, a range
    given back is part of one that was handed out, and a forked space is new.  A
    hint that is honoured leaves no trace. *)
Inductive hstep : spaces → spaces → Prop :=
| h_lib s X size t' base :
    X ≠ 0 → room (tbl s) X → 0 < size < 2 ^ 63 → bump_lib_va (tbl s) X size = (t', base) →
    base + lib_span size ≤ ANON_VA_BASE →
    hstep s (mkSpaces t' (anon s) (mkRange X base (lib_span size) :: libs s))
| h_mmap mm s X pages t' base :
    X ≠ 0 → room (tbl s) X → 0 < pages ≤ 65536 → recycled_unmapped mm (tbl s) X →
    mmap_anon mm (tbl s) X 0 pages = (t', base) → base + pages * 4096 ≤ USER_END →
    hstep s (mkSpaces t' (mkRange X base (pages * 4096) :: anon s) (libs s))
| h_hint mm s X hint pages t' base :
    X ≠ 0 → room (tbl s) X → hint ≠ 0 → 0 < pages ≤ 65536 →
    mmap_anon mm (tbl s) X hint pages = (t', base) → base + pages * 4096 ≤ USER_END →
    hstep s (mkSpaces t'
      (if isSome (first_mapped mm X (Paging.page_floor hint) (Z.to_nat pages))
       then mkRange X base (pages * 4096) :: anon s else anon s) (libs s))
| h_unmap s r rest va size :
    anon s ≡ₚ r :: rest → rr_va r ≤ va → 0 < size → va + size ≤ rr_end r →
    hstep s (mkSpaces (recycle_anon_va (tbl s) (Some (rr_pml4 r)) va size) (leftover r va size ++ rest) (libs s))
| h_clone s parent child :
    parent ≠ 0 → child ≠ 0 → cursor (tbl s) child = None → room (tbl s) child →
    Forall (λ r, rr_pml4 r ≠ child) (all_ranges (tbl s) (anon s)) →
    hstep s (mkSpaces (clone_as_slot (tbl s) parent child) (inherit parent child (anon s) ++ anon s)
      (inherit parent child (libs s) ++ libs s)).

Definition spaces_inv (s : spaces) : Prop := inv (tbl s) (anon s) ∧ lib_inv (tbl s) (libs s).

Lemma spaces_step_inv s s' : hstep s s' → spaces_inv s → spaces_inv s'.
Proof.
  intros Hs [HI HL]. destruct Hs as [s X size t' base HX Hr Hsz Hb He|mm s X pages t' base HX Hr Hp Hu Hm He
    |mm s X hint pages t' base HX Hr Hh Hp Hm He|s r rest va size Hl Hva Hsz He|s parent child Hp Hc Hn Hr Hf];
    split; cbn [tbl anon libs].
  - by eapply inv_lib.
  - by eapply lib_inv_load.
  - exact (vstep_inv (tbl s, anon s) (t', _) (v_mmap _ _ _ _ _ _ _ HX Hr Hp Hu Hm He) HI).
  - exact (lib_inv_kept _ _ _ (mmap_lib _ _ _ _ _ _ _ HX Hr Hm) HL).
  - unfold mmap_anon in Hm. rewrite (proj2 (Z.eqb_neq pages 0)), (proj2 (Z.ltb_ge _ _)) in Hm by lia.
    cbn [orb] in Hm. rewrite (proj2 (Z.eqb_neq hint 0)) in Hm by done. cbn [negb] in Hm.
    destruct (first_mapped _ _ _ _); cbn [isSome].
    + exact (bump_anon_inv _ _ _ _ _ _ HI HX Hr Hp Hm He).
    + by injection Hm as <- _.
  - exact (lib_inv_kept _ _ _ (mmap_lib _ _ _ _ _ _ _ HX Hr Hm) HL).
  - exact (inv_recycle _ _ (mkRange (rr_pml4 r) va size) (inv_leftover _ _ r rest va size HI Hl Hva Hsz He)).
  - eapply lib_inv_kept; [apply recycle_lib|done].
  - by apply inv_clone.
  - by apply lib_inv_clone.
Qed.

Lemma spaces_inv_new : spaces_inv (mkSpaces LibTable_new [] []).
Proof.
  split; [exact va_inv_new|]. split; [|by intros r Hr%elem_of_nil|done].
  intros X c HX Hc. unfold lib_cursor in Hc. destruct (find_first _ _) as [s|] eqn:E; [|done].
  apply find_first_Some in E as [Hin Hs]. apply elem_of_replicate in Hin as [-> _].
  unfold owned_by in Hs. apply Z.eqb_eq in Hs. cbn in Hs. congruence.
Qed.

Lemma spaces_reachable s s' : rtc hstep s s' → spaces_inv s → spaces_inv s'.
Proof. induction 1 as [|x y z Hs _ IH]; [done|]. intros HI. by apply IH, (spaces_step_inv x). Qed.

Lemma spaces_pairwise s : spaces_inv s → pairwise (anon s ++ libs s).
Proof.
  intros [HI HL]. pose proof (i_pair _ _ HI) as Hp. apply pairwise_app in Hp as [Hp _].
  apply pairwise_app. split_and!; [done|apply HL|]. apply Forall_forall. intros r Hr.
  apply Forall_forall. intros q Hq. destruct (li_good _ _ HL q Hq) as (_ & _ & H3 & c & H4 & H5).
  pose proof (li_cur _ _ HL _ _ H3 H4). pose proof (i_good _ _ HI) as Hg. apply Forall_app in Hg as [Hg _].
  rewrite Forall_forall in Hg. destruct (Hg r Hr) as (_ & Hva & _). right. right. lia.
Qed.

(** C22: Ranges of user addresses are handed out once.  In every history of library
    loads, anonymous mappings, unmappings and forks of all address spaces, any two
    ranges reserved at the same time in one space are disjoint and not empty;
    libraries lie between the library base and the anonymous base, mappings above
    it.  A mapping whose hint is honoured is not recorded by the code and not
    among these ranges (see [mmap_hint_not_reserved]).  The histories are those in
    which the table of 64 spaces is not full, libraries end below the anonymous
    base and mappings in the user half, pages are unmapped when their range is
    given back, only parts of reserved ranges are given back, and a forked space
    is new. *)
Theorem va_ranges_disjoint s i j r1 r2 :
  rtc hstep (mkSpaces LibTable_new [] []) s →
  (anon s ++ libs s) !! i = Some r1 → (anon s ++ libs s) !! j = Some r2 → i ≠ j →
  disjoint r1 r2 ∧ 0 < rr_size r1 ∧
  (r1 ∈ anon s → ANON_VA_BASE ≤ rr_va r1) ∧
  (r1 ∈ libs s → LIB_VA_BASE ≤ rr_va r1 ∧ rr_end r1 ≤ ANON_VA_BASE).
Proof.
  intros H Hi Hj Hne. pose proof (spaces_reachable _ _ H spaces_inv_new) as HS.
  pose proof (spaces_pairwise s HS) as Hp. destruct HS as [HI HL].
  assert (r1 ∈ anon s → 0 < rr_size r1 ∧ ANON_VA_BASE ≤ rr_va r1) as Ha.
  { intros Hr. pose proof (i_good _ _ HI) as Hg. apply Forall_app in Hg as [Hg _].
    rewrite Forall_forall in Hg. by destruct (Hg r1 Hr) as (? & ? & _). }
  assert (r1 ∈ libs s → 0 < rr_size r1 ∧ LIB_VA_BASE ≤ rr_va r1 ∧ rr_end r1 ≤ ANON_VA_BASE) as Hb.
  { intros Hr. destruct (li_good _ _ HL r1 Hr) as (? & ? & H3 & c & H4 & H5).
    pose proof (li_cur _ _ HL _ _ H3 H4). split_and!; [done|done|lia]. }
  split; [by apply (pairwise_lookup (anon s ++ libs s) i j)|]. apply list_elem_of_lookup_2, elem_of_app in Hi.
  split; [destruct Hi; naive_solver|]. split; [intros; by apply Ha|intros; by apply Hb].
Qed.

Lemma take_recycled_empty X mask aligned :
  take_recycled (recycled LibTable_new) X mask aligned = None.
Proof.
  unfold LibTable_new. cbn [recycled]. generalize MAX_RECYCLED. intros n.
  induction n as [|n IH]; cbn; [done|]. by rewrite IH.
Qed.

(** A hint is honoured without being recorded: in a space with nothing mapped
    a request at the anonymous base and a request without a hint are both
    answered with the anonymous base. *)
Theorem mmap_hint_not_reserved mm X pages :
  X ≠ 0 → 0 < pages ≤ 65536 → (∀ a, Paging.translate_user_page mm X a = None) →
  mmap_anon mm LibTable_new X ANON_VA_BASE pages = (LibTable_new, ANON_VA_BASE) ∧
  ∃ t, mmap_anon mm LibTable_new X 0 pages = (t, ANON_VA_BASE).
Proof.
  intros HX Hp Hun.
  assert (∀ n, Z.of_nat n ≤ 65536 → first_mapped mm X ANON_VA_BASE n = None) as Hclear.
  { intros n Hn. apply first_mapped_clear; [done|unfold ANON_VA_BASE; lia|auto]. }
  unfold mmap_anon. rewrite (proj2 (Z.eqb_neq pages 0)), (proj2 (Z.ltb_ge 65536 pages)) by lia.
  cbn [orb].
  change (negb (ANON_VA_BASE =? 0)) with true. change (negb (0 =? 0)) with false.
  change (Paging.page_floor ANON_VA_BASE) with ANON_VA_BASE. cbn iota.
  rewrite Hclear by lia. split; [done|].
  assert (∃ t, bump_anon_va LibTable_new X (pages * 4096) = (t, ANON_VA_BASE)) as (t & Hb).
  { unfold bump_anon_va. rewrite take_recycled_empty.
    rewrite (proj2 (find_first_None (owned_by X) _)).
    - replace (align_up ANON_VA_BASE (mask_of (pages * 4096))) with ANON_VA_BASE
        by (destruct (mask_of_ok (pages * 4096)) as [-> | ->]; reflexivity).
      by eexists.
    - intros s Hs. apply elem_of_replicate in Hs as [-> _]. by apply Z.eqb_neq. }
  rewrite Hb, settle_clear by (apply Hclear; lia). by eexists.
Qed.

(** ** Witnesses: a mapping and a library of one space, nothing touched yet *)

Definition sample_root : Z := 0x100000.
Definition sample_t1 : LibTable := (mmap_anon Paging.sample_mm LibTable_new sample_root 0 2).1.
Definition sample_t2 : LibTable := (bump_lib_va sample_t1 sample_root 4096).1.
Definition sample_spaces : spaces :=
  mkSpaces sample_t2 [mkRange sample_root 0x310000000 8192] [mkRange sample_root 0x140000000 0x1000000].

Lemma sample_unmapped X a : Paging.translate_user_page Paging.sample_mm X a = None.
Proof.
  unfold Paging.translate_user_page, Paging.translate_x86, Paging.walk_pte.
  destruct (negb _); [done|]. by destruct (Paging.walk_table X).
Qed.

Lemma pair_of {A B} (p : A * B) a b : p.1 = a → p.2 = b → p = (a, b).
Proof. destruct p. cbn. congruence. Qed.

Lemma sample_history : rtc hstep (mkSpaces LibTable_new [] []) sample_spaces.
Proof.
  eapply rtc_l; [|eapply rtc_l; [|apply rtc_refl]].
  - apply (h_mmap Paging.sample_mm (mkSpaces LibTable_new [] []) sample_root 2 sample_t1 0x310000000); [done|done|lia| | |].
    + intros r _ _ a _. apply sample_unmapped.
    + apply pair_of; [reflexivity|vm_compute; reflexivity].
    + unfold USER_END. lia.
  - apply (h_lib (mkSpaces sample_t1 [mkRange sample_root 0x310000000 8192] []) sample_root 4096 sample_t2 0x140000000).
    + done.
    + vm_compute. reflexivity.
    + lia.
    + apply pair_of; [reflexivity|vm_compute; reflexivity].
    + vm_compute. discriminate.
Qed.

(** A mapping and a library of one space. *)
Lemma va_ranges_witness :
  disjoint (mkRange sample_root 0x310000000 8192) (mkRange sample_root 0x140000000 0x1000000).
Proof.
  destruct (va_ranges_disjoint sample_spaces 0 1 (mkRange sample_root 0x310000000 8192)
    (mkRange sample_root 0x140000000 0x1000000)) as [H _].
  - exact sample_history.
  - reflexivity.
  - reflexivity.
  - discriminate.
  - exact H.
Defined.

Lemma mmap_hint_witness :
  ∃ t, mmap_anon Paging.sample_mm LibTable_new sample_root 0 16 = (t, ANON_VA_BASE).
Proof.
  destruct (mmap_hint_not_reserved Paging.sample_mm sample_root 16) as [_ H].
  - discriminate.
  - lia.
  - intros a. apply sample_unmapped.
  - exact H.
Defined.

End VaAlloc.
