(* ===== verification/Elf.v ===== *)
(** * The ELF loader ([process/elf.rs])

    [load] checks the file header and copies every [PT_LOAD] segment into
    frames it maps in the address space of the new process.  The data frames
    are cells of [Paging.mem], one byte each: a frame holds either table
    entries or bytes.

    The reference is the image of a file: which byte ([image_byte]) and which
    permissions ([image_perms]) an address has when the segments are laid over
    each other in file order.  [elf_load_image] shows that the loader builds
    that image on the page tables of [Paging]; [elf_kernel_segment_shared]
    shows what it does with a segment in the kernel half, and
    [elf_phoff_wraps] with a program header offset near the end of the address
    space. *)

From Stdlib Require Import ZArith Lia.
From stdpp Require Import base numbers strings option list gmap.
From S2P Require Import Prelude FrameAlloc Paging.

Local Open Scope Z_scope.

Module Elf.

Definition ELF_MAGIC : bytes := [0x7F; 0x45; 0x4C; 0x46].
Definition ELFCLASS64 : Z := 2.
Definition ELFDATA2LSB : Z := 1.
Definition ET_EXEC : Z := 2.
Definition ET_DYN : Z := 3.
Definition EM_X86_64 : Z := 62.
Definition EM_NATIVE : Z := EM_X86_64.
Definition PT_LOAD : Z := 1.
Definition PF_X : Z := Z.shiftl 1 0.
Definition PF_W : Z := Z.shiftl 1 1.

(** The fields the loader reads; both structures are packed. *)
Record Elf64Hdr := mkHdr {
  e_ident : bytes; e_type : Z; e_machine : Z; e_entry : Z; e_phoff : Z;
  e_phentsize : Z; e_phnum : Z
}.

Record Elf64Phdr := mkPhdr {
  p_type : Z; p_flags : Z; p_offset : Z; p_vaddr : Z; p_filesz : Z; p_memsz : Z
}.

Definition Hdr_size : Z := 64.
Definition Phdr_size : Z := 56.

Definition field (bs : bytes) (off n : nat) : Z := le_val (slice bs off (off + n)).

Definition hdr_of (bs : bytes) : Elf64Hdr :=
  mkHdr (slice bs 0 16) (field bs 16 2) (field bs 18 2) (field bs 24 8) (field bs 32 8)
    (field bs 54 2) (field bs 56 2).

Definition phdr_of (bs : bytes) : Elf64Phdr :=
  mkPhdr (field bs 0 4) (field bs 4 4) (field bs 8 8) (field bs 16 8) (field bs 32 8)
    (field bs 40 8).

(** The bound is tested on the wrapped sum; when it wrapped, the raw read is
    outside the slice, which is [Panic]. *)
Definition read_struct {T} (size : Z) (decode : bytes → T) (bs : bytes) (offset : Z)
    : outcome (option T) :=
  if Z.of_nat (length bs) <? u64 (offset + size) then Val None
  else if offset + size <=? Z.of_nat (length bs)
       then Val (Some (decode (slice bs (Z.to_nat offset) (Z.to_nat (offset + size)))))
       else Panic.

Definition check_header (hdr : Elf64Hdr) : result unit :=
  if negb (bytes_eqb (take 4 (e_ident hdr)) ELF_MAGIC) then Err "bad ELF magic"
  else if negb (e_ident hdr !!! 4%nat =? ELFCLASS64) then Err "not ELF64"
  else if negb (e_ident hdr !!! 5%nat =? ELFDATA2LSB) then Err "not little-endian"
  else if negb (e_machine hdr =? EM_NATIVE) then Err "wrong ELF machine for arch"
  else if negb (e_type hdr =? ET_EXEC) && negb (e_type hdr =? ET_DYN)
       then Err "not executable ELF"
  else if negb (e_phentsize hdr =? Phdr_size) then Err "unexpected phentsize"
  else Ok tt.

(** The bytes [byte_start..byte_end] of a segment into its page. *)
Definition copy_byte (bs : bytes) (ph : Elf64Phdr) (page_phys page_off byte_start : Z)
    (s : Paging.Mm) (i : nat) : Paging.Mm :=
  let byte_idx := byte_start + Z.of_nat i in
  if byte_idx <? page_off then s
  else
    let seg_byte := byte_idx - page_off in
    if seg_byte <? p_filesz ph then
      let src_off := u64 (p_offset ph + seg_byte) in
      if src_off <? Z.of_nat (length bs)
      then Paging.write s (page_phys + (byte_idx - byte_start)) (bs !!! Z.to_nat src_off)
      else s
    else s.

Definition copy_page (bs : bytes) (ph : Elf64Phdr) (page_phys page_off byte_start byte_end : Z)
    (s : Paging.Mm) : Paging.Mm :=
  fold_left (copy_byte bs ph page_phys page_off byte_start)
    (seq 0 (Z.to_nat (byte_end - byte_start))) s.

(** The loader's state: the machine and the pages this call has backed. *)
Abbreviation load_state := (Paging.Mm * gmap Z Z)%type.

Definition writable (ph : Elf64Phdr) : bool := negb (Z.land (p_flags ph) PF_W =? 0).
Definition exec (ph : Elf64Phdr) : bool := negb (Z.land (p_flags ph) PF_X =? 0).

Definition load_page (bs : bytes) (pml4_phys : Z) (ph : Elf64Phdr) (p : nat) (st : load_state)
    : outcome (load_state * result unit) :=
  let '(s, mapped) := st in
  let page_start := Paging.page_floor (p_vaddr ph) in
  let page_off := p_vaddr ph - page_start in
  let total_bytes := u64 (page_off + p_memsz ph) in
  let page_virt := u64 (page_start + Z.of_nat p * 4096) in
  let existing_phys := mapped !! page_virt in
  let '(s1, mapped1, frame) :=
    match existing_phys with
    | Some phys => (s, mapped, Some phys)
    | None =>
        match Paging.alloc_frame s with
        | (s1, Some phys) => (Paging.zero_page s1 phys, <[page_virt := phys]> mapped, Some phys)
        | (s1, None) => (s1, mapped, None)
        end
    end in
  match frame with
  | None => Val (s1, mapped1, Err "OOM: elf segment")
  | Some page_phys =>
      let byte_start := Z.of_nat p * 4096 in
      let byte_end := Z.min (u64 (byte_start + 4096)) total_bytes in
      let s2 := copy_page bs ph page_phys page_off byte_start byte_end s1 in
      let map_exec := exec ph || isSome existing_phys in
      let! r := Paging.map_user_page_with_flags s2 pml4_phys page_virt page_phys
                  (writable ph) map_exec in
      Val (r.1, mapped1, r.2)
  end.

Definition num_pages (ph : Elf64Phdr) : Z :=
  let page_off := p_vaddr ph - Paging.page_floor (p_vaddr ph) in
  (u64 (page_off + p_memsz ph) + 4095) / 4096.

Definition load_segment (bs : bytes) (pml4_phys : Z) (hdr : Elf64Hdr) (i : nat) (st : load_state)
    : outcome (load_state * result unit) :=
  let ph_base := u64 (e_phoff hdr + Z.of_nat i * e_phentsize hdr) in
  let! o := read_struct Phdr_size phdr_of bs ph_base in
  match o with
  | None => Val (st, Err "pheader OOB")
  | Some ph =>
      if negb (p_type ph =? PT_LOAD) then Val (st, Ok tt)
      else if p_memsz ph =? 0 then Val (st, Ok tt)
      else try_range 0 (Z.to_nat (num_pages ph)) (load_page bs pml4_phys ph) st
  end.

(** Returns the entry point. *)
Definition load (s : Paging.Mm) (bs : bytes) (pml4_phys : Z) : outcome (Paging.Mm * result Z) :=
  let! o := read_struct Hdr_size hdr_of bs 0 in
  match o with
  | None => Val (s, Err "ELF too short")
  | Some hdr =>
      match check_header hdr with
      | Err e => Val (s, Err e)
      | Ok _ =>
          let! r := try_range 0 (Z.to_nat (e_phnum hdr)) (load_segment bs pml4_phys hdr) (s, ∅) in
          match r with
          | (s', _, Ok _) => Val (s', Ok (e_entry hdr))
          | (s', _, Err e) => Val (s', Err e)
          end
      end
  end.

(** ** The image of a file *)

(** The byte a segment has in the file for an address. *)
Definition seg_byte (bs : bytes) (ph : Elf64Phdr) (va : Z) : option Z :=
  if (p_vaddr ph <=? va) && (va <? p_vaddr ph + Z.min (p_filesz ph) (p_memsz ph))
  then bs !! Z.to_nat (p_offset ph + (va - p_vaddr ph)) else None.

Definition covers (ph : Elf64Phdr) (page : Z) : bool :=
  (p_vaddr ph / 4096 <=? page) && (page <=? (p_vaddr ph + p_memsz ph - 1) / 4096).

(** Later segments lie over earlier ones; what no file byte covers is zero. *)
Definition image_byte (bs : bytes) (segs : list Elf64Phdr) (va : Z) : Z :=
  fold_left (λ acc ph, default acc (seg_byte bs ph va)) segs 0.

(** The last segment of a page gives its write permission; a page of several
    segments is executable. *)
Definition image_perms (segs : list Elf64Phdr) (page : Z) : option (bool * bool) :=
  fold_left (λ acc ph, if covers ph page then Some (writable ph, exec ph || isSome acc) else acc)
    segs None.

(** The entry point and the loadable segments of a well-formed file. *)
Definition phdr_at (bs : bytes) (hdr : Elf64Hdr) (i : nat) : option Elf64Phdr :=
  let base := e_phoff hdr + Z.of_nat i * Phdr_size in
  if base + Phdr_size <=? Z.of_nat (length bs)
  then Some (phdr_of (slice bs (Z.to_nat base) (Z.to_nat (base + Phdr_size)))) else None.

Definition loadable (ph : Elf64Phdr) : bool := (p_type ph =? PT_LOAD) && negb (p_memsz ph =? 0).

Definition parse (bs : bytes) : option (Z * list Elf64Phdr) :=
  if Z.of_nat (length bs) <? Hdr_size then None
  else
    let hdr := hdr_of (slice bs 0 64) in
    match check_header hdr with
    | Err _ => None
    | Ok _ =>
        phs ← mapM (phdr_at bs hdr) (seq 0 (Z.to_nat (e_phnum hdr)));
        Some (e_entry hdr, List.filter loadable phs)
    end.

(** A segment of the user half whose file part does not wrap. *)
Definition seg_ok (ph : Elf64Phdr) : Prop :=
  0 ≤ p_vaddr ph ∧ 0 ≤ p_memsz ph ∧ p_vaddr ph + p_memsz ph ≤ 2 ^ 47 ∧
  0 ≤ p_filesz ph ∧ 0 ≤ p_offset ph ∧ p_offset ph + p_filesz ph < 2 ^ 64.

#[global] Instance seg_ok_dec ph : Decision (seg_ok ph).
Proof. unfold seg_ok. apply _. Defined.

(** ** Copying one page *)

Section copy.
Context (bs : bytes) (ph : Elf64Phdr) (Hseg : seg_ok ph) (phys page_off byte_start va0 : Z).
(** [va0] is the address of the page, [page_off] the offset of the segment in
    its first page. *)
Context (Hva : va0 - p_vaddr ph = byte_start - page_off).

Lemma copy_byte_at s i :
  va0 + Z.of_nat i < p_vaddr ph + p_memsz ph →
  copy_byte bs ph phys page_off byte_start s i =
  match seg_byte bs ph (va0 + Z.of_nat i) with
  | Some b => Paging.write s (phys + Z.of_nat i) b
  | None => s
  end.
Proof.
  intros Hi. destruct Hseg as (? & ? & ? & ? & ? & ?). unfold copy_byte, seg_byte.
  destruct (Z.ltb_spec (byte_start + Z.of_nat i) page_off).
  { by rewrite (proj2 (Z.leb_gt _ _)) by lia. }
  rewrite (proj2 (Z.leb_le (p_vaddr ph) _)) by lia. cbn [andb].
  destruct (Z.ltb_spec (byte_start + Z.of_nat i - page_off) (p_filesz ph)).
  2: { by rewrite (proj2 (Z.ltb_ge _ _)) by lia. }
  rewrite (proj2 (Z.ltb_lt (va0 + _) _)) by lia. unfold u64. rewrite wrap_small by (unfold is_u; lia).
  replace (byte_start + Z.of_nat i - page_off) with (va0 + Z.of_nat i - p_vaddr ph) by lia.
  set (o := p_offset ph + (va0 + Z.of_nat i - p_vaddr ph)).
  destruct (Z.ltb_spec o (Z.of_nat (length bs))).
  - destruct (bs !! Z.to_nat o) as [b|] eqn:E.
    2: { apply lookup_ge_None in E. lia. }
    rewrite (list_lookup_total_correct _ _ _ E). f_equal. lia.
  - rewrite lookup_ge_None_2; [done|]. lia.
Qed.

Lemma copy_fold s n :
  va0 + Z.of_nat n ≤ p_vaddr ph + p_memsz ph ∨ n = O →
  let s' := fold_left (copy_byte bs ph phys page_off byte_start) (seq 0 n) s in
  (∀ a, Paging.mem s' a =
     if (phys <=? a) && (a <? phys + Z.of_nat n)
     then default (Paging.mem s a) (seg_byte bs ph (va0 + (a - phys))) else Paging.mem s a) ∧
  Paging.frames s' = Paging.frames s ∧ Paging.cr3 s' = Paging.cr3 s.
Proof.
  induction n as [|n IH]; intros Hn.
  { split; [|done]. intros a. destruct (_ && _) eqn:E; [unbool; lia|done]. }
  destruct IH as (Hm & Hf & Hc); [lia|].
  rewrite seq_S, fold_left_app. cbn [fold_left Nat.add]. rewrite copy_byte_at by lia.
  assert (∀ a, (phys <=? a) && (a <? phys + Z.of_nat (S n)) =
    (phys <=? a) && (a <? phys + Z.of_nat n) || (a =? phys + Z.of_nat n)) as Hr.
  { intros a. apply eq_bool_prop_intro. rewrite !Is_true_true, orb_true_iff, !andb_true_iff,
      !Z.leb_le, !Z.ltb_lt, Z.eqb_eq. lia. }
  destruct (seg_byte bs ph (va0 + Z.of_nat n)) as [b|] eqn:Eb; (split; [|done]); intros a;
    cbn [Paging.write Paging.mem]; unfold Paging.upd; rewrite Hr, ?Hm;
    (destruct (Z.eqb_spec a (phys + Z.of_nat n)) as [->|]; [|by rewrite orb_false_r]);
    rewrite orb_true_r; replace (va0 + (phys + Z.of_nat n - phys)) with (va0 + Z.of_nat n) by lia;
    rewrite Eb; [done|]. by destruct (_ && _).
Qed.
End copy.

(** The page number of the [p]-th page of a segment. *)
Definition seg_page (ph : Elf64Phdr) (p : nat) : Z := p_vaddr ph / 4096 + Z.of_nat p.

Lemma seg_off ph : seg_ok ph →
  let off := p_vaddr ph - Paging.page_floor (p_vaddr ph) in
  0 ≤ off < 4096 ∧ u64 (off + p_memsz ph) = off + p_memsz ph ∧
  p_vaddr ph = p_vaddr ph / 4096 * 4096 + off.
Proof.
  intros (? & ? & ? & _). cbv zeta. rewrite Paging.page_floor_val.
  pose proof (Z.div_mod (p_vaddr ph) 4096). pose proof (Z.mod_pos_bound (p_vaddr ph) 4096).
  split_and!; [lia..| |lia]. unfold u64. apply wrap_small. unfold is_u. lia.
Qed.

Lemma seg_pages ph p : seg_ok ph → p_memsz ph ≠ 0 →
  Z.of_nat p < num_pages ph ↔ seg_page ph p ≤ (p_vaddr ph + p_memsz ph - 1) / 4096.
Proof.
  intros Hs Hm. destruct (seg_off ph Hs) as (Ho & Eo & Ev). destruct Hs as (? & ? & _).
  unfold num_pages, seg_page. rewrite Eo. set (off := p_vaddr ph - _) in *.
  rewrite Ev at 2. rewrite Z.add_comm with (n := p_vaddr ph / 4096).
  replace (p_vaddr ph / 4096 * 4096 + off + p_memsz ph - 1)
    with (off + p_memsz ph - 1 + p_vaddr ph / 4096 * 4096) by lia.
  rewrite Z.div_add by lia.
  replace (off + p_memsz ph + 4095) with (off + p_memsz ph - 1 + 1 * 4096) by lia.
  rewrite Z.div_add by lia. lia.
Qed.

Lemma seg_page_user ph p : seg_ok ph → p_memsz ph ≠ 0 → Z.of_nat p < num_pages ph →
  Paging.user (seg_page ph p * 4096).
Proof.
  intros Hs Hm Hp. apply (seg_pages ph p Hs Hm) in Hp. destruct Hs as (? & ? & ? & _).
  assert (0 ≤ p_vaddr ph / 4096) by (apply Z.div_pos; lia).
  assert ((p_vaddr ph + p_memsz ph - 1) / 4096 < 2 ^ 35) by (apply Z.div_lt_upper_bound; lia).
  unfold Paging.user, seg_page in *. lia.
Qed.

Lemma copy_page_spec bs ph p phys s :
  seg_ok ph → p_memsz ph ≠ 0 → Z.of_nat p < num_pages ph →
  let off := p_vaddr ph - Paging.page_floor (p_vaddr ph) in
  let s' := copy_page bs ph phys off (Z.of_nat p * 4096)
              (Z.min (u64 (Z.of_nat p * 4096 + 4096)) (u64 (off + p_memsz ph))) s in
  (∀ j, 0 ≤ j < 4096 → Paging.mem s' (phys + j) =
     default (Paging.mem s (phys + j)) (seg_byte bs ph (seg_page ph p * 4096 + j))) ∧
  (∀ a, a < phys ∨ phys + 4096 ≤ a → Paging.mem s' a = Paging.mem s a) ∧
  Paging.frames s' = Paging.frames s ∧ Paging.cr3 s' = Paging.cr3 s.
Proof.
  intros Hs Hm Hp off. destruct (seg_off ph Hs) as (Ho & Eo & Ev). fold off in Ho, Eo, Ev.
  pose proof (seg_page_user ph p Hs Hm Hp) as Hu.
  pose proof (proj1 (seg_pages ph p Hs Hm) Hp) as Hp'.
  pose proof (Z.mul_div_le (p_vaddr ph + p_memsz ph - 1) 4096 ltac:(lia)) as Hle.
  assert (0 ≤ p_vaddr ph / 4096) by (apply Z.div_pos; [apply Hs|lia]).
  unfold copy_page. rewrite Eo. unfold Paging.user, seg_page in *.
  unfold u64. rewrite (wrap_small 64 (Z.of_nat p * 4096 + 4096)) by (unfold is_u; lia).
  set (n := Z.to_nat _).
  destruct (copy_fold bs ph Hs phys off (Z.of_nat p * 4096)
    ((p_vaddr ph / 4096 + Z.of_nat p) * 4096) ltac:(lia) s n) as (Hmem & Hf & Hc); [lia|].
  split_and!; [..|done|done].
  - intros j Hj. rewrite Hmem. replace (phys + j - phys) with j by lia.
    destruct (_ && _) eqn:E; unbool; [done|].
    unfold seg_byte. rewrite (proj2 (Z.ltb_ge _ (_ + Z.min _ _))) by lia.
    by rewrite andb_false_r.
  - intros a Ha. rewrite Hmem. destruct (_ && _) eqn:E; unbool; [lia|done].
Qed.

(** ** The frames of the image *)

Section build.
Context (s0 : Paging.Mm) (roots : list Z) (sps : list Paging.space).
Context (k : nat) (r : Z) (Hk : roots !! k = Some r) (Hlen : (k < length sps)%nat).

Abbreviation is_free s f := (FrameAlloc.is_free (FrameAlloc.bits (Paging.frames s)) f).

(** The pages backed so far have frames of their own that were free at the
    start, are no tables, and hold the bytes [c] gives for their addresses. *)
Record data (s : Paging.Mm) (mapped : gmap Z Z) (sp : Paging.space) (c : Z → Z) : Prop := mkData {
  d_rel : Paging.rel s roots (<[k := sp]> sps);
  d_tables : ∃ lvl par,
    Paging.tables_ok (Paging.mem s) (FrameAlloc.bits (Paging.frames s)) lvl par ∧
    Forall (λ r, lvl !! r = Some 3%nat) roots ∧
    (∀ va phys, mapped !! va = Some phys → lvl !! phys = None);
  d_frame va phys : mapped !! va = Some phys →
    Paging.is_table phys ∧ FrameAlloc.frame_ok (phys / 4096) ∧
    is_free s (phys / 4096) = false ∧ is_free s0 (phys / 4096) = true;
  d_takes : Paging.only_takes s0 s;
  d_inj va1 va2 phys : mapped !! va1 = Some phys → mapped !! va2 = Some phys → va1 = va2;
  d_byte page phys j : mapped !! (page * 4096) = Some phys → 0 ≤ j < 4096 →
    Paging.mem s (phys + j) = c (page * 4096 + j)
}.

Lemma data_ext s mapped sp c c' :
  (∀ va, c va = c' va) → data s mapped sp c → data s mapped sp c'.
Proof. intros E [? ? ? ? ? Hb]. split; try done. intros. rewrite <- E. by apply Hb. Qed.

(** Writing to one of the frames. *)
Lemma data_write s s' mapped sp c c' page phys :
  data s mapped sp c → mapped !! (page * 4096) = Some phys →
  (∀ a, a < phys ∨ phys + 4096 ≤ a → Paging.mem s' a = Paging.mem s a) →
  Paging.frames s' = Paging.frames s → Paging.cr3 s' = Paging.cr3 s →
  (∀ j, 0 ≤ j < 4096 → Paging.mem s' (phys + j) = c' (page * 4096 + j)) →
  (∀ q j, q ≠ page → 0 ≤ j < 4096 → c' (q * 4096 + j) = c (q * 4096 + j)) →
  data s' mapped sp c'.
Proof.
  intros D Hp Hout Ef Ec Hin Hother. pose proof D as [HR (lvl & par & Hok & Hroots & Hno) Hfr Ht Hi Hb].
  destruct (Hfr _ _ Hp) as (Hn & _). pose proof (Hno _ _ Hp) as Hl.
  assert (∀ t l i, lvl !! t = Some l → 0 ≤ i < Paging.slots_of l →
    Paging.mem s' (Paging.slot t i) = Paging.mem s (Paging.slot t i)) as Hm.
  { intros t l i Hlt Hi'. apply Hout. pose proof (Paging.slots_le l).
    destruct (decide (Paging.slot t i < phys ∨ phys + 4096 ≤ Paging.slot t i)) as [|Hin']; [done|].
    assert (t = phys) as ->; [|congruence].
    apply (Paging.page_unique t phys (Paging.slot t i)); unfold Paging.slot in *; try lia; [|done].
    by eapply (Paging.tk_is_table Hok). }
  assert (Paging.tables_ok (Paging.mem s') (FrameAlloc.bits (Paging.frames s')) lvl par) as Hok'.
  { rewrite Ef. destruct Hok as [Hw Htb Hch]. split; [done|done|].
    intros t l i Hlt Hi' Hpr. rewrite (Hm t _ i Hlt Hi') in Hpr |- *. by apply Hch. }
  split; try done.
  - eapply (Paging.rel_keep s s' lvl lvl par); try done.
    intros t va Hlt Hva. by apply (Paging.leaf_agree Hok).
  - by exists lvl, par.
  - rewrite Ef. done.
  - unfold Paging.only_takes. rewrite Ef. done.
  - intros q phys' j Hq Hj. destruct (decide (q = page)) as [->|Hne].
    { rewrite Hp in Hq. simplify_eq. by apply Hin. }
    rewrite Hother by done. rewrite Hout; [by apply Hb|].
    destruct (Hfr _ _ Hq) as (Hn' & _).
    destruct (decide (phys' + j < phys ∨ phys + 4096 ≤ phys' + j)) as [|Hin']; [done|].
    assert (phys' = phys) as -> by (apply (Paging.page_unique phys' phys (phys' + j)); done || lia).
    pose proof (Hi _ _ _ Hp Hq). lia.
Qed.

(** Backing a page with a new zeroed frame. *)
Lemma data_take s s1 mapped sp c page n :
  data s mapped sp c → mapped !! (page * 4096) = None → Paging.alloc_frame s = (s1, Some n) →
  (∀ j, 0 ≤ j < 4096 → c (page * 4096 + j) = 0) →
  data (Paging.zero_page s1 n) (<[page * 4096 := n]> mapped) sp c.
Proof.
  intros D Hp Ha Hz. pose proof D as [HR (lvl & par & Hok & Hroots & Hno) Hfr Ht Hi Hb].
  destruct (Paging.rel_take HR lvl par s1 n Hok Hroots Ha)
    as (Hn & Hln & Hfn & Hfree & Hused & Hok1 & HR1).
  pose proof (Paging.alloc_frame_spec s (Paging.tk_wf _ _ _ _ Hok)) as Hal. rewrite Ha in Hal.
  destruct Hal as (_ & _ & _ & Em & _ & _ & Eb).
  assert (Paging.only_takes s (Paging.zero_page s1 n)) as Htk.
  { intros f Hf. cbn. rewrite Eb, FrameAlloc.is_free_clear by (done || apply Hok). 
    by destruct (_ =? _). }
  assert (∀ va phys, mapped !! va = Some phys → phys ≠ n) as Hnew.
  { intros va phys Hv ->. destruct (Hfr _ _ Hv) as (_ & _ & ? & _). congruence. }
  split; try done.
  - exists lvl, par. split_and!; try done. intros va phys [[_ <-]|[_ ?]]%lookup_insert_Some; eauto.
  - intros va phys [[_ <-]|[_ Hv]]%lookup_insert_Some; [by eauto 10|].
    destruct (Hfr _ _ Hv) as (? & ? & Hu & ?). split_and!; try done.
    apply not_true_is_false. intros Hx. apply Htk in Hx; [congruence|done].
  - intros f Hf H. by apply Ht, Htk.
  - intros va1 va2 phys [[<- <-]|[? Hv]]%lookup_insert_Some [[<- E]|[? Hv']]%lookup_insert_Some; 
      [done| | |eauto].
    + by destruct (Hnew _ _ Hv').
    + subst. by destruct (Hnew _ _ Hv).
  - intros q phys j [[Eq <-]|[Hne Hv]]%lookup_insert_Some Hj; cbn; unfold Paging.PAGE_SIZE.
    + rewrite (proj2 (Z.leb_le _ _)), (proj2 (Z.ltb_lt _ _)) by lia. cbn.
      replace q with page by lia. by rewrite Hz.
    + destruct (_ && _) eqn:E; unbool; [|rewrite Em; by apply Hb].
      destruct (Hnew _ _ Hv). destruct (Hfr _ _ Hv) as (Hn' & _).
      apply (Paging.page_unique phys n (phys + j)); done || lia.
Qed.

Lemma data_map s mapped sp c page phys w x :
  data s mapped sp c → mapped !! (page * 4096) = Some phys → Paging.user (page * 4096) →
  ∃ s' res, Paging.map_user_page_with_flags s r (page * 4096) phys w x = Val (s', res) ∧
    match res with
    | Ok _ => data s' mapped (<[page := (phys, w, x)]> sp) c
    | Err _ => Paging.exhausted s' ∧ Paging.rel s' roots (<[k := sp]> sps)
    end.
Proof.
  intros D Hp Hu. pose proof D as [HR (lvl & par & Hok & Hroots & Hno) Hfr Ht Hi Hb].
  destruct (Paging.rel_map HR Hk (list_lookup_insert_eq _ _ sp Hlen) lvl par (page * 4096) phys w x
    Hok Hroots Hu) as (s' & res & lvl' & par' & Hrun & Hok' & Hroots' & Hkeep & Htk & Hex & HR').
  exists s', res. split; [done|].
  destruct res as [[]|e]; [|by split; [apply Hex|]].
  assert (∀ va q, mapped !! va = Some q → lvl' !! q = None ∧
    ∀ a, q ≤ a < q + 4096 → Paging.mem s' a = Paging.mem s a) as Hq.
  { intros va q Hv. destruct (Hfr _ _ Hv) as (Hn & _ & Hused & _). split.
    - apply (Hkeep q q); try done; [by eapply Hno|]. lia.
    - intros a Ha. apply (Hkeep q a); try done. by eapply Hno. }
  destruct (Hfr _ _ Hp) as ([Hal Hrg] & _). unfold Paging.PHYS_LIMIT in Hrg.
  rewrite Z.div_mul, (Paging.mask_aligned phys) in HR' by (done || lia).
  rewrite list_insert_insert_eq in HR'. split; try done.
  - exists lvl', par'. split_and!; try done. intros va q Hv. by apply (Hq va q).
  - intros va q Hv. destruct (Hfr _ _ Hv) as (? & ? & ? & ?). split_and!; try done.
    apply not_true_is_false. intros Hx. apply Htk in Hx; [congruence|done].
  - intros f Hf Hx. by apply Ht, Htk.
  - intros q phys' j Hv Hj. destruct (Hq _ _ Hv) as [_ ->]; [by apply Hb|lia].
Qed.

(** ** One page of a segment *)

Context (sp0 : Paging.space) (bs : bytes).

(** The pages loaded so far, each with its segment. *)
Abbreviation event := (Elf64Phdr * Z)%type.

Definition ev_byte (es : list event) (va : Z) : Z :=
  fold_left (λ acc e, if va / 4096 =? e.2 then default acc (seg_byte bs e.1 va) else acc) es 0.

Definition ev_perms (es : list event) (page : Z) : option (bool * bool) :=
  fold_left (λ acc e, if e.2 =? page then Some (writable e.1, exec e.1 || isSome acc) else acc)
    es None.

Record built (st : load_state) (es : list event) (sp : Paging.space) : Prop := mkBuilt {
  bt_data : data st.1 st.2 sp (ev_byte es);
  bt_page page : Paging.user (page * 4096) →
    match st.2 !! (page * 4096) with
    | Some phys => ∃ w x, ev_perms es page = Some (w, x) ∧ sp !! page = Some (phys, w, x)
    | None => ev_perms es page = None ∧ sp !! page = sp0 !! page
    end
}.

Lemma ev_byte_snoc es ph page va :
  ev_byte (es ++ [(ph, page)]) va =
  if va / 4096 =? page then default (ev_byte es va) (seg_byte bs ph va) else ev_byte es va.
Proof. unfold ev_byte. by rewrite fold_left_app. Qed.

Lemma ev_perms_snoc es ph page q :
  ev_perms (es ++ [(ph, page)]) q =
  if page =? q then Some (writable ph, exec ph || isSome (ev_perms es q)) else ev_perms es q.
Proof. unfold ev_perms. by rewrite fold_left_app. Qed.

Lemma ev_byte_none es page j :
  ev_perms es page = None → 0 ≤ j < 4096 → ev_byte es (page * 4096 + j) = 0.
Proof.
  intros Hn Hj. induction es as [|[ph q] es IH] using rev_ind; [done|].
  rewrite ev_perms_snoc in Hn. destruct (Z.eqb_spec q page); [done|].
  rewrite ev_byte_snoc, Z.div_add_l, (Z.div_small j) by lia.
  rewrite (proj2 (Z.eqb_neq _ _)) by lia. by apply IH.
Qed.

Definition oom (st : load_state) : Prop :=
  Paging.exhausted st.1 ∧ ∃ sp, Paging.rel st.1 roots (<[k := sp]> sps).

(** The page of a segment over a page that has its frame. *)
Lemma page_over s mapped sp es ph p phys sp1 :
  seg_ok ph → p_memsz ph ≠ 0 → Z.of_nat p < num_pages ph →
  data s mapped sp (ev_byte es) → mapped !! (seg_page ph p * 4096) = Some phys →
  (∀ w x, sp1 w x = <[seg_page ph p := (phys, w, x)]> sp) →
  let off := p_vaddr ph - Paging.page_floor (p_vaddr ph) in
  let s2 := copy_page bs ph phys off (Z.of_nat p * 4096)
              (Z.min (u64 (Z.of_nat p * 4096 + 4096)) (u64 (off + p_memsz ph))) s in
  ∀ w x, ∃ s' res,
    Paging.map_user_page_with_flags s2 r (seg_page ph p * 4096) phys w x = Val (s', res) ∧
    match res with
    | Ok _ => data s' mapped (sp1 w x) (ev_byte (es ++ [(ph, seg_page ph p)]))
    | Err _ => oom (s', mapped)
    end.
Proof.
  intros Hs Hm Hp D Hv Esp off s2 w x. pose proof (seg_page_user ph p Hs Hm Hp) as Hu.
  destruct (copy_page_spec bs ph p phys s Hs Hm Hp) as (Hin & Hout & Hf & Hc).
  fold off in Hin, Hout, Hf, Hc. fold s2 in Hin, Hout, Hf, Hc.
  assert (data s2 mapped sp (ev_byte (es ++ [(ph, seg_page ph p)]))) as D2.
  { apply (data_write s s2 mapped sp (ev_byte es) _ (seg_page ph p) phys); try done.
    - intros j Hj. rewrite Hin, ev_byte_snoc, Z.div_add_l, (Z.div_small j) by lia.
      rewrite Z.add_0_r, Z.eqb_refl. by rewrite (d_byte _ _ _ _ D _ _ j Hv Hj).
    - intros q j Hq Hj. rewrite ev_byte_snoc, Z.div_add_l, (Z.div_small j) by lia.
      by rewrite (proj2 (Z.eqb_neq _ _)) by lia. }
  destruct (data_map s2 mapped sp _ (seg_page ph p) phys w x D2 Hv Hu) as (s' & res & Hrun & H).
  exists s', res. split; [done|]. rewrite Esp. destruct res; [done|]. destruct H. by split; [|exists sp].
Qed.

Lemma built_page s s' mapped mapped' es sp ph page phys :
  built (s, mapped) es sp → Paging.user (page * 4096) →
  mapped' = <[page * 4096 := phys]> mapped →
  data s' mapped' (<[page := (phys, writable ph, exec ph || isSome (mapped !! (page * 4096)))]> sp)
    (ev_byte (es ++ [(ph, page)])) →
  ∃ sp', built (s', mapped') (es ++ [(ph, page)]) sp'.
Proof.
  intros [_ Hpg] Hu Em D. cbn in Hpg. eexists. split; [exact D|]. cbn. intros q Hq. subst mapped'.
  pose proof (Hpg q Hq) as Hq'. rewrite ev_perms_snoc. destruct (Z.eqb_spec page q) as [->|Hne].
  - rewrite lookup_insert_eq. eexists _, _. split; [done|]. rewrite lookup_insert_eq.
    destruct (mapped !! (q * 4096)); [destruct Hq' as (? & ? & -> & _)|destruct Hq' as [-> _]]; done.
  - rewrite lookup_insert_ne by lia. rewrite lookup_insert_ne by done. done.
Qed.

Lemma load_page_step st es sp ph p :
  built st es sp → seg_ok ph → p_memsz ph ≠ 0 → Z.of_nat p < num_pages ph →
  ∃ st' res, load_page bs r ph p st = Val (st', res) ∧
    match res with
    | Ok _ => ∃ sp', built st' (es ++ [(ph, seg_page ph p)]) sp'
    | Err _ => oom st'
    end.
Proof.
  destruct st as [s mapped]. intros B Hs Hm Hp. pose proof (seg_page_user ph p Hs Hm Hp) as Hu.
  pose proof B as [D Hpg]. cbn in D, Hpg. pose proof (Hpg _ Hu) as Hcur. unfold load_page.
  replace (u64 (Paging.page_floor (p_vaddr ph) + Z.of_nat p * 4096)) with (seg_page ph p * 4096).
  2: { unfold u64. rewrite Paging.page_floor_val, <- Z.mul_add_distr_r. fold (seg_page ph p).
       rewrite wrap_small; [done|]. unfold Paging.user in Hu. unfold is_u. lia. }
  destruct (mapped !! (seg_page ph p * 4096)) as [phys|] eqn:Ev.
  - edestruct (page_over s mapped sp es ph p phys (λ w x, <[seg_page ph p := (phys, w, x)]> sp)
      Hs Hm Hp D Ev ltac:(done) (writable ph) (exec ph || true)) as (s' & res & Hrun & Hres).
    cbn [isSome]. rewrite Hrun. cbn [obind fst snd]. eexists _, _. split; [done|].
    destruct res; [|done]. apply (built_page s s' mapped mapped es sp ph _ phys B Hu).
    + by rewrite insert_id.
    + by rewrite Ev.
  - destruct (d_tables _ _ _ _ D) as (lvl & par & Hok & _).
    pose proof (Paging.alloc_frame_spec s (Paging.tk_wf _ _ _ _ Hok)) as Hal.
    destruct (Paging.alloc_frame s) as [s1 [n|]] eqn:Ea.
    2: { destruct Hal as [-> Hex]. eexists _, _. split; [done|]. split; [done|]. exists sp. apply D. }
    destruct Hcur as [Hnone _].
    pose proof (data_take s s1 mapped sp _ _ n D Ev Ea (λ j Hj, ev_byte_none es _ j Hnone Hj)) as D1.
    edestruct (page_over _ _ sp es ph p n (λ w x, <[seg_page ph p := (n, w, x)]> sp) Hs Hm Hp D1
      (lookup_insert_eq _ _ _) ltac:(done) (writable ph) (exec ph || false)) as (s' & res & Hrun & Hres).
    cbn [isSome]. rewrite Hrun. cbn [obind fst snd]. eexists _, _. split; [done|].
    destruct res; [|done]. apply (built_page s s' mapped _ es sp ph _ n B Hu); [done|]. by rewrite Ev.
Qed.

(** ** A segment and the file *)

Definition seg_events (ph : Elf64Phdr) : list event :=
  (λ p, (ph, seg_page ph p)) <$> seq 0 (Z.to_nat (num_pages ph)).

Lemma load_segment_pages st es sp ph :
  built st es sp → seg_ok ph → p_memsz ph ≠ 0 →
  ∃ st' res, try_range 0 (Z.to_nat (num_pages ph)) (load_page bs r ph) st = Val (st', res) ∧
    match res with
    | Ok _ => ∃ sp', built st' (es ++ seg_events ph) sp'
    | Err _ => oom st'
    end.
Proof.
  intros B Hs Hm.
  apply (try_range_inv
    (λ j st, ∃ sp, built st (es ++ ((λ p, (ph, seg_page ph p)) <$> seq 0 j)) sp) (λ st _, oom st)).
  { exists sp. by rewrite app_nil_r. }
  intros j st1 Hj [sp1 B1]. destruct (load_page_step st1 _ sp1 ph j B1 Hs Hm ltac:(lia))
    as (st' & res & Hrun & Hres).
  exists st', res. split; [done|]. by rewrite seq_S, fmap_app, app_assoc.
Qed.
End build.

(** ** The events of a list of segments make the image *)

Section pages.
Context (ph : Elf64Phdr).
Let page p := (ph, seg_page ph p).
Let within n q := (p_vaddr ph / 4096 <=? q) && (q <? p_vaddr ph / 4096 + Z.of_nat n).

Lemma within_S n q : within (S n) q = within n q || (q =? seg_page ph n).
Proof.
  unfold within, seg_page. apply eq_bool_prop_intro.
  rewrite !Is_true_true, orb_true_iff, !andb_true_iff, !Z.leb_le, !Z.ltb_lt, Z.eqb_eq. lia.
Qed.

Lemma fold_pages {A} (f : A → A) (q : Z) n acc :
  fold_left (λ acc (e : Elf64Phdr * Z), if q =? e.2 then f acc else acc) (page <$> seq 0 n) acc =
  if within n q then f acc else acc.
Proof.
  induction n as [|n IH].
  { unfold within. destruct (_ && _) eqn:E; [unbool; lia|done]. }
  rewrite seq_S, fmap_app, fold_left_app, IH, within_S. cbn.
  destruct (Z.eqb_spec q (seg_page ph n)) as [->|]; [|by rewrite orb_false_r].
  rewrite orb_true_r. unfold within, seg_page. destruct (_ && _) eqn:E; [unbool; lia|done].
Qed.

Lemma within_covers q : seg_ok ph → p_memsz ph ≠ 0 →
  within (Z.to_nat (num_pages ph)) q = covers ph q.
Proof.
  intros Hs Hm. unfold within, covers. destruct (Z.leb_spec (p_vaddr ph / 4096) q); [|done].
  cbn [andb]. pose proof (seg_pages ph (Z.to_nat (q - p_vaddr ph / 4096)) Hs Hm) as H'.
  unfold seg_page in H'. apply eq_bool_prop_intro. rewrite !Is_true_true, Z.leb_le, Z.ltb_lt.
  rewrite Z2Nat.id in H' by lia. replace (p_vaddr ph / 4096 + (q - p_vaddr ph / 4096)) with q in H' by lia.
  rewrite <- H'. lia.
Qed.

Lemma seg_byte_covers bs va b : seg_ok ph → seg_byte bs ph va = Some b → covers ph (va / 4096) = true.
Proof.
  intros (? & ? & ? & ? & _). unfold seg_byte, covers. destruct (_ && _) eqn:E; [|done]. unbool.
  intros _. apply andb_true_iff. split; apply Z.leb_le, Z.div_le_mono; lia.
Qed.
End pages.

Lemma ev_byte_image bs segs va :
  Forall (λ ph, seg_ok ph ∧ p_memsz ph ≠ 0) segs →
  ev_byte bs (concat (seg_events <$> segs)) va = image_byte bs segs va.
Proof.
  unfold ev_byte, image_byte. intros Hs. generalize 0.
  induction segs as [|ph segs IH]; intros acc; [done|].
  apply Forall_cons in Hs as [[Hs Hm] Hsegs]. cbn [fmap list_fmap concat]. rewrite fold_left_app.
  rewrite IH by done. cbn [fold_left]. f_equal. unfold seg_events.
  transitivity (if covers ph (va / 4096) then default acc (seg_byte bs ph va) else acc).
  - rewrite <- within_covers by done. rewrite <- (fold_pages ph (λ acc, default acc (seg_byte bs ph va))).
    generalize acc. induction (seq 0 (Z.to_nat (num_pages ph))); intros; [done|]. cbn. auto.
  - destruct (seg_byte bs ph va) as [b|] eqn:E; [|by destruct (covers _ _)].
    by rewrite (seg_byte_covers _ _ _ _ Hs E).
Qed.

Lemma ev_perms_image segs page :
  Forall (λ ph, seg_ok ph ∧ p_memsz ph ≠ 0) segs →
  ev_perms (concat (seg_events <$> segs)) page = image_perms segs page.
Proof.
  unfold ev_perms, image_perms. intros Hs. generalize (@None (bool * bool)).
  induction segs as [|ph segs IH]; intros acc; [done|].
  apply Forall_cons in Hs as [[Hs Hm] Hsegs]. cbn [fmap list_fmap concat]. rewrite fold_left_app.
  rewrite IH by done. cbn [fold_left]. f_equal. unfold seg_events.
  rewrite <- within_covers by done.
  rewrite <- (fold_pages ph (λ acc, Some (writable ph, exec ph || isSome acc))).
  generalize acc. induction (seq 0 (Z.to_nat (num_pages ph))); intros; [done|]. cbn.
  rewrite (Z.eqb_sym (seg_page ph a)). auto.
Qed.

(** ** The whole file *)

Lemma field_nonneg bs off n : bytes_ok bs → 0 ≤ field bs off n.
Proof. intros H. apply (le_val_bounds (slice bs off (off + n))). by apply slice_bytes_ok. Qed.

Lemma check_header_phentsize hdr : check_header hdr = Ok tt → e_phentsize hdr = Phdr_size.
Proof.
  unfold check_header. repeat (case_if; [done|]). intros _.
  match goal with H : negb (_ =? Phdr_size) = false |- _ => by unbool end.
Qed.

Lemma read_struct_in {T} size (decode : bytes → T) bs off :
  0 ≤ off → off + size ≤ Z.of_nat (length bs) → Z.of_nat (length bs) < 2 ^ 63 → 0 ≤ size →
  read_struct size decode bs off =
  Val (Some (decode (slice bs (Z.to_nat off) (Z.to_nat (off + size))))).
Proof.
  intros. unfold read_struct, u64. rewrite wrap_small by (unfold is_u; lia).
  by rewrite (proj2 (Z.ltb_ge _ _)), (proj2 (Z.leb_le _ _)) by lia.
Qed.

Lemma read_phdr bs hdr i ph :
  Z.of_nat (length bs) < 2 ^ 63 → 0 ≤ e_phoff hdr → e_phentsize hdr = Phdr_size →
  phdr_at bs hdr i = Some ph →
  read_struct Phdr_size phdr_of bs (u64 (e_phoff hdr + Z.of_nat i * e_phentsize hdr)) =
  Val (Some ph).
Proof.
  intros Hlen Ho -> Hp. unfold phdr_at in Hp. case_if_in Hp; [|done]. injection Hp as <-. unbool.
  unfold u64, Phdr_size in *. rewrite wrap_small by (unfold is_u; lia). by apply read_struct_in; lia.
Qed.

Section file.
Context (s0 : Paging.Mm) (roots : list Z) (sps : list Paging.space) (k : nat) (r : Z).
Context (sp0 : Paging.space) (bs : bytes).
Context (HR : Paging.rel s0 roots sps) (Hk : roots !! k = Some r) (Hks : sps !! k = Some sp0).
Context (Hbs : bytes_ok bs) (Hlen : Z.of_nat (length bs) < 2 ^ 63).

Lemma built_start : built s0 roots sps k sp0 bs (s0, ∅) [] sp0.
Proof.
  split; cbn; [|by intros; rewrite lookup_empty].
  split; rewrite ?list_insert_id by done; try (intros; simplify_map_eq; done); [|by intros f].
  destruct (Paging.rl_tables _ _ _ HR) as (lvl & par & ? & ?). by exists lvl, par.
Qed.

Lemma load_segments hdr phs n :
  0 ≤ e_phoff hdr → e_phentsize hdr = Phdr_size →
  mapM (phdr_at bs hdr) (seq 0 n) = Some phs → Forall seg_ok (List.filter loadable phs) →
  ∃ st res, try_range 0 n (load_segment bs r hdr) (s0, ∅) = Val (st, res) ∧
    match res with
    | Ok _ => ∃ sp, built s0 roots sps k sp0 bs st
                (concat (seg_events <$> List.filter loadable phs)) sp
    | Err _ => oom roots sps k st
    end.
Proof.
  intros Ho Hsz Hphs Hok. apply mapM_Some in Hphs.
  assert (length phs = n) as Hn by (apply Forall2_length in Hphs; by rewrite length_seq in Hphs).
  destruct (try_range_inv (λ j st, ∃ sp, built s0 roots sps k sp0 bs st
      (concat (seg_events <$> List.filter loadable (take j phs))) sp)
    (λ st _, oom roots sps k st) (load_segment bs r hdr) 0 n (s0, ∅)) as (st & res & Hrun & H').
  - exists sp0. apply built_start.
  - intros j st Hj [sp B]. destruct (lookup_lt_is_Some_2 phs j ltac:(lia)) as [ph Hph].
    pose proof (Forall2_lookup_lr _ _ _ j j ph Hphs) as Hat.
    rewrite lookup_seq_lt in Hat by lia. specialize (Hat eq_refl Hph).
    unfold load_segment. rewrite (read_phdr bs hdr j ph Hlen Ho Hsz Hat). cbn [obind].
    rewrite (take_S_r _ _ _ Hph), List.filter_app. cbn [List.filter].
    unfold loadable at 2. destruct (p_type ph =? PT_LOAD) eqn:Et; cbn [negb andb].
    2: { exists st, (Ok tt). split; [done|]. rewrite app_nil_r. by exists sp. }
    destruct (p_memsz ph =? 0) eqn:Em; cbn [negb].
    { exists st, (Ok tt). split; [done|]. rewrite app_nil_r. by exists sp. }
    rewrite fmap_app, concat_app. cbn [fmap list_fmap concat]. rewrite app_nil_r.
    apply (load_segment_pages s0 roots sps k r Hk ltac:(by eapply lookup_lt_Some) sp0 bs st _ sp ph B).
    + rewrite Forall_forall in Hok. apply Hok. apply list_elem_of_In, List.filter_In.
      split; [apply list_elem_of_In; by eapply list_elem_of_lookup_2|]. unfold loadable.
      by rewrite Et, Em.
    + by unbool.
  - exists st, res. split; [done|]. destruct res; [|done]. cbn in H'. by rewrite <- Hn, firstn_all in H'.
Qed.
End file.

(** C8: Loading a well-formed file whose segments lie in the user half runs without
    a panic.  When it succeeds it returns the entry point; every page of a
    segment is mapped to a frame that was free, and holds the bytes of the image;
    it is writable if the last segment that has the page is, and executable if
    that segment is or if more than one segment has the page; every other page
    of the space is mapped as before, and no other space changes.  It fails only
    when no frame is left. *)
Theorem elf_load_image s roots sps k r sp bs entry segs :
  Paging.rel s roots sps → roots !! k = Some r → sps !! k = Some sp →
  bytes_ok bs → Z.of_nat (length bs) < 2 ^ 63 →
  parse bs = Some (entry, segs) → Forall seg_ok segs →
  ∃ s' res sp', load s bs r = Val (s', res) ∧ Paging.rel s' roots (<[k := sp']> sps) ∧
    match res with
    | Ok e => e = entry ∧ ∀ va, Paging.user va →
        match image_perms segs (va / 4096) with
        | Some (w, x) => ∃ phys, sp' !! (va / 4096) = Some (phys, w, x) ∧
            FrameAlloc.is_free (FrameAlloc.bits (Paging.frames s)) (phys / 4096) = true ∧
            Paging.mem s' (phys + va mod 4096) = image_byte bs segs va
        | None => sp' !! (va / 4096) = sp !! (va / 4096)
        end
    | Err _ => Paging.exhausted s'
    end.
Proof.
  intros HR Hk Hks Hbs Hlen Hp Hsegs. unfold parse in Hp. case_if_in Hp; [done|]. unbool.
  unfold load. rewrite read_struct_in by (unfold Hdr_size in *; lia). cbn [obind].
  change (Z.to_nat (0 + Hdr_size)) with 64%nat. change (Z.to_nat 0) with 0%nat.
  set (hdr := hdr_of (slice bs 0 64)) in *.
  destruct (check_header hdr) as [[]|] eqn:Ehdr; [|done].
  destruct (mapM _ _) as [phs|] eqn:Ephs; [|done]. cbn in Hp. injection Hp as <- <-.
  destruct (load_segments s roots sps k r sp bs HR Hk Hks Hlen hdr phs (Z.to_nat (e_phnum hdr))
    (field_nonneg _ 32 8 (slice_bytes_ok _ _ _ Hbs)) (check_header_phentsize _ Ehdr) Ephs Hsegs)
    as ([s' mapped] & res & -> & Hres). cbn [obind].
  destruct res as [[]|e].
  2: { destruct Hres as (Hex & sp' & HR'). by exists s', (Err e), sp'. }
  destruct Hres as (sp' & D & Hpg). cbn in D, Hpg. exists s', (Ok (e_entry hdr)), sp'.
  split_and!; [done|by apply D|done|]. intros va Hva.
  assert (Forall (λ ph, seg_ok ph ∧ p_memsz ph ≠ 0) (List.filter loadable phs)) as Hall.
  { rewrite Forall_forall in Hsegs |- *. intros ph Hph. split; [by apply Hsegs|].
    apply list_elem_of_In, List.filter_In in Hph as [_ Hph]. unfold loadable in Hph. by unbool. }
  pose proof (Z.div_mod va 4096) as Hdm. pose proof (Z.mod_pos_bound va 4096 ltac:(lia)) as Hmod.
  specialize (Hpg (va / 4096)). rewrite ev_perms_image in Hpg by done.
  assert (Paging.user (va / 4096 * 4096)) as Hu by (unfold Paging.user in *; lia).
  specialize (Hpg Hu). destruct (mapped !! (va / 4096 * 4096)) as [phys|] eqn:Ev.
  - destruct Hpg as (w & x & -> & Hsp). exists phys. split_and!; [done| |].
    + by apply (d_frame _ _ _ _ _ _ _ _ D _ _ Ev).
    + rewrite (d_byte _ _ _ _ _ _ _ _ D _ _ _ Ev Hmod), ev_byte_image by done. f_equal. lia.
  - destruct Hpg as [-> ?]. done.
Qed.

(** ** A file *)

Definition hdr_bytes (entry phoff phnum : Z) : bytes :=
  ELF_MAGIC ++ [2; 1; 1; 0] ++ replicate 8 0 ++ le_bytes 2 ET_EXEC ++ le_bytes 2 EM_X86_64 ++
  le_bytes 4 1 ++ le_bytes 8 entry ++ le_bytes 8 phoff ++ le_bytes 8 0 ++ le_bytes 4 0 ++
  le_bytes 2 64 ++ le_bytes 2 56 ++ le_bytes 2 phnum ++ le_bytes 2 0 ++ le_bytes 2 0 ++ le_bytes 2 0.

Definition phdr_bytes (flags offset vaddr filesz memsz : Z) : bytes :=
  le_bytes 4 PT_LOAD ++ le_bytes 4 flags ++ le_bytes 8 offset ++ le_bytes 8 vaddr ++ le_bytes 8 0 ++
  le_bytes 8 filesz ++ le_bytes 8 memsz ++ le_bytes 8 4096.

(** Code of three bytes at [0x400ffe], across a page boundary, and two bytes of
    data with four more of zeroes in the second of its pages. *)
Definition sample_elf : bytes :=
  hdr_bytes 0x400ffe 64 2 ++ phdr_bytes 5 176 0x400ffe 3 3 ++ phdr_bytes 6 179 0x401800 2 6 ++
  [0x90; 0x91; 0x92; 0x41; 0x42].

Lemma sample_elf_bytes : bytes_ok sample_elf.
Proof. unfold bytes_ok, is_byte. apply (bool_decide_unpack _). by vm_compute. Qed.

Lemma sample_elf_loads :
  match load Paging.sample_active sample_elf 0x100000 with Val (_, Ok _) => True | _ => False end.
Proof. vm_compute. exact I. Qed.

(** The sample file loaded: the page both segments share holds the bytes of
    both, and it is writable and executable. *)
Lemma elf_load_witness :
  ∃ s' sp' phys, load Paging.sample_active sample_elf 0x100000 = Val (s', Ok 0x400ffe) ∧
    Paging.rel s' [0x100000] [sp'] ∧ sp' !! 0x401 = Some (phys, true, true) ∧
    Paging.mem s' (phys + 0) = 0x92 ∧ Paging.mem s' (phys + 0x801) = 0x42 ∧
    Paging.mem s' (phys + 0x802) = 0.
Proof.
  destruct (parse sample_elf) as [[entry segs]|] eqn:Ep; [|by vm_compute in Ep].
  assert (entry = 0x400ffe ∧ image_perms segs 0x401 = Some (true, true) ∧
    image_byte sample_elf segs 0x401000 = 0x92 ∧ image_byte sample_elf segs 0x401801 = 0x42 ∧
    image_byte sample_elf segs 0x401802 = 0 ∧ Forall seg_ok segs) as (-> & Hpm & B0 & B1 & B2 & Hok).
  { vm_compute in Ep. injection Ep as <- <-. split_and!; [done..|].
    repeat constructor; by apply (bool_decide_unpack (seg_ok _)); vm_compute. }
  destruct (elf_load_image Paging.sample_active [0x100000] [Paging.sample_space] 0 0x100000
    Paging.sample_space sample_elf 0x400ffe segs Paging.sample_rel eq_refl eq_refl sample_elf_bytes
    ltac:(by vm_compute) Ep Hok) as (s' & res & sp' & Hrun & HR & Hres).
  pose proof sample_elf_loads as Hl. rewrite Hrun in Hl. destruct res as [e|]; [|destruct Hl].
  destruct Hres as [-> Hpages]. exists s', sp'.
  pose proof (Hpages 0x401000 ltac:(unfold Paging.user; lia)) as P0. pose proof (Hpages 0x401801 ltac:(unfold Paging.user; lia)) as P1.
  pose proof (Hpages 0x401802 ltac:(unfold Paging.user; lia)) as P2. rewrite B0 in P0. rewrite B1 in P1. rewrite B2 in P2.
  change (0x401000 / 4096) with 0x401 in P0. change (0x401801 / 4096) with 0x401 in P1.
  change (0x401802 / 4096) with 0x401 in P2. rewrite Hpm in P0, P1, P2.
  destruct P0 as (phys & Hs & _ & M0). destruct P1 as (q1 & Hs1 & _ & M1).
  destruct P2 as (q2 & Hs2 & _ & M2). rewrite Hs in Hs1, Hs2. injection Hs1 as <-. injection Hs2 as <-.
  exists phys. split_and!; [exact Hrun|exact HR|exact Hs|exact M0|exact M1|exact M2].
Defined.

(** ** Where the loader trusts the file *)

(** A machine whose kernel half has one table, at [0x2000], and a file with one
    byte to be loaded at the first address of that half. *)
Definition KERNEL_VA : Z := 0xffff800000000000.
Definition kernel_mm : Paging.Mm :=
  Paging.mkMm (Paging.upd (λ _, 0) (Paging.slot 0x1000 256)
                 (Z.lor 0x2000 (Z.lor Paging.PRESENT Paging.WRITABLE)))
    Paging.sample_frames 0x1000 [].
Definition kernel_elf : bytes := hdr_bytes 0x400000 64 1 ++ phdr_bytes 7 120 KERNEL_VA 1 1 ++ [0xCC].

(** Two address spaces [a] and [b]; the file loaded into [a]: what [b] and the
    kernel's own tables at [0x1000] then map at the kernel address, and the
    byte found there. *)
Definition load_into_first : option (list (option (Z * bool * bool)) * Z) :=
  match Paging.alloc_user_pml4 kernel_mm with
  | Val (s1, Some a) =>
      match Paging.alloc_user_pml4 s1 with
      | Val (s2, Some b) =>
          match load s2 kernel_elf a with
          | Val (s3, Ok _) =>
              let look := λ s root, Paging.translate_user_page_flags s root KERNEL_VA in
              Some ([look s2 b; look s2 0x1000; look s3 b; look s3 0x1000],
                    match look s3 0x1000 with Some (phys, _, _) => Paging.mem s3 phys | None => 0 end)
          | _ => None
          end
      | _ => None
      end
  | _ => None
  end.

(** The loader does not confine segments to the user half: loading the file
    into one space maps its byte, writable and executable for user code, at an
    address of the kernel half of every other space and of the kernel. *)
Theorem elf_kernel_segment_shared :
  load_into_first = Some ([None; None; Some (0x102000, true, true); Some (0x102000, true, true)], 0xCC).
Proof. vm_compute. reflexivity. Qed.

(** A program header offset in the last 56 bytes of the address space passes
    the bounds check of [read_struct], and the read is outside the file. *)
Theorem elf_phoff_wraps s bs r :
  let hdr := hdr_of (slice bs 0 64) in
  64 ≤ Z.of_nat (length bs) < 2 ^ 63 → check_header hdr = Ok tt → 0 < e_phnum hdr →
  2 ^ 64 - Phdr_size ≤ e_phoff hdr < 2 ^ 64 → load s bs r = Panic.
Proof.
  intros hdr Hlen Hh Hn Ho. unfold load.
  rewrite read_struct_in by (unfold Hdr_size; lia). cbn [obind].
  change (Z.to_nat (0 + Hdr_size)) with 64%nat. change (Z.to_nat 0) with 0%nat. fold hdr.
  rewrite Hh. replace (Z.to_nat (e_phnum hdr)) with (S (Z.to_nat (e_phnum hdr - 1))) by lia.
  cbn [try_range]. unfold load_segment at 1. unfold read_struct, u64, Phdr_size in *.
  rewrite Z.mul_0_l, Z.add_0_r, (wrap_small 64 (e_phoff hdr)) by (unfold is_u; lia).
  unfold wrap. replace (e_phoff hdr + 56) with (e_phoff hdr + 56 - 2 ^ 64 + 1 * 2 ^ 64) by lia.
  rewrite Z.mod_add, Z.mod_small by lia.
  by rewrite (proj2 (Z.ltb_ge _ _)), (proj2 (Z.leb_gt _ _)) by lia.
Qed.

Definition wrap_elf : bytes := hdr_bytes 0x400000 (2 ^ 64 - 56) 1.

Lemma elf_phoff_witness : load Paging.sample_mm wrap_elf 0x100000 = Panic.
Proof.
  apply (elf_phoff_wraps Paging.sample_mm wrap_elf 0x100000); vm_compute; repeat split; congruence.
Defined.
End Elf.
