(* ===== verification/Sched.v ===== *)
(** * Kernel-task scheduler ([kernel/src/sched/mod.rs])

    The task table, task creation, the timer tick and the round-robin
    [schedule].  [schedule] takes the stack pointer that [context_switch] will
    store through [old_sp_ptr] and returns the stack pointer it loads; the
    switch itself is modelled in [ContextSwitch].  Assertions and unwraps end
    in [Panic].

    [reachable] starts after [register_current_as_task0], as [cortex::run]
    calls it before interrupts are enabled. *)

From Stdlib Require Import ZArith Lia.
From stdpp Require Import base numbers strings option list.
From S2P Require Import Prelude Ring.

Module Sched.

Definition MAX_TASKS : nat := 64.
Definition STACK_SIZE : Z := 32 * 1024.
Definition SCHED_SLICE : Z := 5.

Inductive TaskState := Ready | Running | Blocked | Zombie.
#[global] Instance TaskState_eq_dec : EqDecision TaskState.
Proof. solve_decision. Defined.

Record Task := mkTask {
  pid : Z; state : TaskState; priority : Z; name : string; kernel_sp : Z; stack_base : Z
}.

Record Scheduler := mkSched {
  tasks : list (option Task); count : nat; current : nat; ticks : Z; NEXT_PID : Z
}.

Definition Scheduler_new : Scheduler := mkSched (replicate MAX_TASKS None) 0 0 0 10000.

Definition with_state (t : Task) (st : TaskState) : Task :=
  mkTask (pid t) st (priority t) (name t) (kernel_sp t) (stack_base t).
Definition with_sp (t : Task) (sp : Z) : Task :=
  mkTask (pid t) (state t) (priority t) (name t) sp (stack_base t).

(** Append [t] to the table; the assertion on the table size comes first. *)
Definition add_task (s : Scheduler) (t : Task) : outcome Scheduler :=
  if (count s <? MAX_TASKS)%nat
  then Val (mkSched (<[count s := Some t]> (tasks s)) (count s + 1) (current s) (ticks s)
                    (u64 (NEXT_PID s + 1)))
  else Panic.

Definition register_current_as_task0 (s : Scheduler) (nm : string) : outcome Scheduler :=
  let slot := count s in
  let! s1 := add_task s (mkTask (NEXT_PID s) Running 128 nm 0 0) in
  Val (mkSched (tasks s1) (count s1) slot (ticks s1) (NEXT_PID s1)).

(** [stack_base] and [sp] are the allocated stack and the prepared frame. *)
Definition spawn_kernel_task (s : Scheduler) (nm : string) (stk sp : Z) : outcome (Scheduler * Z) :=
  let! s1 := add_task s (mkTask (NEXT_PID s) Ready 128 nm sp stk) in
  Val (s1, NEXT_PID s).

Definition get (s : Scheduler) (i : nat) : option Task := mjoin (tasks s !! i).
Definition update (f : Task → Task) (i : nat) (ts : list (option Task)) : list (option Task) :=
  alter (fmap f) i ts.

Definition set_tasks (s : Scheduler) (ts : list (option Task)) : Scheduler :=
  mkSched ts (count s) (current s) (ticks s) (NEXT_PID s).

Definition mark_current_zombie (s : Scheduler) : Scheduler :=
  set_tasks s (update (λ t, with_state t Zombie) (current s) (tasks s)).

Definition in_state (st : TaskState) (o : option Task) : bool :=
  match o with Some t => bool_decide (state t = st) | None => false end.

(** The search loop of [schedule]. *)
Inductive scan := Found (i : nat) | NoReady | OutOfFuel.
Fixpoint find_next (fuel : nat) (s : Scheduler) (next start : nat) : scan :=
  match fuel with
  | O => OutOfFuel
  | S fuel' =>
      if in_state Ready (get s next) then Found next
      else
        let next' := ((next + 1) mod count s)%nat in
        if (next' =? start)%nat then NoReady else find_next fuel' s next' start
  end.

(** The state updates of a switch from [current] to [next]. *)
Definition switch_to (s : Scheduler) (next : nat) (sp : Z) : outcome (Scheduler * option Z) :=
  let cur := current s in
  let current_is_zombie := in_state Zombie (get s cur) in
  let ts1 := update (λ t, if bool_decide (state t = Running) then with_state t Ready else t) cur (tasks s) in
  let ts2 := update (λ t, with_state t Running) next ts1 in
  let s2 := set_tasks s ts2 in
  match (if current_is_zombie then Some ts2
         else (λ _, update (λ t, with_sp t sp) cur ts2) <$> get s2 cur), get s2 next with
  | Some ts3, Some t => Val (mkSched ts3 (count s) next (ticks s) (NEXT_PID s), Some (kernel_sp t))
  | _, _ => Panic
  end.

Definition schedule (s : Scheduler) (sp : Z) : outcome (Scheduler * option Z) :=
  if (count s <=? 1)%nat then Val (s, None)
  else
    let start := ((current s + 1) mod count s)%nat in
    match find_next (count s) s start start with
    | Found next => switch_to s next sp
    | NoReady => Val (s, None)
    | OutOfFuel => Panic
    end.

Definition tick (s : Scheduler) (sp : Z) : outcome (Scheduler * option Z) :=
  let s1 := mkSched (tasks s) (count s) (current s) (u64 (ticks s + 1)) (NEXT_PID s) in
  if (1 <? count s1)%nat && (ticks s1 mod SCHED_SLICE =? 0)%Z then schedule s1 sp
  else Val (s1, None).

(** ** Runs *)

Inductive booting : Scheduler → Prop :=
| boot_new : booting Scheduler_new
| boot_spawn s s' nm stk sp p :
    booting s → spawn_kernel_task s nm stk sp = Val (s', p) → booting s'.

Inductive reachable : Scheduler → Prop :=
| reach_register s s' nm : booting s → register_current_as_task0 s nm = Val s' → reachable s'
| reach_spawn s s' nm stk sp p :
    reachable s → spawn_kernel_task s nm stk sp = Val (s', p) → reachable s'
| reach_zombie s : reachable s → reachable (mark_current_zombie s)
| reach_tick s s' sp r : reachable s → tick s sp = Val (s', r) → reachable s'
| reach_schedule s s' sp r : reachable s → schedule s sp = Val (s', r) → reachable s'.

(** [schedule] once per stack pointer of the list. *)
Fixpoint schedule_n (s : Scheduler) (sps : list Z) : outcome Scheduler :=
  match sps with
  | [] => Val s
  | sp :: sps' => let! r := schedule s sp in schedule_n r.1 sps'
  end.

(** ** Invariant *)

Record table_ok (s : Scheduler) : Prop := {
  tk_len : length (tasks s) = MAX_TASKS;
  tk_count : (count s ≤ MAX_TASKS)%nat;
  tk_some i : (i < count s)%nat → ∃ t, get s i = Some t ∧ pid t = (10000 + Z.of_nat i)%Z;
  tk_none i : (count s ≤ i)%nat → get s i = None;
  tk_pid : NEXT_PID s = (10000 + Z.of_nat (count s))%Z
}.

Record inv (s : Scheduler) : Prop := {
  inv_table : table_ok s;
  inv_cur : (current s < count s)%nat;
  inv_running t : get s (current s) = Some t → state t = Running ∨ state t = Zombie;
  inv_others i t : i ≠ current s → get s i = Some t → state t = Ready ∨ state t = Zombie
}.

(** The slot [d] places after the current one, cyclically. *)
Definition after (s : Scheduler) (d : nat) : nat := ring_slot (count s) (current s) d.

(** Slot [d] after the current one is the first Ready one. *)
Definition first_ready (s : Scheduler) (d : nat) : Prop :=
  (0 < d < count s)%nat ∧ in_state Ready (get s (after s d)) = true ∧
  ∀ e, (0 < e < d)%nat → in_state Ready (get s (after s e)) = false.

(** ** Lemmas *)

Lemma get_update s f i j :
  get (set_tasks s (update f i (tasks s))) j = if decide (j = i) then f <$> get s j else get s j.
Proof.
  unfold get, update. cbn [tasks set_tasks]. destruct (decide (j = i)) as [->|Hne].
  - rewrite list_lookup_alter_eq. by destruct (tasks s !! i) as [[]|].
  - by rewrite list_lookup_alter_ne by done.
Qed.

Lemma in_state_true st o : in_state st o = true ↔ ∃ t, o = Some t ∧ state t = st.
Proof.
  destruct o as [t|]; simpl; [|naive_solver]. rewrite bool_decide_eq_true. naive_solver.
Qed.

(** The search visits every slot once, starting after the current one. *)
Lemma find_next_spec fuel s k :
  (0 < count s)%nat → (fuel + k = count s)%nat →
  let start := ((current s + 1) mod count s)%nat in
  (∀ e, (0 < e ≤ k)%nat → in_state Ready (get s (after s e)) = false) → (0 < fuel)%nat →
  match find_next fuel s (after s (S k)) start with
  | Found i => ∃ d, (0 < d ≤ count s)%nat ∧ i = after s d ∧
      in_state Ready (get s i) = true ∧ ∀ e, (0 < e < d)%nat → in_state Ready (get s (after s e)) = false
  | NoReady => ∀ e, (0 < e ≤ count s)%nat → in_state Ready (get s (after s e)) = false
  | OutOfFuel => False
  end.
Proof.
  intros Hn Hfk start Hk Hf. revert k Hfk Hk. induction fuel as [|fuel IH]; intros k Hfk Hk; [lia|].
  cbn [find_next]. destruct (in_state Ready (get s (after s (S k)))) eqn:E.
  { exists (S k). split_and!; try done; try lia. intros e ?. apply Hk. lia. }
  assert (∀ e, (0 < e ≤ S k)%nat → in_state Ready (get s (after s e)) = false) as Hk'.
  { intros e ?. destruct (decide (e = S k)) as [->|]; [done|]. apply Hk. lia. }
  replace ((after s (S k) + 1) mod count s)%nat with (after s (S (S k))).
  2: { unfold after. rewrite ring_slot_next by done. f_equal. lia. }
  assert (start = after s 1) as Hst by done. destruct (Nat.eqb_spec (after s (S (S k))) start) as [Es|Es].
  - rewrite Hst in Es. intros e He. apply Hk'. split; [lia|].
    destruct (decide (S (S k) ≤ count s)%nat) as [|]; [|lia].
    destruct (decide (S (S k) = count s)) as [Ec|]; [|apply ring_slot_inj in Es; lia].
    unfold after, ring_slot in Es. rewrite Ec in Es.
    replace (current s + count s)%nat with (current s + 1 * count s)%nat in Es by lia.
    rewrite Nat.Div0.mod_add in Es. exfalso.
    assert (ring_slot (count s) (current s) 0 = ring_slot (count s) (current s) 1) as E0.
    { unfold ring_slot. by rewrite Nat.add_0_r. }
    apply ring_slot_inj in E0; lia.
  - destruct fuel as [|fuel].
    { exfalso. apply Es. rewrite Hst. unfold after, ring_slot.
      replace (current s + S (S k))%nat with (current s + 1 + 1 * count s)%nat by lia.
      apply Nat.Div0.mod_add. }
    apply IH; [lia|lia|done].
Qed.

Lemma after_count s : (current s < count s)%nat → after s (count s) = current s.
Proof.
  intros H. unfold after, ring_slot.
  replace (current s + count s)%nat with (current s + 1 * count s)%nat by lia.
  rewrite Nat.Div0.mod_add. by apply Nat.mod_small.
Qed.

(** Every other slot of the table is some places after the current one. *)
Lemma after_surj s i :
  (current s < count s)%nat → (i < count s)%nat → i ≠ current s →
  ∃ d, (0 < d < count s)%nat ∧ i = after s d.
Proof.
  intros Hc Hi Hne. unfold after, ring_slot. destruct (decide (current s < i)%nat).
  - exists (i - current s)%nat. split; [lia|]. rewrite Nat.mod_small; lia.
  - exists (i + count s - current s)%nat. split; [lia|].
    replace (current s + (i + count s - current s))%nat with (i + 1 * count s)%nat by lia.
    rewrite Nat.Div0.mod_add, Nat.mod_small; lia.
Qed.

Lemma after_ne s d : (current s < count s)%nat → (0 < d < count s)%nat → after s d ≠ current s.
Proof.
  intros Hc Hd E. assert (after s d = ring_slot (count s) (current s) 0) as E0.
  { rewrite E. unfold ring_slot. rewrite Nat.add_0_r. by rewrite Nat.mod_small. }
  apply ring_slot_inj in E0; lia.
Qed.

Lemma after_lt s d : (current s < count s)%nat → (after s d < count s)%nat.
Proof. intros. apply ring_slot_lt. lia. Qed.

(** The outgoing task as the switch leaves it. *)
Definition parked (t : Task) (sp : Z) : Task :=
  if bool_decide (state t = Zombie) then t else with_sp (with_state t Ready) sp.

(** What a switch to slot [next] leaves in every slot. *)
Definition switched (s s' : Scheduler) (next : nat) (sp : Z) : Prop :=
  count s' = count s ∧ current s' = next ∧ ticks s' = ticks s ∧ NEXT_PID s' = NEXT_PID s ∧
  length (tasks s') = length (tasks s) ∧
  ∀ i, get s' i = if decide (i = next) then (λ t, with_state t Running) <$> get s i
                  else if decide (i = current s) then (λ t, parked t sp) <$> get s i
                  else get s i.

Lemma switch_to_spec s next sp t tc :
  inv s → next ≠ current s → get s next = Some t → get s (current s) = Some tc →
  ∃ s', switch_to s next sp = Val (s', Some (kernel_sp t)) ∧ switched s s' next sp.
Proof.
  intros Hi Hne Hn Hc. unfold switch_to. set (cur := current s) in *.
  set (f1 := λ t, if bool_decide (state t = Running) then with_state t Ready else t).
  set (s1 := set_tasks s (update f1 cur (tasks s))).
  change (update f1 cur (tasks s)) with (tasks s1).
  set (s2 := set_tasks s1 (update (λ t, with_state t Running) next (tasks s1))).
  change (set_tasks s (update (λ t, with_state t Running) next (tasks s1))) with s2.
  assert (∀ j, get s1 j = if decide (j = cur) then f1 <$> get s j else get s j) as H1
    by (intros; apply get_update).
  assert (∀ j, get s2 j = if decide (j = next) then (λ t, with_state t Running) <$> get s1 j
                          else get s1 j) as H2 by (intros; apply get_update).
  rewrite (H2 cur), (H2 next), (H1 cur), (H1 next), Hc, Hn.
  rewrite (decide_False (P := cur = next)), !(decide_True (P := _ = _)) by done.
  rewrite (decide_False (P := next = cur)) by done. cbn [in_state fmap option_fmap option_map].
  destruct (inv_running s Hi tc Hc) as [Hr|Hz].
  - rewrite bool_decide_eq_false_2 by congruence.
    set (s3 := set_tasks s2 (update (λ t, with_sp t sp) cur (tasks s2))).
    eexists. split; [reflexivity|]. split_and!; try done; 
      [by unfold s2, s1, update; cbn [tasks set_tasks]; rewrite !length_alter|].
    intros i. change (get (mkSched _ _ _ _ _) i) with (get s3 i).
    unfold s3. rewrite get_update, H2, H1. unfold parked. fold cur.
    destruct (decide (i = cur)) as [->|]; [|by destruct (decide (i = next))].
    rewrite !(decide_False (P := cur = next)) by done. rewrite Hc. cbn. unfold f1.
    rewrite (bool_decide_eq_true_2 (state tc = Running)) by done.
    by rewrite bool_decide_eq_false_2 by congruence.
  - rewrite bool_decide_eq_true_2 by done. eexists. split; [reflexivity|].
    split_and!; try done;
      [by unfold s2, s1, update; cbn [tasks set_tasks]; rewrite !length_alter|].
    intros i. change (get (mkSched _ _ _ _ _) i) with (get s2 i). rewrite H2, H1. fold cur.
    destruct (decide (i = next)) as [->|]; [by rewrite decide_False by done|].
    destruct (decide (i = cur)) as [->|]; [|done]. rewrite Hc. cbn. unfold f1, parked.
    rewrite bool_decide_eq_false_2, bool_decide_eq_true_2 by congruence. done.
Qed.

Lemma schedule_spec s sp :
  inv s →
  (schedule s sp = Val (s, None) ∧ ∀ i, in_state Ready (get s i) = false) ∨
  ∃ d t s', first_ready s d ∧ get s (after s d) = Some t ∧
    schedule s sp = Val (s', Some (kernel_sp t)) ∧ switched s s' (after s d) sp.
Proof.
  intros Hi. pose proof (inv_cur s Hi) as Hc.
  destruct (tk_some s (inv_table s Hi) _ Hc) as (tc & Htc & _).
  assert (in_state Ready (get s (current s)) = false) as Hcr.
  { rewrite Htc. simpl. apply bool_decide_eq_false. destruct (inv_running s Hi tc Htc); congruence. }
  assert ((∀ e, (0 < e ≤ count s)%nat → in_state Ready (get s (after s e)) = false) →
          ∀ i, in_state Ready (get s i) = false) as Hall.
  { intros H i. destruct (decide (i < count s)%nat) as [Hlt|].
    - destruct (decide (i = current s)) as [->|Hne]; [done|].
      destruct (after_surj s i Hc Hlt Hne) as (d & ? & ->). apply H. lia.
    - by rewrite (tk_none s (inv_table s Hi)) by lia. }
  unfold schedule. destruct (Nat.leb_spec (count s) 1) as [Hle|Hgt].
  { left. split; [done|]. apply Hall. intros e He. assert (e = count s) as -> by lia.
    by rewrite after_count. }
  pose proof (find_next_spec (count s) s 0 ltac:(lia) ltac:(lia)) as Hf. cbv zeta in Hf.
  specialize (Hf ltac:(intros; lia) ltac:(lia)).
  change (after s 1) with ((current s + 1) mod count s)%nat in Hf.
  destruct (find_next _ _ _ _) as [i| |]; [|left; split; [done|by apply Hall]|done].
  right. destruct Hf as (d & Hd & -> & Hr & Hb).
  assert (d ≠ count s) as Hdn by (intros ->; rewrite after_count in Hr; congruence).
  apply in_state_true in Hr as (t & Ht & Hst).
  assert (after s d ≠ current s) as Hne by (apply after_ne; lia).
  destruct (switch_to_spec s (after s d) sp t tc Hi Hne Ht Htc) as (s' & -> & Hs').
  exists d, t, s'. split_and!; try done; try lia. split_and!; try done; try lia.
  rewrite Ht. simpl. by apply bool_decide_eq_true.
Qed.

Lemma switched_inv s s' next sp :
  inv s → (next < count s)%nat → switched s s' next sp → inv s'.
Proof.
  intros [[Hl Hcn Hsome Hnone Hp] Hc Hr Ho] Hn (E1 & E2 & E3 & E4 & E5 & E6).
  constructor.
  - constructor; rewrite ?E1, ?E4, ?E5; try done.
    + intros i Hi. destruct (Hsome i Hi) as (t & Ht & Hpid). rewrite E6, Ht.
      destruct (decide (i = next)); [by eexists|]. destruct (decide (i = current s)); [|by eauto].
      eexists. split; [done|]. unfold parked. by case_bool_decide.
    + intros i Hi. rewrite E6, Hnone by done. by repeat case_decide.
  - by rewrite E1, E2.
  - intros t. rewrite E2, E6, decide_True by done. destruct (get s next); [|done].
    intros [= <-]. by left.
  - intros i t Hi. rewrite E2 in Hi. rewrite E6, decide_False by done.
    destruct (decide (i = current s)) as [->|Hne]; [|by apply Ho].
    destruct (get s (current s)) as [tc|]; [|done]. intros [= <-]. unfold parked.
    case_bool_decide; [by right|by left].
Qed.

Lemma schedule_inv s sp s' r : inv s → schedule s sp = Val (s', r) → inv s'.
Proof.
  intros Hi E. destruct (schedule_spec s sp Hi) as [[E' _]|(d & t & s1 & Hf & _ & E' & Hs)];
    rewrite E' in E; inv E; [done|].
  eapply switched_inv; [done| |done]. apply after_lt. by apply inv_cur.
Qed.

Lemma add_task_spec s t s' :
  table_ok s → pid t = NEXT_PID s → add_task s t = Val s' →
  table_ok s' ∧ count s' = S (count s) ∧ current s' = current s ∧ get s' (count s) = Some t ∧
  ∀ i, i ≠ count s → get s' i = get s i.
Proof.
  intros [Hl Hcn Hsome Hnone Hp] Hpid E. unfold add_task in E.
  destruct (Nat.ltb_spec (count s) MAX_TASKS) as [Hlt|]; [|done]. inv E.
  assert (∀ i, get (mkSched (<[count s := Some t]> (tasks s)) (count s + 1) (current s) (ticks s)
                (u64 (NEXT_PID s + 1))) i = if decide (i = count s) then Some t else get s i) as Hg.
  { intros i. unfold get. cbn [tasks]. destruct (decide (i = count s)) as [->|].
    - by rewrite list_lookup_insert_eq by lia.
    - by rewrite list_lookup_insert_ne by done. }
  split_and!; try (cbn [count current]; done || lia); try (rewrite Hg).
  - constructor; cbn [tasks count NEXT_PID]; try lia.
    + by rewrite length_insert.
    + intros i Hi. rewrite Hg. destruct (decide (i = count s)) as [->|].
      * exists t. split; [done|]. by rewrite Hpid, Hp.
      * apply Hsome. lia.
    + intros i Hi. rewrite Hg, decide_False by lia. apply Hnone. lia.
    + unfold u64. rewrite wrap_small; [lia|]. unfold is_u, MAX_TASKS in *. lia.
  - by rewrite decide_True.
  - intros i Hi. by rewrite Hg, decide_False.
Qed.

Lemma booting_ok s :
  booting s → table_ok s ∧ ∀ i t, get s i = Some t → state t = Ready.
Proof.
  induction 1 as [|s s' nm stk sp p _ [IH1 IH2] E].
  - split.
    + constructor; try done; cbn [count Scheduler_new]; try lia.
      intros i _. unfold get. cbn [tasks Scheduler_new].
      destruct (replicate MAX_TASKS None !! i) as [o|] eqn:E; [|done].
      by apply lookup_replicate in E as [-> _].
    + intros i t. unfold get. cbn [tasks Scheduler_new].
      destruct (replicate MAX_TASKS None !! i) as [o|] eqn:E; [|done].
      by apply lookup_replicate in E as [-> _].
  - unfold spawn_kernel_task in E. destruct (add_task s _) as [s1|] eqn:Ea; [|done]. inv E.
    apply add_task_spec in Ea as (H1 & H2 & _ & H3 & H4); [|done|done].
    split; [done|]. intros i t Ht. destruct (decide (i = count s)) as [->|Hne].
    + rewrite H3 in Ht. by inv Ht.
    + rewrite H4 in Ht by done. by eapply IH2.
Qed.

Lemma register_inv s s' nm : booting s → register_current_as_task0 s nm = Val s' → inv s'.
Proof.
  intros [Ht Hr]%booting_ok E. unfold register_current_as_task0 in E.
  destruct (add_task s _) as [s1|] eqn:Ea; [|done]. inv E.
  apply add_task_spec in Ea as ([K1 K2 K3 K4 K5] & H2 & _ & H3 & H4); [|done|done].
  constructor; cbn [current count]; try lia.
  - constructor; done.
  - intros t Hg. change (get s1 (count s) = Some t) in Hg. rewrite H3 in Hg. inv Hg. by left.
  - intros i t Hi Hg. change (get s1 i = Some t) in Hg. rewrite H4 in Hg by done. left. by eapply Hr.
Qed.

Lemma spawn_inv s s' nm stk sp p : inv s → spawn_kernel_task s nm stk sp = Val (s', p) → inv s'.
Proof.
  intros [Ht Hc Hr Ho] E. unfold spawn_kernel_task in E.
  destruct (add_task s _) as [s1|] eqn:Ea; [|done]. inv E.
  apply add_task_spec in Ea as (H1 & H2 & H5 & H3 & H4); [|done|done].
  constructor; rewrite ?H5; try done; try lia.
  - rewrite H4 by lia. apply Hr.
  - intros i t Hi Hg. destruct (decide (i = count s)) as [->|Hne].
    + rewrite H3 in Hg. inv Hg. by left.
    + rewrite H4 in Hg by done. by eapply Ho.
Qed.

Lemma zombie_inv s : inv s → inv (mark_current_zombie s).
Proof.
  intros [[Hl Hcn Hsome Hnone Hp] Hc Hr Ho].
  assert (∀ j, get (mark_current_zombie s) j =
    if decide (j = current s) then (λ t, with_state t Zombie) <$> get s j else get s j) as Hg
    by (intros; apply get_update).
  constructor; cbn [mark_current_zombie set_tasks current count]; try done.
  - constructor; cbn [mark_current_zombie set_tasks tasks count NEXT_PID]; try done.
    + unfold update. by rewrite length_alter.
    + intros i Hi. rewrite Hg. destruct (Hsome i Hi) as (t & -> & Hpid).
      destruct (decide _); [by eexists|by eauto].
    + intros i Hi. rewrite Hg, Hnone by done. by destruct (decide _).
  - intros t. rewrite Hg, decide_True by done. destruct (get s (current s)); [|done].
    intros [= <-]. by right.
  - intros i t Hi. rewrite Hg, decide_False by done. by apply Ho.
Qed.

Lemma set_ticks_inv s n : inv s → inv (mkSched (tasks s) (count s) (current s) n (NEXT_PID s)).
Proof. intros [[? ? ? ? ?] ? ? ?]. constructor; [constructor|..]; done. Qed.

Lemma sched_reachable_inv s : reachable s → inv s.
Proof.
  induction 1 as [s s' nm Hb E|s s' nm stk sp p _ IH E|s _ IH|s s' sp r _ IH E|s s' sp r _ IH E].
  - by eapply register_inv.
  - by eapply spawn_inv.
  - by apply zombie_inv.
  - unfold tick in E. pose proof (set_ticks_inv s (u64 (ticks s + 1)) IH) as Hi.
    case_if_in E; [by eapply schedule_inv|]. by inv E.
  - by eapply schedule_inv.
Qed.

(** in every reachable state exactly the current slot is running (or the
    zombie a launcher task left there), every other task is ready or a zombie,
    nothing is blocked, and no two tasks share a pid. *)
Theorem sched_single_running s :
  reachable s →
  (∃ t, get s (current s) = Some t ∧ (state t = Running ∨ state t = Zombie)) ∧
  (∀ i t, i ≠ current s → get s i = Some t → state t = Ready ∨ state t = Zombie) ∧
  (∀ i j t u, get s i = Some t → get s j = Some u → pid t = pid u → i = j).
Proof.
  intros [[Hl Hcn Hsome Hnone Hp] Hc Hr Ho]%sched_reachable_inv.
  assert (∀ i t, get s i = Some t → pid t = (10000 + Z.of_nat i)%Z) as Hpid.
  { intros i t Ht. destruct (decide (i < count s)%nat) as [Hi|].
    - destruct (Hsome i Hi) as (u & Hu & Hup). congruence.
    - rewrite Hnone in Ht by lia. done. }
  split_and!; [|done|].
  - destruct (Hsome _ Hc) as (t & Ht & _). by eauto.
  - intros i j t u Ht%Hpid Hu%Hpid E. lia.
Qed.

(** [schedule] never panics and is round-robin: it switches to the first
    ready task after the current one in slot order, loading that task's saved
    stack pointer; a running task is parked as ready with its stack pointer
    saved, a zombie is left untouched, as is every other task; with no ready
    task nothing changes. *)
Theorem schedule_round_robin s sp :
  reachable s →
  (schedule s sp = Val (s, None) ∧ ∀ i t, get s i = Some t → state t ≠ Ready) ∨
  ∃ d t s', first_ready s d ∧ get s (after s d) = Some t ∧
    schedule s sp = Val (s', Some (kernel_sp t)) ∧
    current s' = after s d ∧ count s' = count s ∧
    ∀ i, get s' i = if decide (i = after s d) then Some (with_state t Running)
                    else if decide (i = current s) then (λ t, parked t sp) <$> get s i
                    else get s i.
Proof.
  intros Hi%sched_reachable_inv.
  destruct (schedule_spec s sp Hi) as [[E H]|(d & t & s' & Hf & Ht & E & H1 & H2 & _ & _ & _ & H3)].
  - left. split; [done|]. intros i t Ht Hst. specialize (H i). rewrite Ht in H. simpl in H.
    by rewrite bool_decide_eq_true_2 in H.
  - right. exists d, t, s'. split_and!; try done. intros i. rewrite H3.
    destruct (decide (i = after s d)) as [->|]; [by rewrite Ht|done].
Qed.

(** One switch brings a ready task nearer, or reaches it. *)
Lemma schedule_progress s sp d :
  inv s → (0 < d < count s)%nat → in_state Ready (get s (after s d)) = true →
  ∃ s' r, schedule s sp = Val (s', r) ∧ inv s' ∧ count s' = count s ∧
    (current s' = after s d ∨
     ∃ e, (0 < e < d)%nat ∧ after s' e = after s d ∧ in_state Ready (get s' (after s d)) = true).
Proof.
  intros Hi Hd Hr. pose proof (inv_cur s Hi) as Hc.
  destruct (schedule_spec s sp Hi) as [[_ H]|(m & t & s' & (Hm & _ & Hb) & Ht & E & Hs)].
  { by rewrite H in Hr. }
  exists s', (Some (kernel_sp t)). split_and!; [done| |apply Hs|].
  { eapply switched_inv; [done| |done]. by apply after_lt. }
  destruct Hs as (E1 & E2 & _ & _ & _ & E3).
  assert (m ≤ d)%nat as Hmd.
  { destruct (decide (m ≤ d)%nat); [done|]. rewrite Hb in Hr by lia. done. }
  destruct (decide (m = d)) as [->|Hne]; [by left|]. right. exists (d - m)%nat.
  assert (after s d ≠ after s m) as Hdm.
  { intros E0. apply ring_slot_inj in E0; lia. }
  split_and!; [lia|lia| |].
  - unfold after at 1. rewrite E1, E2. unfold after, ring_slot.
    rewrite Nat.Div0.add_mod_idemp_l. f_equal. lia.
  - rewrite E3, !decide_False; [done|by apply after_ne|done].
Qed.

Lemma schedule_n_reaches s sps d :
  inv s → (0 < d < count s)%nat → in_state Ready (get s (after s d)) = true →
  (d ≤ length sps)%nat →
  ∃ k s', (k ≤ d)%nat ∧ schedule_n s (take k sps) = Val s' ∧ current s' = after s d.
Proof.
  revert s sps. induction d as [d IH] using lt_wf_ind. intros s sps Hi Hd Hr Hl.
  destruct sps as [|sp sps]; [simpl in Hl; lia|]. simpl in Hl.
  destruct (schedule_progress s sp d Hi Hd Hr) as (s' & r & E & Hi' & Hc' & [H|(e & He & Hae & Hre)]).
  - exists 1%nat, s'. split; [lia|]. split; [|done]. simpl. by rewrite E.
  - destruct (IH e ltac:(lia) s' sps) as (k & s'' & Hk & Ek & Hcur); try done; try lia.
    { by rewrite Hae. }
    exists (S k), s''. split; [lia|]. split; [|congruence]. simpl. by rewrite E.
Qed.

(** C25: round-robin scheduling starves nobody: a ready task becomes the
    current one within fewer [schedule] calls than there are tasks, whatever
    stack pointers are saved on the way. *)
Theorem sched_no_starvation s i t sps :
  reachable s → get s i = Some t → state t = Ready → (count s ≤ S (length sps))%nat →
  ∃ k s', (k < count s)%nat ∧ schedule_n s (take k sps) = Val s' ∧ current s' = i.
Proof.
  intros Hi%sched_reachable_inv Ht Hst Hl. pose proof (inv_cur s Hi) as Hc.
  assert (i < count s)%nat as Hlt.
  { destruct (decide (i < count s)%nat); [done|].
    rewrite (tk_none s (inv_table s Hi)) in Ht by lia. done. }
  assert (i ≠ current s) as Hne.
  { intros ->. destruct (inv_running s Hi t Ht); congruence. }
  destruct (after_surj s i Hc Hlt Hne) as (d & Hd & ->).
  destruct (schedule_n_reaches s sps d Hi Hd) as (k & s' & Hk & E & Hcur); [|lia|].
  - rewrite Ht. simpl. by rewrite bool_decide_eq_true_2.
  - exists k, s'. split; [lia|]. done.
Qed.

(** ** Witnesses: an idle task and two spawned ones *)

Definition unwrap (o : outcome (Scheduler * Z)) : Scheduler :=
  match o with Val r => r.1 | Panic => Scheduler_new end.
Definition sample0 : Scheduler :=
  match register_current_as_task0 Scheduler_new "cortex-idle" with
  | Val s => s | Panic => Scheduler_new end.
Definition sample1 : Scheduler := unwrap (spawn_kernel_task sample0 "cortex-bg" 0x8000 0xff80).
Definition sample2 : Scheduler := unwrap (spawn_kernel_task sample1 "user-init" 0x10000 0x17f80).

Lemma sched_sample_reachable : reachable sample2.
Proof.
  apply (reach_spawn sample1 sample2 "user-init" 0x10000 0x17f80 10002); [|reflexivity].
  apply (reach_spawn sample0 sample1 "cortex-bg" 0x8000 0xff80 10001); [|reflexivity].
  apply (reach_register Scheduler_new sample0 "cortex-idle"); [constructor|reflexivity].
Qed.

Lemma sched_single_running_witness :
  ∃ t, get sample2 (current sample2) = Some t ∧ (state t = Running ∨ state t = Zombie).
Proof. apply (sched_single_running sample2 sched_sample_reachable). Defined.

Lemma schedule_round_robin_witness :
  ∃ d t s', first_ready sample2 d ∧ get sample2 (after sample2 d) = Some t ∧
    schedule sample2 0x7000 = Val (s', Some (kernel_sp t)).
Proof.
  destruct (schedule_round_robin sample2 0x7000 sched_sample_reachable)
    as [[E _]|(d & t & s' & H1 & H2 & H3 & _)].
  - vm_compute in E. discriminate.
  - exists d, t, s'. auto.
Defined.

Lemma sched_no_starvation_witness :
  ∃ k s', (k < 3)%nat ∧ schedule_n sample2 (take k [0x7000; 0x7100]%Z) = Val s' ∧ current s' = 2%nat.
Proof.
  apply (sched_no_starvation sample2 2 (mkTask 10002 Ready 128 "user-init" 0x17f80 0x10000)
           [0x7000; 0x7100]%Z sched_sample_reachable); [reflexivity|reflexivity|vm_compute; lia].
Defined.

End Sched.
