(* ===== verification/ContextSwitch.v ===== *)
(** * Context switch and first run of a task ([arch/x86_64/mod.rs],
    [arch/aarch64/mod.rs], [sched/mod.rs])

    The naked assembly of [context_switch] and [task_entry] on both
    architectures, instruction by instruction, and the initial stack frames
    [spawn_kernel_task] builds.  Memory maps the address of a 64-bit word to
    its value; all accesses are at multiples of 8 from a stack pointer.

    The theorems: switching out and back returns to the caller with all
    callee-saved registers restored; a new x86 task enters its function on an
    empty, aligned stack; a new aarch64 task enters it with the stack pointer
    8 bytes above its stack and off alignment. *)

From Stdlib Require Import ZArith Lia.
From stdpp Require Import base numbers option list.
From S2P Require Import Prelude Sched.
Import Sched.
Open Scope Z_scope.

Definition mem : Type := Z → Z.
Definition store (m : mem) (a v : Z) : mem := λ x, if x =? a then v else m x.

(** [m'] holds the words of [m] at [lo .. lo + 8n). *)
Definition same_words (m m' : mem) (lo n : Z) : Prop := ∀ k, 0 ≤ k < n → m' (lo + 8 * k) = m (lo + 8 * k).

(** [n] words from [lo] lie outside the bytes [lo', hi'). *)
Definition apart (lo n lo' hi' : Z) : Prop := lo + 8 * n ≤ lo' ∨ hi' ≤ lo.

(** Read the words just stored. *)
Ltac mem_step :=
  unfold store;
  repeat match goal with
  | |- context [Z.eqb ?a ?b] => destruct (Z.eqb_spec a b); try lia
  end.

(** [same_words] at the word offset [k]. *)
Lemma same_word m m' lo n k a :
  same_words m m' lo n → a = lo + 8 * k → 0 ≤ k < n → m' a = m a.
Proof. intros H -> Hk. by apply H. Qed.

Module X86.

Record Cpu := mkCpu {
  rbx : Z; rbp : Z; r12 : Z; r13 : Z; r14 : Z; r15 : Z; rdi : Z; rsp : Z; rip : Z
}.

(** The pushes of [context_switch], newest last, and the saved stack pointer. *)
Definition save (c : Cpu) (m : mem) : Z * mem :=
  let sp := rsp c in
  let sp := sp - 8 in let m := store m sp (rbx c) in
  let sp := sp - 8 in let m := store m sp (rbp c) in
  let sp := sp - 8 in let m := store m sp (r12 c) in
  let sp := sp - 8 in let m := store m sp (r13 c) in
  let sp := sp - 8 in let m := store m sp (r14 c) in
  let sp := sp - 8 in let m := store m sp (r15 c) in
  (sp, m).

(** The pops and the [ret]. *)
Definition restore (m : mem) (rdi new_sp : Z) : Cpu :=
  let sp := new_sp in
  let r15 := m sp in let sp := sp + 8 in
  let r14 := m sp in let sp := sp + 8 in
  let r13 := m sp in let sp := sp + 8 in
  let r12 := m sp in let sp := sp + 8 in
  let rbp := m sp in let sp := sp + 8 in
  let rbx := m sp in let sp := sp + 8 in
  let rip := m sp in let sp := sp + 8 in
  mkCpu rbx rbp r12 r13 r14 r15 rdi sp rip.

(** [context_switch]: the value stored through [old_sp], the cpu and memory. *)
Definition context_switch (c : Cpu) (m : mem) (new_sp : Z) : Z * Cpu * mem :=
  let '(saved, m1) := save c m in (saved, restore m1 (rdi c) new_sp, m1).

(** [task_entry] up to the call: pop the function, push the return address. *)
Definition task_entry (c : Cpu) (m : mem) (ret_addr : Z) : Cpu * mem :=
  let f := m (rsp c) in
  let sp := rsp c + 8 in
  let sp' := sp - 8 in
  (mkCpu (rbx c) (rbp c) (r12 c) (r13 c) (r14 c) (r15 c) f sp' f, store m sp' ret_addr).

(** The frame [spawn_kernel_task] builds: [kernel_sp] and the memory. *)
Definition spawn_frame (m : mem) (stack_base f entry : Z) : Z * mem :=
  let stack_top := stack_base + STACK_SIZE in
  let sp := stack_top in
  let sp := sp - 8 in let m := store m sp f in
  let sp := sp - 8 in let m := store m sp entry in
  let sp := sp - 8 in let m := store m sp 0 in
  let sp := sp - 8 in let m := store m sp 0 in
  let sp := sp - 8 in let m := store m sp 0 in
  let sp := sp - 8 in let m := store m sp 0 in
  let sp := sp - 8 in let m := store m sp 0 in
  let sp := sp - 8 in let m := store m sp 0 in
  (sp, m).

Lemma x86_save_sp c m : (save c m).1 = rsp c - 48.
Proof. unfold save. simpl. lia. Qed.

(** The seven words of the frame a switch leaves behind. *)
Lemma x86_save_words c m :
  let '(sp, m1) := save c m in
  m1 sp = r15 c ∧ m1 (sp + 8) = r14 c ∧ m1 (sp + 16) = r13 c ∧ m1 (sp + 24) = r12 c ∧
  m1 (sp + 32) = rbp c ∧ m1 (sp + 40) = rbx c ∧ m1 (sp + 48) = m (rsp c).
Proof. unfold save. cbv zeta. split_and!; mem_step; try done; f_equal; lia. Qed.

(** A switch writes only the six words below the outgoing stack pointer. *)
Lemma x86_save_elsewhere c m a : a < rsp c - 48 ∨ rsp c ≤ a → (save c m).2 a = m a.
Proof. intros H. unfold save. cbn [snd]. mem_step; done. Qed.

(** C31: x86: a task that is switched out and later switched back in returns
    from [context_switch] to its caller with every callee-saved register (rbx,
    rbp, r12 to r15) and its stack pointer as they were, provided nobody wrote to the seven words
    of its frame and the task switching back uses another stack. *)
Theorem x86_switch_roundtrip c m new_sp c2 m2 :
  let '(saved, _, m1) := context_switch c m new_sp in
  same_words m1 m2 saved 7 → apart saved 7 (rsp c2 - 48) (rsp c2) →
  let '(_, c3, _) := context_switch c2 m2 saved in
  rip c3 = m (rsp c) ∧ rsp c3 = rsp c + 8 ∧
  (rbx c3, rbp c3, r12 c3, r13 c3, r14 c3, r15 c3) = (rbx c, rbp c, r12 c, r13 c, r14 c, r15 c).
Proof.
  unfold context_switch. pose proof (x86_save_words c m) as Hw. pose proof (x86_save_sp c m) as Hs.
  destruct (save c m) as [saved m1]. cbn [fst] in Hs. intros Hsame Hap. unfold apart in Hap.
  pose proof (x86_save_elsewhere c2 m2) as Helse. destruct (save c2 m2) as [saved2 m3].
  cbn [snd] in Helse. unfold restore. cbn [rip rsp rbx rbp r12 r13 r14 r15].
  assert (∀ k a, a = saved + 8 * k → 0 ≤ k < 7 → m3 a = m1 a) as Hrd.
  { intros k a -> Hk. rewrite Helse by lia. by apply Hsame. }
  destruct Hw as (W0 & W1 & W2 & W3 & W4 & W5 & W6).
  assert (∀ k a v, m1 (saved + k) = v → a = saved + k → (8 | k) → 0 ≤ k < 56 → m3 a = v) as Hv.
  { intros k a v <- -> [j ->] Hk. rewrite (Hrd j) by lia. done. }
  rewrite <- (Z.add_0_r saved) in W0 at 1.
  rewrite (Hv _ (saved) _ W0), (Hv _ (saved + 8) _ W1), (Hv _ (saved + 8 + 8) _ W2),
    (Hv _ (saved + 8 + 8 + 8) _ W3), (Hv _ (saved + 8 + 8 + 8 + 8) _ W4),
    (Hv _ (saved + 8 + 8 + 8 + 8 + 8) _ W5), (Hv _ (saved + 8 + 8 + 8 + 8 + 8 + 8) _ W6)
    by (lia || (apply Z.mod_divide; done)).
  split_and!; [done|lia|done].
Qed.

(** x86: the first switch to a spawned task runs its function on its own,
    empty stack: [task_entry] is entered with zeroed callee-saved registers,
    calls the function with the function pointer in [rdi], and at the call the
    stack pointer is 8 below the 16-byte aligned top (the System V entry
    state). *)
Theorem x86_first_run c m0 m stack_base f entry ret_addr :
  stack_base mod 16 = 0 →
  let '(sp, m1) := spawn_frame m0 stack_base f entry in
  same_words m1 m sp 8 → apart sp 8 (rsp c - 48) (rsp c) →
  let '(_, c1, m2) := context_switch c m sp in
  rip c1 = entry ∧ (rbx c1, rbp c1, r12 c1, r13 c1, r14 c1, r15 c1) = (0, 0, 0, 0, 0, 0) ∧
  let '(c2, _) := task_entry c1 m2 ret_addr in
  rip c2 = f ∧ rdi c2 = f ∧ rsp c2 = stack_base + STACK_SIZE - 8 ∧ (rsp c2 + 8) mod 16 = 0.
Proof.
  intros Hal. unfold spawn_frame. cbv zeta. set (m1 := store _ _ 0).
  set (sp := stack_base + STACK_SIZE - 8 - 8 - 8 - 8 - 8 - 8 - 8 - 8). intros Hsame Hap.
  unfold apart in Hap. unfold context_switch.
  pose proof (x86_save_elsewhere c m) as Helse. destruct (save c m) as [saved m2]. cbn [snd] in Helse.
  assert (∀ k a, a = sp + 8 * k → 0 ≤ k < 8 → m2 a = m1 a) as Hrd.
  { intros k a -> Hk. rewrite Helse by lia. by apply Hsame. }
  unfold restore, task_entry. cbn [rip rsp rdi rbx rbp r12 r13 r14 r15].
  rewrite (Hrd 0 sp), (Hrd 1 (sp + 8)), (Hrd 2 (sp + 8 + 8)), (Hrd 3 (sp + 8 + 8 + 8)),
    (Hrd 4 (sp + 8 + 8 + 8 + 8)), (Hrd 5 (sp + 8 + 8 + 8 + 8 + 8)),
    (Hrd 6 (sp + 8 + 8 + 8 + 8 + 8 + 8)), (Hrd 7 (sp + 8 + 8 + 8 + 8 + 8 + 8 + 8)) by lia.
  assert (m1 sp = 0 ∧ m1 (sp + 8) = 0 ∧ m1 (sp + 8 + 8) = 0 ∧ m1 (sp + 8 + 8 + 8) = 0 ∧
    m1 (sp + 8 + 8 + 8 + 8) = 0 ∧ m1 (sp + 8 + 8 + 8 + 8 + 8) = 0 ∧
    m1 (sp + 8 + 8 + 8 + 8 + 8 + 8) = entry ∧ m1 (sp + 8 + 8 + 8 + 8 + 8 + 8 + 8) = f)
    as (-> & -> & -> & -> & -> & -> & -> & ->).
  { unfold m1, sp. split_and!; mem_step; done. }
  unfold sp, STACK_SIZE. split_and!; try done; try lia.
  apply Z.mod_divide in Hal as [k Hk]; [|done]. apply Z.mod_divide; [done|].
  exists (k + 2048). lia.
Qed.

End X86.

Module Aarch64.

Record Cpu := mkCpu {
  x19 : Z; x20 : Z; x21 : Z; x22 : Z; x23 : Z; x24 : Z; x25 : Z; x26 : Z; x27 : Z; x28 : Z;
  x29 : Z; x30 : Z; x9 : Z; sp : Z; pc : Z
}.

(** [stp a, b, [sp, #-16]!] *)
Definition stp (s : Z) (m : mem) (a b : Z) : Z * mem := (s - 16, store (store m (s - 16) a) (s - 16 + 8) b).

Definition save (c : Cpu) (m : mem) : Z * mem :=
  let '(s, m) := stp (sp c) m (x29 c) (x30 c) in
  let '(s, m) := stp s m (x27 c) (x28 c) in
  let '(s, m) := stp s m (x25 c) (x26 c) in
  let '(s, m) := stp s m (x23 c) (x24 c) in
  let '(s, m) := stp s m (x21 c) (x22 c) in
  stp s m (x19 c) (x20 c).

(** [ldp a, b, [sp], #16], six times, then [ret] to x30. *)
Definition restore (m : mem) (x9 new_sp : Z) : Cpu :=
  let s0 := new_sp in
  let s1 := s0 + 16 in let s2 := s1 + 16 in let s3 := s2 + 16 in
  let s4 := s3 + 16 in let s5 := s4 + 16 in
  mkCpu (m s0) (m (s0 + 8)) (m s1) (m (s1 + 8)) (m s2) (m (s2 + 8)) (m s3) (m (s3 + 8))
        (m s4) (m (s4 + 8)) (m s5) (m (s5 + 8)) x9 (s5 + 16) (m (s5 + 8)).

Definition context_switch (c : Cpu) (m : mem) (new_sp : Z) : Z * Cpu * mem :=
  let '(saved, m1) := save c m in (saved, restore m1 (x9 c) new_sp, m1).

(** [task_entry]: [ldr x9, [sp], #16] and [blr x9]. *)
Definition task_entry (c : Cpu) (m : mem) (ret_addr : Z) : Cpu :=
  let f := m (sp c) in
  mkCpu (x19 c) (x20 c) (x21 c) (x22 c) (x23 c) (x24 c) (x25 c) (x26 c) (x27 c) (x28 c)
        (x29 c) ret_addr f (sp c + 16) f.

Definition zero_words (m : mem) (a : Z) (n : nat) : mem :=
  foldl (λ m i, store m (a + 8 * Z.of_nat i) 0) m (seq 0 n).

Definition spawn_frame (m : mem) (stack_base f entry : Z) : Z * mem :=
  let stack_top := stack_base + STACK_SIZE in
  let fn_slot := stack_top - 8 in
  let m := store m fn_slot f in
  let frame := fn_slot - 8 * 12 in
  let m := zero_words m frame 12 in
  (frame, store m (frame + 8 * 11) entry).

Lemma aarch64_save_sp c m : (save c m).1 = sp c - 96.
Proof. unfold save, stp. cbn [fst]. lia. Qed.

Lemma aarch64_save_elsewhere c m a : a < sp c - 96 ∨ sp c ≤ a → (save c m).2 a = m a.
Proof. intros H. unfold save, stp. cbn [snd]. mem_step; done. Qed.

Lemma aarch64_save_words c m :
  let '(s, m1) := save c m in
  m1 s = x19 c ∧ m1 (s + 8) = x20 c ∧ m1 (s + 16) = x21 c ∧ m1 (s + 16 + 8) = x22 c ∧
  m1 (s + 16 + 16) = x23 c ∧ m1 (s + 16 + 16 + 8) = x24 c ∧
  m1 (s + 16 + 16 + 16) = x25 c ∧ m1 (s + 16 + 16 + 16 + 8) = x26 c ∧
  m1 (s + 16 + 16 + 16 + 16) = x27 c ∧ m1 (s + 16 + 16 + 16 + 16 + 8) = x28 c ∧
  m1 (s + 16 + 16 + 16 + 16 + 16) = x29 c ∧ m1 (s + 16 + 16 + 16 + 16 + 16 + 8) = x30 c.
Proof. unfold save, stp. cbv zeta. split_and!; mem_step; done. Qed.

(** Register [i] of the callee-saved file, x19 first. *)
Definition callee_saved (c : Cpu) : list Z :=
  [x19 c; x20 c; x21 c; x22 c; x23 c; x24 c; x25 c; x26 c; x27 c; x28 c; x29 c; x30 c].

(** A restore reads the twelve words of a frame that is still intact. *)
Lemma restore_frame m m' x s c :
  same_words m m' s 12 → (∃ m0, m = (save c m0).2 ∧ s = (save c m0).1) →
  callee_saved (restore m' x s) = callee_saved c ∧ sp (restore m' x s) = sp c ∧
  pc (restore m' x s) = x30 c.
Proof.
  intros Hsame (m0 & -> & ->). pose proof (aarch64_save_words c m0) as Hw. pose proof (aarch64_save_sp c m0) as Hs.
  destruct (save c m0) as [s m1]. cbn [fst snd] in *.
  assert (∀ k a, a = s + 8 * k → 0 ≤ k < 12 → m' a = m1 a) as Hrd
    by (intros k a -> Hk; by apply Hsame).
  destruct Hw as (W0 & W1 & W2 & W3 & W4 & W5 & W6 & W7 & W8 & W9 & W10 & W11).
  unfold restore, callee_saved. cbn [x19 x20 x21 x22 x23 x24 x25 x26 x27 x28 x29 x30 pc sp].
  rewrite (Hrd 0 s), (Hrd 1 (s + 8)), (Hrd 2 (s + 16)), (Hrd 3 (s + 16 + 8)),
    (Hrd 4 (s + 16 + 16)), (Hrd 5 (s + 16 + 16 + 8)), (Hrd 6 (s + 16 + 16 + 16)),
    (Hrd 7 (s + 16 + 16 + 16 + 8)), (Hrd 8 (s + 16 + 16 + 16 + 16)),
    (Hrd 9 (s + 16 + 16 + 16 + 16 + 8)), (Hrd 10 (s + 16 + 16 + 16 + 16 + 16)),
    (Hrd 11 (s + 16 + 16 + 16 + 16 + 16 + 8)) by lia.
  rewrite W0, W1, W2, W3, W4, W5, W6, W7, W8, W9, W10, W11. split_and!; [done|lia|done].
Qed.

(** aarch64: switching out and back in restores x19–x30 and the stack
    pointer and returns to the link register, provided the twelve words of
    the frame are intact and the task switching back uses another stack. *)
Theorem aarch64_switch_roundtrip c m new_sp c2 m2 :
  let '(saved, _, m1) := context_switch c m new_sp in
  same_words m1 m2 saved 12 → apart saved 12 (sp c2 - 96) (sp c2) →
  let '(_, c3, _) := context_switch c2 m2 saved in
  callee_saved c3 = callee_saved c ∧ sp c3 = sp c ∧ pc c3 = x30 c.
Proof.
  unfold context_switch. destruct (save c m) as [saved m1] eqn:E. intros Hsame Hap.
  pose proof (aarch64_save_elsewhere c2 m2) as Helse. destruct (save c2 m2) as [saved2 m3].
  apply (restore_frame m1); [|exists m; by rewrite E].
  intros k Hk. cbn [snd] in Helse. unfold apart in Hap. rewrite Helse by lia. by apply Hsame.
Qed.

(** aarch64: a spawned task does reach its function through
    [task_entry], but its stack pointer is wrong from the start: the frame
    [kernel_sp] points to is 8 off the 16-byte alignment the architecture and
    the calling convention ask for, and when the function is called the stack
    pointer lies 8 bytes above the end of the task's stack. *)
Theorem aarch64_first_run_sp_past_stack c m0 m stack_base f entry ret_addr :
  stack_base mod 16 = 0 →
  let '(kernel_sp, m1) := spawn_frame m0 stack_base f entry in
  same_words m1 m kernel_sp 13 → apart kernel_sp 13 (sp c - 96) (sp c) →
  let '(_, c1, m2) := context_switch c m kernel_sp in
  let c2 := task_entry c1 m2 ret_addr in
  pc c1 = entry ∧ pc c2 = f ∧
  kernel_sp mod 16 = 8 ∧ sp c2 mod 16 = 8 ∧ sp c2 = stack_base + STACK_SIZE + 8.
Proof.
  intros Hal. unfold spawn_frame. cbv zeta. set (m1 := store (zero_words _ _ _) _ _).
  set (fr := stack_base + STACK_SIZE - 8 - 8 * 12). intros Hsame Hap.
  unfold apart in Hap. unfold context_switch.
  pose proof (aarch64_save_elsewhere c m) as Helse. destruct (save c m) as [saved m2]. cbn [snd] in Helse.
  assert (∀ k a, a = fr + 8 * k → 0 ≤ k < 13 → m2 a = m1 a) as Hrd.
  { intros k a -> Hk. rewrite Helse by lia. by apply Hsame. }
  unfold restore, task_entry. cbn [pc sp].
  rewrite (Hrd 11 (fr + 16 + 16 + 16 + 16 + 16 + 8)) by lia.
  rewrite (Hrd 12 (fr + 16 + 16 + 16 + 16 + 16 + 16)) by lia.
  assert (m1 (fr + 16 + 16 + 16 + 16 + 16 + 8) = entry) as -> by (unfold m1, fr; mem_step; done).
  assert (m1 (fr + 16 + 16 + 16 + 16 + 16 + 16) = f) as ->.
  { unfold m1, zero_words, fr. cbn [foldl seq]. mem_step; done. }
  apply Z.mod_divide in Hal as [k Hk]; [|done]. unfold fr, STACK_SIZE.
  split_and!; try done; try lia.
  - replace (stack_base + 32 * 1024 - 8 - 8 * 12) with (8 + (k + 2041) * 16) by lia.
    by rewrite Z.mod_add.
  - replace (stack_base + 32 * 1024 - 8 - 8 * 12 + 16 + 16 + 16 + 16 + 16 + 16 + 16)
      with (8 + (k + 2048) * 16) by lia. by rewrite Z.mod_add.
Qed.

End Aarch64.

(** ** Witnesses *)

Definition zero_mem : mem := λ _, 0.
Definition x86_a : X86.Cpu := X86.mkCpu 1 2 3 4 5 6 7 0x9000 0x100.
Definition x86_b : X86.Cpu := X86.mkCpu 0 0 0 0 0 0 0 0xf000 0x200.
Definition arm_a : Aarch64.Cpu := Aarch64.mkCpu 1 2 3 4 5 6 7 8 9 10 11 12 0 0x9000 0x100.
Definition arm_b : Aarch64.Cpu := Aarch64.mkCpu 0 0 0 0 0 0 0 0 0 0 0 0 0 0xf000 0x200.

Lemma x86_switch_roundtrip_witness :
  let '(saved, _, m1) := X86.context_switch x86_a zero_mem 0x5000 in
  let '(_, c3, _) := X86.context_switch x86_b m1 saved in
  X86.rsp c3 = 0x9008 ∧ X86.rbx c3 = 1.
Proof.
  pose proof (X86.x86_switch_roundtrip x86_a zero_mem 0x5000 x86_b
    (X86.context_switch x86_a zero_mem 0x5000).2) as H.
  destruct H as (_ & H1 & H2).
  - intros k Hk. reflexivity.
  - left. vm_compute. discriminate.
  - split; [exact H1|]. reflexivity.
Defined.

Lemma x86_first_run_witness :
  let '(sp, m1) := X86.spawn_frame zero_mem 0x10000 0x1234 0x4321 in
  let '(_, c1, m2) := X86.context_switch x86_a m1 sp in
  X86.rip c1 = 0x4321 ∧ X86.rip (X86.task_entry c1 m2 0x4330).1 = 0x1234.
Proof.
  pose proof (X86.x86_first_run x86_a zero_mem (X86.spawn_frame zero_mem 0x10000 0x1234 0x4321).2
    0x10000 0x1234 0x4321 0x4330 eq_refl) as H.
  destruct H as (H1 & _ & H2 & _).
  - intros k Hk. reflexivity.
  - right. vm_compute. discriminate.
  - split; [exact H1|exact H2].
Defined.

Lemma aarch64_switch_roundtrip_witness :
  let '(saved, _, m1) := Aarch64.context_switch arm_a zero_mem 0x5000 in
  let '(_, c3, _) := Aarch64.context_switch arm_b m1 saved in
  Aarch64.callee_saved c3 = [1; 2; 3; 4; 5; 6; 7; 8; 9; 10; 11; 12].
Proof.
  pose proof (Aarch64.aarch64_switch_roundtrip arm_a zero_mem 0x5000 arm_b
    (Aarch64.context_switch arm_a zero_mem 0x5000).2) as H.
  destruct H as (H1 & _).
  - intros k Hk. reflexivity.
  - left. vm_compute. discriminate.
  - exact H1.
Defined.

Lemma aarch64_first_run_witness :
  let '(sp0, m1) := Aarch64.spawn_frame zero_mem 0x10000 0x1234 0x4321 in
  let '(_, c1, m2) := Aarch64.context_switch arm_a m1 sp0 in
  Aarch64.sp (Aarch64.task_entry c1 m2 0x4330) = 0x18008.
Proof.
  pose proof (Aarch64.aarch64_first_run_sp_past_stack arm_a zero_mem
    (Aarch64.spawn_frame zero_mem 0x10000 0x1234 0x4321).2 0x10000 0x1234 0x4321 0x4330 eq_refl) as H.
  destruct H as (_ & _ & _ & _ & H).
  - intros k Hk. reflexivity.
  - right. vm_compute. discriminate.
  - exact H.
Defined.
