(* ===== verification/Sha256.v ===== *)
(** * SHA-256 ([kernel/src/pkg/sha256.rs])

    The compression function on 32-bit words and [hash] as the code runs it:
    full blocks straight from the data, then one or two padding blocks built in
    a 128-byte buffer.  [Fips] is the standard, written without the code's
    definitions.  [hash_eq] and [hash_hex] follow. *)

From Stdlib Require Import ZArith Lia.
From stdpp Require Import base numbers strings option list.
From S2P Require Import Prelude.

Module Sha256.

(** The round constants, in the rows of four of the source. *)
Definition K : list Z := mjoin [
   [0x428a2f98; 0x71374491; 0xb5c0fbcf; 0xe9b5dba5];
   [0x3956c25b; 0x59f111f1; 0x923f82a4; 0xab1c5ed5];
   [0xd807aa98; 0x12835b01; 0x243185be; 0x550c7dc3];
   [0x72be5d74; 0x80deb1fe; 0x9bdc06a7; 0xc19bf174];
   [0xe49b69c1; 0xefbe4786; 0x0fc19dc6; 0x240ca1cc];
   [0x2de92c6f; 0x4a7484aa; 0x5cb0a9dc; 0x76f988da];
   [0x983e5152; 0xa831c66d; 0xb00327c8; 0xbf597fc7];
   [0xc6e00bf3; 0xd5a79147; 0x06ca6351; 0x14292967];
   [0x27b70a85; 0x2e1b2138; 0x4d2c6dfc; 0x53380d13];
   [0x650a7354; 0x766a0abb; 0x81c2c92e; 0x92722c85];
   [0xa2bfe8a1; 0xa81a664b; 0xc24b8b70; 0xc76c51a3];
   [0xd192e819; 0xd6990624; 0xf40e3585; 0x106aa070];
   [0x19a4c116; 0x1e376c08; 0x2748774c; 0x34b0bcb5];
   [0x391c0cb3; 0x4ed8aa4a; 0x5b9cca4f; 0x682e6ff3];
   [0x748f82ee; 0x78a5636f; 0x84c87814; 0x8cc70208];
   [0x90befffa; 0xa4506ceb; 0xbef9a3f7; 0xc67178f2]]%Z.

Definition H0 : list Z :=
  [0x6a09e667; 0xbb67ae85; 0x3c6ef372; 0xa54ff53a; 0x510e527f; 0x9b05688c; 0x1f83d9ab; 0x5be0cd19]%Z.

(** [u32::rotate_right], [!x] and [wrapping_add]. *)
Definition rotate_right (x n : Z) : Z := Z.lor (Z.shiftr x n) (u32 (Z.shiftl x (32 - n))).
Definition not32 (x : Z) : Z := u32 (Z.lnot x).
Definition add32 (x y : Z) : Z := u32 (x + y).

Definition ch (x y z : Z) : Z := Z.lxor (Z.land x y) (Z.land (not32 x) z).
Definition maj (x y z : Z) : Z := Z.lxor (Z.lxor (Z.land x y) (Z.land x z)) (Z.land y z).
Definition sigma0 (x : Z) : Z := Z.lxor (Z.lxor (rotate_right x 2) (rotate_right x 13)) (rotate_right x 22).
Definition sigma1 (x : Z) : Z := Z.lxor (Z.lxor (rotate_right x 6) (rotate_right x 11)) (rotate_right x 25).
Definition gamma0 (x : Z) : Z := Z.lxor (Z.lxor (rotate_right x 7) (rotate_right x 18)) (Z.shiftr x 3).
Definition gamma1 (x : Z) : Z := Z.lxor (Z.lxor (rotate_right x 17) (rotate_right x 19)) (Z.shiftr x 10).

(** The message schedule: 16 words of the block, then 48 computed ones. *)
Definition block_word (block : bytes) (i : nat) : Z := be_val (slice block (i * 4) (i * 4 + 4)).
Definition schedule_word (w : list Z) (i : nat) : Z :=
  add32 (add32 (add32 (gamma1 (w !!! (i - 2))) (w !!! (i - 7))) (gamma0 (w !!! (i - 15)))) (w !!! (i - 16)).
Definition message_schedule (block : bytes) : list Z :=
  foldl (λ w i, w ++ [schedule_word w i]) (block_word block <$> seq 0 16) (seq 16 48).

Definition regs : Type := Z * Z * Z * Z * Z * Z * Z * Z.

Definition round (w : list Z) (r : regs) (i : nat) : regs :=
  let '(a, b, c, d, e, f, g, h) := r in
  let t1 := add32 (add32 (add32 (add32 h (sigma1 e)) (ch e f g)) (K !!! i)) (w !!! i) in
  let t2 := add32 (sigma0 a) (maj a b c) in
  (add32 t1 t2, a, b, c, add32 d t1, e, f, g).

Definition compress (st : list Z) (block : bytes) : list Z :=
  let w := message_schedule block in
  let '(a, b, c, d, e, f, g, h) :=
    foldl (round w) (st !!! 0, st !!! 1, st !!! 2, st !!! 3, st !!! 4, st !!! 5, st !!! 6, st !!! 7)
          (seq 0 64) in
  [add32 (st !!! 0) a; add32 (st !!! 1) b; add32 (st !!! 2) c; add32 (st !!! 3) d;
   add32 (st !!! 4) e; add32 (st !!! 5) f; add32 (st !!! 6) g; add32 (st !!! 7) h].

(** The block loop: [fuel] bounds the number of blocks. *)
Fixpoint block_loop (fuel : nat) (data : bytes) (st : list Z) (offset : nat) : list Z * nat :=
  match fuel with
  | O => (st, offset)
  | S fuel' =>
      if (offset + 64 <=? length data)%nat
      then block_loop fuel' data (compress st (slice data offset (offset + 64))) (offset + 64)
      else (st, offset)
  end.

Definition digest (st : list Z) : bytes := mjoin (be_bytes 4 <$> st).

(** The padding buffer [last] and how many of its blocks are used. *)
Definition pad_blocks (remaining : nat) : nat := if (remaining <? 56)%nat then 1 else 2.
Definition padding (data : bytes) (offset : nat) : bytes :=
  let bit_len := u64 (Z.of_nat (length data) * 8) in
  let remaining := length data - offset in
  let last := copy_at (replicate 128 0%Z) 0 (drop offset data) in
  let last := <[remaining := 0x80%Z]> last in
  copy_at last (pad_blocks remaining * 64 - 8) (be_bytes 8 bit_len).

Definition hash (data : bytes) : bytes :=
  let '(st, offset) := block_loop (S (length data)) data H0 0 in
  let last := padding data offset in
  let n := pad_blocks (length data - offset) in
  digest (foldl (λ st i, compress st (slice last (i * 64) ((i + 1) * 64))) st (seq 0 n)).

Definition hash_eq (a b : bytes) : bool :=
  (foldl (λ diff i, Z.lor diff (Z.lxor (a !!! i) (b !!! i))) 0%Z (seq 0 32) =? 0)%Z.

Definition HEX : bytes := str "0123456789abcdef".
Definition hash_hex (h : bytes) : bytes :=
  mjoin ((λ byte, [HEX !!! Z.to_nat (Z.shiftr byte 4); HEX !!! Z.to_nat (Z.land byte 0xF)]) <$> h).

(** ** FIPS 180-4

    The standard on its own: words as bit strings, constants as digits of
    roots of primes, sums of words modulo 2^32. *)

Module Fips.

(** A 32-bit word from its bits, and bit [i] of a word. *)
Definition word (b : Z → bool) : Z := foldr (λ i r, Z.b2z (b i) + 2 * r)%Z 0%Z (seqZ 0 32).
Definition bit (x i : Z) : bool := Z.testbit x i.

Definition ROTR (n x : Z) : Z := word (λ i, bit x ((i + n) mod 32)).
Definition SHR (n x : Z) : Z := word (λ i, (i + n <? 32)%Z && bit x (i + n)).
Definition XOR3 (x y z : Z) : Z := word (λ i, xorb (bit x i) (xorb (bit y i) (bit z i))).
Definition Ch (x y z : Z) : Z := word (λ i, if bit x i then bit y i else bit z i).
Definition Maj (x y z : Z) : Z :=
  word (λ i, (bit x i && bit y i) || (bit x i && bit z i) || (bit y i && bit z i)).

Definition Sigma0 (x : Z) : Z := XOR3 (ROTR 2 x) (ROTR 13 x) (ROTR 22 x).
Definition Sigma1 (x : Z) : Z := XOR3 (ROTR 6 x) (ROTR 11 x) (ROTR 25 x).
Definition sigma0 (x : Z) : Z := XOR3 (ROTR 7 x) (ROTR 18 x) (SHR 3 x).
Definition sigma1 (x : Z) : Z := XOR3 (ROTR 17 x) (ROTR 19 x) (SHR 10 x).

Definition sum (xs : list Z) : Z := (foldr Z.add 0 xs mod 2 ^ 32)%Z.

(** The largest [r < 2^bits] whose [k]-th power is at most [n]. *)
Fixpoint root_from (bits : nat) (k n r : Z) : Z :=
  match bits with
  | O => r
  | S b =>
      let r' := (r + 2 ^ Z.of_nat b)%Z in
      root_from b k n (if (r' ^ k <=? n)%Z then r' else r)
  end.
Definition root (k n : Z) : Z := root_from 40 k n 0.

(** The first 32 bits of the fractional part of the [k]-th root of [p]. *)
Definition root_digits (k p : Z) : Z := (root k (p * 2 ^ (32 * k)) mod 2 ^ 32)%Z.

Definition is_prime (n : Z) : bool := forallb (λ d, negb (n mod d =? 0)%Z) (seqZ 2 (n - 2)).
Definition primes : list Z := List.filter is_prime (seqZ 2 310).

Definition K : list Z := root_digits 3 <$> take 64 primes.
Definition H0 : list Z := root_digits 2 <$> take 8 primes.

(** Word [t] of block [i] of the padded message. *)
Definition M (m : bytes) (i t : nat) : Z :=
  let b k := m !!! (64 * i + 4 * t + k)%nat in
  (b 0%nat * 2 ^ 24 + b 1%nat * 2 ^ 16 + b 2%nat * 2 ^ 8 + b 3%nat)%Z.

(** [W_(t-1), ..., W_0]: word [t - j] is at position [j - 1]. *)
Fixpoint W (Mi : nat → Z) (t : nat) : list Z :=
  match t with
  | O => []
  | S t =>
      let l := W Mi t in
      let back j := l !!! (j - 1)%nat in
      (if (t <? 16)%nat then Mi t
       else sum [sigma1 (back 2%nat); back 7%nat; sigma0 (back 15%nat); back 16%nat]) :: l
  end.

Record vars := mkVars { a : Z; b : Z; c : Z; d : Z; e : Z; f : Z; g : Z; h : Z }.

(** The working variables after [t] rounds; [Wt] is the schedule. *)
Fixpoint rounds (Wt : nat → Z) (v : vars) (t : nat) : vars :=
  match t with
  | O => v
  | S t =>
      let v := rounds Wt v t in
      let T1 := sum [h v; Sigma1 (e v); Ch (e v) (f v) (g v); K !!! t; Wt t] in
      let T2 := sum [Sigma0 (a v); Maj (a v) (b v) (c v)] in
      mkVars (sum [T1; T2]) (a v) (b v) (c v) (sum [d v; T1]) (e v) (f v) (g v)
  end.

Definition vars_of (H : list Z) : vars :=
  mkVars (H !!! 0) (H !!! 1) (H !!! 2) (H !!! 3) (H !!! 4) (H !!! 5) (H !!! 6) (H !!! 7).
Definition list_of (v : vars) : list Z := [a v; b v; c v; d v; e v; f v; g v; h v].

(** [H^(i)] from [H^(i-1)]. *)
Definition next (m : bytes) (H : list Z) (i : nat) : list Z :=
  let Wt t := W (M m i) 64 !!! (63 - t)%nat in
  zip_with (λ x y, sum [x; y]) (list_of (rounds Wt (vars_of H) 64)) H.

(** The bit 1, zeros up to 448 modulo 512 bits, and the length in bits. *)
Definition zero_count (n : nat) : nat := ((119 - n mod 64) mod 64)%nat.
Definition pad (data : bytes) : bytes :=
  data ++ [0x80%Z] ++ replicate (zero_count (length data)) 0%Z
       ++ ((λ k, (Z.of_nat (length data) * 8 / 2 ^ (8 * k)) mod 256)%Z <$> [7; 6; 5; 4; 3; 2; 1; 0]%Z).

Definition hash (data : bytes) : bytes :=
  let m := pad data in
  let H := foldl (next m) H0 (seq 0 (length m / 64)) in
  H ≫= λ x, (λ k, (x / 2 ^ (8 * k)) mod 256)%Z <$> [3; 2; 1; 0]%Z.
End Fips.

(** Published vectors. *)
Example sha256_abc :
  hash_hex (hash (str "abc")) = str "ba7816bf8f01cfea414140de5dae2223b00361a396177a9cb410ff61f20015ad".
Proof. vm_compute. reflexivity. Qed.
Example sha256_empty :
  hash_hex (hash []) = str "e3b0c44298fc1c149afbf4c8996fb92427ae41e4649b934ca495991b7852b855".
Proof. vm_compute. reflexivity. Qed.
Example sha256_two_blocks :
  hash_hex (hash (str "abcdbcdecdefdefgefghfghighijhijkijkljklmklmnlmnomnopnopq")) =
  str "248d6a61d20638b8e5c026930c3e6039a33ce45964ff2167f6ecedd419db06c1".
Proof. vm_compute. reflexivity. Qed.

(** ** The words of the code are those of the standard *)

Lemma word_from_testbit f n k i :
  Z.testbit (foldr (λ i r, Z.b2z (f i) + 2 * r)%Z 0%Z (seqZ k (Z.of_nat n))) i =
  ((0 <=? i)%Z && (i <? Z.of_nat n)%Z) && f (k + i)%Z.
Proof.
  revert k i. induction n as [|n IH]; intros k i.
  { change (seqZ k (Z.of_nat 0)) with (@nil Z). cbn [foldr]. rewrite Z.testbit_0_l.
    destruct (Z.leb_spec 0 i), (Z.ltb_spec i (Z.of_nat 0)); done || lia. }
  rewrite seqZ_cons by lia. cbn [foldr]. replace (Z.pred (Z.of_nat (S n))) with (Z.of_nat n) by lia.
  set (r := foldr _ _ _) in *. rewrite Z.add_comm.
  destruct (Z.ltb_spec i 0).
  { rewrite Z.testbit_neg_r by done. by destruct (Z.leb_spec 0 i); [lia|]. }
  destruct (decide (i = 0%Z)) as [->|Hi].
  - rewrite Z.add_0_r, Z.testbit_0_r. by destruct (Z.ltb_spec 0 (Z.of_nat (S n))); [|lia].
  - replace i with (Z.succ (i - 1))%Z at 1 by lia. rewrite Z.testbit_succ_r by lia. unfold r. rewrite IH.
    replace (Z.succ k + (i - 1))%Z with (k + i)%Z by lia. f_equal.
    destruct (Z.leb_spec 0 (i - 1)), (Z.leb_spec 0 i), (Z.ltb_spec (i - 1) (Z.of_nat n)),
      (Z.ltb_spec i (Z.of_nat (S n))); done || lia.
Qed.

Lemma word_testbit f i : Z.testbit (Fips.word f) i = ((0 <=? i)%Z && (i <? 32)%Z) && f i.
Proof. exact (word_from_testbit f 32 0 i). Qed.

Lemma high_bits x i : is_u 32 x → (32 ≤ i)%Z → Z.testbit x i = false.
Proof.
  intros Hx Hi. rewrite <- (wrap_small 32 x) by done. unfold wrap.
  rewrite Z.testbit_mod_pow2 by lia. by destruct (Z.ltb_spec i 32); [lia|].
Qed.

Lemma u32_bits x : (0 ≤ x)%Z → (∀ i, (32 ≤ i)%Z → Z.testbit x i = false) → is_u 32 x.
Proof.
  intros H0 H. assert (x = u32 x) as ->; [|by apply is_u_wrap].
  apply Z.bits_inj'. intros i Hi. unfold u32, wrap. rewrite Z.testbit_mod_pow2 by lia.
  destruct (Z.ltb_spec i 32); [done|]. by apply H.
Qed.

Lemma word_range f : is_u 32 (Fips.word f).
Proof.
  apply u32_bits.
  - unfold Fips.word. induction (seqZ 0 32) as [|k l IH]; cbn [foldr]; [done|]. destruct (f k); cbn; lia.
  - intros i Hi. rewrite word_testbit. by destruct (Z.ltb_spec i 32); [lia|]; rewrite andb_false_r.
Qed.

(** An operation is the standard's when its bits below 32 are and it has no
    others. *)
Lemma word_eq x f :
  (∀ i, (0 ≤ i < 32)%Z → Z.testbit x i = f i) → (∀ i, (32 ≤ i)%Z → Z.testbit x i = false) → x = Fips.word f.
Proof.
  intros Hlo Hhi. apply Z.bits_inj'. intros i Hi. rewrite word_testbit, (proj2 (Z.leb_le 0 i)) by done.
  destruct (Z.ltb_spec i 32); [by apply Hlo|by apply Hhi].
Qed.

Lemma rotate_right_fips n x : is_u 32 x → (0 < n < 32)%Z → rotate_right x n = Fips.ROTR n x.
Proof.
  intros Hx Hn. unfold rotate_right. apply word_eq; intros i Hi;
    rewrite Z.lor_spec, Z.shiftr_spec by lia; unfold u32, wrap; rewrite Z.testbit_mod_pow2 by lia.
  - rewrite (proj2 (Z.ltb_lt i 32)), Z.shiftl_spec by lia. unfold Fips.bit. destruct (Z.ltb_spec (i + n) 32).
    + rewrite Z.mod_small, (Z.testbit_neg_r x (i - (32 - n))) by lia. by rewrite orb_false_r.
    + rewrite (high_bits x (i + n)) by (done || lia). cbn [orb andb].
      f_equal. apply Z.mod_unique with 1%Z; lia.
  - rewrite (proj2 (Z.ltb_ge i 32)) by lia. rewrite high_bits by (done || lia). done.
Qed.

Lemma shiftr_fips n x : is_u 32 x → (0 < n < 32)%Z → Z.shiftr x n = Fips.SHR n x.
Proof.
  intros Hx Hn. apply word_eq; intros i Hi; rewrite Z.shiftr_spec by lia.
  - unfold Fips.bit. destruct (Z.ltb_spec (i + n) 32); [done|]. apply high_bits; [done|lia].
  - apply high_bits; [done|lia].
Qed.

Lemma xor3_fips x y z :
  is_u 32 x → is_u 32 y → is_u 32 z → Z.lxor (Z.lxor x y) z = Fips.XOR3 x y z.
Proof.
  intros Hx Hy Hz. apply word_eq; intros i Hi; rewrite !Z.lxor_spec.
  - apply xorb_assoc.
  - by rewrite !high_bits.
Qed.

Lemma ch_fips x y z : is_u 32 x → is_u 32 y → is_u 32 z → ch x y z = Fips.Ch x y z.
Proof.
  intros Hx Hy Hz. unfold ch, not32, u32, wrap.
  apply word_eq; intros i Hi; rewrite Z.lxor_spec, !Z.land_spec, Z.testbit_mod_pow2 by lia.
  - rewrite (proj2 (Z.ltb_lt i 32)), Z.lnot_spec by lia. unfold Fips.bit.
    by destruct (Z.testbit x i), (Z.testbit y i), (Z.testbit z i).
  - rewrite (proj2 (Z.ltb_ge i 32)), (high_bits x) by (done || lia). done.
Qed.

Lemma maj_fips x y z : is_u 32 x → is_u 32 y → is_u 32 z → maj x y z = Fips.Maj x y z.
Proof.
  intros Hx Hy Hz. apply word_eq; intros i Hi; unfold maj; rewrite !Z.lxor_spec, !Z.land_spec.
  - unfold Fips.bit. by destruct (Z.testbit x i), (Z.testbit y i), (Z.testbit z i).
  - by rewrite !high_bits.
Qed.

#[local] Hint Resolve word_range : core.

Lemma sigma0_fips x : is_u 32 x → sigma0 x = Fips.Sigma0 x.
Proof.
  intros Hx. unfold sigma0, Fips.Sigma0. rewrite !rotate_right_fips by (done || lia). apply xor3_fips; apply word_range.
Qed.
Lemma sigma1_fips x : is_u 32 x → sigma1 x = Fips.Sigma1 x.
Proof.
  intros Hx. unfold sigma1, Fips.Sigma1. rewrite !rotate_right_fips by (done || lia). apply xor3_fips; apply word_range.
Qed.
Lemma gamma0_fips x : is_u 32 x → gamma0 x = Fips.sigma0 x.
Proof.
  intros Hx. unfold gamma0, Fips.sigma0. rewrite !rotate_right_fips, shiftr_fips by (done || lia).
  apply xor3_fips; apply word_range.
Qed.
Lemma gamma1_fips x : is_u 32 x → gamma1 x = Fips.sigma1 x.
Proof.
  intros Hx. unfold gamma1, Fips.sigma1. rewrite !rotate_right_fips, shiftr_fips by (done || lia).
  apply xor3_fips; apply word_range.
Qed.

Lemma sum_range l : is_u 32 (Fips.sum l).
Proof. by apply (is_u_wrap 32). Qed.

Lemma K_fips : K = Fips.K.
Proof. vm_compute. reflexivity. Qed.
Lemma H0_fips : H0 = Fips.H0.
Proof. vm_compute. reflexivity. Qed.

(** [root_from] is the integer root. *)
Lemma root_from_spec bits k n r :
  (r ^ k ≤ n < (r + 2 ^ Z.of_nat bits) ^ k)%Z →
  let q := Fips.root_from bits k n r in (q ^ k ≤ n < (q + 1) ^ k)%Z.
Proof.
  revert r. induction bits as [|b IH]; intros r H; [exact H|]. cbn [Fips.root_from]. apply IH.
  replace (2 ^ Z.of_nat (S b))%Z with (2 ^ Z.of_nat b + 2 ^ Z.of_nat b)%Z in H
    by (rewrite Nat2Z.inj_succ, Z.pow_succ_r by lia; lia).
  destruct (Z.leb_spec ((r + 2 ^ Z.of_nat b) ^ k) n); [|lia]. split; [done|]. rewrite <- Z.add_assoc. apply H.
Qed.

(** *** Bytes *)

Lemma le_bytes_digits n z k :
  le_bytes n (z / 2 ^ (8 * k)) = (λ j, (z / 2 ^ (8 * (k + j))) mod 256)%Z <$> seqZ 0 (Z.of_nat n) ∨ (k < 0)%Z.
Proof.
  destruct (Z.ltb_spec k 0); [by right|]. left. revert k H. induction n as [|n IH]; intros k Hk; [done|].
  cbn [le_bytes]. rewrite seqZ_cons by lia. cbn [fmap list_fmap]. rewrite Z.add_0_r. f_equal.
  rewrite Z.div_div by lia. replace (2 ^ (8 * k) * 256)%Z with (2 ^ (8 * (k + 1)))%Z.
  2:{ replace (8 * (k + 1))%Z with (8 * k + 8)%Z by lia. rewrite Z.pow_add_r by lia. done. }
  rewrite IH by lia. replace (Z.pred (Z.of_nat (S n))) with (Z.of_nat n) by lia.
  change (Z.succ 0) with (1 + 0)%Z. rewrite <- fmap_add_seqZ, <- list_fmap_compose. apply list_fmap_ext.
  intros j x _. cbn [compose]. by rewrite Z.add_assoc.
Qed.

Lemma be_bytes_4 z : be_bytes 4 z = (λ k, (z / 2 ^ (8 * k)) mod 256)%Z <$> [3; 2; 1; 0]%Z.
Proof.
  destruct (le_bytes_digits 4 z 0) as [E|]; [|lia]. rewrite Z.mul_0_r, Z.pow_0_r, Z.div_1_r in E.
  unfold be_bytes. rewrite E. reflexivity.
Qed.
Lemma be_bytes_8 z :
  be_bytes 8 (u64 z) = (λ k, (z / 2 ^ (8 * k)) mod 256)%Z <$> [7; 6; 5; 4; 3; 2; 1; 0]%Z.
Proof.
  assert (le_bytes 8 (u64 z) = le_bytes 8 z) as Hw.
  { pose proof (le_bytes_val (le_bytes 8 z) (le_bytes_ok 8 z)) as E. rewrite le_bytes_length, le_val_bytes in E.
    exact E. }
  destruct (le_bytes_digits 8 z 0) as [E|]; [|lia]. rewrite Z.mul_0_r, Z.pow_0_r, Z.div_1_r in E.
  unfold be_bytes. rewrite Hw, E. reflexivity.
Qed.

Lemma digest_fips st : digest st = st ≫= λ x, (λ k, (x / 2 ^ (8 * k)) mod 256)%Z <$> [3; 2; 1; 0]%Z.
Proof.
  unfold digest. induction st as [|x st IH]; [done|]. rewrite fmap_cons, bind_cons, <- IH, <- be_bytes_4. done.
Qed.

(** *** Sums *)

Lemma add32_sum2 x y : add32 x y = Fips.sum [x; y].
Proof. unfold add32, u32, wrap, Fips.sum. cbn [foldr]. f_equal. lia. Qed.
Lemma sum_nest l l' : Fips.sum (Fips.sum l :: l') = Fips.sum (l ++ l').
Proof.
  unfold Fips.sum. cbn [foldr]. rewrite Z.add_mod_idemp_l by lia. f_equal.
  induction l as [|y l IH]; cbn [foldr app]; lia.
Qed.
Lemma sum2_comm x y : Fips.sum [x; y] = Fips.sum [y; x].
Proof. unfold Fips.sum. cbn [foldr]. f_equal. lia. Qed.

(** *** The schedule *)

Lemma block_word_fips m i t :
  bytes_ok m → ((i + 1) * 64 ≤ length m)%nat → (t < 16)%nat →
  block_word (slice m (i * 64) ((i + 1) * 64)) t = Fips.M m i t ∧ is_u 32 (Fips.M m i t).
Proof.
  intros Hm Hl Ht. set (l := slice (slice m (i * 64) ((i + 1) * 64)) (t * 4) (t * 4 + 4)).
  assert (∀ k, (k < 4)%nat → m !!! (64 * i + 4 * t + k)%nat = l !!! k) as Hk.
  { intros k Hk. unfold l. rewrite !list_lookup_total_alt. f_equal. unfold slice.
    rewrite lookup_take_lt, lookup_drop, lookup_take_lt, lookup_drop by lia. f_equal. lia. }
  assert (length l = 4) as Hl4 by (unfold l; rewrite slice_length; rewrite ?slice_length; lia).
  assert (bytes_ok l) as Hb by (by apply slice_bytes_ok, slice_bytes_ok).
  unfold Fips.M, block_word. fold l. rewrite !Hk by lia. clear Hk. clearbody l.
  destruct l as [|b0 [|b1 [|b2 [|b3 [|]]]]]; try done.
  repeat (apply Forall_cons in Hb as [? Hb]). unfold is_byte in *. cbn. unfold be_val. cbn. split; [lia|].
  unfold is_u. lia.
Qed.

Lemma W_length Mi t : length (Fips.W Mi t) = t.
Proof. induction t as [|t IH]; [done|]. cbn. by rewrite IH. Qed.

Lemma W_range Mi t : (∀ k, (k < 16)%nat → is_u 32 (Mi k)) → Forall (is_u 32) (Fips.W Mi t).
Proof.
  intros HM. induction t as [|t IH]; cbn [Fips.W]; constructor; [|done].
  destruct (Nat.ltb_spec t 16); [by apply HM|apply sum_range].
Qed.

Lemma W_back Mi t j : (1 ≤ j ≤ t)%nat → reverse (Fips.W Mi t) !!! (t - j)%nat = Fips.W Mi t !!! (j - 1)%nat.
Proof.
  intros Hj. rewrite !list_lookup_total_alt, reverse_lookup by (rewrite W_length; lia). rewrite W_length.
  do 2 f_equal. lia.
Qed.

Lemma W_in_range Mi t j :
  (∀ k, (k < 16)%nat → is_u 32 (Mi k)) → (1 ≤ j ≤ t)%nat → is_u 32 (Fips.W Mi t !!! (j - 1)%nat).
Proof.
  intros HM Hj. destruct (lookup_lt_is_Some_2 (Fips.W Mi t) (j - 1)) as [x Hx]; [rewrite W_length; lia|].
  rewrite (list_lookup_total_correct _ _ _ Hx). by apply (Forall_lookup_1 _ _ _ _ (W_range Mi t HM) Hx).
Qed.

Lemma W_first Mi t : (t ≤ 16)%nat → Mi <$> seq 0 t = reverse (Fips.W Mi t).
Proof.
  induction t as [|t IH]; intros Ht; [done|]. rewrite seq_S, fmap_app, IH by lia. cbn [Fips.W].
  rewrite (proj2 (Nat.ltb_lt t 16)) by lia. by rewrite reverse_cons.
Qed.

Lemma W_step Mi t :
  (∀ k, (k < 16)%nat → is_u 32 (Mi k)) → (16 ≤ t)%nat →
  reverse (Fips.W Mi (S t)) = reverse (Fips.W Mi t) ++ [schedule_word (reverse (Fips.W Mi t)) t].
Proof.
  intros HR Ht. cbn [Fips.W]. rewrite (proj2 (Nat.ltb_ge t 16)), reverse_cons by done. unfold schedule_word.
  rewrite !W_back by lia. rewrite gamma1_fips, gamma0_fips.
  - rewrite !add32_sum2. repeat (rewrite sum_nest; cbn [app]). done.
  - apply (W_in_range _ _ 15); [done|lia].
  - apply (W_in_range _ _ 2); [done|lia].
Qed.

Lemma schedule_fips Mi block n :
  (∀ k, (k < 16)%nat → block_word block k = Mi k ∧ is_u 32 (Mi k)) →
  foldl (λ w i, w ++ [schedule_word w i]) (block_word block <$> seq 0 16) (seq 16 n) = reverse (Fips.W Mi (n + 16)).
Proof.
  intros HM. induction n as [|n IH].
  - rewrite <- W_first by lia. apply list_fmap_ext. intros k x Hx%list_elem_of_lookup_2.
    apply elem_of_seq in Hx. apply HM. lia.
  - rewrite (seq_S n 16), foldl_app, IH. change (S n + 16)%nat with (S (n + 16)).
    rewrite W_step; [|intros; by apply HM|lia]. cbn [foldl]. by rewrite (Nat.add_comm 16 n).
Qed.

(** *** The rounds *)

Definition tuple (v : Fips.vars) : regs :=
  (Fips.a v, Fips.b v, Fips.c v, Fips.d v, Fips.e v, Fips.f v, Fips.g v, Fips.h v).

Lemma rounds_fips w Wt v n :
  (∀ t, (t < n)%nat → w !!! t = Wt t) → Forall (is_u 32) (Fips.list_of v) →
  foldl (round w) (tuple v) (seq 0 n) = tuple (Fips.rounds Wt v n) ∧ Forall (is_u 32) (Fips.list_of (Fips.rounds Wt v n)).
Proof.
  intros Hw Hv. induction n as [|n IH]; [done|].
  destruct IH as [E HR]; [intros; apply Hw; lia|]. rewrite seq_S, foldl_app, E. cbn [foldl Fips.rounds Nat.add].
  set (u := Fips.rounds Wt v n) in *. unfold Fips.list_of in HR.
  repeat (apply Forall_cons in HR as [? HR]). unfold tuple at 1. unfold round.
  rewrite sigma1_fips, ch_fips, sigma0_fips, maj_fips by done. rewrite (Hw n), <- K_fips by lia.
  rewrite !add32_sum2. repeat (rewrite sum_nest; cbn [app]). split; [done|]. unfold Fips.list_of. cbn.
  repeat (apply Forall_cons; split); try done; apply sum_range.
Qed.

Lemma add_words u st :
  length st = 8 →
  [add32 (st !!! 0) (Fips.a u); add32 (st !!! 1) (Fips.b u); add32 (st !!! 2) (Fips.c u); add32 (st !!! 3) (Fips.d u);
   add32 (st !!! 4) (Fips.e u); add32 (st !!! 5) (Fips.f u); add32 (st !!! 6) (Fips.g u); add32 (st !!! 7) (Fips.h u)] =
  zip_with (λ x y, Fips.sum [x; y]) (Fips.list_of u) st.
Proof.
  intros H. do 8 (destruct st as [|? st]; [discriminate H|]). destruct st; [|discriminate H].
  cbn. rewrite !add32_sum2. repeat (apply (f_equal2 cons); [apply sum2_comm|]). reflexivity.
Qed.

Lemma zip_sum_range l l' : Forall (is_u 32) (zip_with (λ x y, Fips.sum [x; y]) l l').
Proof. revert l'. induction l as [|x l IH]; intros [|y l']; constructor; [apply sum_range|apply IH]. Qed.

Lemma compress_fips m st i :
  bytes_ok m → ((i + 1) * 64 ≤ length m)%nat → length st = 8 → Forall (is_u 32) st →
  compress st (slice m (i * 64) ((i + 1) * 64)) = Fips.next m st i ∧
  length (Fips.next m st i) = 8 ∧ Forall (is_u 32) (Fips.next m st i).
Proof.
  intros Hm Hl H8 Hst. unfold compress, Fips.next. cbv zeta. set (block := slice m _ _).
  assert (message_schedule block = reverse (Fips.W (Fips.M m i) 64)) as ->.
  { apply (schedule_fips (Fips.M m i) block 48). intros k Hk. by apply block_word_fips. }
  set (Wt := λ t, Fips.W (Fips.M m i) 64 !!! (63 - t)%nat).
  destruct (rounds_fips (reverse (Fips.W (Fips.M m i) 64)) Wt (Fips.vars_of st) 64) as [E HR].
  { intros t Ht. replace t with (64 - (64 - t))%nat at 1 by lia. rewrite W_back by lia. unfold Wt. f_equal. lia. }
  { clear -H8 Hst. do 8 (destruct st as [|? st]; [discriminate H8|]). destruct st; [|discriminate H8]. exact Hst. }
  change (st !!! 0, st !!! 1, st !!! 2, st !!! 3, st !!! 4, st !!! 5, st !!! 6, st !!! 7) with (tuple (Fips.vars_of st)).
  rewrite E. set (u := Fips.rounds Wt (Fips.vars_of st) 64) in *. clearbody u. unfold tuple.
  split_and!; [by apply add_words|rewrite length_zip_with, H8; reflexivity|apply zip_sum_range].
Qed.

(** ** Padding and blocks *)

#[local] Opaque compress.

Definition zero_count (n : nat) : nat := ((119 - n mod 64) mod 64)%nat.
Definition pad (data : bytes) : bytes :=
  data ++ [0x80%Z] ++ replicate (zero_count (length data)) 0%Z
       ++ be_bytes 8 (u64 (Z.of_nat (length data) * 8)).

Definition feed (m : bytes) (st : list Z) (i : nat) : list Z :=
  compress st (slice m (i * 64) ((i + 1) * 64)).

Lemma block_loop_spec fuel data st k :
  (64 * k ≤ length data → length data / 64 - k < fuel → k ≤ length data / 64 →
  block_loop fuel data st (64 * k) =
    (foldl (feed data) st (seq k (length data / 64 - k)), 64 * (length data / 64)))%nat.
Proof.
  pose proof (Nat.div_mod_eq (length data) 64) as Hdm.
  pose proof (Nat.mod_upper_bound (length data) 64 ltac:(lia)) as Hm.
  set (q := (length data / 64)%nat) in *.
  revert st k. induction fuel as [|fuel IH]; intros st k Hk Hf Hq; [lia|]. cbn [block_loop].
  destruct (Nat.leb_spec (64 * k + 64) (length data)) as [Hle|Hgt].
  - replace (64 * k + 64)%nat with (64 * (k + 1))%nat by lia. rewrite IH by lia.
    replace (q - k)%nat with (S (q - (k + 1)))%nat by lia. cbn [seq foldl].
    assert (feed data st k = compress st (slice data (64 * k) (64 * (k + 1)))) as ->.
    { unfold feed. by rewrite (Nat.mul_comm k), (Nat.mul_comm (k + 1)). }
    by replace (S k) with (k + 1)%nat by lia.
  - assert (k = q) as -> by lia. by rewrite Nat.sub_diag.
Qed.

Lemma pad_blocks_zero_count n :
  (n < 64)%nat → (n + 9 + (119 - n) mod 64 = 64 * pad_blocks n)%nat.
Proof.
  intros H. unfold pad_blocks. destruct (Nat.ltb_spec n 56).
  - replace (119 - n)%nat with (55 - n + 1 * 64)%nat by lia.
    rewrite Nat.Div0.mod_add, Nat.mod_small; lia.
  - rewrite Nat.mod_small; lia.
Qed.

(** The buffer's used part is the tail of the padded message. *)
Lemma padding_spec data q :
  (length data = 64 * q + length data mod 64)%nat →
  take (64 * pad_blocks (length data mod 64)) (padding data (64 * q)) = drop (64 * q) (pad data).
Proof.
  intros Hq. pose proof (Nat.mod_upper_bound (length data) 64 ltac:(lia)) as Hr.
  unfold padding, pad, zero_count. pose proof (pad_blocks_zero_count _ Hr) as Hz.
  set (r := (length data mod 64)%nat) in *. set (nb := pad_blocks r) in *.
  assert (nb ≤ 2)%nat as Hnb by (unfold nb, pad_blocks; case_if; lia).
  set (lb := be_bytes 8 _). assert (length lb = 8) as Hlb by apply be_bytes_length.
  replace (length data - 64 * q)%nat with r by lia. fold nb.
  rewrite drop_app_le by lia. set (D := drop (64 * q) data).
  assert (length D = r) as HD by (unfold D; rewrite length_drop; lia).
  unfold copy_at at 2. rewrite take_0, app_nil_l, drop_replicate, HD. cbn [Nat.add].
  set (z := ((119 - r) mod 64)%nat) in *.
  assert (<[r := 0x80%Z]> (D ++ replicate (128 - r) 0%Z) =
          D ++ 0x80%Z :: replicate z 0%Z ++ replicate (127 - r - z) 0%Z) as ->.
  { rewrite <- replicate_add. replace (128 - r)%nat with (S (127 - r)) by lia.
    replace (z + (127 - r - z))%nat with (127 - r)%nat by lia. cbn [replicate].
    rewrite <- HD. rewrite insert_app_r_alt by lia. by rewrite Nat.sub_diag. }
  rewrite !(Nat.mul_comm nb 64). unfold copy_at. rewrite Hlb.
  replace (64 * nb - 8 + 8)%nat with (64 * nb)%nat by lia.
  assert (take (64 * nb - 8) (D ++ 0x80%Z :: replicate z 0%Z ++ replicate (127 - r - z) 0%Z) =
          D ++ 0x80%Z :: replicate z 0%Z) as ->.
  { rewrite (app_comm_cons (replicate z 0%Z)), app_assoc.
    apply take_app_length'. rewrite length_app. cbn [length]. rewrite length_replicate. lia. }
  rewrite app_assoc. rewrite take_app_length'; [by rewrite <- app_assoc|].
  rewrite !length_app. cbn [length]. rewrite length_replicate. lia.
Qed.

Lemma pad_length data :
  length (pad data) = (64 * (length data / 64 + pad_blocks (length data mod 64)))%nat.
Proof.
  unfold pad. rewrite !length_app, length_replicate, be_bytes_length. cbn [length].
  pose proof (Nat.mod_upper_bound (length data) 64 ltac:(lia)) as Hr.
  pose proof (pad_blocks_zero_count _ Hr) as Hz. pose proof (Nat.div_mod_eq (length data) 64).
  unfold zero_count. lia.
Qed.

Lemma foldl_ext_seq {A} (f g : A → nat → A) a n st :
  (∀ i st, (a ≤ i < a + n)%nat → f st i = g st i) → foldl f st (seq a n) = foldl g st (seq a n).
Proof.
  revert a st. induction n as [|n IH]; intros a st H; [done|]. cbn [seq foldl].
  rewrite H by lia. apply IH. intros. apply H. lia.
Qed.

Lemma foldl_seq_shift {A} (f : A → nat → A) a n st :
  foldl f st (seq a n) = foldl (λ st i, f st (a + i)%nat) st (seq 0 n).
Proof.
  revert f a st. induction n as [|n IH]; intros f a st; [done|]. cbn [seq foldl].
  rewrite (IH f (S a)), (IH _ 1%nat), Nat.add_0_r. apply foldl_ext_seq. intros i st' _.
  by rewrite Nat.add_succ_comm.
Qed.

(** The code's two loops are one over the padded message. *)
Lemma hash_blocks data :
  hash data = digest (foldl (feed (pad data)) H0 (seq 0 (length (pad data) / 64))).
Proof.
  unfold hash. pose proof (Nat.div_mod_eq (length data) 64) as Hdm.
  pose proof (Nat.mod_upper_bound (length data) 64 ltac:(lia)) as Hr.
  change (block_loop (S (length data)) data H0 0)
    with (block_loop (S (length data)) data H0 (64 * 0)).
  rewrite block_loop_spec by lia. rewrite Nat.sub_0_r.
  set (q := (length data / 64)%nat) in *. set (r := (length data mod 64)%nat) in *.
  replace (length data - 64 * q)%nat with r by lia.
  rewrite pad_length. fold q r. rewrite (Nat.mul_comm 64 (q + _)), Nat.div_mul by lia.
  rewrite seq_app, foldl_app. cbn [Nat.add]. apply (f_equal digest).
  pose proof (padding_spec data q ltac:(lia)) as Hp. fold r in Hp.
  assert (foldl (feed data) H0 (seq 0 q) =
    foldl (feed (pad data)) H0 (seq 0 q)) as ->.
  { apply foldl_ext_seq. intros i st Hi. unfold feed, slice, pad.
    rewrite drop_app_le, take_app_le by (rewrite ?length_drop; lia). done. }
  rewrite (foldl_seq_shift _ q). apply foldl_ext_seq. intros i st Hi. unfold feed.
  rewrite <- (slice_take _ (64 * pad_blocks r)) by lia. rewrite Hp, slice_drop.
  by replace (64 * q + i * 64)%nat with ((q + i) * 64)%nat by lia;
    replace (64 * q + (i + 1) * 64)%nat with ((q + i + 1) * 64)%nat by lia.
Qed.


Lemma pad_fips data : pad data = Fips.pad data.
Proof. unfold pad, Fips.pad. by rewrite be_bytes_8. Qed.

Lemma pad_ok data : bytes_ok data → bytes_ok (pad data).
Proof.
  intros H. unfold pad. repeat apply Forall_app_2; [done| |by apply Forall_replicate|].
  - repeat constructor; lia.
  - apply be_bytes_ok.
Qed.

Lemma feed_fips m st k n :
  bytes_ok m → ((k + n) * 64 ≤ length m)%nat → length st = 8 → Forall (is_u 32) st →
  foldl (feed m) st (seq k n) = foldl (Fips.next m) st (seq k n).
Proof.
  intros Hm. revert st k. induction n as [|n IH]; intros st k Hl H8 Hst; [done|]. cbn [seq foldl].
  destruct (compress_fips m st k) as (E & H8' & Hst'); [done|lia|done|done|]. unfold feed at 2. rewrite E.
  apply IH; [lia|done|done].
Qed.

(** C17: [hash] computes SHA-256 as FIPS 180-4 defines it, for every string of
    bytes: the standard's functions on bits, its constants as digits of the
    roots of the first primes, its schedule, rounds and padding are written out
    in [Fips] without any definition of the code. *)
Theorem hash_is_fips_sha256 data : bytes_ok data → hash data = Fips.hash data.
Proof.
  intros Hd. rewrite hash_blocks, digest_fips. unfold Fips.hash. rewrite <- pad_fips, <- H0_fips.
  rewrite feed_fips; [done|by apply pad_ok| |done|].
  - cbn [Nat.add]. rewrite Nat.mul_comm. apply Nat.Div0.mul_div_le.
  - repeat constructor; unfold is_u; lia.
Qed.

Lemma hash_is_fips_sha256_witness : hash (str "abc") = Fips.hash (str "abc").
Proof. apply (hash_is_fips_sha256 (str "abc")). repeat constructor; vm_compute; congruence. Defined.

Lemma hash_eq_loop (a b : bytes) l d :
  (0 ≤ d)%Z →
  foldl (λ diff i, Z.lor diff (Z.lxor (a !!! i) (b !!! i))) d l = 0%Z ↔
  d = 0%Z ∧ ∀ i, i ∈ l → a !!! i = b !!! i.
Proof.
  intros _. revert d. induction l as [|x l IH]; intros d; cbn [foldl].
  - split; [|by intros []]. intros ->. split; [done|]. intros i Hi. by apply elem_of_nil in Hi.
  - rewrite IH, Z.lor_eq_0_iff, Z.lxor_eq_0_iff. setoid_rewrite elem_of_cons. naive_solver.
Qed.

(** [hash_eq] accepts exactly equal digests. *)
Lemma hash_eq_spec a b : length a = 32 → length b = 32 → hash_eq a b = true ↔ a = b.
Proof.
  intros Ha Hb. unfold hash_eq. rewrite Z.eqb_eq, hash_eq_loop by done. split.
  - intros [_ H]. apply list_eq_same_length with 32; [done|done|]. intros i x y Hi Hx Hy.
    specialize (H i). rewrite (list_lookup_total_correct _ _ _ Hx),
      (list_lookup_total_correct _ _ _ Hy) in H. apply H, elem_of_seq. lia.
  - intros ->. done.
Qed.

Lemma compress_length st block : length (compress st block) = 8.
Proof.
  Transparent compress. unfold compress.
  destruct (foldl _ _ _) as [[[[[[[a b] c] d] e] f] g] h]. reflexivity.
Qed.

Lemma hash_length data : length (hash data) = 32.
Proof.
  rewrite <- (Nat.mul_1_r 32). unfold hash. destruct (block_loop _ _ _ _) as [st off] eqn:E.
  set (n := pad_blocks _). assert (∃ m, n = S m) as [m ->].
  { unfold n, pad_blocks. case_if; eauto. }
  rewrite seq_S, foldl_app. cbn [foldl]. set (st' := compress _ _).
  assert (length st' = 8) as Hl by apply compress_length. unfold digest.
  clearbody st'. do 8 (destruct st' as [|? st']; [done|]). destruct st'; [|done].
  cbn [fmap list_fmap mjoin list_join]. rewrite !length_app, !be_bytes_length. reflexivity.
Qed.

End Sha256.
