(* ===== verification/Manifest.v ===== *)
(** * Package manifests and the catalog format ([kernel/src/pkg/manifest.rs])

    [PkgManifest] is a packed 128-byte struct; [from_raw] is the unaligned read
    of its bytes and [to_raw] the view [serialize_catalog] takes of it.  A
    catalog is a little-endian count followed by that many manifests. *)

From Stdlib Require Import ZArith Lia.
From stdpp Require Import base numbers strings option list.
From S2P Require Import Prelude.

Module Manifest.

Definition MANIFEST_SIZE : nat := 128.
Definition FLAG_SYSTEM : Z := 1.

Record PkgManifest := mkManifest {
  name : bytes; version : bytes; hash : bytes; size_bytes : Z; flags : Z; _reserved : bytes
}.

(** The packed layout: fields at 0, 64, 80, 112, 116 and 120. *)
Definition from_raw (b : bytes) : PkgManifest :=
  mkManifest (slice b 0 64) (slice b 64 80) (slice b 80 112)
             (le_val (slice b 112 116)) (le_val (slice b 116 120)) (slice b 120 128).
Definition to_raw (m : PkgManifest) : bytes :=
  name m ++ version m ++ hash m ++ le_bytes 4 (size_bytes m) ++ le_bytes 4 (flags m) ++ _reserved m.

(** The bytes before the first NUL; [name_str] and [version_str] decode them. *)
Definition name_bytes (m : PkgManifest) : bytes := nul_trim (name m).
Definition version_bytes (m : PkgManifest) : bytes := nul_trim (version m).
Definition is_system (m : PkgManifest) : bool := negb (Z.land (flags m) FLAG_SYSTEM =? 0)%Z.

Definition parse_catalog (data : bytes) : option (list PkgManifest) :=
  if (length data <? 4)%nat then None
  else
    let count := Z.to_nat (le_val (slice data 0 4)) in
    let expected_len := 4 + count * MANIFEST_SIZE in
    if (length data <? expected_len)%nat then None
    else Some ((λ i, from_raw (drop (4 + i * MANIFEST_SIZE) data)) <$> seq 0 count).

Definition serialize_catalog (entries : list PkgManifest) : bytes :=
  le_bytes 4 (u32 (Z.of_nat (length entries))) ++ mjoin (to_raw <$> entries).

(** A value of the Rust struct: array lengths and field widths. *)
Record manifest_ok (m : PkgManifest) : Prop := {
  mo_name : length (name m) = 64; mo_version : length (version m) = 16;
  mo_hash : length (hash m) = 32; mo_res : length (_reserved m) = 8;
  mo_size : is_u 32 (size_bytes m); mo_flags : is_u 32 (flags m)
}.

(** ** Lemmas *)

Lemma to_raw_length m : manifest_ok m → length (to_raw m) = MANIFEST_SIZE.
Proof.
  intros [H1 H2 H3 H4 _ _]. unfold to_raw. rewrite !length_app, !le_bytes_length. unfold MANIFEST_SIZE. lia.
Qed.

Lemma le32_roundtrip z : is_u 32 z → le_val (le_bytes 4 z) = z.
Proof. intros H. rewrite le_val_bytes. by apply Z.mod_small. Qed.

Lemma from_to_raw m rest : manifest_ok m → from_raw (to_raw m ++ rest) = m.
Proof.
  intros [H1 H2 H3 H4 H5 H6]. unfold from_raw, to_raw. rewrite <- !app_assoc.
  destruct m as [nm vr hs sz fl rs]. cbn [name version hash size_bytes flags _reserved] in *. f_equal.
  - by apply (slice_at []).
  - apply slice_at; lia.
  - rewrite (app_assoc nm). apply slice_at; rewrite ?length_app; lia.
  - rewrite (app_assoc nm), (app_assoc (nm ++ vr)).
    rewrite slice_at; [by apply le32_roundtrip|rewrite !length_app; lia|rewrite le_bytes_length; lia].
  - rewrite (app_assoc nm), (app_assoc (nm ++ vr)), (app_assoc ((nm ++ vr) ++ hs)).
    rewrite slice_at; [by apply le32_roundtrip| |rewrite le_bytes_length; lia].
    rewrite !length_app, le_bytes_length. lia.
  - rewrite (app_assoc nm), (app_assoc (nm ++ vr)), (app_assoc ((nm ++ vr) ++ hs)),
      (app_assoc (((nm ++ vr) ++ hs) ++ _)).
    apply slice_at; [rewrite !length_app, !le_bytes_length; lia|lia].
Qed.

Lemma to_from_raw b : bytes_ok b → (128 ≤ length b)%nat → to_raw (from_raw b) = take 128 b.
Proof.
  intros Hb Hl. unfold to_raw, from_raw. cbn [name version hash size_bytes flags _reserved].
  assert (∀ a c, (a ≤ c)%nat → (c ≤ 128)%nat → le_bytes (c - a) (le_val (slice b a c)) = slice b a c) as Hc.
  { intros a c ??. rewrite <- (slice_length b a c) at 1 by lia. by apply le_bytes_val, slice_bytes_ok. }
  pose proof (Hc 112%nat 116%nat ltac:(lia) ltac:(lia)) as E1.
  pose proof (Hc 116%nat 120%nat ltac:(lia) ltac:(lia)) as E2.
  cbn [Nat.sub] in E1, E2. rewrite E1, E2, !slice_join by lia.
  unfold slice. by rewrite drop_0.
Qed.

Lemma from_raw_ok b : bytes_ok b → (128 ≤ length b)%nat → manifest_ok (from_raw b).
Proof.
  intros Hb Hl.
  assert (∀ a c, (a + 4 = c)%nat → (c ≤ 128)%nat → is_u 32 (le_val (slice b a c))) as Hu.
  { intros a c ??. pose proof (le_val_bounds (slice b a c) (slice_bytes_ok _ _ _ Hb)) as H1.
    rewrite slice_length in H1 by lia. replace (c - a)%nat with 4%nat in H1 by lia. exact H1. }
  constructor; unfold from_raw; cbn [name version hash size_bytes flags _reserved];
    try (rewrite slice_length; lia); apply Hu; lia.
Qed.

(** Entry [i] of a serialised list. *)
Lemma drop_entries es i rest m :
  Forall manifest_ok es → es !! i = Some m →
  ∃ rest', drop (i * MANIFEST_SIZE) (mjoin (to_raw <$> es) ++ rest) = to_raw m ++ rest'.
Proof.
  revert i. induction es as [|e es IH]; intros [|i] Hok Hi; try done;
    apply Forall_cons_iff in Hok as [He Hok];
    change (mjoin (to_raw <$> e :: es)) with (to_raw e ++ mjoin (to_raw <$> es)); rewrite <- app_assoc.
  - injection Hi as ->. by eexists.
  - destruct (IH i Hok Hi) as [rest' E]. exists rest'. rewrite <- E.
    change (S i * MANIFEST_SIZE)%nat with (MANIFEST_SIZE + i * MANIFEST_SIZE)%nat.
    rewrite <- (to_raw_length e He) at 1. apply drop_app_add.
Qed.

Lemma entries_length es :
  Forall manifest_ok es → length (mjoin (to_raw <$> es)) = (length es * MANIFEST_SIZE)%nat.
Proof.
  induction 1 as [|e es He _ IH]; [done|].
  change (mjoin (to_raw <$> e :: es)) with (to_raw e ++ mjoin (to_raw <$> es)).
  by rewrite length_app, to_raw_length, IH.
Qed.

Lemma parse_serialize es rest :
  Forall manifest_ok es → (Z.of_nat (length es) < 2 ^ 32)%Z →
  parse_catalog (serialize_catalog es ++ rest) = Some es.
Proof.
  intros Hok Hlen. unfold parse_catalog, serialize_catalog.
  assert (is_u 32 (Z.of_nat (length es))) as Hu by (unfold is_u; lia).
  unfold u32. rewrite wrap_small by done.
  rewrite <- app_assoc, !length_app, le_bytes_length, entries_length by done.
  rewrite (proj2 (Nat.ltb_ge _ _)) by lia.
  change (slice (le_bytes 4 (Z.of_nat (length es)) ++ mjoin (to_raw <$> es) ++ rest) 0 4)
    with (slice ([] ++ le_bytes 4 (Z.of_nat (length es)) ++ mjoin (to_raw <$> es) ++ rest) 0 4).
  rewrite slice_at, le32_roundtrip, Nat2Z.id by done.
  rewrite (proj2 (Nat.ltb_ge _ _)) by lia. f_equal.
  apply list_eq. intros i. rewrite list_lookup_fmap.
  destruct (es !! i) as [m|] eqn:Hm.
  + pose proof (lookup_lt_Some _ _ _ Hm). rewrite lookup_seq_lt by done. cbn [fmap option_fmap option_map].
    f_equal. rewrite Nat.add_0_l. rewrite <- (le_bytes_length 4 (Z.of_nat (length es))) at 1. rewrite drop_app_add.
    destruct (drop_entries es i rest m Hok Hm) as [rest' ->].
    apply from_to_raw. by eapply Forall_lookup_1.
  + apply lookup_ge_None in Hm. by rewrite lookup_seq_ge.
Qed.

Lemma serialize_parse data es :
  bytes_ok data → parse_catalog data = Some es →
  Forall manifest_ok es ∧ serialize_catalog es = take (4 + length es * MANIFEST_SIZE) data.
Proof.
  intros Hd. unfold parse_catalog. case_if; [done|]. case_if; [done|]. unbool.
  set (n := Z.to_nat _) in *. intros [= <-]. rewrite length_fmap, length_seq.
  assert (∀ i, (i < n)%nat → bytes_ok (drop (4 + i * MANIFEST_SIZE) data) ∧
            (128 ≤ length (drop (4 + i * MANIFEST_SIZE) data))%nat) as Hi.
  { intros i ?. split; [by apply Forall_drop|]. rewrite length_drop. unfold MANIFEST_SIZE in *. nia. }
  split.
  { apply Forall_fmap, Forall_forall. intros i [_ Hin]%elem_of_seq. by apply from_raw_ok; apply Hi. }
  unfold serialize_catalog. rewrite length_fmap, length_seq.
  assert (le_bytes 4 (u32 (Z.of_nat n)) = take 4 data) as ->.
  { pose proof (le_val_bounds (slice data 0 4) (slice_bytes_ok _ _ _ Hd)) as Hb.
    rewrite slice_length in Hb by lia.
    change (8 * Z.of_nat (4 - 0))%Z with 32%Z in Hb. unfold u32. rewrite wrap_small by (unfold is_u, n; lia).
    unfold n. rewrite Z2Nat.id by lia. replace 4%nat with (length (slice data 0 4)) at 1
      by (rewrite slice_length; lia). rewrite le_bytes_val by by apply slice_bytes_ok.
    unfold slice. by rewrite drop_0. }
  rewrite <- take_take_drop. f_equal.
  assert (∀ k, (k ≤ n)%nat →
    mjoin (to_raw <$> ((λ i, from_raw (drop (4 + i * MANIFEST_SIZE) data)) <$> seq 0 k)) =
    take (k * MANIFEST_SIZE) (drop 4 data)) as Hk; [|by apply Hk].
  induction k as [|k IH]; intros Hk; [done|]. rewrite seq_S, !fmap_app, join_app, IH by lia.
  cbn [fmap list_fmap mjoin list_join Nat.add]. rewrite app_nil_r, to_from_raw by (apply Hi; lia).
  replace (S k * MANIFEST_SIZE)%nat with (k * MANIFEST_SIZE + 128)%nat by (unfold MANIFEST_SIZE; lia).
  by rewrite <- take_take_drop, drop_drop.
Qed.

(** C36: the catalog format round-trips both ways: parsing a serialised list
    of manifests gives the list back, whatever follows it in the blob, and
    serialising what [parse_catalog] accepted gives the bytes it consumed. *)
Theorem catalog_roundtrip :
  (∀ es rest, Forall manifest_ok es → (Z.of_nat (length es) < 2 ^ 32)%Z →
     parse_catalog (serialize_catalog es ++ rest) = Some es) ∧
  (∀ data es, bytes_ok data → parse_catalog data = Some es →
     Forall manifest_ok es ∧ serialize_catalog es = take (4 + length es * MANIFEST_SIZE) data).
Proof. split; [exact parse_serialize|exact serialize_parse]. Qed.

Definition sample_manifest : PkgManifest :=
  from_raw (str "com.dotcorr.files" ++ replicate 111 7%Z).

Lemma catalog_roundtrip_witness :
  parse_catalog (serialize_catalog [sample_manifest] ++ [1; 2; 3]%Z) = Some [sample_manifest].
Proof.
  apply (proj1 catalog_roundtrip).
  - constructor; [|constructor]. apply from_raw_ok.
    + apply Forall_forall. intros b Hb. apply list_elem_of_In in Hb. revert b Hb.
      apply List.Forall_forall. vm_compute. repeat constructor; discriminate.
    + vm_compute. lia.
  - vm_compute. reflexivity.
Defined.

End Manifest.
