(* ===== verification/Http.v ===== *)
(** * HTTP client of the package manager ([kernel/src/pkg/http.rs])

    Text handling (UTF-8 validation, [lines], [split_whitespace], [trim],
    integer parsing) on lists of code points, response parsing, and [get] with
    its connect, send and receive loops.  The TCP stack is a script of the
    results its calls return; the number of [tcp_close] calls is counted. *)

From Stdlib Require Import ZArith Lia.
From stdpp Require Import base numbers strings option list.
From S2P Require Import Prelude.

Module Http.

(** ** Strings of the standard library *)

Definition in_range (lo hi b : Z) : bool := (lo <=? b)%Z && (b <=? hi)%Z.
Definition cont (b : Z) : bool := in_range 0x80 0xBF b.
Definition low6 (b : Z) : Z := Z.land b 0x3F.

(** [core::str::from_utf8]: the code points, or [None] when invalid. *)
Fixpoint from_utf8 (bs : bytes) : option (list Z) :=
  match bs with
  | [] => Some []
  | b0 :: r0 =>
      if (b0 <? 0x80)%Z then cons b0 <$> from_utf8 r0
      else match r0 with
      | [] => None
      | b1 :: r1 =>
          if in_range 0xC2 0xDF b0 && cont b1
          then cons (Z.lor (Z.shiftl (Z.land b0 0x1F) 6) (low6 b1)) <$> from_utf8 r1
          else match r1 with
          | [] => None
          | b2 :: r2 =>
              if ((b0 =? 0xE0)%Z && in_range 0xA0 0xBF b1
                  || in_range 0xE1 0xEC b0 && cont b1
                  || (b0 =? 0xED)%Z && in_range 0x80 0x9F b1
                  || in_range 0xEE 0xEF b0 && cont b1) && cont b2
              then cons (Z.lor (Z.lor (Z.shiftl (Z.land b0 0xF) 12) (Z.shiftl (low6 b1) 6)) (low6 b2))
                     <$> from_utf8 r2
              else match r2 with
              | [] => None
              | b3 :: r3 =>
                  if ((b0 =? 0xF0)%Z && in_range 0x90 0xBF b1
                      || in_range 0xF1 0xF3 b0 && cont b1
                      || (b0 =? 0xF4)%Z && in_range 0x80 0x8F b1) && cont b2 && cont b3
                  then cons (Z.lor (Z.lor (Z.lor (Z.shiftl (Z.land b0 7) 18) (Z.shiftl (low6 b1) 12))
                                  (Z.shiftl (low6 b2) 6)) (low6 b3)) <$> from_utf8 r3
                  else None
              end
          end
      end
  end.

(** Bytes of a code point; [s.len()]. *)
Definition utf8_width (c : Z) : nat :=
  if (c <? 0x80)%Z then 1 else if (c <? 0x800)%Z then 2 else if (c <? 0x10000)%Z then 3 else 4.
Definition str_len (s : list Z) : nat := foldr (λ c n, utf8_width c + n) 0 s.

(** [s.split_at(n)] on bytes: [Panic] when [n] is not a character boundary. *)
Fixpoint split_bytes (n : nat) (s : list Z) : outcome (list Z * list Z) :=
  match n, s with
  | O, _ => Val ([], s)
  | S _, [] => Panic
  | S _, c :: s' =>
      if (utf8_width c <=? n)%nat
      then let! r := split_bytes (n - utf8_width c) s' in Val (c :: r.1, r.2)
      else Panic
  end.

Definition NL : Z := 10.
Definition CR : Z := 13.

Definition strip_cr (l : list Z) : list Z :=
  match list.last l with
  | Some c => if (c =? CR)%Z then take (length l - 1) l else l
  | None => l
  end.

(** [s.lines()]; [acc] is the current line. *)
Fixpoint lines_from (acc : list Z) (s : list Z) : list (list Z) :=
  match s with
  | [] => match acc with [] => [] | _ => [acc] end
  | c :: s' => if (c =? NL)%Z then strip_cr acc :: lines_from [] s' else lines_from (acc ++ [c]) s'
  end.
Definition lines (s : list Z) : list (list Z) := lines_from [] s.

(** [char::is_whitespace]. *)
Definition is_whitespace (c : Z) : bool :=
  in_range 9 13 c || existsb (Z.eqb c) [0x20; 0x85; 0xA0; 0x1680; 0x2028; 0x2029; 0x202F; 0x205F; 0x3000]%Z
  || in_range 0x2000 0x200A c.

Fixpoint words_from (acc : list Z) (s : list Z) : list (list Z) :=
  match s with
  | [] => match acc with [] => [] | _ => [acc] end
  | c :: s' =>
      if is_whitespace c
      then match acc with [] => words_from [] s' | _ => acc :: words_from [] s' end
      else words_from (acc ++ [c]) s'
  end.
Definition split_whitespace (s : list Z) : list (list Z) := words_from [] s.

Fixpoint trim_start (s : list Z) : list Z :=
  match s with
  | [] => []
  | c :: s' => if is_whitespace c then trim_start s' else s
  end.
Definition trim (s : list Z) : list Z := reverse (trim_start (reverse (trim_start s))).

(** [parse::<uN>()] in base 10, with its overflow check. *)
Fixpoint digits (max acc : Z) (s : list Z) : option Z :=
  match s with
  | [] => Some acc
  | c :: s' =>
      if in_range 48 57 c then
        let v := (acc * 10 + (c - 48))%Z in if (v <=? max)%Z then digits max v s' else None
      else None
  end.
Definition parse_uint (max : Z) (s : list Z) : option Z :=
  match s with
  | [] => None
  | c :: s' =>
      if (c =? 43)%Z then match s' with [] => None | _ => digits max 0 s' end
      else digits max 0 s
  end.

(** ** Responses *)

Inductive HttpError := EConnect | ESend | ERecv | EStatus (code : Z) | EMalformed | ETooLarge.
Definition http_result : Type := bytes + HttpError.

Definition MAX_BODY_SIZE : Z := 8 * 1024 * 1024.
Definition blen (b : bytes) : Z := Z.of_nat (length b).

Definition CRLF2 : bytes := [13; 10; 13; 10]%Z.
Definition find_header_end (data : bytes) : option nat :=
  position (λ i, bytes_eqb (slice data i (i + 4)) CRLF2) (seq 0 (length data - 3)).

Definition parse_status_code (line : list Z) : option Z :=
  match split_whitespace line with
  | _version :: code :: _ => parse_uint 65535 code
  | _ => None
  end.

Definition lower (c : Z) : Z := if in_range 65 90 c then (c + 32)%Z else c.
Definition eq_ignore_ascii_case (a b : list Z) : bool := bytes_eqb (lower <$> a) (lower <$> b).

Fixpoint content_length_in (ls : list (list Z)) : outcome (option Z) :=
  match ls with
  | [] => Val None
  | line :: ls' =>
      if (15 <=? str_len line)%nat then
        let! r := split_bytes 15 line in
        if eq_ignore_ascii_case r.1 (str "content-length:")
        then Val (parse_uint u64_MAX (trim r.2))
        else content_length_in ls'
      else content_length_in ls'
  end.
Definition parse_content_length (headers : list Z) : outcome (option Z) :=
  content_length_in (lines headers).

Definition parse_response (data : bytes) : outcome http_result :=
  match find_header_end data with
  | None => Val (inr EMalformed)
  | Some header_end =>
      match from_utf8 (take header_end data) with
      | None => Val (inr EMalformed)
      | Some headers =>
          match lines headers with
          | [] => Val (inr EMalformed)
          | status_line :: _ =>
              match parse_status_code status_line with
              | None => Val (inr EMalformed)
              | Some code =>
                  if negb (code =? 200)%Z then Val (inr (EStatus code))
                  else
                    let body_start := header_end + 4 in
                    if (length data <=? body_start)%nat then Val (inl [])
                    else
                      let body := drop body_start data in
                      let! cl := parse_content_length headers in
                      match cl with
                      | Some n =>
                          if (MAX_BODY_SIZE <? n)%Z then Val (inr ETooLarge)
                          else if (blen body <? n)%Z then Val (inr EMalformed)
                          else Val (inl (take (Z.to_nat n) body))
                      | None => Val (inl body)
                      end
              end
          end
      end
  end.

(** ** Requests *)

Fixpoint dec_digits (fuel : nat) (z : Z) : bytes :=
  match fuel with
  | O => []
  | S fuel' => if (z <? 10)%Z then [(48 + z)%Z] else dec_digits fuel' (z / 10) ++ [(48 + z mod 10)%Z]
  end.
Definition fmt_dec (z : Z) : bytes := dec_digits 20 z.

Definition format_ip (ip : bytes) (port : Z) : bytes :=
  fmt_dec (ip !!! 0) ++ str "." ++ fmt_dec (ip !!! 1) ++ str "." ++ fmt_dec (ip !!! 2) ++ str "."
  ++ fmt_dec (ip !!! 3) ++ str ":" ++ fmt_dec port.
Definition crlf : bytes := [13; 10]%Z.
Definition build_request (path host : bytes) : bytes :=
  str "GET " ++ path ++ str " HTTP/1.1" ++ crlf ++ str "Host: " ++ host ++ crlf
  ++ str "Connection: close" ++ crlf ++ str "User-Agent: OSCortex/1.0" ++ crlf ++ crlf.

(** ** [get] against a scripted TCP stack *)

Inductive est_result := EstYes | EstNo | EstErr.
Inductive write_result := WOk (n : nat) | WEagain | WErr.
Inductive read_result := RData (chunk : bytes) | REagain | RErr.

(** What the calls on one socket return: [tcp_connect], successive
    [tcp_is_established], [tcp_write] and [tcp_read].  A script of writes that
    ends means an error, a script of reads that ends means end of stream; an
    empty chunk is [Ok(0)], the end of stream. *)
Record Net := mkNet {
  net_connect : bool;
  net_est : nat → est_result;
  net_write : list write_result;
  net_read : list read_result
}.

Fixpoint connect_loop (n i : nat) (est : nat → est_result) : bool :=
  match n with
  | O => false
  | S n' =>
      match est i with
      | EstYes => true
      | EstNo => connect_loop n' (S i) est
      | EstErr => false
      end
  end.

Fixpoint send_loop (ws : list write_result) (sent len write_eagain : nat) : bool :=
  if (len <=? sent)%nat then true
  else
    match ws with
    | [] => false
    | WOk n :: ws' => send_loop ws' (sent + n) len 0
    | WEagain :: ws' =>
        if (300 <? write_eagain + 1)%nat then false else send_loop ws' sent len (write_eagain + 1)
    | WErr :: _ => false
    end.

(** The total the receive loop waits for, once the headers are complete. *)
Inductive expectation := Unknown | TooLarge | Total (n : Z).
Definition expect (response : bytes) : outcome expectation :=
  match find_header_end response with
  | None => Val Unknown
  | Some header_end =>
      match from_utf8 (take header_end response) with
      | None => Val Unknown
      | Some headers =>
          let! cl := parse_content_length headers in
          match cl with
          | None => Val Unknown
          | Some n => if (MAX_BODY_SIZE <? n)%Z then Val TooLarge
                      else Val (Total (Z.of_nat header_end + 4 + n))
          end
      end
  end.

Fixpoint recv_loop (rs : list read_result) (response : bytes) (eagain : Z) (expected : option Z)
    : outcome (bytes + HttpError) :=
  match rs with
  | [] | RErr :: _ => Val (inl response)
  | RData [] :: _ => Val (inl response)
  | RData chunk :: rs' =>
      let response := response ++ chunk in
      if (MAX_BODY_SIZE + 4096 <? blen response)%Z then Val (inr ETooLarge)
      else
        let! e := match expected with Some n => Val (Total n) | None => expect response end in
        match e with
        | TooLarge => Val (inr ETooLarge)
        | Unknown => recv_loop rs' response 0 None
        | Total n => if (n <=? blen response)%Z then Val (inl response)
                     else recv_loop rs' response 0 (Some n)
        end
  | REagain :: rs' =>
      let eagain := (eagain + 1)%Z in
      let cap := match expected with Some _ => 20000%Z | None => 1500%Z end in
      if (cap <? eagain)%Z then Val (inl response) else recv_loop rs' response eagain expected
  end.

(** The result and the number of [tcp_close] calls. *)
Definition get (net : Net) (host_ip port : Z) (path : bytes) : outcome (http_result * nat) :=
  if negb (net_connect net) then Val (inr EConnect, 0)
  else if negb (connect_loop 240 0 (net_est net)) then Val (inr EConnect, 1)
  else
    let request := build_request path (format_ip (be_bytes 4 host_ip) port) in
    if negb (send_loop (net_write net) 0 (length request) 0) then Val (inr ESend, 1)
    else
      let! r := recv_loop (net_read net) [] 0 None in
      match r with
      | inr e => Val (inr e, 1)
      | inl response => let! p := parse_response response in Val (p, 1)
      end.

(** ** Scripts that deliver a message *)

Fixpoint delivered (rs : list read_result) : bytes :=
  match rs with
  | RData c :: rs' => c ++ delivered rs'
  | REagain :: rs' => delivered rs'
  | _ => []
  end.

(** Non-empty chunks, at most 1500 empty polls in a row (now [n]), no error. *)
Fixpoint steady (n : Z) (rs : list read_result) : bool :=
  match rs with
  | [] => true
  | RData c :: rs' => (0 <? length c)%nat && steady 0 rs'
  | REagain :: rs' => (n + 1 <=? 1500)%Z && steady (n + 1) rs'
  | RErr :: _ => false
  end.

(** A well-formed response head: the first blank line ends it, it is valid
    text with status 200 and announces [n] body bytes. *)
Record head_ok (head : bytes) (n : Z) : Prop := {
  ho_first : find_header_end (head ++ CRLF2) = Some (length head);
  ho_text : ∃ hs line ls, from_utf8 head = Some hs ∧ lines hs = line :: ls ∧
              parse_status_code line = Some 200%Z ∧ parse_content_length hs = Val (Some n)
}.

(** ** Lemmas *)

Lemma find_header_end_Some data h :
  find_header_end data = Some h ↔
  h + 4 ≤ length data ∧ slice data h (h + 4) = CRLF2 ∧
  ∀ j, j < h → slice data j (j + 4) ≠ CRLF2.
Proof.
  unfold find_header_end. rewrite position_Some. split.
  - intros [(i & Hi & Hb) Hlt]. apply lookup_seq in Hi as [-> Hi]. cbn [Nat.add] in *.
    apply bytes_eqb_eq in Hb. split_and!; [lia|done|].
    intros j Hj E. specialize (Hlt j j Hj). rewrite E, bytes_eqb_refl in Hlt.
    discriminate Hlt. apply lookup_seq. lia.
  - intros (Hl & Hs & Hlt). split.
    + exists h. split; [apply lookup_seq; lia|]. by rewrite Hs, bytes_eqb_refl.
    + intros j y Hj Hy. apply lookup_seq in Hy as [-> Hy]. cbn [Nat.add].
      apply bytes_eqb_neq, Hlt. lia.
Qed.

Lemma find_header_end_None data :
  find_header_end data = None ↔ ∀ j, j + 4 ≤ length data → slice data j (j + 4) ≠ CRLF2.
Proof.
  unfold find_header_end. rewrite position_None, Forall_forall. split.
  - intros H j Hj. apply bytes_eqb_neq, H, elem_of_seq. lia.
  - intros H j Hj%elem_of_seq. apply bytes_eqb_neq, H. lia.
Qed.

(** Every prefix of a response: the end of the head is found, at the same
    place, as soon as the blank line has arrived. *)
Lemma find_header_end_prefix head rest k :
  find_header_end (head ++ CRLF2) = Some (length head) →
  k ≤ length (head ++ CRLF2 ++ rest) →
  find_header_end (take k (head ++ CRLF2 ++ rest)) =
    if (length head + 4 <=? k)%nat then Some (length head) else None.
Proof.
  intros H Hk. apply find_header_end_Some in H as (_ & Hs & Hlt).
  set (d := head ++ CRLF2 ++ rest) in *.
  assert (∀ j, j + 4 ≤ length head + 4 → slice d j (j + 4) = slice (head ++ CRLF2) j (j + 4)) as Hd.
  { intros j Hj. unfold d. rewrite app_assoc. rewrite <- (slice_take _ (length head + 4)) by lia.
    rewrite take_app_le by (rewrite length_app; simpl; lia).
    rewrite take_ge by (rewrite length_app; simpl; lia). done. }
  destruct (Nat.leb_spec (length head + 4) k) as [Hle|Hgt].
  - apply find_header_end_Some. rewrite length_take. split_and!; [lia| |].
    + by rewrite slice_take, Hd by lia.
    + intros j Hj. rewrite slice_take, Hd by lia. by apply Hlt.
  - apply find_header_end_None. intros j Hj. rewrite length_take in Hj.
    rewrite slice_take, Hd by lia. apply Hlt. lia.
Qed.

(** What the receive loop expects after a prefix. *)
Lemma expect_prefix head n rest k :
  head_ok head n → (n ≤ MAX_BODY_SIZE)%Z → k ≤ length (head ++ CRLF2 ++ rest) →
  expect (take k (head ++ CRLF2 ++ rest)) =
    Val (if (length head + 4 <=? k)%nat then Total (Z.of_nat (length head) + 4 + n) else Unknown).
Proof.
  intros [Hf (hs & line & ls & Hu & _ & _ & Hc)] Hn Hk. unfold expect.
  rewrite find_header_end_prefix by done.
  destruct (Nat.leb_spec (length head + 4) k) as [Hle|Hgt]; [|done].
  rewrite take_take, Nat.min_l, take_app_length by lia. rewrite Hu, Hc. cbn [obind].
  by rewrite (proj2 (Z.ltb_ge _ _)).
Qed.

(** Parsing a response with a good head. *)
Lemma parse_response_head head n body :
  head_ok head n → (n ≤ MAX_BODY_SIZE)%Z →
  parse_response (head ++ CRLF2 ++ body) =
    Val (match body with
         | [] => inl []
         | _ => if (blen body <? n)%Z then inr EMalformed else inl (take (Z.to_nat n) body)
         end).
Proof.
  intros [Hf (hs & line & ls & Hu & Hl & Hs & Hc)] Hn. unfold parse_response.
  set (d := head ++ CRLF2 ++ body). assert (length d = length head + 4 + length body) as Hd.
  { unfold d. rewrite !length_app. simpl. lia. }
  assert (find_header_end d = Some (length head)) as ->.
  { rewrite <- (take_ge d (length d)) by lia. unfold d at 2. rewrite find_header_end_prefix by done.
    by rewrite (proj2 (Nat.leb_le _ _)) by lia. }
  assert (take (length head) d = head) as -> by apply take_app_length.
  rewrite Hu, Hl, Hs. cbn [Z.eqb Pos.eqb negb].
  assert (drop (length head + 4) d = body) as ->.
  { unfold d. rewrite app_assoc. apply drop_app_length'. rewrite length_app. simpl. lia. }
  rewrite Hd. destruct body as [|b body].
  { by rewrite (proj2 (Nat.leb_le _ _)) by (simpl; lia). }
  rewrite (proj2 (Nat.leb_gt _ _)) by (simpl; lia). rewrite Hc. cbn [obind].
  rewrite (proj2 (Z.ltb_ge MAX_BODY_SIZE n)) by done. by case_if.
Qed.

(** The receive loop assembles the message whatever the chunking. *)
Lemma recv_loop_assembles head n body :
  head_ok head n → n = blen body → (n ≤ MAX_BODY_SIZE)%Z → length head ≤ 4092 →
  let msg := head ++ CRLF2 ++ body in
  ∀ rs k ea,
    k < length msg → delivered rs = drop k msg → steady ea rs = true →
    recv_loop rs (take k msg) ea
      (if (length head + 4 <=? k)%nat then Some (blen msg) else None) = Val (inl msg).
Proof.
  intros Hh Hn Hmax Hhead msg.
  assert (blen msg = Z.of_nat (length head) + 4 + n)%Z as Hm.
  { unfold blen, msg. rewrite !length_app, Hn. unfold blen. simpl. lia. }
  induction rs as [|r rs IH]; intros k ea Hk Hdel Hst.
  { simpl in Hdel. exfalso. apply (f_equal length) in Hdel. rewrite length_drop in Hdel. simpl in Hdel. lia. }
  destruct r as [c| |]; cbn [recv_loop delivered steady] in *; [| |done].
  - apply andb_true_iff in Hst as [Hc Hst]. apply Nat.ltb_lt in Hc.
    destruct c as [|b c]; [simpl in Hc; lia|]. set (c' := b :: c) in *.
    assert (take k msg ++ c' = take (k + length c') msg) as Happ.
    { rewrite <- take_take_drop, <- Hdel. f_equal. by rewrite take_app_length. }
    assert (k + length c' ≤ length msg) as Hle.
    { apply (f_equal length) in Hdel. rewrite length_app, length_drop in Hdel. lia. }
    rewrite Happ. assert (blen (take (k + length c') msg) = Z.of_nat (k + length c')) as Hbl.
    { unfold blen. rewrite length_take. lia. }
    rewrite Hbl. rewrite (proj2 (Z.ltb_ge _ _)) by (unfold blen, MAX_BODY_SIZE in *; lia).
    assert ((match (if (length head + 4 <=? k)%nat then Some (blen msg) else None) with
             | Some n0 => Val (Total n0)
             | None => expect (take (k + length c') msg)
             end) = Val (if (length head + 4 <=? k + length c')%nat then Total (blen msg) else Unknown)) as ->.
    { destruct (Nat.leb_spec (length head + 4) k) as [H1|H1].
      - by rewrite (proj2 (Nat.leb_le _ _)) by lia.
      - unfold msg at 1. rewrite (expect_prefix head n body) by done. by rewrite Hm. }
    cbn [obind]. destruct (Nat.leb_spec (length head + 4) (k + length c')) as [H2|H2].
    + destruct (Z.leb_spec (blen msg) (Z.of_nat (k + length c'))) as [H3|H3].
      * rewrite take_ge by (unfold blen in H3; lia). done.
      * specialize (IH (k + length c') 0%Z). rewrite (proj2 (Nat.leb_le _ _)) in IH by lia.
        apply IH; [unfold blen in H3; lia| |done].
        rewrite <- drop_drop, <- Hdel. by rewrite drop_app_length.
    + specialize (IH (k + length c') 0%Z). rewrite (proj2 (Nat.leb_gt _ _)) in IH by lia.
      apply IH; [unfold blen in *; lia| |done].
      rewrite <- drop_drop, <- Hdel. by rewrite drop_app_length.
  - apply andb_true_iff in Hst as [Hc Hst]. apply Z.leb_le in Hc.
    rewrite (proj2 (Z.ltb_ge _ _)); [by apply IH|]. case_match; lia.
Qed.

(** C35: a good response is returned intact however TCP delivers it: when the
    connection comes up within the 240 polls and the request is accepted, and the
    response has a head of at most 4092 bytes with status 200 and the length of
    its body, at most 8 MiB, any split of the response into non-empty reads,
    with up to 1500 empty polls between them, makes [get] return exactly the
    announced body, and the socket is closed once. *)
Theorem http_get_any_chunking net ip port path head body :
  head_ok head (blen body) → (blen body ≤ MAX_BODY_SIZE)%Z → length head ≤ 4092 →
  net_connect net = true → connect_loop 240 0 (net_est net) = true →
  send_loop (net_write net) 0 (length (build_request path (format_ip (be_bytes 4 ip) port))) 0 = true →
  delivered (net_read net) = head ++ CRLF2 ++ body → steady 0 (net_read net) = true →
  get net ip port path = Val (inl body, 1).
Proof.
  intros Hh Hmax Hl Hc He Hs Hd Hst. unfold get. rewrite Hc, He, Hs. cbn [negb].
  pose proof (recv_loop_assembles head _ body Hh eq_refl Hmax Hl (net_read net) 0 0) as H.
  rewrite take_0, drop_0 in H. rewrite (proj2 (Nat.leb_gt _ _)) in H by lia.
  rewrite H; [|rewrite !length_app; simpl; lia|done|done]. cbn [obind].
  rewrite (parse_response_head head (blen body)) by done. destruct body as [|b body]; [done|].
  rewrite Z.ltb_irrefl. cbn [obind]. unfold blen. by rewrite Nat2Z.id, take_ge by done.
Qed.

(** truncated transfers: a body that stops short of its announced length
    is rejected as malformed, except when none of it arrived: a response that
    ends with its head is accepted with an empty body. *)
Theorem http_truncated_body head n body :
  head_ok head n → (blen body < n ≤ MAX_BODY_SIZE)%Z →
  parse_response (head ++ CRLF2 ++ body) =
    Val (match body with [] => inl [] | _ => inr EMalformed end).
Proof.
  intros Hh Hn. rewrite (parse_response_head head n) by (done || lia).
  destruct body; [done|]. by rewrite (proj2 (Z.ltb_lt _ _)) by lia.
Qed.

(** ** Witnesses *)

Definition sample_head : bytes := str "HTTP/1.1 200 OK" ++ crlf ++ str "Content-Length: 5".
Definition sample_net : Net :=
  mkNet true (λ i, if (i <? 3)%nat then EstNo else EstYes) [WEagain; WOk 1000]
    [RData (take 30 sample_head); REagain; RData (drop 30 sample_head ++ CRLF2 ++ str "he"); RData (str "llo")].

Lemma sample_head_ok : head_ok sample_head 5.
Proof.
  constructor; [vm_compute; reflexivity|].
  exists sample_head, (str "HTTP/1.1 200 OK"), [str "Content-Length: 5"].
  split_and!; vm_compute; reflexivity.
Qed.

Lemma http_get_any_chunking_witness : get sample_net 0x0A000202 8080 (str "/catalog.bin") = Val (inl (str "hello"), 1).
Proof.
  apply (http_get_any_chunking sample_net 0x0A000202 8080 (str "/catalog.bin") sample_head (str "hello"));
    [exact sample_head_ok|vm_compute; discriminate|apply Nat.leb_le; vm_compute; reflexivity
    |vm_compute; reflexivity..].
Defined.

Lemma http_truncated_body_witness :
  parse_response (sample_head ++ CRLF2) = Val (inl []) ∧
  parse_response (sample_head ++ CRLF2 ++ str "hel") = Val (inr EMalformed).
Proof.
  split.
  - apply (http_truncated_body sample_head 5 []); [exact sample_head_ok|]. vm_compute. split; [reflexivity|discriminate].
  - apply (http_truncated_body sample_head 5 (str "hel")); [exact sample_head_ok|].
    vm_compute. split; [reflexivity|discriminate].
Defined.

End Http.
