(* ===== verification/AppRegistry.v ===== *)
(** * Application registry ([kernel/src/app_registry/mod.rs])

    Bundle headers, the table of installed apps with its install, uninstall and
    listing operations, launching, and the crash auto-recovery with its three
    slot tables.  Calls of [app_store] are recorded in [store_log]; launching
    and recovery act on the window manager's state ([Wm.Core]) through its own
    operations.  File lookup, process creation and [kill_group] are arguments. *)

From Stdlib Require Import ZArith Lia.
From stdpp Require Import base numbers strings option relations list.
From S2P Require Import Prelude Ring EventQueue Wm Http.

Module AppRegistry.

(** ** Bundles *)

Definition MAGIC : bytes := str "OSCP".
Definition HEADER_SIZE : nat := 112.
Definition HOST_MODE_APP : Z := 2.

Record BundleHeader := mkHeader {
  h_name : bytes; h_version : bytes; h_entry_offset : Z; h_stack_size : Z; h_aot_len : Z
}.

Definition parse_header (bundle : bytes) : option BundleHeader :=
  if (length bundle <? HEADER_SIZE)%nat then None
  else if negb (bytes_eqb (slice bundle 0 4) MAGIC) then None
  else if negb (le_val (slice bundle 4 8) =? 1)%Z then None
  else
    let aot_len := le_val (slice bundle 104 108) in
    if (Z.of_nat (length bundle) <? Z.of_nat HEADER_SIZE + aot_len)%Z then None
    else Some (mkHeader (slice bundle 8 72) (slice bundle 72 88) (le_val (slice bundle 88 96))
                        (le_val (slice bundle 96 104)) aot_len).

(** The AOT snapshot of a parsed bundle. *)
Definition aot_of (bundle : bytes) (h : BundleHeader) : bytes :=
  slice bundle HEADER_SIZE (HEADER_SIZE + Z.to_nat (h_aot_len h)).

(** ** Table *)

Record AppRecord := mkApp {
  id : Z; name : bytes; version : bytes; entry_offset : Z; stack_size : Z; system : bool;
  aot_data : bytes
}.

Definition app_name (r : AppRecord) : bytes := nul_trim (name r).

Definition MAX_APPS : nat := 64.

Record AppTable := mkTable { slots : list (option AppRecord); next_id : Z }.
Definition AppTable_empty : AppTable := mkTable [] 1.

Definition find (t : AppTable) (i : Z) : option AppRecord :=
  find_first (λ r, (id r =? i)%Z) (flatten (slots t)).
Definition find_by_name (t : AppTable) (nm : bytes) : option AppRecord :=
  find_first (λ r, bytes_eqb (app_name r) nm) (flatten (slots t)).

Definition insert (t : AppTable) (r : AppRecord) : option AppTable :=
  if (MAX_APPS <=? length (flatten (slots t)))%nat then None
  else
    match update_first (λ s, negb (isSome s)) (λ _, Some r) (slots t) with
    | Some ss => Some (mkTable ss (next_id t))
    | None => Some (mkTable (slots t ++ [Some r]) (next_id t))
    end.

(** The loop of [allocate_id]; the result is the id and the advanced counter. *)
Fixpoint allocate_id (fuel : nat) (t : AppTable) : option (AppTable * Z) :=
  match fuel with
  | O => None
  | S fuel' =>
      let i := next_id t in
      let t1 := mkTable (slots t) (next_id32 (next_id t)) in
      match find t1 i with
      | None => Some (t1, i)
      | Some _ => allocate_id fuel' t1
      end
  end.
(** At most 64 ids are taken, so 65 tries suffice. *)
Definition ALLOC_FUEL : nat := 65.

Definition remove (t : AppTable) (i : Z) : AppTable * bool :=
  match update_first (λ s, match s with Some r => (id r =? i)%Z | None => false end) (λ _, None) (slots t) with
  | Some ss => (mkTable ss (next_id t), true)
  | None => (t, false)
  end.

(** ** State and the install operations *)

Inductive store_call := Persist (i : Z) (bundle : bytes) | RemoveBundle (i : Z).

Record Registry := mkReg { table : AppTable; store_log : list store_call }.
Definition Registry_init : Registry := mkReg AppTable_empty [].
Definition set_table (g : Registry) (t : AppTable) : Registry := mkReg t (store_log g).
Definition log_store (g : Registry) (c : store_call) : Registry := mkReg (table g) (store_log g ++ [c]).

(** The record a header and its bundle give. *)
Definition record_of (h : BundleHeader) (bundle : bytes) (i : Z) (sys : bool) : AppRecord :=
  mkApp i (h_name h) (h_version h) (h_entry_offset h)
        (if (h_stack_size h =? 0)%Z then 512 * 1024 else h_stack_size h) sys (aot_of bundle h).

Definition install_record (g : Registry) (bundle : bytes) (i : Z) (sys : bool) : Registry * option Z :=
  match parse_header bundle with
  | None => (g, None)
  | Some h =>
      let t := table g in
      match find t i, find_by_name t (nul_trim (h_name h)) with
      | None, None =>
          match insert t (record_of h bundle i sys) with
          | None => (g, None)
          | Some t1 =>
              let t2 := if (next_id t1 <=? i)%Z
                        then mkTable (slots t1) (Z.max (Z.min (i + 1) u32_MAX) 1) else t1 in
              (set_table g t2, Some i)
          end
      | _, _ => (g, None)
      end
  end.

Definition install_record_auto_id (g : Registry) (bundle : bytes) (sys : bool) : Registry * option Z :=
  match parse_header bundle with
  | None => (g, None)
  | Some h =>
      let t := table g in
      match find_by_name t (nul_trim (h_name h)) with
      | Some _ => (g, None)
      | None =>
          match allocate_id ALLOC_FUEL t with
          | None => (g, None)
          | Some (t1, i) =>
              match insert t1 (record_of h bundle i sys) with
              | None => (set_table g t1, None)
              | Some t2 => (set_table g t2, Some i)
              end
          end
      end
  end.

Definition install_from_store (g : Registry) (bundle : bytes) (i : Z) : Registry * option Z :=
  install_record g bundle i false.

(** [fs_lookup] is [crate::fs::lookup]. *)
Definition install_system_from_path (fs_lookup : bytes → option bytes) (g : Registry) (path : bytes) (i : Z)
    : Registry * option Z :=
  match fs_lookup path with
  | None => (g, None)
  | Some bundle => install_record g bundle i true
  end.
Definition install_system_from_path_auto (fs_lookup : bytes → option bytes) (g : Registry) (path : bytes)
    : Registry * option Z :=
  match fs_lookup path with
  | None => (g, None)
  | Some bundle => install_record_auto_id g bundle true
  end.

(** [buf.split(|&b| b == b'\n')]. *)
Fixpoint split_lines (acc : bytes) (s : bytes) : list bytes :=
  match s with
  | [] => [acc]
  | c :: s' => if (c =? 10)%Z then acc :: split_lines [] s' else split_lines (acc ++ [c]) s'
  end.
Definition ends_with (l suffix : bytes) : bool := starts_with (reverse l) (reverse suffix).

Definition discover_line (fs_lookup : bytes → option bytes) (g : Registry) (line : bytes) : Registry :=
  if negb (ends_with line (str ".osx")) then g
  else match Http.from_utf8 line with
       | None => g
       | Some _ =>
           match line with
           | [] => g
           | _ => (install_system_from_path_auto fs_lookup g (str "/Applications" ++ str "/" ++ line)).1
           end
       end.
(** [listing] is what [fs::list_prefix] wrote for [/Applications]. *)
Definition discover_applications_dir (fs_lookup : bytes → option bytes) (listing : bytes) (g : Registry)
    : Registry :=
  if (length listing =? 0)%nat then g
  else foldl (discover_line fs_lookup) g (split_lines [] listing).

Definition SYSTEM_APPS : list (bytes * Z) :=
  [(str "/Applications/Canvas.app/Canvas.osx", 1%Z);
   (str "/Applications/Files.app/Files.osx", 2%Z);
   (str "/Applications/Web Link.app/Web Link.osx", 3%Z)].
Definition install_system_apps (fs_lookup : bytes → option bytes) (listing : bytes) (g : Registry) : Registry :=
  discover_applications_dir fs_lookup listing
    (foldl (λ g x, (install_system_from_path fs_lookup g x.1 x.2).1) g SYSTEM_APPS).

Definition install (g : Registry) (bundle : bytes) : Registry * option Z :=
  match parse_header bundle with
  | None => (g, None)
  | Some h =>
      let t := table g in
      match find_by_name t (nul_trim (h_name h)) with
      | Some _ => (g, None)
      | None =>
          let i := next_id t in
          let t1 := mkTable (slots t) (next_id32 (next_id t)) in
          match insert t1 (record_of h bundle i false) with
          | None => (set_table g t1, None)
          | Some t2 => (log_store (set_table g t2) (Persist i bundle), Some i)
          end
      end
  end.

Definition uninstall (g : Registry) (app_id : Z) : Registry * bool :=
  if match find (table g) app_id with Some r => system r | None => false end then (g, false)
  else
    let '(t1, found) := remove (table g) app_id in
    if found then (log_store (set_table g t1) (RemoveBundle app_id), true) else (set_table g t1, false).

(** ** Listing *)

Definition RECORD_SZ : nat := 88.
Definition list_record (r : AppRecord) : bytes :=
  le_bytes 4 (id r) ++ name r ++ version r ++ le_bytes 4 (if system r then 1 else 0).

(** The loop over the occupied slots; [buf] and [offset] as in the code. *)
Fixpoint list_loop (rs : list AppRecord) (buf : bytes) (offset : nat) : bytes :=
  match rs with
  | [] => buf
  | r :: rs' =>
      if (offset + RECORD_SZ <=? length buf)%nat
      then list_loop rs' (copy_at buf offset (list_record r)) (offset + RECORD_SZ)
      else list_loop rs' buf offset
  end.
Definition list_apps (g : Registry) (buf : bytes) : bytes * Z :=
  let rs := flatten (slots (table g)) in (list_loop rs buf 0, Z.of_nat (length rs)).

Definition count (g : Registry) : Z := Z.of_nat (length (flatten (slots (table g)))).

Definition get_info (g : Registry) (app_id : Z) : option bytes :=
  match find (table g) app_id with
  | None => None
  | Some r => Some (le_bytes 4 (id r) ++ name r ++ version r
                    ++ le_bytes 4 (u32 (Z.of_nat (length (aot_data r)))))
  end.

(** ** Launching and crash recovery *)

Definition RECOVERY_SLOTS : nat := 8.
Definition MAX_RELAUNCHES : Z := 3.
Definition RELAUNCH_WINDOW_NS : Z := 30000000000.

Record Recovery := mkRec {
  RUNNING : list (Z * Z);
  PENDING : list (Z * Z);
  HISTORY : list (Z * Z * Z);
  wm_core : Wm.Core;
  killed : list Z
}.
Definition Recovery_init (c : Wm.Core) : Recovery :=
  mkRec (replicate RECOVERY_SLOTS (0, 0)%Z) (replicate RECOVERY_SLOTS (0, 0)%Z)
        (replicate RECOVERY_SLOTS (0, 0, 0)%Z) c [].

Definition set_running (r : Recovery) x := mkRec x (PENDING r) (HISTORY r) (wm_core r) (killed r).
Definition set_pending (r : Recovery) x := mkRec (RUNNING r) x (HISTORY r) (wm_core r) (killed r).
Definition set_history (r : Recovery) x := mkRec (RUNNING r) (PENDING r) x (wm_core r) (killed r).
Definition set_wm (r : Recovery) x := mkRec (RUNNING r) (PENDING r) (HISTORY r) x (killed r).
Definition kill_group (r : Recovery) (pid : Z) : Recovery :=
  mkRec (RUNNING r) (PENDING r) (HISTORY r) (wm_core r) (killed r ++ [pid]).

Definition note_running (r : Recovery) (root_pid app_id : Z) : Recovery :=
  match update_first (λ s, (s.1 =? 0)%Z) (λ _, (root_pid, app_id)) (RUNNING r) with
  | Some l => set_running r l
  | None => r
  end.

Section wm.
Context {PG : ProcessGroups}.

Definition APP_LAUNCH : Z := 1.

(** [host] is the host binary, [spawn] the result of [spawn_with_bootstrap]. *)
Definition launch (g : Registry) (r : Recovery) (app_id : Z) (host : bool) (spawn : option Z)
    : Recovery * Z :=
  match find (table g) app_id with
  | None => (r, -2)%Z
  | Some _ =>
      if negb host then (r, -2)%Z
      else match spawn with
           | None => (r, -12)%Z
           | Some child_pid =>
               let r1 := note_running r child_pid app_id in
               let c1 := Wm.push_app_event (wm_core r1) child_pid APP_LAUNCH 0 in
               (set_wm r1 (Wm.set_focus_pid c1 child_pid), child_pid)
           end
  end.

(** [running_free] and [pending_free]: whether the try-locks succeed. *)
Definition note_thread_exit (r : Recovery) (running_free pending_free : bool) (leader pid code : Z)
    : Recovery :=
  if negb running_free then r
  else
    let mine := λ s : Z * Z, (s.1 =? leader)%Z && negb (s.1 =? 0)%Z in
    match find_first mine (RUNNING r) with
    | None => r
    | Some (_, app_id) =>
        let cleared := default (RUNNING r) (update_first mine (λ _, (0, 0)%Z) (RUNNING r)) in
        if (code =? 0)%Z then (if (pid =? leader)%Z then set_running r cleared else r)
        else
          let r1 := set_running r cleared in
          if negb pending_free then r1
          else match update_first (λ s : Z * Z, (s.1 =? 0)%Z) (λ _, (app_id, leader)) (PENDING r1) with
               | Some l => set_pending r1 l
               | None => r1
               end
    end.

(** The backoff decision on [HISTORY]: [None] when the table is full,
    otherwise the updated table and whether to relaunch. *)
Definition backoff (h : list (Z * Z * Z)) (app_id now : Z) : option (list (Z * Z * Z) * bool) :=
  let mine := λ s : Z * Z * Z, (s.1.1 =? app_id)%Z in
  match (match find_first mine h with
         | Some _ => Some h
         | None => update_first (λ s : Z * Z * Z, (s.1.1 =? 0)%Z) (λ _, (app_id, 0, now)%Z) h
         end) with
  | None => None
  | Some h1 =>
      let expire := λ s : Z * Z * Z,
        if (RELAUNCH_WINDOW_NS <? sat_sub now s.2)%Z then (app_id, 0, now)%Z else s in
      match update_first mine expire h1 with
      | None => None
      | Some h2 =>
          match find_first mine h2 with
          | None => None
          | Some (_, attempts, _) =>
              if (MAX_RELAUNCHES <=? attempts)%Z then Some (h2, false)
              else match update_first mine (λ s, (s.1.1, (s.1.2 + 1)%Z, s.2)) h2 with
                   | None => None
                   | Some h3 => Some (h3, true)
                   end
          end
      end
  end.

(** One drain; the boolean says whether a relaunch was attempted. *)
Definition drain_relaunches (g : Registry) (r : Recovery) (pending_free : bool) (now : Z)
    (host : bool) (spawn : option Z) : Recovery * option Z :=
  if negb pending_free then (r, None)
  else
    match find_first (λ s : Z * Z, negb (s.1 =? 0)%Z) (PENDING r) with
    | None => (r, None)
    | Some (app_id, dead_leader) =>
        let r1 := set_pending r (default (PENDING r)
                    (update_first (λ s : Z * Z, negb (s.1 =? 0)%Z) (λ _, (0, 0)%Z) (PENDING r))) in
        let r2 := kill_group r1 dead_leader in
        let r3 := if negb (Wm.FOCUS_PID (wm_core r2) =? 1)%Z
                  then set_wm r2 (Wm.set_focus_pid (wm_core r2) 1) else r2 in
        match backoff (HISTORY r3) app_id now with
        | None => (r3, None)
        | Some (h, false) => (set_history r3 h, None)
        | Some (h, true) => ((launch g (set_history r3 h) app_id host spawn).1, Some app_id)
        end
    end.

End wm.

(** ** Reachable registries *)

Definition apps (t : AppTable) : list AppRecord := flatten (slots t).

(** One call, while the id counter has not reached its last value. *)
Inductive step (g : Registry) : Registry → Prop :=
| step_record b i sys g' o :
    (0 ≤ i < u32_MAX)%Z → install_record g b i sys = (g', o) → step g g'
| step_auto b sys g' o :
    (next_id (table g) < u32_MAX)%Z → install_record_auto_id g b sys = (g', o) → step g g'
| step_install b g' o :
    (next_id (table g) < u32_MAX)%Z → install g b = (g', o) → step g g'
| step_uninstall i g' o : uninstall g i = (g', o) → step g g'.

Definition reachable (g : Registry) : Prop := rtc step Registry_init g.

Record table_ok (t : AppTable) : Prop := {
  to_count : length (apps t) ≤ MAX_APPS;
  to_names : NoDup (app_name <$> apps t);
  to_ids : NoDup (id <$> apps t);
  to_below : Forall (λ r, (0 ≤ id r < next_id t)%Z) (apps t);
  to_next : (1 ≤ next_id t ≤ u32_MAX)%Z
}.

(** ** Lemmas *)

Lemma update_first_flatten {A} (p : option A → bool) (o : option A) l l' :
  update_first p (λ _, o) l = Some l' →
  ∃ i x, position p l = Some i ∧ l !! i = Some x ∧ p x = true ∧
    flatten [x] ++ flatten l' ≡ₚ flatten [o] ++ flatten l.
Proof.
  intros (i & x & Hp & Hx & ->)%update_first_Some.
  assert (p x = true) as Hpx.
  { apply position_Some in Hp as [(y & Hy & Hpy) _]. congruence. }
  destruct (flatten_insert l i x o Hx) as [E1 E2]. exists i, x. split_and!; try done.
  rewrite E2, E1. by rewrite !(Permutation_app_swap_app (flatten (take i l))),
    Permutation_app_swap_app.
Qed.

Lemma insert_spec t r t' :
  insert t r = Some t' →
  apps t' ≡ₚ r :: apps t ∧ next_id t' = next_id t ∧ length (apps t) < MAX_APPS.
Proof.
  unfold insert, apps. destruct (Nat.leb_spec MAX_APPS (length (flatten (slots t)))); [done|].
  destruct (update_first _ _ _) as [ss|] eqn:E; intros [= <-]; cbn [slots next_id].
  - apply update_first_flatten in E as (i & x & _ & _ & Hx & E).
    destruct x as [a|]; [done|]. simpl in E. done.
  - split; [|done]. rewrite flatten_app. simpl. by rewrite Permutation_app_comm.
Qed.

Lemma insert_total t r : length (apps t) < MAX_APPS → ∃ t', insert t r = Some t'.
Proof.
  intros H. unfold insert, apps in *. rewrite (proj2 (Nat.leb_gt _ _)) by done.
  destruct (update_first _ _ _); eauto.
Qed.

Lemma find_Some t i r : find t i = Some r → r ∈ apps t ∧ id r = i.
Proof. intros [H E]%find_first_Some. by apply Z.eqb_eq in E. Qed.

Lemma find_None t i : find t i = None ↔ i ∉ (id <$> apps t).
Proof.
  unfold find. rewrite find_first_None, list_elem_of_fmap. split.
  - intros H (r & -> & Hr). specialize (H r Hr). by rewrite Z.eqb_refl in H.
  - intros H r Hr. apply Z.eqb_neq. intros <-. apply H. eauto.
Qed.

(** With unique ids [find] is the record of that id. *)
Lemma find_unique t r : NoDup (id <$> apps t) → r ∈ apps t → find t (id r) = Some r.
Proof.
  intros Hnd Hr. destruct (find t (id r)) as [r'|] eqn:E.
  - apply find_Some in E as [Hr' E]. f_equal.
    apply list_elem_of_lookup in Hr as [i Hi], Hr' as [j Hj].
    assert (i = j) as ->; [|congruence].
    apply (NoDup_lookup (id <$> apps t)) with (id r); [done| |];
      rewrite list_lookup_fmap; [by rewrite Hi|]. rewrite Hj. simpl. by rewrite E.
  - apply find_None in E. exfalso. apply E, list_elem_of_fmap. eauto.
Qed.

Lemma find_by_name_None t nm : find_by_name t nm = None ↔ nm ∉ (app_name <$> apps t).
Proof.
  unfold find_by_name. rewrite find_first_None, list_elem_of_fmap. split.
  - intros H (r & -> & Hr). specialize (H r Hr). by rewrite bytes_eqb_refl in H.
  - intros H r Hr. apply bytes_eqb_neq. intros <-. apply H. eauto.
Qed.

Lemma remove_spec t i t' :
  remove t i = (t', true) →
  ∃ r, find t i = Some r ∧ apps t ≡ₚ r :: apps t' ∧ next_id t' = next_id t.
Proof.
  unfold remove, apps. destruct (update_first _ _ _) as [ss|] eqn:E; [|done]. intros [= <-].
  pose proof E as E0. apply update_first_flatten in E as (k & x & Hp & Hk & Hx & E).
  destruct x as [r|]; [|done]. exists r. cbn [slots next_id]. split_and!; [|by symmetry|done].
  unfold find. clear -Hp Hk Hx. revert k Hp Hk. induction (slots t) as [|o l IH]; intros k Hp Hk; [done|].
  simpl in Hp. destruct o as [a|]; simpl.
  - destruct (id a =? i)%Z; [injection Hp as <-; injection Hk as ->; done|].
    destruct (position _ l) as [j|]; [|done]. injection Hp as <-. by apply (IH j).
  - destruct (position _ l) as [j|]; [|done]. injection Hp as <-. by apply (IH j).
Qed.

Lemma remove_miss t i t' : remove t i = (t', false) → t' = t.
Proof. unfold remove. destruct (update_first _ _ _); [done|]. by intros [= <-]. Qed.

(** Adding a fresh record keeps the table well formed, with the counter
    advanced past the new id. *)
Lemma table_ok_add t r t' n :
  table_ok t → insert t r = Some t' → app_name r ∉ (app_name <$> apps t) →
  id r ∉ (id <$> apps t) → (0 ≤ id r < n)%Z → (next_id t ≤ n ≤ u32_MAX)%Z →
  table_ok (mkTable (slots t') n).
Proof.
  intros [H1 H2 H3 H4 H5] (Hp & Hn & Hl)%insert_spec Hnm Hid H0 Hlt.
  change (apps t') with (apps (mkTable (slots t') n)) in Hp.
  constructor; cbn [next_id]; try lia.
  - rewrite (Permutation_length Hp). simpl. lia.
  - rewrite Hp. by apply NoDup_cons.
  - rewrite Hp. by apply NoDup_cons.
  - rewrite Hp. constructor; [done|]. eapply Forall_impl; [exact H4|]. simpl. lia.
Qed.

Lemma counter_fresh t : table_ok t → find t (next_id t) = None.
Proof.
  intros [_ _ _ H4 _]. apply find_None. intros (r & E & Hr)%list_elem_of_fmap.
  rewrite Forall_forall in H4. specialize (H4 r Hr). lia.
Qed.

(** The first try of [allocate_id] succeeds: all ids are below the counter. *)
Lemma allocate_id_first t fuel :
  table_ok t → allocate_id (S fuel) t = Some (mkTable (slots t) (next_id32 (next_id t)), next_id t).
Proof.
  intros H. cbn [allocate_id]. change (find (mkTable _ _) _) with (find t (next_id t)).
  by rewrite counter_fresh.
Qed.

(** All records survive, or all but one that is not a system app. *)
Definition keeps_system (t t' : AppTable) : Prop :=
  ∀ r, r ∈ apps t → system r = true → r ∈ apps t'.

Lemma keeps_insert t r t' n : insert t r = Some t' → keeps_system t (mkTable (slots t') n).
Proof.
  intros (Hp & _ & _)%insert_spec x Hx _. change (x ∈ apps t'). rewrite Hp. by right.
Qed.

Lemma same_ok t : table_ok t → table_ok t ∧ keeps_system t t.
Proof. intros H. split; [done|]. by intros r. Qed.

Lemma record_ok g b i sys g' o :
  table_ok (table g) → (0 ≤ i < u32_MAX)%Z → install_record g b i sys = (g', o) →
  table_ok (table g') ∧ keeps_system (table g) (table g').
Proof.
  intros Ht Hi. unfold install_record. destruct (parse_header b) as [h|]; [|intros [= <- _]; by apply same_ok].
  destruct (find (table g) i) eqn:Ef; [intros [= <- _]; by apply same_ok|].
  destruct (find_by_name _ _) eqn:En; [intros [= <- _]; by apply same_ok|].
  destruct (insert _ _) as [t1|] eqn:E; [|intros [= <- _]; by apply same_ok].
  intros [= <- _]. cbn [table set_table]. apply find_None in Ef. apply find_by_name_None in En.
  pose proof (to_next _ Ht) as Hn. destruct (insert_spec _ _ _ E) as (_ & Hn1 & _). rewrite Hn1.
  destruct (Z.leb_spec (next_id (table g)) i).
  - split; [|by eapply keeps_insert]. eapply table_ok_add; try done; cbn [id record_of]; lia.
  - assert (t1 = mkTable (slots t1) (next_id (table g))) as -> by (destruct t1; simpl in *; by subst).
    split; [|by eapply keeps_insert]. eapply table_ok_add; try done; cbn [id record_of]; lia.
Qed.

Lemma next_id32_below n : (1 ≤ n < u32_MAX)%Z → (n < next_id32 n ≤ u32_MAX)%Z.
Proof. intros H. rewrite next_id32_succ by lia. lia. Qed.

(** Advancing the counter alone. *)
Lemma table_ok_next t n : table_ok t → (next_id t ≤ n ≤ u32_MAX)%Z → table_ok (mkTable (slots t) n).
Proof.
  intros [H1 H2 H3 H4 H5] Hn. constructor; try done; cbn [next_id]; [|lia].
  eapply Forall_impl; [exact H4|]. simpl. lia.
Qed.

Lemma fresh_insert_ok g h b sys t' :
  table_ok (table g) → (next_id (table g) < u32_MAX)%Z →
  find_by_name (table g) (nul_trim (h_name h)) = None →
  insert (mkTable (slots (table g)) (next_id32 (next_id (table g))))
         (record_of h b (next_id (table g)) sys) = Some t' →
  table_ok t' ∧ keeps_system (table g) t'.
Proof.
  intros Ht Hlt En%find_by_name_None E. pose proof (to_next _ Ht) as Hn.
  pose proof (next_id32_below (next_id (table g)) ltac:(lia)) as Hnx.
  destruct (insert_spec _ _ _ E) as (_ & Hn1 & _). cbn [next_id] in Hn1.
  assert (t' = mkTable (slots t') (next_id32 (next_id (table g)))) as ->
    by (destruct t'; simpl in *; by subst).
  split; [|by eapply (keeps_insert (mkTable _ _))].
  pose proof (proj1 (find_None _ _) (counter_fresh _ Ht)).
  eapply (table_ok_add (mkTable (slots (table g)) (next_id32 (next_id (table g))))); try done;
    [apply table_ok_next; [done|lia]|cbn [id record_of]; lia|cbn [next_id]; lia].
Qed.

Lemma step_ok g g' :
  table_ok (table g) → step g g' → table_ok (table g') ∧ keeps_system (table g) (table g').
Proof.
  intros Ht Hs. pose proof (to_next _ Ht) as Hn.
  destruct Hs as [b i sys g' o Hi E|b sys g' o Hlt E|b g' o Hlt E|i g' o E].
  - by eapply record_ok.
  - unfold install_record_auto_id in E. destruct (parse_header b) as [h|]; [|inv E; by apply same_ok].
    destruct (find_by_name _ _) eqn:En; [inv E; by apply same_ok|].
    unfold ALLOC_FUEL in E. rewrite allocate_id_first in E by done.
    destruct (insert _ _) as [t'|] eqn:Ei; inv E; [by eapply fresh_insert_ok|].
    split; [|by intros r]. pose proof (next_id32_below (next_id (table g)) ltac:(lia)).
    apply table_ok_next; [done|lia].
  - unfold install in E. destruct (parse_header b) as [h|]; [|inv E; by apply same_ok].
    destruct (find_by_name _ _) eqn:En; [inv E; by apply same_ok|].
    destruct (insert _ _) as [t'|] eqn:Ei; inv E; [by eapply fresh_insert_ok|].
    split; [|by intros r]. pose proof (next_id32_below (next_id (table g)) ltac:(lia)).
    apply table_ok_next; [done|lia].
  - unfold uninstall in E. case_if_in E; [inv E; by apply same_ok|].
    destruct (remove (table g) i) as [t' [|]] eqn:Er; inv E; cbn [table log_store set_table].
    + apply remove_spec in Er as (r & Hf & Hp & Hnx). destruct Ht as [H1 H2 H3 H4 H5].
      rewrite Hf in E0. rewrite Hp in H2, H3, H4. rewrite (Permutation_length Hp) in H1. simpl in H1.
      apply NoDup_cons in H2 as [_ H2]. apply NoDup_cons in H3 as [_ H3].
      apply Forall_cons_iff in H4 as [_ H4]. split; [constructor; rewrite ?Hnx; try done; lia|].
      intros x Hx Hsys. rewrite Hp in Hx. apply elem_of_cons in Hx as [->|]; [congruence|done].
    + apply remove_miss in Er as ->. split; [done|]. by intros x.
Qed.

Lemma init_ok : table_ok (table Registry_init).
Proof.
  constructor; unfold apps; simpl; try (constructor; fail); unfold MAX_APPS, u32_MAX; try lia; constructor.
Qed.

Lemma steps_ok g g' :
  table_ok (table g) → rtc step g g' → table_ok (table g') ∧ keeps_system (table g) (table g').
Proof.
  intros Ht Hs. revert Ht. induction Hs as [g|g g1 g2 Hstep _ IH]; intros Ht; [by apply same_ok|].
  destruct (step_ok g g1 Ht Hstep) as [Ht1 Hk1]. destruct (IH Ht1) as [Ht2 Hk2].
  split; [done|]. intros r Hr Hsys. by apply Hk2; [apply Hk1|].
Qed.

Lemma reachable_ok g : reachable g → table_ok (table g).
Proof. intros H. by apply (steps_ok Registry_init g init_ok). Qed.

(** C33: The tables of the registry stay consistent: in every registry that
    installs and uninstalls lead to, at most 64 apps are installed, no two share a
    name and no two share an id, and a system app, once installed, is found under
    its id after any further sequence of installs and uninstalls.  New ids are
    asked for while the counter is below its last value, and given ids are below
    that value too ([install_reuses_last_id] shows what happens there). *)
Theorem registry_consistent g g' :
  reachable g → rtc step g g' →
  length (apps (table g')) ≤ MAX_APPS ∧ NoDup (app_name <$> apps (table g')) ∧
  NoDup (id <$> apps (table g')) ∧
  ∀ r, r ∈ apps (table g) → system r = true → find (table g') (id r) = Some r.
Proof.
  intros Hg%reachable_ok Hs. destruct (steps_ok g g' Hg Hs) as [[H1 H2 H3 _ _] Hk].
  split_and!; try done. intros r Hr Hsys. apply find_unique; [done|]. by apply Hk.
Qed.

(** installing a bundle: with a valid header, a name not yet installed
    and a free place, [install] succeeds with a new id under which exactly the
    bundle's name, version, entry point, stack size (512 KiB for 0) and AOT
    bytes are found; all other apps keep their records and the bundle is
    persisted. *)
Theorem install_functional g b h :
  reachable g → (next_id (table g) < u32_MAX)%Z → parse_header b = Some h →
  find_by_name (table g) (nul_trim (h_name h)) = None → length (apps (table g)) < MAX_APPS →
  let '(g', o) := install g b in
  let i := next_id (table g) in
  o = Some i ∧ find (table g) i = None ∧ find (table g') i = Some (record_of h b i false) ∧
  (∀ j, j ≠ i → find (table g') j = find (table g) j) ∧
  store_log g' = store_log g ++ [Persist i b].
Proof.
  intros Hg%reachable_ok Hlt Hh Hn Hl. destruct (install g b) as [g' o] eqn:E.
  pose proof (step_ok g g' Hg (step_install g b g' o Hlt E)) as [Ht' _].
  unfold install in E. rewrite Hh, Hn in E.
  destruct (insert_total (mkTable (slots (table g)) (next_id32 (next_id (table g))))
              (record_of h b (next_id (table g)) false) Hl) as [t' Ei].
  rewrite Ei in E. inv E. cbn [table log_store set_table store_log] in *.
  apply insert_spec in Ei as (Hp & _ & _). change (apps (mkTable _ _)) with (apps (table g)) in Hp.
  split_and!; try done; [by apply counter_fresh| |].
  - apply (find_unique t' (record_of h b (next_id (table g)) false)); [apply Ht'|].
    rewrite Hp. left.
  - intros j Hj. destruct (find (table g) j) as [r|] eqn:Ef.
    + apply find_Some in Ef as [Hr <-]. apply find_unique; [apply Ht'|]. rewrite Hp. by right.
    + apply find_None. apply find_None in Ef. rewrite Hp. cbn [fmap list_fmap id record_of].
      rewrite not_elem_of_cons. done.
Qed.

(** ** [allocate_id] terminates *)

Lemma next_id32_iter n k :
  (1 ≤ n ≤ u32_MAX)%Z → Nat.iter k next_id32 n = ((n - 1 + Z.of_nat k) mod u32_MAX + 1)%Z.
Proof.
  intros Hn. induction k as [|k IH].
  - simpl. rewrite Z.mod_small by lia. lia.
  - rewrite Nat.iter_succ, IH. set (m := (n - 1 + Z.of_nat k)%Z).
    replace (n - 1 + Z.of_nat (S k))%Z with (m + 1)%Z by lia.
    pose proof (Z.mod_pos_bound m u32_MAX ltac:(unfold u32_MAX; lia)) as Hb.
    rewrite <- Z.add_mod_idemp_l by (unfold u32_MAX; lia).
    set (q := (m mod u32_MAX)%Z) in *. clearbody q. unfold next_id32, u32, wrap.
    destruct (decide (q + 1 = u32_MAX)%Z) as [E|E].
    + rewrite E, Z.mod_same by (unfold u32_MAX; lia). unfold u32_MAX. reflexivity.
    + rewrite !Z.mod_small; unfold u32_MAX in *; lia.
Qed.

Lemma next_ids_nodup n m :
  (1 ≤ n ≤ u32_MAX)%Z → (Z.of_nat m ≤ u32_MAX)%Z → NoDup ((λ k, Nat.iter k next_id32 n) <$> seq 0 m).
Proof.
  intros Hn Hm. apply NoDup_fmap_2_strong; [|apply NoDup_seq].
  intros i j Hi%elem_of_seq Hj%elem_of_seq E. rewrite !next_id32_iter in E by done.
  apply Z.add_cancel_r in E. pose proof (Z.div_mod (n - 1 + Z.of_nat i) u32_MAX ltac:(done)).
  pose proof (Z.div_mod (n - 1 + Z.of_nat j) u32_MAX ltac:(done)). unfold u32_MAX in *. nia.
Qed.

(** When the search runs out of fuel, every candidate it tried is taken. *)
Lemma allocate_id_tried fuel t :
  match allocate_id fuel t with
  | Some (_, i) => find t i = None
  | None => ∀ k, k < fuel → Nat.iter k next_id32 (next_id t) ∈ (id <$> apps t)
  end.
Proof.
  revert t. induction fuel as [|fuel IH]; intros t; cbn [allocate_id]; [intros; lia|].
  set (t1 := mkTable (slots t) (next_id32 (next_id t))).
  change (find t1 (next_id t)) with (find t (next_id t)).
  destruct (find t (next_id t)) as [r|] eqn:E; [|done].
  specialize (IH t1). destruct (allocate_id fuel t1) as [[t2 i]|]; [done|].
  intros [|k] Hk.
  - apply find_Some in E as [Hr <-]. apply list_elem_of_fmap. eauto.
  - specialize (IH k ltac:(lia)). by rewrite Nat.iter_succ_r.
Qed.

(** the id search terminates: with at most 64 apps installed, whatever
    their ids and wherever the counter stands, one of 65 consecutive
    candidates is free, and [allocate_id] returns an unused id. *)
Theorem allocate_id_terminates t :
  length (apps t) ≤ MAX_APPS → (1 ≤ next_id t ≤ u32_MAX)%Z →
  ∃ t' i, allocate_id ALLOC_FUEL t = Some (t', i) ∧ find t i = None.
Proof.
  intros Hl Hn. pose proof (allocate_id_tried ALLOC_FUEL t) as H.
  destruct (allocate_id ALLOC_FUEL t) as [[t' i]|]; [by eauto|]. exfalso.
  pose proof (next_ids_nodup (next_id t) ALLOC_FUEL Hn ltac:(unfold ALLOC_FUEL, u32_MAX; lia)) as Hnd.
  assert (((λ k, Nat.iter k next_id32 (next_id t)) <$> seq 0 ALLOC_FUEL) ⊆+ (id <$> apps t)) as Hsub.
  { apply NoDup_submseteq; [done|]. intros x (k & -> & Hk)%list_elem_of_fmap.
    apply elem_of_seq in Hk. apply H. lia. }
  apply submseteq_length in Hsub. rewrite !length_fmap, length_seq in Hsub.
  unfold ALLOC_FUEL, MAX_APPS in *. lia.
Qed.

(** ** Crash loops are bounded *)

Inductive rec_event :=
| EvExit (running_free pending_free : bool) (leader pid code : Z)
| EvDrain (pending_free : bool) (now : Z) (host : bool) (spawn : option Z).

Section recovery.
Context {PG : ProcessGroups} (g : Registry).

Definition rec_step (r : Recovery) (e : rec_event) : Recovery * option Z :=
  match e with
  | EvExit rf pf leader pid code => (note_thread_exit r rf pf leader pid code, None)
  | EvDrain pf now host spawn => drain_relaunches g r pf now host spawn
  end.

(** The apps relaunched by a run, in order. *)
Fixpoint rec_run (r : Recovery) (es : list rec_event) : list Z :=
  match es with
  | [] => []
  | e :: es' => let '(r1, o) := rec_step r e in option_list o ++ rec_run r1 es'
  end.

Definition drains_within (t0 t1 : Z) (e : rec_event) : Prop :=
  match e with EvDrain _ now _ _ => (t0 ≤ now ≤ t1)%Z | EvExit _ _ _ _ _ => True end.

Definition hist_key (a : Z) (s : Z * Z * Z) : bool := (s.1.1 =? a)%Z.
Definition hist (a : Z) (r : Recovery) : option (Z * Z * Z) := find_first (hist_key a) (HISTORY r).

Lemma find_first_update_same {A} (p : A → bool) f l l' x :
  update_first p f l = Some l' → find_first p l = Some x → p (f x) = true →
  find_first p l' = Some (f x).
Proof.
  revert l'. induction l as [|y l IH]; intros l'; simpl; [done|]. destruct (p y) eqn:E.
  - intros [= <-] [= ->] Hp. simpl. by rewrite Hp.
  - destruct (update_first p f l) as [m|]; [|done]. intros [= <-] Hx Hp. simpl. rewrite E. by apply IH.
Qed.

Lemma find_first_update_other {A} (p q : A → bool) f l l' :
  update_first p f l = Some l' → (∀ x, p x = true → q x = false ∧ q (f x) = false) →
  find_first q l' = find_first q l.
Proof.
  intros Hu Hq. revert l' Hu. induction l as [|y l IH]; intros l'; simpl; [done|].
  destruct (p y) eqn:E.
  - intros [= <-]. simpl. destruct (Hq y E) as [-> ->]. done.
  - destruct (update_first p f l) as [m|]; [|done]. intros [= <-]. simpl. by rewrite (IH m).
Qed.

Lemma find_first_update_new {A} (p q : A → bool) f l l' :
  update_first p f l = Some l' → find_first q l = None → (∀ x, q (f x) = true) →
  ∃ x, find_first q l' = Some (f x).
Proof.
  intros Hu Hn Hq. revert l' Hu Hn. induction l as [|y l IH]; intros l'; simpl; [done|].
  destruct (q y) eqn:Ey; [done|]. destruct (p y) eqn:E.
  - intros [= <-] _. exists y. simpl. by rewrite Hq.
  - destruct (update_first p f l) as [m|]; [|done]. intros [= <-] Hn. simpl. rewrite Ey. by apply IH.
Qed.

(** The backoff of one app leaves the entries of the others alone. *)
Lemma backoff_other h a b now h' go :
  a ≠ b → a ≠ 0%Z → backoff h b now = Some (h', go) →
  find_first (hist_key a) h' = find_first (hist_key a) h.
Proof.
  intros Hne Ha. unfold backoff. fold (hist_key b).
  assert (∀ f l l', update_first (hist_key b) f l = Some l' → (∀ x, (f x).1.1 = x.1.1 ∨ (f x).1.1 = b) →
    find_first (hist_key a) l' = find_first (hist_key a) l) as Hother.
  { intros f l l' Hu Hf. eapply find_first_update_other; [exact Hu|]. unfold hist_key.
    intros x Hx%Z.eqb_eq. split; apply Z.eqb_neq; [congruence|]. destruct (Hf x); congruence. }
  destruct (find_first (hist_key b) h) as [e|].
  - destruct (update_first _ _ h) as [h2|] eqn:E2; [|done].
    assert (find_first (hist_key a) h2 = find_first (hist_key a) h) as <-.
    { eapply Hother; [exact E2|]. intros x. cbv beta. case_if; auto. }
    destruct (find_first _ h2) as [[[k n] t]|]; [|done].
    case_if; [by intros [= <- _]|].
    destruct (update_first _ _ h2) as [h3|] eqn:E3; [|done]. intros [= <- _].
    eapply Hother; [exact E3|]. auto.
  - destruct (update_first _ _ h) as [h1|] eqn:E1; [|done].
    assert (find_first (hist_key a) h1 = find_first (hist_key a) h) as <-.
    { eapply find_first_update_other; [exact E1|]. unfold hist_key. intros x Hx%Z.eqb_eq.
      split; apply Z.eqb_neq; simpl; congruence. }
    destruct (update_first _ _ h1) as [h2|] eqn:E2; [|done].
    assert (find_first (hist_key a) h2 = find_first (hist_key a) h1) as <-.
    { eapply Hother; [exact E2|]. intros x. cbv beta. case_if; auto. }
    destruct (find_first _ h2) as [[[k n] t]|]; [|done].
    case_if; [by intros [= <- _]|].
    destruct (update_first _ _ h2) as [h3|] eqn:E3; [|done]. intros [= <- _].
    eapply Hother; [exact E3|]. auto.
Qed.

(** Inside its window an app's attempt count goes up by one per relaunch and
    never past the maximum. *)
Lemma backoff_known h a now h' go n t :
  find_first (hist_key a) h = Some (a, n, t) → (now - t ≤ RELAUNCH_WINDOW_NS)%Z →
  backoff h a now = Some (h', go) →
  go = (n <? MAX_RELAUNCHES)%Z ∧
  find_first (hist_key a) h' = Some (a, (if go then n + 1 else n)%Z, t).
Proof.
  intros Hf Hw. unfold backoff. fold (hist_key a). rewrite Hf.
  destruct (update_first _ _ h) as [h2|] eqn:E2; [|done].
  assert (find_first (hist_key a) h2 = Some (a, n, t)) as Hf2.
  { erewrite (find_first_update_same (hist_key a)); [|exact E2|exact Hf|]; simpl;
      rewrite (proj2 (Z.ltb_ge _ _)) by (unfold sat_sub, RELAUNCH_WINDOW_NS in *; lia);
      [done|apply Z.eqb_refl]. }
  rewrite Hf2. destruct (Z.leb_spec MAX_RELAUNCHES n).
  - intros [= <- <-]. rewrite (proj2 (Z.ltb_ge _ _)) by done. done.
  - destruct (update_first _ _ h2) as [h3|] eqn:E3; [|done]. intros [= <- <-].
    rewrite (proj2 (Z.ltb_lt _ _)) by done. split; [done|].
    erewrite find_first_update_same; [|exact E3|exact Hf2|]; [done|apply Z.eqb_refl].
Qed.

Lemma backoff_new h a now h' go :
  find_first (hist_key a) h = None → backoff h a now = Some (h', go) →
  go = true ∧ find_first (hist_key a) h' = Some (a, 1, now)%Z.
Proof.
  intros Hf. unfold backoff. fold (hist_key a). rewrite Hf.
  destruct (update_first _ _ h) as [h1|] eqn:E1; [|done].
  destruct (find_first_update_new _ (hist_key a) _ _ _ E1 Hf) as [x Hx].
  { intros _. apply Z.eqb_refl. }
  intros Hb. destruct (backoff_known h1 a now h' go 0 now Hx) as [-> ->]; [| |done].
  - unfold RELAUNCH_WINDOW_NS. lia.
  - unfold backoff. fold (hist_key a). by rewrite Hx.
Qed.

Lemma launch_history r a host spawn : HISTORY (launch g r a host spawn).1 = HISTORY r.
Proof.
  unfold launch. destruct (find _ _); [|done]. destruct host; [|done]. destruct spawn; [|done].
  cbn. unfold note_running. by destruct (update_first _ _ _).
Qed.

Lemma exit_history r rf pf leader pid code :
  HISTORY (note_thread_exit r rf pf leader pid code) = HISTORY r.
Proof.
  unfold note_thread_exit. destruct rf; [|done]. destruct (find_first _ _) as [[? app]|]; [|done].
  cbn [negb]. case_if; [by case_if|]. destruct pf; [|done]. cbn [negb].
  by destruct (update_first _ _ _).
Qed.

(** What a drain does to the history: nothing, or one backoff decision. *)
Lemma drain_history r pf now host spawn :
  let '(r', o) := drain_relaunches g r pf now host spawn in
  (HISTORY r' = HISTORY r ∧ o = None) ∨
  ∃ b go, b ≠ 0%Z ∧ backoff (HISTORY r) b now = Some (HISTORY r', go) ∧ o = if go then Some b else None.
Proof.
  unfold drain_relaunches. destruct pf; [|by left]. cbn [negb].
  destruct (find_first _ (PENDING r)) as [[b leader]|] eqn:Ef; [|by left].
  assert (b ≠ 0%Z) as Hb.
  { apply find_first_Some in Ef as [_ Ef]. simpl in Ef. by apply negb_true_iff, Z.eqb_neq in Ef. }
  set (r2 := kill_group _ _). set (r3 := if negb _ then _ else _).
  assert (HISTORY r3 = HISTORY r) as -> by (unfold r3; by case_if).
  destruct (backoff (HISTORY r) b now) as [[h [|]]|] eqn:E.
  - right. exists b, true. by rewrite launch_history.
  - right. exists b, false. done.
  - left. split; [|done]. unfold r3. by case_if.
Qed.

(** [k] relaunches of [a] are on record, all after [t0]. *)
Definition on_record (a t0 : Z) (r : Recovery) (k : Z) : Prop :=
  match hist a r with
  | None => k = 0%Z
  | Some (b, n, t) => b = a ∧ n = k ∧ (t0 ≤ t)%Z ∧ (0 ≤ k ≤ MAX_RELAUNCHES)%Z
  end.

Lemma on_record_bounds a t0 r k : on_record a t0 r k → (0 ≤ k ≤ MAX_RELAUNCHES)%Z.
Proof. unfold on_record. destruct (hist a r) as [[[b n] t]|]; unfold MAX_RELAUNCHES; lia. Qed.

Lemma step_on_record a t0 r k e :
  a ≠ 0%Z → on_record a t0 r k → drains_within t0 (t0 + RELAUNCH_WINDOW_NS) e →
  let '(r', o) := rec_step r e in
  on_record a t0 r' (k + Z.of_nat (countb (Z.eqb a) (option_list o))).
Proof.
  intros Ha HP He.
  assert (∀ r1, HISTORY r1 = HISTORY r → on_record a t0 r1 (k + Z.of_nat 0)) as Hsame.
  { intros r1 E. unfold on_record, hist. rewrite E, Z.add_0_r. exact HP. }
  destruct e as [rf pf leader pid code|pf now host spawn]; cbn [rec_step].
  { apply Hsame, exit_history. }
  pose proof (drain_history r pf now host spawn) as Hd.
  destruct (drain_relaunches g r pf now host spawn) as [r1 o].
  destruct Hd as [[E ->]|(b & go & Hb & E & ->)]; [by apply Hsame|].
  unfold on_record, hist in *. destruct (decide (a = b)) as [<-|Hne].
  - cbn [drains_within] in He. destruct (find_first (hist_key a) (HISTORY r)) as [[[b n] t]|] eqn:Eh.
    + destruct HP as (-> & -> & Ht & Hmax).
      destruct (backoff_known _ a now _ go k t Eh ltac:(lia) E) as [-> Ef]. rewrite Ef.
      destruct (Z.ltb_spec k MAX_RELAUNCHES); unfold countb; simpl; rewrite ?Z.eqb_refl; simpl; lia.
    + subst k. destruct (backoff_new _ _ _ _ _ Eh E) as [-> Ef]. rewrite Ef.
      unfold countb; simpl; rewrite Z.eqb_refl; simpl. unfold MAX_RELAUNCHES. lia.
  - rewrite (backoff_other _ _ _ _ _ _ Hne Ha E).
    assert (countb (Z.eqb a) (option_list (if go then Some b else None)) = 0) as ->.
    { destruct go; [|done]. unfold countb. simpl. by rewrite (proj2 (Z.eqb_neq a b)). }
    by rewrite Z.add_0_r.
Qed.

Lemma run_on_record a t0 es r k :
  a ≠ 0%Z → on_record a t0 r k → Forall (drains_within t0 (t0 + RELAUNCH_WINDOW_NS)) es →
  (k + Z.of_nat (countb (Z.eqb a) (rec_run r es)) ≤ MAX_RELAUNCHES)%Z.
Proof.
  intros Ha. revert r k. induction es as [|e es IH]; intros r k HP Hes.
  { cbn [rec_run]. apply on_record_bounds in HP. unfold countb. simpl. lia. }
  apply Forall_cons_iff in Hes as [He Hes]. cbn [rec_run].
  pose proof (step_on_record a t0 r k e Ha HP He) as Hs. destruct (rec_step r e) as [r1 o].
  specialize (IH r1 _ Hs Hes). rewrite countb_app. lia.
Qed.

(** a crash-looping app is not relaunched for ever: from a state with no
    relaunch on record for it, and for drains within one backoff window of 30
    seconds, with any exits and any other apps' crashes in between, it is
    relaunched at most three times. *)
Theorem relaunch_bounded r es a t0 :
  a ≠ 0%Z → hist a r = None → Forall (drains_within t0 (t0 + RELAUNCH_WINDOW_NS)) es →
  countb (Z.eqb a) (rec_run r es) ≤ 3.
Proof.
  intros Ha Hr Hes. pose proof (run_on_record a t0 es r 0 Ha) as H.
  unfold on_record in H. rewrite Hr in H. specialize (H eq_refl Hes). unfold MAX_RELAUNCHES in H. lia.
Qed.

End recovery.

(** ** The documented bundle layout *)

Definition build_bundle (nm ver : bytes) (entry stack : Z) (aot assets : bytes) : bytes :=
  MAGIC ++ le_bytes 4 1 ++ nm ++ ver ++ le_bytes 8 entry ++ le_bytes 8 stack
  ++ le_bytes 4 (Z.of_nat (length aot)) ++ le_bytes 4 0 ++ aot ++ assets.

(** a bundle in the documented layout parses to its fields, and the AOT
    snapshot is cut out exactly, whatever assets follow it. *)
Theorem bundle_layout_parses nm ver entry stack aot assets :
  length nm = 64 → length ver = 16 → is_u 64 entry → is_u 64 stack → is_u 32 (Z.of_nat (length aot)) →
  let b := build_bundle nm ver entry stack aot assets in
  let h := mkHeader nm ver entry stack (Z.of_nat (length aot)) in
  parse_header b = Some h ∧ aot_of b h = aot.
Proof.
  intros Hn Hv He Hs Ha b h. set (al := Z.of_nat (length aot)) in *.
  assert (length b = 112 + length aot + length assets) as Hb.
  { unfold b, build_bundle. rewrite !length_app, !le_bytes_length, Hn, Hv. simpl. lia. }
  assert (∀ x y z a c, b = x ++ y ++ z → length x = a → a + length y = c → slice b a c = y) as Hat.
  { intros x y z a c -> H1 H2. by apply slice_at. }
  set (p2 := MAGIC ++ le_bytes 4 1). set (p3 := p2 ++ nm). set (p4 := p3 ++ ver).
  set (p5 := p4 ++ le_bytes 8 entry). set (p6 := p5 ++ le_bytes 8 stack).
  set (p7 := p6 ++ le_bytes 4 al). set (p8 := p7 ++ le_bytes 4 0).
  assert (∀ x y z : bytes, (x ++ y) ++ z = x ++ y ++ z) as Hassoc by (intros; by rewrite app_assoc).
  assert (length p2 = 8) as L2 by done.
  assert (length p3 = 72) as L3 by (unfold p3; rewrite length_app; lia).
  assert (length p4 = 88) as L4 by (unfold p4; rewrite length_app; lia).
  assert (length p5 = 96) as L5 by (unfold p5; rewrite length_app, le_bytes_length; lia).
  assert (length p6 = 104) as L6 by (unfold p6; rewrite length_app, le_bytes_length; lia).
  assert (length p7 = 108) as L7 by (unfold p7; rewrite length_app, le_bytes_length; lia).
  assert (length p8 = 112) as L8 by (unfold p8; rewrite length_app, le_bytes_length; lia).
  assert (slice b 0 4 = MAGIC) as S0 by (by apply (Hat [] MAGIC (drop 4 b))).
  assert (slice b 4 8 = le_bytes 4 1) as S1 by (by apply (Hat MAGIC (le_bytes 4 1) (drop 8 b))).
  assert (slice b 8 72 = nm) as S2.
  { eapply (Hat p2 nm); [unfold p2; rewrite Hassoc; reflexivity|done|lia]. }
  assert (slice b 72 88 = ver) as S3.
  { eapply (Hat p3 ver); [unfold p3, p2; rewrite !Hassoc; reflexivity|done|lia]. }
  assert (slice b 88 96 = le_bytes 8 entry) as S4.
  { eapply (Hat p4 (le_bytes 8 entry)); [unfold p4, p3, p2; rewrite !Hassoc; reflexivity|done|].
    rewrite le_bytes_length. lia. }
  assert (slice b 96 104 = le_bytes 8 stack) as S5.
  { eapply (Hat p5 (le_bytes 8 stack)); [unfold p5, p4, p3, p2; rewrite !Hassoc; reflexivity|done|].
    rewrite le_bytes_length. lia. }
  assert (slice b 104 108 = le_bytes 4 al) as S6.
  { eapply (Hat p6 (le_bytes 4 al)); [unfold p6, p5, p4, p3, p2; rewrite !Hassoc; reflexivity|done|].
    rewrite le_bytes_length. lia. }
  assert (slice b 112 (112 + length aot) = aot) as S7.
  { eapply (Hat p8 aot assets); [unfold p8, p7, p6, p5, p4, p3, p2; rewrite !Hassoc; reflexivity|done|done]. }
  split.
  - unfold parse_header. rewrite (proj2 (Nat.ltb_ge _ _)) by (unfold HEADER_SIZE; lia).
    rewrite S0, S1, S2, S3, S4, S5, S6, !le_val_bytes. rewrite bytes_eqb_refl. cbn [negb].
    rewrite (Z.mod_small al), (Z.mod_small entry), (Z.mod_small stack) by done.
    change (1 mod 2 ^ (8 * Z.of_nat 4))%Z with 1%Z. cbn [Z.eqb Pos.eqb negb].
    rewrite (proj2 (Z.ltb_ge _ _)); [done|]. unfold HEADER_SIZE, al. lia.
  - unfold aot_of. cbn [h h_aot_len]. unfold al. by rewrite Nat2Z.id.
Qed.

(** [install] can hand out an id that is taken: once an app with the last
    id is hydrated from the store, the saturated counter stays on that id and
    the next [install] reuses it without looking, so that two apps share it. *)
Theorem install_reuses_last_id b1 b2 h1 h2 :
  parse_header b1 = Some h1 → parse_header b2 = Some h2 →
  nul_trim (h_name h1) ≠ nul_trim (h_name h2) →
  let g1 := (install_from_store Registry_init b1 u32_MAX).1 in
  let '(g2, o) := install g1 b2 in
  o = Some u32_MAX ∧ (id <$> apps (table g2)) = [u32_MAX; u32_MAX].
Proof.
  intros H1 H2 Hne g1.
  assert (g1 = mkReg (mkTable [Some (record_of h1 b1 u32_MAX false)] u32_MAX) []) as ->.
  { unfold g1, install_from_store, install_record. rewrite H1. reflexivity. }
  unfold install. rewrite H2. unfold find_by_name. cbn [table slots flatten find_first].
  change (app_name (record_of h1 b1 u32_MAX false)) with (nul_trim (h_name h1)).
  rewrite (proj2 (bytes_eqb_neq _ _) Hne). done.
Qed.

(** ** Witnesses *)

Definition pad_to (n : nat) (s : bytes) : bytes := s ++ replicate (n - length s) 0%Z.
Definition sample_bundle (nm : bytes) : bytes :=
  build_bundle (pad_to 64 nm) (pad_to 16 (str "1.0")) 0 0 (str "AOT") (str "assets").
Definition sample_header (nm : bytes) : BundleHeader :=
  mkHeader (pad_to 64 nm) (pad_to 16 (str "1.0")) 0 0 3.

Definition sample_reg : Registry := (install_record Registry_init (sample_bundle (str "Files")) 2 true).1.
Definition sample_app : AppRecord :=
  record_of (sample_header (str "Files")) (sample_bundle (str "Files")) 2 true.

Lemma registry_sample_reachable : reachable sample_reg.
Proof.
  apply rtc_once. eapply (step_record _ (sample_bundle (str "Files")) 2 true); [vm_compute; split; congruence|].
  apply surjective_pairing.
Qed.

Lemma registry_consistent_witness :
  let g' := (uninstall sample_reg 2).1 in find (table g') 2 = Some sample_app.
Proof.
  destruct (registry_consistent sample_reg (uninstall sample_reg 2).1 registry_sample_reachable) as (_ & _ & _ & H).
  - apply rtc_once. eapply (step_uninstall _ 2). apply surjective_pairing.
  - apply (H sample_app); [vm_compute; left|reflexivity].
Defined.

Lemma install_functional_witness :
  (install sample_reg (sample_bundle (str "Notes"))).2 = Some 3%Z.
Proof.
  pose proof (install_functional sample_reg (sample_bundle (str "Notes")) (sample_header (str "Notes"))
    registry_sample_reachable ltac:(vm_compute; reflexivity) ltac:(vm_compute; reflexivity)
    ltac:(vm_compute; reflexivity) ltac:(apply Nat.ltb_lt; vm_compute; reflexivity)) as H.
  destruct (install sample_reg (sample_bundle (str "Notes"))) as [g' o]. apply H.
Defined.

Lemma allocate_id_terminates_witness :
  ∃ t' i, allocate_id ALLOC_FUEL (table sample_reg) = Some (t', i) ∧ find (table sample_reg) i = None.
Proof.
  apply (allocate_id_terminates (table sample_reg)).
  - apply Nat.leb_le. vm_compute. reflexivity.
  - vm_compute. split; congruence.
Defined.

Lemma bundle_layout_parses_witness :
  parse_header (sample_bundle (str "Files")) = Some (sample_header (str "Files")).
Proof.
  apply (bundle_layout_parses (pad_to 64 (str "Files")) (pad_to 16 (str "1.0")) 0 0 (str "AOT") (str "assets"));
    [reflexivity|reflexivity|vm_compute; split; congruence..].
Defined.

Lemma install_reuses_last_id_witness :
  (install (install_from_store Registry_init (sample_bundle (str "A")) u32_MAX).1 (sample_bundle (str "B"))).2
  = Some u32_MAX.
Proof.
  pose proof (install_reuses_last_id (sample_bundle (str "A")) (sample_bundle (str "B"))
    (sample_header (str "A")) (sample_header (str "B")) ltac:(vm_compute; reflexivity)
    ltac:(vm_compute; reflexivity) ltac:(vm_compute; congruence)) as H. cbv zeta in H.
  destruct (install _ (sample_bundle (str "B"))) as [g2 o]. apply H.
Defined.

(** App 2 crashes four times in a row and is drained every second. *)
Definition sample_rec : Recovery := note_running (Recovery_init Wm.Core_init) 50 2.
Definition crash_loop : list rec_event :=
  mjoin (replicate 4 [EvExit true true 50 50 139; EvDrain true 1000000000 true (Some 50%Z)]).

Lemma relaunch_bounded_witness :
  @rec_run Wm.solo_groups sample_reg sample_rec crash_loop = [2; 2; 2]%Z ∧
  countb (Z.eqb 2) (@rec_run Wm.solo_groups sample_reg sample_rec crash_loop) ≤ 3.
Proof.
  split; [vm_compute; reflexivity|].
  apply (@relaunch_bounded Wm.solo_groups sample_reg sample_rec crash_loop 2 1000000000).
  - discriminate.
  - vm_compute. reflexivity.
  - repeat constructor; vm_compute; congruence.
Defined.

End AppRegistry.
