(* ===== verification/Process.v ===== *)
(** * The process table ([process/mod.rs], [security/mod.rs])

    Processes and threads share one table of 256 slots; the slot of a pid is
    the pid modulo 256.  Here are the table, pids, creation of processes and
    threads, exit, reaping, wake-ups, signals and time slices, on the page
    tables of [Paging], the address ranges of [VaAlloc], the loader of [Elf]
    and the crash recovery of [AppRegistry].

    The x86_64 build is modelled.  The memory of a process that the kernel
    writes through its active page tables is the log [user_stores]; the bytes
    of the trampoline and data pages every process gets are parameters, since
    they are machine code and libc tables.

    The results are [process_table_invariant] and [leader_walk_terminates], the
    instance [table_groups] of the interface [ProcessGroups] the window manager
    asks for, [exit_code_collected_once], and, as defects,
    [kill_zombie_frees_again] and [orphan_thread_takes_caps]. *)

From Stdlib Require Import ZArith Lia.
From stdpp Require Import base numbers strings option relations list.
From S2P Require Import Prelude FrameAlloc Paging VaAlloc Elf Wm AppRegistry.

Local Open Scope Z_scope.

Module Process.

Definition MAX_PROCS : nat := 256.
Definition USER_STACK_TOP : Z := 0x7FFFFFFF0000.
Definition USER_STACK_SIZE : Z := 4 * 1024 * 1024.
Definition SYSCALL_STACK_SIZE : Z := 64 * 1024.
Definition XSTATE_SIZE : nat := 4096.
Definition MAX_CPUS : nat := 64.

(** ** Capabilities *)
Definition CAP_NET : Z := Z.shiftl 1 2.
Definition ALL_CAPS : Z := 0x1ff.
Definition NO_CAPS : Z := 0.
(** [holder.contains(required)]. *)
Definition check (holder required : Z) : bool := Z.land holder required =? required.

Inductive ProcState := Dead | Running | Blocked | Zombie (code : Z).

#[global] Instance proc_state_eq : EqDecision ProcState.
Proof. solve_decision. Defined.

Definition is_zombie (s : ProcState) : bool := match s with Zombie _ => true | _ => false end.
Definition is_running (s : ProcState) : bool := match s with Running => true | _ => false end.
Definition is_dead (s : ProcState) : bool := match s with Dead => true | _ => false end.
Definition blocked_state (s : ProcState) : bool := match s with Blocked => true | _ => false end.

Record UserRegs := mkRegs {
  rip : Z; rsp : Z; rflags : Z; rax : Z; rbx : Z; rcx : Z; rdx : Z; rsi : Z; rdi : Z; rbp : Z;
  r8 : Z; r9 : Z; r10 : Z; r11 : Z; r12 : Z; r13 : Z; r14 : Z; r15 : Z
}.

Definition UserRegs_default : UserRegs := mkRegs 0 0 0 0 0 0 0 0 0 0 0 0 0 0 0 0 0 0.

(** The FXSAVE image of a fresh thread. *)
Definition XStateBuf_default : bytes :=
  <[25%nat := 0x1F]> (<[24%nat := 0x80]> (<[1%nat := 0x03]> (<[0%nat := 0x7F]> (replicate XSTATE_SIZE 0)))).

Record Process := mkProcess {
  pid : Z; pml4_phys : Z; regs : UserRegs; state : ProcState; exit_code : Z; caps : Z;
  syscall_stack_base : Z; syscall_stack_top : Z; xstate : bytes; is_thread : bool; parent_pid : Z;
  cpu_ticks : Z; slice_left : Z; pending_sigs : Z; sig_mask : Z; sig_handlers : list Z;
  fs_base : Z; errno_to_deliver : Z; preempted_by_timer : bool; user_stack_base : Z;
  user_stack_size : Z; current_cpu : option Z; is_preemptable : bool; home_cpu : Z
}.

Definition Process_empty : Process :=
  mkProcess 0 0 UserRegs_default Dead 0 NO_CAPS 0 0 (replicate XSTATE_SIZE 0) false 0 0 10 0 0
    (replicate 32 0) 0 0 false 0 0 None true 0.

#[global] Instance process_inhabited : Inhabited Process := populate Process_empty.

(** What a processor has of its own. *)
Record Cpu := mkCpu {
  current_pid : Z; fs_base_msr : Z; live_xstate : bytes; active_stack_top : Z; cpu_cr3 : Z;
  gprs_captured : bool; user_gprs : UserRegs
}.

(** The statics of the module and what they are used with. *)
Record Kernel := mkKernel {
  PTABLE : list Process; NEXT_PID : Z; PENDING_WAKES : list Z; mm : Paging.Mm;
  LIBS : VaAlloc.LibTable; RECOVERY : AppRegistry.Recovery; PENDING_INIT_PID : Z; CPU_COUNT : Z;
  NEXT_APP_CPU : Z; CPU_HAS_HOME_WORK : list bool; cpus : Z → Cpu; user_stores : list (Z * Z)
}.

(** ** Field updates *)
Definition set_state (p : Process) (x : ProcState) : Process :=
  mkProcess (pid p) (pml4_phys p) (regs p) x (exit_code p) (caps p) (syscall_stack_base p)
    (syscall_stack_top p) (xstate p) (is_thread p) (parent_pid p) (cpu_ticks p) (slice_left p)
    (pending_sigs p) (sig_mask p) (sig_handlers p) (fs_base p) (errno_to_deliver p)
    (preempted_by_timer p) (user_stack_base p) (user_stack_size p) (current_cpu p)
    (is_preemptable p) (home_cpu p).
Definition set_regs (p : Process) (x : UserRegs) : Process :=
  mkProcess (pid p) (pml4_phys p) x (state p) (exit_code p) (caps p) (syscall_stack_base p)
    (syscall_stack_top p) (xstate p) (is_thread p) (parent_pid p) (cpu_ticks p) (slice_left p)
    (pending_sigs p) (sig_mask p) (sig_handlers p) (fs_base p) (errno_to_deliver p)
    (preempted_by_timer p) (user_stack_base p) (user_stack_size p) (current_cpu p)
    (is_preemptable p) (home_cpu p).
Definition set_current_cpu (p : Process) (x : option Z) : Process :=
  mkProcess (pid p) (pml4_phys p) (regs p) (state p) (exit_code p) (caps p) (syscall_stack_base p)
    (syscall_stack_top p) (xstate p) (is_thread p) (parent_pid p) (cpu_ticks p) (slice_left p)
    (pending_sigs p) (sig_mask p) (sig_handlers p) (fs_base p) (errno_to_deliver p)
    (preempted_by_timer p) (user_stack_base p) (user_stack_size p) x (is_preemptable p)
    (home_cpu p).
Definition set_exit_code (p : Process) (x : Z) : Process :=
  mkProcess (pid p) (pml4_phys p) (regs p) (state p) x (caps p) (syscall_stack_base p)
    (syscall_stack_top p) (xstate p) (is_thread p) (parent_pid p) (cpu_ticks p) (slice_left p)
    (pending_sigs p) (sig_mask p) (sig_handlers p) (fs_base p) (errno_to_deliver p)
    (preempted_by_timer p) (user_stack_base p) (user_stack_size p) (current_cpu p)
    (is_preemptable p) (home_cpu p).
Definition set_xstate (p : Process) (x : bytes) : Process :=
  mkProcess (pid p) (pml4_phys p) (regs p) (state p) (exit_code p) (caps p) (syscall_stack_base p)
    (syscall_stack_top p) x (is_thread p) (parent_pid p) (cpu_ticks p) (slice_left p)
    (pending_sigs p) (sig_mask p) (sig_handlers p) (fs_base p) (errno_to_deliver p)
    (preempted_by_timer p) (user_stack_base p) (user_stack_size p) (current_cpu p)
    (is_preemptable p) (home_cpu p).
Definition set_parent_pid (p : Process) (x : Z) : Process :=
  mkProcess (pid p) (pml4_phys p) (regs p) (state p) (exit_code p) (caps p) (syscall_stack_base p)
    (syscall_stack_top p) (xstate p) (is_thread p) x (cpu_ticks p) (slice_left p) (pending_sigs p)
    (sig_mask p) (sig_handlers p) (fs_base p) (errno_to_deliver p) (preempted_by_timer p)
    (user_stack_base p) (user_stack_size p) (current_cpu p) (is_preemptable p) (home_cpu p).
Definition set_slice_left (p : Process) (x : Z) : Process :=
  mkProcess (pid p) (pml4_phys p) (regs p) (state p) (exit_code p) (caps p) (syscall_stack_base p)
    (syscall_stack_top p) (xstate p) (is_thread p) (parent_pid p) (cpu_ticks p) x (pending_sigs p)
    (sig_mask p) (sig_handlers p) (fs_base p) (errno_to_deliver p) (preempted_by_timer p)
    (user_stack_base p) (user_stack_size p) (current_cpu p) (is_preemptable p) (home_cpu p).
Definition set_cpu_ticks (p : Process) (x : Z) : Process :=
  mkProcess (pid p) (pml4_phys p) (regs p) (state p) (exit_code p) (caps p) (syscall_stack_base p)
    (syscall_stack_top p) (xstate p) (is_thread p) (parent_pid p) x (slice_left p)
    (pending_sigs p) (sig_mask p) (sig_handlers p) (fs_base p) (errno_to_deliver p)
    (preempted_by_timer p) (user_stack_base p) (user_stack_size p) (current_cpu p)
    (is_preemptable p) (home_cpu p).
Definition set_pending_sigs (p : Process) (x : Z) : Process :=
  mkProcess (pid p) (pml4_phys p) (regs p) (state p) (exit_code p) (caps p) (syscall_stack_base p)
    (syscall_stack_top p) (xstate p) (is_thread p) (parent_pid p) (cpu_ticks p) (slice_left p) x
    (sig_mask p) (sig_handlers p) (fs_base p) (errno_to_deliver p) (preempted_by_timer p)
    (user_stack_base p) (user_stack_size p) (current_cpu p) (is_preemptable p) (home_cpu p).
Definition set_sig_mask (p : Process) (x : Z) : Process :=
  mkProcess (pid p) (pml4_phys p) (regs p) (state p) (exit_code p) (caps p) (syscall_stack_base p)
    (syscall_stack_top p) (xstate p) (is_thread p) (parent_pid p) (cpu_ticks p) (slice_left p)
    (pending_sigs p) x (sig_handlers p) (fs_base p) (errno_to_deliver p) (preempted_by_timer p)
    (user_stack_base p) (user_stack_size p) (current_cpu p) (is_preemptable p) (home_cpu p).
Definition set_sig_handlers (p : Process) (x : list Z) : Process :=
  mkProcess (pid p) (pml4_phys p) (regs p) (state p) (exit_code p) (caps p) (syscall_stack_base p)
    (syscall_stack_top p) (xstate p) (is_thread p) (parent_pid p) (cpu_ticks p) (slice_left p)
    (pending_sigs p) (sig_mask p) x (fs_base p) (errno_to_deliver p) (preempted_by_timer p)
    (user_stack_base p) (user_stack_size p) (current_cpu p) (is_preemptable p) (home_cpu p).
Definition set_fs_base (p : Process) (x : Z) : Process :=
  mkProcess (pid p) (pml4_phys p) (regs p) (state p) (exit_code p) (caps p) (syscall_stack_base p)
    (syscall_stack_top p) (xstate p) (is_thread p) (parent_pid p) (cpu_ticks p) (slice_left p)
    (pending_sigs p) (sig_mask p) (sig_handlers p) x (errno_to_deliver p) (preempted_by_timer p)
    (user_stack_base p) (user_stack_size p) (current_cpu p) (is_preemptable p) (home_cpu p).
Definition set_errno_to_deliver (p : Process) (x : Z) : Process :=
  mkProcess (pid p) (pml4_phys p) (regs p) (state p) (exit_code p) (caps p) (syscall_stack_base p)
    (syscall_stack_top p) (xstate p) (is_thread p) (parent_pid p) (cpu_ticks p) (slice_left p)
    (pending_sigs p) (sig_mask p) (sig_handlers p) (fs_base p) x (preempted_by_timer p)
    (user_stack_base p) (user_stack_size p) (current_cpu p) (is_preemptable p) (home_cpu p).
Definition set_preempted_by_timer (p : Process) (x : bool) : Process :=
  mkProcess (pid p) (pml4_phys p) (regs p) (state p) (exit_code p) (caps p) (syscall_stack_base p)
    (syscall_stack_top p) (xstate p) (is_thread p) (parent_pid p) (cpu_ticks p) (slice_left p)
    (pending_sigs p) (sig_mask p) (sig_handlers p) (fs_base p) (errno_to_deliver p) x
    (user_stack_base p) (user_stack_size p) (current_cpu p) (is_preemptable p) (home_cpu p).
Definition set_is_preemptable (p : Process) (x : bool) : Process :=
  mkProcess (pid p) (pml4_phys p) (regs p) (state p) (exit_code p) (caps p) (syscall_stack_base p)
    (syscall_stack_top p) (xstate p) (is_thread p) (parent_pid p) (cpu_ticks p) (slice_left p)
    (pending_sigs p) (sig_mask p) (sig_handlers p) (fs_base p) (errno_to_deliver p)
    (preempted_by_timer p) (user_stack_base p) (user_stack_size p) (current_cpu p) x (home_cpu p).

Definition with_PTABLE (k : Kernel) (x : list Process) : Kernel :=
  mkKernel x (NEXT_PID k) (PENDING_WAKES k) (mm k) (LIBS k) (RECOVERY k) (PENDING_INIT_PID k)
    (CPU_COUNT k) (NEXT_APP_CPU k) (CPU_HAS_HOME_WORK k) (cpus k) (user_stores k).
Definition with_NEXT_PID (k : Kernel) (x : Z) : Kernel :=
  mkKernel (PTABLE k) x (PENDING_WAKES k) (mm k) (LIBS k) (RECOVERY k) (PENDING_INIT_PID k)
    (CPU_COUNT k) (NEXT_APP_CPU k) (CPU_HAS_HOME_WORK k) (cpus k) (user_stores k).
Definition with_PENDING_WAKES (k : Kernel) (x : list Z) : Kernel :=
  mkKernel (PTABLE k) (NEXT_PID k) x (mm k) (LIBS k) (RECOVERY k) (PENDING_INIT_PID k)
    (CPU_COUNT k) (NEXT_APP_CPU k) (CPU_HAS_HOME_WORK k) (cpus k) (user_stores k).
Definition with_mm (k : Kernel) (x : Paging.Mm) : Kernel :=
  mkKernel (PTABLE k) (NEXT_PID k) (PENDING_WAKES k) x (LIBS k) (RECOVERY k) (PENDING_INIT_PID k)
    (CPU_COUNT k) (NEXT_APP_CPU k) (CPU_HAS_HOME_WORK k) (cpus k) (user_stores k).
Definition with_LIBS (k : Kernel) (x : VaAlloc.LibTable) : Kernel :=
  mkKernel (PTABLE k) (NEXT_PID k) (PENDING_WAKES k) (mm k) x (RECOVERY k) (PENDING_INIT_PID k)
    (CPU_COUNT k) (NEXT_APP_CPU k) (CPU_HAS_HOME_WORK k) (cpus k) (user_stores k).
Definition with_RECOVERY (k : Kernel) (x : AppRegistry.Recovery) : Kernel :=
  mkKernel (PTABLE k) (NEXT_PID k) (PENDING_WAKES k) (mm k) (LIBS k) x (PENDING_INIT_PID k)
    (CPU_COUNT k) (NEXT_APP_CPU k) (CPU_HAS_HOME_WORK k) (cpus k) (user_stores k).
Definition with_PENDING_INIT_PID (k : Kernel) (x : Z) : Kernel :=
  mkKernel (PTABLE k) (NEXT_PID k) (PENDING_WAKES k) (mm k) (LIBS k) (RECOVERY k) x (CPU_COUNT k)
    (NEXT_APP_CPU k) (CPU_HAS_HOME_WORK k) (cpus k) (user_stores k).
Definition with_NEXT_APP_CPU (k : Kernel) (x : Z) : Kernel :=
  mkKernel (PTABLE k) (NEXT_PID k) (PENDING_WAKES k) (mm k) (LIBS k) (RECOVERY k)
    (PENDING_INIT_PID k) (CPU_COUNT k) x (CPU_HAS_HOME_WORK k) (cpus k) (user_stores k).
Definition with_CPU_HAS_HOME_WORK (k : Kernel) (x : list bool) : Kernel :=
  mkKernel (PTABLE k) (NEXT_PID k) (PENDING_WAKES k) (mm k) (LIBS k) (RECOVERY k)
    (PENDING_INIT_PID k) (CPU_COUNT k) (NEXT_APP_CPU k) x (cpus k) (user_stores k).
Definition with_cpus (k : Kernel) (x : Z → Cpu) : Kernel :=
  mkKernel (PTABLE k) (NEXT_PID k) (PENDING_WAKES k) (mm k) (LIBS k) (RECOVERY k)
    (PENDING_INIT_PID k) (CPU_COUNT k) (NEXT_APP_CPU k) (CPU_HAS_HOME_WORK k) x (user_stores k).
Definition with_user_stores (k : Kernel) (x : list (Z * Z)) : Kernel :=
  mkKernel (PTABLE k) (NEXT_PID k) (PENDING_WAKES k) (mm k) (LIBS k) (RECOVERY k)
    (PENDING_INIT_PID k) (CPU_COUNT k) (NEXT_APP_CPU k) (CPU_HAS_HOME_WORK k) (cpus k) x.

Definition clear_stack (p : Process) : Process :=
  mkProcess (pid p) (pml4_phys p) (regs p) (state p) (exit_code p) (caps p) 0 0 (xstate p)
    (is_thread p) (parent_pid p) (cpu_ticks p) (slice_left p) (pending_sigs p) (sig_mask p)
    (sig_handlers p) (fs_base p) (errno_to_deliver p) (preempted_by_timer p) (user_stack_base p)
    (user_stack_size p) (current_cpu p) (is_preemptable p) (home_cpu p).

Definition set_cpu (k : Kernel) (c : Z) (x : Cpu) : Kernel :=
  with_cpus k (λ c', if c' =? c then x else cpus k c').

(** ** The table *)

Definition idx_of (pid : Z) : nat := Z.to_nat (pid mod Z.of_nat MAX_PROCS).

(** [PTABLE[idx_of(pid)]], whatever process is there. *)
Definition slot (pt : list Process) (pid : Z) : Process := pt !!! idx_of pid.
Definition put (pt : list Process) (pid : Z) (p : Process) : list Process := <[idx_of pid := p]> pt.

(** [if p.pid == pid { p = f(p) }]. *)
Definition modify (k : Kernel) (i : Z) (f : Process → Process) : Kernel :=
  let p := slot (PTABLE k) i in
  if pid p =? i then with_PTABLE k (put (PTABLE k) i (f p)) else k.

(** [if p.pid == pid { f(p) } else { d }]. *)
Definition query {A} (k : Kernel) (i : Z) (f : Process → A) (d : A) : A :=
  let p := slot (PTABLE k) i in if pid p =? i then f p else d.

Definition set_proc_fs_base (k : Kernel) (i fs : Z) : Kernel := modify k i (λ p, set_fs_base p fs).
Definition get_proc_fs_base (k : Kernel) (i : Z) : Z := query k i fs_base 0.
Definition get_user_stack_bounds (k : Kernel) (i : Z) : Z * Z :=
  query k i (λ p, (user_stack_base p, user_stack_size p)) (0, 0).
Definition is_thread_pid (k : Kernel) (i : Z) : bool := query k i is_thread false.
Definition set_preemptable (k : Kernel) (lock_free : bool) (i : Z) (value : bool) : Kernel :=
  if lock_free then modify k i (λ p, set_is_preemptable p value) else k.

(** The walk to the leader of a thread group.  [None]: not ended in [fuel]
    rounds; [leader_walk_terminates]: two are enough in every reachable state. *)
Fixpoint leader_loop (fuel : nat) (pt : list Process) (curr : Z) : option Z :=
  match fuel with
  | O => None
  | S fuel' =>
      let p := slot pt curr in
      if (pid p =? curr) && is_thread p && negb (parent_pid p =? 0)
      then leader_loop fuel' pt (parent_pid p) else Some curr
  end.

Definition get_group_leader_locked (pt : list Process) (i : Z) : Z :=
  default i (leader_loop MAX_PROCS pt i).

(** ** Wake-ups *)

(** The set bits of one word of [PENDING_WAKES], lowest first; the flag tells
    whether other processors have to be interrupted. *)
Fixpoint wake_bits (pt : list Process) (active_mask : Z) (base : nat) (bits : list nat)
    : list Process * bool :=
  match bits with
  | [] => (pt, false)
  | bit :: bits' =>
      let idx := (base + bit)%nat in
      let p := pt !!! idx in
      if Z.testbit active_mask (Z.of_nat bit) && negb (pid p =? 0) && blocked_state (state p)
      then let '(pt', _) := wake_bits (<[idx := set_state p Running]> pt) active_mask base bits' in
           (pt', true)
      else wake_bits pt active_mask base bits'
  end.

Fixpoint wake_words (pt : list Process) (words : list Z) (base : nat) : list Process * bool :=
  match words with
  | [] => (pt, false)
  | w :: words' =>
      let '(pt1, b1) := wake_bits pt w base (seq 0 32) in
      let '(pt2, b2) := wake_words pt1 words' (base + 32) in (pt2, b1 || b2)
  end.

(** The second component: [broadcast_resched_ipi]. *)
Definition handle_pending_wakes_try (k : Kernel) (lock_free : bool) : Kernel * bool :=
  if forallb (Z.eqb 0) (PENDING_WAKES k) then (k, false)
  else if negb lock_free then (k, false)
  else
    let '(pt, ipi) := wake_words (PTABLE k) (PENDING_WAKES k) 0 in
    (with_PENDING_WAKES (with_PTABLE k pt) (replicate 8 0), ipi).

Definition wake_process (k : Kernel) (lock_free : bool) (i : Z) : Kernel * bool :=
  let word := (idx_of i / 32)%nat in
  let bit := Z.of_nat (idx_of i mod 32) in
  let k1 := with_PENDING_WAKES k
              (alter (λ w, Z.lor w (Z.shiftl 1 bit)) word (PENDING_WAKES k)) in
  handle_pending_wakes_try k1 lock_free.

(** ** Pids and kernel stacks *)

Fixpoint alloc_pid_loop (n : nat) (k : Kernel) : Kernel * option Z :=
  match n with
  | O => (k, None)
  | S n' =>
      let i := NEXT_PID k in
      let k1 := with_NEXT_PID k (u32 (i + 1)) in
      if is_dead (state (slot (PTABLE k) i)) then (k1, Some i) else alloc_pid_loop n' k1
  end.

Definition alloc_pid (k : Kernel) : Kernel * option Z := alloc_pid_loop MAX_PROCS k.

Definition STACK_FRAMES : Z := (SYSCALL_STACK_SIZE + 4095) / 4096.

(** The base and the top. *)
Definition alloc_syscall_stack (k : Kernel) : Kernel * option (Z * Z) :=
  let '(f, o) := FrameAlloc.alloc_contiguous (Paging.frames (mm k)) STACK_FRAMES in
  let k1 := with_mm k (Paging.set_frames (mm k) f) in
  match o with
  | None => (k1, None)
  | Some phys =>
      let base := phys + FrameAlloc.hhdm f in
      (k1, Some (base, base + STACK_FRAMES * 4096))
  end.

Definition free_syscall_stack (s : Paging.Mm) (ptr : Z) : Paging.Mm :=
  if ptr =? 0 then s
  else
    let hhdm := FrameAlloc.hhdm (Paging.frames s) in
    if ptr <? hhdm then s
    else fold_left (λ s' i, Paging.free_frame s' (ptr - hhdm + Z.of_nat i * 4096))
           (seq 0 (Z.to_nat STACK_FRAMES)) s.

(** ** Creating processes *)

(** A call that can panic or fail, on the kernel state. *)
Definition rbind {A B} (m : outcome (Kernel * result A)) (f : Kernel → A → outcome (Kernel * result B))
    : outcome (Kernel * result B) :=
  let! r := m in
  match r with
  | (k, Ok a) => f k a
  | (k, Err e) => Val (k, Err e)
  end.
Notation "'let?' k ',' x ':=' m 'in' b" := (rbind m (λ k x, b))
  (at level 10, k name, x pattern, m at level 100, b at level 200) : rust_scope.

(** [o.ok_or(e)?]. *)
Definition ok_or {A} (r : Kernel * option A) (e : string) : outcome (Kernel * result A) :=
  match r with
  | (k, Some a) => Val (k, Ok a)
  | (k, None) => Val (k, Err e)
  end.

(** Calls on the memory component of the kernel. *)
Definition on_mm {A} (k : Kernel) (m : outcome (Paging.Mm * result A)) : outcome (Kernel * result A) :=
  let! r := m in Val (with_mm k r.1, r.2).

Definition mm_ok_or {A} (k : Kernel) (m : outcome (Paging.Mm * option A)) (e : string)
    : outcome (Kernel * result A) :=
  let! r := m in ok_or (with_mm k r.1, r.2) e.

Definition map_stack_page (pml4_phys stack_bottom : Z) (i : nat) (s : Paging.Mm)
    : outcome (Paging.Mm * result unit) :=
  let virt := stack_bottom + Z.of_nat i * 4096 in
  match Paging.alloc_frame s with
  | (s1, None) => Val (s1, Err "OOM: stack")
  | (s1, Some phys) => Paging.map_user_page (Paging.zero_page s1 phys) pml4_phys virt phys
  end.

Definition TRAMPOLINE_PAGES_VA : Z := 0x7FFFE000.
Definition SYSDATA_VA : Z := 0x7FFFC000.

(** A page of the frame at [phys] filled with [bs]. *)
Definition fill_page (s : Paging.Mm) (phys : Z) (bs : bytes) : Paging.Mm :=
  Paging.mkMm
    (λ a, if (phys <=? a) && (a <? phys + 4096) then bs !!! Z.to_nat (a - phys) else Paging.mem s a)
    (Paging.frames s) (Paging.cr3 s) (Paging.flushed s).

(** The 4096 bytes of the two trampoline pages and of the data page, and the
    address of the stub a thread function returns to. *)
Section system.
Context (stub_page0 stub_page1 sysdata : bytes) (thread_return_trampoline_va : Z).

Definition map_trampoline_pages (s : Paging.Mm) (pml4_phys : Z) : outcome (Paging.Mm * result unit) :=
  match Paging.alloc_frame s with
  | (s1, None) => Val (s1, Err "OOM: trampoline page 0")
  | (s1, Some phys0) =>
      match Paging.alloc_frame s1 with
      | (s2, None) => Val (s2, Err "OOM: trampoline page 1")
      | (s2, Some phys1) =>
          let s3 := fill_page (fill_page s2 phys0 stub_page0) phys1 stub_page1 in
          let! r := Paging.map_user_page_with_flags s3 pml4_phys TRAMPOLINE_PAGES_VA phys0 false true in
          match r with
          | (s4, Err e) => Val (s4, Err e)
          | (s4, Ok _) =>
              Paging.map_user_page_with_flags s4 pml4_phys (TRAMPOLINE_PAGES_VA + 0x1000) phys1
                false true
          end
      end
  end.

Definition map_sysdata_page (s : Paging.Mm) (pml4_phys : Z) : outcome (Paging.Mm * result unit) :=
  match Paging.alloc_frame s with
  | (s1, None) => Val (s1, Err "OOM: sysdata page")
  | (s1, Some phys) =>
      Paging.map_user_page_with_flags (fill_page s1 phys sysdata) pml4_phys SYSDATA_VA phys true false
  end.

Definition map_system_pages (s : Paging.Mm) (pml4_phys : Z) : outcome (Paging.Mm * result unit) :=
  let! r := map_trampoline_pages s pml4_phys in
  match r with
  | (s1, Err e) => Val (s1, Err e)
  | (s1, Ok _) => map_sysdata_page s1 pml4_phys
  end.

Record SpawnBootstrap := mkBootstrap { b_rdi : Z; b_rsi : Z; b_rdx : Z; b_parent_pid : Z }.

Definition HOST_MODE_SHELL : Z := 1.

Definition pick_home_cpu_for_app (k : Kernel) : Kernel * Z :=
  let n := CPU_COUNT k in
  if n <=? 1 then (k, 0)
  else (with_NEXT_APP_CPU k (u32 (NEXT_APP_CPU k + 1)), 1 + NEXT_APP_CPU k mod (n - 1)).

Definition mark_cpu_has_work (k : Kernel) (cpu : Z) : Kernel :=
  if cpu <? Z.of_nat MAX_CPUS
  then with_CPU_HAS_HOME_WORK k (<[Z.to_nat cpu := true]> (CPU_HAS_HOME_WORK k)) else k.

(** The registers and the table entry of a new process; [is_preemptable] keeps
    what the slot had. *)
Definition publish_process (k : Kernel) (i pml4 entry sys_base sys_top : Z) (b : SpawnBootstrap)
    : Kernel :=
  let new_regs := mkRegs entry (USER_STACK_TOP - 8) 0x0202 0 0 0 (b_rdx b) (b_rsi b) (b_rdi b) 0
                    0 0 0 0 0 0 0 0 in
  let new_caps := if b_rdi b =? HOST_MODE_SHELL then ALL_CAPS else CAP_NET in
  let '(k1, home) :=
    if b_rdi b =? AppRegistry.HOST_MODE_APP then pick_home_cpu_for_app k else (k, 0) in
  let k2 := if negb (home =? 0) then mark_cpu_has_work k1 home else k1 in
  let old := slot (PTABLE k) i in
  with_PTABLE k2 (put (PTABLE k2) i
    (mkProcess i pml4 new_regs Running 0 new_caps sys_base sys_top XStateBuf_default false
       (b_parent_pid b) 0 10 0 0 (replicate 32 0) 0 0 false (USER_STACK_TOP - USER_STACK_SIZE)
       USER_STACK_SIZE None (is_preemptable old) home)).

(** The rest of the call once the pid [i] is chosen. *)
Definition spawn_as (k : Kernel) (i : Z) (elf_bytes : bytes) (b : SpawnBootstrap)
    : outcome (Kernel * result Z) :=
  let? k, (sys_base, sys_top) := ok_or (alloc_syscall_stack k) "OOM: syscall stack" in
  let? k, pml4 := mm_ok_or k (Paging.alloc_user_pml4 (mm k)) "OOM: pml4" in
  let? k, entry := on_mm k (Elf.load (mm k) elf_bytes pml4) in
  let? k, _ := on_mm k (try_range 0 (Z.to_nat (USER_STACK_SIZE / 4096))
                 (map_stack_page pml4 (USER_STACK_TOP - USER_STACK_SIZE)) (mm k)) in
  let? k, _ := on_mm k (map_system_pages (mm k) pml4) in
  Val (publish_process k i pml4 entry sys_base sys_top b, Ok i).

Definition spawn_with_bootstrap (k : Kernel) (elf_bytes : bytes) (b : SpawnBootstrap)
    : outcome (Kernel * result Z) :=
  let? k, i := ok_or (alloc_pid k) "process table full" in spawn_as k i elf_bytes b.

Definition spawn (k : Kernel) (elf_bytes : bytes) : outcome (Kernel * result Z) :=
  spawn_with_bootstrap k elf_bytes (mkBootstrap 0 0 0 0).

Definition set_bootstrap_regs (k : Kernel) (i vdi vsi vdx : Z) : Kernel :=
  modify k i (λ p, let r := regs p in
    set_regs p (mkRegs (rip r) (rsp r) (rflags r) (rax r) (rbx r) (rcx r) vdx vsi vdi (rbp r)
                  (r8 r) (r9 r) (r10 r) (r11 r) (r12 r) (r13 r) (r14 r) (r15 r))).

(** ** Creating threads *)

(** The entry of a thread: fields the source does not assign keep what the
    slot had. *)
Definition publish_thread (k : Kernel) (tid pml4 home owner : Z) (rg : UserRegs)
    (sys_base sys_top tls stack_va stack_size : Z) : Kernel :=
  let old := slot (PTABLE k) tid in
  let owner_caps := caps (slot (PTABLE k) owner) in
  with_PTABLE k (put (PTABLE k) tid
    (mkProcess tid pml4 rg Running 0 owner_caps sys_base sys_top XStateBuf_default true owner
       (cpu_ticks old) (slice_left old) (pending_sigs old) (sig_mask old) (sig_handlers old) tls
       (errno_to_deliver old) (preempted_by_timer old) stack_va stack_size None
       (is_preemptable old) home)).

Definition user_store (k : Kernel) (va v : Z) : Kernel :=
  with_user_stores k ((va, v) :: user_stores k).

(** [dl::mmap_anon(parent_pid, pml4, 0, pages, RW)]; on failure the kernel stack
    is given back. *)
Definition thread_mmap (k : Kernel) (pml4 pages sys_base : Z) (e : string)
    : outcome (Kernel * result Z) :=
  let '(t, va) := VaAlloc.mmap_anon (mm k) (LIBS k) pml4 0 pages in
  let k1 := with_LIBS k t in
  if va =? u64_MAX then Val (with_mm k1 (free_syscall_stack (mm k1) sys_base), Err e)
  else Val (k1, Ok va).

Definition spawn_thread_as (k : Kernel) (tid pml4 home owner entry_fn arg stack_size : Z)
    : outcome (Kernel * result Z) :=
  let? k, (sys_base, sys_top) := ok_or (alloc_syscall_stack k) "OOM: syscall stack" in
  let? k, stack_va := thread_mmap k pml4 (u64 (stack_size + 4095) / 4096) sys_base
                        "OOM: thread stack" in
  let stack_top := u64 (stack_va + stack_size) in
  let k := user_store k (u64 (stack_top - 8)) thread_return_trampoline_va in
  let rg := mkRegs entry_fn (u64 (stack_top - 8)) 0x0202 0 0 0 0 0 arg 0 0 0 0 0 0 0 0 0 in
  let? k, tls := thread_mmap k pml4 1 sys_base "OOM: thread TLS" in
  let k := user_store k tls tls in
  Val (publish_thread k tid pml4 home owner rg sys_base sys_top tls stack_va stack_size, Ok tid).

Definition spawn_thread (k : Kernel) (parent entry_fn arg stack_size : Z)
    : outcome (Kernel * result Z) :=
  let p := slot (PTABLE k) parent in
  if negb (pid p =? parent) || is_dead (state p) then Val (k, Err "parent not found")
  else
    let pml4 := pml4_phys p in
    let owner := get_group_leader_locked (PTABLE k) parent in
    let home := home_cpu p in
    let? k, tid := ok_or (alloc_pid k) "process table full" in
    spawn_thread_as k tid pml4 home owner entry_fn arg stack_size.
End system.

(** The first call of a system call copies the registers the entry stub saved. *)
Definition save_full_user_gprs (k : Kernel) (c i : Z) : Kernel :=
  let cpu := cpus k c in
  if gprs_captured cpu then k
  else
    let k1 := set_cpu k c (mkCpu (current_pid cpu) (fs_base_msr cpu) (live_xstate cpu)
                (active_stack_top cpu) (cpu_cr3 cpu) true (user_gprs cpu)) in
    let s := user_gprs cpu in
    modify k1 i (λ p, let r := regs p in
      set_regs p (mkRegs (rip r) (rsp r) (rflags r) (rax r) (rbx s) (rcx r) (rdx s) (rsi s) (rdi s)
                    (rbp s) (r8 s) (r9 s) (r10 s) (r11 r) (r12 s) (r13 s) (r14 s) (r15 s))).

Definition clone_thread_as (k : Kernel) (tid parent pml4 owner child_rip child_rsp : Z)
    : outcome (Kernel * result Z) :=
  let? k, (sys_base, sys_top) := ok_or (alloc_syscall_stack k) "OOM: syscall stack" in
  let r := regs (slot (PTABLE k) parent) in
  let rg := mkRegs child_rip child_rsp 0x0202 0 (rbx r) (rcx r) (rdx r) (rsi r) (rdi r) (rbp r)
              (r8 r) (r9 r) (r10 r) (r11 r) (r12 r) (r13 r) (r14 r) (r15 r) in
  let old := slot (PTABLE k) tid in
  Val (with_PTABLE k (put (PTABLE k) tid
         (mkProcess tid pml4 rg Running 0 (caps (slot (PTABLE k) owner)) sys_base sys_top
            XStateBuf_default true owner 0 10 0 0 (replicate 32 0) 0 0 false 0 0 None
            (is_preemptable old) (home_cpu old))), Ok tid).

Definition clone_thread (k : Kernel) (c parent child_rip child_rsp : Z) : outcome (Kernel * result Z) :=
  let k := save_full_user_gprs k c parent in
  let p := slot (PTABLE k) parent in
  if negb (pid p =? parent) || is_dead (state p) then Val (k, Err "parent not found")
  else
    let pml4 := pml4_phys p in
    let owner := get_group_leader_locked (PTABLE k) parent in
    let? k, tid := ok_or (alloc_pid k) "process table full" in
    clone_thread_as k tid parent pml4 owner child_rip child_rsp.

(** ** Queries *)

Record UserContext := mkContext {
  uc_pid : Z; uc_pml4_phys : Z; uc_regs : UserRegs; uc_syscall_stack_top : Z
}.

Definition get_user_context (pt : list Process) (i : Z) : option UserContext :=
  let p := slot pt i in
  if negb (pid p =? i) || negb (is_running (state p)) then None
  else Some (mkContext i (pml4_phys p) (regs p) (syscall_stack_top p)).

Definition pml4_phys_of (k : Kernel) (i : Z) : option Z :=
  let p := slot (PTABLE k) i in
  if (pid p =? i) && negb (is_dead (state p)) then Some (pml4_phys p) else None.

Definition caps_of (k : Kernel) (i : Z) : Z :=
  let p := slot (PTABLE k) i in
  if (pid p =? i) && negb (is_dead (state p)) then caps p else NO_CAPS.

Definition current_has_caps (k : Kernel) (c required : Z) : bool :=
  check (caps_of k (current_pid (cpus k c))) required.

Definition is_blocked (k : Kernel) (i : Z) : bool := query k i (λ p, blocked_state (state p)) false.

Definition get_parent_of (k : Kernel) (i : Z) : option Z :=
  query k i (λ p, if parent_pid p =? 0 then None else Some (parent_pid p)) None.

Definition sibling_pids (k : Kernel) (current : Z) : list Z :=
  if negb (pid (slot (PTABLE k) current) =? current) then []
  else
    let group := get_group_leader_locked (PTABLE k) current in
    pid <$> List.filter (λ p, negb (pid p =? 0) &&
                              (get_group_leader_locked (PTABLE k) (pid p) =? group)) (PTABLE k).

Definition count (k : Kernel) : nat := countb (λ p, negb (is_dead (state p))) (PTABLE k).

Definition find_tid_by_fs_base (k : Kernel) (fs : Z) : option Z :=
  pid <$> find_first (λ p, negb (is_dead (state p)) && (fs_base p =? fs)) (PTABLE k).

(** ** Exit *)

Definition is_anon (va : Z) : bool := (0x300000000 <=? va) && (va <? 0x10000000000).

(** [unmap_user_range] and [recycle_anon_va] of one range of a thread; the
    second finds its address space through [get_user_context]. *)
Definition drop_range (k : Kernel) (i pml4 va size : Z) : outcome Kernel :=
  let! s := Paging.unmap_user_range (mm k) pml4 va size in
  let root := uc_pml4_phys <$> get_user_context (PTABLE k) i in
  Val (with_LIBS (with_mm k s) (VaAlloc.recycle_anon_va (LIBS k) root va size)).

(** What [exit] gives back: the page tables of a process, the stack and the TLS
    page of a thread, and the kernel stack. *)
Definition release (k : Kernel) (i : Z) (p : Process) : outcome Kernel :=
  let! k1 :=
    if negb (is_thread p) then Val (with_mm k (Paging.free_user_pml4 (mm k) (pml4_phys p)))
    else
      let! k1 :=
        if negb (user_stack_base p =? 0) && negb (user_stack_size p =? 0) &&
           is_anon (user_stack_base p)
        then drop_range k i (pml4_phys p) (user_stack_base p) (user_stack_size p) else Val k in
      if negb (fs_base p =? 0) && is_anon (fs_base p)
      then drop_range k1 i (pml4_phys p) (fs_base p) 4096 else Val k1 in
  Val (with_mm k1 (free_syscall_stack (mm k1) (syscall_stack_base p))).

(** [running_free] and [pending_free]: the recovery tables are not locked. *)
Definition exit (k : Kernel) (running_free pending_free : bool) (i code : Z) : outcome Kernel :=
  let p := slot (PTABLE k) i in
  if negb (pid p =? i) || is_dead (state p) then Val k
  else
    let! k1 := release k i p in
    let p1 := set_current_cpu (set_exit_code (set_state (clear_stack p) (Zombie code)) code) None in
    let pt := put (PTABLE k1) i p1 in
    let leader := get_group_leader_locked pt i in
    Val (with_RECOVERY (with_PTABLE k1 pt)
           (AppRegistry.note_thread_exit (RECOVERY k1) running_free pending_free leader i code)).

Definition group_members (k : Kernel) (leader : Z) : list Z :=
  pid <$> List.filter (λ p, negb (pid p =? 0) && negb (is_zombie (state p)) &&
                            negb (is_dead (state p)) &&
                            (get_group_leader_locked (PTABLE k) (pid p) =? leader)) (PTABLE k).

Definition kill_group (k : Kernel) (running_free pending_free : bool) (leader : Z)
    : outcome (Kernel * Z) :=
  let victims := group_members k leader in
  let! k1 := for_list victims (λ v k', exit k' running_free pending_free v (-9)) k in
  Val (k1, Z.of_nat (length victims)).

Definition kill (k : Kernel) (running_free pending_free : bool) (i : Z) : outcome (Kernel * result unit) :=
  let p := slot (PTABLE k) i in
  if negb (pid p =? i) || is_dead (state p) then Val (k, Err "no such process")
  else let! k1 := exit k running_free pending_free i (-9) in Val (k1, Ok tt).

(** ** Reaping *)

Definition waitpid (k : Kernel) (i : Z) : Kernel * result Z :=
  let p := slot (PTABLE k) i in
  if negb (pid p =? i) || is_dead (state p) then (k, Err "no such process")
  else match state p with
       | Zombie code => (with_PTABLE k (put (PTABLE k) i Process_empty), Ok code)
       | _ => (k, Err "not exited")
       end.

Definition zombie_child (parent : Z) (p : Process) : bool :=
  negb (pid p =? 0) && (parent_pid p =? parent) && is_zombie (state p).

Definition reap_one_zombie (k : Kernel) (parent : Z) : Kernel * option (Z * Z) :=
  match find_first (zombie_child parent) (PTABLE k) with
  | None => (k, None)
  | Some p =>
      (with_PTABLE k (default (PTABLE k)
         (update_first (zombie_child parent) (λ _, Process_empty) (PTABLE k))),
       Some (pid p, exit_code p))
  end.

Definition reap_zombie_children (k : Kernel) (parent : Z) : Kernel * Z :=
  (with_PTABLE k ((λ p, if zombie_child parent p then Process_empty else p) <$> PTABLE k),
   Z.of_nat (countb (zombie_child parent) (PTABLE k))).

Definition reap_zombie (k : Kernel) (i : Z) : Kernel :=
  modify k i (λ p, if is_zombie (state p) then Process_empty else p).

(** ** State, ticks and signals *)

(** The flag: [broadcast_resched_ipi]. *)
Definition set_state_of (k : Kernel) (i : Z) (st : ProcState) : Kernel * bool :=
  let p := slot (PTABLE k) i in
  (modify k i (λ p, set_state p st),
   (pid p =? i) && is_running st && negb (is_running (state p))).

Definition set_child_parent (k : Kernel) (child parent : Z) : Kernel :=
  modify k child (λ p, set_parent_pid p parent).

Definition account_tick (k : Kernel) (i : Z) : Kernel * bool :=
  let p := slot (PTABLE k) i in
  if negb (pid p =? i) || negb (is_running (state p)) then (k, false)
  else
    let left := if 0 <? slice_left p then slice_left p - 1 else slice_left p in
    let preempt := left =? 0 in
    let p1 := set_slice_left (set_cpu_ticks p (u64 (cpu_ticks p + 1))) (if preempt then 10 else left) in
    (with_PTABLE k (put (PTABLE k) i p1), preempt).

Definition raise_signal (k : Kernel) (i sig : Z) : Kernel :=
  if (sig =? 0) || (31 <? sig) then k
  else modify k i (λ p, if is_dead (state p) then p
                        else set_pending_sigs p (Z.lor (pending_sigs p) (Z.shiftl 1 (sig - 1)))).

(** The lowest set bit of a 32-bit word. *)
Definition trailing_zeros (z : Z) : option nat := position (λ b, Z.testbit z (Z.of_nat b)) (seq 0 32).

Definition dequeue_signal (k : Kernel) (i : Z) : Kernel * option (Z * Z) :=
  let p := slot (PTABLE k) i in
  if negb (pid p =? i) then (k, None)
  else
    let deliverable := Z.ldiff (pending_sigs p) (sig_mask p) in
    match trailing_zeros deliverable with
    | None => (k, None)
    | Some bit =>
        let p1 := set_pending_sigs p (Z.ldiff (pending_sigs p) (Z.shiftl 1 (Z.of_nat bit))) in
        (with_PTABLE k (put (PTABLE k) i p1), Some (Z.of_nat bit + 1, sig_handlers p !!! bit))
    end.

Definition set_signal_handler (k : Kernel) (i sig handler_va : Z) : Kernel :=
  if (sig =? 0) || (31 <? sig) then k
  else modify k i (λ p, set_sig_handlers p (<[Z.to_nat (sig - 1) := handler_va]> (sig_handlers p))).

Definition set_signal_mask (k : Kernel) (i mask : Z) : Kernel := modify k i (λ p, set_sig_mask p mask).

(** ** The table invariant *)

Definition pstate := (list Process * Z)%type.
Definition table (k : Kernel) : pstate := (PTABLE k, NEXT_PID k).

(** An update of a live entry: it stays the same process; the parent of a
    thread is fixed; an entry that exited stays exited, and the claim of a
    processor on a live one is kept. *)
Record touches (p p' : Process) : Prop := mkTouches {
  to_pid : pid p' = pid p;
  to_thread : is_thread p' = is_thread p;
  to_parent : is_thread p = true → parent_pid p' = parent_pid p;
  to_pml4 : pml4_phys p' = pml4_phys p;
  to_dead : is_dead (state p') = is_dead (state p);
  to_zombie : is_zombie (state p) = true → is_zombie (state p') = true;
  to_cpu : is_zombie (state p') = false → current_cpu p' = current_cpu p
}.

(** Whether the owner of a new thread is a leader of the same address space. *)
Definition owner_ok (pt : list Process) (n : Z) (p : Process) : Prop :=
  0 < parent_pid p < n ∧
  (pid (slot pt (parent_pid p)) = parent_pid p →
     is_thread (slot pt (parent_pid p)) = false ∧
     pml4_phys (slot pt (parent_pid p)) = pml4_phys p).

(** What a call does to the table, one entry at a time; [n] is [NEXT_PID]. *)
Inductive change : pstate → pstate → Prop :=
| ch_skip pt n : change (pt, n) (pt, n + 1)
| ch_touch pt n i p p' :
    pt !! i = Some p → pid p ≠ 0 → touches p p' → change (pt, n) (<[i := p']> pt, n)
| ch_reap pt n i p :
    pt !! i = Some p → pid p ≠ 0 → is_zombie (state p) = true →
    change (pt, n) (<[i := Process_empty]> pt, n)
| ch_publish pt n p :
    pid p = n → state p = Running → current_cpu p = None → is_dead (state (slot pt n)) = true →
    (is_thread p = true → owner_ok pt n p) → change (pt, n) (put pt n p, n + 1).

Record entry_ok (pt : list Process) (n : Z) (i : nat) (p : Process) : Prop := mkEntryOk {
  en_pid : 0 < pid p < n;
  en_idx : idx_of (pid p) = i;
  en_live : is_dead (state p) = false;
  en_owner : is_thread p = true → owner_ok pt n p
}.

Record table_ok (t : pstate) : Prop := mkTableOk {
  tb_len : length t.1 = MAX_PROCS;
  tb_next : 0 < t.2;
  tb_entry i p : t.1 !! i = Some p → p = Process_empty ∨ entry_ok t.1 t.2 i p
}.

Lemma idx_of_lt i : (idx_of i < MAX_PROCS)%nat.
Proof.
  unfold idx_of. pose proof (Z.mod_pos_bound i (Z.of_nat MAX_PROCS) ltac:(done)). lia.
Qed.

Section table_ok.
Context {t : pstate} (Ht : table_ok t).

Lemma slot_lookup i : t.1 !! idx_of i = Some (slot t.1 i).
Proof.
  apply list_lookup_lookup_total_lt. rewrite (tb_len _ Ht). apply idx_of_lt.
Qed.

Lemma slot_put i j p :
  slot (put t.1 i p) j = if decide (idx_of i = idx_of j) then p else slot t.1 j.
Proof.
  unfold slot, put. case_decide as E.
  - rewrite <- E. apply list_lookup_total_insert_eq. rewrite (tb_len _ Ht). apply idx_of_lt.
  - by apply list_lookup_total_insert_ne.
Qed.

Lemma slot_entry i : pid (slot t.1 i) = i → i ≠ 0 → entry_ok t.1 t.2 (idx_of i) (slot t.1 i).
Proof.
  intros Hi Hne. destruct (tb_entry _ Ht _ _ (slot_lookup i)) as [E|]; [|done].
  rewrite E in Hi. cbn in Hi. congruence.
Qed.

Lemma dead_empty i : is_dead (state (slot t.1 i)) = true → slot t.1 i = Process_empty.
Proof.
  intros Hd. destruct (tb_entry _ Ht _ _ (slot_lookup i)) as [|E]; [done|].
  destruct E. congruence.
Qed.
End table_ok.

(** Owners stay good when a slot changes to an entry of the same process, or to
    one whose pid no thread has as its parent. *)
Lemma owner_ok_insert pt n n' i p q q' :
  owner_ok pt n p → n ≤ n' → pt !! i = Some q →
  (pid q' = parent_pid p → pid q = parent_pid p ∧ is_thread q' = is_thread q ∧
     pml4_phys q' = pml4_phys q) →
  owner_ok (<[i := q']> pt) n' p.
Proof.
  intros [Hr Ho] Hn Hq Hk. split; [lia|]. unfold slot in *. intros Hp.
  destruct (decide (i = idx_of (parent_pid p))) as [->|Hne].
  - rewrite (list_lookup_total_correct _ _ _ Hq) in Ho.
    rewrite list_lookup_total_insert_eq in Hp |- * by (by eapply lookup_lt_Some).
    destruct (Hk Hp) as (H1 & -> & ->). by apply Ho.
  - rewrite list_lookup_total_insert_ne in Hp |- * by done. by apply Ho.
Qed.

Lemma table_ok_insert pt n n' i q q' :
  table_ok (pt, n) → n ≤ n' → pt !! i = Some q →
  (∀ r, pid q' = r → 0 < r < n → pid q = r ∧ is_thread q' = is_thread q ∧
     pml4_phys q' = pml4_phys q) →
  (q' = Process_empty ∨ entry_ok (<[i := q']> pt) n' i q') →
  table_ok (<[i := q']> pt, n').
Proof.
  intros Ht Hn Hq Hk Hq'. split; cbn.
  - rewrite length_insert. apply (tb_len _ Ht).
  - pose proof (tb_next _ Ht). cbn in *. lia.
  - intros j p Hj. destruct (decide (i = j)) as [->|Hne].
    + rewrite list_lookup_insert_eq in Hj by (by eapply lookup_lt_Some). by simplify_eq.
    + rewrite list_lookup_insert_ne in Hj by done.
      destruct (tb_entry _ Ht j p Hj) as [->|[H1 H2 H3 H4]]; [by left|right]. cbn in *.
      split; try done; [lia|]. intros Hp. apply (owner_ok_insert pt n n' i p q q'); try done.
      * by apply H4.
      * intros E. apply Hk; [done|]. apply H4. done.
Qed.

(** An update that leaves it the same process in the same group. *)
Record same_process (p p' : Process) : Prop := mkSame {
  sp_pid : pid p' = pid p;
  sp_thread : is_thread p' = is_thread p;
  sp_parent : is_thread p = true → parent_pid p' = parent_pid p;
  sp_pml4 : pml4_phys p' = pml4_phys p;
  sp_dead : is_dead (state p') = is_dead (state p)
}.

Lemma touches_same p p' : touches p p' → same_process p p'.
Proof. by intros []. Qed.

Lemma same_process_ok pt n i p p' :
  table_ok (pt, n) → pt !! i = Some p → pid p ≠ 0 → same_process p p' →
  table_ok (<[i := p']> pt, n).
Proof.
  intros Ht Hi Hp [T1 T2 T3 T4 T5].
  destruct (tb_entry _ Ht i p Hi) as [->|[H1 H2 H3 H4]]; [done|]. cbn in *.
  apply (table_ok_insert pt n n i p p'); try done; [|right; split].
  - intros r <- _. by rewrite T1.
  - by rewrite T1.
  - by rewrite T1.
  - by rewrite T5.
  - rewrite T2. intros Hth. destruct (H4 Hth) as [Hr Ho].
    rewrite <- (T3 Hth), <- T4 in Ho. rewrite <- (T3 Hth) in Hr.
    apply (owner_ok_insert pt n n i p' p p'); try done.
    intros E. by rewrite <- T1.
Qed.

Lemma change_ok t t' : table_ok t → change t t' → table_ok t'.
Proof.
  intros Ht Hc. destruct Hc as [pt n|pt n i p p' Hi Hp T|pt n i p Hi Hp Hz|pt n p Hp Hs _ Hd Ho].
  - destruct Ht as [H1 H2 H3]. cbn in *. split; cbn; [done|lia|]. intros i p Hi.
    destruct (H3 i p Hi) as [|[? ? ? H4]]; [by left|right]. split; try done; [lia|].
    intros Hth. destruct (H4 Hth) as [? ?]. split; [lia|done].
  - by eapply same_process_ok, touches_same.
  - apply (table_ok_insert pt n n i p Process_empty); try done; [|by left].
    cbn. intros r <-. lia.
  - pose proof (slot_lookup Ht n) as Hl. cbn in Hl. pose proof (tb_next _ Ht) as Hn. cbn in Hn.
    pose proof (dead_empty Ht n Hd) as He. cbn in He.
    apply (table_ok_insert pt n (n + 1) (idx_of n) (slot pt n) p); try done; [lia|lia|].
    right. split; [lia|by rewrite Hp|by rewrite Hs|].
    intros Hth. apply (owner_ok_insert pt n (n + 1) _ p (slot pt n) p (Ho Hth)); [lia|done|].
    intros E. destruct (Ho Hth) as [Hr _]. lia.
Qed.

Lemma changes_ok t t' : table_ok t → rtc change t t' → table_ok t'.
Proof. intros Ht. induction 1; eauto using change_ok. Qed.

(** ** Group leaders *)

Section leader.
Context {t : pstate} (Ht : table_ok t).

Lemma leader_step n i :
  leader_loop (S (S n)) t.1 i =
  Some (if (pid (slot t.1 i) =? i) && is_thread (slot t.1 i) then parent_pid (slot t.1 i) else i).
Proof.
  cbn [leader_loop]. destruct ((pid (slot t.1 i) =? i) && is_thread (slot t.1 i)) eqn:E; [|done].
  unbool. match goal with H : pid _ = i |- _ => rename H into Hp end.
  assert (i ≠ 0) as Hi.
  { intros ->. destruct (tb_entry _ Ht _ _ (slot_lookup Ht 0)) as [E0|[? _ _ _]]; [|lia].
    by rewrite E0 in *. }
  pose proof (en_owner _ _ _ _ (slot_entry Ht i Hp Hi) ltac:(done)) as [Hr Ho].
  rewrite (proj2 (Z.eqb_neq _ 0)) by lia. cbn [negb andb].
  destruct (Z.eqb_spec (pid (slot t.1 (parent_pid (slot t.1 i)))) (parent_pid (slot t.1 i)))
    as [Eq|]; [|done].
  by destruct (Ho Eq) as [-> _].
Qed.

Lemma leader_val i :
  get_group_leader_locked t.1 i =
  if (pid (slot t.1 i) =? i) && is_thread (slot t.1 i) then parent_pid (slot t.1 i) else i.
Proof. unfold get_group_leader_locked, MAX_PROCS. by rewrite leader_step. Qed.

Lemma leader_owner i :
  pid (slot t.1 i) = i → i ≠ 0 → is_thread (slot t.1 i) = true →
  owner_ok t.1 t.2 (slot t.1 i) ∧ get_group_leader_locked t.1 i = parent_pid (slot t.1 i).
Proof.
  intros Hp Hi Hth. split; [by apply (slot_entry Ht)|].
  by rewrite leader_val, Hth, (proj2 (Z.eqb_eq _ _) Hp).
Qed.

Lemma leader_idem i :
  get_group_leader_locked t.1 (get_group_leader_locked t.1 i) = get_group_leader_locked t.1 i.
Proof.
  rewrite !leader_val. destruct ((pid (slot t.1 i) =? i) && is_thread (slot t.1 i)) eqn:E.
  2: { by rewrite E. }
  unbool. destruct (decide (i = 0)) as [->|Hi].
  { destruct (tb_entry _ Ht _ _ (slot_lookup Ht 0)) as [E0|[? _ _ _]]; [by rewrite E0 in *|lia]. }
  destruct (leader_owner i) as [[_ Ho] _]; [done..|].
  destruct (Z.eqb_spec (pid (slot t.1 (parent_pid (slot t.1 i)))) (parent_pid (slot t.1 i)))
    as [Eq|]; [|done].
  by destruct (Ho Eq) as [-> _].
Qed.

Lemma leader_pos i : 0 < i → 0 < get_group_leader_locked t.1 i.
Proof.
  intros Hi. rewrite leader_val. destruct (_ && _) eqn:E; [|done]. unbool.
  destruct (leader_owner i) as [[Hr _] _]; [done|lia|done|lia].
Qed.
End leader.

(** The interface the window manager and the compositor are built on. *)
Definition table_groups (t : pstate) (Ht : table_ok t) : ProcessGroups := {|
  group_leader := get_group_leader_locked t.1;
  group_leader_idem := leader_idem Ht;
  group_leader_pos := leader_pos Ht
|}.

(** ** Calls as changes of the table *)

Definition evolves (k k' : Kernel) : Prop := rtc change (table k) (table k').

Lemma evolves_keep k k' : table k' = table k → evolves k k'.
Proof. intros E. unfold evolves. by rewrite E. Qed.

Lemma evolves_touch k i p' :
  table_ok (table k) → pid (slot (PTABLE k) i) = i → i ≠ 0 → touches (slot (PTABLE k) i) p' →
  evolves k (with_PTABLE k (put (PTABLE k) i p')).
Proof.
  intros Ht Hp Hi T. apply rtc_once. apply (ch_touch _ _ _ (slot (PTABLE k) i)).
  - apply (slot_lookup Ht).
  - by rewrite Hp.
  - done.
Qed.

Lemma evolves_modify k i f :
  table_ok (table k) → i ≠ 0 → (∀ p, pid p = i → touches p (f p)) → evolves k (modify k i f).
Proof.
  intros Ht Hi Hf. unfold modify. destruct (Z.eqb_spec (pid (slot (PTABLE k) i)) i); [|by apply evolves_keep].
  apply evolves_touch; auto.
Qed.

Lemma rbind_inv {A B} (m : outcome (Kernel * result A)) (f : Kernel → A → outcome (Kernel * result B))
    k' r (Q : Kernel → result B → Prop) :
  rbind m f = Val (k', r) →
  (∀ k e, m = Val (k, Err e) → Q k (Err e)) →
  (∀ k a, m = Val (k, Ok a) → f k a = Val (k', r) → Q k' r) → Q k' r.
Proof.
  intros H He Hk. unfold rbind in H. destruct m as [[k [a|e]]|]; cbn in H; [by eapply Hk| |done].
  injection H as <- <-. by apply He.
Qed.

(** No pid in 256 attempts of [alloc_pid] reaches the end of [u32]. *)
Definition pid_room (k : Kernel) : Prop := 0 < NEXT_PID k ∧ NEXT_PID k + 256 < 2 ^ 32.

Lemma alloc_pid_spec k k1 o :
  pid_room k → alloc_pid k = (k1, o) →
  PTABLE k1 = PTABLE k ∧ NEXT_PID k1 ≤ NEXT_PID k + 256 ∧
  match o with
  | None => evolves k k1
  | Some i => rtc change (table k) (PTABLE k, i) ∧ NEXT_PID k1 = i + 1 ∧ 0 < i ∧
              is_dead (state (slot (PTABLE k) i)) = true
  end.
Proof.
  unfold alloc_pid, pid_room. change (NEXT_PID k + 256) with (NEXT_PID k + Z.of_nat MAX_PROCS).
  revert k. induction MAX_PROCS as [|n IH]; intros k [Hp Hr] Ha; cbn [alloc_pid_loop] in Ha.
  { injection Ha as <- <-. split_and!; [done|lia|by apply evolves_keep]. }
  unfold u32 in Ha. rewrite wrap_small in Ha by (unfold is_u; lia).
  destruct (is_dead _) eqn:Ed.
  - injection Ha as <- <-. split_and!; cbn; try done; lia.
  - destruct (IH (with_NEXT_PID k (NEXT_PID k + 1)) ltac:(cbn [NEXT_PID with_NEXT_PID]; lia) Ha) as (E1 & E2 & E3). cbn in E1, E2.
    split_and!; [done|lia|].
    assert (rtc change (table k) (PTABLE k, NEXT_PID k + 1)) as Hs by apply rtc_once, ch_skip.
    destruct o as [i|].
    + destruct E3 as (? & ? & ? & ?). split_and!; try done. by etrans.
    + unfold evolves in *. by etrans.
Qed.

(** [i] is a pid taken from [alloc_pid] in [k] and not yet published in [k1]. *)
Record reserved (k k1 : Kernel) (i : Z) : Prop := mkReserved {
  rs_table : table k1 = (PTABLE k, i + 1);
  rs_skip : rtc change (table k) (PTABLE k, i);
  rs_pos : 0 < i;
  rs_dead : is_dead (state (slot (PTABLE k) i)) = true
}.

Lemma reserved_fail k k1 i : reserved k k1 i → evolves k k1.
Proof.
  intros [E Hs _ _]. unfold evolves. rewrite E. etrans; [exact Hs|]. apply rtc_once, ch_skip.
Qed.

Lemma reserved_publish k k1 k2 i p :
  reserved k k1 i → table k2 = (put (PTABLE k) i p, i + 1) → pid p = i → state p = Running →
  current_cpu p = None → (is_thread p = true → owner_ok (PTABLE k) i p) → evolves k k2.
Proof.
  intros [_ Hs _ Hd] E Hp Hr Hc Ho. unfold evolves. rewrite E. etrans; [exact Hs|].
  apply rtc_once. by apply ch_publish.
Qed.

Lemma reserved_keep k k1 k2 i : reserved k k1 i → table k2 = table k1 → reserved k k2 i.
Proof. intros [? ? ? ?] E. split; try done. by rewrite E. Qed.

Lemma alloc_pid_reserved k k1 i :
  pid_room k → ok_or (alloc_pid k) "process table full" = Val (k1, Ok i) →
  reserved k k1 i ∧ NEXT_PID k1 ≤ NEXT_PID k + 256.
Proof.
  intros Hr H. destruct (alloc_pid k) as [k0 o] eqn:Ea. destruct o as [i0|]; [|done].
  cbn in H. injection H as <- <-.
  destruct (alloc_pid_spec k k0 _ Hr Ea) as (E1 & E2 & E3 & E4 & E5 & E6).
  split; [|done]. split; try done. unfold table. by rewrite E1, E4.
Qed.

Lemma alloc_pid_full k k1 e :
  pid_room k → ok_or (alloc_pid k) "process table full" = Val (k1, Err e) →
  evolves k k1 ∧ NEXT_PID k1 ≤ NEXT_PID k + 256.
Proof.
  intros Hr H. destruct (alloc_pid k) as [k0 o] eqn:Ea. destruct o as [i0|]; [done|].
  cbn in H. injection H as <- _. by destruct (alloc_pid_spec k k0 _ Hr Ea) as (E1 & E2 & E3).
Qed.

Lemma alloc_stack_keeps k e k1 r :
  ok_or (alloc_syscall_stack k) e = Val (k1, r) → table k1 = table k.
Proof.
  unfold alloc_syscall_stack. destruct (FrameAlloc.alloc_contiguous _ _) as [f [phys|]]; cbn;
    by intros [= <- _].
Qed.

Lemma on_mm_keeps {A} k (m : outcome (Paging.Mm * result A)) k1 r :
  on_mm k m = Val (k1, r) → table k1 = table k.
Proof. unfold on_mm. destruct m as [[]|]; cbn; [by intros [= <- _]|done]. Qed.

Lemma mm_ok_or_keeps {A} k (m : outcome (Paging.Mm * option A)) e k1 r :
  mm_ok_or k m e = Val (k1, r) → table k1 = table k.
Proof. unfold mm_ok_or. destruct m as [[? []]|]; cbn; [by intros [= <- _]..|done]. Qed.

Lemma thread_mmap_keeps k pml4 pages sys e k1 r :
  thread_mmap k pml4 pages sys e = Val (k1, r) → table k1 = table k.
Proof.
  unfold thread_mmap. destruct (VaAlloc.mmap_anon _ _ _ _ _) as [t va]. case_if; by intros [= <- _].
Qed.

(** A call that creates entries. *)
Definition creates (k k' : Kernel) : Prop := evolves k k' ∧ NEXT_PID k' ≤ NEXT_PID k + 256.

Lemma reserved_creates k k1 i : reserved k k1 i → NEXT_PID k1 ≤ NEXT_PID k + 256 → creates k k1.
Proof. intros H ?. split; [by eapply reserved_fail|done]. Qed.

(** The steps between [alloc_pid] and the publication. *)
Ltac keep_step L :=
  match goal with H : _ = Val (_, _) |- creates _ _ => cbv beta iota in H end;
  match goal with
  | H : rbind ?m ?f = Val _ |- creates ?k _ =>
      let Hm := fresh "Hm" in
      refine (rbind_inv m f _ _ (λ k' _, creates k k') H _ _); clear H;
      [intros ? ? Hm|intros ? ? Hm H]; apply L in Hm;
      match goal with R : reserved k ?k1 ?i, Hb : NEXT_PID ?k1 ≤ _ |- _ =>
        apply (reserved_keep _ _ _ _ R) in Hm as R'; clear R;
        assert (NEXT_PID _ ≤ NEXT_PID k + 256) as Hb' by (unfold table in Hm; injection Hm as _ ->; exact Hb);
        clear Hb Hm; rename R' into R, Hb' into Hb
      end; [by eapply reserved_creates|]
  end.

Lemma publish_process_table k i pml4 entry sb st b :
  ∃ p, table (publish_process k i pml4 entry sb st b) = (put (PTABLE k) i p, NEXT_PID k) ∧
    pid p = i ∧ state p = Running ∧ current_cpu p = None ∧ is_thread p = false ∧
    caps p = (if b_rdi b =? HOST_MODE_SHELL then ALL_CAPS else CAP_NET).
Proof.
  unfold publish_process.
  destruct (if b_rdi b =? AppRegistry.HOST_MODE_APP then pick_home_cpu_for_app k else (k, 0))
    as [k1 home] eqn:E.
  assert (table k1 = table k) as E1.
  { destruct (_ =? AppRegistry.HOST_MODE_APP); [|by injection E as <- _].
    unfold pick_home_cpu_for_app in E. case_if_in E; by injection E as <- _. }
  set (k2 := if negb (home =? 0) then _ else _).
  assert (table k2 = table k) as E2.
  { subst k2. destruct (negb _); [|done]. unfold mark_cpu_has_work. by destruct (_ <? _). }
  unfold table in E2. injection E2 as E3 E4. unfold table. cbn. rewrite E3, E4.
  eexists. split; [reflexivity|]. by split_and!.
Qed.

Lemma with_reserved {B} k (f : Kernel → Z → outcome (Kernel * result B)) k' r :
  pid_room k →
  (∀ k1 i, reserved k k1 i → NEXT_PID k1 ≤ NEXT_PID k + 256 → f k1 i = Val (k', r) → creates k k') →
  rbind (ok_or (alloc_pid k) "process table full") f = Val (k', r) → creates k k'.
Proof.
  intros Hr Hk H. refine (rbind_inv _ f _ _ (λ k' _, creates k k') H _ _); clear H.
  - intros k1 e Hm. by apply (alloc_pid_full k k1 e).
  - intros k1 i Hm H. destruct (alloc_pid_reserved k k1 i Hr Hm). by eapply Hk.
Qed.

Lemma reserved_pid k k1 i : reserved k k1 i → NEXT_PID k1 = i + 1.
Proof. intros [E _ _ _]. unfold table in E. by injection E. Qed.

Lemma reserved_ptable k k1 i : reserved k k1 i → PTABLE k1 = PTABLE k.
Proof. intros [E _ _ _]. unfold table in E. by injection E. Qed.

Lemma publish_process_creates k k2 i pml4 entry sb st b :
  reserved k k2 i → NEXT_PID k2 ≤ NEXT_PID k + 256 →
  creates k (publish_process k2 i pml4 entry sb st b).
Proof.
  intros R Hb. destruct (publish_process_table k2 i pml4 entry sb st b) as (p & E & Hp & Hs & Hc & Ht & _).
  rewrite (reserved_pid _ _ _ R), (reserved_ptable _ _ _ R) in E. split.
  - apply (reserved_publish _ _ _ i p R E); try done. congruence.
  - rewrite (reserved_pid _ _ _ R) in Hb. unfold table in E. injection E as _ ->. done.
Qed.

Lemma spawn_creates p0 p1 sd k elf b k' r :
  pid_room k → spawn_with_bootstrap p0 p1 sd k elf b = Val (k', r) → creates k k'.
Proof.
  intros Hr. unfold spawn_with_bootstrap. apply (with_reserved k _ k' r Hr).
  intros k1 i R Hb. unfold spawn_as. intros H. keep_step @alloc_stack_keeps. destruct a as [sb st].
  keep_step @mm_ok_or_keeps. keep_step @on_mm_keeps. keep_step @on_mm_keeps. keep_step @on_mm_keeps.
  injection H as <- _. by apply publish_process_creates.
Qed.

(** The owner a new thread gets. *)
Lemma owner_of_new k i parent p :
  table_ok (table k) → rtc change (table k) (PTABLE k, i) → pid (slot (PTABLE k) parent) = parent →
  is_dead (state (slot (PTABLE k) parent)) = false →
  parent_pid p = get_group_leader_locked (PTABLE k) parent →
  pml4_phys p = pml4_phys (slot (PTABLE k) parent) → owner_ok (PTABLE k) i p.
Proof.
  intros Ht Hs Hp Hd Ho Hm. pose proof (changes_ok _ _ Ht Hs) as Ht'.
  assert (parent ≠ 0) as Hne.
  { intros ->. destruct (tb_entry _ Ht' _ _ (slot_lookup Ht' 0)) as [E|[? _ _ _]]; cbn in *; [|lia].
    by rewrite E in Hd. }
  pose proof (slot_entry Ht' parent Hp Hne) as [Hr _ _ Hown]. cbn in Hr, Hown.
  unfold owner_ok. rewrite Ho, Hm, (leader_val Ht). cbn.
  rewrite (proj2 (Z.eqb_eq _ _) Hp). cbn [andb].
  destruct (is_thread (slot (PTABLE k) parent)) eqn:Eth; [by apply Hown|]. rewrite Hp in Hr. by split.
Qed.

Lemma reserved_put k k2 i p :
  reserved k k2 i → NEXT_PID k2 ≤ NEXT_PID k + 256 → pid p = i → state p = Running →
  current_cpu p = None → (is_thread p = true → owner_ok (PTABLE k) i p) →
  creates k (with_PTABLE k2 (put (PTABLE k2) i p)).
Proof.
  intros R Hb Hp Hs Hc Ho. split; [|exact Hb].
  apply (reserved_publish _ _ _ i p R); try done.
  unfold table. cbn. by rewrite (reserved_ptable _ _ _ R), (reserved_pid _ _ _ R).
Qed.

Lemma publish_thread_creates k k2 i parent home rg sb st tls va size :
  table_ok (table k) → reserved k k2 i → NEXT_PID k2 ≤ NEXT_PID k + 256 →
  pid (slot (PTABLE k) parent) = parent → is_dead (state (slot (PTABLE k) parent)) = false →
  creates k (publish_thread k2 i (pml4_phys (slot (PTABLE k) parent)) home
               (get_group_leader_locked (PTABLE k) parent) rg sb st tls va size).
Proof.
  intros Ht R Hb Hp Hd. apply reserved_put; try done. intros _.
  apply (owner_of_new k i parent); try done. apply R.
Qed.

Lemma reserved_store k k2 i va v : reserved k k2 i → reserved k (user_store k2 va v) i.
Proof. intros R. by apply (reserved_keep _ _ _ _ R). Qed.

Lemma spawn_thread_creates tr k parent entry arg size k' r :
  table_ok (table k) → pid_room k → spawn_thread tr k parent entry arg size = Val (k', r) →
  creates k k'.
Proof.
  intros Ht Hr. unfold spawn_thread. destruct (negb _ || _) eqn:Eg.
  { intros [= <- _]. split; [by apply evolves_keep|lia]. }
  apply orb_false_iff in Eg as [Epar%negb_false_iff%Z.eqb_eq Edead].
  apply (with_reserved k _ k' r Hr).
  intros k1 i R Hb. unfold spawn_thread_as. intros H. keep_step @alloc_stack_keeps.
  destruct a as [sb st]. keep_step @thread_mmap_keeps. cbv zeta in H.
  match type of H with rbind (thread_mmap ?k3 _ _ _ _) _ = _ =>
    apply (reserved_store _ _ _ (u64 (u64 (a + size) - 8)) tr) in R;
    change (NEXT_PID k3 ≤ NEXT_PID k + 256) in Hb
  end.
  keep_step @thread_mmap_keeps. injection H as <- _.
  by apply (publish_thread_creates k (user_store _ _ _)); [|apply reserved_store|..].
Qed.

Lemma save_gprs_table k c i :
  table_ok (table k) → i ≠ 0 → evolves k (save_full_user_gprs k c i) ∧
  NEXT_PID (save_full_user_gprs k c i) = NEXT_PID k.
Proof.
  intros Ht Hi. unfold save_full_user_gprs. destruct (gprs_captured _).
  { split; [by apply evolves_keep|done]. }
  split.
  - apply (evolves_modify (set_cpu k c _)); [done|done|]. intros p _. by split.
  - unfold modify. by destruct (_ =? _).
Qed.

Lemma clone_thread_creates k c parent crip crsp k' r :
  table_ok (table k) → pid_room k → parent ≠ 0 → clone_thread k c parent crip crsp = Val (k', r) →
  creates k k'.
Proof.
  intros Ht Hr Hne. destruct (save_gprs_table k c parent Ht Hne) as [Hev Hnx].
  unfold clone_thread. set (k0 := save_full_user_gprs k c parent) in *. cbv zeta. intros H.
  assert (table_ok (table k0)) as Ht0 by (by eapply changes_ok).
  enough (creates k0 k') as [He Hn]. { split; [unfold evolves in *; by etrans|lia]. }
  assert (pid_room k0) as Hr0 by (unfold pid_room in *; rewrite Hnx; done).
  revert H. destruct (negb _ || _) eqn:Eg.
  { intros [= <- _]. split; [by apply evolves_keep|lia]. }
  apply orb_false_iff in Eg as [Epar%negb_false_iff%Z.eqb_eq Edead].
  apply (with_reserved k0 _ k' r Hr0).
  intros k1 i R Hb. unfold clone_thread_as. intros H. keep_step @alloc_stack_keeps. destruct a as [sb st].
  injection H as <- _. apply reserved_put; [exact R|exact Hb|reflexivity..|].
  intros _. apply (owner_of_new k0 i parent _ Ht0 (rs_skip _ _ _ R) Epar Edead); reflexivity.
Qed.

(** ** Exit and reaping *)

Lemma drop_range_keeps k i pml4 va size k1 :
  drop_range k i pml4 va size = Val k1 → table k1 = table k.
Proof.
  unfold drop_range. destruct (Paging.unmap_user_range _ _ _ _) as [s|]; [|done]. cbn. by intros [= <-].
Qed.

Lemma release_keeps k i p k1 : release k i p = Val k1 → table k1 = table k.
Proof.
  unfold release. set (m := if negb (is_thread p) then _ else _).
  assert (∀ k2, m = Val k2 → table k2 = table k) as Hm.
  { subst m. intros k2. destruct (negb _); [by intros [= <-]|].
    destruct (if _ && _ then _ else _) as [k3|] eqn:E; [|done]. cbn [obind].
    assert (table k3 = table k) as E3.
    { destruct (_ && _); [by apply drop_range_keeps in E|by injection E as <-]. }
    case_if; [intros H'; apply drop_range_keeps in H'; congruence|intros [= <-]; exact E3]. }
  clearbody m. destruct m as [k2|]; [|done]. cbn. intros [= <-].
  exact (Hm k2 eq_refl).
Qed.

Lemma live_pid t i :
  table_ok t → pid (slot t.1 i) = i → is_dead (state (slot t.1 i)) = false → i ≠ 0.
Proof.
  intros Ht Hp Hd ->. destruct (tb_entry _ Ht _ _ (slot_lookup Ht 0)) as [E|[? _ _ _]]; [|lia].
  by rewrite E in Hd.
Qed.

Lemma exit_evolves k rf pf i code k' :
  table_ok (table k) → exit k rf pf i code = Val k' → evolves k k' ∧ NEXT_PID k' = NEXT_PID k.
Proof.
  intros Ht. unfold exit. destruct (negb _ || _) eqn:Eg.
  { intros [= <-]. split; [by apply evolves_keep|done]. }
  apply orb_false_iff in Eg as [Hp%negb_false_iff%Z.eqb_eq Hd].
  destruct (release k i _) as [k1|] eqn:Er; [|done]. cbn [obind]. intros [= <-].
  pose proof (release_keeps _ _ _ _ Er) as E. unfold table in E. injection E as E1 E2.
  rewrite E1. split; [|by cbn].
  unfold evolves, table. cbn [PTABLE NEXT_PID with_RECOVERY with_PTABLE]. rewrite E2.
  apply rtc_once, (ch_touch _ _ _ (slot (PTABLE k) i)).
  - apply (slot_lookup Ht).
  - rewrite Hp. by apply (live_pid (table k)).
  - by split.
Qed.

Lemma exits_evolve vs k rf pf code k' :
  table_ok (table k) → for_list vs (λ v k', exit k' rf pf v code) k = Val k' →
  evolves k k' ∧ NEXT_PID k' = NEXT_PID k.
Proof.
  revert k. induction vs as [|v vs IH]; intros k Ht; cbn [for_list].
  { intros [= <-]. split; [by apply evolves_keep|done]. }
  destruct (exit k rf pf v code) as [k1|] eqn:E; [|done]. cbn [obind]. intros H.
  destruct (exit_evolves _ _ _ _ _ _ Ht E) as [E1 N1].
  destruct (IH k1 (changes_ok _ _ Ht E1) H) as [E2 N2].
  split; [unfold evolves in *; by etrans|congruence].
Qed.

Lemma evolves_reap k i :
  table_ok (table k) → i ≠ 0 → pid (slot (PTABLE k) i) = i →
  is_zombie (state (slot (PTABLE k) i)) = true →
  evolves k (with_PTABLE k (put (PTABLE k) i Process_empty)).
Proof.
  intros Ht Hi Hp Hz. apply rtc_once, (ch_reap _ _ _ (slot (PTABLE k) i)); [|by rewrite Hp|done].
  apply (slot_lookup Ht).
Qed.

Lemma waitpid_evolves k i : table_ok (table k) → evolves k (waitpid k i).1.
Proof.
  intros Ht. unfold waitpid. destruct (negb _ || _) eqn:Eg; [by apply evolves_keep|].
  apply orb_false_iff in Eg as [Hp%negb_false_iff%Z.eqb_eq Hd].
  destruct (state (slot (PTABLE k) i)) eqn:Es; try by apply evolves_keep.
  apply evolves_reap; try done; [|by rewrite Es]. apply (live_pid (table k)); try done.
  unfold table. cbn [fst]. by rewrite Es.
Qed.

Lemma reap_map n q pt pre :
  (∀ p, q p = true → pid p ≠ 0 ∧ is_zombie (state p) = true) →
  rtc change (pre ++ pt, n) (pre ++ ((λ p, if q p then Process_empty else p) <$> pt), n).
Proof.
  intros Hq. revert pre. induction pt as [|p pt IH]; intros pre; [done|]. cbn [fmap list_fmap].
  specialize (IH (pre ++ [if q p then Process_empty else p])). rewrite <- !app_assoc in IH. cbn in IH.
  etrans; [|exact IH]. destruct (q p) eqn:E; [|done]. apply rtc_once. destruct (Hq p E).
  replace (pre ++ Process_empty :: pt) with (<[length pre := Process_empty]> (pre ++ p :: pt)).
  2: { rewrite insert_app_r_alt by lia. by rewrite Nat.sub_diag. }
  apply (ch_reap _ _ _ p); try done. by apply list_lookup_middle.
Qed.

Lemma zombie_child_reap parent p :
  zombie_child parent p = true → pid p ≠ 0 ∧ is_zombie (state p) = true.
Proof. unfold zombie_child. intros H. by unbool. Qed.

Lemma reap_one_evolves k parent : evolves k (reap_one_zombie k parent).1.
Proof.
  unfold reap_one_zombie. destruct (find_first _ _) as [p|]; [|by apply evolves_keep].
  destruct (update_first _ _ _) as [pt|] eqn:E; [|by apply evolves_keep].
  apply update_first_Some in E as (i & x & Hpos & Hx & ->).
  apply position_Some in Hpos as [(y & Hy & Hp) _]. rewrite Hx in Hy. injection Hy as <-.
  destruct (zombie_child_reap _ _ Hp). apply rtc_once. by apply (ch_reap _ _ _ x).
Qed.

Lemma reap_zombie_evolves k i : table_ok (table k) → i ≠ 0 → evolves k (reap_zombie k i).
Proof.
  intros Ht Hi. unfold reap_zombie, modify. destruct (Z.eqb_spec (pid (slot (PTABLE k) i)) i) as [Hp|].
  2: by apply evolves_keep.
  destruct (is_zombie _) eqn:Hz; [by apply evolves_reap|]. apply evolves_touch; try done.
Qed.

(** ** Wake-ups *)

Lemma wake_touches p : blocked_state (state p) = true → touches p (set_state p Running).
Proof. intros Hb. destruct (state p) eqn:E; try done. split; try done; by rewrite E. Qed.

Lemma wake_bits_changes pt n mask base bs :
  rtc change (pt, n) ((wake_bits pt mask base bs).1, n).
Proof.
  revert pt. induction bs as [|b bs IH]; intros pt; [done|]. cbn [wake_bits].
  destruct (_ && blocked_state _) eqn:E; [|apply IH]. apply andb_true_iff in E as [E Hb].
  apply andb_true_iff in E as [_ Hp%negb_true_iff%Z.eqb_neq].
  destruct (wake_bits (<[_ := _]> pt) mask base bs) as [pt' b'] eqn:Ew. cbn.
  replace pt' with ((wake_bits (<[(base + b)%nat := set_state (pt !!! (base + b)%nat) Running]> pt)
    mask base bs).1) by by rewrite Ew.
  etrans; [|apply IH]. apply rtc_once, (ch_touch _ _ _ (pt !!! (base + b)%nat)); try done.
  - destruct (pt !! (base + b)%nat) as [p|] eqn:El.
    + by rewrite (list_lookup_total_correct _ _ _ El).
    + rewrite list_lookup_total_alt, El in Hp. done.
  - by apply wake_touches.
Qed.

Lemma wake_words_changes pt n ws base : rtc change (pt, n) ((wake_words pt ws base).1, n).
Proof.
  revert pt base. induction ws as [|w ws IH]; intros pt base; [done|]. cbn [wake_words].
  pose proof (wake_bits_changes pt n w base (seq 0 32)) as H1.
  destruct (wake_bits pt w base (seq 0 32)) as [pt1 b1]. cbn [fst] in H1.
  specialize (IH pt1 (base + 32)%nat). destruct (wake_words pt1 ws (base + 32)) as [pt2 b2].
  cbn [fst] in *. by etrans.
Qed.

Lemma pending_wakes_evolves k lf : evolves k (handle_pending_wakes_try k lf).1.
Proof.
  unfold handle_pending_wakes_try. destruct (forallb _ _); [by apply evolves_keep|].
  destruct lf; [|by apply evolves_keep]. cbn [negb].
  pose proof (wake_words_changes (PTABLE k) (NEXT_PID k) (PENDING_WAKES k) 0) as H.
  destruct (wake_words _ _ _) as [pt b]. done.
Qed.

(** ** Sequences of calls *)

Inductive call :=
| Spawn (elf : bytes) (b : SpawnBootstrap)
| SpawnThread (parent entry arg size : Z)
| CloneThread (c parent crip crsp : Z)
| Exit (rf pf : bool) (i code : Z)
| Kill (rf pf : bool) (i : Z)
| KillGroup (rf pf : bool) (leader : Z)
| WaitPid (i : Z)
| ReapOne (parent : Z)
| ReapChildren (parent : Z)
| ReapZombie (i : Z)
| SetState (i : Z) (st : ProcState)
| SetChildParent (child parent : Z)
| Wake (lock_free : bool) (i : Z)
| PendingWakes (lock_free : bool)
| Tick (i : Z)
| Raise (i sig : Z)
| Dequeue (i : Z)
| SetHandler (i sig va : Z)
| SetMask (i mask : Z)
| SetFsBase (i fs : Z)
| SetBootstrap (i a b c : Z)
| SetPreemptable (lock_free : bool) (i : Z) (v : bool)
| SaveGprs (c i : Z).

Section calls.
Context (stub_page0 stub_page1 sysdata : bytes) (tramp : Z).

Definition fst_val {A} (m : outcome (Kernel * A)) : outcome Kernel := let! r := m in Val r.1.

Definition run (k : Kernel) (c : call) : outcome Kernel :=
  match c with
  | Spawn elf b => fst_val (spawn_with_bootstrap stub_page0 stub_page1 sysdata k elf b)
  | SpawnThread parent entry arg size => fst_val (spawn_thread tramp k parent entry arg size)
  | CloneThread c parent crip crsp => fst_val (clone_thread k c parent crip crsp)
  | Exit rf pf i code => exit k rf pf i code
  | Kill rf pf i => fst_val (kill k rf pf i)
  | KillGroup rf pf leader => fst_val (kill_group k rf pf leader)
  | WaitPid i => Val (waitpid k i).1
  | ReapOne parent => Val (reap_one_zombie k parent).1
  | ReapChildren parent => Val (reap_zombie_children k parent).1
  | ReapZombie i => Val (reap_zombie k i)
  | SetState i st => Val (set_state_of k i st).1
  | SetChildParent child parent => Val (set_child_parent k child parent)
  | Wake lf i => Val (wake_process k lf i).1
  | PendingWakes lf => Val (handle_pending_wakes_try k lf).1
  | Tick i => Val (account_tick k i).1
  | Raise i sig => Val (raise_signal k i sig)
  | Dequeue i => Val (dequeue_signal k i).1
  | SetHandler i sig va => Val (set_signal_handler k i sig va)
  | SetMask i mask => Val (set_signal_mask k i mask)
  | SetFsBase i fs => Val (set_proc_fs_base k i fs)
  | SetBootstrap i a b c => Val (set_bootstrap_regs k i a b c)
  | SetPreemptable lf i v => Val (set_preemptable k lf i v)
  | SaveGprs c i => Val (save_full_user_gprs k c i)
  end.

(** What the callers see to: the pid is not the kernel's, no state is set to
    [Dead], and the parent is set only on a process, as [sys_exec_wait] does on
    a new child. *)
Definition admissible (k : Kernel) (c : call) : Prop :=
  match c with
  | CloneThread _ i _ _ | ReapZombie i | Tick i | Raise i _ | Dequeue i | SetHandler i _ _
  | SetMask i _ | SetFsBase i _ | SetBootstrap i _ _ _ | SetPreemptable _ i _ | SaveGprs _ i => i ≠ 0
  | SetState i st => i ≠ 0 ∧ is_dead st = false
  | SetChildParent i _ => i ≠ 0 ∧ (pid (slot (PTABLE k) i) = i → is_thread (slot (PTABLE k) i) = false)
  | _ => True
  end.

(** Not all callers of [set_state] see to this: the process has not exited, and
    does not exit by it. *)
Definition leaves_zombies (k : Kernel) (c : call) : Prop :=
  match c with
  | SetState i st => is_zombie st = false ∧
      (pid (slot (PTABLE k) i) = i → is_zombie (state (slot (PTABLE k) i)) = false)
  | _ => True
  end.

Definition kstep (k k' : Kernel) : Prop :=
  ∃ c, admissible k c ∧ pid_room k ∧ run k c = Val k'.

Lemma fst_val_inv {A} (m : outcome (Kernel * A)) k' : fst_val m = Val k' → ∃ r, m = Val (k', r).
Proof. unfold fst_val. destruct m as [[k r]|]; cbn; [intros [= <-]; by exists r|done]. Qed.

Lemma creates_keep k k' : table k' = table k → creates k k'.
Proof. intros E. split; [by apply evolves_keep|]. unfold table in E. injection E as _ E. rewrite E. lia. Qed.

Lemma creates_evolves k k' : evolves k k' → NEXT_PID k' = NEXT_PID k → creates k k'.
Proof. intros He E. split; [done|]. rewrite E. lia. Qed.

Lemma modify_creates k i f :
  table_ok (table k) → i ≠ 0 →
  (pid (slot (PTABLE k) i) = i → touches (slot (PTABLE k) i) (f (slot (PTABLE k) i))) →
  creates k (modify k i f).
Proof.
  intros Ht Hi Hf. unfold modify.
  destruct (Z.eqb_spec (pid (slot (PTABLE k) i)) i); [|by apply creates_keep].
  apply creates_evolves; [apply evolves_touch; auto|done].
Qed.

Section one_call.
Context {k : Kernel} (Ht : table_ok (table k)).

Lemma exit_creates rf pf i code k' : exit k rf pf i code = Val k' → creates k k'.
Proof. intros H. by destruct (exit_evolves _ _ _ _ _ _ Ht H); apply creates_evolves. Qed.

Lemma kill_creates rf pf i k' res : kill k rf pf i = Val (k', res) → creates k k'.
Proof.
  unfold kill. destruct (negb _ || _); [intros [= <- _]; by apply creates_keep|].
  destruct (exit _ _ _ _ _) as [k1|] eqn:E; [|done]. cbn. intros [= <- _]. by eapply exit_creates.
Qed.

Lemma kill_group_creates rf pf leader k' n : kill_group k rf pf leader = Val (k', n) → creates k k'.
Proof.
  unfold kill_group. destruct (for_list _ _ _) as [k1|] eqn:E; [|done]. cbn. intros [= <- _].
  by destruct (exits_evolve _ _ _ _ _ _ Ht E); apply creates_evolves.
Qed.

Lemma waitpid_creates i : creates k (waitpid k i).1.
Proof.
  apply creates_evolves; [by apply waitpid_evolves|]. unfold waitpid.
  destruct (negb _ || _); [done|]. by destruct (state _).
Qed.

Lemma reap_creates parent :
  creates k (reap_one_zombie k parent).1 ∧ creates k (reap_zombie_children k parent).1.
Proof.
  split; apply creates_evolves.
  - apply reap_one_evolves.
  - unfold reap_one_zombie. by destruct (find_first _ _).
  - apply (reap_map (NEXT_PID k) (zombie_child parent) (PTABLE k) []), zombie_child_reap.
  - done.
Qed.

Lemma reap_zombie_creates i : i ≠ 0 → creates k (reap_zombie k i).
Proof.
  intros Hi. apply creates_evolves; [by apply reap_zombie_evolves|]. unfold reap_zombie, modify.
  by destruct (_ =? _).
Qed.

Lemma set_state_creates i st :
  admissible k (SetState i st) → leaves_zombies k (SetState i st) → creates k (set_state_of k i st).1.
Proof.
  intros (Hi & Hd) (Hz & Hl). apply modify_creates; [done|done|]. intros Hp.
  pose proof (en_live _ _ _ _ (slot_entry Ht i Hp Hi)) as Hlive. cbn in Hlive. specialize (Hl Hp).
  split; try done; cbn; [congruence|]. intros. congruence.
Qed.

Lemma set_child_parent_creates i parent :
  admissible k (SetChildParent i parent) → creates k (set_child_parent k i parent).
Proof.
  intros [Hi Hth]. apply modify_creates; [done|done|]. intros Hp. specialize (Hth Hp). split; try done. cbn. congruence.
Qed.

Lemma pending_wakes_creates lf : creates k (handle_pending_wakes_try k lf).1.
Proof.
  apply creates_evolves; [apply pending_wakes_evolves|]. unfold handle_pending_wakes_try.
  destruct (forallb _ _); [done|]. destruct (negb _); [done|]. by destruct (wake_words _ _ _).
Qed.

Lemma account_tick_creates i : i ≠ 0 → creates k (account_tick k i).1.
Proof.
  intros Hi. unfold account_tick. destruct (negb _ || _) eqn:Eg; [by apply creates_keep|].
  apply orb_false_iff in Eg as [Hp%negb_false_iff%Z.eqb_eq _].
  apply creates_evolves; [by apply evolves_touch|done].
Qed.

Lemma dequeue_creates i : i ≠ 0 → creates k (dequeue_signal k i).1.
Proof.
  intros Hi. unfold dequeue_signal. destruct (negb _) eqn:Eg; [by apply creates_keep|].
  apply negb_false_iff, Z.eqb_eq in Eg. destruct (trailing_zeros _); [|by apply creates_keep].
  apply creates_evolves; [by apply evolves_touch|done].
Qed.

Lemma signal_creates i sig va : i ≠ 0 →
  creates k (raise_signal k i sig) ∧ creates k (set_signal_handler k i sig va).
Proof.
  intros Hi. unfold raise_signal, set_signal_handler.
  destruct (_ || _); [split; by apply creates_keep|]. split; (apply modify_creates; [done|done|]).
  - intros _. by destruct (is_dead _).
  - done.
Qed.

Lemma save_gprs_creates c i : i ≠ 0 → creates k (save_full_user_gprs k c i).
Proof. intros Hi. by destruct (save_gprs_table k c i Ht Hi); apply creates_evolves. Qed.
End one_call.

Lemma run_creates k c k' :
  table_ok (table k) → pid_room k → admissible k c → leaves_zombies k c → run k c = Val k' → creates k k'.
Proof.
  intros Ht Hr. destruct c; cbn [run admissible leaves_zombies]; intros Ha Hz Hc;
    try (apply fst_val_inv in Hc as [res Hc]); try (injection Hc as <-);
    eauto using spawn_creates, spawn_thread_creates, clone_thread_creates, exit_creates, kill_creates,
      kill_group_creates, waitpid_creates, reap_zombie_creates, pending_wakes_creates, account_tick_creates, dequeue_creates,
      save_gprs_creates.
  - apply (reap_creates parent).
  - apply (reap_creates parent).
  - by apply set_state_creates.
  - by apply set_child_parent_creates.
  - by apply (@pending_wakes_creates (with_PENDING_WAKES k _)).
  - by apply (signal_creates Ht i sig 0).
  - by apply (signal_creates Ht i sig va).
  - by apply modify_creates.
  - by apply modify_creates.
  - by apply modify_creates.
  - unfold set_preemptable. destruct lock_free; [by apply modify_creates|by apply creates_keep].
Qed.

(** [set_state] keeps the table in order also when it revives a process. *)
Lemma set_state_ok k i st :
  table_ok (table k) → i ≠ 0 → is_dead st = false → table_ok (table (set_state_of k i st).1).
Proof.
  intros Ht Hi Hd. unfold set_state_of, modify. cbn [fst].
  destruct (Z.eqb_spec (pid (slot (PTABLE k) i)) i) as [Hp|]; [|done].
  pose proof (slot_entry Ht i Hp Hi) as He. pose proof (slot_lookup Ht i) as Hl. cbn in Hl.
  apply (same_process_ok (PTABLE k) (NEXT_PID k) (idx_of i) (slot (PTABLE k) i)); [done|done|congruence|].
  split; try done. cbn. rewrite Hd. symmetry. apply He.
Qed.

Lemma kstep_ok k k' : table_ok (table k) → kstep k k' → table_ok (table k').
Proof.
  intros Ht (c & Ha & Hr & Hc).
  assert (leaves_zombies k c → table_ok (table k')) as H.
  { intros Hz. destruct (run_creates k c k' Ht Hr Ha Hz Hc) as [He _]. by eapply changes_ok. }
  destruct c; try (by apply H). injection Hc as <-. destruct Ha. by apply set_state_ok.
Qed.

Lemma ksteps_ok k k' : table_ok (table k) → rtc kstep k k' → table_ok (table k').
Proof. intros Ht Hs. induction Hs as [|k k1 k2 H _ IH]; [done|]. by apply IH, (kstep_ok k). Qed.
End calls.

(** The empty table at boot. *)
Lemma boot_table_ok : table_ok (replicate MAX_PROCS Process_empty, 1).
Proof.
  split; cbn [fst snd]; [apply length_replicate|lia|]. intros i p H.
  apply lookup_replicate in H as [-> _]. by left.
Qed.

(** C5: Through any calls from a well-formed table, as it is at boot, that name no
    pid 0, set no state to [Dead], set the parent of processes only and come
    while at least 256 pids are left below 2^32: a slot is empty or holds the
    process of its index, with a pid handed out before, and a thread whose leader
    is in the table has the leader's page tables and is not itself the leader of
    threads.  States may be set on processes that have exited. *)
Theorem process_table_invariant p0 p1 sd tr k k' :
  table_ok (table k) → rtc (kstep p0 p1 sd tr) k k' →
  length (PTABLE k') = MAX_PROCS ∧
  (∀ i p, PTABLE k' !! i = Some p →
     p = Process_empty ∨ idx_of (pid p) = i ∧ 0 < pid p < NEXT_PID k' ∧ state p ≠ Dead) ∧
  (∀ i p, PTABLE k' !! i = Some p → is_thread p = true →
     let l := slot (PTABLE k') (parent_pid p) in
     pid l = parent_pid p → is_thread l = false ∧ pml4_phys l = pml4_phys p).
Proof.
  intros Ht Hs. pose proof (ksteps_ok p0 p1 sd tr k k' Ht Hs) as Ht'. split_and!.
  - apply (tb_len _ Ht').
  - intros i p Hp. destruct (tb_entry _ Ht' i p Hp) as [|[Hr Hi Hd _]]; [by left|right].
    cbn [table snd] in Hr. split_and!; [done|lia|lia|]. intros E. by rewrite E in Hd.
  - intros i p Hp Hth. destruct (tb_entry _ Ht' i p Hp) as [->|[_ _ _ Ho]]; [done|].
    by apply Ho.
Qed.

(** C26: The walk to the leader of a thread group, a loop without a bound run under
    the table lock, ends after at most two rounds from any pid, and its result is
    its own leader, after any calls as in the table invariant: they name no pid
    0, set no state to [Dead], set the parent of processes only and come while at
    least 256 pids are left below 2^32. *)
Theorem leader_walk_terminates p0 p1 sd tr k k' i n :
  table_ok (table k) → rtc (kstep p0 p1 sd tr) k k' → (2 ≤ n)%nat →
  leader_loop n (PTABLE k') i = Some (get_group_leader_locked (PTABLE k') i) ∧
  get_group_leader_locked (PTABLE k') (get_group_leader_locked (PTABLE k') i) =
  get_group_leader_locked (PTABLE k') i.
Proof.
  intros Ht Hs Hn. pose proof (ksteps_ok p0 p1 sd tr k k' Ht Hs) as Ht'.
  change (PTABLE k') with (table k').1. split; [|apply (leader_idem Ht')].
  replace n with (S (S (n - 2))) by lia. by rewrite (leader_step Ht'), (leader_val Ht').
Qed.

(** C27: An exit code is kept until it is collected, and collected once: before the
    exit [waitpid] has nothing to report, after it the code, and then the slot
    is free and the pid unknown. *)
Theorem exit_code_collected_once k rf pf i code k1 :
  table_ok (table k) → pid (slot (PTABLE k) i) = i →
  state (slot (PTABLE k) i) = Running ∨ state (slot (PTABLE k) i) = Blocked →
  exit k rf pf i code = Val k1 →
  waitpid k i = (k, Err "not exited") ∧
  ∃ k2, waitpid k1 i = (k2, Ok code) ∧ is_dead (state (slot (PTABLE k2) i)) = true ∧
    waitpid k2 i = (k2, Err "no such process") ∧
    ∀ j, idx_of j ≠ idx_of i → slot (PTABLE k2) j = slot (PTABLE k) j.
Proof.
  intros Ht Hp Hs. assert (is_dead (state (slot (PTABLE k) i)) = false) as Hd by (by destruct Hs as [-> | ->]).
  unfold exit. rewrite (proj2 (Z.eqb_eq _ _) Hp), Hd. cbn [negb orb].
  destruct (release k i _) as [k0|] eqn:Er; [|done]. cbn [obind]. intros [= <-].
  pose proof (release_keeps _ _ _ _ Er) as E. unfold table in E. injection E as E1 _. rewrite E1.
  pose proof (slot_put Ht i) as Hput. cbn in Hput. split.
  { unfold waitpid. rewrite (proj2 (Z.eqb_eq _ _) Hp), Hd. cbn. by destruct Hs as [-> | ->]. }
  set (p1 := set_current_cpu _ _). assert (pid p1 = i ∧ state p1 = Zombie code) as [Hp1 Hs1] by done.
  clearbody p1. unfold waitpid at 1. cbn [PTABLE with_RECOVERY with_PTABLE].
  rewrite !Hput, !decide_True by done. rewrite Hs1, (proj2 (Z.eqb_eq _ _) Hp1). cbn [negb orb is_dead].
  eexists. split; [reflexivity|].
  cbn [PTABLE with_RECOVERY with_PTABLE].
  assert (∀ q j, slot (put (put (PTABLE k) i q) i Process_empty) j =
    if decide (idx_of i = idx_of j) then Process_empty else slot (PTABLE k) j) as Hput2.
  { intros q j. unfold put at 1 2. rewrite list_insert_insert_eq. apply Hput. }
  split_and!.
  - by rewrite Hput2, decide_True.
  - unfold waitpid. cbn [PTABLE with_RECOVERY with_PTABLE]. rewrite Hput2, decide_True by done.
    cbn [state is_dead]. by rewrite orb_true_r.
  - intros j Hj. by rewrite Hput2, decide_False.
Qed.

(** [kill] accepts a process that has already exited, and [exit] then releases
    its page tables a second time: when the frame of its root has meanwhile
    become the root of another address space, that root is given back to the
    allocator while in use. *)
Theorem kill_zombie_frees_again k rf pf i code roots sps :
  let p := slot (PTABLE k) i in
  pid p = i → state p = Zombie code → is_thread p = false → syscall_stack_base p = 0 →
  Paging.rel (mm k) roots sps → pml4_phys p ∈ roots →
  FrameAlloc.is_free (FrameAlloc.bits (Paging.frames (mm k))) (pml4_phys p / 4096) = false ∧
  ∃ k', kill k rf pf i = Val (k', Ok tt) ∧
    FrameAlloc.is_free (FrameAlloc.bits (Paging.frames (mm k'))) (pml4_phys p / 4096) = true.
Proof.
  intros p Hp Hs Hth Hst HR Hr. destruct (Paging.rl_tables _ _ _ HR) as (lvl & par & Hok & Hroots).
  rewrite Forall_forall in Hroots. specialize (Hroots _ Hr). simpl in Hroots.
  destruct (Paging.tk_table _ _ _ _ Hok _ _ Hroots) as (_ & _ & _ & Hu). split; [done|].
  unfold kill, exit. fold p. rewrite (proj2 (Z.eqb_eq _ _) Hp), Hs. cbn [negb orb is_dead].
  unfold release. rewrite Hth. cbn [negb obind]. unfold free_syscall_stack. rewrite Hst. cbn [Z.eqb].
  eexists. split; [reflexivity|]. cbn [mm with_RECOVERY with_PTABLE with_mm].
  destruct (Paging.free_user_pml4_frees Hok (pml4_phys p) (mm k) Hroots eq_refl eq_refl) as [_ _ Hb].
  apply Hb; [by eapply Paging.table_frame_ok|]. right. by left.
Qed.

(** ** Capabilities of threads *)

Lemma rbind_ok {A B} (m : outcome (Kernel * result A)) (f : Kernel → A → outcome (Kernel * result B))
    k' b : rbind m f = Val (k', Ok b) → ∃ k a, m = Val (k, Ok a) ∧ f k a = Val (k', Ok b).
Proof. unfold rbind. destruct m as [[k [a|e]]|]; cbn; try done. intros. by exists k, a. Qed.

Lemma spawn_thread_as_ok tr k k1 i pml4 home owner e a s k' tid :
  reserved k k1 i → spawn_thread_as tr k1 i pml4 home owner e a s = Val (k', Ok tid) →
  tid = i ∧ ∃ k2 rg sb st tls va, reserved k k2 i ∧
    k' = publish_thread k2 i pml4 home owner rg sb st tls va s.
Proof.
  intros R. unfold spawn_thread_as. intros (k2 & [sb st] & E2 & H)%rbind_ok.
  apply rbind_ok in H as (k3 & va & E3 & H). cbv zeta in H. apply rbind_ok in H as (k4 & tls & E4 & H).
  apply alloc_stack_keeps in E2. apply thread_mmap_keeps in E3, E4.
  pose proof (reserved_keep _ _ _ _ R E2) as R2. pose proof (reserved_keep _ _ _ _ R2 E3) as R3.
  pose proof (reserved_keep _ _ _ _ (reserved_store _ _ _ _ _ R3) E4) as R4.
  injection H as <- <-. split; [done|].
  eexists (user_store k4 tls tls), _, sb, st, tls, va. split; [by apply reserved_store|reflexivity].
Qed.

(** A thread created by a thread whose leader is gone and whose leader's slot
    was taken by another process gets the capabilities of that process. *)
Theorem orphan_thread_takes_caps tr k t entry arg size k' tid :
  table_ok (table k) → pid_room k → pid (slot (PTABLE k) t) = t → t ≠ 0 →
  is_thread (slot (PTABLE k) t) = true →
  let other := slot (PTABLE k) (parent_pid (slot (PTABLE k) t)) in
  pid other ≠ parent_pid (slot (PTABLE k) t) →
  spawn_thread tr k t entry arg size = Val (k', Ok tid) → caps_of k' tid = caps other.
Proof.
  intros Ht Hr Hp Ht0 Hth other Hgone. unfold spawn_thread.
  pose proof (en_live _ _ _ _ (slot_entry Ht t Hp Ht0)) as Hd. cbn [table fst] in Hd.
  rewrite (proj2 (Z.eqb_eq _ _) Hp), Hd. cbn [negb orb]. intros (k1 & i & Ea & H)%rbind_ok.
  destruct (alloc_pid_reserved k k1 i Hr Ea) as [R _].
  apply (spawn_thread_as_ok _ _ _ _ _ _ _ _ _ _ _ _ R) in H as (-> & k2 & rg & sb & st & tls & va & R2 & ->).
  destruct (leader_owner Ht t Hp Ht0 Hth) as [_ El]. cbn [table fst] in El. rewrite El.
  unfold caps_of, publish_thread. cbn [PTABLE with_PTABLE]. rewrite (reserved_ptable _ _ _ R2).
  pose proof (slot_put Ht i i) as Hput. cbn [table fst] in Hput. rewrite Hput, decide_True by done.
  cbn [pid state caps is_dead negb]. by rewrite Z.eqb_refl.
Qed.

(** ** A table *)

(** Process 1 with its thread 2, and process 257, whose slot is that of 1, in
    its place. *)
Definition idle_cpu : Cpu := mkCpu 0 0 [] 0 0x1000 false UserRegs_default.
Definition sample_kernel (s : Paging.Mm) (pt : list Process) (next : Z) : Kernel :=
  mkKernel pt next (replicate 8 0) s VaAlloc.LibTable_new (AppRegistry.Recovery_init Wm.Core_init) 0 1 0
    (replicate MAX_CPUS false) (λ _, idle_cpu) [].
Definition sample_process (i pml4 cp : Z) (st : ProcState) : Process :=
  mkProcess i pml4 UserRegs_default st 0 cp 0 0 [] false 0 0 10 0 0 (replicate 32 0) 0 0 false 0 0 None
    true 0.
Definition sample_thread (i pml4 owner : Z) : Process :=
  mkProcess i pml4 UserRegs_default Running 0 CAP_NET 0 0 [] true owner 0 10 0 0 (replicate 32 0) 0 0 false
    0x310000000 4096 None true 0.
Definition sample_pt : list Process :=
  put (put (replicate MAX_PROCS Process_empty) 1 (sample_process 1 0x100000 CAP_NET Running)) 2
    (sample_thread 2 0x100000 1).

Lemma sample_pt_changes : rtc change (replicate MAX_PROCS Process_empty, 1) (sample_pt, 3).
Proof.
  eapply rtc_l; [apply (ch_publish _ 1 (sample_process 1 0x100000 CAP_NET Running)); done|].
  eapply rtc_l; [apply (ch_publish _ 2 (sample_thread 2 0x100000 1)); done|done].
Qed.

Lemma sample_pt_ok : table_ok (sample_pt, 3).
Proof. exact (changes_ok _ _ boot_table_ok sample_pt_changes). Qed.

(** A call evaluated. *)
Definition run_or (k : Kernel) (m : outcome Kernel) : Kernel := match m with Val k' => k' | Panic => k end.
Definition runs (m : outcome Kernel) : bool := match m with Val _ => true | Panic => false end.

Lemma runs_val k m : runs m = true → m = Val (run_or k m).
Proof. by destruct m. Qed.

Definition kernel1 : Kernel := sample_kernel Paging.sample_active sample_pt 3.
Definition kernel2 : Kernel := run_or kernel1 (exit kernel1 true true 2 7).

Lemma kernel1_exit : exit kernel1 true true 2 7 = Val kernel2.
Proof. apply runs_val. vm_compute. reflexivity. Qed.

(** Thread 2 exits and is reaped. *)
Lemma kernel1_steps : rtc (kstep [] [] [] 0) kernel1 (waitpid kernel2 2).1.
Proof.
  eapply rtc_l; [exists (Exit true true 2 7); split; [exact I|split; [|exact kernel1_exit]]|].
  { split; vm_compute; reflexivity. }
  eapply rtc_l; [exists (WaitPid 2); split; [exact I|split; [|reflexivity]]|apply rtc_refl].
  split; vm_compute; reflexivity.
Qed.

Lemma process_table_witness :
  ∃ k', rtc (kstep [] [] [] 0) kernel1 k' ∧ length (PTABLE k') = MAX_PROCS.
Proof.
  exists (waitpid kernel2 2).1. split; [exact kernel1_steps|].
  exact (proj1 (process_table_invariant [] [] [] 0 kernel1 _ sample_pt_ok kernel1_steps)).
Defined.

(** The thread of process 1. *)
Lemma leader_walk_witness : leader_loop 2 (PTABLE kernel1) 2 = Some 1.
Proof.
  refine (eq_trans (proj1 (leader_walk_terminates [] [] [] 0 kernel1 kernel1 2 2 sample_pt_ok
    (rtc_refl _ _) (le_n 2))) _). vm_compute. reflexivity.
Defined.

Lemma exit_code_witness :
  ∃ k2, waitpid kernel2 2 = (k2, Ok 7) ∧ waitpid k2 2 = (k2, Err "no such process").
Proof.
  destruct (exit_code_collected_once kernel1 true true 2 7 kernel2 sample_pt_ok
    ltac:(vm_compute; reflexivity) ltac:(left; vm_compute; reflexivity) kernel1_exit)
    as (_ & k2 & H1 & _ & H2 & _).
  exists k2. split; [exact H1|exact H2].
Defined.

(** Process 1 has exited; its root frame is the root of a new space. *)
Definition kernel3 : Kernel :=
  sample_kernel Paging.sample_active
    (put (replicate MAX_PROCS Process_empty) 1 (sample_process 1 0x100000 CAP_NET (Zombie 0))) 2.

Lemma kill_zombie_witness :
  ∃ k', kill kernel3 true true 1 = Val (k', Ok tt) ∧
    FrameAlloc.is_free (FrameAlloc.bits (Paging.frames (mm k'))) (0x100000 / 4096) = true.
Proof.
  refine (proj2 (kill_zombie_frees_again kernel3 true true 1 0 [0x100000] [Paging.sample_space]
    _ _ _ _ Paging.sample_rel _)); try (vm_compute; reflexivity). apply list_elem_of_singleton; reflexivity.
Defined.

(** Process 1 has gone and 257 is in its slot; thread 2 is still there. *)
Definition kernel4 : Kernel :=
  sample_kernel (Paging.mkMm (λ _, 0)
      (FrameAlloc.init_from_regions FrameAlloc.FrameBitmap_new (FrameAlloc.map_push [] 0x100000 0x40000) 0)
      0x1000 [])
    (put sample_pt 257 (sample_process 257 0x200000 ALL_CAPS Running)) 258.

Lemma skip_to n m pt : n ≤ m → rtc change (pt, n) (pt, m).
Proof.
  intros H. replace m with (n + Z.of_nat (Z.to_nat (m - n))) by lia. generalize (Z.to_nat (m - n)).
  clear. intros j. induction j as [|j IH]; [by rewrite Z.add_0_r|].
  etrans; [exact IH|]. apply rtc_once. rewrite Nat2Z.inj_succ, Z.add_succ_r. apply ch_skip.
Qed.

Lemma kernel4_ok : table_ok (table kernel4).
Proof.
  refine (changes_ok _ _ sample_pt_ok _).
  eapply rtc_l; [apply (ch_touch _ _ 1 (sample_process 1 0x100000 CAP_NET Running)
    (sample_process 1 0x100000 CAP_NET (Zombie 0))); [reflexivity|done|by split]|].
  eapply rtc_l; [apply (ch_reap _ _ 1 (sample_process 1 0x100000 CAP_NET (Zombie 0))); [reflexivity|done|done]|].
  etrans; [apply (skip_to 3 257); lia|].
  eapply rtc_l; [apply (ch_publish _ 257 (sample_process 257 0x200000 ALL_CAPS Running)); done|].
  apply rtc_refl.
Qed.

Definition val_ok (m : outcome (Kernel * result Z)) : bool :=
  match m with Val (_, Ok _) => true | _ => false end.

Lemma val_ok_ok m : val_ok m = true → ∃ k' tid, m = Val (k', Ok tid).
Proof. destruct m as [[k' [tid|e]]|]; [|discriminate..]. intros _. by exists k', tid. Qed.

Lemma orphan_spawns : val_ok (spawn_thread 0 kernel4 2 0x400000 0 8192) = true.
Proof. vm_compute. reflexivity. Qed.

(** The thread has [NET] only; its new thread has every capability. *)
Lemma orphan_caps_witness :
  caps_of kernel4 2 = CAP_NET ∧
  ∃ k' tid, spawn_thread 0 kernel4 2 0x400000 0 8192 = Val (k', Ok tid) ∧ caps_of k' tid = ALL_CAPS.
Proof.
  split; [vm_compute; reflexivity|]. destruct (val_ok_ok (spawn_thread 0 kernel4 2 0x400000 0 8192) orphan_spawns) as (k' & tid & E).
  exists k', tid. split; [exact E|].
  assert (pid (slot (PTABLE kernel4) 2) = 2) as Hp by (vm_compute; reflexivity).
  assert (is_thread (slot (PTABLE kernel4) 2) = true) as Hth by (vm_compute; reflexivity).
  assert (pid (slot (PTABLE kernel4) (parent_pid (slot (PTABLE kernel4) 2))) ≠
    parent_pid (slot (PTABLE kernel4) 2)) as Hg by (vm_compute; congruence).
  assert (pid_room kernel4) as Hr by (vm_compute; split; reflexivity).
  rewrite (orphan_thread_takes_caps 0 kernel4 2 0x400000 0 8192 k' tid kernel4_ok Hr Hp
    ltac:(lia) Hth Hg E).
  vm_compute. reflexivity.
Defined.
End Process.
