(* ===== verification/Dispatch.v ===== *)
(** * Dispatch of processes to processors ([process/mod.rs],
      [arch/x86_64/idt.rs], [arch/x86_64/enter_user.rs])

    A processor picks a process of the table, claims it ([current_cpu]), loads
    its context and enters user mode; the timer interrupt takes the processor
    away again.  Picking and claiming are under the table lock, loading is a
    second critical section, so they are separate steps here.  The answers of
    the window manager that the pick depends on (focus, pending input, due
    vsync baton) are the interface [WmQueries].

    [pick_correct] says what the pick returns, [pick_no_starvation] that it
    goes round, [one_cpu_per_process] that no live process is run by two
    processors, and [preempted_context_restored] that a preempted process
    resumes with the registers it was interrupted with, whatever ran in
    between.  [wake_assist_revives_zombie] and [exec_wait_claim_steals] are
    defects. *)

From Stdlib Require Import ZArith Lia.
From stdpp Require Import base numbers strings option relations list.
From S2P Require Import Prelude EventQueue Wm FrameAlloc Paging VaAlloc AppRegistry Process.

Local Open Scope Z_scope.

(** What the dispatcher asks of the window manager. *)
Class WmQueries := {
  focus_pid : Z;
  input_pending_for : Z → nat;
  embedder_baton_due : Z → bool;
  flutter_init_ready : bool
}.

Module Dispatch.
Import Process.

(** The window manager of [Wm] on a process table. *)
Definition wm_queries (w : Wm.Wm) {t : pstate} (Ht : table_ok t) : WmQueries :=
  let PG := table_groups t Ht in {|
  focus_pid := Wm.FOCUS_PID (Wm.core w);
  input_pending_for := Wm.input_pending_count_for (Wm.core w);
  embedder_baton_due := Wm.baton_vsync_queued_for (Wm.core w);
  flutter_init_ready := Wm.FLUTTER_INIT_READY w
|}.

(** ** Claims *)

(** [current_cpu.is_none() || current_cpu == Some(my_cpu)]. *)
Definition free_for (p : Process) (my_cpu : Z) : bool :=
  match current_cpu p with None => true | Some c => c =? my_cpu end.

Definition claim (pt : list Process) (i my_cpu : Z) : list Process :=
  put pt i (set_current_cpu (slot pt i) (Some my_cpu)).

Definition smp (k : Kernel) : bool := 1 <? CPU_COUNT k.

Definition home_ok (smp : bool) (p : Process) (my_cpu : Z) : bool :=
  negb smp || (home_cpu p =? my_cpu).

Definition claim_process_on_cpu (k : Kernel) (i cpu_id : Z) : Kernel :=
  modify k i (λ p, set_current_cpu p (Some cpu_id)).

Definition try_claim_cpu_for (k : Kernel) (i my_cpu : Z) : Kernel * bool :=
  let p := slot (PTABLE k) i in
  if (pid p =? i) && is_running (state p) && free_for p my_cpu
  then (with_PTABLE k (claim (PTABLE k) i my_cpu), true) else (k, false).

Definition try_claim_cpu_for_try (k : Kernel) (lock_free : bool) (i my_cpu : Z) : Kernel * bool :=
  if negb lock_free then (k, false)
  else
    let p := slot (PTABLE k) i in
    if (pid p =? i) && is_running (state p) then
      if smp k && negb (home_cpu p =? my_cpu) then (k, false)
      else if free_for p my_cpu then (with_PTABLE k (claim (PTABLE k) i my_cpu), true)
      else (k, false)
    else (k, false).

(** ** The pick *)

Section pick.
Context {W : WmQueries}.

Definition fg_group (pt : list Process) : Z :=
  if 1 <? focus_pid then get_group_leader_locked pt focus_pid else 1.

Definition alive (pt : list Process) (i : Z) : bool :=
  let p := slot pt i in (pid p =? i) && negb (is_zombie (state p)) && negb (is_dead (state p)).

Definition exclusive (pt : list Process) : bool := (1 <? fg_group pt) && alive pt (fg_group pt).

(** Whether the foreground rule lets the process run. *)
Definition in_foreground (pt : list Process) (i : Z) : bool :=
  negb (exclusive pt) || (get_group_leader_locked pt i =? fg_group pt).

(** The process of the shortcuts: the slot holds it, it is runnable here and
    not claimed by another processor. *)
Definition ready_here (pt : list Process) (smp : bool) (i my_cpu : Z) : bool :=
  let p := slot pt i in
  (pid p =? i) && is_running (state p) && home_ok smp p my_cpu && free_for p my_cpu.

Definition input_target : Z := if negb (focus_pid =? 0) then focus_pid else 1.

(** One entry of the round-robin scan. *)
Definition eligible (pt : list Process) (smp : bool) (current my_cpu : Z) (p : Process) : bool :=
  negb (pid p =? 0) && is_running (state p) && home_ok smp p my_cpu && in_foreground pt (pid p) &&
  free_for p my_cpu && ((current =? 0) || negb (pid p =? current)).

Definition scan_start (current : Z) : nat :=
  if current =? 0 then 0%nat else idx_of (u32 (current + 1)).

Definition scan (pt : list Process) (smp : bool) (current my_cpu : Z) : option nat :=
  find_first (λ idx, eligible pt smp current my_cpu (pt !!! idx))
    ((λ off, ((scan_start current + off) mod MAX_PROCS)%nat) <$> seq 0 MAX_PROCS).

Definition next_runnable_pid_locked (pt : list Process) (smp : bool) (current my_cpu : Z)
    : list Process * option Z :=
  if in_foreground pt input_target && negb (input_target =? 0) &&
     (0 <? input_pending_for input_target)%nat && negb (current =? input_target) &&
     ready_here pt smp input_target my_cpu
  then (claim pt input_target my_cpu, Some input_target)
  else if negb (exclusive pt) && negb (current =? 1) && embedder_baton_due 1 &&
          ready_here pt smp 1 my_cpu
  then (claim pt 1 my_cpu, Some 1)
  else
    match scan pt smp current my_cpu with
    | Some idx =>
        let p := pt !!! idx in (<[idx := set_current_cpu p (Some my_cpu)]> pt, Some (pid p))
    | None =>
        if negb (current =? 0) && ready_here pt smp current my_cpu && in_foreground pt current
        then (claim pt current my_cpu, Some current) else (pt, None)
    end.

Definition next_runnable_pid (k : Kernel) (my_cpu current : Z) : Kernel * option Z :=
  if negb (PENDING_INIT_PID k =? 0) then (k, None)
  else
    let '(pt, o) := next_runnable_pid_locked (PTABLE k) (smp k) current my_cpu in
    (with_PTABLE k pt, o).

Definition sibling_ok (pt : list Process) (group current my_cpu : Z) (p : Process) : bool :=
  negb ((pid p =? 0) || (pid p =? current)) && is_running (state p) && free_for p my_cpu &&
  (get_group_leader_locked pt (pid p) =? group) && negb (pid p =? group).

Definition next_runnable_sibling_thread_locked (pt : list Process) (current my_cpu : Z) : option Z :=
  if negb (pid (slot pt current) =? current) then None
  else
    let group := get_group_leader_locked pt current in
    option_map (λ idx, pid (pt !!! idx))
      (find_first (λ idx, sibling_ok pt group current my_cpu (pt !!! idx))
         ((λ off, ((idx_of (u32 (current + 1)) + off) mod MAX_PROCS)%nat) <$> seq 0 MAX_PROCS)).

Definition next_runnable_sibling_thread (k : Kernel) (my_cpu current : Z) : Kernel * option Z :=
  match next_runnable_sibling_thread_locked (PTABLE k) current my_cpu with
  | Some sib =>
      if free_for (slot (PTABLE k) sib) my_cpu
      then (with_PTABLE k (claim (PTABLE k) sib my_cpu), Some sib) else (k, None)
  | None => (k, None)
  end.
End pick.

(** ** Saving contexts *)

Definition get_regs (k : Kernel) (i : Z) : option UserRegs :=
  query k i (λ p, if is_running (state p) then Some (regs p) else None) None.

Definition save_regs (k : Kernel) (i : Z) (r : UserRegs) : Kernel := modify k i (λ p, set_regs p r).

Definition save_xstate (k : Kernel) (c i : Z) : Kernel :=
  modify k i (λ p, set_xstate p (live_xstate (cpus k c))).

(** The live registers after [restore_xstate]. *)
Definition restore_xstate (k : Kernel) (c i : Z) : bytes :=
  query k i (λ p, if is_running (state p) then xstate p else live_xstate (cpus k c))
    (live_xstate (cpus k c)).

Definition set_rflags (r : UserRegs) (fl : Z) : UserRegs :=
  mkRegs (rip r) (rsp r) fl (rax r) (rbx r) (rcx r) (rdx r) (rsi r) (rdi r) (rbp r) (r8 r) (r9 r)
    (r10 r) (r11 r) (r12 r) (r13 r) (r14 r) (r15 r).

Definition set_rax (k : Kernel) (i v : Z) : Kernel :=
  modify k i (λ p, let r := regs p in
    set_regs p (mkRegs (rip r) (rsp r) (rflags r) v (rbx r) (rcx r) (rdx r) (rsi r) (rdi r) (rbp r)
                  (r8 r) (r9 r) (r10 r) (r11 r) (r12 r) (r13 r) (r14 r) (r15 r))).

Definition set_errno_of (k : Kernel) (i errno : Z) : Kernel :=
  modify k i (λ p, set_errno_to_deliver p errno).

Definition take_errno_to_deliver (k : Kernel) (i : Z) : Kernel * Z :=
  (modify k i (λ p, set_errno_to_deliver p 0), query k i errno_to_deliver 0).

(** The context of a thread that yields in a system call, resumed by [iretq]. *)
Definition save_cooperative_yield_context (k : Kernel) (c i urip ursp : Z) : Kernel :=
  let k1 := save_full_user_gprs k c i in
  let fs := fs_base_msr (cpus k c) in
  modify k1 i (λ p, let r := regs p in
    set_fs_base (set_preempted_by_timer (set_regs p
      (mkRegs urip ursp 0x202 (rax r) (rbx r) urip (rdx r) (rsi r) (rdi r) (rbp r) (r8 r) (r9 r)
         (r10 r) 0x202 (r12 r) (r13 r) (r14 r) (r15 r))) true) fs).

Definition save_return_context (k : Kernel) (c i urip ursp : Z) : Kernel :=
  let fs := fs_base_msr (cpus k c) in
  modify k i (λ p, let r := regs p in
    set_fs_base (set_preempted_by_timer (set_regs p
      (mkRegs urip ursp 0x202 (rax r) (rbx r) (rcx r) (rdx r) (rsi r) (rdi r) (rbp r) (r8 r) (r9 r)
         (r10 r) (r11 r) (r12 r) (r13 r) (r14 r) (r15 r))) false) fs).

Definition SYSCALL_INSN_LEN : Z := 2.

Definition save_return_context_reexec (k : Kernel) (c i urip ursp : Z) : Kernel :=
  save_return_context k c i (u64 (urip - SYSCALL_INSN_LEN)) ursp.

Definition capture_user_gprs_at_entry (k : Kernel) (c i : Z) : Kernel :=
  let cpu := cpus k c in
  save_full_user_gprs
    (set_cpu k c (mkCpu (current_pid cpu) (fs_base_msr cpu) (live_xstate cpu) (active_stack_top cpu)
                    (cpu_cr3 cpu) false (user_gprs cpu))) c i.

(** ** Entering user mode *)

Definition set_current_pid (k : Kernel) (c i : Z) : Kernel :=
  let cpu := cpus k c in
  set_cpu k c (mkCpu i (fs_base_msr cpu) (live_xstate cpu) (active_stack_top cpu) (cpu_cr3 cpu)
                 (gprs_captured cpu) (user_gprs cpu)).

(** The registers user code sees after [iretq] and after [sysretq]. *)
Definition enter_user_iret (r : UserRegs) : UserRegs := set_rflags r (Z.lor (rflags r) 0x200).

Definition enter_user_sysret (r : UserRegs) : UserRegs :=
  mkRegs (rip r) (rsp r) (rflags r) (rax r) (rbx r) (rip r) (rdx r) (rsi r) (rdi r) (rbp r) (r8 r)
    (r9 r) (r10 r) (rflags r) (r12 r) (r13 r) (r14 r) (r15 r).

Definition SD_ERRNO : Z := SYSDATA_VA + 32.

(** The second critical section of [enter_user_by_pid_noreturn], for the process
    chosen by the first: what it reads is the entry before the two resets. *)
Definition enter_table (k : Kernel) (c i : Z) : outcome (Kernel * Process) :=
  let p := slot (PTABLE k) i in
  if negb (pid p =? i) then Panic
  else
    let p1 := set_preempted_by_timer
                (set_errno_to_deliver (set_current_cpu p (Some c)) 0) false in
    Val (with_PTABLE k (put (PTABLE k) i p1), p).

(** What follows it on the processor, with the entry that was read; the
    floating-point state is read from the table once more. *)
Definition enter_cpu (k : Kernel) (c i : Z) (p : Process) : Kernel * UserRegs :=
  let cpu := cpus k c in
  let k1 := set_cpu k c (mkCpu i (fs_base p) (restore_xstate k c i) (syscall_stack_top p)
                           (pml4_phys p) (gprs_captured cpu) (user_gprs cpu)) in
  let k2 := if negb (errno_to_deliver p =? 0) then user_store k1 SD_ERRNO (errno_to_deliver p)
            else k1 in
  (k2, if preempted_by_timer p then enter_user_iret (regs p) else enter_user_sysret (regs p)).

Definition enter_load (k : Kernel) (c i : Z) : outcome (Kernel * UserRegs) :=
  let! r := enter_table k c i in Val (enter_cpu r.1 c i r.2).

(** The critical section of [enter_user_by_pid_noreturn_try]. *)
Definition enter_table_try (k : Kernel) (lock_free : bool) (i : Z) : Kernel * option Process :=
  if negb lock_free then (k, None)
  else
    let p := slot (PTABLE k) i in
    if negb (pid p =? i) then (k, None)
    else
      let p1 := set_preempted_by_timer (set_errno_to_deliver p 0) false in
      (with_PTABLE k (put (PTABLE k) i p1), Some p).

(** [enter_user_by_pid_noreturn_try]: the caller has claimed the process. *)
Definition enter_user_by_pid_noreturn_try (k : Kernel) (lock_free : bool) (c i : Z)
    : Kernel * option UserRegs :=
  match enter_table_try k lock_free i with
  | (k1, Some p) => let '(k2, u) := enter_cpu k1 c i p in (k2, Some u)
  | (k1, None) => (k1, None)
  end.

Section dispatch.
Context {W : WmQueries}.

(** One round of the claim loop of [enter_user_by_pid_noreturn]: the requested
    process, in a critical section of its own; *)
Definition enter_take (k : Kernel) (c req_pid : Z) : Kernel * bool :=
  let p := slot (PTABLE k) req_pid in
  if (pid p =? req_pid) && free_for p c
  then (with_PTABLE k (claim (PTABLE k) req_pid c), true)
  else (k, false).

(** or another one, or [None] and the processor halts and tries again. *)
Definition enter_other (k : Kernel) (c req_pid : Z) : Kernel * option Z :=
  match next_runnable_pid k c (current_pid (cpus k c)) with
  | (k1, Some other) => if negb (other =? req_pid) then (k1, Some other) else (k1, None)
  | (k1, None) => (k1, None)
  end.

Definition enter_claim (k : Kernel) (c req_pid : Z) : Kernel * option Z :=
  match enter_take k c req_pid with
  | (k1, true) => (k1, Some req_pid)
  | (k1, false) => enter_other k1 c req_pid
  end.

(** ** The timer interrupt *)

Definition save_preempted (k : Kernel) (c cur : Z) (r : UserRegs) (p : Process) : Process :=
  let p1 :=
    if (pid p =? cur) && is_running (state p)
    then set_current_cpu (set_fs_base (set_preempted_by_timer
           (set_regs p (set_rflags r (Z.lor (rflags r) 0x200))) true) (fs_base_msr (cpus k c))) None
    else p in
  if pid p1 =? cur then set_xstate p1 (live_xstate (cpus k c)) else p1.

Definition timer_preempt_switch (k : Kernel) (preempt_disabled : bool) (c cur : Z) (r : UserRegs)
    : Kernel * option (Z * UserRegs * Z) :=
  if preempt_disabled then (k, None)
  else
    match next_runnable_pid_locked (PTABLE k) (smp k) cur c with
    | (pt, None) => (with_PTABLE k pt, None)
    | (pt, Some next) =>
        if next =? cur then (with_PTABLE k pt, None)
        else
          let p_cur := save_preempted k c cur r (slot pt cur) in
          let pt1 := put pt cur p_cur in
          let p_next := slot pt1 next in
          if negb (pid p_next =? next) || negb (is_running (state p_next))
          then (with_PTABLE k (put pt1 cur (set_current_cpu p_cur (Some c))), None)
          else
            let pt2 := put pt1 next (set_current_cpu p_next (Some c)) in
            let cpu := cpus k c in
            (set_cpu (with_PTABLE k pt2) c
               (mkCpu next (fs_base p_next) (xstate p_next) (syscall_stack_top p_next) (cpu_cr3 cpu)
                  (gprs_captured cpu) (user_gprs cpu)),
             Some (next, regs p_next, pml4_phys p_next))
    end.

Definition timer_preempt_switch_try (k : Kernel) (preempt_disabled lock_free : bool) (c cur : Z)
    (r : UserRegs) : Kernel * option (Z * UserRegs * Z) :=
  if preempt_disabled || lock_free then timer_preempt_switch k preempt_disabled c cur r else (k, None).

Definition write_cr3 (k : Kernel) (c pml4 : Z) : Kernel :=
  let cpu := cpus k c in
  set_cpu k c (mkCpu (current_pid cpu) (fs_base_msr cpu) (live_xstate cpu) (active_stack_top cpu) pml4
                 (gprs_captured cpu) (user_gprs cpu)).

(** The frame of the interrupt, rewritten when another thread was chosen. *)
Definition resume_frame (c : Z) (frame : UserRegs) (r : Kernel * option (Z * UserRegs * Z))
    : Kernel * UserRegs :=
  match r with
  | (k1, Some (_, next_regs, pml4)) => (write_cr3 k1 c pml4, enter_user_iret next_regs)
  | (k1, None) => (k1, frame)
  end.

(** The reschedule interrupt in user mode. *)
Definition apic_resched_handler (k : Kernel) (preempt_disabled : bool) (c : Z) (frame : UserRegs)
    : Kernel * UserRegs :=
  let cur := current_pid (cpus k c) in
  if negb (cur =? 0)
  then resume_frame c frame (timer_preempt_switch k preempt_disabled c cur frame)
  else (k, frame).

Definition account_tick_try (k : Kernel) (lock_free : bool) (i : Z) : Kernel * option bool :=
  if lock_free then let '(k1, b) := account_tick k i in (k1, Some b) else (k, None).

Definition work_due (i : Z) : bool := (0 <? input_pending_for i)%nat || embedder_baton_due i.

(** The timer interrupt in user mode; [lf1] and [lf2]: whether the table lock
    was free at the two attempts. *)
Definition apic_timer_user (k : Kernel) (preempt_disabled lf1 lf2 : bool) (c : Z) (frame : UserRegs)
    : Kernel * UserRegs :=
  let cur := current_pid (cpus k c) in
  let '(k1, expired) := account_tick_try k lf1 cur in
  let target := input_target in
  let should_preempt := default false expired ||
    (negb (cur =? 0) && negb (target =? 0) && negb (cur =? target) && flutter_init_ready &&
     work_due target) in
  if should_preempt
  then resume_frame c frame (timer_preempt_switch_try k1 preempt_disabled lf2 c cur frame)
  else (k1, frame).

Definition home_cpu_of_try (k : Kernel) (lock_free : bool) (i : Z) : option Z :=
  if lock_free then Some (query k i home_cpu 0) else None.

Definition is_blocked_try (k : Kernel) (lock_free : bool) (i : Z) : bool := lock_free && is_blocked k i.

Definition set_state_try (k : Kernel) (lock_free : bool) (i : Z) (st : ProcState) : Kernel * bool :=
  if lock_free && (pid (slot (PTABLE k) i) =? i) then ((set_state_of k i st).1, true) else (k, false).

(** The timer interrupt in kernel mode: the wake-assist of the focused process,
    with the lock free at each attempt.  The result is the registers it is
    entered with. *)
Definition wake_assist (k : Kernel) (c : Z) : Kernel * option UserRegs :=
  let cur := current_pid (cpus k c) in
  let target := input_target in
  if negb (target =? 0) && bool_decide (home_cpu_of_try k true target = Some c) &&
     flutter_init_ready && ((cur =? 0) || is_blocked_try k true cur) && work_due target
  then
    match set_state_try k true target Running with
    | (k1, true) =>
        if negb (cur =? target) then
          match try_claim_cpu_for_try k1 true target c with
          | (k2, true) => enter_user_by_pid_noreturn_try k2 true c target
          | (k2, false) => (k2, None)
          end
        else (k1, None)
    | (k1, false) => (k1, None)
    end
  else (k, None).

(** The launch of the first process. *)
Definition user_launch_claim (k : Kernel) (c : Z) : Kernel * Z :=
  let i := PENDING_INIT_PID k in
  (with_PENDING_INIT_PID (modify k i (λ p, set_current_cpu p (Some c))) 0, i).
End dispatch.

(** ** What the pick returns *)

(** The process [i] may be run by [my_cpu] now. *)
Definition may_run {W : WmQueries} (pt : list Process) (smp : bool) (my_cpu i : Z) : bool :=
  ready_here pt smp i my_cpu && in_foreground pt i.

Lemma entry_slot t idx :
  table_ok t → (idx < MAX_PROCS)%nat → pid (t.1 !!! idx) ≠ 0 →
  idx_of (pid (t.1 !!! idx)) = idx ∧ slot t.1 (pid (t.1 !!! idx)) = t.1 !!! idx.
Proof.
  intros Ht Hi Hp. assert (t.1 !! idx = Some (t.1 !!! idx)) as Hl.
  { apply list_lookup_lookup_total_lt. by rewrite (tb_len _ Ht). }
  destruct (tb_entry _ Ht _ _ Hl) as [E|[_ E _ _]]; [by rewrite E in Hp|].
  split; [done|]. unfold slot. by rewrite E.
Qed.

Section pick_lemmas.
Context {W : WmQueries} {t : pstate} (Ht : table_ok t).

Lemma scan_range current idx : idx ∈ ((λ off, ((scan_start current + off) mod MAX_PROCS)%nat) <$>
  seq 0 MAX_PROCS) → (idx < MAX_PROCS)%nat.
Proof. intros (off & -> & _)%list_elem_of_fmap. by apply Nat.mod_upper_bound. Qed.

(** The scan passes every slot. *)
Lemma scan_covers current idx : (idx < MAX_PROCS)%nat →
  idx ∈ ((λ off, ((scan_start current + off) mod MAX_PROCS)%nat) <$> seq 0 MAX_PROCS).
Proof.
  intros Hi. assert (scan_start current < MAX_PROCS)%nat as Hs.
  { unfold scan_start. case_if; [unfold MAX_PROCS; lia|apply idx_of_lt]. }
  apply list_elem_of_fmap. exists ((idx + MAX_PROCS - scan_start current) mod MAX_PROCS)%nat. split.
  - rewrite Nat.Div0.add_mod_idemp_r.
    replace (scan_start current + (idx + MAX_PROCS - scan_start current))%nat
      with (idx + 1 * MAX_PROCS)%nat by lia.
    by rewrite Nat.Div0.mod_add, Nat.mod_small.
  - apply elem_of_seq. split; [lia|]. by apply Nat.mod_upper_bound.
Qed.

Lemma eligible_slot smp current my_cpu idx :
  (idx < MAX_PROCS)%nat → eligible t.1 smp current my_cpu (t.1 !!! idx) = true →
  pid (t.1 !!! idx) ≠ 0 ∧ idx_of (pid (t.1 !!! idx)) = idx ∧
  may_run t.1 smp my_cpu (pid (t.1 !!! idx)) = true ∧ (current = 0 ∨ pid (t.1 !!! idx) ≠ current).
Proof.
  intros Hi He. unfold eligible in He. unbool. destruct (entry_slot t idx Ht Hi ltac:(done)) as [Ei Es].
  split_and!; [done|done| |].
  - unfold may_run, ready_here. rewrite Es, Z.eqb_refl.
    repeat match goal with H : _ = true |- _ => rewrite H end. done.
  - match goal with H : _ || _ = true |- _ => apply orb_true_iff in H as [H|H]; [left|right] end; by unbool.
Qed.
End pick_lemmas.

Lemma pick_spec {W : WmQueries} t smp current my_cpu :
  table_ok t →
  match next_runnable_pid_locked t.1 smp current my_cpu with
  | (pt', Some i) => i ≠ 0 ∧ may_run t.1 smp my_cpu i = true ∧ pt' = claim t.1 i my_cpu
  | (pt', None) => pt' = t.1 ∧ ∀ i, i ≠ 0 → may_run t.1 smp my_cpu i = false
  end.
Proof.
  intros Ht. unfold next_runnable_pid_locked.
  case_if; [|case_if]; [..|destruct (scan _ _ _ _) as [idx|] eqn:Es; [|case_if]].
  - unbool. split_and!; try done. unfold may_run. by apply andb_true_iff.
  - unbool. split_and!; try done. unfold may_run, in_foreground. apply andb_true_iff. split; [done|].
    by apply orb_true_iff; left; apply negb_true_iff.
  - apply find_first_Some in Es as [Hr He]. apply scan_range in Hr.
    destruct (eligible_slot Ht _ _ _ _ Hr He) as (Hp & Ei & Hm & _). split_and!; try done.
    unfold claim, put. rewrite (proj2 (entry_slot t idx Ht Hr Hp)). by rewrite Ei.
  - unbool. split_and!; try done. by apply andb_true_iff.
  - split; [done|]. intros i Hi. destruct (may_run _ _ _ _) eqn:Em; [|done]. exfalso.
    unfold may_run in Em. apply andb_true_iff in Em as [Er Ef].
    unfold scan in Es. rewrite find_first_None in Es. specialize (Es _ (scan_covers current _ (idx_of_lt i))).
    fold (slot t.1 i) in Es. unfold eligible in Es. pose proof Er as Er'. unfold ready_here in Er'. unbool.
    match goal with H : pid (slot t.1 i) = i |- _ => rename H into Hp end. rewrite Hp in Es.
    rewrite (proj2 (Z.eqb_neq i 0) Hi), Ef in Es.
    repeat match goal with H : _ = true |- _ => rewrite H in Es end. cbn in Es. unbool. subst i.
    match goal with H : _ && _ && _ = false |- _ => rewrite Er, Ef, (proj2 (Z.eqb_neq current 0)) in H; done end.
Qed.

(** The dispatcher hands out a process exactly when there is one the processor
    may run: it is live in its slot, runnable, pinned to this processor when
    there are several, in the foreground group when that is exclusive, and not
    claimed by another processor.  It is claimed and nothing else changes; the
    focused process comes first when it has input pending. *)
Theorem pick_correct {W : WmQueries} t smp current my_cpu :
  table_ok t →
  match next_runnable_pid_locked t.1 smp current my_cpu with
  | (pt', Some i) => i ≠ 0 ∧ may_run t.1 smp my_cpu i = true ∧ pt' = claim t.1 i my_cpu
  | (pt', None) => pt' = t.1 ∧ ∀ i, i ≠ 0 → may_run t.1 smp my_cpu i = false
  end ∧
  ((0 < input_pending_for input_target)%nat → input_target ≠ 0 → current ≠ input_target →
   may_run t.1 smp my_cpu input_target = true →
   (next_runnable_pid_locked t.1 smp current my_cpu).2 = Some input_target).
Proof.
  intros Ht. split; [by apply pick_spec|]. intros Hin Hne Hcur Hm. unfold next_runnable_pid_locked.
  unfold may_run in Hm. apply andb_true_iff in Hm as [-> ->].
  by rewrite (proj2 (Z.eqb_neq _ _) Hne), (proj2 (Z.eqb_neq _ _) Hcur), (proj2 (Nat.ltb_lt _ _) Hin).
Qed.

(** ** Updates that keep the groups *)

Lemma leader_loop_ext pt pt' n j :
  (∀ j, same_process (slot pt j) (slot pt' j)) → leader_loop n pt' j = leader_loop n pt j.
Proof.
  intros H. revert j. induction n as [|n IH]; intros j; cbn; [done|]. destruct (H j) as [E1 E2 E3 _ _].
  rewrite E1, E2. destruct (is_thread (slot pt j)) eqn:Et; [|by rewrite andb_false_r].
  rewrite (E3 eq_refl). by rewrite IH.
Qed.

Lemma same_process_refl p : same_process p p.
Proof. done. Qed.

Section keep.
Context {t : pstate} (Ht : table_ok t).

Lemma same_slots i p' j : same_process (slot t.1 i) p' → same_process (slot t.1 j) (slot (put t.1 i p') j).
Proof.
  intros H. rewrite (slot_put Ht). case_decide as E; [|apply same_process_refl].
  unfold slot in *. by rewrite <- E.
Qed.

Lemma leader_put i p' j :
  same_process (slot t.1 i) p' →
  get_group_leader_locked (put t.1 i p') j = get_group_leader_locked t.1 j.
Proof.
  intros H. unfold get_group_leader_locked. by rewrite (leader_loop_ext t.1 (put t.1 i p'))
    by (intros; by apply same_slots).
Qed.

Lemma put_ok i p' :
  pid (slot t.1 i) = i → i ≠ 0 → same_process (slot t.1 i) p' → table_ok (put t.1 i p', t.2).
Proof.
  intros Hp Hi S. apply (same_process_ok _ _ _ (slot t.1 i)).
  - by destruct t.
  - apply (slot_lookup Ht).
  - by rewrite Hp.
  - done.
Qed.

Lemma claim_same i c : same_process (slot t.1 i) (set_current_cpu (slot t.1 i) (Some c)).
Proof. done. Qed.

Lemma claim_ok i c : pid (slot t.1 i) = i → i ≠ 0 → table_ok (claim t.1 i c, t.2).
Proof. intros. by apply put_ok. Qed.

Lemma slot_claim i c j :
  slot (claim t.1 i c) j =
  if decide (idx_of i = idx_of j) then set_current_cpu (slot t.1 j) (Some c) else slot t.1 j.
Proof.
  unfold claim. rewrite (slot_put Ht). case_decide as E; [|done]. unfold slot. by rewrite E.
Qed.

Lemma alive_claim i c j : alive (claim t.1 i c) j = alive t.1 j.
Proof. unfold alive. rewrite slot_claim. by case_decide. Qed.

Lemma in_foreground_claim {W : WmQueries} i c j : in_foreground (claim t.1 i c) j = in_foreground t.1 j.
Proof.
  unfold in_foreground, exclusive, fg_group. rewrite !(leader_put i _ _ (claim_same i c)).
  by rewrite alive_claim.
Qed.

Lemma may_run_claim {W : WmQueries} smp i c j :
  may_run t.1 smp c i = true → may_run (claim t.1 i c) smp c j = may_run t.1 smp c j.
Proof.
  intros Hi. unfold may_run. rewrite in_foreground_claim. f_equal. unfold ready_here.
  rewrite slot_claim. case_decide as E; [|done]. cbn. f_equal. unfold free_for at 1. cbn.
  rewrite Z.eqb_refl. unfold may_run, ready_here, slot in Hi. rewrite E in Hi. unbool. done.
Qed.
End keep.

(** ** Fairness of the pick *)

(** The processes a processor runs when it keeps picking from [cur] on. *)
Fixpoint picks {W : WmQueries} (n : nat) (pt : list Process) (smp : bool) (cur my_cpu : Z) : list Z :=
  match n with
  | O => []
  | S n' =>
      match next_runnable_pid_locked pt smp cur my_cpu with
      | (pt', Some i) => i :: picks n' pt' smp i my_cpu
      | (_, None) => []
      end
  end.

(** How many slots the scan from [cur] passes before that of [i]. *)
Definition scan_dist (cur i : Z) : nat := ((idx_of i + MAX_PROCS - scan_start cur) mod MAX_PROCS)%nat.

Lemma find_first_le {A} (p : A → bool) l i x :
  l !! i = Some x → p x = true → ∃ j y, (j ≤ i)%nat ∧ l !! j = Some y ∧ p y = true ∧ find_first p l = Some y.
Proof.
  revert i. induction l as [|y l IH]; intros i Hi Hx; [done|]. cbn. destruct (p y) eqn:E.
  { exists 0%nat, y. split_and!; [lia|done..]. }
  destruct i as [|i]; cbn in Hi; [congruence|]. destruct (IH i Hi Hx) as (j & z & ? & ? & ? & ?).
  exists (S j), z. split_and!; [lia|done..].
Qed.

Lemma scan_start_lt cur : (scan_start cur < MAX_PROCS)%nat.
Proof. unfold scan_start. case_if; [unfold MAX_PROCS; lia|apply idx_of_lt]. Qed.

Lemma mod_mod_divide a b c : 0 < b → 0 < c → (a mod (b * c)) mod b = a mod b.
Proof.
  intros Hb Hc. rewrite (Z.mod_eq a (b * c)) by lia.
  replace (a - b * c * (a / (b * c))) with (a + (- (c * (a / (b * c)))) * b) by ring.
  by apply Z.mod_add; lia.
Qed.

Lemma scan_start_next cur :
  0 < cur < 2 ^ 32 → scan_start cur = ((idx_of cur + 1) mod MAX_PROCS)%nat.
Proof.
  intros H. unfold scan_start. rewrite (proj2 (Z.eqb_neq cur 0)) by lia. unfold idx_of, u32, wrap.
  change (Z.of_nat MAX_PROCS) with 256. change MAX_PROCS with 256%nat.
  apply Nat2Z.inj. rewrite Nat2Z.inj_mod, Nat2Z.inj_add, !Z2Nat.id by (apply Z.mod_pos_bound; lia).
  change (Z.of_nat 1) with 1. change (Z.of_nat 256) with 256. rewrite Zplus_mod_idemp_l.
  change (2 ^ 32) with (256 * 16777216). by apply mod_mod_divide.
Qed.

Lemma scan_dist_off cur i : ((scan_start cur + scan_dist cur i) mod MAX_PROCS)%nat = idx_of i.
Proof.
  pose proof (scan_start_lt cur). pose proof (idx_of_lt i). unfold scan_dist.
  rewrite Nat.Div0.add_mod_idemp_r.
  replace (scan_start cur + (idx_of i + MAX_PROCS - scan_start cur))%nat
    with (idx_of i + 1 * MAX_PROCS)%nat by lia.
  by rewrite Nat.Div0.mod_add, Nat.mod_small.
Qed.

Lemma mod_once x :
  (x < 512)%nat → (x mod 256 = x ∧ x < 256)%nat ∨ (x mod 256 = x - 256 ∧ 256 ≤ x)%nat.
Proof.
  intros H. destruct (decide (x < 256)%nat); [left|right]; split; try lia.
  - by apply Nat.mod_small.
  - replace x with (x - 256 + 1 * 256)%nat at 1 by lia.
    rewrite Nat.Div0.mod_add. apply Nat.mod_small. lia.
Qed.

Lemma dist_shrinks s i o :
  (s < 256)%nat → (i < 256)%nat → (o < (i + 256 - s) mod 256)%nat →
  ((i + 256 - ((s + o) mod 256 + 1) mod 256) mod 256 < (i + 256 - s) mod 256)%nat.
Proof.
  intros Hs Hi Ho. destruct (mod_once (i + 256 - s)) as [[E ?]|[E ?]]; [lia|..]; rewrite E in *;
    (destruct (mod_once (s + o)) as [[E1 ?]|[E1 ?]]; [lia|..]); rewrite E1;
    match goal with |- context [((?x + 1) mod 256)%nat] =>
      destruct (mod_once (x + 1)) as [[E3 ?]|[E3 ?]]; [lia|..] end; rewrite E3;
    match goal with |- (?x mod 256 < _)%nat => destruct (mod_once x) as [[E4 ?]|[E4 ?]]; [lia|..] end;
    lia.
Qed.

(** Neither shortcut of the pick applies. *)
Definition quiet {W : WmQueries} : Prop :=
  input_pending_for input_target = 0%nat ∧ embedder_baton_due 1 = false.

Section fairness.
Context {W : WmQueries} (Hq : quiet).

Lemma may_run_eligible t smp cur c i :
  table_ok t → i ≠ 0 → i ≠ cur → may_run t.1 smp c i = true →
  eligible t.1 smp cur c (slot t.1 i) = true.
Proof.
  intros Ht Hi Hne Hm. unfold may_run, ready_here in Hm. unfold eligible. unbool.
  match goal with H : pid (slot t.1 i) = i |- _ => rewrite H end.
  rewrite (proj2 (Z.eqb_neq i 0) Hi), (proj2 (Z.eqb_neq i cur) Hne), orb_true_r.
  repeat match goal with H : _ = true |- _ => rewrite H end. done.
Qed.

Lemma pick_quiet t smp cur c i :
  table_ok t → t.2 ≤ 2 ^ 32 → i ≠ 0 → i ≠ cur → may_run t.1 smp c i = true →
  ∃ n, next_runnable_pid_locked t.1 smp cur c = (claim t.1 n c, Some n) ∧ 0 < n < 2 ^ 32 ∧
    may_run t.1 smp c n = true ∧ (cur = 0 ∨ n ≠ cur) ∧
    (n = i ∨ scan_dist n i < scan_dist cur i)%nat.
Proof.
  intros Ht Hn Hi Hne Hm. pose proof (pick_spec t smp cur c Ht) as Hs.
  pose proof (may_run_eligible t smp cur c i Ht Hi Hne Hm) as He.
  unfold next_runnable_pid_locked in *. destruct Hq as [Hq1 Hq2]. rewrite Hq1, Hq2 in *.
  cbn [Nat.ltb Nat.leb] in *. rewrite !andb_false_r in *. cbn [andb] in *.
  destruct (find_first_le (λ idx, eligible t.1 smp cur c (t.1 !!! idx))
    ((λ off, ((scan_start cur + off) mod MAX_PROCS)%nat) <$> seq 0 MAX_PROCS) (scan_dist cur i) (idx_of i))
    as (j & idx & Hj & Hl & Hp & Hf).
  { rewrite list_lookup_fmap, lookup_seq_lt.
    - cbn. f_equal. apply scan_dist_off.
    - by apply Nat.mod_upper_bound. }
  { exact He. }
  unfold scan in *. rewrite Hf in *. destruct Hs as (Hn0 & Hmr & Hc). rewrite Hc.
  assert (idx < MAX_PROCS)%nat as Hlt by (apply (scan_range cur), (list_elem_of_lookup_2 _ j), Hl).
  destruct (eligible_slot Ht _ _ _ _ Hlt Hp) as (_ & Ei & _ & Hcur).
  destruct (entry_slot t idx Ht Hlt Hn0) as [_ Es].
  exists (pid (t.1 !!! idx)). split; [done|].
  pose proof (slot_entry Ht (pid (t.1 !!! idx)) ltac:(by rewrite Es) Hn0) as [Hr _ _ _].
  rewrite Es in Hr. assert (0 < pid (t.1 !!! idx) < 2 ^ 32) as Hr' by lia.
  split_and!; [lia|lia|done|done|].
  rewrite list_lookup_fmap in Hl. destruct (seq 0 MAX_PROCS !! j) as [off|] eqn:Eo; [|done].
  apply lookup_seq in Eo as [-> Hj2]. cbn [fmap option_fmap option_map] in Hl. apply (inj Some) in Hl.
  change (((scan_start cur + j) mod MAX_PROCS)%nat = idx) in Hl.
  destruct (decide (j = scan_dist cur i)) as [->|Hlt2].
  - left. rewrite scan_dist_off in Hl. rewrite <- Hl. change (pid (slot t.1 i) = i).
    unfold may_run, ready_here in Hm. by unbool.
  - right. unfold scan_dist at 1. rewrite (scan_start_next _ Hr'), Ei, <- Hl.
    apply dist_shrinks; [apply scan_start_lt|apply idx_of_lt|].
    unfold scan_dist in *. change MAX_PROCS with 256%nat in *. lia.
Qed.

Lemma picks_reach n t smp cur c i :
  table_ok t → t.2 ≤ 2 ^ 32 → i ≠ 0 → i ≠ cur → may_run t.1 smp c i = true →
  (scan_dist cur i < n)%nat → i ∈ picks n t.1 smp cur c.
Proof.
  revert t cur. induction n as [|n IH]; intros t cur Ht Hn Hi Hne Hm Hd; [lia|]. cbn [picks].
  destruct (pick_quiet t smp cur c i Ht Hn Hi Hne Hm) as (j & -> & Hr & Hmj & Hcur & [->|Hlt]); [left|].
  destruct (decide (i = j)) as [->|Hij]; [left|right].
  assert (pid (slot t.1 j) = j) as Hp by (unfold may_run, ready_here in Hmj; by unbool).
  apply (IH (claim t.1 j c, t.2)); cbn [fst snd]; try done; [apply claim_ok; [done|done|lia]| |lia].
  by rewrite (may_run_claim Ht).
Qed.
End fairness.

(** C29: Round robin: while neither input nor a baton forces the pick, a processor
    that keeps picking runs every process it may run within 256 picks,
    wherever it starts. *)
Theorem pick_no_starvation {W : WmQueries} t smp cur my_cpu i :
  table_ok t → t.2 ≤ 2 ^ 32 → quiet → i ≠ 0 → may_run t.1 smp my_cpu i = true →
  i ∈ picks MAX_PROCS t.1 smp cur my_cpu.
Proof.
  intros Ht Hn Hq Hi Hm. destruct (decide (i = cur)) as [<-|Hne].
  2: { apply (picks_reach Hq); try done. by apply Nat.mod_upper_bound. }
  change MAX_PROCS with (S 255). cbn [picks]. pose proof (pick_spec t smp i my_cpu Ht) as Hs.
  destruct (next_runnable_pid_locked t.1 smp i my_cpu) as [pt' [j|]].
  2: { destruct Hs as [_ Hs]. by rewrite Hs in Hm. }
  destruct Hs as (Hj & Hmj & ->). destruct (decide (i = j)) as [->|Hij]; [left|right].
  assert (pid (slot t.1 i) = i ∧ pid (slot t.1 j) = j) as [Hpi Hpj].
  { unfold may_run, ready_here in Hm, Hmj. by unbool. }
  pose proof (slot_entry Ht j Hpj Hj) as [Hr _ _ _]. rewrite Hpj in Hr.
  apply (picks_reach Hq 255 (claim t.1 j my_cpu, t.2)); cbn [fst snd]; try done.
  - by apply claim_ok.
  - by rewrite (may_run_claim Ht).
  - enough (scan_dist j i ≠ 255%nat) as H255.
    { assert (scan_dist j i < 256)%nat by (by apply Nat.mod_upper_bound). lia. }
    intros Hd. pose proof (scan_dist_off j i) as Ho. rewrite Hd, scan_start_next in Ho by lia.
    rewrite Nat.Div0.add_mod_idemp_l in Ho. change MAX_PROCS with 256%nat in Ho.
    replace (idx_of j + 1 + 255)%nat with (idx_of j + 1 * 256)%nat in Ho by lia.
    rewrite Nat.Div0.mod_add, Nat.mod_small in Ho by apply (idx_of_lt j).
    apply Hij. rewrite <- Hpi, <- Hpj. unfold slot. by rewrite Ho.
Qed.

(** ** Calls leave the processors where they are *)

Definition same_cpus (k k' : Kernel) : Prop := ∀ c, current_pid (cpus k' c) = current_pid (cpus k c).

Lemma same_cpus_eq k k' : cpus k' = cpus k → same_cpus k k'.
Proof. intros E c. by rewrite E. Qed.

Lemma same_cpus_trans k k1 k2 : same_cpus k k1 → same_cpus k1 k2 → same_cpus k k2.
Proof. intros H1 H2 c. by rewrite (H2 c), (H1 c). Qed.

Lemma rbind_cpus {A B} k (m : outcome (Kernel * result A)) (f : Kernel → A → outcome (Kernel * result B))
    k' r :
  rbind m f = Val (k', r) → (∀ k1 x, m = Val (k1, x) → cpus k1 = cpus k) →
  (∀ k1 a, cpus k1 = cpus k → f k1 a = Val (k', r) → cpus k' = cpus k) → cpus k' = cpus k.
Proof.
  intros H Hm Hf. unfold rbind in H. destruct m as [[k1 [a|e]]|]; cbn in H; [|injection H as <- _|done].
  - apply (Hf k1 a); [by eapply Hm|done].
  - by eapply Hm.
Qed.

Lemma alloc_pid_cpus k k1 (o : option Z) : alloc_pid k = (k1, o) → cpus k1 = cpus k.
Proof.
  unfold alloc_pid. revert k. induction MAX_PROCS as [|n IH]; intros k; cbn [alloc_pid_loop].
  { by intros [= <- _]. }
  destruct (is_dead _); [by intros [= <- _]|]. intros H. apply IH in H. exact H.
Qed.

Lemma ok_or_cpus {A} k (p : Kernel * option A) e :
  (∀ k1 o, p = (k1, o) → cpus k1 = cpus k) →
  ∀ k1 x, ok_or p e = Val (k1, x) → cpus k1 = cpus k.
Proof.
  intros H k1 x. destruct p as [k2 [a|]]; cbn; intros [= <- _]; by eapply H.
Qed.

Lemma alloc_stack_cpus k k1 o : alloc_syscall_stack k = (k1, o) → cpus k1 = cpus k.
Proof.
  unfold alloc_syscall_stack. destruct (FrameAlloc.alloc_contiguous _ _) as [f [phys|]];
    by intros [= <- _].
Qed.

Lemma ok_pid_cpus k e k1 x : ok_or (alloc_pid k) e = Val (k1, x) → cpus k1 = cpus k.
Proof. apply ok_or_cpus, alloc_pid_cpus. Qed.

Lemma ok_stack_cpus k e k1 x : ok_or (alloc_syscall_stack k) e = Val (k1, x) → cpus k1 = cpus k.
Proof. apply ok_or_cpus, alloc_stack_cpus. Qed.

Lemma on_mm_cpus {A} k (m : outcome (Paging.Mm * result A)) k1 x :
  on_mm k m = Val (k1, x) → cpus k1 = cpus k.
Proof. unfold on_mm. destruct m as [[]|]; cbn; [by intros [= <- _]|done]. Qed.

Lemma mm_ok_or_cpus {A} k (m : outcome (Paging.Mm * option A)) e k1 x :
  mm_ok_or k m e = Val (k1, x) → cpus k1 = cpus k.
Proof. unfold mm_ok_or. destruct m as [[? []]|]; cbn; [by intros [= <- _]..|done]. Qed.

Lemma thread_mmap_cpus k pml4 pages sys e k1 x :
  thread_mmap k pml4 pages sys e = Val (k1, x) → cpus k1 = cpus k.
Proof.
  unfold thread_mmap. destruct (VaAlloc.mmap_anon _ _ _ _ _) as [t va]. case_if; by intros [= <- _].
Qed.

(** Goes through the steps of a creating call. *)
Ltac cpus_step L :=
  cbv beta iota zeta in *;
  match goal with
  | H : rbind ?m ?f = Val (?k', ?r), E : cpus ?k0 = cpus ?k |- cpus ?k' = cpus ?k =>
      refine (rbind_cpus k m f k' r H _ _); clear H;
      [intros ? ? Hm; refine (eq_trans _ E); revert Hm; apply L
      |clear E; intros ? ? E H]
  end.

Lemma publish_process_cpus k i pml4 entry sb st b :
  cpus (publish_process k i pml4 entry sb st b) = cpus k.
Proof.
  unfold publish_process, pick_home_cpu_for_app, mark_cpu_has_work.
  destruct (b_rdi b =? AppRegistry.HOST_MODE_APP); [destruct (CPU_COUNT k <=? 1)|];
    repeat match goal with |- context [if ?x then _ else _] => destruct x end; done.
Qed.

Lemma spawn_cpus p0 p1 sd k elf b k' r :
  spawn_with_bootstrap p0 p1 sd k elf b = Val (k', r) → cpus k' = cpus k.
Proof.
  unfold spawn_with_bootstrap, spawn_as. intros H. assert (cpus k = cpus k) as E by done.
  cpus_step ok_pid_cpus. cpus_step ok_stack_cpus.
  destruct a0 as [sb st]. cpus_step @mm_ok_or_cpus. cpus_step @on_mm_cpus. cpus_step @on_mm_cpus.
  cpus_step @on_mm_cpus. injection H as <- _. by rewrite publish_process_cpus.
Qed.

Lemma spawn_thread_cpus tr k parent entry arg size k' r :
  spawn_thread tr k parent entry arg size = Val (k', r) → cpus k' = cpus k.
Proof.
  unfold spawn_thread, spawn_thread_as. intros H. assert (cpus k = cpus k) as E by done.
  revert H. case_if; [by intros [= <- _]|]. intros H.
  cpus_step ok_pid_cpus. cpus_step ok_stack_cpus.
  destruct a0 as [sb st]. cpus_step thread_mmap_cpus.
  match type of H with rbind (thread_mmap ?k3 _ _ _ _) _ = _ => change (cpus k3 = cpus k) in E end.
  cpus_step thread_mmap_cpus. by injection H as <- _.
Qed.

Lemma save_gprs_cpus k c i : same_cpus k (save_full_user_gprs k c i).
Proof.
  unfold save_full_user_gprs. destruct (gprs_captured _); [done|]. unfold modify.
  intros c'. case_if; cbn; destruct (Z.eqb_spec c' c) as [->|]; done.
Qed.

Lemma clone_thread_cpus k c parent crip crsp k' r :
  clone_thread k c parent crip crsp = Val (k', r) → same_cpus k k'.
Proof.
  unfold clone_thread, clone_thread_as. set (k0 := save_full_user_gprs k c parent). intros H.
  apply (same_cpus_trans _ k0); [apply save_gprs_cpus|]. apply same_cpus_eq.
  clearbody k0. assert (cpus k0 = cpus k0) as E by done.
  revert H. cbv zeta. case_if; [by intros [= <- _]|]. intros H.
  cpus_step ok_pid_cpus. cpus_step ok_stack_cpus.
  destruct a0 as [sb st]. by injection H as <- _.
Qed.

Lemma drop_range_cpus k i pml4 va size k1 : drop_range k i pml4 va size = Val k1 → cpus k1 = cpus k.
Proof.
  unfold drop_range. destruct (Paging.unmap_user_range _ _ _ _) as [s|]; [|done]. cbn. by intros [= <-].
Qed.

Lemma release_cpus k i p k1 : release k i p = Val k1 → cpus k1 = cpus k.
Proof.
  unfold release. set (m := if negb (is_thread p) then _ else _).
  assert (∀ k2, m = Val k2 → cpus k2 = cpus k) as Hm.
  { subst m. intros k2. destruct (negb _); [by intros [= <-]|].
    destruct (if _ && _ then _ else _) as [k3|] eqn:E3; [|done]. cbn [obind].
    assert (cpus k3 = cpus k) as E4.
    { destruct (_ && _); [by apply drop_range_cpus in E3|by injection E3 as <-]. }
    case_if; [intros H'; apply drop_range_cpus in H'; congruence|intros [= <-]; exact E4]. }
  clearbody m. destruct m as [k2|]; [|done]. cbn. intros [= <-]. exact (Hm k2 eq_refl).
Qed.

Lemma exit_cpus k rf pf i code k' : exit k rf pf i code = Val k' → cpus k' = cpus k.
Proof.
  unfold exit. case_if; [by intros [= <-]|]. destruct (release k i _) as [k1|] eqn:Er; [|done].
  apply release_cpus in Er. cbn [obind]. intros [= <-]. exact Er.
Qed.

Lemma exits_cpus vs k rf pf code k' :
  for_list vs (λ v k', exit k' rf pf v code) k = Val k' → cpus k' = cpus k.
Proof.
  revert k. induction vs as [|v vs IH]; intros k; cbn [for_list]; [by intros [= <-]|].
  destruct (exit k rf pf v code) as [k1|] eqn:E; [|done]. cbn [obind]. intros H.
  apply IH in H. apply exit_cpus in E. congruence.
Qed.

Lemma modify_cpus k i f : cpus (modify k i f) = cpus k.
Proof. unfold modify. by case_if. Qed.

Lemma pending_wakes_cpus k lf : cpus (handle_pending_wakes_try k lf).1 = cpus k.
Proof.
  unfold handle_pending_wakes_try. case_if; [done|]. case_if; [done|]. by destruct (wake_words _ _ _).
Qed.

Lemma run_cpus p0 p1 sd tr k c k' : run p0 p1 sd tr k c = Val k' → same_cpus k k'.
Proof.
  destruct c; cbn [run]; intros H; try (apply fst_val_inv in H as [res H]); try (injection H as <-);
    lazymatch goal with
    | H : clone_thread _ _ _ _ _ = _ |- _ => idtac
    | |- same_cpus _ (save_full_user_gprs _ _ _) => idtac
    | _ => apply same_cpus_eq
    end.
  - by eapply spawn_cpus.
  - by eapply spawn_thread_cpus.
  - by eapply clone_thread_cpus.
  - by eapply exit_cpus.
  - unfold kill in H. case_if_in H; [by injection H as <- _|].
    destruct (exit _ _ _ _ _) as [k1|] eqn:Ex; [|done]. cbn in H. injection H as <- _. by eapply exit_cpus.
  - unfold kill_group in H. destruct (for_list _ _ _) as [k1|] eqn:E; [|done]. cbn in H.
    injection H as <- _. by eapply exits_cpus.
  - unfold waitpid. case_if; [done|]. by destruct (state _).
  - unfold reap_one_zombie. destruct (find_first _ _); [|done]. by destruct (update_first _ _ _).
  - done.
  - apply modify_cpus.
  - apply modify_cpus.
  - apply modify_cpus.
  - apply (pending_wakes_cpus (with_PENDING_WAKES k _)).
  - apply pending_wakes_cpus.
  - unfold account_tick. by case_if.
  - unfold raise_signal. case_if; [done|]. apply modify_cpus.
  - unfold dequeue_signal. case_if; [done|]. by destruct (trailing_zeros _).
  - unfold set_signal_handler. case_if; [done|]. apply modify_cpus.
  - apply modify_cpus.
  - apply modify_cpus.
  - apply modify_cpus.
  - unfold set_preemptable. case_if; [apply modify_cpus|done].
  - apply save_gprs_cpus.
Qed.

(** ** Ownership of processes by processors *)

(** While process [i] is live, the claim on it is that of processor [c]. *)
Definition claims (pt : list Process) (c i : Z) : Prop :=
  pid (slot pt i) = i → is_zombie (state (slot pt i)) = false → current_cpu (slot pt i) = Some c.

(** [A c i]: processor [c] runs process [i] or is about to enter it. *)
Definition owned (t : pstate) (A : Z → Z → Prop) : Prop :=
  ∀ c i, A c i → i ≠ 0 → 0 < i < t.2 ∧ claims t.1 c i.

Lemma owned_mono t (A A' : Z → Z → Prop) : (∀ c i, A' c i → A c i) → owned t A → owned t A'.
Proof. intros H Ho c i Ha. by apply Ho, H. Qed.

Lemma owned_add t A c i :
  owned t A → (i ≠ 0 → 0 < i < t.2 ∧ claims t.1 c i) →
  owned t (λ c' i', A c' i' ∨ (c' = c ∧ i' = i)).
Proof. intros Ho Hc c' i' [Ha|[-> ->]] Hi; [by apply Ho|by apply Hc]. Qed.

Lemma claims_change t t' c i :
  table_ok t → change t t' → 0 < i < t.2 → claims t.1 c i → 0 < i < t'.2 ∧ claims t'.1 c i.
Proof.
  intros Ht Hc Hi Hcl. unfold claims in *.
  destruct Hc as [pt n|pt n j p p' Hj Hp T|pt n j p Hj Hp Hz|pt n p Hp Hs Hn Hd Ho]; cbn [fst snd] in *.
  - split; [lia|done].
  - split; [done|]. unfold slot in *. destruct (decide (j = idx_of i)) as [->|Hne].
    2: { by rewrite list_lookup_total_insert_ne. }
    rewrite list_lookup_total_insert_eq by (by eapply lookup_lt_Some).
    rewrite (list_lookup_total_correct _ _ _ Hj) in Hcl. destruct T as [T1 _ _ _ _ T6 T7].
    rewrite T1. intros E Hz. rewrite (T7 Hz). apply Hcl; [done|].
    destruct (is_zombie (state p)); [|done]. by rewrite T6 in Hz.
  - split; [done|]. unfold slot in *. destruct (decide (j = idx_of i)) as [->|Hne].
    2: { by rewrite list_lookup_total_insert_ne. }
    rewrite list_lookup_total_insert_eq by (by eapply lookup_lt_Some). cbn. lia.
  - split; [lia|]. pose proof (slot_put Ht n i) as Hput. cbn [fst] in Hput. rewrite Hput.
    case_decide; [|done]. rewrite Hp. lia.
Qed.

Lemma owned_changes t t' A : table_ok t → rtc change t t' → owned t A → owned t' A.
Proof.
  intros Ht Hs. revert Ht. induction Hs as [t|t t1 t2 Hc _ IH]; intros Ht Ho; [done|].
  apply IH; [by eapply change_ok|]. intros c i Ha Hi. destruct (Ho c i Ha Hi).
  by apply (claims_change t).
Qed.

Lemma owned_put t A i p' :
  table_ok t → pid (slot t.1 i) = i → i ≠ 0 → pid p' = i →
  (∀ c, A c i → is_zombie (state p') = false → current_cpu p' = Some c) →
  owned t A → owned (put t.1 i p', t.2) A.
Proof.
  intros Ht Hp Hi Hp' Hc Ho c j Ha Hj. destruct (Ho c j Ha Hj) as [Hr Hcl]. split; [done|].
  unfold claims in *. cbn [fst]. rewrite (slot_put Ht). case_decide as E; [|done].
  rewrite Hp'. intros -> Hz. by apply Hc.
Qed.

Lemma owned_claim t A i c :
  table_ok t → pid (slot t.1 i) = i → i ≠ 0 → free_for (slot t.1 i) c = true →
  owned t A → owned (claim t.1 i c, t.2) A.
Proof.
  intros Ht Hp Hi Hf Ho. apply owned_put; try done. intros c' Ha Hz. cbn in *.
  destruct (Ho c' i Ha Hi) as [_ Hcl]. unfold free_for in Hf. rewrite (Hcl Hp Hz) in Hf.
  by apply Z.eqb_eq in Hf as ->.
Qed.

(** A claimed process is the processor's. *)
Lemma claims_claim t i c : table_ok t → claims (claim t.1 i c) c i.
Proof. intros Ht _ _. by rewrite (slot_claim Ht), decide_True. Qed.

Lemma slot_pid_range t i : table_ok t → pid (slot t.1 i) = i → i ≠ 0 → 0 < i < t.2.
Proof. intros Ht Hp Hi. pose proof (slot_entry Ht i Hp Hi) as [Hr _ _ _]. by rewrite Hp in Hr. Qed.

(** ** The timer interrupt and ownership *)

Lemma put_same t i : table_ok t → put t.1 i (slot t.1 i) = t.1.
Proof. intros Ht. apply list_insert_id, (slot_lookup Ht). Qed.

Lemma save_preempted_same k c cur r p : same_process p (save_preempted k c cur r p).
Proof.
  unfold save_preempted. destruct ((pid p =? cur) && is_running (state p)) eqn:E.
  - cbn. by case_if.
  - by case_if.
Qed.

Lemma save_preempted_other k c cur r p : pid p ≠ cur → save_preempted k c cur r p = p.
Proof.
  intros H. unfold save_preempted. rewrite (proj2 (Z.eqb_neq _ _) H). cbn [andb].
  by rewrite (proj2 (Z.eqb_neq _ _) H).
Qed.

Lemma may_run_slot {W : WmQueries} pt smp c i :
  may_run pt smp c i = true →
  pid (slot pt i) = i ∧ is_running (state (slot pt i)) = true ∧ free_for (slot pt i) c = true ∧
  home_ok smp (slot pt i) c = true.
Proof. unfold may_run, ready_here. intros H. by unbool. Qed.

Section preempt.
Context {W : WmQueries} {k : Kernel} (Ht : table_ok (table k)) (c cur : Z) (Hcur : cur ≠ 0).

(** The table between the save and the load. *)
Definition saved_table (next : Z) (r : UserRegs) : list Process :=
  put (claim (PTABLE k) next c) cur (save_preempted k c cur r (slot (claim (PTABLE k) next c) cur)).

Lemma saved_ok next r :
  may_run (PTABLE k) (smp k) c next = true → next ≠ 0 → table_ok (saved_table next r, NEXT_PID k).
Proof.
  intros Hm Hn. destruct (may_run_slot _ _ _ _ Hm) as (Hp & _).
  pose proof (claim_ok Ht next c Hp Hn) as Ht1. cbn [table fst snd] in Ht1. unfold saved_table.
  destruct (decide (pid (slot (claim (PTABLE k) next c) cur) = cur)) as [Ec|Ec].
  - apply (put_ok Ht1); [done|done|apply save_preempted_same].
  - rewrite save_preempted_other by done. by rewrite (put_same _ _ Ht1).
Qed.

Lemma saved_next next r :
  may_run (PTABLE k) (smp k) c next = true → next ≠ 0 → next ≠ cur →
  slot (saved_table next r) next = set_current_cpu (slot (PTABLE k) next) (Some c).
Proof.
  intros Hm Hn Hne. destruct (may_run_slot _ _ _ _ Hm) as (Hp & _).
  pose proof (claim_ok Ht next c Hp Hn) as Ht1. cbn [table fst snd] in Ht1. unfold saved_table.
  pose proof (slot_put Ht1 cur next) as Hput. cbn [fst] in Hput. rewrite Hput.
  pose proof (slot_claim Ht next c) as Hcl. cbn [table fst] in Hcl. case_decide as E.
  - unfold slot at 1. rewrite E. fold (slot (claim (PTABLE k) next c) next). rewrite Hcl, decide_True by done.
    rewrite save_preempted_other; [done|]. cbn. by rewrite Hp.
  - by rewrite Hcl, decide_True.
Qed.

Lemma saved_owned A next r :
  may_run (PTABLE k) (smp k) c next = true → next ≠ 0 → owned (table k) A →
  (∀ c', A c' cur → A c cur) →
  owned (saved_table next r, NEXT_PID k) (λ c' i, A c' i ∧ c' ≠ c).
Proof.
  intros Hm Hn Ho Ha. destruct (may_run_slot _ _ _ _ Hm) as (Hp & _ & Hf & _).
  pose proof (claim_ok Ht next c Hp Hn) as Ht1.
  pose proof (owned_claim _ _ next c Ht Hp Hn Hf Ho) as Ho1. cbn [table fst snd] in Ht1, Ho1.
  unfold saved_table. set (pt1 := claim (PTABLE k) next c) in *.
  assert (owned (pt1, NEXT_PID k) (λ c' i, A c' i ∧ c' ≠ c)) as Ho2 by (eapply owned_mono; [|exact Ho1]; naive_solver).
  destruct (decide (pid (slot pt1 cur) = cur)) as [Ec|Ec].
  2: { rewrite save_preempted_other by done. by rewrite (put_same _ _ Ht1). }
  apply (owned_put (pt1, NEXT_PID k)); try done.
  { rewrite (sp_pid _ _ (save_preempted_same k c cur r _)). exact Ec. }
  intros c' [Ha' Hne] Hz.
  destruct (Ho1 c' cur Ha' Hcur) as [_ Hcl']. destruct (Ho1 c cur (Ha c' Ha') Hcur) as [_ Hcl]. cbn [fst] in *.
  unfold claims in *. revert Hz. unfold save_preempted. rewrite (proj2 (Z.eqb_eq _ _) Ec). cbn [andb].
  destruct (is_running (state (slot pt1 cur))) eqn:Er.
  - exfalso. assert (is_zombie (state (slot pt1 cur)) = false) as Hz by (by destruct (state (slot pt1 cur))).
    specialize (Hcl Ec Hz). rewrite (Hcl' Ec Hz) in Hcl. congruence.
  - rewrite (proj2 (Z.eqb_eq _ _) Ec). cbn. intros Hz. by apply Hcl'.
Qed.
End preempt.

(** What a preemption returns: no switch, or the switch to [next]. *)
Lemma preempt_spec {W : WmQueries} k pd c cur r :
  table_ok (table k) → cur ≠ 0 →
  (∃ pt, timer_preempt_switch k pd c cur r = (with_PTABLE k pt, None) ∧
     (pt = PTABLE k ∨ pt = claim (PTABLE k) cur c ∧ may_run (PTABLE k) (smp k) c cur = true)) ∨
  (∃ next, let p := slot (PTABLE k) next in
     pd = false ∧ next ≠ 0 ∧ next ≠ cur ∧ may_run (PTABLE k) (smp k) c next = true ∧
     timer_preempt_switch k pd c cur r =
       (set_cpu (with_PTABLE k (claim (saved_table (k := k) c cur next r) next c)) c
          (mkCpu next (fs_base p) (xstate p) (syscall_stack_top p) (cpu_cr3 (cpus k c))
             (gprs_captured (cpus k c)) (user_gprs (cpus k c))),
        Some (next, regs p, pml4_phys p))).
Proof.
  intros Ht Hcur. unfold timer_preempt_switch. destruct pd.
  { left. exists (PTABLE k). split; [by destruct k|by left]. }
  pose proof (pick_spec (table k) (smp k) cur c Ht) as Hs. cbn [table fst] in Hs.
  destruct (next_runnable_pid_locked _ _ _ _) as [pt [next|]].
  2: { destruct Hs as [-> _]. left. exists (PTABLE k). by split; [|left]. }
  destruct Hs as (Hn & Hm & ->). destruct (Z.eqb_spec next cur) as [->|Hne].
  { left. eexists. split; [done|by right]. }
  right. exists next. cbv zeta. fold (saved_table (k := k) c cur next r).
  rewrite (saved_next Ht c cur next r Hm Hn Hne). destruct (may_run_slot _ _ _ _ Hm) as (Hp & Hr & _).
  cbn. rewrite Hp, Z.eqb_refl, Hr. cbn. split_and!; try done.
  unfold claim at 1. by rewrite (saved_next Ht c cur next r Hm Hn Hne).
Qed.

Lemma set_cpu_pid k c x c' :
  current_pid (cpus (set_cpu k c x) c') = if c' =? c then current_pid x else current_pid (cpus k c').
Proof. cbn. by case_if. Qed.

(** ** The machine *)

(** The kernel and, per processor, the process it has claimed and is about to
    enter. *)
Record Machine := mkMachine { kern : Kernel; entering : Z → option Z }.

Definition set_entering (m : Machine) (k : Kernel) (c : Z) (o : option Z) : Machine :=
  mkMachine k (λ c', if c' =? c then o else entering m c').

Definition active (m : Machine) (c i : Z) : Prop :=
  current_pid (cpus (kern m) c) = i ∨ entering m c = Some i.

(** The context saves of the system calls. *)
Inductive saving :=
| SaveRegs (i : Z) (r : UserRegs) | SaveXstate (c i : Z) | SetRax (i v : Z) | SetErrno (i e : Z)
| TakeErrno (i : Z) | SaveReturn (c i a b : Z) | SaveReexec (c i a b : Z) | SaveYield (c i a b : Z)
| Capture (c i : Z).

Definition saved_pid (s : saving) : Z :=
  match s with
  | SaveRegs i _ | SaveXstate _ i | SetRax i _ | SetErrno i _ | TakeErrno i | SaveReturn _ i _ _
  | SaveReexec _ i _ _ | SaveYield _ i _ _ | Capture _ i => i
  end.

Definition run_saving (k : Kernel) (s : saving) : Kernel :=
  match s with
  | SaveRegs i r => save_regs k i r
  | SaveXstate c i => save_xstate k c i
  | SetRax i v => set_rax k i v
  | SetErrno i e => set_errno_of k i e
  | TakeErrno i => (take_errno_to_deliver k i).1
  | SaveReturn c i a b => save_return_context k c i a b
  | SaveReexec c i a b => save_return_context_reexec k c i a b
  | SaveYield c i a b => save_cooperative_yield_context k c i a b
  | Capture c i => capture_user_gprs_at_entry k c i
  end.

Section machine.
(** The processes that [sys_exec_wait] may claim although another processor has
    them, and whose state may be set after they have exited. *)
Context (stray : Z → bool).

(** The steps of the processors, one for each acquisition of the table lock.
    The claim without looking is that of [sys_exec_wait] and of the launch of the
    first process. *)
Inductive mstep : Machine → Machine → Prop :=
| ms_call p0 p1 sd tr m c k' :
    admissible (kern m) c → pid_room (kern m) →
    leaves_zombies (kern m) c ∨ (∃ i st, c = SetState i st ∧ stray i = true) →
    run p0 p1 sd tr (kern m) c = Val k' → mstep m (mkMachine k' (entering m))
| ms_save m s : saved_pid s ≠ 0 → mstep m (mkMachine (run_saving (kern m) s) (entering m))
| ms_pick (W : WmQueries) m c cur k' o :
    next_runnable_pid (kern m) c cur = (k', o) → mstep m (set_entering m k' c o)
| ms_sibling m c cur k' o :
    next_runnable_sibling_thread (kern m) c cur = (k', o) → mstep m (set_entering m k' c o)
| ms_claim m c i k' :
    i ≠ 0 → try_claim_cpu_for (kern m) i c = (k', true) → mstep m (set_entering m k' c (Some i))
| ms_claim_try m lf c i k' :
    i ≠ 0 → try_claim_cpu_for_try (kern m) lf i c = (k', true) → mstep m (set_entering m k' c (Some i))
| ms_take m c i k' :
    i ≠ 0 → enter_take (kern m) c i = (k', true) → mstep m (set_entering m k' c (Some i))
| ms_other (W : WmQueries) m c i k' o :
    enter_other (kern m) c i = (k', o) → mstep m (set_entering m k' c o)
| ms_claim_child m c i :
    i ≠ 0 → free_for (slot (PTABLE (kern m)) i) c = true ∨ stray i = true →
    mstep m (mkMachine (claim_process_on_cpu (kern m) i c) (entering m))
| ms_table m c i k' p :
    i ≠ 0 → entering m c = Some i → enter_table (kern m) c i = Val (k', p) →
    mstep m (mkMachine k' (entering m))
| ms_table_try m lf c i k' p :
    i ≠ 0 → entering m c = Some i → enter_table_try (kern m) lf i = (k', Some p) →
    mstep m (mkMachine k' (entering m))
| ms_cpu m c i p :
    entering m c = Some i → mstep m (set_entering m (enter_cpu (kern m) c i p).1 c None)
| ms_resched (W : WmQueries) m pd c frame k' f' :
    entering m c = None → apic_resched_handler (kern m) pd c frame = (k', f') →
    mstep m (mkMachine k' (entering m))
| ms_timer (W : WmQueries) m pd lf1 lf2 c frame k' f' :
    entering m c = None → apic_timer_user (kern m) pd lf1 lf2 c frame = (k', f') →
    mstep m (mkMachine k' (entering m))
| ms_idle m c : mstep m (mkMachine (set_current_pid (kern m) c 0) (entering m)).

Definition tracked (m : Machine) (c i : Z) : Prop := stray i = false ∧ active m c i.

Definition minv (m : Machine) : Prop :=
  table_ok (table (kern m)) ∧ owned (table (kern m)) (tracked m).

Lemma minv_entering m k' c o :
  table_ok (table k') → owned (table k') (tracked m) → same_cpus (kern m) k' →
  (∀ i, o = Some i → i ≠ 0 → 0 < i < NEXT_PID k' ∧ claims (PTABLE k') c i) →
  minv (set_entering m k' c o).
Proof.
  intros Ht Ho Hc Hi. split; [done|]. intros c' i [Hs Ha] Hne. unfold active in Ha. cbn in Ha.
  rewrite (Hc c') in Ha. destruct (Z.eqb_spec c' c) as [->|Hcc].
  - destruct Ha as [Ha|Ha]; [apply (Ho c i); [by split; [|left]|done]|by apply Hi].
  - by apply (Ho c' i).
Qed.

Lemma minv_kernel m k' :
  table_ok (table k') → owned (table k') (tracked m) → same_cpus (kern m) k' →
  minv (mkMachine k' (entering m)).
Proof.
  intros Ht Ho Hc. split; [done|]. intros c i [Hs Ha]. apply Ho. split; [done|].
  unfold active in *. cbn in Ha. by rewrite <- (Hc c).
Qed.

(** What happens to a stray process is no concern of the others. *)
Lemma stray_owned m i p' :
  table_ok (table (kern m)) → owned (table (kern m)) (tracked m) →
  pid (slot (PTABLE (kern m)) i) = i → i ≠ 0 → pid p' = i → stray i = true →
  owned (put (PTABLE (kern m)) i p', NEXT_PID (kern m)) (tracked m).
Proof.
  intros Ht Ho Hp Hi Hp' Hs. apply (owned_put (table (kern m))); try done.
  intros c [Hns _]. congruence.
Qed.

Section minv_steps.
Context {m : Machine} (Hm : minv m).

Lemma call_inv p0 p1 sd tr c k' :
  admissible (kern m) c → pid_room (kern m) →
  leaves_zombies (kern m) c ∨ (∃ i st, c = SetState i st ∧ stray i = true) →
  run p0 p1 sd tr (kern m) c = Val k' → minv (mkMachine k' (entering m)).
Proof.
  destruct Hm as [Ht Ho]. intros Ha Hr [Hz|(i & st & -> & Hs)] Hc.
  - destruct (run_creates p0 p1 sd tr _ c k' Ht Hr Ha Hz Hc) as [He _].
    apply minv_kernel; [by eapply changes_ok|by eapply owned_changes|by eapply run_cpus].
  - injection Hc as <-. destruct Ha as [Hi Hd]. apply minv_kernel; [by apply set_state_ok| |].
    + unfold set_state_of, modify. cbn [fst]. destruct (Z.eqb_spec (pid (slot (PTABLE (kern m)) i)) i); [|done].
      by apply stray_owned.
    + apply same_cpus_eq, modify_cpus.
Qed.

(** A claim of a process that no other processor has. *)
Lemma claimed_inv c i :
  i ≠ 0 → pid (slot (PTABLE (kern m)) i) = i → free_for (slot (PTABLE (kern m)) i) c = true →
  minv (set_entering m (with_PTABLE (kern m) (claim (PTABLE (kern m)) i c)) c (Some i)).
Proof.
  destruct Hm as [Ht Ho]. intros Hi Hp Hf. apply minv_entering; [by apply (claim_ok Ht)| |done|].
  - by apply (owned_claim _ _ i c Ht).
  - intros j [= <-] _. split; [by apply (slot_pid_range _ _ Ht)|]. by apply (claims_claim (table (kern m))).
Qed.

Lemma unclaimed_inv c : minv (set_entering m (kern m) c None).
Proof. destruct Hm. by apply minv_entering. Qed.

Lemma pick_inv (W : WmQueries) c cur k' o :
  next_runnable_pid (kern m) c cur = (k', o) → minv (set_entering m k' c o).
Proof.
  unfold next_runnable_pid. case_if; [intros [= <- <-]; apply unclaimed_inv|].
  pose proof (pick_spec (table (kern m)) (smp (kern m)) cur c (proj1 Hm)) as Hs. cbn [table fst] in Hs.
  destruct (next_runnable_pid_locked _ _ _ _) as [pt [i|]]; intros [= <- <-].
  - destruct Hs as (Hi & Hr & ->). destruct (may_run_slot _ _ _ _ Hr) as (? & _ & ? & _).
    by apply claimed_inv.
  - destruct Hs as [-> _]. destruct Hm as [Ht Ho]. by apply minv_entering.
Qed.

Lemma sibling_inv c cur k' o :
  next_runnable_sibling_thread (kern m) c cur = (k', o) → minv (set_entering m k' c o).
Proof.
  unfold next_runnable_sibling_thread.
  destruct (next_runnable_sibling_thread_locked _ _ _) as [sib|] eqn:Es.
  2: { intros [= <- <-]. apply unclaimed_inv. }
  case_if; intros [= <- <-]; [|apply unclaimed_inv].
  unfold next_runnable_sibling_thread_locked in Es. destruct (negb _); [done|].
  destruct (find_first _ _) as [idx|] eqn:Ef; [|done]. cbn in Es. injection Es as <-.
  apply find_first_Some in Ef as [Hr He]. unfold sibling_ok in He. unbool.
  assert (idx < MAX_PROCS)%nat as Hlt.
  { apply list_elem_of_fmap in Hr as (off & -> & _). by apply Nat.mod_upper_bound. }
  apply claimed_inv; try done.
  destruct (entry_slot (table (kern m)) idx (proj1 Hm) Hlt ltac:(done)) as [_ Es].
  cbn [table fst] in Es. by rewrite Es.
Qed.

Lemma enter_take_inv c i k' :
  i ≠ 0 → enter_take (kern m) c i = (k', true) → minv (set_entering m k' c (Some i)).
Proof.
  intros Hi. unfold enter_take. destruct (_ && _) eqn:E; [|done]. intros [= <-]. unbool.
  by apply claimed_inv.
Qed.

Lemma enter_other_inv (W : WmQueries) c i k' o :
  enter_other (kern m) c i = (k', o) → minv (set_entering m k' c o).
Proof.
  unfold enter_other. destruct (next_runnable_pid _ _ _) as [k1 o1] eqn:Ep.
  pose proof (pick_inv W _ _ _ _ Ep) as H1.
  destruct o1 as [other|]; [|by intros [= <- <-]]. destruct (negb _); intros [= <- <-]; [done|].
  destruct H1 as [H1 H2]. split; [exact H1|]. eapply owned_mono; [|exact H2].
  unfold tracked, active. cbn. intros c' j [Hs [H|H]]; (split; [done|]); [by left|right]. by destruct (c' =? c).
Qed.
End minv_steps.

Section minv_entry.
Context {m : Machine} (Hm : minv m).

Lemma touch_inv k' i p' :
  i ≠ 0 → pid (slot (PTABLE (kern m)) i) = i → touches (slot (PTABLE (kern m)) i) p' →
  table k' = (put (PTABLE (kern m)) i p', NEXT_PID (kern m)) → same_cpus (kern m) k' →
  minv (mkMachine k' (entering m)).
Proof.
  destruct Hm as [Ht Ho]. intros Hi Hp T E Hc.
  pose proof (evolves_touch (kern m) i p' Ht Hp Hi T) as He. unfold evolves, table in He.
  cbn in He. rewrite <- E in He. apply minv_kernel; [by eapply changes_ok|by eapply owned_changes|done].
Qed.

Lemma modify_inv i f :
  i ≠ 0 → (∀ p, touches p (f p)) → minv (mkMachine (modify (kern m) i f) (entering m)).
Proof.
  intros Hi Hf. unfold modify. destruct (Z.eqb_spec (pid (slot (PTABLE (kern m)) i)) i).
  - by apply (touch_inv _ i (f (slot (PTABLE (kern m)) i))).
  - by destruct m, Hm.
Qed.

(** What resets the flags of a process that the processor has claimed. *)
Lemma entry_inv c i p' :
  entering m c = Some i → pid (slot (PTABLE (kern m)) i) = i → i ≠ 0 →
  same_process (slot (PTABLE (kern m)) i) p' → is_zombie (state p') = is_zombie (state (slot (PTABLE (kern m)) i)) →
  current_cpu p' = Some c ∨ current_cpu p' = current_cpu (slot (PTABLE (kern m)) i) →
  minv (mkMachine (with_PTABLE (kern m) (put (PTABLE (kern m)) i p')) (entering m)).
Proof.
  destruct Hm as [Ht Ho]. intros He Hp Hi S Hz Hcp.
  apply minv_kernel; [by apply (put_ok Ht)| |done].
  apply (owned_put (table (kern m))); try done.
  { rewrite (sp_pid _ _ S). exact Hp. }
  intros c' [Hs Ha'] Hz'. assert (tracked m c i) as Ha by (split; [done|by right]).
  destruct (Ho c' i (conj Hs Ha') Hi) as [_ H1], (Ho c i Ha Hi) as [_ H2].
  unfold claims in H1, H2. cbn [table fst] in H1, H2. rewrite Hz in Hz'. specialize (H1 Hp Hz'). specialize (H2 Hp Hz').
  destruct Hcp as [->| ->]; congruence.
Qed.

Lemma enter_table_inv c i k' p :
  entering m c = Some i → i ≠ 0 → enter_table (kern m) c i = Val (k', p) →
  minv (mkMachine k' (entering m)).
Proof.
  intros He Hi. unfold enter_table. destruct (Z.eqb_spec (pid (slot (PTABLE (kern m)) i)) i) as [Hp|]; [|done].
  cbn [negb]. intros [= <- _]. apply (entry_inv c i); try done. by left.
Qed.

Lemma enter_table_try_inv lf c i k' p :
  entering m c = Some i → i ≠ 0 → enter_table_try (kern m) lf i = (k', Some p) →
  minv (mkMachine k' (entering m)).
Proof.
  intros He Hi. unfold enter_table_try. destruct lf; [|done]. cbn [negb].
  destruct (Z.eqb_spec (pid (slot (PTABLE (kern m)) i)) i) as [Hp|]; [|done].
  cbn [negb]. intros [= <- _]. apply (entry_inv c i); try done. by right.
Qed.

Lemma enter_cpu_inv c i p :
  entering m c = Some i → minv (set_entering m (enter_cpu (kern m) c i p).1 c None).
Proof.
  destruct Hm as [Ht Ho]. intros He. assert (table (enter_cpu (kern m) c i p).1 = table (kern m)) as E.
  { unfold enter_cpu. cbn. by destruct (negb _). }
  assert (∀ c', current_pid (cpus (enter_cpu (kern m) c i p).1 c') =
    if c' =? c then i else current_pid (cpus (kern m) c')) as Hc.
  { intros c'. unfold enter_cpu. cbn [fst]. destruct (negb _); apply set_cpu_pid. }
  split; cbn [kern set_entering]; rewrite E; [done|]. intros c' j [Hs Haj] Hj. apply Ho; [|done].
  split; [done|]. unfold active in *. cbn [kern entering set_entering] in Haj. rewrite (Hc c') in Haj.
  destruct (Z.eqb_spec c' c) as [->|]; [|exact Haj]. destruct Haj as [<-|]; [by right|done].
Qed.
End minv_entry.

Lemma gprs_inv m c i :
  minv m → i ≠ 0 → minv (mkMachine (save_full_user_gprs (kern m) c i) (entering m)).
Proof.
  intros [Ht Ho] Hi. destruct (save_gprs_table (kern m) c i Ht Hi) as [He _].
  apply minv_kernel; [by eapply changes_ok|by eapply owned_changes|apply save_gprs_cpus].
Qed.

Lemma saving_inv m s : minv m → saved_pid s ≠ 0 → minv (mkMachine (run_saving (kern m) s) (entering m)).
Proof.
  intros Hm. destruct s; cbn [saved_pid run_saving]; intros Hi;
    try (apply modify_inv; [done|done|by intros]).
  - apply (@modify_inv (mkMachine _ (entering m))); [by apply gprs_inv|done|by intros].
  - apply (gprs_inv (mkMachine (set_cpu (kern m) c _) (entering m))); [|done].
    destruct Hm as [Ht Ho]. apply minv_kernel; [done|done|]. intros c'. rewrite set_cpu_pid.
    by destruct (Z.eqb_spec c' c) as [->|].
Qed.

Lemma cr3_cpus k c pml4 : same_cpus k (write_cr3 k c pml4).
Proof. intros c'. unfold write_cr3. rewrite set_cpu_pid. by destruct (Z.eqb_spec c' c) as [->|]. Qed.

Lemma minv_same_cpus m k' :
  minv m → table k' = table (kern m) → same_cpus (kern m) k' → minv (mkMachine k' (entering m)).
Proof. intros [Ht Ho] E Hc. apply minv_kernel; [by rewrite E|by rewrite E|done]. Qed.

Lemma preempt_inv (W : WmQueries) m pd c cur r k' o :
  minv m → entering m c = None → current_pid (cpus (kern m) c) = cur → cur ≠ 0 →
  timer_preempt_switch (kern m) pd c cur r = (k', o) → minv (mkMachine k' (entering m)).
Proof.
  intros [Ht Ho] He Hc Hcur. assert (∀ c', tracked m c' cur → tracked m c cur) as Ha by (intros ? [? _]; split; [done|by left]).
  destruct (preempt_spec (kern m) pd c cur r Ht Hcur)
    as [(pt & -> & Hpt)|(next & _ & Hn & Hne & Hm & ->)]; intros [= <- _].
  - destruct Hpt as [->|[-> Hm]]; [by apply minv_kernel|].
    destruct (may_run_slot _ _ _ _ Hm) as (Hp & _ & Hf & _).
    apply minv_kernel; [by apply (claim_ok Ht)|by apply (owned_claim _ _ cur c Ht)|done].
  - pose proof (saved_ok Ht c cur Hcur next r Hm Hn) as Ht1.
    pose proof (saved_owned Ht c cur Hcur _ next r Hm Hn Ho Ha) as Ho1.
    pose proof (saved_next Ht c cur next r Hm Hn Hne) as En.
    destruct (may_run_slot _ _ _ _ Hm) as (Hp & _ & Hf & _).
    set (pt := saved_table c cur next r) in *.
    assert (pid (slot pt next) = next) as Hp1 by (rewrite En; exact Hp).
    assert (free_for (slot pt next) c = true) as Hf1 by (rewrite En; apply Z.eqb_refl).
    pose proof (owned_claim (pt, NEXT_PID (kern m)) _ next c Ht1 Hp1 Hn Hf1 Ho1) as Ho2.
    split; [exact (claim_ok Ht1 next c Hp1 Hn)|]. intros c' i [Hs Hai] Hi. unfold active in Hai.
    cbn [kern] in Hai. rewrite set_cpu_pid in Hai. cbn [entering] in Hai.
    destruct (Z.eqb_spec c' c) as [->|Hcc].
    + destruct Hai as [<-|Hai]; [|congruence]. cbn.
      split; [by apply (slot_pid_range (pt, NEXT_PID (kern m)) next Ht1 Hp1)|].
      by apply (claims_claim (pt, NEXT_PID (kern m))).
    + by apply (Ho2 c' i).
Qed.

Lemma resume_inv m c frame r k' f' :
  minv (mkMachine r.1 (entering m)) → resume_frame c frame r = (k', f') →
  minv (mkMachine k' (entering m)).
Proof.
  intros Hm. destruct r as [k1 [[[n rg] pml4]|]]; cbn; intros [= <- _]; [|done].
  by apply (minv_same_cpus (mkMachine k1 (entering m))); [| |apply cr3_cpus].
Qed.

Lemma resched_inv (W : WmQueries) m pd c frame k' f' :
  minv m → entering m c = None → apic_resched_handler (kern m) pd c frame = (k', f') →
  minv (mkMachine k' (entering m)).
Proof.
  intros Hm He. unfold apic_resched_handler. cbv zeta.
  destruct (Z.eqb_spec (current_pid (cpus (kern m) c)) 0); cbn [negb].
  { intros [= <- _]. by destruct m. }
  apply resume_inv. destruct (timer_preempt_switch _ _ _ _ _) as [k1 o] eqn:E.
  by eapply preempt_inv.
Qed.

Lemma tick_zero k : table_ok (table k) → account_tick k 0 = (k, false).
Proof.
  intros Ht. unfold account_tick.
  destruct (tb_entry _ Ht _ _ (slot_lookup Ht 0)) as [E|[Hp _ _ _]]; cbn [table fst snd] in *.
  - by rewrite E.
  - by rewrite (proj2 (Z.eqb_neq _ _)) by lia.
Qed.

Lemma tick_inv m lf i k1 o :
  minv m → account_tick_try (kern m) lf i = (k1, o) →
  minv (mkMachine k1 (entering m)) ∧ cpus k1 = cpus (kern m) ∧ (i = 0 → default false o = false).
Proof.
  intros Hm. unfold account_tick_try. destruct lf; [|by intros [= <- <-]; destruct m].
  destruct (decide (i = 0)) as [->|Hi].
  { rewrite tick_zero by apply Hm. intros [= <- <-]. by destruct m. }
  unfold account_tick. destruct (_ || _) eqn:Eg; intros [= <- <-]; [by destruct m|].
  apply orb_false_iff in Eg as [Hp%negb_false_iff%Z.eqb_eq _].
  split_and!; [|done|done]. by eapply (touch_inv Hm _ i _ Hi Hp); [|reflexivity|].
Qed.

Lemma timer_inv (W : WmQueries) m pd lf1 lf2 c frame k' f' :
  minv m → entering m c = None → apic_timer_user (kern m) pd lf1 lf2 c frame = (k', f') →
  minv (mkMachine k' (entering m)).
Proof.
  intros Hm He. unfold apic_timer_user. cbv zeta.
  destruct (account_tick_try _ _ _) as [k1 o] eqn:Et.
  destruct (tick_inv m _ _ _ _ Hm Et) as (Hm1 & Hc & H0). set (cur := current_pid (cpus (kern m) c)) in *.
  destruct (_ || _) eqn:Es; [|by intros [= <- _]].
  assert (cur ≠ 0) as Hcur.
  { intros E0. rewrite (H0 E0), E0 in Es. done. }
  apply resume_inv. unfold timer_preempt_switch_try. destruct (pd || lf2); [|done].
  destruct (timer_preempt_switch _ _ _ _ _) as [k2 o2] eqn:E.
  apply (preempt_inv W (mkMachine k1 (entering m)) pd c cur frame k2 o2); try done.
  cbn. by rewrite Hc.
Qed.

Lemma claim_child_inv m c i :
  minv m → i ≠ 0 → free_for (slot (PTABLE (kern m)) i) c = true ∨ stray i = true →
  minv (mkMachine (claim_process_on_cpu (kern m) i c) (entering m)).
Proof.
  intros Hm Hi Hf. unfold claim_process_on_cpu, modify.
  destruct (Z.eqb_spec (pid (slot (PTABLE (kern m)) i)) i) as [Hp|]; [|by destruct m].
  destruct Hm as [Ht Ho]. apply minv_kernel; try done; [by apply (claim_ok Ht)|].
  destruct Hf; [by apply (owned_claim _ _ i c Ht)|by apply stray_owned].
Qed.

Lemma idle_inv m c : minv m → minv (mkMachine (set_current_pid (kern m) c 0) (entering m)).
Proof.
  intros [Ht Ho]. split; [done|]. intros c' i [Hs Ha] Hi. apply Ho; [|done]. split; [done|].
  unfold active in *. cbn [kern entering] in Ha. unfold set_current_pid in Ha. rewrite set_cpu_pid in Ha.
  destruct (Z.eqb_spec c' c) as [->|]; [|done]. cbn in Ha. destruct Ha as [<-|]; [done|by right].
Qed.

Lemma mstep_inv m m' : minv m → mstep m m' → minv m'.
Proof.
  intros Hm Hs. destruct Hs as [| | | | ????? Hc|?????? Hc| | | | | | | | |].
  - by eapply call_inv.
  - by apply saving_inv.
  - by eapply pick_inv.
  - by eapply sibling_inv.
  - revert Hc. unfold try_claim_cpu_for. destruct (_ && _) eqn:E; [|done]. intros [= <-]. unbool.
    by apply claimed_inv.
  - revert Hc. unfold try_claim_cpu_for_try. destruct lf; [|done]. cbn [negb].
    destruct (_ && is_running _) eqn:E; [|done]. destruct (smp _ && _); [done|].
    destruct (free_for _ _) eqn:Ef; [|done]. intros [= <-]. unbool. by apply claimed_inv.
  - by apply enter_take_inv.
  - by eapply enter_other_inv.
  - by apply claim_child_inv.
  - by eapply enter_table_inv.
  - by eapply enter_table_try_inv.
  - by apply enter_cpu_inv.
  - by eapply resched_inv.
  - by eapply timer_inv.
  - by apply idle_inv.
Qed.

Lemma msteps_inv m m' : minv m → rtc mstep m m' → minv m'.
Proof. intros Hm. induction 1; eauto using mstep_inv. Qed.
End machine.

(** C6: No live process is on two processors: in every state the processors lead
    to from one in which they are idle, when two of them run a process or are
    about to enter it, that process has exited, unless it is [stray]: one that
    [sys_exec_wait] claims while another processor has it, or whose state is set
    after it has exited (see [exec_wait_claim_steals] and
    [wake_assist_revives_zombie]).  The steps are the calls of the process table
    that [admissible] describes, made while at least 256 pids are left below 2^32,
    the saves of contexts, picks, claims, entries and timer interrupts,
    interleaved at every acquisition of the table lock. *)
Theorem one_cpu_per_process stray m m' c c' i :
  table_ok (table (kern m)) → (∀ c, current_pid (cpus (kern m) c) = 0 ∧ entering m c = None) →
  rtc (mstep stray) m m' → c ≠ c' → i ≠ 0 → stray i = false → active m' c i → active m' c' i →
  pid (slot (PTABLE (kern m')) i) = i → is_zombie (state (slot (PTABLE (kern m')) i)) = true.
Proof.
  intros Ht Hidle Hs Hcc Hi Hns Ha Ha' Hp. assert (minv stray m) as Hm.
  { split; [done|]. intros c0 j [_ [Hj|Hj]] Hj0; destruct (Hidle c0); congruence. }
  destruct (msteps_inv stray m m' Hm Hs) as [_ Ho].
  destruct (Ho c i (conj Hns Ha) Hi) as [_ H1], (Ho c' i (conj Hns Ha') Hi) as [_ H2]. unfold claims in H1, H2.
  cbn [table fst] in *. destruct (is_zombie _) eqn:Ez; [done|].
  specialize (H1 Hp eq_refl). specialize (H2 Hp eq_refl). congruence.
Qed.

(** ** Contexts survive what other processes do *)

Definition context (p : Process) : UserRegs * bool * Z * bytes * Z :=
  (regs p, preempted_by_timer p, fs_base p, xstate p, pml4_phys p).

(** If process [i] is still in its slot, it was there before with the same
    context. *)
Definition keeps (i : Z) (pt pt' : list Process) : Prop :=
  pid (slot pt' i) = i → pid (slot pt i) = i ∧ context (slot pt' i) = context (slot pt i).

Lemma keeps_refl i pt : keeps i pt pt.
Proof. done. Qed.

Lemma keeps_trans i pt1 pt2 pt3 : keeps i pt1 pt2 → keeps i pt2 pt3 → keeps i pt1 pt3.
Proof. intros H1 H2 Hp. destruct (H2 Hp) as [Hp2 E2]. destruct (H1 Hp2) as [Hp1 E1]. split; congruence. Qed.

Lemma keeps_set i pt idx p' :
  pid p' = pid (pt !!! idx) → (pid p' = i → context p' = context (pt !!! idx)) →
  keeps i pt (<[idx := p']> pt).
Proof.
  intros E Hc Hp. unfold slot in *. destruct (decide (idx = idx_of i)) as [->|Hne].
  2: { by rewrite list_lookup_total_insert_ne in * by done. }
  destruct (decide (idx_of i < length pt)%nat).
  - rewrite list_lookup_total_insert_eq in * by done. split; [congruence|auto].
  - by rewrite list_insert_ge in * by lia.
Qed.

Lemma keeps_put i pt j p' :
  pid p' = pid (slot pt j) → (pid p' = i → context p' = context (slot pt j)) → keeps i pt (put pt j p').
Proof. apply keeps_set. Qed.

Lemma keeps_claim i pt j c : keeps i pt (claim pt j c).
Proof. by apply keeps_put. Qed.

Lemma keeps_modify i k j f :
  j ≠ i → (∀ p, pid (f p) = pid p) → keeps i (PTABLE k) (PTABLE (modify k j f)).
Proof.
  intros Hne Hf. unfold modify. destruct (Z.eqb_spec (pid (slot (PTABLE k) j)) j) as [Hp|]; [|apply keeps_refl].
  apply keeps_put; [apply Hf|]. rewrite Hf. congruence.
Qed.

Lemma keeps_pick {W : WmQueries} i pt smp cur c : keeps i pt (next_runnable_pid_locked pt smp cur c).1.
Proof.
  unfold next_runnable_pid_locked. repeat case_if; try apply keeps_claim.
  all: destruct (scan _ _ _ _); cbn [fst]; try case_if; try apply keeps_claim; try apply keeps_refl;
    by apply keeps_set.
Qed.

Lemma keeps_save i pt k c cur r :
  cur ≠ i → keeps i pt (put pt cur (save_preempted k c cur r (slot pt cur))).
Proof.
  intros Hne. apply keeps_put; [apply save_preempted_same|]. intros Hp.
  rewrite save_preempted_other; [done|].
  rewrite (sp_pid _ _ (save_preempted_same _ _ _ _ _)) in Hp. congruence.
Qed.

Lemma keeps_preempt {W : WmQueries} i k pd c cur r :
  cur ≠ i → keeps i (PTABLE k) (PTABLE (timer_preempt_switch k pd c cur r).1).
Proof.
  intros Hne. unfold timer_preempt_switch. destruct pd; [apply keeps_refl|].
  pose proof (keeps_pick i (PTABLE k) (smp k) cur c) as Hk.
  destruct (next_runnable_pid_locked _ _ _ _) as [pt [next|]]; [|exact Hk]. cbn [fst] in Hk.
  case_if; [exact Hk|]. pose proof (keeps_save i pt k c cur r Hne) as Hs.
  pose proof (keeps_trans _ _ _ _ Hk Hs) as Ht.
  case_if; cbn [fst PTABLE with_PTABLE set_cpu with_cpus].
  - eapply keeps_trans; [exact Hk|]. unfold put. rewrite list_insert_insert_eq. apply keeps_put.
    + apply (sp_pid _ _ (save_preempted_same k c cur r (slot pt cur))).
    + cbn. rewrite (sp_pid _ _ (save_preempted_same k c cur r (slot pt cur))). intros Hp.
      rewrite save_preempted_other by congruence. done.
  - eapply keeps_trans; [exact Ht|]. apply (keeps_claim i _ next c).
Qed.

(** ** Creating calls and the contexts of the others *)

(** A pid taken in [k], greater than all before it, and the table still that of
    [k]. *)
Record fresh_pid (k k1 : Kernel) (j : Z) : Prop := mkFresh {
  fp_table : PTABLE k1 = PTABLE k;
  fp_next : NEXT_PID k1 = j + 1;
  fp_new : NEXT_PID k ≤ j
}.

(** Process [i] is left alone and no pid is given back. *)
Definition spared (i : Z) (k k' : Kernel) : Prop :=
  keeps i (PTABLE k) (PTABLE k') ∧ NEXT_PID k ≤ NEXT_PID k'.

Lemma spared_trans i k k1 k2 : spared i k k1 → spared i k1 k2 → spared i k k2.
Proof. intros [H1 N1] [H2 N2]. split; [by eapply keeps_trans|lia]. Qed.

Lemma spared_table i k k' : table k' = table k → spared i k k'.
Proof. unfold table. intros [= E1 E2]. split; [rewrite E1; apply keeps_refl|lia]. Qed.

Lemma spared_put i k j p' :
  pid p' = pid (slot (PTABLE k) j) → (pid p' = i → context p' = context (slot (PTABLE k) j)) →
  spared i k (with_PTABLE k (put (PTABLE k) j p')).
Proof. intros. split; [by apply keeps_put|done]. Qed.

Lemma spared_modify i k j f :
  (∀ p, pid (f p) = pid p) → j ≠ i ∨ (∀ p, context (f p) = context p) → spared i k (modify k j f).
Proof.
  intros Hf Hj. unfold modify. destruct (Z.eqb_spec (pid (slot (PTABLE k) j)) j) as [Hp|]; [|by apply spared_table].
  apply spared_put; [apply Hf|]. rewrite Hf. destruct Hj as [Hj|Hj]; [congruence|by rewrite Hj].
Qed.

Lemma changes_next t t' : rtc change t t' → t.2 ≤ t'.2.
Proof. induction 1 as [|t t1 t2 H _ IH]; [done|]. destruct H; cbn in *; lia. Qed.

Section creating.
Context {i : Z} {k : Kernel} (Hi : i < NEXT_PID k).

Lemma fresh_keep k1 k2 j : fresh_pid k k1 j → table k2 = table k1 → fresh_pid k k2 j.
Proof. intros [E1 E2 E3]. unfold table. intros [= F1 F2]. split; congruence. Qed.

Lemma fresh_spared k1 j : fresh_pid k k1 j → spared i k k1.
Proof. intros [E1 E2 E3]. split; [rewrite E1; apply keeps_refl|lia]. Qed.

Lemma fresh_publish k1 k2 j p :
  fresh_pid k k1 j → pid p = j → table k2 = (put (PTABLE k1) j p, NEXT_PID k1) → spared i k k2.
Proof.
  intros [E1 E2 E3] Hp. unfold table. intros [= F1 F2]. split; [|lia].
  rewrite F1, E1. intros Hpi. unfold slot, put in *. destruct (decide (idx_of j = idx_of i)) as [Ej|Ej].
  2: { by rewrite list_lookup_total_insert_ne in * by done. }
  rewrite Ej in *. destruct (decide (idx_of i < length (PTABLE k))%nat).
  - rewrite list_lookup_total_insert_eq in Hpi by done. lia.
  - by rewrite list_insert_ge in * by lia.
Qed.

Lemma with_fresh {B} (f : Kernel → Z → outcome (Kernel * result B)) k' r :
  pid_room k → (∀ k1 j, fresh_pid k k1 j → f k1 j = Val (k', r) → spared i k k') →
  rbind (ok_or (alloc_pid k) "process table full") f = Val (k', r) → spared i k k'.
Proof.
  intros Hr Hk H. refine (rbind_inv _ f _ _ (λ k' _, spared i k k') H _ _); clear H.
  - intros k1 e Hm. destruct (alloc_pid k) as [k0 [j|]] eqn:Ea; [done|]. cbn in Hm. injection Hm as <- _.
    destruct (alloc_pid_spec k k0 _ Hr Ea) as (E1 & _ & He). split; [rewrite E1; apply keeps_refl|].
    by apply (changes_next (table k) (table k0)).
  - intros k1 j Hm H. destruct (alloc_pid k) as [k0 [j'|]] eqn:Ea; [|done]. cbn in Hm. injection Hm as <- <-.
    destruct (alloc_pid_spec k k0 _ Hr Ea) as (E1 & _ & Hs & E4 & _). apply (Hk k0 j'); [|done].
    split; [done|done|]. by apply (changes_next _ _ Hs).
Qed.
End creating.

(** Goes through the steps between [alloc_pid] and the publication. *)
Ltac fresh_step L :=
  match goal with H : _ = Val (_, _) |- spared _ _ _ => cbv beta iota zeta in H end;
  match goal with
  | H : rbind ?m ?f = Val _, R : fresh_pid ?k _ _ |- spared ?i ?k _ =>
      let Hm := fresh "Hm" in
      refine (rbind_inv m f _ _ (λ k' _, spared i k k') H _ _); clear H;
      [intros ? ? Hm|intros ? ? Hm H]; apply L in Hm; apply (fresh_keep _ _ _ R) in Hm; clear R;
      [by eapply fresh_spared|rename Hm into R]
  end.

Lemma spawn_spared i p0 p1 sd k elf b k' r :
  i < NEXT_PID k → pid_room k → spawn_with_bootstrap p0 p1 sd k elf b = Val (k', r) → spared i k k'.
Proof.
  intros Hi Hr. unfold spawn_with_bootstrap. apply (with_fresh _ k' r Hr). intros k1 j R.
  unfold spawn_as. intros H. fresh_step @alloc_stack_keeps. destruct a as [sb st].
  fresh_step @mm_ok_or_keeps. fresh_step @on_mm_keeps. fresh_step @on_mm_keeps. fresh_step @on_mm_keeps.
  injection H as <- _. match goal with |- spared _ _ (publish_process ?k5 _ ?x ?y _ _ _) =>
    destruct (publish_process_table k5 j x y sb st b) as (p & E & Hp & _) end.
  by eapply (fresh_publish Hi).
Qed.

Lemma spawn_thread_spared i tr k parent entry arg size k' r :
  i < NEXT_PID k → pid_room k → spawn_thread tr k parent entry arg size = Val (k', r) → spared i k k'.
Proof.
  intros Hi Hr. unfold spawn_thread. case_if; [intros [= <- _]; by apply spared_table|].
  apply (with_fresh _ k' r Hr). intros k1 j R. unfold spawn_thread_as. intros H.
  fresh_step @alloc_stack_keeps. destruct a as [sb st]. fresh_step @thread_mmap_keeps. cbv zeta in H.
  match type of H with rbind (thread_mmap ?k3 _ _ _ _) _ = _ =>
    apply (fresh_keep _ k3 _) in R; [|reflexivity] end.
  fresh_step @thread_mmap_keeps. injection H as <- _.
  eapply (fresh_publish Hi _ _ _ _ R); [|reflexivity]. done.
Qed.

Lemma gprs_spared i k c j : j ≠ i → spared i k (save_full_user_gprs k c j).
Proof.
  intros Hne. unfold save_full_user_gprs. case_if; [by apply spared_table|].
  apply (spared_trans _ _ (set_cpu k c (mkCpu (current_pid (cpus k c)) (fs_base_msr (cpus k c))
    (live_xstate (cpus k c)) (active_stack_top (cpus k c)) (cpu_cr3 (cpus k c)) true (user_gprs (cpus k c)))));
    [by apply spared_table|]. apply spared_modify; [done|by left].
Qed.

Lemma clone_thread_spared i k c parent crip crsp k' r :
  i < NEXT_PID k → pid_room k → parent ≠ i → clone_thread k c parent crip crsp = Val (k', r) →
  spared i k k'.
Proof.
  intros Hi Hr Hne. unfold clone_thread. pose proof (gprs_spared i k c parent Hne) as H0.
  assert (NEXT_PID (save_full_user_gprs k c parent) = NEXT_PID k) as En.
  { unfold save_full_user_gprs, modify. by repeat case_if. }
  set (k0 := save_full_user_gprs k c parent) in *. cbv zeta. intros H.
  apply (spared_trans _ _ _ _ H0). clearbody k0. revert H.
  case_if; [intros [= <- _]; by apply spared_table|].
  assert (pid_room k0) as Hr0 by (unfold pid_room in *; by rewrite En). rewrite <- En in Hi.
  apply (with_fresh _ k' r Hr0). intros k1 j R. unfold clone_thread_as. intros H.
  fresh_step @alloc_stack_keeps. destruct a as [sb st]. injection H as <- _.
  eapply (fresh_publish Hi _ _ _ _ R); [|reflexivity]. done.
Qed.

(** What the processors do between the preemption of a process and its next run,
    one acquisition of the table lock at a time. *)
Inductive op :=
| OCall (p0 p1 sd : bytes) (tr : Z) (c : call)
| OPick (W : WmQueries) (c cur : Z) | OSibling (c cur : Z) | OClaim (c j : Z)
| OClaimTry (lf : bool) (c j : Z) | OClaimChild (c j : Z) | OTake (c j : Z)
| OOther (W : WmQueries) (c j : Z) | OTable (c j : Z) | OTableTry (lf : bool) (j : Z)
| OCpu (c j : Z) (p : Process)
| OResched (W : WmQueries) (pd : bool) (c : Z) (frame : UserRegs)
| OTimer (W : WmQueries) (pd lf1 lf2 : bool) (c : Z) (frame : UserRegs)
| OIdle (c : Z) | OSave (s : saving).

Definition run_op (k : Kernel) (o : op) : outcome Kernel :=
  match o with
  | OCall p0 p1 sd tr c => run p0 p1 sd tr k c
  | OPick W c cur => Val (next_runnable_pid k c cur).1
  | OSibling c cur => Val (next_runnable_sibling_thread k c cur).1
  | OClaim c j => Val (try_claim_cpu_for k j c).1
  | OClaimTry lf c j => Val (try_claim_cpu_for_try k lf j c).1
  | OClaimChild c j => Val (claim_process_on_cpu k j c)
  | OTake c j => Val (enter_take k c j).1
  | OOther W c j => Val (enter_other k c j).1
  | OTable c j => fst_val (enter_table k c j)
  | OTableTry lf j => Val (enter_table_try k lf j).1
  | OCpu c j p => Val (enter_cpu k c j p).1
  | OResched W pd c frame => Val (apic_resched_handler k pd c frame).1
  | OTimer W pd lf1 lf2 c frame => Val (apic_timer_user k pd lf1 lf2 c frame).1
  | OIdle c => Val (set_current_pid k c 0)
  | OSave s => Val (run_saving k s)
  end.

(** The call does not set the registers of process [i] itself. *)
Definition call_spares (i : Z) (c : call) : Prop :=
  match c with
  | CloneThread _ j _ _ | SetFsBase j _ | SetBootstrap j _ _ _ | SaveGprs _ j => j ≠ i
  | _ => True
  end.

(** The operation neither enters, interrupts nor saves process [i], and pids
    are left. *)
Definition spares (i : Z) (k : Kernel) (o : op) : Prop :=
  match o with
  | OCall _ _ _ _ c => call_spares i c ∧ pid_room k
  | OTable _ j | OTableTry _ j => j ≠ i
  | OResched _ _ c _ | OTimer _ _ _ _ c _ => current_pid (cpus k c) ≠ i
  | OSave s => saved_pid s ≠ i
  | _ => True
  end.

Definition other_step (i : Z) (k k' : Kernel) : Prop := ∃ o, spares i k o ∧ run_op k o = Val k'.

(** Reaped entries are empty. *)
Lemma keeps_reap i pt pt' :
  i ≠ 0 → (∀ idx, pt' !!! idx = pt !!! idx ∨ pt' !!! idx = Process_empty) → keeps i pt pt'.
Proof.
  intros Hi H Hp. unfold slot in *. destruct (H (idx_of i)) as [E|E]; [by rewrite E in *|].
  rewrite E in Hp. done.
Qed.

Lemma insert_total_cases (pt : list Process) idx p' j :
  (<[idx := p']> pt) !!! j = pt !!! j ∨ (<[idx := p']> pt) !!! j = p'.
Proof.
  destruct (decide (idx = j)) as [->|]; [|left; by apply list_lookup_total_insert_ne].
  destruct (decide (j < length pt)%nat); [right; by apply list_lookup_total_insert_eq|].
  left. by rewrite list_insert_ge by lia.
Qed.

Lemma exit_spared i k rf pf j code k' : exit k rf pf j code = Val k' → spared i k k'.
Proof.
  unfold exit. case_if; [intros [= <-]; by apply spared_table|].
  destruct (release k j _) as [k1|] eqn:Er; [|done]. apply release_keeps in Er. cbn [obind]. intros [= <-].
  unfold table in Er. injection Er as E1 E2. split; cbn; [|lia]. rewrite E1. by apply keeps_put.
Qed.

Lemma exits_spared i vs k rf pf code k' :
  for_list vs (λ v k', exit k' rf pf v code) k = Val k' → spared i k k'.
Proof.
  revert k. induction vs as [|v vs IH]; intros k; cbn [for_list]; [intros [= <-]; by apply spared_table|].
  destruct (exit k rf pf v code) as [k1|] eqn:Ex; [|done]. cbn [obind]. intros H.
  apply (spared_trans _ _ k1); [by eapply exit_spared|by apply IH].
Qed.

Lemma keeps_next {W : WmQueries} i k c cur : keeps i (PTABLE k) (PTABLE (next_runnable_pid k c cur).1).
Proof.
  unfold next_runnable_pid. case_if; [apply keeps_refl|].
  pose proof (keeps_pick i (PTABLE k) (smp k) cur c) as H.
  by destruct (next_runnable_pid_locked _ _ _ _).
Qed.

Lemma keeps_gprs i k c j : j ≠ i → keeps i (PTABLE k) (PTABLE (save_full_user_gprs k c j)).
Proof.
  intros Hne. unfold save_full_user_gprs. case_if; [apply keeps_refl|].
  by apply (keeps_modify i (set_cpu k c _)).
Qed.

Lemma keeps_saving i k s : saved_pid s ≠ i → keeps i (PTABLE k) (PTABLE (run_saving k s)).
Proof.
  destruct s; cbn [saved_pid run_saving]; intros Hne; try by apply keeps_modify.
  - eapply keeps_trans; [by apply (keeps_gprs i k c)|]. by apply keeps_modify.
  - by apply (keeps_gprs i (set_cpu k c _)).
Qed.

Lemma keeps_wake_bits i pt mask base bs : keeps i pt (wake_bits pt mask base bs).1.
Proof.
  revert pt. induction bs as [|b bs IH]; intros pt; [apply keeps_refl|]. cbn [wake_bits].
  destruct (_ && blocked_state _); [|apply IH].
  specialize (IH (<[(base + b)%nat := set_state (pt !!! (base + b)%nat) Running]> pt)).
  destruct (wake_bits (<[_ := _]> pt) mask base bs) as [pt' b']. cbn [fst] in *.
  eapply keeps_trans; [|exact IH]. by apply keeps_set.
Qed.

Lemma keeps_wake_words i pt ws base : keeps i pt (wake_words pt ws base).1.
Proof.
  revert pt base. induction ws as [|w ws IH]; intros pt base; [apply keeps_refl|]. cbn [wake_words].
  pose proof (keeps_wake_bits i pt w base (seq 0 32)) as H1.
  destruct (wake_bits pt w base (seq 0 32)) as [pt1 b1]. specialize (IH pt1 (base + 32)%nat).
  destruct (wake_words pt1 ws (base + 32)) as [pt2 b2]. cbn [fst] in *. by eapply keeps_trans.
Qed.

Lemma keeps_tick i k j lf : j ≠ i → keeps i (PTABLE k) (PTABLE (account_tick_try k lf j).1).
Proof.
  intros Hne. unfold account_tick_try. destruct lf; [|apply keeps_refl]. unfold account_tick.
  destruct (_ || _); [apply keeps_refl|]. cbn. by apply keeps_put.
Qed.

Lemma resume_frame_table c frame r : PTABLE (resume_frame c frame r).1 = PTABLE r.1.
Proof. by destruct r as [k [[[n rg] pml4]|]]. Qed.

Lemma keeps_timer (W : WmQueries) i k pd lf1 lf2 c frame :
  current_pid (cpus k c) ≠ i →
  keeps i (PTABLE k) (PTABLE (apic_timer_user k pd lf1 lf2 c frame).1).
Proof.
  intros Hne. unfold apic_timer_user. cbv zeta.
  pose proof (keeps_tick i k _ lf1 Hne) as H. destruct (account_tick_try _ _ _) as [k1 o]. cbn [fst] in H.
  case_if; [|exact H]. rewrite resume_frame_table. eapply keeps_trans; [exact H|].
  unfold timer_preempt_switch_try. case_if; [by apply keeps_preempt|apply keeps_refl].
Qed.

Lemma keeps_other (W : WmQueries) i k c j : keeps i (PTABLE k) (PTABLE (enter_other k c j).1).
Proof.
  unfold enter_other. pose proof (keeps_next i k c (current_pid (cpus k c))) as H.
  destruct (next_runnable_pid _ _ _) as [k1 [other|]]; [|exact H]. by case_if.
Qed.

Lemma keeps_pending i k lf : keeps i (PTABLE k) (PTABLE (handle_pending_wakes_try k lf).1).
Proof.
  unfold handle_pending_wakes_try. case_if; [apply keeps_refl|]. case_if; [apply keeps_refl|].
  pose proof (keeps_wake_words i (PTABLE k) (PENDING_WAKES k) 0) as H. by destruct (wake_words _ _ _).
Qed.

Lemma pending_spared i k lf : spared i k (handle_pending_wakes_try k lf).1.
Proof.
  split; [apply keeps_pending|]. unfold handle_pending_wakes_try. case_if; [done|]. case_if; [done|].
  by destruct (wake_words _ _ _).
Qed.

Lemma reap_spared i k parent :
  i ≠ 0 → spared i k (reap_one_zombie k parent).1 ∧ spared i k (reap_zombie_children k parent).1.
Proof.
  intros Hi. split.
  - unfold reap_one_zombie. destruct (find_first _ _); [|by apply spared_table]. split; [|done]. cbn.
    destruct (update_first _ _ _) as [l|] eqn:Eu; [|apply keeps_refl].
    apply update_first_Some in Eu as (j & x & _ & _ & ->). apply keeps_reap; [done|].
    intros idx. apply insert_total_cases.
  - split; [|done]. apply keeps_reap; [done|]. intros idx. cbn.
    rewrite !list_lookup_total_alt, list_lookup_fmap.
    destruct (PTABLE k !! idx) as [p|]; [|by left]. cbn. case_if; [by right|by left].
Qed.

Lemma empty_spared i k j :
  i ≠ 0 → spared i k (with_PTABLE k (put (PTABLE k) j Process_empty)).
Proof. intros Hi. split; [|done]. apply keeps_reap; [done|]. intros idx. apply insert_total_cases. Qed.

Lemma run_spared i p0 p1 sd tr k c k' :
  i ≠ 0 → i < NEXT_PID k → pid_room k → call_spares i c → run p0 p1 sd tr k c = Val k' → spared i k k'.
Proof.
  intros Hi Hn Hr. destruct c; cbn [run call_spares]; intros Hs H;
    try (apply fst_val_inv in H as [res H]); try (injection H as <-);
    try (by apply spared_modify; [|right]); try (by apply spared_modify; [|left]).
  - by eapply spawn_spared.
  - by eapply spawn_thread_spared.
  - by eapply clone_thread_spared.
  - by eapply exit_spared.
  - unfold kill in H. case_if_in H; [injection H as <- _; by apply spared_table|].
    destruct (exit _ _ _ _ _) as [k1|] eqn:Ex; [|done]. cbn in H. injection H as <- _. by eapply exit_spared.
  - unfold kill_group in H. destruct (for_list _ _ _) as [k1|] eqn:Ef; [|done]. cbn in H.
    injection H as <- _. by eapply exits_spared.
  - unfold waitpid. case_if; [by apply spared_table|].
    destruct (state _); try (by apply spared_table). by apply empty_spared.
  - by apply reap_spared.
  - by apply reap_spared.
  - unfold reap_zombie, modify. case_if; [|by apply spared_table].
    case_if; [by apply empty_spared|by apply spared_put].
  - apply (pending_spared i (with_PENDING_WAKES k _)).
  - apply pending_spared.
  - unfold account_tick. case_if; [by apply spared_table|]. by apply spared_put.
  - unfold raise_signal. case_if; [by apply spared_table|]. apply spared_modify; [|right]; intros p; by case_if.
  - unfold dequeue_signal. case_if; [by apply spared_table|].
    destruct (trailing_zeros _); [|by apply spared_table]. by apply spared_put.
  - unfold set_signal_handler. case_if; [by apply spared_table|]. by apply spared_modify; [|right].
  - unfold set_preemptable. case_if; [by apply spared_modify; [|right]|by apply spared_table].
  - by apply gprs_spared.
Qed.

Lemma modify_next k i f : NEXT_PID (modify k i f) = NEXT_PID k.
Proof. unfold modify. by case_if. Qed.

Lemma gprs_next k c i : NEXT_PID (save_full_user_gprs k c i) = NEXT_PID k.
Proof. unfold save_full_user_gprs. case_if; [done|]. by rewrite modify_next. Qed.

Lemma pick_next {W : WmQueries} k c cur : NEXT_PID (next_runnable_pid k c cur).1 = NEXT_PID k.
Proof. unfold next_runnable_pid. case_if; [done|]. by destruct (next_runnable_pid_locked _ _ _ _). Qed.

Lemma preempt_next {W : WmQueries} k pd c cur r : NEXT_PID (timer_preempt_switch k pd c cur r).1 = NEXT_PID k.
Proof.
  unfold timer_preempt_switch. case_if; [done|]. destruct (next_runnable_pid_locked _ _ _ _) as [pt [n|]]; [|done].
  by repeat case_if.
Qed.

Lemma resume_frame_next c frame r : NEXT_PID (resume_frame c frame r).1 = NEXT_PID r.1.
Proof. by destruct r as [k [[[n rg] pml4]|]]. Qed.

Lemma saving_next k s : NEXT_PID (run_saving k s) = NEXT_PID k.
Proof.
  destruct s; cbn [run_saving]; try apply modify_next.
  - unfold save_cooperative_yield_context. by rewrite modify_next, gprs_next.
  - unfold capture_user_gprs_at_entry. by rewrite gprs_next.
Qed.

Lemma timer_next {W : WmQueries} k pd lf1 lf2 c frame :
  NEXT_PID (apic_timer_user k pd lf1 lf2 c frame).1 = NEXT_PID k.
Proof.
  unfold apic_timer_user. cbv zeta. destruct (account_tick_try _ _ _) as [k1 o] eqn:Et.
  assert (NEXT_PID k1 = NEXT_PID k) as En.
  { revert Et. unfold account_tick_try, account_tick. destruct lf1; [|by intros [= <- _]]. case_if; by intros [= <- _]. }
  case_if; [|done]. rewrite resume_frame_next. unfold timer_preempt_switch_try. case_if; [by rewrite preempt_next|done].
Qed.

(** What is done for the other processes leaves the context of [i] alone. *)
Lemma other_spared i k k' : i ≠ 0 → i < NEXT_PID k → other_step i k k' → spared i k k'.
Proof.
  intros Hi Hn (o & Hs & H). destruct o; cbn [spares run_op] in *; try injection H as <-.
  - destruct Hs. by eapply run_spared.
  - split; [apply keeps_next|by rewrite pick_next].
  - unfold next_runnable_sibling_thread. destruct (next_runnable_sibling_thread_locked _ _ _); [|by apply spared_table].
    case_if; [by apply spared_put|by apply spared_table].
  - unfold try_claim_cpu_for. case_if; [by apply spared_put|by apply spared_table].
  - unfold try_claim_cpu_for_try. repeat case_if; (by apply spared_put) || (by apply spared_table).
  - by apply spared_modify; [|right].
  - unfold enter_take. case_if; [by apply spared_put|by apply spared_table].
  - split; [apply keeps_other|]. unfold enter_other. pose proof (pick_next k c (current_pid (cpus k c))) as En.
    destruct (next_runnable_pid _ _ _) as [k1 [x|]]; cbn in En; [case_if|]; cbn; lia.
  - unfold fst_val, enter_table in H. destruct (Z.eqb_spec (pid (slot (PTABLE k) j)) j) as [Hp|]; [|done].
    cbn in H. injection H as <-. apply spared_put; [done|]. cbn. congruence.
  - unfold enter_table_try. case_if; [by apply spared_table|].
    destruct (Z.eqb_spec (pid (slot (PTABLE k) j)) j) as [Hp|]; [|by apply spared_table].
    apply spared_put; [done|]. cbn. congruence.
  - apply spared_table. unfold enter_cpu. cbn. by case_if.
  - unfold apic_resched_handler. case_if; [|by apply spared_table]. split.
    + rewrite resume_frame_table. by apply keeps_preempt.
    + by rewrite resume_frame_next, preempt_next.
  - split; [by apply keeps_timer|by rewrite timer_next].
  - by apply spared_table.
  - split; [by apply keeps_saving|by rewrite saving_next].
Qed.

Lemma others_spared i k k' : i ≠ 0 → i < NEXT_PID k → rtc (other_step i) k k' → spared i k k'.
Proof.
  intros Hi Hn Hs. induction Hs as [|k k1 k2 H _ IH]; [by apply spared_table|].
  pose proof (other_spared i k k1 Hi Hn H) as H1. apply (spared_trans _ _ k1); [done|].
  apply IH. destruct H1. lia.
Qed.

(** What a switch loads is the saved context. *)
Lemma switch_loads {W : WmQueries} k pd c cur r k' next rg pml4 :
  timer_preempt_switch k pd c cur r = (k', Some (next, rg, pml4)) →
  context (slot (PTABLE k) next) =
    (rg, preempted_by_timer (slot (PTABLE k) next), fs_base_msr (cpus k' c), live_xstate (cpus k' c), pml4).
Proof.
  unfold timer_preempt_switch. destruct pd; [done|].
  pose proof (keeps_pick next (PTABLE k) (smp k) cur c) as Hk.
  destruct (next_runnable_pid_locked _ _ _ _) as [pt [n|]]; [|done]. cbn [fst] in Hk.
  destruct (Z.eqb_spec n cur) as [|Hne]; [done|]. cbv zeta.
  destruct (negb _ || _) eqn:Eg; [done|]. intros [= <- <- <- <-].
  apply orb_false_iff in Eg as [Hp%negb_false_iff%Z.eqb_eq _].
  pose proof (keeps_save n pt k c cur r ltac:(done)) as Hs.
  destruct (keeps_trans _ _ _ _ Hk Hs Hp) as [_ E]. cbn. rewrite Z.eqb_refl.
  unfold context in *. rewrite <- E. cbn. injection E as _ E1 _ _ _. by rewrite E1.
Qed.

(** The context a switch leaves behind. *)
Lemma switch_saves {W : WmQueries} k pd c cur r k' next rg pml4 :
  table_ok (table k) → cur ≠ 0 → pid (slot (PTABLE k) cur) = cur →
  is_running (state (slot (PTABLE k) cur)) = true →
  timer_preempt_switch k pd c cur r = (k', Some (next, rg, pml4)) →
  context (slot (PTABLE k') cur) =
    (set_rflags r (Z.lor (rflags r) 0x200), true, fs_base_msr (cpus k c), live_xstate (cpus k c),
     pml4_phys (slot (PTABLE k) cur)).
Proof.
  intros Ht Hcur Hp Hr. destruct (preempt_spec k pd c cur r Ht Hcur)
    as [(pt & -> & _)|(n & _ & Hn & Hne & Hm & ->)]; [done|]. intros [= <- <- _ _].
  destruct (may_run_slot _ _ _ _ Hm) as (Hpn & _).
  assert (idx_of n ≠ idx_of cur) as Hidx.
  { intros E. apply Hne. rewrite <- Hp, <- Hpn. unfold slot. by rewrite E. }
  pose proof (saved_ok Ht c cur Hcur n r Hm Hn) as Ht1. pose proof (claim_ok Ht n c Hpn Hn) as Ht0.
  cbn [PTABLE set_cpu with_cpus with_PTABLE].
  pose proof (slot_claim Ht1 n c cur) as E1. cbn [fst] in E1. rewrite E1, decide_False by done.
  unfold saved_table. pose proof (slot_put Ht0 cur cur) as E2. cbn [fst table] in E2.
  rewrite E2, decide_True by done.
  pose proof (slot_claim Ht n c cur) as E3. cbn [fst table] in E3. rewrite E3, decide_False by done.
  unfold save_preempted. rewrite Hr, (proj2 (Z.eqb_eq _ _) Hp). cbn.
  by rewrite (proj2 (Z.eqb_eq _ _) Hp).
Qed.

Lemma iret_twice r : enter_user_iret (set_rflags r (Z.lor (rflags r) 0x200)) = set_rflags r (Z.lor (rflags r) 0x200).
Proof. unfold enter_user_iret, set_rflags. cbn. by rewrite <- Z.lor_assoc, Z.lor_diag. Qed.

Lemma slot_put_in pt i p : pid (slot pt i) ≠ 0 → slot (put pt i p) i = p.
Proof.
  unfold slot, put. intros Hp. apply list_lookup_total_insert_eq. destruct (decide (idx_of i < length pt)%nat); [done|].
  rewrite list_lookup_total_alt, lookup_ge_None_2 in Hp by lia. done.
Qed.

(** The processor after a switch. *)
Lemma switch_cpu {W : WmQueries} k pd c cur r :
  match timer_preempt_switch k pd c cur r with
  | (k', Some (next, _, _)) => current_pid (cpus k' c) = next
  | (k', None) => cpus k' = cpus k
  end.
Proof.
  unfold timer_preempt_switch. destruct pd; [done|].
  destruct (next_runnable_pid_locked _ _ _ _) as [pt [n|]]; [|done].
  destruct (n =? cur); [done|]. destruct (negb _ || _); [done|]. cbn. by rewrite Z.eqb_refl.
Qed.

(** The interrupts that may switch the process of a processor. *)
Inductive handler := Timer (pd lf1 lf2 : bool) | Resched (pd : bool).

Definition interrupt {W : WmQueries} (k : Kernel) (h : handler) (c : Z) (frame : UserRegs)
    : Kernel * UserRegs :=
  match h with
  | Timer pd lf1 lf2 => apic_timer_user k pd lf1 lf2 c frame
  | Resched pd => apic_resched_handler k pd c frame
  end.

(** A tick is accounted to a process without changing what it is. *)
Lemma tick_slot k lf j i :
  let p := slot (PTABLE k) i in let p' := slot (PTABLE (account_tick_try k lf j).1) i in
  pid p' = pid p ∧ state p' = state p ∧ context p' = context p.
Proof.
  unfold account_tick_try, account_tick. destruct lf; [|done]. case_if; [done|]. cbn.
  unfold slot, put. set (p1 := set_slice_left _ _).
  destruct (decide (idx_of j = idx_of i)) as [E1|E1].
  2: { by rewrite list_lookup_total_insert_ne by done. }
  rewrite <- E1. destruct (decide (idx_of j < length (PTABLE k))%nat).
  - by rewrite list_lookup_total_insert_eq by done.
  - by rewrite list_insert_ge by lia.
Qed.

Lemma tick_keeps_rest k lf j :
  table_ok (table k) → j ≠ 0 →
  table_ok (table (account_tick_try k lf j).1) ∧ cpus (account_tick_try k lf j).1 = cpus k ∧
  NEXT_PID (account_tick_try k lf j).1 = NEXT_PID k.
Proof.
  intros Ht Hj. unfold account_tick_try. destruct lf; [|done].
  destruct (account_tick_creates Ht j Hj) as [He _]. apply (changes_ok _ _ Ht) in He.
  unfold account_tick in *. by case_if.
Qed.

(** An interrupt that changes the process of the processor is a tick, a switch
    and the return to the process chosen. *)
Lemma interrupt_switch {W : WmQueries} k h c frame k' u :
  interrupt k h c frame = (k', u) → current_pid (cpus k' c) ≠ current_pid (cpus k c) →
  ∃ lf pd k1 next rg pml4, let cur := current_pid (cpus k c) in
    timer_preempt_switch (account_tick_try k lf cur).1 pd c cur frame = (k1, Some (next, rg, pml4)) ∧
    k' = write_cr3 k1 c pml4 ∧ u = enter_user_iret rg.
Proof.
  set (cur := current_pid (cpus k c)). assert (∀ lf, cpus (account_tick_try k lf cur).1 = cpus k) as Hc.
  { intros []; [|done]. unfold account_tick_try, account_tick. by case_if. }
  assert (∀ lf pd k1 o, timer_preempt_switch (account_tick_try k lf cur).1 pd c cur frame = (k1, o) →
    resume_frame c frame (k1, o) = (k', u) → current_pid (cpus k' c) ≠ cur →
    ∃ next rg pml4, o = Some (next, rg, pml4) ∧ k' = write_cr3 k1 c pml4 ∧ u = enter_user_iret rg) as Hsw.
  { intros lf pd k1 o Es Ef Hne.
    pose proof (switch_cpu (account_tick_try k lf cur).1 pd c cur frame) as Hcpu. rewrite Es in Hcpu.
    destruct o as [[[n rg] pml4]|]; cbn in Ef; injection Ef as <- <-; [by exists n, rg, pml4|].
    destruct Hne. by rewrite Hcpu, Hc. }
  destruct h as [pd lf1 lf2|pd]; cbn [interrupt].
  - unfold apic_timer_user. fold cur. cbv zeta. specialize (Hc lf1). specialize (Hsw lf1 pd).
    destruct (account_tick_try k lf1 cur) as [k0 o0] eqn:Et. cbn [fst] in *.
    case_if; [|intros [= <- _]; by rewrite Hc]. unfold timer_preempt_switch_try.
    case_if; [|intros [= <- _]; by rewrite Hc].
    destruct (timer_preempt_switch k0 pd c cur frame) as [k1 o] eqn:Es. intros Ef Hne.
    destruct (Hsw k1 o eq_refl Ef Hne) as (n & rg & pml4 & -> & ? & ?).
    exists lf1, pd, k1, n, rg, pml4. by rewrite Et.
  - unfold apic_resched_handler. fold cur. cbv zeta. specialize (Hsw false pd). cbn [account_tick_try fst] in Hsw.
    case_if; [|by intros [= <- _]].
    destruct (timer_preempt_switch k pd c cur frame) as [k1 o] eqn:Es. intros Ef Hne.
    destruct (Hsw k1 o eq_refl Ef Hne) as (n & rg & pml4 & -> & ? & ?).
    by exists false, pd, k1, n, rg, pml4.
Qed.

(** The context an interrupt leaves behind, and the one it resumes. *)
Lemma interrupt_saves {W : WmQueries} k h c cur r k1 f :
  table_ok (table k) → cur ≠ 0 → current_pid (cpus k c) = cur → pid (slot (PTABLE k) cur) = cur →
  is_running (state (slot (PTABLE k) cur)) = true →
  interrupt k h c r = (k1, f) → current_pid (cpus k1 c) ≠ cur →
  context (slot (PTABLE k1) cur) =
    (set_rflags r (Z.lor (rflags r) 0x200), true, fs_base_msr (cpus k c), live_xstate (cpus k c),
     pml4_phys (slot (PTABLE k) cur)) ∧ NEXT_PID k1 = NEXT_PID k.
Proof.
  intros Ht Hcur Hc Hp Hr Hi Hne. rewrite <- Hc in Hne.
  destruct (interrupt_switch _ _ _ _ _ _ Hi Hne) as (lf & pd & k2 & n & rg & pml4 & Hsw & -> & _).
  cbv zeta in Hsw. rewrite Hc in Hsw. destruct (tick_keeps_rest k lf cur Ht Hcur) as (Ht0 & Hc0 & Hn0).
  destruct (tick_slot k lf cur cur) as (Hp0 & Hs0 & Hx0). split.
  - pose proof (switch_saves _ _ _ _ _ _ _ _ _ Ht0 Hcur (eq_trans Hp0 Hp)
      (eq_trans (f_equal _ Hs0) Hr) Hsw) as E. cbn [PTABLE write_cr3 set_cpu with_cpus]. rewrite E, Hc0.
    unfold context in Hx0. injection Hx0 as _ _ _ _ Hx0. by rewrite Hx0.
  - pose proof (preempt_next (account_tick_try k lf cur).1 pd c cur r) as En. rewrite Hsw in En. cbn in *. congruence.
Qed.

Lemma interrupt_resumes {W : WmQueries} k h c cur frame k3 u r fs x pml4 :
  context (slot (PTABLE k) cur) = (set_rflags r (Z.lor (rflags r) 0x200), true, fs, x, pml4) →
  interrupt k h c frame = (k3, u) → current_pid (cpus k c) ≠ cur → current_pid (cpus k3 c) = cur →
  u = set_rflags r (Z.lor (rflags r) 0x200) ∧ fs_base_msr (cpus k3 c) = fs ∧
  live_xstate (cpus k3 c) = x ∧ cpu_cr3 (cpus k3 c) = pml4.
Proof.
  intros Hx Hi Hne Hnow. assert (current_pid (cpus k3 c) ≠ current_pid (cpus k c)) as Hne' by congruence.
  destruct (interrupt_switch _ _ _ _ _ _ Hi Hne') as (lf & pd & k1 & n & rg & pm & Hsw & -> & ->).
  cbv zeta in Hsw. set (cur' := current_pid (cpus k c)) in *.
  pose proof (switch_cpu (account_tick_try k lf cur').1 pd c cur' frame) as Hcpu. rewrite Hsw in Hcpu.
  unfold write_cr3 in Hnow. rewrite set_cpu_pid, Z.eqb_refl in Hnow. cbn in Hnow.
  apply switch_loads in Hsw. rewrite <- Hcpu, Hnow in Hsw.
  destruct (tick_slot k lf cur' cur) as (_ & _ & Hx0). rewrite Hx0, Hx in Hsw.
  injection Hsw as E1 E2 E3 E4 E5. cbn. rewrite Z.eqb_refl. cbn.
  rewrite <- E1, iret_twice. split_and!; congruence.
Qed.

(** What is loaded after the entry was read. *)
Lemma enter_cpu_resumes k c i p r fs x pml4 :
  context p = (set_rflags r (Z.lor (rflags r) 0x200), true, fs, x, pml4) →
  pid (slot (PTABLE k) i) = i → is_running (state (slot (PTABLE k) i)) = true →
  xstate (slot (PTABLE k) i) = x →
  let '(k', u) := enter_cpu k c i p in
  u = set_rflags r (Z.lor (rflags r) 0x200) ∧ fs_base_msr (cpus k' c) = fs ∧
  live_xstate (cpus k' c) = x ∧ cpu_cr3 (cpus k' c) = pml4.
Proof.
  unfold context. intros [= E1 E2 E3 E4 E5] Hp Hr Hx. unfold enter_cpu. rewrite E1, E2, iret_twice.
  unfold restore_xstate, query. rewrite (proj2 (Z.eqb_eq _ _) Hp), Hr.
  destruct (negb _); cbn; rewrite Z.eqb_refl; cbn; by rewrite E3, Hx, E5.
Qed.

(** The critical section of an entry. *)
Lemma table_resumes k c i r fs x pml4 k1 k2 :
  i ≠ 0 → i < NEXT_PID k → pid (slot (PTABLE k) i) = i →
  context (slot (PTABLE k) i) = (set_rflags r (Z.lor (rflags r) 0x200), true, fs, x, pml4) →
  (∃ q, k1 = with_PTABLE k (put (PTABLE k) i q) ∧ xstate q = xstate (slot (PTABLE k) i)) →
  rtc (other_step i) k1 k2 → pid (slot (PTABLE k2) i) = i → is_running (state (slot (PTABLE k2) i)) = true →
  let '(k', u) := enter_cpu k2 c i (slot (PTABLE k) i) in
  u = set_rflags r (Z.lor (rflags r) 0x200) ∧ fs_base_msr (cpus k' c) = fs ∧
  live_xstate (cpus k' c) = x ∧ cpu_cr3 (cpus k' c) = pml4.
Proof.
  intros Hi Hn Hp Hx (q & -> & Hq) Hs Hp2 Hr2. apply enter_cpu_resumes; try done.
  destruct (others_spared i (with_PTABLE k (put (PTABLE k) i q)) _ Hi Hn Hs) as [Hk _]. destruct (Hk Hp2) as [_ E].
  cbn in E. rewrite slot_put_in in E by congruence. unfold context in *. injection Hx as _ _ _ Hx _.
  injection E as _ _ _ E _. congruence.
Qed.

(** C28: Preemption is transparent.  A process that runs with registers [r] is
    switched out by a timer or reschedule interrupt.  Whatever the processors do
    after that without entering, interrupting or saving this process, and the
    process table calls among it made while at least 256 pids are left below 2^32,
    it resumes on any processor with these registers (interrupts enabled), the
    same thread pointer, floating-point state and page tables: through the
    dispatcher, through the entry from the interrupted idle loop, both with
    further such steps between the reading of its entry and the loading of the
    processor, and through another timer or reschedule interrupt. *)
Theorem preempted_context_restored {W : WmQueries} k h c cur r k1 f k2 :
  table_ok (table k) → cur ≠ 0 → current_pid (cpus k c) = cur → pid (slot (PTABLE k) cur) = cur →
  is_running (state (slot (PTABLE k) cur)) = true →
  interrupt k h c r = (k1, f) → current_pid (cpus k1 c) ≠ cur →
  rtc (other_step cur) k1 k2 → pid (slot (PTABLE k2) cur) = cur →
  let resumed := λ (e : Kernel * UserRegs) c', let '(k', u) := e in
    u = set_rflags r (Z.lor (rflags r) 0x200) ∧ fs_base_msr (cpus k' c') = fs_base_msr (cpus k c) ∧
    live_xstate (cpus k' c') = live_xstate (cpus k c) ∧ cpu_cr3 (cpus k' c') = pml4_phys (slot (PTABLE k) cur) in
  let loads := λ k3 p, ∀ k4 c', rtc (other_step cur) k3 k4 → pid (slot (PTABLE k4) cur) = cur →
    is_running (state (slot (PTABLE k4) cur)) = true → resumed (enter_cpu k4 c' cur p) c' in
  (∀ c', ∃ k3 p, enter_table k2 c' cur = Val (k3, p) ∧ loads k3 p) ∧
  (∃ k3 p, enter_table_try k2 true cur = (k3, Some p) ∧ loads k3 p) ∧
  (∀ (W' : WmQueries) h' c' frame k3 u, interrupt k2 h' c' frame = (k3, u) →
     current_pid (cpus k2 c') ≠ cur → current_pid (cpus k3 c') = cur → resumed (k3, u) c').
Proof.
  intros Ht Hcur Hc Hp Hr Hi Hout Hs Hp2 resumed loads.
  destruct (interrupt_saves _ _ _ _ _ _ _ Ht Hcur Hc Hp Hr Hi Hout) as [Hc1 Hn1].
  assert (cur < NEXT_PID k1) as Hlt by (rewrite Hn1; apply (slot_pid_range _ _ Ht Hp Hcur)).
  destruct (others_spared cur k1 k2 Hcur Hlt Hs) as [Hk2 Hn2]. destruct (Hk2 Hp2) as [_ Hc2].
  rewrite Hc1 in Hc2. assert (cur < NEXT_PID k2) as Hlt2 by lia. split_and!.
  - intros c'. unfold enter_table. rewrite (proj2 (Z.eqb_eq _ _) Hp2). cbn [negb]. eexists _, _.
    split; [reflexivity|]. intros k4 c''. eapply table_resumes; try done. by eexists.
  - unfold enter_table_try. rewrite (proj2 (Z.eqb_eq _ _) Hp2). cbn [negb]. eexists _, _.
    split; [reflexivity|]. intros k4 c''. eapply table_resumes; try done. by eexists.
  - intros W' h' c' frame k3 u Hi3. by apply (interrupt_resumes _ _ _ _ _ _ _ _ _ _ _ Hc2 Hi3).
Qed.

(** ** Defects *)

(** The timer wakes the focused process when input is due for it, without
    asking whether it has exited: a zombie that nobody has reaped becomes
    runnable again and is entered, on page tables [exit] has given back. *)
Theorem wake_assist_revives_zombie {W : WmQueries} k c code :
  let i := input_target in
  i ≠ 0 → pid (slot (PTABLE k) i) = i → state (slot (PTABLE k) i) = Zombie code →
  home_cpu (slot (PTABLE k) i) = c → current_cpu (slot (PTABLE k) i) = None →
  flutter_init_ready = true → work_due i = true → current_pid (cpus k c) = 0 →
  ∃ k' u, wake_assist k c = (k', Some u) ∧ state (slot (PTABLE k') i) = Running ∧
    current_pid (cpus k' c) = i ∧ cpu_cr3 (cpus k' c) = pml4_phys (slot (PTABLE k) i).
Proof.
  intros i Hi Hp Hs Hh Hc Hready Hdue Hcur. unfold wake_assist. fold i. rewrite Hready, Hdue, Hcur.
  rewrite (proj2 (Z.eqb_neq i 0) Hi). unfold home_cpu_of_try, query.
  rewrite (proj2 (Z.eqb_eq _ _) Hp), Hh, bool_decide_eq_true_2, Z.eqb_refl by done. cbn [negb andb orb].
  unfold set_state_try. rewrite (proj2 (Z.eqb_eq _ _) Hp). cbn [andb].
  rewrite (proj2 (Z.eqb_neq 0 i)) by done. cbn [negb]. unfold set_state_of, modify.
  rewrite (proj2 (Z.eqb_eq _ _) Hp). cbn [fst].
  set (p1 := set_state (slot (PTABLE k) i) Running). set (pt1 := put (PTABLE k) i p1).
  assert (slot pt1 i = p1) as E1 by (apply slot_put_in; congruence).
  unfold try_claim_cpu_for_try. cbn [negb PTABLE with_PTABLE]. rewrite E1. cbn [pid state p1 set_state is_running].
  rewrite (proj2 (Z.eqb_eq _ _) Hp). cbn [andb]. subst p1. cbn [home_cpu set_state]. rewrite Hh, Z.eqb_refl.
  rewrite andb_false_r. unfold free_for. cbn [current_cpu set_state]. rewrite Hc.
  set (p1 := set_state (slot (PTABLE k) i) Running) in *. set (pt2 := claim pt1 i c).
  assert (slot pt2 i = set_current_cpu p1 (Some c)) as E2.
  { unfold pt2, claim. rewrite E1. apply slot_put_in. rewrite E1. cbn. congruence. }
  unfold enter_user_by_pid_noreturn_try, enter_table_try, enter_cpu. cbn [negb PTABLE with_PTABLE]. rewrite E2. cbn.
  rewrite (proj2 (Z.eqb_eq _ _) Hp). cbn. eexists _, _. split; [reflexivity|].
  destruct (negb _); cbn; rewrite Z.eqb_refl, slot_put_in by (rewrite E2; cbn; congruence); done.
Qed.

Lemma modify_other k j f i :
  j ≠ i → pid (slot (PTABLE k) i) = i → slot (PTABLE (modify k j f)) i = slot (PTABLE k) i.
Proof.
  intros Hne Hp. unfold modify. destruct (Z.eqb_spec (pid (slot (PTABLE k) j)) j) as [Hj|]; [|done].
  cbn. unfold slot, put in *. destruct (decide (idx_of j = idx_of i)) as [E|E].
  - exfalso. rewrite E in Hj. congruence.
  - by apply list_lookup_total_insert_ne.
Qed.

(** The end of [sys_exec_wait], once the child is spawned. *)
Definition exec_wait_switch {W : WmQueries} (k : Kernel) (c parent child urip ursp : Z)
    : outcome (Kernel * option UserRegs) :=
  let k1 := claim_process_on_cpu k child c in
  let k2 := set_child_parent k1 child parent in
  let k3 := save_return_context k2 c parent urip ursp in
  let k4 := save_full_user_gprs k3 c parent in
  let k5 := (set_state_of k4 parent Blocked).1 in
  match enter_claim k5 c child with
  | (k6, Some i) => let! r := enter_load k6 c i in Val (r.1, Some r.2)
  | (k6, None) => Val (k6, None)
  end.

Lemma modify_at k i f :
  pid (slot (PTABLE k) i) = i → i ≠ 0 → slot (PTABLE (modify k i f)) i = f (slot (PTABLE k) i).
Proof.
  intros Hp Hi. unfold modify. rewrite (proj2 (Z.eqb_eq _ _) Hp). apply slot_put_in. congruence.
Qed.

Lemma gprs_other k c j i :
  j ≠ i → pid (slot (PTABLE k) i) = i → slot (PTABLE (save_full_user_gprs k c j)) i = slot (PTABLE k) i.
Proof.
  intros Hne Hp. unfold save_full_user_gprs. case_if; [done|]. by rewrite modify_other.
Qed.

(** [sys_exec_wait] takes its child over whoever runs it: when another
    processor has picked the child up between the spawn and the claim, both
    run it. *)
Theorem exec_wait_claim_steals {W : WmQueries} k c c' parent child urip ursp :
  child ≠ 0 → parent ≠ child → c ≠ c' →
  pid (slot (PTABLE k) child) = child → state (slot (PTABLE k) child) = Running →
  current_cpu (slot (PTABLE k) child) = Some c' → current_pid (cpus k c') = child →
  ∃ k' u, exec_wait_switch k c parent child urip ursp = Val (k', Some u) ∧
    current_pid (cpus k' c) = child ∧ current_pid (cpus k' c') = child ∧
    pid (slot (PTABLE k') child) = child ∧ state (slot (PTABLE k') child) = Running.
Proof.
  intros Hi Hne Hcc Hp Hs Hcl Hcur. unfold exec_wait_switch.
  set (k1 := claim_process_on_cpu k child c). set (k2 := set_child_parent k1 child parent).
  set (k3 := save_return_context k2 c parent urip ursp). set (k4 := save_full_user_gprs k3 c parent).
  set (k5 := (set_state_of k4 parent Blocked).1).
  assert (slot (PTABLE k1) child = set_current_cpu (slot (PTABLE k) child) (Some c)) as E1 by (by apply modify_at).
  assert (slot (PTABLE k2) child = set_parent_pid (slot (PTABLE k1) child) parent) as E2.
  { apply modify_at; [by rewrite E1|done]. }
  assert (slot (PTABLE k3) child = slot (PTABLE k2) child) as E3.
  { apply modify_other; [done|]. by rewrite E2, E1. }
  assert (slot (PTABLE k4) child = slot (PTABLE k3) child) as E4.
  { apply gprs_other; [done|]. by rewrite E3, E2, E1. }
  assert (slot (PTABLE k5) child = slot (PTABLE k4) child) as E5.
  { apply modify_other; [done|]. by rewrite E4, E3, E2, E1. }
  assert (same_cpus k k5) as Hc5.
  { unfold k5, set_state_of. cbn [fst]. eapply same_cpus_trans; [|by apply same_cpus_eq, modify_cpus].
    eapply same_cpus_trans; [|apply save_gprs_cpus]. apply same_cpus_eq.
    unfold k3, k2, k1, save_return_context, set_child_parent, claim_process_on_cpu. by rewrite !modify_cpus. }
  rewrite E4, E3, E2, E1 in E5. clear E1 E2 E3 E4. clearbody k5. unfold enter_claim, enter_take. rewrite E5. cbn [pid
    set_parent_pid set_current_cpu]. rewrite (proj2 (Z.eqb_eq _ _) Hp). unfold free_for. cbn [current_cpu
    set_parent_pid set_current_cpu]. rewrite Z.eqb_refl. cbn [andb].
  assert (slot (claim (PTABLE k5) child c) child = set_current_cpu (slot (PTABLE k5) child) (Some c)) as E6.
  { apply slot_put_in. rewrite E5. cbn. congruence. }
  unfold enter_load, enter_table, enter_cpu. cbn [PTABLE with_PTABLE]. rewrite E6, E5. cbn [pid set_parent_pid set_current_cpu].
  rewrite (proj2 (Z.eqb_eq _ _) Hp). cbn [negb obind]. eexists _, _. split; [reflexivity|].
  cbn [fst]. split_and!.
  - destruct (negb _); cbn; by rewrite Z.eqb_refl.
  - destruct (negb _); cbn; rewrite (proj2 (Z.eqb_neq c' c)) by done; by rewrite (Hc5 c').
  - destruct (negb _); cbn; rewrite slot_put_in by (rewrite E6, E5; cbn; congruence); done.
  - destruct (negb _); cbn; rewrite slot_put_in by (rewrite E6, E5; cbn; congruence); done.
Qed.

(** ** Runs on the sample table *)

Definition idle_wm : WmQueries := {|
  focus_pid := 1; input_pending_for := λ _, 0%nat; embedder_baton_due := λ _, false;
  flutter_init_ready := true
|}.

Definition input_wm : WmQueries := {|
  focus_pid := 1; input_pending_for := λ _, 1%nat; embedder_baton_due := λ _, false;
  flutter_init_ready := true
|}.

(** Process 1 yields to its thread 2. *)
Lemma pick_witness :
  may_run (W := idle_wm) sample_pt false 0 2 = true ∧
  (next_runnable_pid_locked (W := idle_wm) sample_pt false 1 0).2 = Some 2.
Proof.
  pose proof (pick_correct (W := idle_wm) (sample_pt, 3) false 1 0 sample_pt_ok) as [H _]. cbn [fst] in H.
  assert ((next_runnable_pid_locked (W := idle_wm) sample_pt false 1 0).2 = Some 2) as E
    by (vm_compute; reflexivity).
  split; [|exact E]. destruct (next_runnable_pid_locked _ _ _ _) as [pt o]. cbn [snd] in E. subst o.
  exact (proj1 (proj2 H)).
Defined.

Lemma starvation_witness : 2 ∈ picks (W := idle_wm) MAX_PROCS sample_pt false 1 0.
Proof.
  refine (pick_no_starvation (W := idle_wm) (sample_pt, 3) false 1 0 2 sample_pt_ok _ _ _ _).
  - cbn. lia.
  - split; reflexivity.
  - lia.
  - vm_compute. reflexivity.
Defined.

Lemma pair_snd {A B} (p : A * B) x : p.2 = x → p = (p.1, x).
Proof. by intros <-; destruct p. Qed.

(** Processor 0 enters thread 2, which is killed; processor 1 claims what is
    left of it. *)
Definition d1 : Kernel := (enter_take kernel1 0 2).1.
Definition d2 : Kernel := run_or d1 (fst_val (enter_table d1 0 2)).
Definition d3 : Kernel := (enter_cpu d2 0 2 (slot (PTABLE d1) 2)).1.
Definition d4 : Kernel := run_or d3 (exit d3 true true 2 7).
Definition d5 : Kernel := (enter_take d4 1 2).1.
Definition machine0 : Machine := mkMachine kernel1 (λ _, None).
Definition machine1 : Machine := set_entering machine0 d1 0 (Some 2).
Definition machine2 : Machine := mkMachine d2 (entering machine1).
Definition machine3 : Machine := set_entering machine2 d3 0 None.
Definition machine4 : Machine := mkMachine d4 (entering machine3).
Definition machine5 : Machine := set_entering machine4 d5 1 (Some 2).

Lemma machine_steps : rtc (mstep (λ _, false)) machine0 machine5.
Proof.
  assert (enter_take kernel1 0 2 = (d1, true)) as E1 by (apply pair_snd; vm_compute; reflexivity).
  assert (∃ p, enter_table d1 0 2 = Val (d2, p)) as [p E2].
  { apply fst_val_inv, runs_val. vm_compute. reflexivity. }
  assert (exit d3 true true 2 7 = Val d4) as E4 by (apply runs_val; vm_compute; reflexivity).
  assert (enter_take d4 1 2 = (d5, true)) as E5 by (apply pair_snd; vm_compute; reflexivity).
  apply (rtc_l _ _ machine1); [exact (ms_take _ machine0 0 2 d1 ltac:(lia) E1)|].
  apply (rtc_l _ _ machine2); [exact (ms_table _ machine1 0 2 d2 p ltac:(lia) eq_refl E2)|].
  apply (rtc_l _ _ machine3); [exact (ms_cpu _ machine2 0 2 (slot (PTABLE d1) 2) eq_refl)|].
  apply (rtc_l _ _ machine4).
  { apply (ms_call _ [] [] [] 0 machine3 (Exit true true 2 7) d4); [exact I| |left; exact I|exact E4].
    split; vm_compute; reflexivity. }
  apply (rtc_l _ _ machine5); [exact (ms_take _ machine4 1 2 d5 ltac:(lia) E5)|].
  apply rtc_refl.
Qed.

Lemma one_cpu_witness : is_zombie (state (slot (PTABLE d5) 2)) = true.
Proof.
  refine (one_cpu_per_process (λ _, false) machine0 machine5 0 1 2 sample_pt_ok _ machine_steps _ _ _ _ _ _).
  - intros c. split; reflexivity.
  - lia.
  - lia.
  - reflexivity.
  - left. vm_compute. reflexivity.
  - right. reflexivity.
  - vm_compute. reflexivity.
Defined.

(** Process 1 is interrupted on processor 0 in favour of thread 2 and resumed
    on processor 1 after the thread was blocked. *)
Definition sample_regs : UserRegs := mkRegs 0x401000 0x7FFFFFFEF000 0x46 1 2 3 4 5 6 7 8 9 10 11 12 13 14 15.
Definition kernel5 : Kernel := set_current_pid kernel1 0 1.
Definition switched : Kernel * UserRegs := interrupt (W := idle_wm) kernel5 (Resched false) 0 sample_regs.
Definition switched2 : Kernel := run_or switched.1 (run [] [] [] 0 switched.1 (SetState 2 Blocked)).

Lemma preempted_witness :
  ∃ k3 p, enter_table switched2 1 1 = Val (k3, p) ∧
    rip (enter_cpu k3 1 1 p).2 = 0x401000 ∧ rcx (enter_cpu k3 1 1 p).2 = 3 ∧
    rflags (enter_cpu k3 1 1 p).2 = 0x246.
Proof.
  pose proof (surjective_pairing switched) as E.
  assert (rtc (other_step 1) switched.1 switched2) as Hs.
  { apply rtc_once. exists (OCall [] [] [] 0 (SetState 2 Blocked)).
    split; [split; [exact I|split; vm_compute; reflexivity]|].
    apply runs_val. vm_compute. reflexivity. }
  destruct (preempted_context_restored (W := idle_wm) kernel5 (Resched false) 0 1 sample_regs switched.1
    switched.2 switched2 sample_pt_ok ltac:(lia) ltac:(vm_compute; reflexivity)
    ltac:(vm_compute; reflexivity) ltac:(vm_compute; reflexivity) E ltac:(vm_compute; discriminate) Hs
    ltac:(vm_compute; reflexivity)) as [H _].
  destruct (H 1) as (k3 & p & H1 & H2). exists k3, p. split; [exact H1|].
  assert (pid (slot (PTABLE k3) 1) = 1 ∧ is_running (state (slot (PTABLE k3) 1)) = true) as [Hp Hr].
  { change k3 with (run_or k3 (Val k3)). assert (Val k3 = fst_val (enter_table switched2 1 1)) as -> by (by rewrite H1).
    vm_compute. by split. }
  specialize (H2 k3 1 (rtc_refl _ _) Hp Hr). destruct (enter_cpu k3 1 1 p) as [k4 u]. destruct H2 as [-> _].
  split; [reflexivity|split; reflexivity].
Defined.

(** Process 1 has exited with the focus on it and input waiting. *)
Lemma wake_assist_witness :
  ∃ k' u, wake_assist (W := input_wm) kernel3 0 = (k', Some u) ∧ state (slot (PTABLE k') 1) = Running.
Proof.
  destruct (wake_assist_revives_zombie (W := input_wm) kernel3 0 0 ltac:(cbn; lia)
    ltac:(vm_compute; reflexivity) ltac:(vm_compute; reflexivity) ltac:(vm_compute; reflexivity)
    ltac:(vm_compute; reflexivity) ltac:(reflexivity) ltac:(reflexivity) ltac:(reflexivity))
    as (k' & u & H1 & H2 & _).
  exists k', u. split; [exact H1|exact H2].
Defined.

(** Process 1 runs on processor 1; thread 2 takes it over on processor 0. *)
Definition kernel6 : Kernel := set_current_pid (with_PTABLE kernel1 (claim sample_pt 1 1)) 1 1.

Lemma exec_wait_witness :
  ∃ k' u, exec_wait_switch (W := idle_wm) kernel6 0 2 1 0x401000 0x500000 = Val (k', Some u) ∧
    current_pid (cpus k' 0) = 1 ∧ current_pid (cpus k' 1) = 1.
Proof.
  destruct (exec_wait_claim_steals (W := idle_wm) kernel6 0 1 2 1 0x401000 0x500000 ltac:(lia) ltac:(lia)
    ltac:(lia) ltac:(vm_compute; reflexivity) ltac:(vm_compute; reflexivity)
    ltac:(vm_compute; reflexivity) ltac:(vm_compute; reflexivity)) as (k' & u & H1 & H2 & H3 & _).
  exists k', u. split; [exact H1|split; [exact H2|exact H3]].
Defined.
End Dispatch.
