(* ===== verification/X86Machine.v ===== *)
(** * The x86_64 instructions of the kernel's machine code

    The kernel writes machine code into every process (the stubs of
    [process/posix_trampolines.rs]) and is entered by an assembly routine
    ([arch/x86_64/syscall.rs]).  This file gives the meaning of that code: the
    registers, byte memory with the read-only pages of the stubs, a decoder
    for the encodings they use and the effect of each instruction.  An encoding
    outside this subset is not decoded, so that a run that meets one is stuck.

    Only the low halves of the vector registers are kept.  The adjust and parity
    flags are left alone, and so are the sign and zero flags by [imul], which
    leaves them undefined; no code here reads them. *)

From Stdlib Require Import ZArith Lia.
From stdpp Require Import base numbers strings option relations list.
From S2P Require Import Prelude.

Local Open Scope Z_scope.

Module X86Machine.

(** ** Instructions *)

Inductive reg :=
| RAX | RCX | RDX | RBX | RSP | RBP | RSI | RDI
| R8 | R9 | R10 | R11 | R12 | R13 | R14 | R15.

#[global] Instance reg_eq_dec : EqDecision reg.
Proof. solve_decision. Defined.

Definition reg_ix (r : reg) : Z :=
  match r with
  | RAX => 0 | RCX => 1 | RDX => 2 | RBX => 3 | RSP => 4 | RBP => 5 | RSI => 6 | RDI => 7
  | R8 => 8 | R9 => 9 | R10 => 10 | R11 => 11 | R12 => 12 | R13 => 13 | R14 => 14 | R15 => 15
  end.

Definition reg_of (n : Z) : reg :=
  match n with
  | 0 => RAX | 1 => RCX | 2 => RDX | 3 => RBX | 4 => RSP | 5 => RBP | 6 => RSI | 7 => RDI
  | 8 => R8 | 9 => R9 | 10 => R10 | 11 => R11 | 12 => R12 | 13 => R13 | 14 => R14 | _ => R15
  end.

Inductive width := W8 | W32 | W64.

(** [gs:] or not, base, index and displacement. *)
Record addr := mkAddr { seg_gs : bool; base : option reg; index : option reg; disp : Z }.

Inductive operand := Reg (r : reg) | Mem (a : addr).

Inductive alu := Add | Sub | Xor | Cmp | Test.

Inductive cond := CB | CAE | CE | CNE | CGE.

Inductive instr :=
| Mov (w : width) (dst src : operand)
| MovImm (w : width) (dst : operand) (v : Z)
| Lea (dst : reg) (a : addr)
| Push (r : reg)
| Pop (r : reg)
| Alu (o : alu) (w : width) (dst src : operand)
| AluImm (o : alu) (w : width) (dst : operand) (v : Z)
| Imul (dst : reg) (src : operand)
| Inc (dst : operand)
| Dec (dst : operand)
| Call (target : operand)
| Jmp (target : operand)
| JmpRel (d : Z)
| Jcc (c : cond) (d : Z)
| Ret
| Syscall
| Sysret
| Swapgs
| Ud2
| Nop
| Xorps (dst src : Z)
| MovqFromXmm (dst : reg) (src : Z)
| MovqToXmm (dst : Z) (src : reg).

(** ** State *)

Record cpu := mkCpu {
  rip : Z; gpr : reg → Z; xmm : Z → Z; rflags : Z; gs_base : Z; kernel_gs_base : Z; mem : Z → Z
}.

Definition set_rip (s : cpu) (v : Z) : cpu :=
  mkCpu v (gpr s) (xmm s) (rflags s) (gs_base s) (kernel_gs_base s) (mem s).
Definition upd (g : reg → Z) (r : reg) (v : Z) (x : reg) : Z := if reg_ix x =? reg_ix r then v else g x.
Definition set_gpr (s : cpu) (r : reg) (v : Z) : cpu :=
  mkCpu (rip s) (upd (gpr s) r v) (xmm s) (rflags s) (gs_base s) (kernel_gs_base s) (mem s).
Definition set_xmm (s : cpu) (x v : Z) : cpu :=
  mkCpu (rip s) (gpr s) (λ y, if y =? x then v else xmm s y) (rflags s) (gs_base s) (kernel_gs_base s)
    (mem s).
Definition set_rflags (s : cpu) (f : Z) : cpu :=
  mkCpu (rip s) (gpr s) (xmm s) f (gs_base s) (kernel_gs_base s) (mem s).
Definition set_mem (s : cpu) (m : Z → Z) : cpu :=
  mkCpu (rip s) (gpr s) (xmm s) (rflags s) (gs_base s) (kernel_gs_base s) m.
Definition swap_gs (s : cpu) : cpu :=
  mkCpu (rip s) (gpr s) (xmm s) (rflags s) (kernel_gs_base s) (gs_base s) (mem s).

(** Little-endian accesses of [n] bytes; addresses wrap. *)
Definition ld (n : nat) (m : Z → Z) (a : Z) : Z :=
  le_val (map (λ i, m (u64 (a + Z.of_nat i))) (seq 0 n)).
Definition st (n : nat) (m : Z → Z) (a v : Z) : Z → Z :=
  λ x, let d := u64 (x - a) in if d <? Z.of_nat n then u8 (Z.shiftr v (8 * d)) else m x.

Definition nbits (w : width) : Z := match w with W8 => 8 | W32 => 32 | W64 => 64 end.
Definition nbytes (w : width) : nat := match w with W8 => 1 | W32 => 4 | W64 => 8 end.

(** ** Flags *)

Definition put_bit (f i : Z) (b : bool) : Z := if b then Z.setbit f i else Z.clearbit f i.
(** Carry, zero, sign and overflow. *)
Definition put_flags (f : Z) (c z s o : bool) : Z := put_bit (put_bit (put_bit (put_bit f 0 c) 6 z) 7 s) 11 o.
Definition msb (w : width) (v : Z) : bool := Z.testbit v (nbits w - 1).

Definition holds (f : Z) (c : cond) : bool :=
  match c with
  | CB => Z.testbit f 0
  | CAE => negb (Z.testbit f 0)
  | CE => Z.testbit f 6
  | CNE => negb (Z.testbit f 6)
  | CGE => Bool.eqb (Z.testbit f 7) (Z.testbit f 11)
  end.

(** Result and flags. *)
Definition alu_res (o : alu) (w : width) (a b : Z) : Z :=
  wrap (nbits w)
    match o with Add => a + b | Sub | Cmp => a - b | Xor => Z.lxor a b | Test => Z.land a b end.

Definition alu_flags (o : alu) (w : width) (a b f : Z) : Z :=
  let r := alu_res o w a b in
  match o with
  | Add => put_flags f (2 ^ nbits w <=? a + b) (r =? 0) (msb w r)
             (Bool.eqb (msb w a) (msb w b) && xorb (msb w r) (msb w a))
  | Sub | Cmp => put_flags f (a <? b) (r =? 0) (msb w r)
                   (xorb (msb w a) (msb w b) && xorb (msb w r) (msb w a))
  | Xor | Test => put_flags f false (r =? 0) (msb w r) false
  end.

Definition signed64 (v : Z) : Z := if v <? 2 ^ 63 then v else v - 2 ^ 64.

Definition imul_flags (a b f : Z) : Z :=
  let p := signed64 a * signed64 b in
  let fits := (- 2 ^ 63 <=? p) && (p <? 2 ^ 63) in
  put_bit (put_bit f 0 (negb fits)) 11 (negb fits).

(** Zero, sign and overflow of [inc] and [dec], which overflow at [v]. *)
Definition count_flags (r v f : Z) : Z :=
  put_bit (put_bit (put_bit f 6 (r =? 0)) 7 (msb W64 r)) 11 (r =? v).

Definition writes_back (o : alu) : bool := match o with Cmp | Test => false | _ => true end.

(** ** Execution *)

Section exec.
(** The bytes of pages mapped without write permission. *)
Context (read_only : Z → bool).

Definition writable (n : nat) (a : Z) : bool :=
  forallb (λ i, negb (read_only (u64 (a + Z.of_nat i)))) (seq 0 n).

Definition ea (s : cpu) (a : addr) : Z :=
  let r (o : option reg) := match o with Some x => gpr s x | None => 0 end in
  u64 ((if seg_gs a then gs_base s else 0) + r (base a) + r (index a) + disp a).

Definition get (w : width) (s : cpu) (o : operand) : Z :=
  match o with
  | Reg r => wrap (nbits w) (gpr s r)
  | Mem a => ld (nbytes w) (mem s) (ea s a)
  end.

(** A 32-bit write clears the upper half, an 8-bit write keeps the rest. *)
Definition put (w : width) (s : cpu) (o : operand) (v : Z) : option cpu :=
  match o with
  | Reg r =>
      Some (set_gpr s r match w with W8 => gpr s r - u8 (gpr s r) + u8 v | _ => wrap (nbits w) v end)
  | Mem a =>
      if writable (nbytes w) (ea s a) then Some (set_mem s (st (nbytes w) (mem s) (ea s a) v)) else None
  end.

Definition push (s : cpu) (v : Z) : option cpu :=
  let sp := u64 (gpr s RSP - 8) in
  if writable 8 sp then Some (set_mem (set_gpr s RSP sp) (st 8 (mem s) sp v)) else None.

Definition pop (s : cpu) : cpu * Z :=
  (set_gpr s RSP (u64 (gpr s RSP + 8)), ld 8 (mem s) (gpr s RSP)).

(** [rip s] is the address of the next instruction; [Syscall] and [Ud2] leave
    the program and are not handled here. *)
Definition exec (i : instr) (s : cpu) : option cpu :=
  match i with
  | Mov w dst src => put w s dst (get w s src)
  | MovImm w dst v => put w s dst v
  | Lea dst a => Some (set_gpr s dst (ea s a))
  | Push r => push s (gpr s r)
  | Pop r => let '(s1, v) := pop s in Some (set_gpr s1 r v)
  | Alu o w dst src =>
      let a := get w s dst in
      let b := get w s src in
      let s1 := set_rflags s (alu_flags o w a b (rflags s)) in
      if writes_back o then put w s1 dst (alu_res o w a b) else Some s1
  | AluImm o w dst v =>
      let a := get w s dst in
      let b := wrap (nbits w) v in
      let s1 := set_rflags s (alu_flags o w a b (rflags s)) in
      if writes_back o then put w s1 dst (alu_res o w a b) else Some s1
  | Imul dst src =>
      let a := u64 (gpr s dst) in
      let b := get W64 s src in
      Some (set_gpr (set_rflags s (imul_flags a b (rflags s))) dst (u64 (signed64 a * signed64 b)))
  | Inc dst =>
      let r := u64 (get W64 s dst + 1) in
      put W64 (set_rflags s (count_flags r (2 ^ 63) (rflags s))) dst r
  | Dec dst =>
      let r := u64 (get W64 s dst - 1) in
      put W64 (set_rflags s (count_flags r (2 ^ 63 - 1) (rflags s))) dst r
  | Call t => s1 ← push s (rip s); Some (set_rip s1 (get W64 s t))
  | Jmp t => Some (set_rip s (get W64 s t))
  | JmpRel d => Some (set_rip s (u64 (rip s + d)))
  | Jcc c d => Some (if holds (rflags s) c then set_rip s (u64 (rip s + d)) else s)
  | Ret => let '(s1, v) := pop s in Some (set_rip s1 v)
  | Sysret => Some (set_rflags (set_rip s (gpr s RCX)) (Z.lor (Z.land (gpr s R11) 0x3C7FD7) 2))
  | Swapgs => Some (swap_gs s)
  | Nop => Some s
  | Xorps d x => Some (set_xmm s d (Z.lxor (xmm s d) (xmm s x)))
  | MovqFromXmm r x => Some (set_gpr s r (xmm s x))
  | MovqToXmm x r => Some (set_xmm s x (gpr s r))
  | Syscall | Ud2 => None
  end.

(** Straight-line code. *)
Fixpoint exec_list (l : list instr) (s : cpu) : option cpu :=
  match l with
  | [] => Some s
  | i :: l' => s1 ← exec i s; exec_list l' s1
  end.
End exec.

(** ** Decoding *)

(** The register extension prefix: operand size, and the high bits of the
    register, index and base fields. *)
Record rex := mkRex { rex_set : bool; rex_w : bool; rex_r : Z; rex_x : Z; rex_b : Z }.

Definition no_rex : rex := mkRex false false 0 0 0.
Definition rex_of (b : Z) : rex :=
  let bit i := if Z.testbit b i then 8 else 0 in mkRex true (Z.testbit b 3) (bit 2) (bit 1) (bit 0).

Definition size_of (x : rex) : width := if rex_w x then W64 else W32.

Definition sext8 (b : Z) : Z := if b <? 128 then b else b - 256.
Definition sext32 (v : Z) : Z := if v <? 2 ^ 31 then v else v - 2 ^ 32.

Definition reg_addr (r : reg) (d : Z) : operand := Mem (mkAddr false (Some r) None d).

(** Scale, index and base; only scale one is used. *)
Definition decode_sib (x : rex) (sib d : Z) : option operand :=
  let i := sib / 8 mod 8 + rex_x x in
  let b := reg_of (sib mod 8 + rex_b x) in
  if negb (sib / 64 =? 0) then None
  else Some (Mem (mkAddr false (Some b) (if i =? 4 then None else Some (reg_of i)) d)).

(** The register field, the other operand, the number of bytes read and the
    bytes after them. *)
Definition decode_modrm (x : rex) (bs : bytes) : option (Z * operand * Z * bytes) :=
  match bs with
  | [] => None
  | m :: t =>
      let md := m / 64 in
      let f := m / 8 mod 8 + rex_r x in
      let rm := m mod 8 in
      if md =? 3 then Some (f, Reg (reg_of (rm + rex_b x)), 1, t)
      else if md =? 0 then
        if rm =? 5 then None
        else if rm =? 4 then
          match t with
          | sib :: t' =>
              if sib mod 8 =? 5 then None else o ← decode_sib x sib 0; Some (f, o, 2, t')
          | [] => None
          end
        else Some (f, reg_addr (reg_of (rm + rex_b x)) 0, 1, t)
      else if md =? 1 then
        if rm =? 4 then
          match t with
          | sib :: d :: t' => o ← decode_sib x sib (sext8 d); Some (f, o, 3, t')
          | _ => None
          end
        else
          match t with
          | d :: t' => Some (f, reg_addr (reg_of (rm + rex_b x)) (sext8 d), 2, t')
          | [] => None
          end
      else None
  end.

(** Operations of the form [op r/m, r]; the fourth byte register and those
    after it need the prefix. *)
Definition byte_regs_ok (x : rex) (f : Z) (o : operand) : bool :=
  rex_set x || ((f <? 4) && match o with Reg r => reg_ix r <? 4 | Mem _ => true end).

Definition imm32 (bs : bytes) : option (Z * bytes) :=
  match bs with a :: b :: c :: d :: t => Some (le_val [a; b; c; d], t) | _ => None end.

Definition imm64 (bs : bytes) : option (Z * bytes) :=
  match bs with
  | a :: b :: c :: d :: e :: f :: g :: h :: t => Some (le_val [a; b; c; d; e; f; g; h], t)
  | _ => None
  end.

Definition alu_of (op : Z) : option alu :=
  match op with
  | 0x01 => Some Add | 0x29 => Some Sub | 0x31 => Some Xor | 0x39 => Some Cmp | 0x85 => Some Test
  | _ => None
  end.

Definition cond_of (op : Z) : option cond :=
  match op with
  | 0x72 => Some CB | 0x73 => Some CAE | 0x74 => Some CE | 0x75 => Some CNE | 0x7D => Some CGE
  | _ => None
  end.

(** Two-byte opcodes, after the 0x0F. *)
Definition decode_0f (x : rex) (bs : bytes) : option (instr * Z) :=
  match bs with
  | 0x05 :: _ => Some (Syscall, 2)
  | 0x0B :: _ => Some (Ud2, 2)
  | 0x57 :: t =>
      r ← decode_modrm x t;
      match r with (f, Reg s, n, _) => Some (Xorps f (reg_ix s), 2 + n) | _ => None end
  | 0xAF :: t =>
      r ← decode_modrm x t;
      let '(f, o, n, _) := r in if rex_w x then Some (Imul (reg_of f) o, 2 + n) else None
  | _ => None
  end.

Definition decode_modrm_op (x : rex) (op : Z) (t : bytes) : option (instr * Z) :=
  r ← decode_modrm x t;
  let '(f, o, n, t') := r in
  let w := size_of x in
  match op with
  | 0x89 => Some (Mov w o (Reg (reg_of f)), 1 + n)
  | 0x8B => Some (Mov w (Reg (reg_of f)) o, 1 + n)
  | 0x88 => if byte_regs_ok x f o then Some (Mov W8 o (Reg (reg_of f)), 1 + n) else None
  | 0x8A => if byte_regs_ok x f o then Some (Mov W8 (Reg (reg_of f)) o, 1 + n) else None
  | 0x8D =>
      match o with Mem a => if rex_w x then Some (Lea (reg_of f) a, 1 + n) else None | Reg _ => None end
  | 0x83 =>
      match t' with
      | b :: _ => if f =? 7 + rex_r x then Some (AluImm Cmp w o (sext8 b), 2 + n) else None
      | [] => None
      end
  | 0xC7 =>
      v ← imm32 t'; if f =? rex_r x then Some (MovImm w o (sext32 v.1), 5 + n) else None
  | 0xFF =>
      if f =? rex_r x then if rex_w x then Some (Inc o, 1 + n) else None
      else if f =? 1 + rex_r x then if rex_w x then Some (Dec o, 1 + n) else None
      else if f =? 2 + rex_r x then Some (Call o, 1 + n)
      else if f =? 4 + rex_r x then Some (Jmp o, 1 + n)
      else None
  | _ => a ← alu_of op; Some (Alu a w o (Reg (reg_of f)), 1 + n)
  end.

Definition decode_op (x : rex) (bs : bytes) : option (instr * Z) :=
  match bs with
  | [] => None
  | op :: t =>
      if op =? 0x0F then decode_0f x t
      else if (0x50 <=? op) && (op <? 0x58) then Some (Push (reg_of (op - 0x50 + rex_b x)), 1)
      else if (0x58 <=? op) && (op <? 0x60) then Some (Pop (reg_of (op - 0x58 + rex_b x)), 1)
      else if (0xB8 <=? op) && (op <? 0xC0) then
        let r := Reg (reg_of (op - 0xB8 + rex_b x)) in
        if rex_w x then v ← imm64 t; Some (MovImm W64 r v.1, 9)
        else v ← imm32 t; Some (MovImm W32 r v.1, 5)
      else if op =? 0xC3 then Some (Ret, 1)
      else if (op =? 0x90) && negb (rex_set x) then Some (Nop, 1)
      else
        match cond_of op, t with
        | Some c, d :: _ => Some (Jcc c (sext8 d), 2)
        | Some _, [] => None
        | None, d :: _ => if op =? 0xEB then Some (JmpRel (sext8 d), 2) else decode_modrm_op x op t
        | None, [] => None
        end
  end.

(** [movq] between general and vector registers. *)
Definition decode_66 (bs : bytes) : option (instr * Z) :=
  match bs with
  | b :: 0x0F :: op :: t =>
      let x := rex_of b in
      r ← decode_modrm x t;
      match r with
      | (f, Reg g, n, _) =>
          if negb (b / 16 =? 4) || negb (rex_w x) then None
          else if op =? 0x7E then Some (MovqFromXmm g f, 4 + n)
          else if op =? 0x6E then Some (MovqToXmm f g, 4 + n) else None
      | _ => None
      end
  | _ => None
  end.

(** The instruction at the front of the bytes and its length. *)
Definition decode (bs : bytes) : option (instr * Z) :=
  match bs with
  | [] => None
  | b :: t =>
      if b =? 0x66 then decode_66 t
      else if b / 16 =? 4 then r ← decode_op (rex_of b) t; Some (r.1, 1 + r.2)
      else decode_op no_rex bs
  end.

(** ** Runs *)

Section run.
(** Read-only code [text] at [text_va]; what the kernel does at a system call
    and the code of the process outside [text] are parameters. *)
Context (text_va : Z) (text : bytes) (sys user : cpu → option cpu).

Definition in_text (a : Z) : bool := (text_va <=? a) && (a <? text_va + Z.of_nat (length text)).

Definition fetch (a : Z) : option (instr * Z) := decode (drop (Z.to_nat (a - text_va)) text).

Definition step (s : cpu) : option cpu :=
  if in_text (rip s) then
    match fetch (rip s) with
    | Some (Syscall, n) => sys (set_rip s (u64 (rip s + n)))
    | Some (i, n) => exec in_text i (set_rip s (u64 (rip s + n)))
    | None => None
    end
  else user s.

Fixpoint steps (n : nat) (s : cpu) : option cpu :=
  match n with O => Some s | S n' => s1 ← step s; steps n' s1 end.

Definition reach (s s' : cpu) : Prop := ∃ n, steps n s = Some s'.

Lemma reach_refl s : reach s s.
Proof. by exists 0%nat. Qed.

Lemma reach_step s s1 s' : step s = Some s1 → reach s1 s' → reach s s'.
Proof. intros H [n Hn]. exists (S n). cbn. by rewrite H. Qed.

Lemma reach_trans s s1 s' : reach s s1 → reach s1 s' → reach s s'.
Proof.
  intros [n Hn]. revert s Hn. induction n as [|n IH]; cbn; intros s Hn H1.
  - by injection Hn as ->.
  - destruct (step s) as [t|] eqn:E; [|done]. apply (reach_step _ _ _ E). by apply (IH t).
Qed.
End run.

(** ** Registers, flags and memory *)

#[global] Arguments upd _ _ _ _ /.

(** Brings a state into the form of its fields. *)
Ltac norm :=
  cbv beta delta [set_rip set_gpr set_xmm set_rflags set_mem swap_gs];
  cbn [rip gpr xmm rflags gs_base kernel_gs_base mem upd reg_ix Z.eqb Pos.eqb mbind option_bind].

Lemma reg_ix_inj a b : reg_ix a = reg_ix b → a = b.
Proof. by destruct a, b. Qed.

Lemma upd_same g r v : upd g r v r = v.
Proof. unfold upd. by rewrite Z.eqb_refl. Qed.

Lemma upd_other g r v x : x ≠ r → upd g r v x = g x.
Proof. intros H. unfold upd. destruct (Z.eqb_spec (reg_ix x) (reg_ix r)) as [E|]; [|done]. by apply reg_ix_inj in E. Qed.

Lemma put_bit_same f i b : 0 ≤ i → Z.testbit (put_bit f i b) i = b.
Proof. intros Hi. destruct b; cbn; [by apply Z.setbit_eq|apply Z.clearbit_eq]. Qed.

Lemma put_bit_other f i j b : 0 ≤ i → i ≠ j → Z.testbit (put_bit f i b) j = Z.testbit f j.
Proof. intros Hi Hj. destruct b; cbn; [by apply Z.setbit_neq|by apply Z.clearbit_neq]. Qed.

Lemma holds_put f c z s o k :
  holds (put_flags f c z s o) k =
  match k with CB => c | CAE => negb c | CE => z | CNE => negb z | CGE => Bool.eqb s o end.
Proof.
  unfold put_flags. destruct k; cbn [holds];
    repeat first [rewrite put_bit_same by lia | rewrite put_bit_other by lia]; done.
Qed.

Lemma put_bit_range f i b : 0 ≤ i < 64 → 0 ≤ f < 2 ^ 64 → 0 ≤ put_bit f i b < 2 ^ 64.
Proof.
  intros Hi Hf. assert (0 ≤ put_bit f i b) as H0.
  { destruct b; cbn; [apply Z.lor_nonneg; split; [lia|]; by apply Z.shiftl_nonneg|]. apply Z.ldiff_nonneg. lia. }
  split; [done|]. apply Z.bounded_iff_bits_nonneg; [lia|done|]. intros j Hj.
  rewrite put_bit_other by lia. apply (proj1 (Z.bounded_iff_bits_nonneg 64 f ltac:(lia) ltac:(lia))); lia.
Qed.

Lemma put_flags_range f c z s o : 0 ≤ f < 2 ^ 64 → 0 ≤ put_flags f c z s o < 2 ^ 64.
Proof. intros H. unfold put_flags. by repeat (apply put_bit_range; [lia|]). Qed.

Lemma alu_flags_range o w a b f : 0 ≤ f < 2 ^ 64 → 0 ≤ alu_flags o w a b f < 2 ^ 64.
Proof. intros H. destruct o; by apply put_flags_range. Qed.

Lemma imul_flags_range a b f : 0 ≤ f < 2 ^ 64 → 0 ≤ imul_flags a b f < 2 ^ 64.
Proof. intros H. unfold imul_flags. by repeat (apply put_bit_range; [lia|]). Qed.

Lemma count_flags_range r v f : 0 ≤ f < 2 ^ 64 → 0 ≤ count_flags r v f < 2 ^ 64.
Proof. intros H. unfold count_flags. by repeat (apply put_bit_range; [lia|]). Qed.

Lemma u64_range z : 0 ≤ u64 z < 2 ^ 64.
Proof. apply (is_u_wrap 64); lia. Qed.

Lemma u64_small z : 0 ≤ z < 2 ^ 64 → u64 z = z.
Proof. apply (wrap_small 64). Qed.

Lemma u64_add_l a b : u64 (u64 a + b) = u64 (a + b).
Proof. unfold u64, wrap. by rewrite Zplus_mod_idemp_l. Qed.

Lemma u64_add_r a b : u64 (a + u64 b) = u64 (a + b).
Proof. unfold u64, wrap. by rewrite Zplus_mod_idemp_r. Qed.

Lemma u64_sub_l a b : u64 (u64 a - b) = u64 (a - b).
Proof. unfold u64, wrap. by rewrite Zminus_mod_idemp_l. Qed.

Lemma ld_ext n m m' a :
  (∀ i, (i < n)%nat → m (u64 (a + Z.of_nat i)) = m' (u64 (a + Z.of_nat i))) → ld n m a = ld n m' a.
Proof.
  intros H. unfold ld. f_equal. apply map_ext_in. intros i Hi. apply in_seq in Hi. apply H. lia.
Qed.

Lemma st_byte v i : 0 ≤ i → u8 (Z.shiftr v (8 * i)) = v / 2 ^ (8 * i) mod 256.
Proof. intros Hi. rewrite Z.shiftr_div_pow2 by lia. done. Qed.

Lemma le_val_seq v k n :
  le_val (map (λ i, v / 2 ^ (8 * Z.of_nat i) mod 256) (seq k n)) =
  v / 2 ^ (8 * Z.of_nat k) mod 2 ^ (8 * Z.of_nat n).
Proof.
  revert k. induction n as [|n IH]; intros k; cbn [seq map le_val]; [by rewrite Z.mod_1_r|].
  rewrite IH. replace (8 * Z.of_nat (S k)) with (8 * Z.of_nat k + 8) by lia.
  replace (8 * Z.of_nat (S n)) with (8 + 8 * Z.of_nat n) by lia.
  rewrite !Z.pow_add_r by lia. rewrite <- Z.div_div by (try apply Z.pow_nonzero; lia).
  rewrite Z.rem_mul_r by lia. done.
Qed.

Lemma ld_st n m a v : Z.of_nat n < 2 ^ 64 → ld n (st n m a v) a = v mod 2 ^ (8 * Z.of_nat n).
Proof.
  intros Hn. pose proof (le_val_seq v 0 n) as H. rewrite Z.div_1_r in H. rewrite <- H. unfold ld. f_equal.
  apply map_ext_in. intros i Hi. apply in_seq in Hi. unfold st.
  rewrite u64_sub_l. replace (a + Z.of_nat i - a) with (Z.of_nat i) by lia.
  rewrite u64_small by lia. destruct (Z.ltb_spec (Z.of_nat i) (Z.of_nat n)); [|lia]. by apply st_byte; lia.
Qed.

(** The bytes [n'] from [a'] are apart from the bytes [n] from [a]. *)
Lemma ld_st_apart n n' m a a' v :
  (∀ i, (i < n)%nat → Z.of_nat n' ≤ u64 (a + Z.of_nat i - a')) → ld n (st n' m a' v) a = ld n m a.
Proof.
  intros H. apply ld_ext. intros i Hi. unfold st. rewrite u64_sub_l. specialize (H i Hi).
  destruct (Z.ltb_spec (u64 (a + Z.of_nat i - a')) (Z.of_nat n')); [lia|done].
Qed.

Lemma st_other n m a v x : Z.of_nat n ≤ u64 (x - a) → st n m a v x = m x.
Proof. intros H. unfold st. destruct (Z.ltb_spec (u64 (x - a)) (Z.of_nat n)); [lia|done]. Qed.

Lemma u64_neg z : - 2 ^ 64 ≤ z < 0 → u64 z = z + 2 ^ 64.
Proof. intros H. unfold u64, wrap. symmetry. apply Z.mod_unique with (q := -1); lia. Qed.

Lemma apart n n' a a' :
  0 ≤ a → a + Z.of_nat n ≤ 2 ^ 64 → 0 ≤ a' → a' + Z.of_nat n' ≤ 2 ^ 64 →
  a' + Z.of_nat n' ≤ a ∨ a + Z.of_nat n ≤ a' →
  ∀ i, (i < n)%nat → Z.of_nat n' ≤ u64 (a + Z.of_nat i - a').
Proof. intros ???? [H|H] i Hi; [rewrite u64_small by lia; lia|rewrite u64_neg by lia; lia]. Qed.

(** Reading memory that a store has not touched. *)
Lemma ld_st_sep n n' m a a' v :
  0 ≤ a → a + Z.of_nat n ≤ 2 ^ 64 → 0 ≤ a' → a' + Z.of_nat n' ≤ 2 ^ 64 →
  a' + Z.of_nat n' ≤ a ∨ a + Z.of_nat n ≤ a' → ld n (st n' m a' v) a = ld n m a.
Proof. intros. apply ld_st_apart. by apply apart. Qed.

Lemma st_sep n m a v x :
  0 ≤ x < 2 ^ 64 → 0 ≤ a → a + Z.of_nat n ≤ 2 ^ 64 → x < a ∨ a + Z.of_nat n ≤ x → st n m a v x = m x.
Proof.
  intros ??? [H|H]; apply st_other; [rewrite u64_neg by lia|rewrite u64_small by lia]; lia.
Qed.

(** A byte in the low part of a register. *)
Lemma low_byte r b : is_byte b → 0 ≤ r < 2 ^ 64 → u8 (r - u8 r + b) = b ∧ 0 ≤ r - u8 r + b < 2 ^ 64.
Proof.
  unfold is_byte. intros Hb Hr. unfold u8, wrap. pose proof (Z.div_mod r (2 ^ 8) ltac:(lia)) as E.
  replace (r - r mod 2 ^ 8 + b) with (b + r / 2 ^ 8 * 2 ^ 8) by lia. rewrite Z.mod_add by lia.
  split; [by apply Z.mod_small|]. assert (r / 2 ^ 8 < 2 ^ 56) by (apply Z.div_lt_upper_bound; lia).
  assert (0 ≤ r / 2 ^ 8) by (apply Z.div_pos; lia). lia.
Qed.

Lemma st1 m a v x : 0 ≤ a < 2 ^ 64 → 0 ≤ x < 2 ^ 64 → is_byte v → st 1 m a v x = if x =? a then v else m x.
Proof.
  intros Ha Hx Hv. destruct (Z.eqb_spec x a) as [->|Hne]; [|apply st_sep; lia].
  unfold st. rewrite Z.sub_diag. change (u64 0 <? Z.of_nat 1) with true. cbn -[u8].
  unfold u8. rewrite Z.shiftr_0_r. by apply (wrap_small 8).
Qed.

Lemma st_bytes n m a v x : is_byte (m x) → is_byte (st n m a v x).
Proof.
  intros H. unfold st. case_if; [|done]. apply (is_u_wrap 8). lia.
Qed.

Lemma ld_st8 m a v : 0 ≤ v < 2 ^ 64 → ld 8 (st 8 m a v) a = v.
Proof. intros H. rewrite ld_st by lia. by rewrite Z.mod_small. Qed.

Lemma writable_sep ro n a lo hi :
  (∀ x, ro x = true → lo ≤ x < hi) → 0 ≤ a → a + Z.of_nat n ≤ 2 ^ 64 → a + Z.of_nat n ≤ lo ∨ hi ≤ a →
  writable ro n a = true.
Proof.
  intros Hro ?? H. unfold writable. apply forallb_forall. intros i Hi. apply in_seq in Hi.
  rewrite u64_small by lia. destruct (ro (a + Z.of_nat i)) eqn:E; [|done]. apply Hro in E. lia.
Qed.

Lemma exec_list_app ro l l' s : exec_list ro (l ++ l') s = exec_list ro l s ≫= exec_list ro l'.
Proof. revert s. induction l as [|i l IH]; intros s; cbn; [done|].
  destruct (exec ro i s) as [t|]; cbn; [apply IH|done].
Qed.

(** Moves between registers and memory, jumps and returns. *)
Section moves.
Context (ro : Z → bool) (lo hi : Z) (Hro : ∀ a, ro a = true → lo ≤ a < hi).

Lemma exec_store_reg b d r s a :
  u64 (gpr s b + d) = a → a + 8 ≤ 2 ^ 64 → a + 8 ≤ lo ∨ hi ≤ a → 0 ≤ gpr s r < 2 ^ 64 →
  exec ro (Mov W64 (Mem (mkAddr false (Some b) None d)) (Reg r)) s =
    Some (mkCpu (rip s) (gpr s) (xmm s) (rflags s) (gs_base s) (kernel_gs_base s) (st 8 (mem s) a (gpr s r))).
Proof.
  intros Ha ???. pose proof (u64_range (gpr s b + d)). cbn -[writable]. unfold ea. cbn -[writable].
  replace (0 + gpr s b + 0 + d) with (gpr s b + d) by lia. rewrite Ha.
  rewrite (writable_sep ro 8 a lo hi Hro) by lia. by rewrite (wrap_small 64).
Qed.

Lemma exec_load_reg b d r s a :
  u64 (gpr s b + d) = a → 0 ≤ ld 8 (mem s) a < 2 ^ 64 →
  exec ro (Mov W64 (Reg r) (Mem (mkAddr false (Some b) None d))) s =
    Some (mkCpu (rip s) (upd (gpr s) r (ld 8 (mem s) a)) (xmm s) (rflags s) (gs_base s) (kernel_gs_base s) (mem s)).
Proof.
  intros Ha ?. cbn -[ld]. unfold ea. cbn -[ld].
  replace (0 + gpr s b + 0 + d) with (gpr s b + d) by lia. rewrite Ha. by rewrite (wrap_small 64).
Qed.

Lemma exec_mov_reg a b s :
  0 ≤ gpr s b < 2 ^ 64 →
  exec ro (Mov W64 (Reg a) (Reg b)) s =
    Some (mkCpu (rip s) (upd (gpr s) a (gpr s b)) (xmm s) (rflags s) (gs_base s) (kernel_gs_base s) (mem s)).
Proof. intros H. apply (wrap_small 64) in H. cbn. by rewrite !H. Qed.

Lemma exec_xor_self r s :
  exec ro (Alu Xor W64 (Reg r) (Reg r)) s =
    Some (mkCpu (rip s) (upd (gpr s) r 0) (xmm s) (put_flags (rflags s) false true false false) (gs_base s)
            (kernel_gs_base s) (mem s)).
Proof.
  cbn [exec writes_back get put alu_flags]. unfold alu_res. rewrite Z.lxor_nilpotent. reflexivity.
Qed.

Lemma exec_test r s :
  0 ≤ gpr s r < 2 ^ 64 →
  exec ro (Alu Test W64 (Reg r) (Reg r)) s =
    Some (mkCpu (rip s) (gpr s) (xmm s)
            (put_flags (rflags s) false (gpr s r =? 0) (msb W64 (gpr s r)) false) (gs_base s)
            (kernel_gs_base s) (mem s)).
Proof.
  intros H. apply (wrap_small 64) in H. cbn [exec writes_back get alu_flags]. unfold alu_res. cbn [nbits].
  by rewrite H, Z.land_diag, H.
Qed.

Lemma exec_jcc c d s :
  exec ro (Jcc c d) s =
    Some (mkCpu (if holds (rflags s) c then u64 (rip s + d) else rip s) (gpr s) (xmm s) (rflags s) (gs_base s)
            (kernel_gs_base s) (mem s)).
Proof. cbn. by destruct (holds _ _), s. Qed.

Lemma exec_push_reg r s sp :
  0 ≤ sp → sp + 8 < 2 ^ 64 → sp + 8 ≤ lo ∨ hi ≤ sp → gpr s RSP = sp + 8 →
  exec ro (Push r) s =
    Some (mkCpu (rip s) (upd (gpr s) RSP sp) (xmm s) (rflags s) (gs_base s) (kernel_gs_base s)
            (st 8 (mem s) sp (gpr s r))).
Proof.
  intros ??? Hs. cbn -[writable]. unfold push. rewrite Hs, Z.add_simpl_r, u64_small by lia.
  by rewrite (writable_sep ro 8 _ lo hi Hro) by lia.
Qed.

Lemma exec_pop_reg r s sp :
  0 ≤ sp < 2 ^ 64 - 8 → gpr s RSP = sp →
  exec ro (Pop r) s =
    Some (mkCpu (rip s) (upd (upd (gpr s) RSP (sp + 8)) r (ld 8 (mem s) sp)) (xmm s) (rflags s) (gs_base s)
            (kernel_gs_base s) (mem s)).
Proof. intros ? H. cbn -[ld]. by rewrite H, u64_small by lia. Qed.

(** Arithmetic on registers; the flags matter after comparisons only. *)
Lemma exec_cmp w a b s :
  exec ro (Alu Cmp w (Reg a) (Reg b)) s =
    Some (mkCpu (rip s) (gpr s) (xmm s)
            (alu_flags Cmp w (wrap (nbits w) (gpr s a)) (wrap (nbits w) (gpr s b)) (rflags s))
            (gs_base s) (kernel_gs_base s) (mem s)).
Proof. reflexivity. Qed.

Lemma holds_cmp w x y f : holds (alu_flags Cmp w x y f) CB = (x <? y).
Proof. cbn [alu_flags]. by rewrite holds_put. Qed.

Lemma exec_add a b s :
  (∀ r, 0 ≤ gpr s r < 2 ^ 64) →
  exec ro (Alu Add W64 (Reg a) (Reg b)) s =
    Some (mkCpu (rip s) (upd (gpr s) a (u64 (gpr s a + gpr s b))) (xmm s)
            (alu_flags Add W64 (gpr s a) (gpr s b) (rflags s)) (gs_base s) (kernel_gs_base s) (mem s)).
Proof.
  intros H. cbn [exec writes_back get put]. unfold alu_res at 1. cbn [nbits].
  rewrite !(wrap_small 64 (gpr s _)) by apply H. fold (u64 (gpr s a + gpr s b)).
  by rewrite (wrap_small 64) by apply u64_range.
Qed.

Lemma exec_sub a b s :
  (∀ r, 0 ≤ gpr s r < 2 ^ 64) →
  exec ro (Alu Sub W64 (Reg a) (Reg b)) s =
    Some (mkCpu (rip s) (upd (gpr s) a (u64 (gpr s a - gpr s b))) (xmm s)
            (alu_flags Sub W64 (gpr s a) (gpr s b) (rflags s)) (gs_base s) (kernel_gs_base s) (mem s)).
Proof.
  intros H. cbn [exec writes_back get put]. unfold alu_res at 1. cbn [nbits].
  rewrite !(wrap_small 64 (gpr s _)) by apply H. fold (u64 (gpr s a - gpr s b)).
  by rewrite (wrap_small 64) by apply u64_range.
Qed.

Lemma imul_u64 a b : u64 (signed64 a * signed64 b) = u64 (a * b).
Proof.
  unfold u64, wrap, signed64. destruct (a <? 2 ^ 63), (b <? 2 ^ 63); [done| | |];
    [replace (a * (b - 2 ^ 64)) with (a * b + (- a) * 2 ^ 64) by lia
    |replace ((a - 2 ^ 64) * b) with (a * b + (- b) * 2 ^ 64) by lia
    |replace ((a - 2 ^ 64) * (b - 2 ^ 64)) with (a * b + (2 ^ 64 - a - b) * 2 ^ 64) by lia];
    by rewrite Z.mod_add by lia.
Qed.

Lemma exec_imul a b s :
  (∀ r, 0 ≤ gpr s r < 2 ^ 64) →
  exec ro (Imul a (Reg b)) s =
    Some (mkCpu (rip s) (upd (gpr s) a (u64 (gpr s a * gpr s b))) (xmm s)
            (imul_flags (gpr s a) (gpr s b) (rflags s)) (gs_base s) (kernel_gs_base s) (mem s)).
Proof.
  intros H. cbn [exec get]. cbn [nbits]. unfold u64 at 1 2.
  rewrite !(wrap_small 64 (gpr s _)) by apply H. by rewrite imul_u64.
Qed.

Lemma exec_inc a s :
  0 ≤ gpr s a → gpr s a + 1 < 2 ^ 64 →
  exec ro (Inc (Reg a)) s =
    Some (mkCpu (rip s) (upd (gpr s) a (gpr s a + 1)) (xmm s) (count_flags (gpr s a + 1) (2 ^ 63) (rflags s))
            (gs_base s) (kernel_gs_base s) (mem s)).
Proof.
  intros ??. cbn [exec get put nbits].
  rewrite (wrap_small 64 (gpr s a)) by (unfold is_u; lia). rewrite u64_small by lia.
  by rewrite (wrap_small 64) by (unfold is_u; lia).
Qed.

Lemma exec_dec a s :
  0 < gpr s a < 2 ^ 64 →
  exec ro (Dec (Reg a)) s =
    Some (mkCpu (rip s) (upd (gpr s) a (gpr s a - 1)) (xmm s)
            (count_flags (gpr s a - 1) (2 ^ 63 - 1) (rflags s)) (gs_base s) (kernel_gs_base s) (mem s)).
Proof.
  intros ?. cbn [exec get put nbits].
  rewrite (wrap_small 64 (gpr s a)) by (unfold is_u; lia). rewrite u64_small by lia.
  by rewrite (wrap_small 64) by (unfold is_u; lia).
Qed.

(** A byte from memory into a register and back. *)
Lemma exec_load_byte b i r s a :
  gpr s b + gpr s i = a → 0 ≤ a < 2 ^ 64 → is_byte (mem s a) →
  exec ro (Mov W8 (Reg r) (Mem (mkAddr false (Some b) (Some i) 0))) s =
    Some (mkCpu (rip s) (upd (gpr s) r (gpr s r - u8 (gpr s r) + mem s a)) (xmm s) (rflags s) (gs_base s)
            (kernel_gs_base s) (mem s)).
Proof.
  intros Ha Hr Hb. cbn [exec get put nbytes]. unfold ea. cbn [seg_gs base index disp].
  rewrite Z.add_0_l, Z.add_0_r, Ha, (u64_small a) by lia. unfold ld. cbn [map seq].
  rewrite Z.add_0_r, (u64_small a) by lia. cbn [le_val]. rewrite Z.mul_0_r, Z.add_0_r.
  unfold u8 at 2. by rewrite (wrap_small 8 (mem s a)) by exact Hb.
Qed.

Lemma exec_store_byte b i r s a :
  gpr s b + gpr s i = a → 0 ≤ a < 2 ^ 64 - 1 → a + 1 ≤ lo ∨ hi ≤ a →
  exec ro (Mov W8 (Mem (mkAddr false (Some b) (Some i) 0)) (Reg r)) s =
    Some (mkCpu (rip s) (gpr s) (xmm s) (rflags s) (gs_base s) (kernel_gs_base s)
            (st 1 (mem s) a (u8 (gpr s r)))).
Proof.
  intros Ha Hr Hs. cbn [exec get put nbytes nbits]. unfold ea. cbn [seg_gs base index disp].
  rewrite Z.add_0_l, Z.add_0_r, Ha, (u64_small a) by lia.
  by rewrite (writable_sep ro 1 _ lo hi Hro) by lia.
Qed.

Lemma exec_call_reg r s sp :
  0 ≤ sp → sp + 8 < 2 ^ 64 → sp + 8 ≤ lo ∨ hi ≤ sp → gpr s RSP = sp + 8 → 0 ≤ gpr s r < 2 ^ 64 →
  exec ro (Call (Reg r)) s =
    Some (mkCpu (gpr s r) (upd (gpr s) RSP sp) (xmm s) (rflags s) (gs_base s) (kernel_gs_base s)
            (st 8 (mem s) sp (rip s))).
Proof.
  intros ??? Hs Hr. cbn -[writable push]. unfold push. rewrite Hs, Z.add_simpl_r, (u64_small sp) by lia.
  rewrite (writable_sep ro 8 _ lo hi Hro) by lia. cbn. by rewrite (wrap_small 64) by exact Hr.
Qed.

(** The sign of the low half decides. *)
Lemma exec_test32 r s : ∃ z,
  exec ro (Alu Test W32 (Reg r) (Reg r)) s =
    Some (mkCpu (rip s) (gpr s) (xmm s) (put_flags (rflags s) false z (Z.testbit (gpr s r) 31) false)
            (gs_base s) (kernel_gs_base s) (mem s)).
Proof.
  eexists. cbn [exec writes_back get alu_flags]. unfold alu_res, msb. cbn [nbits].
  rewrite Z.land_diag. change (32 - 1) with 31.
  assert (∀ v, Z.testbit (wrap 32 v) 31 = Z.testbit v 31) as H by (intros v; by apply Z.mod_pow2_bits_low).
  by rewrite !H.
Qed.
End moves.
End X86Machine.
