(* ===== verification/SyscallEntry.v ===== *)
(** * The system-call entry ([arch/x86_64/syscall.rs], [syscall/dispatch.rs])

    The [syscall] instruction leads to the assembly routine [syscall_entry]: it
    saves the registers of the user in the scratch area of the processor,
    changes to the kernel stack of the thread, calls [dispatch_fast] and
    returns by [sysretq].  [dispatch_fast] answers the calls of the
    mathematical functions itself; the handlers behind it are a parameter.  Some
    of their calls never return to the routine: [exit], and those that block and
    enter another thread.  That the others keep the calling convention of the
    architecture is the interface [Dispatcher]. *)

From Stdlib Require Import ZArith Lia Sorting.Sorted.
From stdpp Require Import base numbers strings option relations list.
From S2P Require Import Prelude X86Machine.

Local Open Scope Z_scope.

(** The crate of mathematical functions, on the bit patterns of arguments and
    result. *)
Class Libm := libm : string → list Z → Z.

Module SyscallEntry.
Import X86Machine.

(** ** [dispatch_fast] *)

Definition LIBM_NR_LO : Z := 0x4C0.
Definition LIBM_NR_HI : Z := 0x4F1.

(** The arguments of an arm of [libm_call]: doubles or floats. *)
Inductive libm_args := D1 | D2 | D3 | F1 | F2.

Definition LIBM_ARMS : list (Z * (string * libm_args)) :=
  [(0x4C0, ("sin", D1)); (0x4C1, ("sinf", F1)); (0x4C2, ("cos", D1)); (0x4C3, ("cosf", F1));
   (0x4C4, ("tan", D1)); (0x4C5, ("tanf", F1)); (0x4C6, ("asin", D1)); (0x4C7, ("asinf", F1));
   (0x4C8, ("acos", D1)); (0x4C9, ("acosf", F1)); (0x4CA, ("atan", D1)); (0x4CB, ("atan2", D2));
   (0x4CC, ("atan2f", F2)); (0x4CD, ("sinh", D1)); (0x4CE, ("cosh", D1)); (0x4CF, ("tanh", D1));
   (0x4D0, ("tanhf", F1)); (0x4D1, ("exp", D1)); (0x4D2, ("expf", F1)); (0x4D3, ("exp2", D1));
   (0x4D4, ("exp2f", F1)); (0x4D5, ("log", D1)); (0x4D6, ("log2", D1)); (0x4D7, ("log2f", F1));
   (0x4D8, ("log10", D1)); (0x4D9, ("pow", D2)); (0x4DA, ("powf", F2)); (0x4DB, ("sqrt", D1));
   (0x4DC, ("sqrtf", F1)); (0x4DD, ("cbrt", D1)); (0x4DE, ("cbrtf", F1)); (0x4DF, ("fabs", D1));
   (0x4E0, ("floor", D1)); (0x4E1, ("floorf", F1)); (0x4E2, ("ceil", D1)); (0x4E3, ("ceilf", F1));
   (0x4E4, ("round", D1)); (0x4E5, ("roundf", F1)); (0x4E6, ("trunc", D1)); (0x4E7, ("truncf", F1));
   (0x4E8, ("fmod", D2)); (0x4E9, ("fmodf", F2)); (0x4EA, ("fma", D3)); (0x4EB, ("hypot", D2));
   (0x4EC, ("hypotf", F2)); (0x4ED, ("erff", F1)); (0x4EE, ("acosh", D1)); (0x4EF, ("asinh", D1));
   (0x4F0, ("atanh", D1)); (0x4F1, ("log10f", F1))].

(** Floats are the low halves of the argument registers. *)
Definition args_of (a : libm_args) (a0 a1 a2 : Z) : list Z :=
  match a with
  | D1 => [a0] | D2 => [a0; a1] | D3 => [a0; a1; a2] | F1 => [u32 a0] | F2 => [u32 a0; u32 a1]
  end.

Section libm.
Context {L : Libm}.

Definition libm_call (nr a0 a1 a2 : Z) : Z :=
  match find_first (λ e : Z * (string * libm_args), e.1 =? nr) LIBM_ARMS with
  | Some (_, (f, a)) => libm f (args_of a a0 a1 a2)
  | None => 0
  end.

(** The handlers behind the fast path.  [None]: the call does not return; the
    thread ends, or is entered again later from its saved context. *)
Context (handlers : Z → Z → Z → Z → Z → Z → (Z → Z) → option Z).

Definition dispatch_fast (number arg0 arg1 arg2 arg3 arg4 : Z) (m : Z → Z) : option Z :=
  if (LIBM_NR_LO <=? number) && (number <=? LIBM_NR_HI) then Some (libm_call number arg0 arg1 arg2)
  else handlers number arg0 arg1 arg2 arg3 arg4 m.
End libm.

(** ** The routine *)

Definition gs_at (d : Z) : operand := Mem (mkAddr true None None d).
Definition mov (dst src : operand) : instr := Mov W64 dst src.

(** Up to the call of [dispatch_fast]. *)
Definition entry_save : list instr :=
  [Swapgs; mov (gs_at 0) (Reg RSP); mov (gs_at 8) (Reg RCX); mov (gs_at 16) (Reg R9);
   mov (gs_at 32) (Reg RDI); mov (gs_at 40) (Reg RSI); mov (gs_at 48) (Reg RDX);
   mov (gs_at 56) (Reg R10); mov (gs_at 64) (Reg R8); mov (gs_at 72) (Reg RBX);
   mov (gs_at 80) (Reg RBP); mov (gs_at 88) (Reg R12); mov (gs_at 96) (Reg R13);
   mov (gs_at 104) (Reg R14); mov (gs_at 112) (Reg R15); mov (Reg RSP) (gs_at 24);
   Push RCX; Push R11; Push RDI; Push RSI; Push RDX; Push R10; Push R8; Push R9;
   mov (Reg R9) (Reg R8); mov (Reg R8) (Reg R10); mov (Reg RCX) (Reg RDX); mov (Reg RDX) (Reg RSI);
   mov (Reg RSI) (Reg RDI); mov (Reg RDI) (Reg RAX)].

(** After it. *)
Definition entry_restore : list instr :=
  [Pop R9; Pop R8; Pop R10; Pop RDX; Pop RSI; Pop RDI; Pop R11; Pop RCX; mov (Reg RSP) (gs_at 0);
   Swapgs; Sysret].

(** What the [syscall] instruction itself does, with the mask [init] sets. *)
Definition FMASK : Z := 0x200.
Definition syscall_hw (s : cpu) : cpu :=
  set_rflags (set_gpr (set_gpr s RCX (rip s)) R11 (rflags s)) (Z.ldiff (rflags s) FMASK).

Definition callee_saved (r : reg) : bool :=
  match r with RBX | RSP | RBP | R12 | R13 | R14 | R15 => true | _ => false end.

(** The call of [dispatch_fast].  When it returns, the result is in [rax], the
    registers a callee has to keep are kept, and the frame of its caller and the
    saved stack pointer of the processor are not written to. *)
Class Dispatcher (f : Z → Z → Z → Z → Z → Z → (Z → Z) → option Z) := {
  call_dispatch : cpu → option cpu;
  dispatch_result s :
    (λ t, gpr t RAX) <$> call_dispatch s =
    u64 <$> f (gpr s RDI) (gpr s RSI) (gpr s RDX) (gpr s RCX) (gpr s R8) (gpr s R9) (mem s);
  dispatch_saved s t r : call_dispatch s = Some t → callee_saved r = true → gpr t r = gpr s r;
  dispatch_gs s t : call_dispatch s = Some t → gs_base t = gs_base s ∧ kernel_gs_base t = kernel_gs_base s;
  dispatch_frame s t n a : call_dispatch s = Some t →
    (gpr s RSP ≤ a ∧ a + Z.of_nat n ≤ gpr s RSP + 64) ∨ (gs_base s ≤ a ∧ a + Z.of_nat n ≤ gs_base s + 8) →
    ld n (mem t) a = ld n (mem s) a
}.

Section entry.
Context (read_only : Z → bool) {f} {D : Dispatcher f}.

Definition syscall_entry (s : cpu) : option cpu :=
  s1 ← exec_list read_only entry_save s;
  s2 ← call_dispatch s1;
  exec_list read_only entry_restore s2.
End entry.

(** ** What it does *)

(** The scratch area and the kernel stack of a processor in user mode: they are
    in the upper half, apart from each other; user code and its stack are in
    the lower half. *)
Record entry_ok (s : cpu) : Prop := {
  eo_regs : ∀ r, 0 ≤ gpr s r < 2 ^ 64;
  eo_rip : 0 ≤ rip s < 2 ^ 64;
  eo_flags : 0 ≤ rflags s < 2 ^ 64;
  eo_scratch : 2 ^ 63 ≤ kernel_gs_base s ∧ kernel_gs_base s + 128 ≤ 2 ^ 64;
  eo_stack : 2 ^ 63 + 64 ≤ ld 8 (mem s) (kernel_gs_base s + 24) ≤ 2 ^ 64 - 1;
  eo_apart : ld 8 (mem s) (kernel_gs_base s + 24) ≤ kernel_gs_base s ∨
    kernel_gs_base s + 128 ≤ ld 8 (mem s) (kernel_gs_base s + 24) - 64
}.

(** User code does not touch it. *)
Lemma entry_ok_user s v g x f m :
  entry_ok s → (∀ r, 0 ≤ g r < 2 ^ 64) → 0 ≤ v < 2 ^ 64 → 0 ≤ f < 2 ^ 64 →
  (∀ a, 2 ^ 63 ≤ a < 2 ^ 64 → m a = mem s a) → entry_ok (mkCpu v g x f (gs_base s) (kernel_gs_base s) m).
Proof.
  intros [Hr Hp Hf Hsc Hst Hap] Hg Hv Hf' Hm.
  assert (ld 8 m (kernel_gs_base s + 24) = ld 8 (mem s) (kernel_gs_base s + 24)) as E.
  { apply ld_ext. intros i Hi. rewrite u64_small by lia. apply Hm. lia. }
  constructor; cbn [rip gpr rflags gs_base kernel_gs_base mem]; rewrite ?E; done.
Qed.

Section spec.
Context (read_only : Z → bool) (Hro : ∀ a, read_only a = true → 0 ≤ a < 2 ^ 63).

Lemma exec_gs_store d r s :
  0 ≤ d → 2 ^ 63 ≤ gs_base s → gs_base s + d + 8 ≤ 2 ^ 64 → 0 ≤ gpr s r < 2 ^ 64 →
  exec read_only (mov (gs_at d) (Reg r)) s =
    Some (set_mem s (st 8 (mem s) (gs_base s + d) (gpr s r))).
Proof.
  intros ????. cbn -[writable]. unfold ea. cbn -[writable].
  replace (gs_base s + 0 + 0 + d) with (gs_base s + d) by lia. rewrite (u64_small (gs_base s + d)) by lia.
  rewrite (writable_sep read_only 8 _ 0 (2 ^ 63) Hro) by lia. by rewrite (wrap_small 64).
Qed.

Lemma exec_gs_load d r s :
  0 ≤ d → 2 ^ 63 ≤ gs_base s → gs_base s + d + 8 ≤ 2 ^ 64 → 0 ≤ ld 8 (mem s) (gs_base s + d) < 2 ^ 64 →
  exec read_only (mov (Reg r) (gs_at d)) s =
    Some (mkCpu (rip s) (upd (gpr s) r (ld 8 (mem s) (gs_base s + d))) (xmm s) (rflags s) (gs_base s)
            (kernel_gs_base s) (mem s)).
Proof.
  intros ????. cbn -[ld]. unfold ea. cbn -[ld].
  replace (gs_base s + 0 + 0 + d) with (gs_base s + d) by lia.
  by rewrite (u64_small (gs_base s + d)), (wrap_small 64) by (unfold is_u; lia).
Qed.

Lemma exec_push r s sp :
  2 ^ 63 ≤ sp < 2 ^ 64 - 8 → gpr s RSP = sp + 8 →
  exec read_only (Push r) s =
    Some (mkCpu (rip s) (upd (gpr s) RSP sp) (xmm s) (rflags s) (gs_base s) (kernel_gs_base s)
            (st 8 (mem s) sp (gpr s r))).
Proof. intros H. by apply (exec_push_reg read_only 0 (2 ^ 63) Hro); lia. Qed.

(** Several words stored at offsets from [a]. *)
Definition store_words (m : Z → Z) (a : Z) (l : list (Z * Z)) : Z → Z :=
  foldl (λ m w, st 8 m (a + w.1) w.2) m l.

Lemma exec_gs_stores l s :
  2 ^ 63 ≤ gs_base s → gs_base s + 128 ≤ 2 ^ 64 → Forall (λ w, 0 ≤ w.1 ≤ 120 ∧ 0 ≤ gpr s w.2 < 2 ^ 64) l →
  exec_list read_only ((λ w, mov (gs_at w.1) (Reg w.2)) <$> l) s =
    Some (set_mem s (store_words (mem s) (gs_base s) ((λ w, (w.1, gpr s w.2)) <$> l))).
Proof.
  intros H1 H2 Hl. assert (∀ m, exec_list read_only ((λ w, mov (gs_at w.1) (Reg w.2)) <$> l) (set_mem s m) =
    Some (set_mem s (store_words m (gs_base s) ((λ w, (w.1, gpr s w.2)) <$> l)))) as H.
  { induction Hl as [|[d r] l [Hd Hr] Hl IH]; intros m; cbn -[exec]; [done|]. cbn [fst snd] in Hd, Hr.
    rewrite exec_gs_store by (cbn; first [done|lia]). apply IH. }
  rewrite <- H. by destruct s.
Qed.

(** Memory apart from the words that are stored. *)
Lemma store_words_apart n m a l b :
  0 ≤ a → 0 ≤ b → b + Z.of_nat n ≤ 2 ^ 64 → Forall (λ w, 0 ≤ w.1 ∧ a + w.1 + 8 ≤ 2 ^ 64) l →
  Forall (λ w, b + Z.of_nat n ≤ a + w.1 ∨ a + w.1 + 8 ≤ b) l →
  ld n (store_words m a l) b = ld n m b.
Proof.
  intros Ha Hb Hb' Hl Hs. revert m. induction Hl as [|w l Hw Hl IH]; intros m; [done|].
  apply Forall_cons in Hs as [Hs1 Hs]. cbn -[ld st]. fold (store_words (st 8 m (a + w.1) w.2) a l).
  rewrite IH by done. apply ld_st_sep; lia.
Qed.

Lemma store_words_sep m a l b :
  0 ≤ a → 0 ≤ b < 2 ^ 64 → Forall (λ w, 0 ≤ w.1 ∧ a + w.1 + 8 ≤ 2 ^ 64) l →
  Forall (λ w, b < a + w.1 ∨ a + w.1 + 8 ≤ b) l → store_words m a l b = m b.
Proof.
  intros Ha Hb Hl Hs. revert m. induction Hl as [|w l Hw Hl IH]; intros m; [done|].
  apply Forall_cons in Hs as [Hs1 Hs]. cbn -[st]. fold (store_words (st 8 m (a + w.1) w.2) a l).
  rewrite IH by done. apply st_sep; lia.
Qed.

Lemma store_words_byte m a l b :
  0 ≤ b < a → Forall (λ w, 0 ≤ w.1 ∧ a + w.1 + 8 ≤ 2 ^ 64) l → store_words m a l b = m b.
Proof.
  intros Hb Hl. destruct l as [|w l']; [done|]. assert (a ≤ 2 ^ 64) by (apply Forall_cons in Hl; lia).
  apply store_words_sep; [lia..|done|]. eapply Forall_impl; [exact Hl|]. cbn. intros ?. lia.
Qed.

Lemma store_words_bytes m a l : (∀ x, is_byte (m x)) → ∀ x, is_byte (store_words m a l x).
Proof.
  revert m. induction l as [|w l IH]; intros m Hm; [done|]. apply (IH (st 8 m (a + w.1) w.2)).
  intros x. by apply st_bytes.
Qed.

(** Words that do not overlap are all read back. *)
Lemma store_words_read m a l :
  0 ≤ a → Forall (λ w, (0 ≤ w.1 ∧ a + w.1 + 8 ≤ 2 ^ 64) ∧ 0 ≤ w.2 < 2 ^ 64) l →
  StronglySorted (λ v w : Z * Z, v.1 + 8 ≤ w.1 ∨ w.1 + 8 ≤ v.1) l →
  Forall (λ w, ld 8 (store_words m a l) (a + w.1) = w.2) l.
Proof.
  intros Ha Hl Hs. revert m. induction Hs as [|w l Hs IH Hlt]; intros m; [done|].
  apply Forall_cons in Hl as [Hw Hl]. constructor; [|by apply IH]. cbn -[ld st].
  fold (store_words (st 8 m (a + w.1) w.2) a l).
  rewrite store_words_apart; [rewrite ld_st8; [done|lia]|lia..| |].
  - eapply Forall_impl; [exact Hl|]. cbn. intros ?. lia.
  - eapply Forall_impl; [exact Hlt|]. cbn. intros v Hv. lia.
Qed.

(** The words the routine leaves in the scratch area and on the stack. *)
Definition scratch_words (s : cpu) : list (Z * Z) :=
  [(0, gpr s RSP); (8, rip s); (16, gpr s R9); (32, gpr s RDI); (40, gpr s RSI); (48, gpr s RDX);
   (56, gpr s R10); (64, gpr s R8); (72, gpr s RBX); (80, gpr s RBP); (88, gpr s R12);
   (96, gpr s R13); (104, gpr s R14); (112, gpr s R15)].

Definition frame_words (s : cpu) : list (Z * Z) :=
  [(0, gpr s R9); (8, gpr s R8); (16, gpr s R10); (24, gpr s RDX); (32, gpr s RSI); (40, gpr s RDI);
   (48, rflags s); (56, rip s)].

Definition words_at (m : Z → Z) (a : Z) (l : list (Z * Z)) : Prop :=
  Forall (λ w, ld 8 m (a + w.1) = w.2) l.

(** The state [dispatch_fast] is called in. *)
Record dispatching (s s1 : cpu) : Prop := {
  di_args : gpr s1 RDI = gpr s RAX ∧ gpr s1 RSI = gpr s RDI ∧ gpr s1 RDX = gpr s RSI ∧
    gpr s1 RCX = gpr s RDX ∧ gpr s1 R8 = gpr s R10 ∧ gpr s1 R9 = gpr s R8;
  di_saved r : callee_saved r = true → r ≠ RSP → gpr s1 r = gpr s r;
  di_stack : gpr s1 RSP = ld 8 (mem s) (kernel_gs_base s + 24) - 64;
  di_gs : gs_base s1 = kernel_gs_base s ∧ kernel_gs_base s1 = gs_base s;
  di_user a : 0 ≤ a < 2 ^ 63 → mem s1 a = mem s a;
  di_scratch : words_at (mem s1) (kernel_gs_base s) (scratch_words s);
  di_frame : words_at (mem s1) (gpr s1 RSP) (frame_words s)
}.

(** The general registers the routine has in the scratch area before it
    changes the stack. *)
Definition scratch_regs : list (Z * reg) :=
  [(0, RSP); (8, RCX); (16, R9); (32, RDI); (40, RSI); (48, RDX); (56, R10); (64, R8); (72, RBX);
   (80, RBP); (88, R12); (96, R13); (104, R14); (112, R15)].

Definition entry_switch : list instr :=
  [mov (Reg RSP) (gs_at 24); Push RCX; Push R11; Push RDI; Push RSI; Push RDX; Push R10; Push R8; Push R9;
   mov (Reg R9) (Reg R8); mov (Reg R8) (Reg R10); mov (Reg RCX) (Reg RDX); mov (Reg RDX) (Reg RSI);
   mov (Reg RSI) (Reg RDI); mov (Reg RDI) (Reg RAX)].

Lemma entry_switch_spec s T :
  (∀ r, 0 ≤ gpr s r < 2 ^ 64) → 2 ^ 63 ≤ gs_base s → gs_base s + 128 ≤ 2 ^ 64 →
  2 ^ 63 ≤ T < 2 ^ 64 - 64 → ld 8 (mem s) (gs_base s + 24) = T + 64 →
  ∃ g, exec_list read_only entry_switch s =
    Some (mkCpu (rip s) g (xmm s) (rflags s) (gs_base s) (kernel_gs_base s)
            (store_words (mem s) T
               [(56, gpr s RCX); (48, gpr s R11); (40, gpr s RDI); (32, gpr s RSI); (24, gpr s RDX);
                (16, gpr s R10); (8, gpr s R8); (0, gpr s R9)])) ∧
    g RDI = gpr s RAX ∧ g RSI = gpr s RDI ∧ g RDX = gpr s RSI ∧ g RCX = gpr s RDX ∧ g R8 = gpr s R10 ∧
    g R9 = gpr s R8 ∧ g RSP = T ∧ (∀ r, callee_saved r = true → r ≠ RSP → g r = gpr s r).
Proof.
  intros Hr ?? HT Hsp. unfold entry_switch. cbn [exec_list].
  rewrite exec_gs_load by lia. norm. rewrite Hsp.
  rewrite (exec_push RCX _ (T + 56)) by (norm; lia). norm.
  rewrite (exec_push R11 _ (T + 48)) by (norm; lia). norm.
  rewrite (exec_push RDI _ (T + 40)) by (norm; lia). norm.
  rewrite (exec_push RSI _ (T + 32)) by (norm; lia). norm.
  rewrite (exec_push RDX _ (T + 24)) by (norm; lia). norm.
  rewrite (exec_push R10 _ (T + 16)) by (norm; lia). norm.
  rewrite (exec_push R8 _ (T + 8)) by (norm; lia). norm.
  rewrite (exec_push R9 _ (T + 0)) by (norm; lia). norm.
  do 6 (rewrite exec_mov_reg by (norm; apply Hr); norm).
  eexists. split; [reflexivity|]. cbn [upd reg_ix Z.eqb Pos.eqb]. rewrite Z.add_0_r. split_and!; try done.
  intros r Hr1 Hr2. by destruct r.
Qed.

Ltac forall_lia :=
  repeat first [apply Forall_nil_2 | apply Forall_cons_2; [cbn [fst snd fmap list_fmap]; first [lia | split; [lia|auto]]|]].
Ltac sorted_lia := repeat first [apply SSorted_nil | apply SSorted_cons; [|forall_lia]].

Lemma entry_save_spec s :
  entry_ok s → ∃ s1, exec_list read_only entry_save (syscall_hw s) = Some s1 ∧ dispatching s s1.
Proof.
  intros [Hr Hrip Hf Hsc Hst Hap]. set (T := ld 8 (mem s) (kernel_gs_base s + 24)) in *.
  change entry_save with (Swapgs :: ((λ w, mov (gs_at w.1) (Reg w.2)) <$> scratch_regs) ++ entry_switch).
  cbn [exec_list]. change (exec read_only Swapgs ?x) with (Some (swap_gs x)). cbn [mbind option_bind].
  set (s0 := swap_gs (syscall_hw s)).
  assert (∀ r, 0 ≤ gpr s0 r < 2 ^ 64) as Hr0 by (intros r; unfold s0, syscall_hw; destruct r; norm; done || apply Hr).
  rewrite exec_list_app, exec_gs_stores; [|cbn; lia..|forall_lia].
  change (store_words _ _ _) with (store_words (mem s) (kernel_gs_base s) (scratch_words s)).
  set (m1 := store_words _ _ _). cbn [mbind option_bind].
  assert (∀ n b, 0 ≤ b → b + Z.of_nat n ≤ 2 ^ 64 →
    (b + Z.of_nat n ≤ kernel_gs_base s ∨ kernel_gs_base s + 128 ≤ b) → ld n m1 b = ld n (mem s) b) as Hm1.
  { intros n b ???. apply store_words_apart; [lia..| |]; forall_lia. }
  destruct (entry_switch_spec (set_mem s0 m1) (T - 64)) as (g & -> & Hg);
    [exact Hr0|change (gs_base (set_mem s0 m1)) with (kernel_gs_base s); lia..| |].
  { change (ld 8 m1 (kernel_gs_base s + 24) = T - 64 + 64). unfold m1.
    rewrite store_words_apart; [fold T; lia|lia..| |]; forall_lia. }
  eexists. split; [reflexivity|]. destruct Hg as (Ha0&Ha1&Ha2&Ha3&Ha4&Ha5&Hsp&Hcs).
  constructor; cbn [rip gpr xmm rflags gs_base kernel_gs_base mem];
    change (store_words _ (T - 64) _) with (store_words m1 (T - 64) (reverse (frame_words s))).
  - done.
  - intros r H1 H2. rewrite Hcs by done. by destruct r.
  - done.
  - done.
  - intros a Ha. rewrite store_words_byte; [apply store_words_byte; [lia|forall_lia]|lia|forall_lia].
  - assert (Forall (λ w, 0 ≤ w.1 ≤ 112) (scratch_words s)) as Hw by forall_lia.
    assert (words_at m1 (kernel_gs_base s) (scratch_words s)) as Hrd
      by (apply store_words_read; [lia|forall_lia|sorted_lia]).
    unfold words_at in *. rewrite Forall_forall in *. intros w Hin. specialize (Hw w Hin).
    rewrite store_words_apart; [by apply Hrd|lia..|forall_lia|forall_lia].
  - rewrite Hsp. apply Forall_reverse, store_words_read; [lia|forall_lia|sorted_lia].
Qed.

Lemma entry_restore_spec s T l :
  2 ^ 63 ≤ gs_base s → gs_base s + 128 ≤ 2 ^ 64 → 2 ^ 63 ≤ T < 2 ^ 64 - 64 → gpr s RSP = T →
  words_at (mem s) T (frame_words l) → ld 8 (mem s) (gs_base s + 0) = gpr l RSP → 0 ≤ gpr l RSP < 2 ^ 64 →
  ∃ t, exec_list read_only entry_restore s = Some t ∧ rip t = rip l ∧
    rflags t = Z.lor (Z.land (rflags l) 0x3C7FD7) 2 ∧ gs_base t = kernel_gs_base s ∧
    kernel_gs_base t = gs_base s ∧ xmm t = xmm s ∧ mem t = mem s ∧
    ∀ r, gpr t r =
      match r with
      | RCX => rip l | R11 => rflags l
      | RSP | RDI | RSI | RDX | R10 | R8 | R9 => gpr l r
      | _ => gpr s r
      end.
Proof.
  intros ?? HT Hsp Hw Hg Hl. unfold words_at, frame_words in Hw.
  rewrite !Forall_cons in Hw. cbn [fst snd] in Hw. destruct Hw as (W0&W1&W2&W3&W4&W5&W6&W7&_).
  unfold entry_restore. cbn [exec_list].
  rewrite (exec_pop_reg read_only R9 _ (T + 0)) by (norm; lia). norm. rewrite W0.
  rewrite (exec_pop_reg read_only R8 _ (T + 8)) by (norm; lia). norm. rewrite W1.
  rewrite (exec_pop_reg read_only R10 _ (T + 16)) by (norm; lia). norm. rewrite W2.
  rewrite (exec_pop_reg read_only RDX _ (T + 24)) by (norm; lia). norm. rewrite W3.
  rewrite (exec_pop_reg read_only RSI _ (T + 32)) by (norm; lia). norm. rewrite W4.
  rewrite (exec_pop_reg read_only RDI _ (T + 40)) by (norm; lia). norm. rewrite W5.
  rewrite (exec_pop_reg read_only R11 _ (T + 48)) by (norm; lia). norm. rewrite W6.
  rewrite (exec_pop_reg read_only RCX _ (T + 56)) by (norm; lia). norm. rewrite W7.
  rewrite exec_gs_load by (norm; rewrite ?Hg; lia). norm. rewrite Hg. cbn [exec]. norm.
  eexists. split; [reflexivity|]. norm. split_and!; try done. intros r. by destruct r.
Qed.

(** A system call from user code: [dispatch_fast] is called with the number and
    the arguments, and if it returns, its result is returned to the instruction
    after the call; all registers but [rax], [rcx] and [r11] and the stack are as
    before, and user memory is as [dispatch_fast] leaves it. *)
Lemma syscall_entry_spec {f} {D : Dispatcher f} s :
  entry_ok s →
  ∃ s1, exec_list read_only entry_save (syscall_hw s) = Some s1 ∧ dispatching s s1 ∧
    ∀ s2, call_dispatch s1 = Some s2 →
    ∃ t, syscall_entry read_only (syscall_hw s) = Some t ∧
    rip t = rip s ∧ rflags t = Z.lor (Z.land (rflags s) 0x3C7FD7) 2 ∧
    Some (gpr t RAX) =
      u64 <$> f (gpr s RAX) (gpr s RDI) (gpr s RSI) (gpr s RDX) (gpr s R10) (gpr s R8) (mem s1) ∧
    (∀ r, r ≠ RAX → r ≠ RCX → r ≠ R11 → gpr t r = gpr s r) ∧
    gs_base t = gs_base s ∧ kernel_gs_base t = kernel_gs_base s ∧ mem t = mem s2.
Proof.
  intros Hok. destruct (entry_save_spec s Hok) as (s1 & E1 & Hd). exists s1. split; [done|split; [done|]].
  intros s2 Es2. pose proof Hok as [Hr Hrip Hf Hsc Hst Hap]. pose proof Hd as [Ha Hs Hsp [Hg1 Hg2] Hu Hsw Hfr].
  destruct (dispatch_gs s1 s2 Es2) as [Hc1 Hc2].
  destruct (entry_restore_spec s2 (gpr s1 RSP) s) as (t & E2 & R1 & R2 & R3 & R4 & _ & R5 & R6);
    rewrite ?Hc1, ?Hg1; try lia; try apply Hr.
  - by apply (dispatch_saved s1).
  - unfold words_at in *. assert (Forall (λ w, 0 ≤ w.1 ≤ 56) (frame_words s)) as Hw by forall_lia.
    rewrite Forall_forall in *. intros w Hin. specialize (Hw w Hin). rewrite <- (Hfr w Hin).
    apply (dispatch_frame s1); [done|lia].
  - unfold words_at, scratch_words in Hsw. rewrite Forall_cons in Hsw. destruct Hsw as [Hw _].
    cbn [fst snd] in Hw. rewrite <- Hw. apply (dispatch_frame s1); [done|lia].
  - exists t. unfold syscall_entry. rewrite E1. cbn [mbind option_bind]. rewrite Es2. cbn [mbind option_bind].
    rewrite E2. split_and!; [reflexivity|exact R1|exact R2| | |congruence|congruence|exact R5].
    + rewrite R6. pose proof (dispatch_result s1) as H. rewrite Es2 in H. cbn [fmap option_fmap option_map] in H.
      destruct Ha as (Ha1 & Ha2 & Ha3 & Ha4 & Ha5 & Ha6). by rewrite Ha1, Ha2, Ha3, Ha4, Ha5, Ha6 in H.
    + intros r H1 H2 H3. rewrite R6.
      destruct r; first [contradiction | reflexivity | rewrite (dispatch_saved s1 s2) by done];
        apply Hs; (reflexivity || discriminate).
Qed.
End spec.
End SyscallEntry.
