(* ===== verification/Trampolines.v ===== *)
(** * The stubs and data mapped into every process
      ([process/posix_trampolines.rs], [arch/x86_64/syscall.rs])

    Programs call libc through stubs of machine code in two read-only pages at
    [TRAMPOLINE_PAGES_VA]; the loader resolves a symbol to its stub by
    [find_posix_symbol]. *)

From Stdlib Require Import ZArith Lia Sorting.Sorted.
From stdpp Require Import base numbers strings option relations list.
From S2P Require Import Prelude X86Machine SyscallEntry.

Local Open Scope Z_scope.

Module Trampolines.
Import X86Machine SyscallEntry.

(** ** Addresses *)

Definition TRAMPOLINE_PAGES_VA : Z := 0x7FFFE000.
Definition SYSDATA_VA : Z := 0x7FFFC000.
Definition SD_CTYPE_B_PTR : Z := SYSDATA_VA + 0.
Definition SD_CTYPE_LO_PTR : Z := SYSDATA_VA + 8.
Definition SD_CTYPE_UP_PTR : Z := SYSDATA_VA + 16.
Definition SD_ERRNO : Z := SYSDATA_VA + 32.
Definition SD_ENVIRON : Z := SYSDATA_VA + 48.
Definition SD_STDIN : Z := SYSDATA_VA + 56.
Definition SD_STDOUT : Z := SYSDATA_VA + 64.
Definition SD_STDERR : Z := SYSDATA_VA + 72.
Definition SD_CTYPE_B_TABLE : Z := SYSDATA_VA + 80.
Definition SD_CTYPE_LO_TABLE : Z := SYSDATA_VA + 848.
Definition SD_CTYPE_UP_TABLE : Z := SYSDATA_VA + 2384.
Definition SD_LOCALE_C : Z := SYSDATA_VA + 3920.
Definition SD_EMPTY_FC_FONTSET : Z := SYSDATA_VA + 4032.
Definition CTYPE_B_PTR_VAL : Z := SD_CTYPE_B_TABLE + 128 * 2.
Definition CTYPE_LO_PTR_VAL : Z := SD_CTYPE_LO_TABLE + 128 * 4.
Definition CTYPE_UP_PTR_VAL : Z := SD_CTYPE_UP_TABLE + 128 * 4.

(** ** The symbol table *)

Inductive StubKind :=
| Syscall (nr : Z)
| FloatZero
| RetAddr (va : Z)
| RetU32 (v : Z)
| SyscallRetAsArg0 (nr : Z)
| Qsort
| Padding
| Setjmp
| Longjmp
| MathSyscall1 (nr : Z)
| MathSyscall2 (nr : Z)
| MathSyscall3 (nr : Z).

Definition stubs_memory : list (string * StubKind) :=
  [("malloc", Syscall 0x3A0); ("free", Syscall 0x3A1); ("calloc", Syscall 0x3A2);
   ("realloc", Syscall 0x3A3); ("aligned_alloc", Syscall 0x3A4); ("posix_memalign", Syscall 0x3A5);
   ("malloc_usable_size", Syscall 0x3A6); ("strdup", Syscall 0x3A7); ("strndup", Syscall 0x3A8)].

Definition stubs_string : list (string * StubKind) :=
  [("strlen", Syscall 0x3B0); ("memcpy", Syscall 0x3B1); ("memset", Syscall 0x3B2);
   ("memmove", Syscall 0x3B3); ("memcmp", Syscall 0x3B4); ("memchr", Syscall 0x3B5);
   ("bcmp", Syscall 0x3B4); ("bzero", Syscall 0x3B6); ("strcmp", Syscall 0x3B7);
   ("strncmp", Syscall 0x3B8); ("strcpy", Syscall 0x3B9); ("strncpy", Syscall 0x3BA);
   ("strcat", Syscall 0x3BB); ("strncat", Syscall 0x3BC); ("strstr", Syscall 0x3BD);
   ("strchr", Syscall 0x3BE); ("strrchr", Syscall 0x3BF); ("strnlen", Syscall 0x3C0);
   ("strcspn", Syscall 0x3C1); ("strspn", Syscall 0x3C2); ("strtok_r", Syscall 0x3C3);
   ("strcasestr", Syscall 0x3C4); ("strtol", Syscall 0x3C5); ("strtoul", Syscall 0x3C6);
   ("strtoll", Syscall 0x3C7); ("strtoull", Syscall 0x3C8); ("strtod", Syscall 0x3C9);
   ("atoi", Syscall 0x3CA); ("atol", Syscall 0x3CA); ("__qsort_old", Syscall 0x3CB);
   ("rand", Syscall 0x3CC); ("srand", Syscall 0x3CD)].

Definition stubs_threading : list (string * StubKind) :=
  [("pthread_create", Syscall 0x35A); ("pthread_join", Syscall 0x35C);
   ("pthread_exit", Syscall 0x35B); ("pthread_detach", Syscall 0x3D0);
   ("pthread_self", Syscall 0x3D1); ("pthread_mutex_init", Syscall 0x3D2);
   ("pthread_mutex_lock", Syscall 0x3D3); ("pthread_mutex_unlock", Syscall 0x3D4);
   ("pthread_mutex_destroy", Syscall 0x3D5); ("pthread_mutex_trylock", Syscall 0x3D6);
   ("pthread_once", Syscall 0x3D7); ("pthread_key_create", Syscall 0x3D8);
   ("pthread_key_delete", Syscall 0x3D9); ("pthread_setspecific", Syscall 0x3DA);
   ("pthread_getspecific", Syscall 0x3DB); ("pthread_cond_init", Syscall 0x3DC);
   ("pthread_cond_wait", Syscall 0x3DD); ("pthread_cond_signal", Syscall 0x3DE);
   ("pthread_cond_broadcast", Syscall 0x3DF); ("pthread_cond_destroy", Syscall 0x3E0);
   ("pthread_cond_timedwait", Syscall 0x3E1); ("pthread_rwlock_rdlock", Syscall 0x3E2);
   ("pthread_rwlock_wrlock", Syscall 0x3E3); ("pthread_rwlock_unlock", Syscall 0x3E4);
   ("pthread_rwlock_init", Syscall 0x3E5); ("pthread_rwlock_destroy", Syscall 0x3E6);
   ("pthread_attr_init", Syscall 0x3E7); ("pthread_attr_destroy", Syscall 0x3E8);
   ("pthread_attr_setstacksize", Syscall 0x3E9); ("pthread_attr_setdetachstate", Syscall 0x3EA);
   ("pthread_attr_getstack", Syscall 0x3EB); ("pthread_mutexattr_init", Syscall 0x3EC);
   ("pthread_mutexattr_destroy", Syscall 0x3ED); ("pthread_mutexattr_settype", Syscall 0x3EE);
   ("pthread_condattr_init", Syscall 0x3EF); ("pthread_condattr_destroy", Syscall 0x3F0);
   ("pthread_condattr_setclock", Syscall 0x3F1); ("pthread_sigmask", Syscall 0x3F2);
   ("pthread_kill", Syscall 0x3F3); ("pthread_setname_np", Syscall 0x3F4);
   ("pthread_getname_np", Syscall 0x3F5); ("pthread_getattr_np", Syscall 0x3F6);
   ("pthread_getschedparam", Syscall 0x3F7)].

Definition stubs_semaphores : list (string * StubKind) :=
  [("sem_init", Syscall 0x3F8); ("sem_destroy", Syscall 0x3F9); ("sem_wait", Syscall 0x3FA);
   ("sem_trywait", Syscall 0x3FB); ("sem_post", Syscall 0x3FC)].

Definition stubs_tls : list (string * StubKind) :=
  [("__tls_get_addr", Syscall 0x3FD)].

Definition stubs_system : list (string * StubKind) :=
  [("abort", Syscall 0x400); ("__stack_chk_fail", Syscall 0x400); ("exit", Syscall 60);
   ("_exit", Syscall 60); ("getpid", Syscall 39); ("getpagesize", RetU32 4096);
   ("sysconf", Syscall 0x402); ("nanosleep", Syscall 0x403); ("gettimeofday", Syscall 0x404);
   ("clock_gettime", Syscall 0x405); ("time", Syscall 0x406); ("fork", Syscall 0x392);
   ("wait", Syscall 0x407); ("getrusage", Syscall 0x408); ("getcwd", Syscall 0x409);
   ("gethostname", Syscall 0x40A); ("prctl", Syscall 0x40B); ("setsid", Syscall 0x40C);
   ("setpriority", Syscall 0x40D); ("uname", Syscall 0x40E); ("strerror", Syscall 0x40F);
   ("strerror_r", Syscall 0x410); ("sched_yield", Syscall 0x390); ("syscall", Syscall 0x411);
   ("write", Syscall 1); ("read", Syscall 0); ("close", Syscall 3); ("mmap64", Syscall 9);
   ("munmap", Syscall 11); ("mprotect", Syscall 10); ("madvise", Syscall 0x412);
   ("dlopen", Syscall 0x350); ("dlsym", Syscall 0x351); ("dlclose", Syscall 0x352);
   ("dladdr", Syscall 0x413); ("dlerror", Syscall 0x414); ("getenv", Syscall 0x415);
   ("setlocale", Syscall 0x416); ("uselocale", Syscall 0x417); ("newlocale", Syscall 0x418);
   ("freelocale", Syscall 0x419); ("catopen", Syscall 0x41A); ("catgets", Syscall 0x41B);
   ("catclose", Syscall 0x41C)].

Definition stubs_ctype : list (string * StubKind) :=
  [("__errno_location", RetAddr SD_ERRNO); ("__ctype_b_loc", RetAddr SD_CTYPE_B_PTR);
   ("__ctype_tolower_loc", RetAddr SD_CTYPE_LO_PTR);
   ("__ctype_toupper_loc", RetAddr SD_CTYPE_UP_PTR); ("__ctype_get_mb_cur_max", RetU32 1);
   ("__cxa_atexit", Syscall 0x41D)].

Definition stubs_io : list (string * StubKind) :=
  [("open64", Syscall 0x420); ("openat64", Syscall 257); ("openat", Syscall 257);
   ("lseek64", Syscall 0x421); ("fopen64", Syscall 0x422); ("fclose", Syscall 0x423);
   ("fread", Syscall 0x424); ("fwrite", Syscall 0x425); ("fseek", Syscall 0x426);
   ("fseeko64", Syscall 0x426); ("ftell", Syscall 0x427); ("ftello64", Syscall 0x427);
   ("feof", Syscall 0x428); ("ferror", Syscall 0x429); ("fflush", Syscall 0x42A);
   ("fgets", Syscall 0x42B); ("fputc", Syscall 0x42C); ("fputs", Syscall 0x42D);
   ("fputwc", Syscall 0x42E); ("getwc", Syscall 0x42F); ("ungetc", Syscall 0x430);
   ("ungetwc", Syscall 0x431); ("fprintf", Syscall 0x432); ("vfprintf", Syscall 0x433);
   ("snprintf", Syscall 0x434); ("vsnprintf", Syscall 0x435); ("sprintf", Syscall 0x436);
   ("printf", Syscall 0x437); ("puts", Syscall 0x438); ("perror", Syscall 0x439);
   ("vasprintf", Syscall 0x43A); ("__isoc99_fscanf", Syscall 0x43B);
   ("__isoc99_sscanf", Syscall 0x43C); ("__isoc99_vsscanf", Syscall 0x43D);
   ("fileno", Syscall 0x43E); ("rewind", Syscall 0x43F); ("clearerr", Syscall 0x440);
   ("stat", Syscall 0x441); ("lstat", Syscall 0x441); ("fdopen", Syscall 0x442);
   ("opendir", Syscall 0x442); ("closedir", Syscall 0x442); ("readdir64", Syscall 0x443);
   ("rewinddir", Syscall 0x444); ("setbuf", Syscall 0x445); ("setvbuf", Syscall 0x446);
   ("getc", Syscall 0x447); ("__getdelim", Syscall 0x448); ("pread64", Syscall 0x449);
   ("ftruncate64", Syscall 0x44A); ("fsync", Syscall 0x44B); ("chdir", Syscall 0x44C);
   ("mkdirat", Syscall 0x44D); ("renameat", Syscall 0x44E); ("unlinkat", Syscall 0x44F);
   ("symlinkat", Syscall 0x450); ("readlinkat", Syscall 0x451); ("readlink", Syscall 0x452);
   ("realpath", Syscall 0x453); ("dup", Syscall 0x454); ("dup2", Syscall 0x455);
   ("pipe", Syscall 0x456); ("pipe2", Syscall 0x457); ("fcntl", Syscall 0x4A3);
   ("fcntl64", Syscall 0x4A3); ("__fcntl", Syscall 0x4A3); ("faccessat", Syscall 0x458);
   ("sendfile64", Syscall 0x459); ("__fxstat64", Syscall 0x45A); ("__fxstatat64", Syscall 0x45B);
   ("__lxstat64", Syscall 0x45C); ("__xstat64", Syscall 0x45D)].

Definition stubs_network : list (string * StubKind) :=
  [("socket", Syscall 0x460); ("bind", Syscall 0x461); ("listen", Syscall 0x462);
   ("connect", Syscall 0x463); ("accept4", Syscall 0x464); ("sendto", Syscall 0x465);
   ("sendmsg", Syscall 0x466); ("recvfrom", Syscall 0x467); ("recvmsg", Syscall 0x468);
   ("shutdown", Syscall 0x469); ("setsockopt", Syscall 0x46A); ("getsockopt", Syscall 0x46B);
   ("getsockname", Syscall 0x46C); ("getpeername", Syscall 0x46D); ("getaddrinfo", Syscall 0x46E);
   ("freeaddrinfo", Syscall 0x46F); ("getnameinfo", Syscall 0x470); ("gai_strerror", Syscall 0x471);
   ("getifaddrs", Syscall 0x472); ("freeifaddrs", Syscall 0x473); ("if_nametoindex", Syscall 0x474);
   ("inet_ntop", Syscall 0x475); ("inet_pton", Syscall 0x476); ("gethostname2", Syscall 0x477)].

Definition stubs_epoll : list (string * StubKind) :=
  [("epoll_create", Syscall 0x478); ("epoll_create1", Syscall 0x479); ("epoll_ctl", Syscall 0x47A);
   ("epoll_wait", Syscall 0x47B); ("inotify_init1", Syscall 0x47C);
   ("inotify_add_watch", Syscall 0x47D); ("inotify_rm_watch", Syscall 0x47E);
   ("timerfd_create", Syscall 0x47F); ("timerfd_settime", Syscall 0x480); ("poll", Syscall 0x481);
   ("ioctl", Syscall 0x482); ("kill", Syscall 62); ("sigaction", Syscall 0x394);
   ("sigemptyset", Syscall 0x483); ("sigaddset", Syscall 0x484); ("sigfillset", Syscall 0x485);
   ("__setjmp_old", Syscall 0x486); ("__longjmp_old", Syscall 0x487)].

Definition stubs_locale : list (string * StubKind) :=
  [("wcslen", Syscall 0x488); ("mbrtowc", Syscall 0x489); ("mbsnrtowcs", Syscall 0x48A);
   ("mbsrtowcs", Syscall 0x48B); ("mbtowc", Syscall 0x48C); ("wcrtomb", Syscall 0x48D);
   ("wmemchr", Syscall 0x48E); ("strftime_l", Syscall 0x48F); ("strtod_l", Syscall 0x490)].

Definition stubs_second_page : list (string * StubKind) :=
  [("strtof_l", Syscall 0x491); ("strtold_l", Syscall 0x492); ("strtoll_l", Syscall 0x493);
   ("strtoull_l", Syscall 0x494); ("tcgetattr", Syscall 0x495); ("tcsetattr", Syscall 0x496);
   ("tzset", Syscall 0x497); ("localtime_r", Syscall 0x498); ("dup3", Syscall 0x499);
   ("execvp", Syscall 0x49A); ("syslog", Syscall 0x49B); ("ilogbf", Syscall 0x49C);
   ("modff", Syscall 0x49D); ("nextafterf", Syscall 0x49E); ("scalbnf", Syscall 0x49F);
   ("llround", Syscall 0x4A0); ("llroundf", Syscall 0x4A1); ("remainder", Syscall 0x4A2)].

Definition stubs_math : list (string * StubKind) :=
  [("sin", MathSyscall1 0x4C0); ("__m_sin", Padding); ("sinf", MathSyscall1 0x4C1);
   ("__m_sinf", Padding); ("cos", MathSyscall1 0x4C2); ("__m_cos", Padding);
   ("cosf", MathSyscall1 0x4C3); ("__m_cosf", Padding); ("tan", MathSyscall1 0x4C4);
   ("__m_tan", Padding); ("tanf", MathSyscall1 0x4C5); ("__m_tanf", Padding);
   ("asin", MathSyscall1 0x4C6); ("__m_asin", Padding); ("asinf", MathSyscall1 0x4C7);
   ("__m_asinf", Padding); ("acos", MathSyscall1 0x4C8); ("__m_acos", Padding);
   ("acosf", MathSyscall1 0x4C9); ("__m_acosf", Padding); ("atan", MathSyscall1 0x4CA);
   ("__m_atan", Padding); ("atan2", MathSyscall2 0x4CB); ("__m_atan2", Padding);
   ("atan2f", MathSyscall2 0x4CC); ("__m_atan2f", Padding); ("sinh", MathSyscall1 0x4CD);
   ("__m_sinh", Padding); ("cosh", MathSyscall1 0x4CE); ("__m_cosh", Padding);
   ("tanh", MathSyscall1 0x4CF); ("__m_tanh", Padding); ("tanhf", MathSyscall1 0x4D0);
   ("__m_tanhf", Padding); ("exp", MathSyscall1 0x4D1); ("__m_exp", Padding);
   ("expf", MathSyscall1 0x4D2); ("__m_expf", Padding); ("exp2", MathSyscall1 0x4D3);
   ("__m_exp2", Padding); ("exp2f", MathSyscall1 0x4D4); ("__m_exp2f", Padding);
   ("log", MathSyscall1 0x4D5); ("__m_log", Padding); ("log2", MathSyscall1 0x4D6);
   ("__m_log2", Padding); ("log2f", MathSyscall1 0x4D7); ("__m_log2f", Padding);
   ("log10", MathSyscall1 0x4D8); ("__m_log10", Padding); ("pow", MathSyscall2 0x4D9);
   ("__m_pow", Padding); ("powf", MathSyscall2 0x4DA); ("__m_powf", Padding);
   ("sqrt", MathSyscall1 0x4DB); ("__m_sqrt", Padding); ("sqrtf", MathSyscall1 0x4DC);
   ("__m_sqrtf", Padding); ("cbrt", MathSyscall1 0x4DD); ("__m_cbrt", Padding);
   ("cbrtf", MathSyscall1 0x4DE); ("__m_cbrtf", Padding); ("fabs", MathSyscall1 0x4DF);
   ("__m_fabs", Padding); ("floor", MathSyscall1 0x4E0); ("__m_floor", Padding);
   ("floorf", MathSyscall1 0x4E1); ("__m_floorf", Padding); ("ceil", MathSyscall1 0x4E2);
   ("__m_ceil", Padding); ("ceilf", MathSyscall1 0x4E3); ("__m_ceilf", Padding);
   ("round", MathSyscall1 0x4E4); ("__m_round", Padding); ("roundf", MathSyscall1 0x4E5);
   ("__m_roundf", Padding); ("trunc", MathSyscall1 0x4E6); ("__m_trunc", Padding);
   ("truncf", MathSyscall1 0x4E7); ("__m_truncf", Padding); ("fmod", MathSyscall2 0x4E8);
   ("__m_fmod", Padding); ("fmodf", MathSyscall2 0x4E9); ("__m_fmodf", Padding);
   ("fma", MathSyscall3 0x4EA); ("__m_fma", Padding); ("hypot", MathSyscall2 0x4EB);
   ("__m_hypot", Padding); ("hypotf", MathSyscall2 0x4EC); ("__m_hypotf", Padding);
   ("erff", MathSyscall1 0x4ED); ("__m_erff", Padding); ("acosh", MathSyscall1 0x4EE);
   ("__m_acosh", Padding); ("asinh", MathSyscall1 0x4EF); ("__m_asinh", Padding);
   ("atanh", MathSyscall1 0x4F0); ("__m_atanh", Padding); ("log10f", MathSyscall1 0x4F1);
   ("__m_log10f", Padding)].

Definition stubs_other : list (string * StubKind) :=
  [("__emutls_get_address", Syscall 0x4B0); ("__emutls_register_common", Syscall 0x4B1);
   ("__emutls_get_address_compat", Syscall 0x4B0); ("__pthread_self", Syscall 0x3D1);
   ("arch_prctl", Syscall 158); ("__oscortex_thread_return", SyscallRetAsArg0 0x35B);
   ("qsort", Qsort); ("__qsort_pad1", Padding); ("__qsort_pad2", Padding);
   ("__qsort_pad3", Padding); ("__qsort_pad4", Padding); ("__qsort_pad5", Padding);
   ("__qsort_pad6", Padding); ("__qsort_pad7", Padding); ("__qsort_pad8", Padding);
   ("_setjmp", Setjmp); ("__setjmp_pad1", Padding); ("__setjmp_pad2", Padding);
   ("longjmp", Longjmp); ("__longjmp_pad1", Padding); ("__longjmp_pad2", Padding);
   ("__oscortex_fallback_stub", RetU32 0); ("__oscortex_fallback_stub_nonnull", RetU32 0xFC000000);
   ("__oscortex_fallback_stub_true", RetU32 1);
   ("__oscortex_fallback_stub_fcfontset", RetAddr SD_EMPTY_FC_FONTSET)].

Definition STUBS : list (string * StubKind) :=
  stubs_memory ++ stubs_string ++ stubs_threading ++ stubs_semaphores ++ stubs_tls ++ stubs_system ++
  stubs_ctype ++ stubs_io ++ stubs_network ++ stubs_epoll ++ stubs_locale ++ stubs_second_page ++
  stubs_math ++ stubs_other.

Definition DATA_SYMS : list (string * Z) :=
  [("environ", SD_ENVIRON); ("stdin", SD_STDIN); ("stdout", SD_STDOUT); ("stderr", SD_STDERR)].

Definition stub_va (i : nat) : Z := TRAMPOLINE_PAGES_VA + Z.of_nat i * 16.

Definition find_posix_symbol (name : string) : option Z :=
  match find_first (λ e : string * Z, String.eqb e.1 name) DATA_SYMS with
  | Some (_, va) => Some va
  | None => option_map stub_va (position (λ e : string * StubKind, String.eqb e.1 name) STUBS)
  end.

Definition thread_return_trampoline_va : Z :=
  default 0 (find_posix_symbol "__oscortex_thread_return").

(** ** Encoding *)

(** [page[off..off + n].copy_from_slice(bs)]. *)
Definition put_slice (page : bytes) (off : nat) (bs : bytes) : outcome bytes :=
  if (off + length bs <=? length page)%nat then Val (copy_at page off bs) else Panic.

(** [page[off] = b0; page[off + 1] = b1; ...]. *)
Fixpoint put_each (page : bytes) (off : nat) (bs : bytes) : outcome bytes :=
  match bs with
  | [] => Val page
  | b :: bs' => let! p := store page off b in put_each p (S off) bs'
  end.

Definition QSORT_CODE : bytes :=
  [0x53; 0x55; 0x41; 0x54; 0x41; 0x55; 0x41; 0x56; 0x41; 0x57; 0x49; 0x89; 0xfc; 0x49; 0x89; 0xf5;
   0x49; 0x89; 0xd6; 0x49; 0x89; 0xcf; 0x49; 0x83; 0xfd; 0x02; 0x72; 0x61; 0x48; 0xc7; 0xc3; 0x01;
   0x00; 0x00; 0x00; 0x4c; 0x39; 0xeb; 0x73; 0x55; 0x48; 0x89; 0xdd; 0x48; 0x85; 0xed; 0x74; 0x48;
   0x48; 0x89; 0xe8; 0x49; 0x0f; 0xaf; 0xc6; 0x4c; 0x01; 0xe0; 0x48; 0x89; 0xc7; 0x4c; 0x29; 0xf0;
   0x48; 0x89; 0xc6; 0x41; 0xff; 0xd7; 0x85; 0xc0; 0x7d; 0x2e; 0x48; 0x89; 0xef; 0x49; 0x0f; 0xaf;
   0xfe; 0x4c; 0x01; 0xe7; 0x48; 0x89; 0xfe; 0x4c; 0x29; 0xf6; 0x48; 0x31; 0xc9; 0x4c; 0x39; 0xf1;
   0x73; 0x11; 0x8a; 0x04; 0x0f; 0x8a; 0x14; 0x0e; 0x88; 0x04; 0x0e; 0x88; 0x14; 0x0f; 0x48; 0xff;
   0xc1; 0xeb; 0xea; 0x48; 0xff; 0xcd; 0xeb; 0xb3; 0x48; 0xff; 0xc3; 0xeb; 0xa6; 0x41; 0x5f; 0x41;
   0x5e; 0x41; 0x5d; 0x41; 0x5c; 0x5d; 0x5b; 0xc3].

Definition SETJMP_CODE : bytes :=
  [0x48; 0x89; 0x1f; 0x48; 0x8d; 0x44; 0x24; 0x08; 0x48; 0x89; 0x47; 0x08; 0x48; 0x89; 0x6f; 0x10;
   0x4c; 0x89; 0x67; 0x18; 0x4c; 0x89; 0x6f; 0x20; 0x4c; 0x89; 0x77; 0x28; 0x4c; 0x89; 0x7f; 0x30;
   0x48; 0x8b; 0x04; 0x24; 0x48; 0x89; 0x47; 0x38; 0x48; 0x31; 0xc0; 0xc3].

Definition LONGJMP_CODE : bytes :=
  [0x48; 0x8b; 0x1f; 0x48; 0x8b; 0x67; 0x08; 0x48; 0x8b; 0x6f; 0x10; 0x4c; 0x8b; 0x67; 0x18; 0x4c;
   0x8b; 0x6f; 0x20; 0x4c; 0x8b; 0x77; 0x28; 0x4c; 0x8b; 0x7f; 0x30; 0x48; 0x8b; 0x57; 0x38; 0x48;
   0x89; 0xf0; 0x48; 0x85; 0xc0; 0x75; 0x07; 0x48; 0xc7; 0xc0; 0x01; 0x00; 0x00; 0x00; 0xff; 0xe2].

(** [mov eax, nr], the number byte by byte. *)
Definition mov_eax (nr : Z) : bytes :=
  [0xB8; Z.land nr 0xFF; Z.land (Z.shiftr nr 8) 0xFF; Z.land (Z.shiftr nr 16) 0xFF;
   Z.land (Z.shiftr nr 24) 0xFF].

(** [syscall; movq xmm0, rax; ret]. *)
Definition math_tail : bytes := [0x0F; 0x05; 0x66; 0x48; 0x0F; 0x6E; 0xC0; 0xC3].

Definition encode_stub (page : bytes) (off : nat) (kind : StubKind) : outcome bytes :=
  match kind with
  | Syscall nr =>
      let! p := put_each page off [0x49; 0x89; 0xCA; 0xB8] in
      let! p := put_slice p (off + 4) (le_bytes 4 nr) in
      put_each p (off + 8) [0x0F; 0x05; 0xC3]
  | FloatZero => put_each page off [0x0F; 0x57; 0xC0; 0xC3]
  | RetAddr va =>
      let! p := put_each page off [0x48; 0xB8] in
      let! p := put_slice p (off + 2) (le_bytes 8 va) in
      put_each p (off + 10) [0xC3]
  | RetU32 v =>
      let! p := put_each page off [0xB8] in
      let! p := put_slice p (off + 1) (le_bytes 4 v) in
      put_each p (off + 5) [0xC3]
  | SyscallRetAsArg0 nr =>
      let! p := put_each page off [0x48; 0x89; 0xC7; 0xB8] in
      let! p := put_slice p (off + 4) (le_bytes 4 nr) in
      put_each p (off + 8) [0x0F; 0x05; 0x0F; 0x0B]
  | Qsort => put_slice page off QSORT_CODE
  | MathSyscall1 nr => put_slice page off ([0x66; 0x48; 0x0F; 0x7E; 0xC7] ++ mov_eax nr ++ math_tail)
  | MathSyscall2 nr =>
      put_slice page off
        ([0x66; 0x48; 0x0F; 0x7E; 0xC7; 0x66; 0x48; 0x0F; 0x7E; 0xCE] ++ mov_eax nr ++ math_tail)
  | MathSyscall3 nr =>
      put_slice page off
        ([0x66; 0x48; 0x0F; 0x7E; 0xC7; 0x66; 0x48; 0x0F; 0x7E; 0xCE; 0x66; 0x48; 0x0F; 0x7E; 0xD2] ++
         mov_eax nr ++ math_tail)
  | Padding => Val page
  | Setjmp => put_slice page off SETJMP_CODE
  | Longjmp => put_slice page off LONGJMP_CODE
  end.

(** The contents of the two pages, as [map_trampoline_pages] writes them. *)
Definition encode_at (i : nat) (kind : StubKind) (pages : bytes * bytes) : outcome (bytes * bytes) :=
  let off := (i mod 256 * 16)%nat in
  if (i <? 256)%nat
  then let! p := encode_stub pages.1 off kind in Val (p, pages.2)
  else let! p := encode_stub pages.2 off kind in Val (pages.1, p).

Definition fill_stubs : outcome (bytes * bytes) :=
  for_range 0 (length STUBS)
    (λ i pages, match STUBS !! i with Some (_, kind) => encode_at i kind pages | None => Panic end)
    (replicate 4096 0x90, replicate 4096 0x90).

(** ** The data page *)

Definition ISupper : Z := Z.shiftl 1 0.
Definition ISlower : Z := Z.shiftl 1 1.
Definition ISalpha : Z := Z.shiftl 1 2.
Definition ISdigit : Z := Z.shiftl 1 3.
Definition ISxdigit : Z := Z.shiftl 1 4.
Definition ISspace : Z := Z.shiftl 1 5.
Definition ISprint : Z := Z.shiftl 1 6.
Definition ISgraph : Z := Z.shiftl 1 7.
Definition ISblank : Z := Z.shiftl 1 8.
Definition IScntrl : Z := Z.shiftl 1 9.
Definition ISpunct : Z := Z.shiftl 1 10.
Definition ISalnum : Z := Z.shiftl 1 11.

Local Infix "|||" := Z.lor (at level 50, left associativity).

(** [t[128 + i] |= v] for one index and for a range. *)
Definition or_at (i : nat) (v : Z) (t : list Z) : outcome (list Z) :=
  let! x := load t (128 + i) in store t (128 + i) (x ||| v).
Definition or_range (lo hi : nat) (v : Z) (t : list Z) : outcome (list Z) :=
  for_range lo (hi - lo) (λ i, or_at i v) t.

Definition gen_ctype_b : outcome (list Z) :=
  let! t := or_range 0 32 IScntrl (replicate 384 0) in
  let! t := or_at 127 IScntrl t in
  let! t := or_at 9 (ISspace ||| ISblank) t in
  let! t := or_range 10 14 ISspace t in
  let! t := or_at 32 (ISspace ||| ISblank ||| ISprint) t in
  let! t := or_range 33 127 (ISprint ||| ISgraph) t in
  let! t := or_range 48 58 (ISdigit ||| ISxdigit ||| ISalnum) t in
  let! t := or_range 65 71 ISxdigit t in
  let! t := or_range 97 103 ISxdigit t in
  let! t := or_range 65 91 (ISupper ||| ISalpha ||| ISalnum) t in
  let! t := or_range 97 123 (ISlower ||| ISalpha ||| ISalnum) t in
  for_range 33 (127 - 33)
    (λ i t, let! x := load t (128 + i) in
       if Z.land x (ISalnum ||| ISspace) =? 0 then or_at i ISpunct t else Val t) t.

Definition gen_ctype_lo : outcome (list Z) :=
  for_range 0 256
    (λ i t, let c := Z.of_nat i in
       store t (128 + i) (if (65 <=? c) && (c <=? 90) then c + 32 else c)) (replicate 384 0).

Definition gen_ctype_up : outcome (list Z) :=
  for_range 0 256
    (λ i t, let c := Z.of_nat i in
       store t (128 + i) (if (97 <=? c) && (c <=? 122) then c - 32 else c)) (replicate 384 0).

Definition write_u64_le (buf : bytes) (off : nat) (v : Z) : outcome bytes := put_slice buf off (le_bytes 8 v).

(** The entries of a table, [n] bytes each. *)
Definition write_table (n off : nat) (table : list Z) (page : bytes) : outcome bytes :=
  for_range 0 (length table)
    (λ i page, let! v := load table i in put_slice page (off + i * n) (le_bytes n (v mod 2 ^ (8 * Z.of_nat n)))) page.

(** The contents of the data page, as [map_sysdata_page] writes them. *)
Definition fill_sysdata : outcome bytes :=
  let! page := write_u64_le (replicate 4096 0) 0 CTYPE_B_PTR_VAL in
  let! page := write_u64_le page 8 CTYPE_LO_PTR_VAL in
  let! page := write_u64_le page 16 CTYPE_UP_PTR_VAL in
  let! page := write_u64_le page 48 (SYSDATA_VA + 24) in
  let! page := write_u64_le page 56 0 in
  let! page := write_u64_le page 64 1 in
  let! page := write_u64_le page 72 2 in
  let! ctype_b := gen_ctype_b in
  let! page := write_table 2 80 ctype_b page in
  let! ctype_lo := gen_ctype_lo in
  let! page := write_table 4 848 ctype_lo page in
  let! ctype_up := gen_ctype_up in
  let! page := write_table 4 2384 ctype_up page in
  let! page := store page 3920 67 in
  let! page := store page 3921 0 in
  let! page := put_slice page 3922 (str "/system/lib/libflutter_engine.so" ++ [0]) in
  let! page := put_slice page 3960 (str "/system/flutter/libapp.so" ++ [0]) in
  let! page := put_slice page 3990 (str "/system/lib/unknown.so" ++ [0]) in
  let! page := put_slice page 4032 (le_bytes 4 0) in
  let! page := put_slice page 4036 (le_bytes 4 0) in
  put_slice page 4040 (le_bytes 8 0).

(** ** The pages hold the code of every stub *)

(** The bytes of a stub. *)
Definition stub_code (kind : StubKind) : bytes :=
  match kind with
  | Syscall nr => [0x49; 0x89; 0xCA; 0xB8] ++ le_bytes 4 nr ++ [0x0F; 0x05; 0xC3]
  | FloatZero => [0x0F; 0x57; 0xC0; 0xC3]
  | RetAddr va => [0x48; 0xB8] ++ le_bytes 8 va ++ [0xC3]
  | RetU32 v => [0xB8] ++ le_bytes 4 v ++ [0xC3]
  | SyscallRetAsArg0 nr => [0x48; 0x89; 0xC7; 0xB8] ++ le_bytes 4 nr ++ [0x0F; 0x05; 0x0F; 0x0B]
  | Qsort => QSORT_CODE
  | Padding => []
  | Setjmp => SETJMP_CODE
  | Longjmp => LONGJMP_CODE
  | MathSyscall1 nr => [0x66; 0x48; 0x0F; 0x7E; 0xC7] ++ [0xB8] ++ le_bytes 4 nr ++ math_tail
  | MathSyscall2 nr =>
      [0x66; 0x48; 0x0F; 0x7E; 0xC7; 0x66; 0x48; 0x0F; 0x7E; 0xCE] ++ [0xB8] ++ le_bytes 4 nr ++
      math_tail
  | MathSyscall3 nr =>
      [0x66; 0x48; 0x0F; 0x7E; 0xC7; 0x66; 0x48; 0x0F; 0x7E; 0xCE; 0x66; 0x48; 0x0F; 0x7E; 0xD2] ++
      [0xB8] ++ le_bytes 4 nr ++ math_tail
  end.

Lemma put_slice_ok page off bs :
  (off + length bs ≤ length page)%nat → put_slice page off bs = Val (copy_at page off bs).
Proof. intros H. unfold put_slice. by rewrite (proj2 (Nat.leb_le _ _) H). Qed.

Lemma copy_at_copy_at (p a b : bytes) off :
  (off + length a + length b ≤ length p)%nat →
  copy_at (copy_at p off a) (off + length a) b = copy_at p off (a ++ b).
Proof.
  intros H. apply list_eq. intros i.
  assert (length (copy_at p off a) = length p) as Hl by (apply copy_at_length; lia).
  destruct (decide (off ≤ i < off + length a + length b)%nat) as [Hi|Hi].
  - rewrite (copy_at_lookup_in p (a ++ b)) by (rewrite length_app; lia).
    destruct (decide (i < off + length a)%nat).
    + by rewrite copy_at_lookup_out, copy_at_lookup_in, lookup_app_l by (rewrite ?Hl; lia).
    + rewrite copy_at_lookup_in, lookup_app_r by (rewrite ?Hl; lia). f_equal. lia.
  - rewrite (copy_at_lookup_out p (a ++ b)) by (rewrite length_app; lia).
    by rewrite !copy_at_lookup_out by (rewrite ?Hl; lia).
Qed.

Lemma copy_at_one (p : bytes) off b : (off < length p)%nat → <[off := b]> p = copy_at p off [b].
Proof. intros H. unfold copy_at. cbn [length]. rewrite Nat.add_1_r. by apply insert_take_drop. Qed.

Lemma put_each_ok page off bs :
  (off + length bs ≤ length page)%nat → put_each page off bs = Val (copy_at page off bs).
Proof.
  revert page off. induction bs as [|b bs IH]; intros page off H; cbn [put_each].
  - unfold copy_at. cbn. rewrite Nat.add_0_r. by rewrite take_drop.
  - cbn [length] in H. rewrite store_ok by lia. cbn [obind]. rewrite copy_at_one by lia.
    rewrite IH by (rewrite copy_at_length; cbn; lia). f_equal.
    refine (eq_trans _ (copy_at_copy_at page [b] bs off _)); cbn [length]; [by rewrite Nat.add_1_r|lia].
Qed.

Lemma mov_eax_bytes nr : mov_eax nr = 0xB8 :: le_bytes 4 nr.
Proof.
  unfold mov_eax. cbn [le_bytes]. change 0xFF with (Z.ones 8). rewrite !Z.land_ones, !Z.shiftr_div_pow2 by lia.
  rewrite !Z.div_div by lia. done.
Qed.

Lemma encode_stub_ok page off kind :
  (off + length (stub_code kind) ≤ length page)%nat →
  encode_stub page off kind = Val (copy_at page off (stub_code kind)).
Proof.
  intros H.
  assert (∀ a v n b, (off + length (a ++ le_bytes n v ++ b) ≤ length page)%nat →
    (let! p := put_each page off a in
     let! p := put_slice p (off + length a) (le_bytes n v) in
     put_each p (off + length a + n) b) = Val (copy_at page off (a ++ le_bytes n v ++ b))) as Hmid.
  { intros a v n b Hl. rewrite !length_app, le_bytes_length in Hl.
    assert (length (copy_at page off a) = length page) as H1 by (apply copy_at_length; lia).
    assert (length (copy_at (copy_at page off a) (off + length a) (le_bytes n v)) = length page) as H2
      by (rewrite copy_at_length; rewrite ?le_bytes_length; lia).
    rewrite put_each_ok by lia. cbn [obind]. rewrite put_slice_ok by (rewrite le_bytes_length; lia).
    cbn [obind]. rewrite put_each_ok by lia.
    f_equal. pose proof (le_bytes_length n v) as E. rewrite <- E at 2.
    rewrite app_assoc, <- (copy_at_copy_at page (a ++ le_bytes n v)), <- copy_at_copy_at
      by (rewrite ?length_app, ?le_bytes_length; lia).
    by rewrite length_app, Nat.add_assoc. }
  destruct kind; cbn [encode_stub stub_code] in *; rewrite ?mov_eax_bytes in *;
    try (rewrite put_slice_ok; [done|exact H]); try (rewrite put_each_ok; [done|exact H]);
    try (rewrite <- Hmid by exact H; cbn [length]; rewrite <- ?Nat.add_assoc; done).
  unfold copy_at. cbn. by rewrite Nat.add_0_r, take_drop.
Qed.

Definition is_padding (kind : StubKind) : bool := match kind with Padding => true | _ => false end.

(** The slots of sixteen bytes a stub takes. *)
Definition slots (kind : StubKind) : nat := (length (stub_code kind) + 15) / 16.
Arguments slots : simpl never.

(** From slot [i] on no stub crosses the end of its page, and the slots a stub
    takes after its first are padding. *)
Fixpoint fits (i : nat) (l : list StubKind) : bool :=
  match l with
  | [] => true
  | k :: l' =>
      (i mod 256 * 16 + length (stub_code k) <=? 4096)%nat && forallb is_padding (take (slots k - 1) l') &&
      fits (S i) l'
  end.

Lemma fits_at i l j k :
  fits i l = true → l !! j = Some k →
  ((i + j) mod 256 * 16 + length (stub_code k) ≤ 4096)%nat ∧
  ∀ d k', (0 < d < slots k)%nat → l !! (j + d)%nat = Some k' → k' = Padding.
Proof.
  revert i j. induction l as [|k0 l IH]; intros i j Hf Hj; [done|]. cbn [fits] in Hf. unbool.
  destruct j as [|j]; cbn in Hj.
  - injection Hj as ->. rewrite Nat.add_0_r. split; [lia|]. intros d k' Hd Hk. destruct d as [|d]; [lia|].
    cbn in Hk. match goal with H : forallb _ _ = true |- _ => rewrite forallb_forall in H; rename H into Hp end.
    assert (is_padding k' = true) as Hk' by (apply Hp, list_elem_of_In, (list_elem_of_lookup_2 _ d);
      by rewrite lookup_take_lt by lia).
    by destruct k'.
  - destruct (IH (S i) j) as [Ha Hb]; [done..|]. split; [by rewrite Nat.add_succ_r|].
    intros d k' Hd Hk. by apply (Hb d k').
Qed.

Lemma stubs_fit : fits 0 (STUBS.*2) = true.
Proof. vm_compute. reflexivity. Qed.

Lemma stub_in_page i name k :
  STUBS !! i = Some (name, k) → (i mod 256 * 16 + length (stub_code k) ≤ 4096)%nat.
Proof. intros H. apply (fits_at 0 (STUBS.*2) i k stubs_fit). by rewrite list_lookup_fmap, H. Qed.

Lemma stubs_apart i j ni ki nj kj :
  STUBS !! i = Some (ni, ki) → STUBS !! j = Some (nj, kj) → (i < j)%nat → stub_code kj ≠ [] →
  (16 * i + length (stub_code ki) ≤ 16 * j)%nat.
Proof.
  intros Hi Hj Hij Hne. destruct (fits_at 0 (STUBS.*2) i ki stubs_fit) as [_ H].
  { by rewrite list_lookup_fmap, Hi. }
  destruct (decide (j - i < slots ki)%nat) as [Hd|Hd].
  - destruct Hne. rewrite (H (j - i)%nat kj); [done|lia|].
    replace (i + (j - i))%nat with j by lia. by rewrite list_lookup_fmap, Hj.
  - unfold slots in Hd. pose proof (Nat.div_mod_eq (length (stub_code ki) + 15) 16).
    pose proof (Nat.mod_upper_bound (length (stub_code ki) + 15) 16). lia.
Qed.

Lemma stub_count : (length STUBS ≤ 512)%nat.
Proof. apply Nat.leb_le. vm_compute. reflexivity. Qed.

Lemma stub_code_ok k : bytes_ok (stub_code k).
Proof.
  assert (∀ bs, forallb (λ b, (0 <=? b) && (b <? 256)) bs = true → bytes_ok bs) as Hc.
  { intros bs H. rewrite forallb_forall in H. apply Forall_forall. intros b Hb.
    apply list_elem_of_In, H in Hb. unbool. unfold is_byte. lia. }
  destruct k; cbn [stub_code]; rewrite ?app_assoc; unfold bytes_ok; rewrite ?Forall_app;
    repeat split; try (apply le_bytes_ok); apply Hc; reflexivity.
Qed.

Lemma copy_at_app_l (a b c : bytes) off :
  (off + length c ≤ length a)%nat → copy_at (a ++ b) off c = copy_at a off c ++ b.
Proof.
  intros H. unfold copy_at. rewrite take_app_le, drop_app_le by lia. by rewrite <- !app_assoc.
Qed.

Lemma copy_at_app_r (a b c : bytes) off :
  (length a ≤ off)%nat → copy_at (a ++ b) off c = a ++ copy_at b (off - length a) c.
Proof.
  intros H. unfold copy_at. rewrite take_app_ge, drop_app_ge by lia. rewrite <- !app_assoc.
  do 4 f_equal. lia.
Qed.

Lemma encode_at_text i name k p0 p1 :
  STUBS !! i = Some (name, k) → length p0 = 4096%nat → length p1 = 4096%nat →
  ∃ q0 q1, encode_at i k (p0, p1) = Val (q0, q1) ∧ length q0 = 4096%nat ∧ length q1 = 4096%nat ∧
    q0 ++ q1 = copy_at (p0 ++ p1) (16 * i) (stub_code k).
Proof.
  intros Hi H0 H1. pose proof (stub_in_page _ _ _ Hi) as Hp. pose proof (lookup_lt_Some _ _ _ Hi).
  pose proof stub_count. pose proof (Nat.div_mod_eq i 256). unfold encode_at. cbn [fst snd].
  destruct (Nat.ltb_spec i 256).
  - rewrite encode_stub_ok by lia. eexists _, p1. split; [done|]. rewrite copy_at_length by lia.
    split; [done|split; [done|]]. rewrite copy_at_app_l by (rewrite Nat.mod_small in Hp by lia; lia).
    by rewrite Nat.mod_small, Nat.mul_comm by lia.
  - rewrite encode_stub_ok by lia. eexists p0, _. split; [done|]. rewrite copy_at_length by lia.
    split; [done|split; [done|]]. rewrite copy_at_app_r by lia. do 2 f_equal.
    pose proof (Nat.mod_upper_bound i 256). lia.
Qed.

(** All bytes of the stubs below [n] are in place. *)
Definition laid_out (n : nat) (pages : bytes * bytes) : Prop :=
  length pages.1 = 4096%nat ∧ length pages.2 = 4096%nat ∧ bytes_ok (pages.1 ++ pages.2) ∧
  ∀ i name k x, (i < n)%nat → STUBS !! i = Some (name, k) → (x < length (stub_code k))%nat →
    (pages.1 ++ pages.2) !! (16 * i + x)%nat = stub_code k !! x.

Lemma laid_out_step n name k pages :
  STUBS !! n = Some (name, k) → laid_out n pages →
  ∃ pages', encode_at n k pages = Val pages' ∧ laid_out (S n) pages'.
Proof.
  intros Hn (H0 & H1 & Hb & Hl). destruct pages as [p0 p1]. cbn [fst snd] in *.
  destruct (encode_at_text n name k p0 p1 Hn H0 H1) as (q0 & q1 & -> & E0 & E1 & Eq).
  eexists. split; [done|]. unfold laid_out. cbn [fst snd]. rewrite Eq.
  pose proof (stub_in_page _ _ _ Hn). pose proof (lookup_lt_Some _ _ _ Hn). pose proof stub_count.
  assert (16 * n + length (stub_code k) ≤ length (p0 ++ p1))%nat as Hlen.
  { rewrite length_app. pose proof (Nat.div_mod_eq n 256). pose proof (Nat.mod_upper_bound n 256). lia. }
  split; [done|split; [done|split]].
  - unfold copy_at, bytes_ok. apply Forall_app. split; [by apply Forall_take|].
    apply Forall_app. split; [apply stub_code_ok|by apply Forall_drop].
  - intros i nm ki x Hi Hki Hx. destruct (decide (i = n)) as [->|Hne].
    + rewrite Hn in Hki. injection Hki as <- <-. rewrite copy_at_lookup_in by lia. f_equal. lia.
    + rewrite copy_at_lookup_out; [by apply (Hl i nm); [lia|..]|done|].
      destruct (decide (stub_code k = [])) as [E|E]; [rewrite E in *; cbn; lia|].
      left. pose proof (stubs_apart i n nm ki name k Hki Hn ltac:(lia) E). lia.
Qed.

Lemma fill_stubs_laid_out : ∃ pages, fill_stubs = Val pages ∧ laid_out (length STUBS) pages.
Proof.
  unfold fill_stubs. apply (for_range_inv laid_out).
  - split; [done|split; [done|split]]; [|lia]. cbn [fst snd]. apply Forall_app.
    split; apply Forall_replicate; unfold is_byte; lia.
  - intros i pages [_ Hi] Hl. destruct (lookup_lt_is_Some_2 STUBS i) as [[name k] Hk]; [lia|].
    rewrite Hk. by apply laid_out_step with name.
Qed.

(** The two pages, one after the other. *)
Definition join_pages (r : outcome (bytes * bytes)) : bytes :=
  match r with Val (p0, p1) => p0 ++ p1 | Panic => [] end.
Definition text : bytes := join_pages fill_stubs.

Lemma text_length : length text = (2 * 4096)%nat.
Proof.
  unfold text. destruct fill_stubs_laid_out as ([p0 p1] & -> & H0 & H1 & _). cbn [join_pages].
  rewrite length_app. cbn in *. lia.
Qed.

Lemma text_stub i name k :
  STUBS !! i = Some (name, k) → ∃ rest, drop (16 * i) text = stub_code k ++ rest.
Proof.
  intros Hi. unfold text. destruct fill_stubs_laid_out as ([p0 p1] & -> & _ & _ & _ & H).
  cbn [fst snd join_pages] in *.
  set (t := p0 ++ p1) in *. exists (drop (length (stub_code k)) (drop (16 * i) t)).
  apply list_eq. intros x. destruct (decide (x < length (stub_code k))%nat).
  - rewrite lookup_drop, lookup_app_l by done. apply (H i name); [|done..]. by apply lookup_lt_Some in Hi.
  - rewrite lookup_app_r by lia. rewrite !lookup_drop. f_equal. lia.
Qed.

(** ** Symbols *)

Fixpoint distinct (l : list string) : bool :=
  match l with [] => true | x :: l' => forallb (λ y, negb (String.eqb x y)) l' && distinct l' end.

Lemma distinct_NoDup l : distinct l = true → NoDup l.
Proof.
  induction l as [|x l IH]; cbn; intros H; constructor; unbool; [|by apply IH].
  match goal with H : forallb _ _ = true |- _ => rewrite forallb_forall in H; rename H into Hx end.
  intros Hin. apply list_elem_of_In, Hx in Hin. by rewrite String.eqb_refl in Hin.
Qed.

Lemma symbols_distinct : NoDup (DATA_SYMS.*1 ++ STUBS.*1).
Proof. apply distinct_NoDup. vm_compute. reflexivity. Qed.

Lemma find_stub i name k : STUBS !! i = Some (name, k) → find_posix_symbol name = Some (stub_va i).
Proof.
  intros Hi. pose proof symbols_distinct as Hd. apply NoDup_app in Hd as (_ & Hx & Hn).
  assert (name ∈ STUBS.*1) as Hin.
  { apply (list_elem_of_lookup_2 _ i). by rewrite list_lookup_fmap, Hi. }
  unfold find_posix_symbol. destruct (find_first _ DATA_SYMS) as [[n va]|] eqn:E.
  - apply find_first_Some in E as [E1 E2]. cbn in E2. apply String.eqb_eq in E2 as ->.
    destruct (Hx name); [|done]. by apply (list_elem_of_fmap_2 fst) in E1.
  - destruct (position _ STUBS) as [j|] eqn:Ej; cbn.
    + apply position_Some in Ej as [([n kj] & Hj & Ej) _]. cbn in Ej. apply String.eqb_eq in Ej as ->.
      do 2 f_equal. apply (NoDup_lookup _ j i name Hn); by rewrite list_lookup_fmap, ?Hi, ?Hj.
    + rewrite position_None in Ej. apply (Forall_lookup_1 _ _ _ _ Ej) in Hi. cbn in Hi.
      by rewrite String.eqb_refl in Hi.
Qed.

(** ** Calling a stub *)

#[local] Opaque text.

Definition in_stubs : Z → bool := in_text TRAMPOLINE_PAGES_VA text.

Lemma in_stubs_range a : in_stubs a = true ↔ 0x7FFFE000 ≤ a < 0x80000000.
Proof.
  unfold in_stubs, in_text. rewrite text_length. change TRAMPOLINE_PAGES_VA with 0x7FFFE000.
  change (0x7FFFE000 + Z.of_nat (2 * 4096)) with 0x80000000. rewrite andb_true_iff, Z.leb_le, Z.ltb_lt. done.
Qed.

Lemma in_stubs_user a : in_stubs a = true → 0 ≤ a < 2 ^ 63.
Proof. rewrite in_stubs_range. lia. Qed.

Section calls.
(** The handlers of the kernel and the code of the process are parameters. *)
Context {L : Libm} (handlers : Z → Z → Z → Z → Z → Z → (Z → Z) → option Z)
  {D : Dispatcher (dispatch_fast handlers)} (user : cpu → option cpu).

Definition enter_kernel (s : cpu) : option cpu := syscall_entry in_stubs (syscall_hw s).

Definition run : cpu → cpu → Prop := reach TRAMPOLINE_PAGES_VA text enter_kernel user.

Lemma stub_fetch i name k off :
  STUBS !! i = Some (name, k) → (off < length (stub_code k))%nat →
  in_stubs (stub_va i + Z.of_nat off) = true ∧
  ∃ rest, fetch TRAMPOLINE_PAGES_VA text (stub_va i + Z.of_nat off) = decode (drop off (stub_code k) ++ rest).
Proof.
  intros Hi Hoff. destruct (text_stub i name k Hi) as [rest Hr].
  assert (16 * i + length (stub_code k) ≤ 2 * 4096)%nat as Hb.
  { rewrite <- text_length. apply (f_equal length) in Hr. rewrite length_drop, length_app in Hr.
    pose proof (lookup_lt_Some _ _ _ Hi). pose proof stub_count. rewrite text_length in *. lia. }
  unfold stub_va. split.
  - apply in_stubs_range. unfold TRAMPOLINE_PAGES_VA. lia.
  - exists rest. unfold fetch. f_equal.
    replace (Z.to_nat _) with (16 * i + off)%nat by (unfold TRAMPOLINE_PAGES_VA; lia).
    rewrite <- drop_drop, Hr. apply drop_app_le. lia.
Qed.

Lemma stub_va_range i name k : STUBS !! i = Some (name, k) → 0x7FFFE000 ≤ stub_va i < 0x80000000.
Proof.
  intros Hi. pose proof (lookup_lt_Some _ _ _ Hi). pose proof stub_count. unfold stub_va, TRAMPOLINE_PAGES_VA. lia.
Qed.

(** One instruction of a stub, [off] bytes into it. *)
Lemma stub_step i name k off ins n s s1 s' :
  STUBS !! i = Some (name, k) → rip s = stub_va i + Z.of_nat off → (off < length (stub_code k))%nat →
  (∀ rest, decode (drop off (stub_code k) ++ rest) = Some (ins, n)) → 0 ≤ n < 16 →
  ins ≠ X86Machine.Syscall → exec in_stubs ins (set_rip s (stub_va i + Z.of_nat off + n)) = Some s1 →
  run s1 s' → run s s'.
Proof.
  intros Hi Hrip Hoff Hd Hn Hs He. apply reach_step. unfold step. rewrite Hrip. fold in_stubs.
  destruct (stub_fetch i name k off Hi Hoff) as [-> [rest ->]]. rewrite Hd.
  pose proof (stub_va_range i name k Hi). pose proof (lookup_lt_Some _ _ _ Hi).
  rewrite u64_small.
  - by destruct ins.
  - destruct (stub_fetch i name k off Hi Hoff) as [Hin _]. apply in_stubs_range in Hin. lia.
Qed.

Ltac by_decision := refine (bool_decide_unpack _ _); vm_compute; exact I.

(** The run from [s] reaches a [syscall] instruction, and the entry routine calls
    [dispatch_fast] in the state [s1], with these arguments and the memory of the
    process. *)
Definition called (s s1 : cpu) (nr a0 a1 a2 a3 a4 : Z) : Prop :=
  (∃ s0, run s s0 ∧ fetch TRAMPOLINE_PAGES_VA text (rip s0) = Some (X86Machine.Syscall, 2) ∧
     exec_list in_stubs entry_save (syscall_hw (set_rip s0 (rip s0 + 2))) = Some s1 ∧
     (call_dispatch s1 = None → step TRAMPOLINE_PAGES_VA text enter_kernel user s0 = None)) ∧
  gpr s1 RDI = nr ∧ gpr s1 RSI = a0 ∧ gpr s1 RDX = a1 ∧ gpr s1 RCX = a2 ∧ gpr s1 R8 = a3 ∧ gpr s1 R9 = a4 ∧
  (∀ a, 0 ≤ a < 2 ^ 63 → mem s1 a = mem s a).

(** [dispatch_fast] has returned, in the state [s2]: its result is in [rax]. *)
Definition answered (s1 s2 t : cpu) : Prop :=
  mem t = mem s2 ∧ Some (gpr t RAX) =
    u64 <$> dispatch_fast handlers (gpr s1 RDI) (gpr s1 RSI) (gpr s1 RDX) (gpr s1 RCX) (gpr s1 R8) (gpr s1 R9) (mem s1).

(** Back at the return address on the stack. *)
Definition returned (s t : cpu) : Prop :=
  rip t = ld 8 (mem t) (gpr s RSP) ∧ gpr t RSP = u64 (gpr s RSP + 8).

Lemma entry_ok_with s g x v :
  entry_ok s → (∀ r, 0 ≤ g r < 2 ^ 64) → 0 ≤ v < 2 ^ 64 →
  entry_ok (mkCpu v g x (rflags s) (gs_base s) (kernel_gs_base s) (mem s)).
Proof. intros [] Hg Hv. by constructor. Qed.

(** From the [syscall] instruction, [off] bytes into a stub, reached with
    registers [g]. *)
Lemma kernel_call i name k off s g x :
  STUBS !! i = Some (name, k) → (off < length (stub_code k))%nat →
  (∀ rest, decode (drop off (stub_code k) ++ rest) = Some (X86Machine.Syscall, 2)) →
  entry_ok s → (∀ r, 0 ≤ g r < 2 ^ 64) →
  let s0 := mkCpu (stub_va i + Z.of_nat off) g x (rflags s) (gs_base s) (kernel_gs_base s) (mem s) in
  run s s0 →
  ∃ s1, called s s1 (g RAX) (g RDI) (g RSI) (g RDX) (g R10) (g R8) ∧
    ∀ s2, call_dispatch s1 = Some s2 →
    ∃ t, (∀ t', run t t' → run s t') ∧ answered s1 s2 t ∧ rip t = stub_va i + Z.of_nat off + 2 ∧
    (∀ r, r ≠ RAX → r ≠ RCX → r ≠ R11 → gpr t r = g r).
Proof.
  intros Hi Hoff Hd Hok Hg s0 Hrun. destruct (stub_fetch i name k off Hi Hoff) as [Hin [rest Hf]].
  apply in_stubs_range in Hin as Hin'. rewrite Hd in Hf.
  pose proof (entry_ok_with s g x (stub_va i + Z.of_nat off + 2) Hok Hg ltac:(lia)) as Hok'.
  destruct (syscall_entry_spec in_stubs in_stubs_user _ Hok') as (s1 & He & Hdi & Hret).
  pose proof Hdi as [(A0 & A1 & A2 & A3 & A4 & A5) _ _ _ Hu _ _]. cbn [gpr mem] in *.
  assert (step TRAMPOLINE_PAGES_VA text enter_kernel user s0 =
    enter_kernel (mkCpu (stub_va i + Z.of_nat off + 2) g x (rflags s) (gs_base s) (kernel_gs_base s) (mem s))) as Hst.
  { unfold step, s0. cbn [rip]. unfold in_stubs in Hin. rewrite Hin, Hf, u64_small by lia. done. }
  exists s1. split.
  - split; [|done]. exists s0. split; [done|]. split; [exact Hf|]. split; [exact He|].
    intros Hn. rewrite Hst. unfold enter_kernel, syscall_entry. rewrite He. cbn [mbind option_bind]. by rewrite Hn.
  - intros s2 Hs2. destruct (Hret s2 Hs2) as (t & Ht & Hrip & _ & Hrax & Hr & _ & _ & Hm). exists t.
    split; [|split; [|done]].
    + intros t' Ht'. unfold run in *. eapply reach_trans; [exact Hrun|]. eapply reach_step; [|exact Ht'].
      by rewrite Hst.
    + split; [done|]. by rewrite A0, A1, A2, A3, A4, A5.
Qed.

(** The instruction [ins] of [n] bytes, [off] bytes into a stub; [tac] finds
    its effect. *)
Ltac stub_instr Hi off ins n tac :=
  eapply (stub_step _ _ _ off ins n _ _ _ Hi);
  [norm; lia | cbn; lia | intros; reflexivity | lia | discriminate | tac; reflexivity | norm].

Lemma le_val_nr nr : 0 ≤ nr < 2 ^ 32 → wrap 32 (le_val (le_bytes 4 nr)) = nr.
Proof. intros H. rewrite le_val_bytes. unfold wrap. rewrite !Z.mod_small; [done|lia|]. rewrite Z.mod_small; lia. Qed.




(** The end of a mathematical stub: the number, the call, which returns, and the
    result. *)
Lemma math_tail_call i name k pre nr F s s' :
  STUBS !! i = Some (name, k) → stub_code k = pre ++ [0xB8] ++ le_bytes 4 nr ++ math_tail →
  (∀ x y z u v m, dispatch_fast handlers nr x y z u v m = Some (F x y z)) →
  0 ≤ nr < 2 ^ 32 → entry_ok s → rip s = stub_va i + Z.of_nat (length pre) →
  (∀ t, run s t → run s' t) →
  ∃ t, run s' t ∧ returned s t ∧ xmm t 0 = u64 (F (gpr s RDI) (gpr s RSI) (gpr s RDX)) ∧
    (∀ r, r ∉ [RAX; RCX; R11; RSP] → gpr t r = gpr s r).
Proof.
  intros Hi Hk HF Hnr Hok Hrip Hs'. pose proof (eo_regs _ Hok) as Hr. pose proof (stub_va_range _ _ _ Hi).
  assert (length (stub_code k) = length pre + 13)%nat as Hl.
  { rewrite Hk, !length_app, le_bytes_length. cbn. lia. }
  assert (∀ j, drop (length pre + j) (stub_code k) = drop j ([0xB8] ++ le_bytes 4 nr ++ math_tail)) as Hdr.
  { intros j. by rewrite Hk, drop_app_add. }
  destruct (kernel_call i name k (length pre + 5) s (upd (gpr s) RAX nr) (xmm s) Hi)
    as (s1 & (_ & A0 & A1 & A2 & A3 & A4 & A5 & _) & Hret);
    [lia|intros; rewrite Hdr; reflexivity|done|intros r; destruct r; cbn; lia || apply Hr| |].
  { eapply (stub_step _ _ _ (length pre + 0) (MovImm W32 (Reg RAX) (le_val (le_bytes 4 nr))) 5 _ _ _ Hi);
      [lia|lia|intros; rewrite Hdr; reflexivity|lia|discriminate|reflexivity|norm].
    rewrite le_val_nr by done.
    replace (stub_va i + Z.of_nat (length pre + 0) + 5) with (stub_va i + Z.of_nat (length pre + 5)) by lia.
    apply reach_refl. }
  cbn [upd reg_ix Z.eqb Pos.eqb] in A0, A1, A2, A3.
  pose proof (dispatch_result s1) as Hd. rewrite A0, HF, A1, A2, A3 in Hd.
  destruct (call_dispatch s1) as [s2|] eqn:Es2; [|discriminate].
  destruct (Hret s2 eq_refl) as (t & Ht & [Hm Hrax] & Hrt & Hrg).
  rewrite A0, HF, A1, A2, A3 in Hrax. cbn in Hrax. injection Hrax as Hrax.
  eexists. split.
  { apply Hs', Ht.
    eapply (stub_step _ _ _ (length pre + 7) (MovqToXmm 0 RAX) 5 _ _ _ Hi);
      [lia|lia|intros; rewrite Hdr; reflexivity|lia|discriminate|reflexivity|norm].
    eapply (stub_step _ _ _ (length pre + 12) Ret 1 _ _ _ Hi);
      [norm; lia|lia|intros; rewrite Hdr; reflexivity|lia|discriminate|reflexivity|norm].
    apply reach_refl. }
  norm. rewrite (Hrg RSP) by done. norm. split; [by split|]. norm. split; [exact Hrax|].
  intros r Hn. destruct r; try (refine (eq_trans (Hrg _ _ _ _) _); done || discriminate);
    destruct Hn; by_decision.
Qed.

(** The arms of [libm_call] agree with the stubs: the function has the name of
    the symbol and takes as many arguments as the stub passes. *)
Definition arity (a : libm_args) : nat := match a with D1 | F1 => 1 | D2 | F2 => 2 | D3 => 3 end.

Definition math_stub (k : StubKind) : option (nat * Z) :=
  match k with
  | MathSyscall1 nr => Some (1%nat, nr) | MathSyscall2 nr => Some (2%nat, nr)
  | MathSyscall3 nr => Some (3%nat, nr) | _ => None
  end.

Definition math_ok (e : string * StubKind) : bool :=
  match math_stub e.2 with
  | None => true
  | Some (n, nr) =>
      (LIBM_NR_LO <=? nr) && (nr <=? LIBM_NR_HI) &&
      match find_first (λ e : Z * (string * libm_args), e.1 =? nr) LIBM_ARMS with
      | Some (_, (f, a)) => String.eqb f e.1 && (arity a =? n)%nat
      | None => false
      end
  end.

Lemma math_stubs_ok : forallb math_ok STUBS = true.
Proof. vm_compute. reflexivity. Qed.

Definition stub_nr (k : StubKind) : Z :=
  match k with
  | Syscall nr | SyscallRetAsArg0 nr | MathSyscall1 nr | MathSyscall2 nr | MathSyscall3 nr => nr
  | _ => 0
  end.

Lemma stub_nrs_ok : forallb (λ e, (0 <=? stub_nr e.2) && (stub_nr e.2 <? 2 ^ 32)) STUBS = true.
Proof. vm_compute. reflexivity. Qed.

Lemma stub_nr_range i name k : STUBS !! i = Some (name, k) → 0 ≤ stub_nr k < 2 ^ 32.
Proof.
  intros Hi. pose proof stub_nrs_ok as H. rewrite forallb_forall in H. specialize (H (name, k)).
  apply list_elem_of_lookup_2, list_elem_of_In, H in Hi. unbool. cbn in *. lia.
Qed.

Lemma math_dispatch i name k n nr :
  STUBS !! i = Some (name, k) → math_stub k = Some (n, nr) →
  ∃ a, arity a = n ∧ ∀ x y z u v m, dispatch_fast handlers nr x y z u v m = Some (libm name (args_of a x y z)).
Proof.
  intros Hi Hk. pose proof math_stubs_ok as Hm. rewrite forallb_forall in Hm. specialize (Hm (name, k)).
  apply list_elem_of_lookup_2, list_elem_of_In, Hm in Hi. clear Hm.
  unfold math_ok in Hi. cbn [fst snd] in Hi. rewrite Hk in Hi.
  destruct (find_first _ LIBM_ARMS) as [[nr' [f a]]|] eqn:Ef; [|by rewrite andb_false_r in Hi]. unbool.
  exists a. split; [done|]. intros x y z u v m. unfold dispatch_fast, libm_call. rewrite Ef.
  rewrite (proj2 (Z.leb_le _ _)), (proj2 (Z.leb_le _ _)) by done. cbn [andb]. do 2 f_equal. by apply String.eqb_eq.
Qed.

(** From the state in front of the number, after the moves of the arguments. *)
Lemma math_call_from i name k nr a s pre g :
  STUBS !! i = Some (name, k) → entry_ok s →
  (∀ x y z u v m, dispatch_fast handlers nr x y z u v m = Some (libm name (args_of a x y z))) → stub_nr k = nr →
  stub_code k = pre ++ [0xB8] ++ le_bytes 4 nr ++ math_tail → (∀ r, 0 ≤ g r < 2 ^ 64) →
  args_of a (g RDI) (g RSI) (g RDX) = args_of a (xmm s 0) (xmm s 1) (xmm s 2) →
  (∀ r, callee_saved r = true → g r = gpr s r) →
  (∀ t, run (mkCpu (stub_va i + Z.of_nat (length pre)) g (xmm s) (rflags s) (gs_base s) (kernel_gs_base s)
               (mem s)) t → run s t) →
  ∃ t, run s t ∧ returned s t ∧ xmm t 0 = u64 (libm name (args_of a (xmm s 0) (xmm s 1) (xmm s 2))) ∧
    (∀ r, callee_saved r = true → r ≠ RSP → gpr t r = gpr s r).
Proof.
  intros Hi Hok Hd Hnr Hc Hg Hargs Hcs Hrun. pose proof (stub_nr_range _ _ _ Hi) as Hnr'.
  pose proof (stub_va_range _ _ _ Hi). pose proof (stub_in_page _ _ _ Hi) as Hin. rewrite Hc, length_app in Hin.
  destruct (math_tail_call i name k pre nr (λ x y z, libm name (args_of a x y z))
    (mkCpu (stub_va i + Z.of_nat (length pre)) g (xmm s) (rflags s) (gs_base s) (kernel_gs_base s) (mem s)) s Hi Hc Hd)
    as (t & Ht & [Hret1 Hret2] & Hx0 & Hgr); [lia| |done|exact Hrun|].
  { apply entry_ok_with; [done..|lia]. }
  cbn [gpr] in *. exists t. split; [exact Ht|]. rewrite (Hcs RSP) in * by done.
  split; [by split|]. rewrite Hx0, Hargs. split; [done|].
  intros r H1 H2. rewrite Hgr; [by apply Hcs|].
  destruct r; (discriminate || contradiction || by_decision).
Qed.

Lemma math_stub_call i name k n nr s :
  STUBS !! i = Some (name, k) → math_stub k = Some (n, nr) → entry_ok s →
  (∀ x, 0 ≤ xmm s x < 2 ^ 64) → rip s = stub_va i →
  ∃ t a, arity a = n ∧ run s t ∧ returned s t ∧
    xmm t 0 = u64 (libm name (args_of a (xmm s 0) (xmm s 1) (xmm s 2))) ∧
    (∀ r, callee_saved r = true → r ≠ RSP → gpr t r = gpr s r).
Proof.
  intros Hi Hk Hok Hx Hrip. pose proof (stub_va_range _ _ _ Hi). pose proof (eo_regs _ Hok) as Hr.
  destruct (math_dispatch i name k n nr Hi Hk) as (a & Ha & Hd).
  enough (∃ t, run s t ∧ returned s t ∧ xmm t 0 = u64 (libm name (args_of a (xmm s 0) (xmm s 1) (xmm s 2))) ∧
    (∀ r, callee_saved r = true → r ≠ RSP → gpr t r = gpr s r)) as [t Ht] by (by exists t, a).
  destruct k; try discriminate Hk; injection Hk as <- <-.
  - apply (math_call_from i name _ _ a s [0x66; 0x48; 0x0F; 0x7E; 0xC7] (upd (gpr s) RDI (xmm s 0)) Hi Hok Hd eq_refl eq_refl);
      [intros r; destruct r; cbn; apply Hr || apply Hx|by destruct a|by intros []|].
    intros t Ht. stub_instr Hi 0%nat (MovqFromXmm RDI 0) 5 idtac.
    by replace (stub_va i + Z.of_nat 0 + 5) with (stub_va i + Z.of_nat 5) by lia.
  - apply (math_call_from i name _ _ a s [0x66; 0x48; 0x0F; 0x7E; 0xC7; 0x66; 0x48; 0x0F; 0x7E; 0xCE]
      (upd (upd (gpr s) RDI (xmm s 0)) RSI (xmm s 1)) Hi Hok Hd eq_refl eq_refl);
      [intros r; destruct r; cbn; apply Hr || apply Hx|by destruct a|by intros []|].
    intros t Ht. stub_instr Hi 0%nat (MovqFromXmm RDI 0) 5 idtac.
    stub_instr Hi 5%nat (MovqFromXmm RSI 1) 5 idtac.
    by replace (stub_va i + Z.of_nat 5 + 5) with (stub_va i + Z.of_nat 10) by lia.
  - apply (math_call_from i name _ _ a s [0x66; 0x48; 0x0F; 0x7E; 0xC7; 0x66; 0x48; 0x0F; 0x7E; 0xCE; 0x66; 0x48; 0x0F; 0x7E; 0xD2]
      (upd (upd (upd (gpr s) RDI (xmm s 0)) RSI (xmm s 1)) RDX (xmm s 2)) Hi Hok Hd eq_refl eq_refl);
      [intros r; destruct r; cbn; apply Hr || apply Hx|by destruct a|by intros []|].
    intros t Ht. stub_instr Hi 0%nat (MovqFromXmm RDI 0) 5 idtac.
    stub_instr Hi 5%nat (MovqFromXmm RSI 1) 5 idtac. stub_instr Hi 10%nat (MovqFromXmm RDX 2) 5 idtac.
    by replace (stub_va i + Z.of_nat 10 + 5) with (stub_va i + Z.of_nat 15) by lia.
Qed.

(** ** [_setjmp] and [longjmp] *)

Record regs_ok (s : cpu) : Prop := {
  ro_regs : ∀ r, 0 ≤ gpr s r < 2 ^ 64;
  ro_mem : ∀ a, is_byte (mem s a)
}.

Lemma ld_range n m a : (∀ x, is_byte (m x)) → 0 ≤ ld n m a < 2 ^ (8 * Z.of_nat n).
Proof.
  intros H. unfold ld. pose proof (le_val_bounds (map (λ i, m (u64 (a + Z.of_nat i))) (seq 0 n))) as Hb.
  rewrite length_map, length_seq in Hb. apply Hb. apply Forall_forall. intros b Hb'.
  apply list_elem_of_In, in_map_iff in Hb' as (i & <- & _). apply H.
Qed.

(** What the jump buffer holds: the registers of the caller of [_setjmp], its
    stack pointer after the return and the return address. *)
Definition jmp_buf (s : cpu) : list (Z * Z) :=
  [(0, gpr s RBX); (8, u64 (gpr s RSP + 8)); (16, gpr s RBP); (24, gpr s R12); (32, gpr s R13);
   (40, gpr s R14); (48, gpr s R15); (56, ld 8 (mem s) (gpr s RSP))].

Lemma in_stubs_bounds a : in_stubs a = true → 0x7FFFE000 ≤ a < 0x80000000.
Proof. apply in_stubs_range. Qed.

(** A store of a register at [b + d], which is [a] by [H]. *)
Ltac store_at H Hr b d r a :=
  rewrite (exec_store_reg in_stubs _ _ in_stubs_bounds b d r _ a);
  [|norm; rewrite H, u64_small; lia|lia|lia|norm; first [apply Hr | apply u64_range | lia]].

Lemma setjmp_call i s buf :
  STUBS !! i = Some ("_setjmp", Setjmp) → rip s = stub_va i → regs_ok s → gpr s RDI = buf →
  buf + 64 ≤ 2 ^ 64 → buf + 64 ≤ 0x7FFFE000 ∨ 0x80000000 ≤ buf →
  gpr s RSP + 8 ≤ buf ∨ buf + 64 ≤ gpr s RSP → gpr s RSP + 8 ≤ 2 ^ 64 →
  ∃ t, run s t ∧ rip t = ld 8 (mem s) (gpr s RSP) ∧ gpr t RAX = 0 ∧ gpr t RSP = u64 (gpr s RSP + 8) ∧
    (∀ r, r ≠ RAX → r ≠ RSP → gpr t r = gpr s r) ∧ mem t = store_words (mem s) buf (jmp_buf s).
Proof.
  intros Hi Hrip [Hr Hm] Hbuf Hb1 Hb2 Hsp Hsp'. pose proof (stub_va_range _ _ _ Hi).
  pose proof (Hr RDI) as Hdi. pose proof (Hr RSP) as Hs. rewrite Hbuf in Hdi.
  set (m7 := store_words (mem s) buf (take 7 (jmp_buf s))).
  assert (ld 8 m7 (gpr s RSP) = ld 8 (mem s) (gpr s RSP)) as H7.
  { apply store_words_apart; [lia..| |]; repeat (apply Forall_cons_2; [cbn [fst snd]; lia|]); apply Forall_nil_2. }
  pose proof (ld_range 8 (mem s) (gpr s RSP) Hm) as Hra.
  eexists. split.
  { stub_instr Hi 0%nat (Mov W64 (reg_addr RDI 0) (Reg RBX)) 3 ltac:(store_at Hbuf Hr RDI 0 RBX (buf + 0)).
    stub_instr Hi 3%nat (Lea RAX (mkAddr false (Some RSP) None 8)) 5 ltac:(idtac).
    change (ea _ _) with (u64 (0 + gpr s RSP + 0 + 8)). rewrite Z.add_0_l, Z.add_0_r.
    stub_instr Hi 8%nat (Mov W64 (reg_addr RDI 8) (Reg RAX)) 4 ltac:(store_at Hbuf Hr RDI 8 RAX (buf + 8)).
    stub_instr Hi 12%nat (Mov W64 (reg_addr RDI 16) (Reg RBP)) 4 ltac:(store_at Hbuf Hr RDI 16 RBP (buf + 16)).
    stub_instr Hi 16%nat (Mov W64 (reg_addr RDI 24) (Reg R12)) 4 ltac:(store_at Hbuf Hr RDI 24 R12 (buf + 24)).
    stub_instr Hi 20%nat (Mov W64 (reg_addr RDI 32) (Reg R13)) 4 ltac:(store_at Hbuf Hr RDI 32 R13 (buf + 32)).
    stub_instr Hi 24%nat (Mov W64 (reg_addr RDI 40) (Reg R14)) 4 ltac:(store_at Hbuf Hr RDI 40 R14 (buf + 40)).
    stub_instr Hi 28%nat (Mov W64 (reg_addr RDI 48) (Reg R15)) 4 ltac:(store_at Hbuf Hr RDI 48 R15 (buf + 48)).
    change (st 8 _ (buf + 48) _) with m7.
    stub_instr Hi 32%nat (Mov W64 (Reg RAX) (reg_addr RSP 0)) 4
      ltac:(rewrite (exec_load_reg in_stubs RSP 0 RAX _ (gpr s RSP));
            [|norm; rewrite Z.add_0_r, u64_small; lia|norm; rewrite H7; exact Hra]).
    rewrite H7.
    stub_instr Hi 36%nat (Mov W64 (reg_addr RDI 56) (Reg RAX)) 4
      ltac:(store_at Hbuf Hr RDI 56 RAX (buf + 56)).
    stub_instr Hi 40%nat (Alu Xor W64 (Reg RAX) (Reg RAX)) 3 ltac:(rewrite exec_xor_self).
    stub_instr Hi 43%nat Ret 1 idtac. apply reach_refl. }
  norm. change (st 8 m7 _ _) with (store_words (mem s) buf (jmp_buf s)). split.
  - apply store_words_apart; [lia..| |]; repeat (apply Forall_cons_2; [cbn [fst snd]; lia|]); apply Forall_nil_2.
  - split_and!; try done. intros r ??. by destruct r.
Qed.

(** A load of [b + d], which is [a] by [H]; [W] is the word there. *)
Ltac load_at H Hr W b d r a :=
  rewrite (exec_load_reg in_stubs b d r _ a);
  [|norm; rewrite H, u64_small; lia|norm; rewrite W; first [apply Hr | apply u64_range]].

(** A buffer [_setjmp] has filled, as long as nobody writes to it. *)
Lemma jmp_buf_read s s1 t buf :
  regs_ok s → 0 ≤ buf → buf + 64 ≤ 2 ^ 64 → mem s1 = store_words (mem s) buf (jmp_buf s) →
  (∀ a, buf ≤ a < buf + 64 → mem t a = mem s1 a) → words_at (mem t) buf (jmp_buf s).
Proof.
  intros [Hr Hm] Hb Hb' Hs1 Ht. assert (Forall (λ w, 0 ≤ w.1 ≤ 56) (jmp_buf s)) as Hw
    by (repeat (apply Forall_cons_2; [cbn [fst]; lia|]); apply Forall_nil_2).
  pose proof (ld_range 8 (mem s) (gpr s RSP) Hm) as Hra.
  assert (words_at (mem s1) buf (jmp_buf s)) as H1.
  { unfold words_at. rewrite Hs1. apply store_words_read; [done| |].
    - repeat (apply Forall_cons_2; [cbn [fst snd]; split; [lia|first [apply Hr | apply u64_range | exact Hra]]|]).
      apply Forall_nil_2.
    - repeat first [apply SSorted_nil | apply SSorted_cons;
        [|repeat (apply Forall_cons_2; [cbn [fst]; lia|]); apply Forall_nil_2]]. }
  unfold words_at in *. rewrite Forall_forall in *. intros w Hin. rewrite <- (H1 w Hin). specialize (Hw w Hin).
  apply ld_ext. intros i Hi. rewrite u64_small by lia. apply Ht. lia.
Qed.

(** The registers [longjmp] has loaded in front of its last jump. *)
Definition jmp_regs (s t : cpu) : reg → Z :=
  upd (upd (upd (upd (upd (upd (upd (upd (upd (gpr t) RBX (gpr s RBX)) RSP (u64 (gpr s RSP + 8))) RBP (gpr s RBP))
    R12 (gpr s R12)) R13 (gpr s R13)) R14 (gpr s R14)) R15 (gpr s R15)) RDX (ld 8 (mem s) (gpr s RSP)))
    RAX (gpr t RSI).

Lemma longjmp_load i t s buf :
  STUBS !! i = Some ("longjmp", Longjmp) → rip t = stub_va i → regs_ok t → regs_ok s → gpr t RDI = buf →
  buf + 64 ≤ 2 ^ 64 → words_at (mem t) buf (jmp_buf s) →
  ∃ f, ∀ t1,
    run (mkCpu (stub_va i + Z.of_nat (if gpr t RSI =? 0 then 39 else 46)) (jmp_regs s t) (xmm t) f (gs_base t)
           (kernel_gs_base t) (mem t)) t1 → run t t1.
Proof.
  intros Hi Hrip [Hr Hm] [Hrs Hms] Hbuf Hb Hw. pose proof (stub_va_range _ _ _ Hi).
  pose proof (Hr RDI) as Hdi. rewrite Hbuf in Hdi. unfold words_at, jmp_buf in Hw.
  rewrite !Forall_cons in Hw. cbn [fst snd] in Hw. destruct Hw as (W0&W1&W2&W3&W4&W5&W6&W7&_).
  pose proof (ld_range 8 (mem s) (gpr s RSP) Hms) as Hra. eexists. intros t1 Ht1.
  stub_instr Hi 0%nat (Mov W64 (Reg RBX) (reg_addr RDI 0)) 3 ltac:(load_at Hbuf Hrs W0 RDI 0 RBX (buf + 0)).
  stub_instr Hi 3%nat (Mov W64 (Reg RSP) (reg_addr RDI 8)) 4 ltac:(load_at Hbuf Hrs W1 RDI 8 RSP (buf + 8)).
  stub_instr Hi 7%nat (Mov W64 (Reg RBP) (reg_addr RDI 16)) 4 ltac:(load_at Hbuf Hrs W2 RDI 16 RBP (buf + 16)).
  stub_instr Hi 11%nat (Mov W64 (Reg R12) (reg_addr RDI 24)) 4 ltac:(load_at Hbuf Hrs W3 RDI 24 R12 (buf + 24)).
  stub_instr Hi 15%nat (Mov W64 (Reg R13) (reg_addr RDI 32)) 4 ltac:(load_at Hbuf Hrs W4 RDI 32 R13 (buf + 32)).
  stub_instr Hi 19%nat (Mov W64 (Reg R14) (reg_addr RDI 40)) 4 ltac:(load_at Hbuf Hrs W5 RDI 40 R14 (buf + 40)).
  stub_instr Hi 23%nat (Mov W64 (Reg R15) (reg_addr RDI 48)) 4 ltac:(load_at Hbuf Hrs W6 RDI 48 R15 (buf + 48)).
  stub_instr Hi 27%nat (Mov W64 (Reg RDX) (reg_addr RDI 56)) 4 ltac:(load_at Hbuf Hra W7 RDI 56 RDX (buf + 56)).
  stub_instr Hi 31%nat (Mov W64 (Reg RAX) (Reg RSI)) 3 ltac:(rewrite exec_mov_reg by (norm; apply Hr)).
  stub_instr Hi 34%nat (Alu Test W64 (Reg RAX) (Reg RAX)) 3 ltac:(rewrite exec_test by (norm; apply Hr)).
  stub_instr Hi 37%nat (Jcc CNE 7) 2 ltac:(rewrite exec_jcc). rewrite holds_put.
  rewrite W0, W1, W2, W3, W4, W5, W6, W7.
  match goal with |- run (mkCpu ?v _ _ _ _ _ _) _ =>
    replace v with (stub_va i + Z.of_nat (if gpr t RSI =? 0 then 39 else 46)) end; [exact Ht1|].
  destruct (gpr t RSI =? 0); cbn [negb]; [lia|rewrite u64_small; lia].
Qed.

Lemma longjmp_call i t s buf :
  STUBS !! i = Some ("longjmp", Longjmp) → rip t = stub_va i → regs_ok t → regs_ok s → gpr t RDI = buf →
  buf + 64 ≤ 2 ^ 64 → words_at (mem t) buf (jmp_buf s) →
  ∃ t1, run t t1 ∧ rip t1 = ld 8 (mem s) (gpr s RSP) ∧ gpr t1 RSP = u64 (gpr s RSP + 8) ∧
    (∀ r, callee_saved r = true → r ≠ RSP → gpr t1 r = gpr s r) ∧
    gpr t1 RAX = (if gpr t RSI =? 0 then 1 else gpr t RSI) ∧ mem t1 = mem t.
Proof.
  intros Hi Hrip Ht Hs Hbuf Hb Hw. pose proof (stub_va_range _ _ _ Hi).
  destruct (longjmp_load i t s buf Hi Hrip Ht Hs Hbuf Hb Hw) as [f Hrun]. clear Hw.
  pose proof (ld_range 8 (mem s) (gpr s RSP) (ro_mem _ Hs)) as Hra. apply (wrap_small 64) in Hra.
  destruct (gpr t RSI =? 0); eexists; split.
  - apply Hrun. clear Hrun.
    stub_instr Hi 39%nat (MovImm W64 (Reg RAX) 1) 7 ltac:(cbn [exec put nbits]).
    stub_instr Hi 46%nat (Jmp (Reg RDX)) 2 idtac. apply reach_refl.
  - norm. unfold get. norm. cbn [nbits]. unfold jmp_regs. norm. rewrite Hra. split_and!; try done. by intros [].
  - apply Hrun. stub_instr Hi 46%nat (Jmp (Reg RDX)) 2 idtac. apply reach_refl.
  - norm. unfold get. norm. cbn [nbits]. unfold jmp_regs. norm. rewrite Hra. split_and!; try done. by intros [].
Qed.
End calls.

(** ** Results *)


(** The mathematical symbols compute the function of their name: the bits of the
    floating-point arguments reach the function of the same name and arity in
    the kernel, and the bits of its result are in the vector register the
    caller reads. *)
Theorem math_symbol_call {L : Libm} handlers {D : Dispatcher (dispatch_fast handlers)} user i name k n nr s :
  STUBS !! i = Some (name, k) → math_stub k = Some (n, nr) → entry_ok s → (∀ x, 0 ≤ xmm s x < 2 ^ 64) →
  rip s = stub_va i →
  find_posix_symbol name = Some (stub_va i) ∧
  ∃ t a, arity a = n ∧ run handlers user s t ∧ returned s t ∧
    xmm t 0 = u64 (libm name (args_of a (xmm s 0) (xmm s 1) (xmm s 2))) ∧
    (∀ r, callee_saved r = true → r ≠ RSP → gpr t r = gpr s r).
Proof.
  intros Hi Hk Hok Hx Hrip. split; [by apply find_stub with k|]. by apply math_stub_call with i k nr.
Qed.

(** C32: [longjmp] to a buffer [_setjmp] has filled and nobody has written since (the
    buffer lies outside the stubs and does not overlap the return address)
    returns a second time from that [_setjmp], with the same stack and the same
    callee-saved registers and the value passed, or one in place of zero. *)
Theorem setjmp_longjmp_roundtrip {L : Libm} handlers {D : Dispatcher (dispatch_fast handlers)} user i j s buf :
  STUBS !! i = Some ("_setjmp", Setjmp) → STUBS !! j = Some ("longjmp", Longjmp) → rip s = stub_va i →
  regs_ok s → gpr s RDI = buf → buf + 64 ≤ 2 ^ 64 → buf + 64 ≤ 0x7FFFE000 ∨ 0x80000000 ≤ buf →
  gpr s RSP + 8 ≤ buf ∨ buf + 64 ≤ gpr s RSP → gpr s RSP + 8 ≤ 2 ^ 64 →
  ∃ s1, run handlers user s s1 ∧ returned s s1 ∧ gpr s1 RAX = 0 ∧
    (∀ r, r ≠ RAX → r ≠ RSP → gpr s1 r = gpr s r) ∧ regs_ok s1 ∧
    ∀ t, rip t = stub_va j → regs_ok t → gpr t RDI = buf →
      (∀ a, buf ≤ a < buf + 64 → mem t a = mem s1 a) →
      ∃ t1, run handlers user t t1 ∧ rip t1 = rip s1 ∧ mem t1 = mem t ∧
        (∀ r, callee_saved r = true → gpr t1 r = gpr s1 r) ∧
        gpr t1 RAX = (if gpr t RSI =? 0 then 1 else gpr t RSI).
Proof.
  intros Hi Hj Hrip Hok Hbuf Hb1 Hb2 Hsp Hsp'. pose proof (ro_regs _ Hok) as Hr. pose proof (Hr RDI) as Hdi.
  destruct (setjmp_call handlers user i s buf) as (s1 & H1 & H2 & H3 & H4 & H5 & H6); [done..|].
  exists s1. split; [done|]. split.
  { split; [|done]. rewrite H2, H6. symmetry. apply store_words_apart; [lia|apply Hr|lia| |];
      repeat (apply Forall_cons_2; [cbn [fst snd]; lia|]); apply Forall_nil_2. }
  split; [done|split; [done|split]].
  { constructor; [|rewrite H6; apply store_words_bytes, Hok]. intros r.
    destruct (decide (r = RAX)) as [->|]; [lia|]. destruct (decide (r = RSP)) as [->|]; [rewrite H4; apply u64_range|].
    rewrite H5 by done. apply Hr. }
  intros t Ht Hok' Hdt Hm.
  destruct (longjmp_call handlers user j t s buf) as (t1 & K1 & K2 & K3 & K4 & K5 & K6); [done..| |].
  { apply jmp_buf_read with s1; [done|lia|lia|done|done]. }
  exists t1. split; [done|]. split; [congruence|]. split; [done|]. split; [|done].
  intros r Hc. destruct (decide (r = RSP)) as [->|Hne]; [congruence|].
  rewrite K4 by done. rewrite H5; [done| |done]. by intros ->.
Qed.

(** ** The data page *)

Definition page_of (r : outcome bytes) : bytes := match r with Val p => p | Panic => [] end.
Definition sysdata_page : bytes := page_of fill_sysdata.

Definition between (a b c : Z) : bool := (a <=? c) && (c <=? b).

(** The classes of a character in the C locale. *)
Definition is_upper (c : Z) : bool := between 65 90 c.
Definition is_lower (c : Z) : bool := between 97 122 c.
Definition is_digit (c : Z) : bool := between 48 57 c.
Definition is_alnum (c : Z) : bool := is_upper c || is_lower c || is_digit c.
Definition is_graph (c : Z) : bool := between 33 126 c.

Definition ctype_class (c : Z) : Z :=
  foldr Z.lor 0 (map (λ e : bool * Z, if e.1 then e.2 else 0)
    [(is_upper c, ISupper); (is_lower c, ISlower); (is_upper c || is_lower c, ISalpha);
     (is_digit c, ISdigit); (is_digit c || between 65 70 c || between 97 102 c, ISxdigit);
     (between 9 13 c || (c =? 32), ISspace); (is_graph c || (c =? 32), ISprint); (is_graph c, ISgraph);
     ((c =? 9) || (c =? 32), ISblank); (between 0 31 c || (c =? 127), IScntrl);
     (is_graph c && negb (is_alnum c), ISpunct); (is_alnum c, ISalnum)]).

(** [n] bytes of the page at an address, as a program reads them. *)
Definition peek (n : nat) (page : bytes) (va : Z) : Z :=
  le_val (slice page (Z.to_nat (va - SYSDATA_VA)) (Z.to_nat (va - SYSDATA_VA) + n)).

Definition ctype_ok (page : bytes) (c : Z) : bool :=
  (peek 2 page (peek 8 page SD_CTYPE_B_PTR + 2 * c) =? ctype_class c) &&
  (peek 4 page (peek 8 page SD_CTYPE_LO_PTR + 4 * c) =?
     if c <? 0 then 0 else if is_upper c then c + 32 else c) &&
  (peek 4 page (peek 8 page SD_CTYPE_UP_PTR + 4 * c) =?
     if c <? 0 then 0 else if is_lower c then c - 32 else c).

Lemma ctype_ok_true page c :
  ctype_ok page c = true →
  peek 2 page (peek 8 page SD_CTYPE_B_PTR + 2 * c) = ctype_class c ∧
  peek 4 page (peek 8 page SD_CTYPE_LO_PTR + 4 * c) =
    (if c <? 0 then 0 else if is_upper c then c + 32 else c) ∧
  peek 4 page (peek 8 page SD_CTYPE_UP_PTR + 4 * c) =
    (if c <? 0 then 0 else if is_lower c then c - 32 else c).
Proof. unfold ctype_ok. rewrite !andb_true_iff, !Z.eqb_eq. tauto. Qed.

Definition sysdata_ok (o : outcome bytes) : bool :=
  match o with
  | Val page =>
      (length page =? 4096)%nat && forallb (λ b, (0 <=? b) && (b <? 256)) page &&
      forallb (ctype_ok page) (zrange (-128) 255)
  | Panic => false
  end.

Lemma sysdata_checked : sysdata_ok fill_sysdata = true.
Proof. vm_compute. reflexivity. Qed.

Lemma sysdata_filled : fill_sysdata = Val sysdata_page ∧ sysdata_ok (Val sysdata_page) = true.
Proof.
  pose proof sysdata_checked as H. unfold sysdata_page. destruct fill_sysdata as [p|]; [done|discriminate].
Qed.

#[local] Opaque fill_sysdata sysdata_page fill_stubs.

(** The pages every process gets are pages: building them never leaves their
    bounds, and each is 4096 bytes. *)
Theorem posix_pages_well_typed :
  ∃ p0 p1 sd, fill_stubs = Val (p0, p1) ∧ fill_sysdata = Val sd ∧
    (length p0 = 4096 ∧ length p1 = 4096 ∧ length sd = 4096)%nat ∧ bytes_ok (p0 ++ p1) ∧ bytes_ok sd.
Proof.
  destruct fill_stubs_laid_out as ([p0 p1] & H & H0 & H1 & H2 & _).
  destruct sysdata_filled as [Hs Hok]. exists p0, p1, sysdata_page. unfold sysdata_ok in Hok. unbool.
  match goal with H : forallb _ sysdata_page = true |- _ => rewrite forallb_forall in H; rename H into Hb end.
  split; [exact H|]. split; [exact Hs|]. split.
  { match goal with H : length sysdata_page = _ |- _ => exact (conj H0 (conj H1 H)) end. }
  split; [exact H2|].
  apply Forall_forall. intros b Hin. apply list_elem_of_In, Hb in Hin. unbool. unfold is_byte. lia.
Qed.

(** The character tables a program reaches through the pointers of the data page
    hold the classes and the case mappings of the C locale, for every character
    from -128 to 255; the case mappings of the negative ones, and with them of
    the end-of-file mark, are zero. *)
Theorem ctype_tables_c_locale c :
  -128 ≤ c ≤ 255 →
  peek 2 sysdata_page (peek 8 sysdata_page SD_CTYPE_B_PTR + 2 * c) = ctype_class c ∧
  peek 4 sysdata_page (peek 8 sysdata_page SD_CTYPE_LO_PTR + 4 * c) =
    (if c <? 0 then 0 else if is_upper c then c + 32 else c) ∧
  peek 4 sysdata_page (peek 8 sysdata_page SD_CTYPE_UP_PTR + 4 * c) =
    (if c <? 0 then 0 else if is_lower c then c - 32 else c).
Proof.
  intros Hc. apply ctype_ok_true. destruct sysdata_filled as [_ Hok]. unfold sysdata_ok in Hok.
  apply andb_true_iff in Hok as [_ Hok]. rewrite forallb_forall in Hok.
  apply Hok, list_elem_of_In, elem_of_zrange. exact Hc.
Qed.

(** ** A concrete machine *)

Definition sample_libm : Libm := λ _ args, nth 0 args 0.
(** Calls of [malloc] return, all others do not. *)
Definition sample_handlers (nr a0 a1 a2 a3 a4 : Z) (m : Z → Z) : option Z :=
  if nr =? 0x3A0 then Some (nr + a0) else None.

Definition sample_dispatcher : Dispatcher (dispatch_fast (L := sample_libm) sample_handlers).
Proof.
  refine {| call_dispatch s := (λ v, set_gpr s RAX (u64 v)) <$>
    dispatch_fast (L := sample_libm) sample_handlers (gpr s RDI) (gpr s RSI) (gpr s RDX) (gpr s RCX)
      (gpr s R8) (gpr s R9) (mem s) |}.
  - intros s. by destruct (dispatch_fast _ _ _ _ _ _ _).
  - intros s t r. destruct (dispatch_fast _ _ _ _ _ _ _); [|done]. intros [= <-]. by destruct r.
  - intros s t. destruct (dispatch_fast _ _ _ _ _ _ _); [|done]. by intros [= <-].
  - intros s t n a. destruct (dispatch_fast _ _ _ _ _ _ _); [|done]. by intros [= <-].
Defined.

(** A processor with its scratch area and kernel stack, and user memory [m]. *)
Definition sample_cpu (va : Z) (g : reg → Z) (m : Z → Z) : cpu :=
  mkCpu va g (λ x, x mod 2 ^ 64) 0x202 0 (2 ^ 63) (st 8 m (2 ^ 63 + 24) (2 ^ 63 + 4096)).

Lemma sample_entry_ok va g m :
  0 ≤ va < 2 ^ 64 → (∀ r, 0 ≤ g r < 2 ^ 64) → entry_ok (sample_cpu va g m).
Proof.
  intros Hva Hg. constructor; cbn [sample_cpu rip gpr rflags kernel_gs_base mem]; try done;
    try rewrite ld_st8 by lia; lia.
Qed.

Definition sample_regs (r : reg) : Z := match r with RSP => 0x1000 | RDI => 0x2000 | _ => 7 end.

Lemma sample_regs_ok r : 0 ≤ sample_regs r < 2 ^ 64.
Proof. by destruct r. Qed.

(** The places of some symbols in the table. *)
Lemma sample_places :
  STUBS !! 0%nat = Some ("malloc", Syscall 0x3A0) ∧ STUBS !! 331%nat = Some ("pow", MathSyscall2 0x4D9) ∧
  STUBS !! 396%nat = Some ("_setjmp", Setjmp) ∧ STUBS !! 399%nat = Some ("longjmp", Longjmp) ∧
  STUBS !! 387%nat = Some ("qsort", Qsort).
Proof. by vm_compute. Qed.


Lemma math_symbol_call_witness :
  let s := sample_cpu (stub_va 331) sample_regs (λ _, 0) in
  find_posix_symbol "pow" = Some (rip s) ∧
  ∃ t, run (L := sample_libm) (D := sample_dispatcher) sample_handlers (λ _, None) s t ∧ returned s t.
Proof.
  destruct (math_symbol_call (L := sample_libm) (D := sample_dispatcher) sample_handlers (λ _, None) 331 "pow" _ 2 _
    (sample_cpu (stub_va 331) sample_regs (λ _, 0)) (proj1 (proj2 sample_places)) eq_refl)
    as (Hf & t & a & _ & Ht & Hret & _);
    [apply sample_entry_ok; [by vm_compute|apply sample_regs_ok]|intros x; apply u64_range|reflexivity|].
  split; [exact Hf|]. exists t. split; [exact Ht|exact Hret].
Defined.

Lemma setjmp_longjmp_roundtrip_witness :
  ∃ s1 t1, run (L := sample_libm) (D := sample_dispatcher) sample_handlers (λ _, None)
      (sample_cpu (stub_va 396) sample_regs (λ _, 0)) s1 ∧ gpr s1 RAX = 0 ∧
    run (L := sample_libm) (D := sample_dispatcher) sample_handlers (λ _, None)
      (mkCpu (stub_va 399) sample_regs (xmm s1) (rflags s1) 0 0 (mem s1)) t1 ∧
    rip t1 = rip s1 ∧ gpr t1 RAX = 7.
Proof.
  destruct (setjmp_longjmp_roundtrip (L := sample_libm) (D := sample_dispatcher) sample_handlers (λ _, None) 396 399
    (sample_cpu (stub_va 396) sample_regs (λ _, 0)) 0x2000
    (proj1 (proj2 (proj2 sample_places))) (proj1 (proj2 (proj2 (proj2 sample_places)))) eq_refl)
    as (s1 & H1 & H2 & H3 & _ & [_ Hm] & H5); [|cbn; first [reflexivity | lia]..|].
  { constructor; [apply sample_regs_ok|]. intros a. apply st_bytes. unfold is_byte. lia. }
  destruct (H5 (mkCpu (stub_va 399) sample_regs (xmm s1) (rflags s1) 0 0 (mem s1))) as (t1 & K1 & K2 & _ & _ & K5);
    [reflexivity|constructor; [apply sample_regs_ok|exact Hm]|reflexivity|reflexivity|].
  exists s1, t1. split; [exact H1|split; [exact H3|split; [exact K1|split; [exact K2|exact K5]]]].
Defined.
End Trampolines.
