(* ===== verification/Qsort.v ===== *)
(** * The sort of the stubs ([process/posix_trampolines.rs])

    [qsort] is not a system call: its stub is machine code, an insertion sort
    that calls the comparison function of the program.  Here that code is
    executed instruction by instruction on the machine of [X86Machine], with an
    arbitrary comparison function that keeps the calling convention, and shown
    to terminate and to sort. *)

From Stdlib Require Import ZArith Lia Sorting.Sorted.
From stdpp Require Import base numbers strings option relations list sorting.
From S2P Require Import Prelude X86Machine SyscallEntry Trampolines.

Local Open Scope Z_scope.

Module Qsort.
Import X86Machine SyscallEntry Trampolines.

(** ** The algorithm on lists *)

Section algorithm.
(** [lt x y]: the comparison of [x] with [y] is negative. *)
Context {A : Type} `{!Inhabited A} (lt : A → A → bool).

Definition swap (j : nat) (l : list A) : list A := <[j := l !!! pred j]> (<[pred j := l !!! j]> l).

(** Move the element at [j] down while it is less than the one before it. *)
Fixpoint sink (j : nat) (l : list A) : list A :=
  match j with
  | O => l
  | S j' => if lt (l !!! j) (l !!! j') then sink j' (swap j l) else l
  end.

(** The rounds [i], [i + 1], ... of the outer loop. *)
Fixpoint rounds (i k : nat) (l : list A) : list A :=
  match k with O => l | S k' => rounds (S i) k' (sink i l) end.

Definition insertion_sort (l : list A) : list A := rounds 1 (pred (length l)) l.

Lemma swap_length j l : length (swap j l) = length l.
Proof. unfold swap. by rewrite !length_insert. Qed.

Lemma sink_length j l : length (sink j l) = length l.
Proof. revert l. induction j as [|j IH]; intros l; cbn [sink]; [done|]. case_if; [|done]. by rewrite IH, swap_length. Qed.

Lemma rounds_length i k l : length (rounds i k l) = length l.
Proof. revert i l. induction k as [|k IH]; intros i l; cbn [rounds]; [done|]. by rewrite IH, sink_length. Qed.

Lemma swap_app p x y q : swap (S (length p)) (p ++ y :: x :: q) = p ++ x :: y :: q.
Proof.
  assert (∀ a b, p ++ a :: b :: q = (p ++ [a]) ++ b :: q) as Hc by (intros; by rewrite <- app_assoc).
  assert (∀ a, S (length p) = length (p ++ [a])) as Hl by (intros; rewrite length_app; cbn; lia).
  assert (∀ (p : list A) a b r, <[length p := b]> (p ++ a :: r) = p ++ b :: r) as Hi
    by (intros p' a b r; rewrite <- (Nat.add_0_r (length p')); exact (insert_app_r p' (a :: r) 0 b)).
  unfold swap. cbn [pred]. rewrite (list_lookup_total_middle p (x :: q) y) by done.
  rewrite (Hc y x) at 1. rewrite (list_lookup_total_middle (p ++ [y])) by apply Hl.
  rewrite Hi, (Hc x x), (Hl x), Hi. by rewrite <- app_assoc.
Qed.

(** Sinking an element past a prefix. *)
Lemma sink_app p y x q :
  sink (S (length p)) ((p ++ [y]) ++ x :: q) =
    if lt x y then sink (length p) (p ++ x :: y :: q) else (p ++ [y]) ++ x :: q.
Proof.
  cbn [sink]. rewrite (list_lookup_total_middle (p ++ [y])) by (rewrite length_app; cbn; lia).
  rewrite <- app_assoc. cbn [app]. rewrite (list_lookup_total_middle p) by done. by rewrite swap_app.
Qed.

(** Whatever the comparison says, no element is lost. *)
Lemma sink_perm j l : (j < length l)%nat → sink j l ≡ₚ l.
Proof.
  intros Hj. destruct (lookup_lt_is_Some_2 l j Hj) as [x Hx]. apply list_elem_of_split_length in Hx as (p & s & -> & ->).
  clear Hj. revert x s. induction p as [|y p IH] using rev_ind; intros x s; [done|].
  rewrite length_app, Nat.add_1_r, sink_app. case_if; [|done]. rewrite IH, <- app_assoc.
  apply Permutation_app_head. constructor.
Qed.

Lemma rounds_perm i k l : (i + k ≤ length l)%nat → rounds i k l ≡ₚ l.
Proof.
  revert i l. induction k as [|k IH]; intros i l Hk; cbn [rounds]; [done|].
  rewrite IH by (rewrite sink_length; lia). apply sink_perm. lia.
Qed.

Lemma insertion_sort_perm l : insertion_sort l ≡ₚ l.
Proof. unfold insertion_sort. destruct l as [|x l]; [done|]. apply rounds_perm. cbn. lia. Qed.

(** The order of the comparison: [x] may stand before [y]. *)
Definition le (x y : A) : Prop := lt y x = false.
Definition equivalent (z y : A) : bool := negb (lt z y) && negb (lt y z).

Context (Hasym : ∀ x y, lt x y = true → le x y) (Htrans : ∀ x y z, le x y → le y z → le x z).

Lemma filter_swap z x y :
  lt x y = true → filter (λ a, equivalent z a = true) [x; y] = filter (λ a, equivalent z a = true) [y; x].
Proof.
  intros Hlt. cbn. unfold equivalent. repeat case_decide; try done. unbool.
  assert (le y x) as Hle by (apply Htrans with z; unfold le; done). unfold le in Hle. congruence.
Qed.

Lemma sink_sorted p x q :
  StronglySorted le p →
  ∃ p', sink (length p) (p ++ x :: q) = p' ++ q ∧ p' ≡ₚ p ++ [x] ∧ StronglySorted le p' ∧
    ∀ z, filter (λ a, equivalent z a = true) p' = filter (λ a, equivalent z a = true) (p ++ [x]).
Proof.
  revert x q. induction p as [|y p IH] using rev_ind; intros x q Hs.
  { exists [x]. cbn. split_and!; try done. repeat constructor. }
  apply StronglySorted_app in Hs as (Hcross & Hp & _).
  rewrite length_app, Nat.add_1_r, sink_app. destruct (lt x y) eqn:Hlt.
  - destruct (IH x (y :: q) Hp) as (p' & E & Hperm & Hs' & Hf). exists (p' ++ [y]).
    rewrite E, <- !app_assoc. cbn [app]. split; [done|]. split.
    { rewrite Hperm, <- app_assoc. cbn [app]. apply Permutation_app_head. constructor. }
    split.
    + apply StronglySorted_app_2; [|done|repeat constructor]. intros a b Ha Hb.
      apply list_elem_of_singleton in Hb as ->. rewrite Hperm, elem_of_app, list_elem_of_singleton in Ha.
      destruct Ha as [Ha| ->]; [|by apply Hasym]. by apply Hcross; [|apply list_elem_of_singleton].
    + intros z. rewrite filter_app, Hf, !filter_app, <- app_assoc. f_equal.
      rewrite <- !filter_app. by apply filter_swap.
  - exists ((p ++ [y]) ++ [x]). split; [by rewrite <- !app_assoc|]. split; [done|]. split; [|done].
    apply StronglySorted_app_2; [| |repeat constructor].
    + intros a b Ha Hb. apply list_elem_of_singleton in Hb as ->.
      rewrite elem_of_app, list_elem_of_singleton in Ha. destruct Ha as [Ha| ->]; [|done].
      apply Htrans with y; [|done]. by apply Hcross; [|apply list_elem_of_singleton].
    + apply StronglySorted_app_2; [done|done|repeat constructor].
Qed.

Lemma rounds_sorted p q :
  StronglySorted le p →
  ∃ r, rounds (length p) (length q) (p ++ q) = r ∧ r ≡ₚ p ++ q ∧ StronglySorted le r ∧
    ∀ z, filter (λ a, equivalent z a = true) r = filter (λ a, equivalent z a = true) (p ++ q).
Proof.
  revert p. induction q as [|x q IH]; intros p Hp; cbn [length rounds].
  { rewrite app_nil_r. by exists p. }
  destruct (sink_sorted p x q Hp) as (p' & -> & Hperm & Hs & Hf).
  assert (length p' = S (length p)) as Hl by (rewrite Hperm, length_app; cbn; lia).
  rewrite <- Hl. destruct (IH p' Hs) as (r & Er & Hr & Hrs & Hrf). exists r. split; [done|].
  split; [by rewrite Hr, Hperm, <- app_assoc|]. split; [done|].
  intros z. rewrite Hrf, !filter_app, Hf, !filter_app, <- app_assoc. by rewrite <- (filter_app _ [x] q).
Qed.

(** Insertion sort sorts, keeps the elements and the order of equivalent ones. *)
Lemma insertion_sort_sorted l :
  insertion_sort l ≡ₚ l ∧ StronglySorted le (insertion_sort l) ∧
  ∀ z, filter (λ a, equivalent z a = true) (insertion_sort l) = filter (λ a, equivalent z a = true) l.
Proof.
  destruct l as [|x l]; [by repeat constructor|].
  destruct (rounds_sorted [x] l) as (r & <- & H); [repeat constructor|]. exact H.
Qed.
End algorithm.

(** ** The machine code *)

(** The element at [a] and the array at [base]. *)
Definition elem (size : Z) (m : Z → Z) (a : Z) : bytes :=
  map (λ i, m (a + Z.of_nat i)) (seq 0 (Z.to_nat size)).
Definition array (n size base : Z) (m : Z → Z) : list bytes :=
  map (λ k, elem size m (base + Z.of_nat k * size)) (seq 0 (Z.to_nat n)).

Lemma elem_ext size m m' a a' :
  (∀ i, 0 ≤ i < size → m (a + i) = m' (a' + i)) → elem size m a = elem size m' a'.
Proof. intros H. apply map_ext_in. intros i Hi. apply in_seq in Hi. apply H. lia. Qed.

Section machine.
Context {L : Libm} (handlers : Z → Z → Z → Z → Z → Z → (Z → Z) → option Z)
  {D : Dispatcher (dispatch_fast handlers)} (user : cpu → option cpu).

Notation run := (run handlers user).

(** The call: the arguments [base], [n], [size] and the comparison function
    are in the registers of [s0]; the stack may be used down to [stack_lo]. *)
Context (s0 : cpu) (stack_lo : Z).

Notation n := (gpr s0 RSI).
Notation size := (gpr s0 RDX).
Notation base := (gpr s0 RDI).
Notation cmpf := (gpr s0 RCX).
Notation sp0 := (gpr s0 RSP).

(** The array, the stack and the stubs are apart in the user half. *)
Record callable : Prop := {
  ca_entry : entry_ok s0;
  ca_bytes : ∀ a, is_byte (mem s0 a);
  ca_array : base + n * size ≤ 2 ^ 63;
  ca_stack : 0 ≤ stack_lo ∧ stack_lo + 56 ≤ sp0 ∧ sp0 + 8 ≤ 2 ^ 63;
  ca_apart : base + n * size ≤ stack_lo ∨ sp0 + 8 ≤ base;
  ca_array_stubs : base + n * size ≤ 0x7FFFE000 ∨ 0x80000000 ≤ base;
  ca_stack_stubs : sp0 + 8 ≤ 0x7FFFE000 ∨ 0x80000000 ≤ stack_lo
}.

(** Memory of the process that is neither array nor stack below the call. *)
Definition outside (a : Z) : Prop :=
  0 ≤ a < 2 ^ 63 ∧ ¬ (base ≤ a < base + n * size) ∧ ¬ (stack_lo ≤ a < sp0).

Definition in_array (a : Z) : Prop := ∃ k, 0 ≤ k < n ∧ a = base + k * size.

(** What the comparison function is called with, and its contract: it returns
    with the registers a callee has to keep and writes to no memory of the
    process but its part of the stack; the sign of the result, an [int], says
    whether the first argument is less. *)
Record compared (s : cpu) : Prop := {
  cs_rip : rip s = cmpf;
  cs_entry : entry_ok s;
  cs_bytes : ∀ a, is_byte (mem s a);
  cs_gs : gs_base s = gs_base s0 ∧ kernel_gs_base s = kernel_gs_base s0;
  cs_sp : gpr s RSP = sp0 - 56;
  cs_args : in_array (gpr s RDI) ∧ in_array (gpr s RSI);
  cs_mem : ∀ a, outside a → mem s a = mem s0 a
}.

Definition compares (lt : bytes → bytes → bool) : Prop := ∀ s, compared s →
  ∃ t, run s t ∧ rip t = ld 8 (mem s) (gpr s RSP) ∧ gpr t RSP = gpr s RSP + 8 ∧
    (∀ r, callee_saved r = true → r ≠ RSP → gpr t r = gpr s r) ∧
    (∀ a, 0 ≤ a < 2 ^ 63 → ¬ (stack_lo ≤ a < gpr s RSP) → mem t a = mem s a) ∧
    entry_ok t ∧ (∀ a, is_byte (mem t a)) ∧ gs_base t = gs_base s ∧ kernel_gs_base t = kernel_gs_base s ∧
    Z.testbit (gpr t RAX) 31 = lt (elem size (mem s) (gpr s RDI)) (elem size (mem s) (gpr s RSI)).

(** The frame of the routine: the registers it saves and its return address. *)
Definition frame : list (Z * Z) :=
  [(0, gpr s0 R15); (8, gpr s0 R14); (16, gpr s0 R13); (24, gpr s0 R12); (32, gpr s0 RBP); (40, gpr s0 RBX);
   (48, ld 8 (mem s0) sp0)].

(** The state between its instructions, with the array [l]. *)
Record sorting (l : list bytes) (t : cpu) : Prop := {
  so_entry : entry_ok t;
  so_bytes : ∀ a, is_byte (mem t a);
  so_gs : gs_base t = gs_base s0 ∧ kernel_gs_base t = kernel_gs_base s0;
  so_regs : gpr t R12 = base ∧ gpr t R13 = n ∧ gpr t R14 = size ∧ gpr t R15 = cmpf ∧ gpr t RSP = sp0 - 48;
  so_frame : words_at (mem t) (sp0 - 48) frame;
  so_array : array n size base (mem t) = l;
  so_rest : ∀ a, outside a → mem t a = mem s0 a
}.

Context (Hca : callable).

Lemma call_ranges : (∀ r, 0 ≤ gpr s0 r < 2 ^ 64) ∧ 0 ≤ n * size.
Proof.
  pose proof (eo_regs _ (ca_entry Hca)) as Hr. split; [done|].
  apply Z.mul_nonneg_nonneg; apply Hr.
Qed.

Lemma element_range k : 0 ≤ k < n → base ≤ base + k * size ∧ base + k * size + size ≤ base + n * size.
Proof. intros H. destruct call_ranges as [Hr _]. pose proof (Hr RDX). nia. Qed.

Lemma array_ext m m' :
  (∀ a, base ≤ a < base + n * size → m a = m' a) → array n size base m = array n size base m'.
Proof.
  intros H. apply map_ext_in. intros k Hk. apply in_seq in Hk. apply elem_ext. intros i Hi. apply H.
  pose proof (element_range (Z.of_nat k) ltac:(lia)). lia.
Qed.

(** Writing to the free part of the stack and to registers keeps the state. *)
Lemma sorting_kept l s t :
  sorting l s → (∀ a, 0 ≤ a < 2 ^ 63 → ¬ (stack_lo ≤ a < sp0 - 48) → mem t a = mem s a) → entry_ok t →
  (∀ a, is_byte (mem t a)) → gs_base t = gs_base s → kernel_gs_base t = kernel_gs_base s →
  gpr t R12 = gpr s R12 → gpr t R13 = gpr s R13 → gpr t R14 = gpr s R14 → gpr t R15 = gpr s R15 →
  gpr t RSP = gpr s RSP → sorting l t.
Proof.
  intros [He Hb [Hg1 Hg2] (H12 & H13 & H14 & H15 & Hsp) Hf Ha Ho] Hm ?????????.
  destruct call_ranges as [Hr Hn]. pose proof (Hr RDI). destruct (ca_stack Hca) as (?&?&?).
  pose proof (ca_apart Hca). pose proof (ca_array Hca).
  constructor; try done; try (split; congruence); try (split_and!; congruence).
  - unfold words_at in *. assert (Forall (λ w, 0 ≤ w.1 ≤ 48) frame) as Hw
      by (repeat (apply Forall_cons_2; [cbn [fst]; lia|]); apply Forall_nil_2).
    rewrite Forall_forall in *. intros w Hin. specialize (Hw w Hin). rewrite <- (Hf w Hin).
    apply ld_ext. intros i Hi. rewrite u64_small by lia. apply Hm; lia.
  - rewrite <- Ha. apply array_ext. intros a Hx. apply Hm; lia.
  - intros a Hx. rewrite <- (Ho a Hx). destruct Hx as (?&?&?). apply Hm; [done|]. lia.
Qed.

Lemma sorting_regs l s v g x f :
  sorting l s → (∀ r, 0 ≤ g r < 2 ^ 64) → 0 ≤ v < 2 ^ 64 → 0 ≤ f < 2 ^ 64 → g R12 = gpr s R12 →
  g R13 = gpr s R13 → g R14 = gpr s R14 → g R15 = gpr s R15 → g RSP = gpr s RSP →
  sorting l (mkCpu v g x f (gs_base s) (kernel_gs_base s) (mem s)).
Proof.
  intros Hs **. apply (sorting_kept l s); try done; [|apply Hs].
  apply entry_ok_user; try done. apply Hs.
Qed.

(** The stub is at [STUBS !! q]. *)
Context (q : nat) (Hq : STUBS !! q = Some ("qsort", Trampolines.Qsort)).

Definition at_offset (off : Z) (t : cpu) : Prop := rip t = stub_va q + off.

Lemma at_offset_range off : 0 ≤ off < 2 ^ 32 → 0 ≤ stub_va q + off < 2 ^ 64.
Proof. pose proof (stub_va_range _ _ _ Hq). lia. Qed.

Ltac instr off ins n tac :=
  eapply (stub_step handlers user _ _ _ off ins n _ _ _ Hq);
  [norm; lia | cbn; lia | intros; reflexivity | lia | discriminate | tac; reflexivity | norm].
Ltac regs_range Hr := intros r; destruct r; norm; first [apply Hr | apply u64_range | lia].
Ltac flags_range Hf :=
  repeat first [apply alu_flags_range | apply put_flags_range | apply imul_flags_range | apply count_flags_range];
  exact Hf.
Ltac words_lia :=
  repeat first [apply Forall_nil_2 | apply Forall_cons_2; [cbn [fst snd]; first [lia | split; [lia|auto]]|]].
Ltac push_at r a :=
  rewrite (exec_push_reg in_stubs _ _ in_stubs_bounds r _ a); [|lia|lia|lia|norm; lia].

(** The entry: the callee-saved registers are pushed, the arguments moved. *)
Lemma sort_enter :
  rip s0 = stub_va q →
  ∃ t, run s0 t ∧ at_offset 22 t ∧ sorting (array n size base (mem s0)) t.
Proof.
  intros Hrip. destruct call_ranges as [Hr Hn]. destruct (ca_stack Hca) as (?&?&?). pose proof (ca_stack_stubs Hca).
  pose proof (stub_va_range _ _ _ Hq). pose proof (ca_apart Hca). pose proof (ca_array Hca). pose proof (Hr RDI).
  eexists. split.
  { instr 0%nat (Push RBX) 1 ltac:(push_at RBX (sp0 - 48 + 40)).
    instr 1%nat (Push RBP) 1 ltac:(push_at RBP (sp0 - 48 + 32)).
    instr 2%nat (Push R12) 2 ltac:(push_at R12 (sp0 - 48 + 24)).
    instr 4%nat (Push R13) 2 ltac:(push_at R13 (sp0 - 48 + 16)).
    instr 6%nat (Push R14) 2 ltac:(push_at R14 (sp0 - 48 + 8)).
    instr 8%nat (Push R15) 2 ltac:(push_at R15 (sp0 - 48 + 0)).
    instr 10%nat (mov (Reg R12) (Reg RDI)) 3 ltac:(rewrite exec_mov_reg by (norm; apply Hr)).
    instr 13%nat (mov (Reg R13) (Reg RSI)) 3 ltac:(rewrite exec_mov_reg by (norm; apply Hr)).
    instr 16%nat (mov (Reg R14) (Reg RDX)) 3 ltac:(rewrite exec_mov_reg by (norm; apply Hr)).
    instr 19%nat (mov (Reg R15) (Reg RCX)) 3 ltac:(rewrite exec_mov_reg by (norm; apply Hr)).
    apply reach_refl. }
  split; [unfold at_offset; norm; lia|].
  match goal with |- sorting _ (mkCpu ?v ?g _ _ _ _ _) => set (va := v); set (g' := g) end.
  change (st 8 _ (sp0 - 48 + 0) _) with (store_words (mem s0) (sp0 - 48) (reverse (take 6 frame))).
  set (m' := store_words _ _ _).
  assert (∀ a, 0 ≤ a < 2 ^ 64 → ¬ (sp0 - 48 ≤ a < sp0) → m' a = mem s0 a) as Hm.
  { intros a Ha Hx. apply store_words_sep; [lia|lia|words_lia|words_lia]. }
  constructor; cbn [rip gpr xmm rflags gs_base kernel_gs_base mem]; try done.
  - apply entry_ok_user; [apply Hca|unfold g'; regs_range Hr|unfold va; lia|apply (ca_entry Hca)|].
    intros a Ha. apply Hm; lia.
  - apply store_words_bytes, Hca.
  - unfold g'. norm. split_and!; try done. lia.
  - change frame with (take 6 frame ++ [(48, ld 8 (mem s0) sp0)]). apply Forall_app. split.
    + apply Forall_reverse, store_words_read; [lia|words_lia|].
      repeat first [apply SSorted_nil | apply SSorted_cons; [|words_lia]].
    + apply Forall_singleton. cbn [fst snd]. replace (sp0 - 48 + 48) with sp0 by lia.
      apply ld_ext. intros i Hi. rewrite u64_small by lia. apply Hm; lia.
  - apply array_ext. intros a Ha. apply Hm; lia.
  - intros a (?&?&?). apply Hm; lia.
Qed.

(** The end: the registers are popped and the routine returns. *)
Lemma sort_leave l t :
  sorting l t → at_offset 125 t →
  ∃ u, run t u ∧ rip u = ld 8 (mem s0) sp0 ∧ gpr u RSP = sp0 + 8 ∧ mem u = mem t ∧
    (∀ r, callee_saved r = true → r ≠ RSP → gpr u r = gpr s0 r).
Proof.
  intros [He Hb [Hg1 Hg2] (H12 & H13 & H14 & H15 & Hsp) Hf _ _] Hat. unfold at_offset in Hat.
  destruct (ca_stack Hca) as (?&?&?). pose proof (stub_va_range _ _ _ Hq).
  unfold words_at, frame in Hf. rewrite !Forall_cons in Hf. cbn [fst snd] in Hf.
  destruct Hf as (W0&W1&W2&W3&W4&W5&W6&_). eexists. split.
  { instr 125%nat (Pop R15) 2 ltac:(rewrite (exec_pop_reg in_stubs R15 _ (sp0 - 48 + 0)) by (norm; lia)).
    rewrite W0.
    instr 127%nat (Pop R14) 2 ltac:(rewrite (exec_pop_reg in_stubs R14 _ (sp0 - 48 + 8)) by (norm; lia)).
    rewrite W1.
    instr 129%nat (Pop R13) 2 ltac:(rewrite (exec_pop_reg in_stubs R13 _ (sp0 - 48 + 16)) by (norm; lia)).
    rewrite W2.
    instr 131%nat (Pop R12) 2 ltac:(rewrite (exec_pop_reg in_stubs R12 _ (sp0 - 48 + 24)) by (norm; lia)).
    rewrite W3.
    instr 133%nat (Pop RBP) 1 ltac:(rewrite (exec_pop_reg in_stubs RBP _ (sp0 - 48 + 32)) by (norm; lia)).
    rewrite W4.
    instr 134%nat (Pop RBX) 1 ltac:(rewrite (exec_pop_reg in_stubs RBX _ (sp0 - 48 + 40)) by (norm; lia)).
    rewrite W5.
    instr 135%nat Ret 1 idtac. apply reach_refl. }
  norm. replace (sp0 - 48 + 40 + 8) with (sp0 - 48 + 48) by lia. rewrite W6, u64_small by lia.
  split_and!; [done|lia|done|]. intros r ??. by destruct r.
Qed.

(** Arrays of fewer than two elements are left alone. *)
Lemma sort_first l t :
  sorting l t → at_offset 22 t →
  ∃ u, run t u ∧ sorting l u ∧
    if n <? 2 then at_offset 125 u else at_offset 35 u ∧ gpr u RBX = 1.
Proof.
  intros Hs Hat. unfold at_offset in *. pose proof (stub_va_range _ _ _ Hq).
  pose proof (eo_regs _ (so_entry _ _ Hs)) as Hr. pose proof (eo_flags _ (so_entry _ _ Hs)) as Hf.
  destruct (so_regs _ _ Hs) as (_ & H13 & _). destruct call_ranges as [Hr0 _].
  assert (wrap 64 n = n) as Hn by apply (wrap_small 64), Hr0.
  destruct (n <? 2) eqn:E; eexists; (split;
    [ instr 22%nat (AluImm Cmp W64 (Reg R13) 2) 4 ltac:(cbn [exec writes_back get nbits]);
      rewrite H13, Hn; change (wrap 64 2) with 2;
      instr 26%nat (Jcc CB 97) 2 ltac:(rewrite exec_jcc); rewrite holds_cmp, E |]).
  - apply reach_refl.
  - norm. split; [apply sorting_regs; [done|regs_range Hr|apply u64_range|flags_range Hf|done..]|].
    rewrite u64_small by lia. lia.
  - instr 28%nat (MovImm W64 (Reg RBX) 1) 7 ltac:(cbn [exec put nbits]). apply reach_refl.
  - change (wrap 64 1) with 1. split; [apply sorting_regs; [done|regs_range Hr|lia|flags_range Hf|done..]|].
    norm. split; [lia|done].
Qed.

(** The addresses of the two elements of a comparison. *)
Lemma pair_addresses j :
  0 < j < n →
  u64 (j * size) = j * size ∧ u64 (j * size + base) = base + j * size ∧
  u64 (base + j * size - size) = base + (j - 1) * size.
Proof.
  intros Hj. destruct call_ranges as [Hr Hn]. pose proof (Hr RDX). pose proof (Hr RDI). pose proof (ca_array Hca).
  pose proof (element_range j ltac:(lia)). pose proof (element_range (j - 1) ltac:(lia)).
  rewrite !u64_small by lia. lia.
Qed.

(** Up to the call of the comparison function with the element at [j] and the
    one before it. *)
Lemma sort_call l t j :
  sorting l t → at_offset 43 t → gpr t RBP = j → 0 < j < n →
  ∃ c, run t c ∧ compared c ∧ gpr c RDI = base + j * size ∧ gpr c RSI = base + (j - 1) * size ∧
    ld 8 (mem c) (gpr c RSP) = stub_va q + 70 ∧
    (∀ r, callee_saved r = true → r ≠ RSP → gpr c r = gpr t r) ∧
    (∀ a, 0 ≤ a < 2 ^ 64 → ¬ (sp0 - 56 ≤ a < sp0 - 48) → mem c a = mem t a).
Proof.
  intros Hs Hat HBP Hj. unfold at_offset in *. pose proof (stub_va_range _ _ _ Hq).
  pose proof (eo_regs _ (so_entry _ _ Hs)) as Hr. pose proof (eo_flags _ (so_entry _ _ Hs)) as Hf.
  destruct (so_regs _ _ Hs) as (H12 & H13 & H14 & H15 & Hsp). destruct (pair_addresses j Hj) as (E1 & E2 & E3).
  destruct (ca_stack Hca) as (?&?&?). pose proof (ca_stack_stubs Hca). eexists. split.
  { instr 43%nat (Alu Test W64 (Reg RBP) (Reg RBP)) 3 ltac:(rewrite exec_test by apply Hr).
    rewrite HBP. destruct (Z.eqb_spec j 0); [lia|].
    instr 46%nat (Jcc CE 72) 2 ltac:(rewrite exec_jcc). rewrite holds_put.
    instr 48%nat (mov (Reg RAX) (Reg RBP)) 3 ltac:(rewrite exec_mov_reg by apply Hr).
    instr 51%nat (Imul RAX (Reg R14)) 4 ltac:(rewrite exec_imul by regs_range Hr).
    rewrite HBP, H14, E1.
    instr 55%nat (Alu Add W64 (Reg RAX) (Reg R12)) 3 ltac:(rewrite exec_add by (rewrite <- E1; regs_range Hr)).
    rewrite H12, E2.
    instr 58%nat (mov (Reg RDI) (Reg RAX)) 3
      ltac:(rewrite exec_mov_reg by (norm; rewrite <- E2; apply u64_range)).
    instr 61%nat (Alu Sub W64 (Reg RAX) (Reg R14)) 3 ltac:(rewrite exec_sub by (rewrite <- E2; regs_range Hr)).
    rewrite H14, E3.
    instr 64%nat (mov (Reg RSI) (Reg RAX)) 3
      ltac:(rewrite exec_mov_reg by (norm; rewrite <- E3; apply u64_range)).
    instr 67%nat (Call (Reg R15)) 3
      ltac:(rewrite (exec_call_reg in_stubs _ _ in_stubs_bounds R15 _ (sp0 - 56));
            [|lia|lia|lia|norm; lia|norm; apply Hr]).
    rewrite H15. apply reach_refl. }
  match goal with |- compared (mkCpu _ ?g _ _ _ _ ?m) ∧ _ => set (g' := g); set (m' := m) end.
  assert (∀ a, 0 ≤ a < 2 ^ 64 → ¬ (sp0 - 56 ≤ a < sp0 - 48) → m' a = mem t a) as Hm.
  { intros a Ha Hx. apply st_sep; lia. }
  split; [|unfold g'; norm; split_and!; try done].
  - destruct (so_gs _ _ Hs) as [Hg1 Hg2]. constructor; cbn [rip gpr xmm rflags gs_base kernel_gs_base mem]; try done.
    + apply entry_ok_user; [apply Hs| |apply call_ranges|flags_range Hf|intros a Ha; apply Hm; lia].
      unfold g'. rewrite <- E2, <- E3. regs_range Hr.
    + intros a. apply st_bytes, Hs.
    + unfold g'. norm. split; [exists j|exists (j - 1)]; lia.
    + intros a Ha. rewrite Hm by (destruct Ha as (?&?&?); lia). by apply Hs.
  - unfold m'. rewrite ld_st8 by lia. lia.
  - intros r ??. by destruct r.
Qed.

Lemma array_lookup m j :
  0 ≤ j < n → array n size base m !!! Z.to_nat j = elem size m (base + j * size).
Proof.
  intros Hj. apply list_lookup_total_correct. unfold array. rewrite list_lookup_fmap.
  rewrite lookup_seq_lt by lia. cbn. by rewrite Z2Nat.id by lia.
Qed.

Context (lt : bytes → bytes → bool) (Hcmp : compares lt).

(** The comparison and the jump on its sign. *)
Lemma sort_compare l t j :
  sorting l t → at_offset 43 t → gpr t RBP = j → 0 < j < n →
  ∃ u, run t u ∧ sorting l u ∧ gpr u RBX = gpr t RBX ∧ gpr u RBP = j ∧
    at_offset (if lt (l !!! Z.to_nat j) (l !!! Z.to_nat (j - 1)) then 74 else 120) u.
Proof.
  intros Hs Hat HBP Hj. destruct (sort_call l t j Hs Hat HBP Hj) as (c & Hrun & Hc & Hdi & Hsi & Hret & Hcs & Hm).
  destruct (ca_stack Hca) as (?&?&?). pose proof (stub_va_range _ _ _ Hq). unfold at_offset in *.
  pose proof (cs_sp _ Hc) as Hsp. destruct (cs_gs _ Hc) as [Hg1 Hg2]. destruct (so_gs _ _ Hs) as [Hg1' Hg2'].
  destruct (Hcmp c Hc) as (d & Hd & Hrip & Hspd & Hcsd & Hmd & Hed & Hbd & Hgd1 & Hgd2 & Hsign).
  assert (lt (elem size (mem c) (gpr c RDI)) (elem size (mem c) (gpr c RSI)) =
          lt (l !!! Z.to_nat j) (l !!! Z.to_nat (j - 1))) as E.
  { destruct (so_regs _ _ Hs) as (H12 & H13 & H14 & H15 & Hspt).
    assert (l = array n size base (mem c)) as ->.
    { rewrite <- (so_array _ _ Hs). symmetry. apply array_ext. intros a Ha. pose proof (ca_apart Hca).
      pose proof (ca_array Hca). destruct call_ranges as [Hr _]. pose proof (Hr RDI). apply Hm; lia. }
    by rewrite !array_lookup, Hdi, Hsi by lia. }
  rewrite E in Hsign.
  assert (sorting l d) as Hsd.
  { assert (∀ r, callee_saved r = true → r ≠ RSP → gpr d r = gpr t r) as Hcs'
      by (intros r ??; rewrite Hcsd by done; by apply Hcs).
    apply (sorting_kept l t); try done; try congruence; try (by apply Hcs').
    - intros a Ha Hx. rewrite Hmd by lia. apply Hm; lia.
    - destruct (so_regs _ _ Hs) as (_ & _ & _ & _ & Hspt). lia. }
  pose proof (eo_regs _ Hed) as Hr. pose proof (eo_flags _ Hed) as Hf.
  set (b := lt _ _) in *.
  destruct (exec_test32 in_stubs RAX (set_rip d (stub_va q + 72))) as [z Hz].
  eexists. split.
  { apply (reach_trans _ _ _ _ _ _ _ Hrun), (reach_trans _ _ _ _ _ _ _ Hd).
    instr 70%nat (Alu Test W32 (Reg RAX) (Reg RAX)) 2
      ltac:(replace (stub_va q + Z.of_nat 70 + 2) with (stub_va q + 72) by lia; rewrite Hz).
    instr 72%nat (Jcc CGE 46) 2 ltac:(rewrite exec_jcc). rewrite holds_put, Hsign. apply reach_refl. }
  norm. split; [apply sorting_regs; [done|exact Hr|case_if; [apply u64_range|lia]|flags_range Hf|done..]|].
  rewrite Hcsd, Hcs, Hcsd, Hcs by done. split_and!; try done.
  destruct b; cbn; [lia|]. rewrite u64_small by lia. lia.
Qed.

(** The bytes from [c] to [e] of two elements exchanged. *)
Definition exchanged (hi lo c e : Z) (m : Z → Z) (a : Z) : Z :=
  if (lo + c <=? a) && (a <? lo + e) then m (a - lo + hi)
  else if (hi + c <=? a) && (a <? hi + e) then m (a - hi + lo) else m a.

(** A state of the loop that exchanges bytes. *)
Record exchanging (hi lo c : Z) (s : cpu) : Prop := {
  ex_at : at_offset 93 s;
  ex_entry : entry_ok s;
  ex_bytes : ∀ a, is_byte (mem s a);
  ex_regs : gpr s RDI = hi ∧ gpr s RSI = lo ∧ gpr s R14 = size ∧ gpr s RCX = c
}.

Definition disjoint_elements (hi lo : Z) : Prop :=
  0 ≤ lo ∧ lo + size ≤ hi ∧ hi + size ≤ 2 ^ 63 ∧ (hi + size ≤ 0x7FFFE000 ∨ 0x80000000 ≤ lo).

Lemma exchange_byte hi lo c s :
  exchanging hi lo c s → disjoint_elements hi lo → 0 ≤ c < size →
  ∃ u, run s u ∧ exchanging hi lo (c + 1) u ∧ gs_base u = gs_base s ∧ kernel_gs_base u = kernel_gs_base s ∧
    (∀ r, callee_saved r = true → gpr u r = gpr s r) ∧
    (∀ a, 0 ≤ a < 2 ^ 64 →
       mem u a = if a =? hi + c then mem s (lo + c) else if a =? lo + c then mem s (hi + c) else mem s a).
Proof.
  intros [Hat He Hb (Hdi & Hsi & H14 & Hcx)] (?&?&?&?) Hc. unfold at_offset in *.
  pose proof (stub_va_range _ _ _ Hq). pose proof (eo_regs _ He) as Hr. pose proof (eo_flags _ He) as Hf.
  pose proof (low_byte (gpr s RAX) _ (Hb (hi + c)) (Hr RAX)) as [Ha1 Ha2].
  pose proof (low_byte (gpr s RDX) _ (Hb (lo + c)) (Hr RDX)) as [Hd1 Hd2].
  assert (wrap 64 c = c) as Hwc by (apply (wrap_small 64); unfold is_u; lia).
  assert (wrap 64 size = size) as Hws by (apply (wrap_small 64); unfold is_u; lia).
  assert (c <? size = true) as Hlt by (apply Z.ltb_lt; lia).
  eexists. split.
  { instr 93%nat (Alu Cmp W64 (Reg RCX) (Reg R14)) 3 ltac:(rewrite exec_cmp).
    rewrite Hcx, H14. cbn [nbits]. rewrite Hwc, Hws.
    instr 96%nat (Jcc CAE 17) 2 ltac:(rewrite exec_jcc).
    cbn [alu_flags]. rewrite holds_put, Hlt. cbn [negb].
    instr 98%nat (Mov W8 (Reg RAX) (Mem (mkAddr false (Some RDI) (Some RCX) 0))) 3
      ltac:(rewrite (exec_load_byte in_stubs RDI RCX RAX _ (hi + c)) by (norm; first [lia | apply Hb])).
    instr 101%nat (Mov W8 (Reg RDX) (Mem (mkAddr false (Some RSI) (Some RCX) 0))) 3
      ltac:(rewrite (exec_load_byte in_stubs RSI RCX RDX _ (lo + c)) by (norm; first [lia | apply Hb])).
    instr 104%nat (Mov W8 (Mem (mkAddr false (Some RSI) (Some RCX) 0)) (Reg RAX)) 3
      ltac:(rewrite (exec_store_byte in_stubs _ _ in_stubs_bounds RSI RCX RAX _ (lo + c)) by (norm; lia)).
    instr 107%nat (Mov W8 (Mem (mkAddr false (Some RDI) (Some RCX) 0)) (Reg RDX)) 3
      ltac:(rewrite (exec_store_byte in_stubs _ _ in_stubs_bounds RDI RCX RDX _ (hi + c)) by (norm; lia)).
    rewrite Ha1, Hd1.
    instr 110%nat (Inc (Reg RCX)) 3 ltac:(rewrite exec_inc by (norm; lia)).
    instr 113%nat (JmpRel (-22)) 2 ltac:(cbn [exec]). apply reach_refl. }
  match goal with |- exchanging _ _ _ (mkCpu _ _ _ _ _ _ ?m) ∧ _ => set (m' := m) end.
  assert (∀ a, 0 ≤ a < 2 ^ 64 →
    m' a = if a =? hi + c then mem s (lo + c) else if a =? lo + c then mem s (hi + c) else mem s a) as Hm.
  { intros a Ha. unfold m'. rewrite !st1 by (lia || apply Hb). done. }
  split; [|norm; split_and!; try done; intros r ?; by destruct r].
  constructor; unfold at_offset; norm; [rewrite u64_small; lia| | |split_and!; (done || lia)].
  - apply entry_ok_user; [done|regs_range Hr|apply u64_range|flags_range Hf|].
    intros a Ha. rewrite Hm by lia. do 2 (case_if; [lia|]). done.
  - intros a. by apply st_bytes, st_bytes.
Qed.

Lemma exchanged_step hi lo c m m' a :
  disjoint_elements hi lo → 0 ≤ c < size → 0 ≤ a < 2 ^ 64 →
  (∀ x, 0 ≤ x < 2 ^ 64 →
     m' x = if x =? hi + c then m (lo + c) else if x =? lo + c then m (hi + c) else m x) →
  exchanged hi lo (c + 1) size m' a = exchanged hi lo c size m a.
Proof.
  intros (?&?&?&?) Hc Ha Hm. unfold exchanged. repeat case_if; unbool; rewrite Hm by lia;
    repeat case_if; unbool; try lia; f_equal; lia.
Qed.

(** The loop ends with all bytes exchanged. *)
Lemma exchange_loop hi lo k c s :
  exchanging hi lo c s → disjoint_elements hi lo → 0 ≤ c → c + Z.of_nat k = size →
  ∃ u, run s u ∧ at_offset 115 u ∧ entry_ok u ∧ (∀ a, is_byte (mem u a)) ∧ gs_base u = gs_base s ∧
    kernel_gs_base u = kernel_gs_base s ∧ (∀ r, callee_saved r = true → gpr u r = gpr s r) ∧
    (∀ a, 0 ≤ a < 2 ^ 64 → mem u a = exchanged hi lo c size (mem s) a).
Proof.
  intros Hs Hd. revert c s Hs. induction k as [|k IH]; intros c s Hs Hc Hk.
  - destruct Hs as [Hat He Hb (Hdi & Hsi & H14 & Hcx)]. unfold at_offset in *.
    pose proof (stub_va_range _ _ _ Hq). pose proof (eo_regs _ He) as Hr. pose proof (eo_flags _ He) as Hf.
    pose proof (Hr RCX). assert (wrap 64 c = c) as Hwc by (apply (wrap_small 64); unfold is_u; lia).
    assert (c = size) as -> by lia. eexists. split.
    { instr 93%nat (Alu Cmp W64 (Reg RCX) (Reg R14)) 3 ltac:(rewrite exec_cmp).
      rewrite Hcx, H14. cbn [nbits]. rewrite Hwc.
      instr 96%nat (Jcc CAE 17) 2 ltac:(rewrite exec_jcc).
      cbn [alu_flags]. rewrite holds_put, Z.ltb_irrefl. cbn [negb]. apply reach_refl. }
    norm. split; [rewrite u64_small; lia|]. split; [apply entry_ok_user; try done; [apply u64_range|flags_range Hf]|].
    split_and!; try done. intros a Ha. unfold exchanged. repeat case_if; unbool; (lia || done).
  - destruct (exchange_byte hi lo c s Hs Hd) as (u1 & Hr1 & Hs1 & Hg1 & Hg1' & Hc1 & Hm1); [lia|].
    destruct (IH (c + 1) u1 Hs1) as (u & Hru & Hat & He & Hb & Hg & Hg' & Hcs & Hm); [lia..|].
    exists u. split; [by apply (reach_trans _ _ _ _ _ _ _ Hr1)|]. split_and!; try done; try congruence.
    + intros r Hr. by rewrite Hcs, Hc1.
    + intros a Ha. rewrite Hm by done. apply exchanged_step; (lia || done).
Qed.

Lemma swap_lookup (l : list bytes) j k :
  (0 < j < length l)%nat →
  swap j l !!! k = if (k =? j)%nat then l !!! pred j else if (k =? pred j)%nat then l !!! j else l !!! k.
Proof.
  intros Hj. unfold swap. destruct (Nat.eqb_spec k j) as [->|].
  { apply list_lookup_total_insert_eq. rewrite length_insert. lia. }
  rewrite list_lookup_total_insert_ne by done. destruct (Nat.eqb_spec k (pred j)) as [->|].
  - apply list_lookup_total_insert_eq. lia.
  - by apply list_lookup_total_insert_ne.
Qed.

(** Exchanging the bytes of two neighbours swaps them in the array. *)
Lemma array_exchanged m m' j :
  0 < j < n →
  (∀ a, 0 ≤ a < 2 ^ 64 → m' a = exchanged (base + j * size) (base + (j - 1) * size) 0 size m a) →
  array n size base m' = swap (Z.to_nat j) (array n size base m).
Proof.
  intros Hj Hm. destruct call_ranges as [Hr Hn]. pose proof (Hr RDX). pose proof (Hr RDI). pose proof (ca_array Hca).
  assert (∀ m, length (array n size base m) = Z.to_nat n) as Hl
    by (intros; unfold array; by rewrite length_map, length_seq).
  apply list_eq_same_length with (n := Z.to_nat n); [by rewrite swap_length|done|].
  intros k x y Hk Hx Hy. apply list_lookup_total_correct in Hx as <-, Hy as <-.
  rewrite swap_lookup by (rewrite Hl; lia). replace k with (Z.to_nat (Z.of_nat k)) by lia.
  replace (pred (Z.to_nat j)) with (Z.to_nat (j - 1)) by lia. set (k' := Z.of_nat k).
  assert (0 ≤ k' < n) as Hk' by lia. rewrite !array_lookup by lia.
  pose proof (element_range k' Hk'). pose proof (element_range j ltac:(lia)). pose proof (element_range (j - 1) ltac:(lia)).
  destruct (Nat.eqb_spec (Z.to_nat k') (Z.to_nat j)); [|destruct (Nat.eqb_spec (Z.to_nat k') (Z.to_nat (j - 1)))].
  - assert (k' = j) as -> by lia. apply elem_ext. intros i Hi. rewrite Hm by lia. unfold exchanged.
    repeat case_if; unbool; try lia; f_equal; lia.
  - assert (k' = j - 1) as -> by lia. apply elem_ext. intros i Hi. rewrite Hm by lia. unfold exchanged.
    repeat case_if; unbool; try lia; f_equal; lia.
  - apply elem_ext. intros i Hi. rewrite Hm by lia. unfold exchanged.
    assert (k' < j - 1 ∨ j < k') as [Hlt|Hlt] by lia;
      [assert (k' * size + size ≤ (j - 1) * size) by nia|assert (j * size + size ≤ k' * size) by nia];
      repeat case_if; unbool; (lia || done).
Qed.

(** In front of that loop. *)
Lemma exchange_enter l t j :
  sorting l t → at_offset 74 t → gpr t RBP = j → 0 < j < n →
  ∃ u, run t u ∧ exchanging (base + j * size) (base + (j - 1) * size) 0 u ∧ mem u = mem t ∧
    gs_base u = gs_base t ∧ kernel_gs_base u = kernel_gs_base t ∧
    (∀ r, callee_saved r = true → gpr u r = gpr t r).
Proof.
  intros Hs Hat HBP Hj. unfold at_offset in *. pose proof (stub_va_range _ _ _ Hq).
  pose proof (eo_regs _ (so_entry _ _ Hs)) as Hr. pose proof (eo_flags _ (so_entry _ _ Hs)) as Hf.
  destruct (so_regs _ _ Hs) as (H12 & H13 & H14 & H15 & Hsp). destruct (pair_addresses j Hj) as (E1 & E2 & E3).
  eexists. split.
  { instr 74%nat (mov (Reg RDI) (Reg RBP)) 3 ltac:(rewrite exec_mov_reg by apply Hr).
    instr 77%nat (Imul RDI (Reg R14)) 4 ltac:(rewrite exec_imul by regs_range Hr).
    rewrite HBP, H14, E1.
    instr 81%nat (Alu Add W64 (Reg RDI) (Reg R12)) 3 ltac:(rewrite exec_add by (rewrite <- E1; regs_range Hr)).
    rewrite H12, E2.
    instr 84%nat (mov (Reg RSI) (Reg RDI)) 3
      ltac:(rewrite exec_mov_reg by (norm; rewrite <- E2; apply u64_range)).
    instr 87%nat (Alu Sub W64 (Reg RSI) (Reg R14)) 3 ltac:(rewrite exec_sub by (rewrite <- E2; regs_range Hr)).
    rewrite H14, E3.
    instr 90%nat (Alu Xor W64 (Reg RCX) (Reg RCX)) 3 ltac:(rewrite exec_xor_self). apply reach_refl. }
  split; [|norm; split_and!; try done; intros r ?; by destruct r].
  constructor; unfold at_offset; norm; [lia| |apply Hs|done].
  apply entry_ok_user; [apply Hs|rewrite <- E2, <- E3; regs_range Hr|lia|flags_range Hf|done].
Qed.

(** The swap of an element with the one before it, and the next round. *)
Lemma sort_swap l t j :
  sorting l t → at_offset 74 t → gpr t RBP = j → 0 < j < n →
  ∃ u, run t u ∧ sorting (swap (Z.to_nat j) l) u ∧ at_offset 43 u ∧ gpr u RBX = gpr t RBX ∧
    gpr u RBP = j - 1.
Proof.
  intros Hs Hat HBP Hj. destruct (exchange_enter l t j Hs Hat HBP Hj) as (s & Hr1 & Hex & Hms & Hg1 & Hg1' & Hc1).
  pose proof (element_range j ltac:(lia)) as Hej. pose proof (element_range (j - 1) ltac:(lia)) as Hej'.
  pose proof (ca_array Hca). pose proof (ca_array_stubs Hca). pose proof (ca_apart Hca).
  destruct call_ranges as [Hr0 _]. pose proof (Hr0 RDX). pose proof (Hr0 RDI). destruct (ca_stack Hca) as (?&?&?).
  destruct (exchange_loop _ _ (Z.to_nat size) 0 s Hex)
    as (d & Hr2 & Hd & He & Hb & Hg2 & Hg2' & Hc2 & Hm); [split_and!; lia|lia..|].
  rewrite Hms in Hm. pose proof (stub_va_range _ _ _ Hq). unfold at_offset in *.
  pose proof (eo_regs _ He) as Hr. pose proof (eo_flags _ He) as Hf.
  assert (∀ r, callee_saved r = true → gpr d r = gpr t r) as Hc by (intros; by rewrite Hc2, Hc1).
  pose proof (Hc RBP eq_refl) as HBPd. rewrite HBP in HBPd.
  assert (sorting (swap (Z.to_nat j) l) d) as Hsd.
  { destruct Hs as [_ _ [Hga Hgb] (H12 & H13 & H14 & H15 & Hsp) Hfr Ha Ho].
    assert (∀ a, 0 ≤ a < 2 ^ 63 → ¬ (base ≤ a < base + n * size) → mem d a = mem t a) as Hout.
    { intros a Ha1 Ha2. rewrite Hm by lia. unfold exchanged. repeat case_if; unbool; (lia || done). }
    constructor; try done; try (split; congruence).
    - rewrite !Hc by done. done.
    - unfold words_at in *. assert (Forall (λ w, 0 ≤ w.1 ≤ 48) frame) as Hw by words_lia.
      rewrite Forall_forall in *. intros w Hin. specialize (Hw w Hin). rewrite <- (Hfr w Hin).
      apply ld_ext. intros i Hi. rewrite u64_small by lia. apply Hout; lia.
    - rewrite <- Ha. by apply array_exchanged.
    - intros a Hx. rewrite <- (Ho a Hx). destruct Hx as (?&?&?). by apply Hout. }
  eexists. split.
  { apply (reach_trans _ _ _ _ _ _ _ Hr1), (reach_trans _ _ _ _ _ _ _ Hr2).
    instr 115%nat (Dec (Reg RBP)) 3 ltac:(rewrite exec_dec by (norm; pose proof (Hr0 RSI); lia)).
    instr 118%nat (JmpRel (-77)) 2 ltac:(cbn [exec]). apply reach_refl. }
  rewrite HBPd. pose proof (Hr RBP).
  split; [apply sorting_regs; [done|regs_range Hr|apply u64_range|flags_range Hf|done..]|].
  norm. split_and!; [rewrite u64_small; lia|by apply Hc|done].
Qed.

(** The inner loop is [sink]. *)
Lemma sort_sink l t j :
  sorting l t → at_offset 43 t → gpr t RBP = Z.of_nat j → Z.of_nat j < n →
  ∃ u, run t u ∧ sorting (sink lt j l) u ∧ at_offset 120 u ∧ gpr u RBX = gpr t RBX.
Proof.
  revert l t. induction j as [|j IH]; intros l t Hs Hat HBP Hj.
  - unfold at_offset in *. pose proof (stub_va_range _ _ _ Hq).
    pose proof (eo_regs _ (so_entry _ _ Hs)) as Hr. pose proof (eo_flags _ (so_entry _ _ Hs)) as Hf.
    eexists. split.
    { instr 43%nat (Alu Test W64 (Reg RBP) (Reg RBP)) 3 ltac:(rewrite exec_test by apply Hr).
      rewrite HBP. instr 46%nat (Jcc CE 72) 2 ltac:(rewrite exec_jcc). rewrite holds_put. apply reach_refl. }
    split; [apply sorting_regs; [done|exact Hr|apply u64_range|flags_range Hf|done..]|].
    norm. split; [|done]. change (Z.of_nat 0 =? 0) with true. cbn iota. rewrite u64_small; lia.
  - destruct (sort_compare l t (Z.of_nat (S j)) Hs Hat HBP) as (u & Hru & Hsu & Hbx & Hbp & Hau); [lia|].
    rewrite Nat2Z.id in Hau. replace (Z.to_nat (Z.of_nat (S j) - 1)) with j in Hau by lia. cbn [sink].
    destruct (lt (l !!! S j) (l !!! j)); [|by exists u].
    destruct (sort_swap l u (Z.of_nat (S j)) Hsu Hau Hbp) as (v & Hrv & Hsv & Hav & Hbxv & Hbpv); [lia|].
    rewrite Nat2Z.id in Hsv.
    destruct (IH _ v Hsv Hav) as (w & Hrw & Hsw & Haw & Hbxw); [lia..|].
    exists w. split; [by apply (reach_trans _ _ _ _ _ _ _ Hru), (reach_trans _ _ _ _ _ _ _ Hrv)|].
    split_and!; [done|done|congruence].
Qed.

(** A round of the outer loop begins. *)
Lemma rounds_test l t i :
  sorting l t → at_offset 35 t → gpr t RBX = i → i < n →
  ∃ u, run t u ∧ sorting l u ∧ at_offset 43 u ∧ gpr u RBX = i ∧ gpr u RBP = i.
Proof.
  intros Hs Hat HBX Hi. unfold at_offset in Hat.
  pose proof (stub_va_range _ _ _ Hq). pose proof (eo_regs _ (so_entry _ _ Hs)) as Hr.
  pose proof (eo_flags _ (so_entry _ _ Hs)) as Hf. destruct (so_regs _ _ Hs) as (_ & H13 & _).
  pose proof (Hr RBX). destruct call_ranges as [Hr0 _]. pose proof (Hr0 RSI).
  assert (wrap 64 i = i) as Hwi by (apply (wrap_small 64); unfold is_u; lia).
  assert (wrap 64 n = n) as Hwn by (apply (wrap_small 64); unfold is_u; lia).
  eexists. split.
  { instr 35%nat (Alu Cmp W64 (Reg RBX) (Reg R13)) 3 ltac:(rewrite exec_cmp).
    rewrite HBX, H13. cbn [nbits]. rewrite Hwi, Hwn.
    instr 38%nat (Jcc CAE 85) 2 ltac:(rewrite exec_jcc). cbn [alu_flags].
    rewrite holds_put, (proj2 (Z.ltb_lt _ _)) by lia. cbn [negb].
    instr 40%nat (mov (Reg RBP) (Reg RBX)) 3 ltac:(rewrite exec_mov_reg by apply Hr). apply reach_refl. }
  split; [apply sorting_regs; [done|regs_range Hr|lia|flags_range Hf|done..]|].
  unfold at_offset. norm. split_and!; (lia || done).
Qed.

(** The outer loop is [rounds]. *)
Lemma sort_rounds l t i k :
  sorting l t → at_offset 35 t → gpr t RBX = Z.of_nat i → Z.of_nat i + Z.of_nat k = n →
  ∃ u, run t u ∧ sorting (rounds lt i k l) u ∧ at_offset 125 u.
Proof.
  revert i l t. induction k as [|k IH]; intros i l t Hs Hat HBX Hk; unfold at_offset in Hat;
    pose proof (stub_va_range _ _ _ Hq); pose proof (eo_regs _ (so_entry _ _ Hs)) as Hr;
    pose proof (eo_flags _ (so_entry _ _ Hs)) as Hf; destruct (so_regs _ _ Hs) as (_ & H13 & _);
    pose proof (Hr RBX); destruct call_ranges as [Hr0 _]; pose proof (Hr0 RSI);
    assert (wrap 64 (Z.of_nat i) = Z.of_nat i) as Hwi by (apply (wrap_small 64); unfold is_u; lia);
    assert (wrap 64 n = n) as Hwn by (apply (wrap_small 64); unfold is_u; lia).
  - eexists. split.
    { instr 35%nat (Alu Cmp W64 (Reg RBX) (Reg R13)) 3 ltac:(rewrite exec_cmp).
      rewrite HBX, H13. cbn [nbits]. rewrite Hwi, Hwn.
      instr 38%nat (Jcc CAE 85) 2 ltac:(rewrite exec_jcc). cbn [alu_flags].
      rewrite holds_put, (proj2 (Z.ltb_ge _ _)) by lia. cbn [negb]. apply reach_refl. }
    split; [apply sorting_regs; [done|exact Hr|apply u64_range|flags_range Hf|done..]|].
    unfold at_offset. norm. rewrite u64_small; lia.
  - destruct (rounds_test l t (Z.of_nat i) Hs Hat HBX) as (u & Hru & Hsu & Hau & Hbx & Hbp); [lia|].
    destruct (sort_sink l u i Hsu Hau Hbp) as (v & Hrv & Hsv & Hav & Hbxv); [lia|]. rewrite Hbx in Hbxv.
    assert (∃ w, run v w ∧ sorting (sink lt i l) w ∧ at_offset 35 w ∧ gpr w RBX = Z.of_nat (S i))
      as (w & Hrw & Hsw & Haw & Hbxw).
    { pose proof (eo_regs _ (so_entry _ _ Hsv)) as Hrr. pose proof (eo_flags _ (so_entry _ _ Hsv)) as Hff.
      unfold at_offset in *. eexists. split.
      { instr 120%nat (Inc (Reg RBX)) 3 ltac:(rewrite exec_inc by (norm; lia)).
        instr 123%nat (JmpRel (-90)) 2 ltac:(cbn [exec]). apply reach_refl. }
      rewrite Hbxv. split; [apply sorting_regs; [done|regs_range Hrr|apply u64_range|flags_range Hff|done..]|].
      norm. split; [rewrite u64_small; lia|lia]. }
    destruct (IH (S i) _ w Hsw Haw Hbxw) as (x & Hrx & Hsx & Hax); [lia|]. exists x. cbn [rounds].
    split; [|done]. by apply (reach_trans _ _ _ _ _ _ _ Hru), (reach_trans _ _ _ _ _ _ _ Hrv), (reach_trans _ _ _ _ _ _ _ Hrw).
Qed.

(** From the call to the return. *)
Lemma sort_run :
  rip s0 = stub_va q →
  ∃ t, run s0 t ∧ rip t = ld 8 (mem s0) sp0 ∧ gpr t RSP = sp0 + 8 ∧
    (∀ r, callee_saved r = true → r ≠ RSP → gpr t r = gpr s0 r) ∧ (∀ a, outside a → mem t a = mem s0 a) ∧
    array n size base (mem t) = insertion_sort lt (array n size base (mem s0)).
Proof.
  intros Hrip. set (l := array n size base (mem s0)). destruct (sort_enter Hrip) as (t1 & R1 & A1 & S1).
  destruct (sort_first _ t1 S1 A1) as (t2 & R2 & S2 & A2). destruct call_ranges as [Hr0 _]. pose proof (Hr0 RSI) as Hn.
  assert (length l = Z.to_nat n) as Hl by (unfold l, array; by rewrite length_map, length_seq).
  assert (∃ t3, run t2 t3 ∧ sorting (insertion_sort lt l) t3 ∧ at_offset 125 t3) as (t3 & R3 & S3 & A3).
  { unfold insertion_sort. rewrite Hl. destruct (Z.ltb_spec n 2).
    - exists t2. replace (pred (Z.to_nat n)) with 0%nat by lia. split; [apply reach_refl|done].
    - destruct A2 as [A2 B2]. apply (sort_rounds l t2 1); [done|done|done|lia]. }
  destruct (sort_leave _ t3 S3 A3) as (t4 & R4 & E1 & E2 & E3 & E4). exists t4.
  split; [by apply (reach_trans _ _ _ _ _ _ _ R1), (reach_trans _ _ _ _ _ _ _ R2), (reach_trans _ _ _ _ _ _ _ R3)|].
  rewrite E3. split_and!; try done; [|apply S3]. intros a Ha. by apply S3.
Qed.
End machine.

(** ** Results *)

(** C10: [qsort] terminates, returns to its caller with the registers it has to
    keep and writes to nothing but the array and the stack below its caller.
    Whatever the comparison function answers the result is a permutation of the
    array; if it is a strict weak order the result is sorted and equivalent
    elements keep their order. *)
Theorem qsort_sorts {L : Libm} handlers {D : Dispatcher (dispatch_fast handlers)} user q s stack_lo lt :
  STUBS !! q = Some ("qsort", Trampolines.Qsort) → rip s = stub_va q → callable s stack_lo →
  compares handlers user s stack_lo lt →
  ∃ t, run handlers user s t ∧ rip t = ld 8 (mem s) (gpr s RSP) ∧ gpr t RSP = gpr s RSP + 8 ∧
    (∀ r, callee_saved r = true → r ≠ RSP → gpr t r = gpr s r) ∧
    (∀ a, outside s stack_lo a → mem t a = mem s a) ∧
    let before := array (gpr s RSI) (gpr s RDX) (gpr s RDI) (mem s) in
    let after := array (gpr s RSI) (gpr s RDX) (gpr s RDI) (mem t) in
    after ≡ₚ before ∧
    ((∀ x y, lt x y = true → le lt x y) → (∀ x y z, le lt x y → le lt y z → le lt x z) →
     StronglySorted (le lt) after ∧
     ∀ z, filter (λ a, equivalent lt z a = true) after = filter (λ a, equivalent lt z a = true) before).
Proof.
  intros Hq Hrip Hca Hcmp. destruct (sort_run handlers user s stack_lo Hca q Hq lt Hcmp Hrip)
    as (t & Hrun & E1 & E2 & E3 & E4 & E5).
  exists t. split_and!; try done. cbn. rewrite E5. split; [apply insertion_sort_perm|].
  intros H1 H2. by destruct (insertion_sort_sorted lt H1 H2 (array (gpr s RSI) (gpr s RDX) (gpr s RDI) (mem s))) as (_ & ? & ?).
Qed.

(** A caller that keeps the calling convention has the stack aligned in front
    of its call; the six registers [qsort] pushes leave it misaligned by eight
    when the comparison function is called. *)
Theorem qsort_calls_misaligned {L : Libm} handlers {D : Dispatcher (dispatch_fast handlers)} user q s stack_lo :
  STUBS !! q = Some ("qsort", Trampolines.Qsort) → rip s = stub_va q → callable s stack_lo →
  2 ≤ gpr s RSI → (gpr s RSP + 8) mod 16 = 0 →
  ∃ c, run handlers user s c ∧ rip c = gpr s RCX ∧ gpr c RDI = gpr s RDI + gpr s RDX ∧
    gpr c RSI = gpr s RDI ∧ (gpr c RSP + 8) mod 16 = 8.
Proof.
  intros Hq Hrip Hca Hn Hal. destruct (sort_enter handlers user s stack_lo Hca q Hq Hrip) as (t1 & R1 & A1 & S1).
  destruct (sort_first handlers user s stack_lo Hca q Hq _ t1 S1 A1) as (t2 & R2 & S2 & A2).
  rewrite (proj2 (Z.ltb_ge _ _)) in A2 by lia. destruct A2 as [A2 B2].
  destruct (rounds_test handlers user s stack_lo Hca q Hq _ t2 1 S2 A2 B2) as (t3 & R3 & S3 & A3 & _ & B3); [lia|].
  destruct (sort_call handlers user s stack_lo Hca q Hq _ t3 1 S3 A3 B3) as (c & R4 & Hc & Hdi & Hsi & _); [lia|].
  exists c. split; [by apply (reach_trans _ _ _ _ _ _ _ R1), (reach_trans _ _ _ _ _ _ _ R2), (reach_trans _ _ _ _ _ _ _ R3)|].
  split; [apply Hc|]. split; [lia|]. split; [lia|]. rewrite (cs_sp _ _ _ Hc).
  replace (gpr s RSP - 56 + 8) with (8 + (gpr s RSP + 8 - 64)) by lia. Z.div_mod_to_equations. lia.
Qed.

(** ** A concrete call *)

(** Three bytes are sorted by a function at [0x500] that compares them. *)
Definition bytes_lt (x y : bytes) : bool := nth 0 x 0 <? nth 0 y 0.

Definition sample_user (s : cpu) : option cpu :=
  if rip s =? 0x500 then
    Some (mkCpu (ld 8 (mem s) (gpr s RSP))
            (upd (upd (gpr s) RSP (gpr s RSP + 8)) RAX
               (if mem s (gpr s RDI) <? mem s (gpr s RSI) then 2 ^ 31 else 0))
            (xmm s) (rflags s) (gs_base s) (kernel_gs_base s) (mem s))
  else None.

Definition sample_array (a : Z) : Z := match a with 0x3000 => 3 | 0x3001 => 1 | 0x3002 => 2 | _ => 0 end.

Definition sort_regs (r : reg) : Z :=
  match r with RDI => 0x3000 | RSI => 3 | RDX => 1 | RCX => 0x500 | RSP => 0x1FF8 | _ => 7 end.

Definition sort_call_state : cpu := sample_cpu (stub_va 387) sort_regs sample_array.

Lemma sample_array_byte a : is_byte (sample_array a).
Proof. unfold sample_array, is_byte. repeat case_match; lia. Qed.

Lemma sample_callable : callable sort_call_state 0x1000.
Proof.
  assert (∀ r, 0 ≤ sort_regs r < 2 ^ 64) as Hr by (by intros []).
  constructor; cbn; try lia; [apply sample_entry_ok; [by vm_compute|done]|].
  intros a. apply st_bytes, sample_array_byte.
Qed.

Lemma sample_compares :
  compares (L := sample_libm) (D := sample_dispatcher) sample_handlers sample_user sort_call_state 0x1000 bytes_lt.
Proof.
  intros s [Hrip He Hb Hgs Hsp [Ha1 Ha2] Hm]. destruct Ha1 as (k & Hk & Hdi), Ha2 as (k' & Hk' & Hsi).
  cbn in Hk, Hk', Hdi, Hsi, Hsp. pose proof (eo_regs _ He) as Hr. eexists. split.
  { eapply reach_step; [|apply reach_refl]. unfold step. fold in_stubs. change (gpr sort_call_state RCX) with 0x500 in Hrip.
    destruct (in_stubs (rip s)) eqn:E; [apply in_stubs_range in E; lia|]. unfold sample_user. rewrite Hrip. reflexivity. }
  norm. split; [done|]. split; [done|]. split; [intros r ??; by destruct r|]. split; [done|]. split.
  { apply entry_ok_user; [done| |apply ld_range, Hb|apply (eo_flags _ He)|done].
    intros r. destruct r; norm; try apply Hr; [case_if; lia|rewrite Hsp; lia]. }
  split_and!; try done. unfold bytes_lt, elem. change (Z.to_nat _) with 1%nat. cbn [map seq nth Z.of_nat].
  rewrite !Z.add_0_r. by destruct (_ <? _).
Qed.

Lemma qsort_sorts_witness :
  ∃ t, run (L := sample_libm) (D := sample_dispatcher) sample_handlers sample_user sort_call_state t ∧
    array 3 1 0x3000 (mem t) ≡ₚ [[3]; [1]; [2]] ∧ StronglySorted (le bytes_lt) (array 3 1 0x3000 (mem t)).
Proof.
  destruct (qsort_sorts (L := sample_libm) (D := sample_dispatcher) sample_handlers sample_user 387 sort_call_state 0x1000
    bytes_lt (proj2 (proj2 (proj2 (proj2 sample_places)))) eq_refl sample_callable sample_compares)
    as (t & Ht & _ & _ & _ & _ & Hp & Hs).
  exists t. split; [exact Ht|]. split.
  - etransitivity; [exact Hp|]. by vm_compute.
  - apply Hs; unfold le, bytes_lt; intros *; rewrite ?Z.ltb_lt, ?Z.ltb_ge; lia.
Defined.

Lemma qsort_calls_misaligned_witness :
  ∃ c, run (L := sample_libm) (D := sample_dispatcher) sample_handlers sample_user sort_call_state c ∧
    rip c = 0x500 ∧ (gpr c RSP + 8) mod 16 = 8.
Proof.
  destruct (qsort_calls_misaligned (L := sample_libm) (D := sample_dispatcher) sample_handlers sample_user 387
    sort_call_state 0x1000 (proj2 (proj2 (proj2 (proj2 sample_places)))) eq_refl sample_callable)
    as (c & Hc & H1 & _ & _ & H2); [by cbn|reflexivity|].
  exists c. split; [exact Hc|split; [exact H1|exact H2]].
Defined.
End Qsort.
