(* ===== verification/CString.v ===== *)
(** * C strings in user memory ([syscall/posix.rs])

    The libc stubs of string and memory functions enter the kernel, which works
    on the memory of the caller through raw pointers.  User memory is a
    function from addresses to bytes.  Loops that end at a terminator take
    fuel, the number of bytes that may be looked at, and give [None] when it
    runs out; on terminated strings any fuel above the length is enough.

    [string_functions_agree] compares the functions that only read with
    definitions on lists of bytes, [string_copies_correct] those that copy;
    [strncpy_copies_past_terminator] and [strtol_negative_endptr] are defects. *)

From Stdlib Require Import ZArith Lia.
From stdpp Require Import base numbers strings option list.
From S2P Require Import Prelude Http.

Local Open Scope Z_scope.

Module CString.

Abbreviation memory := (Z → Z).

(** ** Memory *)

Definition read_range (m : memory) (p : Z) (n : nat) : bytes := map (λ i, m (p + Z.of_nat i)) (seq 0 n).

Definition write_byte (m : memory) (p v : Z) : memory := λ a, if a =? p then v else m a.

(** [*(p as *mut u64) = v] and [*(p as *mut u32) = v]. *)
Definition write_word (n : nat) (m : memory) (p v : Z) : memory :=
  λ a, if (p <=? a) && (a <? p + Z.of_nat n) then u8 (Z.shiftr v (8 * (a - p))) else m a.
Definition read_word (n : nat) (m : memory) (p : Z) : Z := le_val (read_range m p n).

(** [copy_nonoverlapping(src, dst, n)], [copy(src, dst, n)] and
    [write_bytes(dst, v, n)]. *)
Definition copy_bytes (m : memory) (src dst n : Z) : memory :=
  λ a, if (dst <=? a) && (a <? dst + n) then m (a - dst + src) else m a.
Definition write_bytes (m : memory) (dst v n : Z) : memory :=
  λ a, if (dst <=? a) && (a <? dst + n) then v else m a.

(** ** Reading *)

Definition user_ptr_ok (p : Z) : bool := (0x1000 <=? p) && (p <? 0x800000000000).

Definition write_u64_user (m : memory) (ptr v : Z) : memory :=
  if user_ptr_ok ptr then write_word 8 m ptr v else m.
Definition write_u32_user (m : memory) (ptr v : Z) : memory :=
  if user_ptr_ok ptr then write_word 4 m ptr v else m.

(** At most [fuel] bytes up to the terminator. *)
Fixpoint cstr_len (fuel : nat) (m : memory) (p : Z) : nat :=
  match fuel with
  | O => O
  | S f => if m p =? 0 then O else S (cstr_len f m (p + 1))
  end.

Definition MAX_CSTR : nat := 4096.

Definition read_cstr (m : memory) (ptr : Z) : option bytes :=
  if (ptr <? 0x10000) || (0x800000000000 <=? ptr) then None
  else Some (read_range m ptr (cstr_len MAX_CSTR m ptr)).

(** The loop of [sys_strlen] stops behind 1 MiB, so that its fuel is that. *)
Definition STRLEN_MAX : Z := 1024 * 1024.

Fixpoint strlen_loop (fuel : nat) (m : memory) (p len : Z) : Z :=
  match fuel with
  | O => len
  | S f =>
      if m p =? 0 then len
      else
        let len' := len + 1 in
        if STRLEN_MAX <? len' then len' else strlen_loop f m (p + 1) len'
  end.

Definition sys_strlen (m : memory) (s : Z) : Z :=
  if (s <? 0x10000) || (0x800000000000 <=? s) then 0
  else strlen_loop (Z.to_nat (STRLEN_MAX + 1)) m s 0.

(** The difference of the first two bytes that differ. *)
Fixpoint memcmp_loop (n : nat) (m : memory) (a b : Z) : Z :=
  match n with
  | O => 0
  | S n' =>
      let diff := m a - m b in
      if negb (diff =? 0) then diff else memcmp_loop n' m (a + 1) (b + 1)
  end.

Definition sys_memcmp (m : memory) (a b n : Z) : Z :=
  if n =? 0 then 0
  else if negb (user_ptr_ok a) || negb (user_ptr_ok b) then 0
  else memcmp_loop (Z.to_nat n) m a b.

Fixpoint memchr_loop (n : nat) (m : memory) (s c : Z) : Z :=
  match n with
  | O => 0
  | S n' => if m s =? u8 c then s else memchr_loop n' m (s + 1) c
  end.

Definition sys_memchr (m : memory) (s c n : Z) : Z :=
  if (n =? 0) || negb (user_ptr_ok s) then 0 else memchr_loop (Z.to_nat n) m s c.

Fixpoint strcmp_loop (fuel : nat) (m : memory) (pa pb : Z) : option Z :=
  match fuel with
  | O => None
  | S f =>
      let ca := m pa in
      let cb := m pb in
      if negb (ca =? cb) then Some (ca - cb)
      else if ca =? 0 then Some 0
      else strcmp_loop f m (pa + 1) (pb + 1)
  end.

Definition sys_strcmp (fuel : nat) (m : memory) (a b : Z) : option Z :=
  if (a =? 0) || (b =? 0) then Some (if a =? b then 0 else 1) else strcmp_loop fuel m a b.

Fixpoint strncmp_loop (n : nat) (m : memory) (pa pb : Z) : Z :=
  match n with
  | O => 0
  | S n' =>
      let ca := m pa in
      let cb := m pb in
      if negb (ca =? cb) then ca - cb
      else if ca =? 0 then 0
      else strncmp_loop n' m (pa + 1) (pb + 1)
  end.

Definition sys_strncmp (m : memory) (a b n : Z) : Z :=
  if n =? 0 then 0 else strncmp_loop (Z.to_nat n) m a b.

Definition sys_strstr (m : memory) (hay needle : Z) : Z :=
  if (hay =? 0) || (needle =? 0) then 0
  else
    let nlen := Z.to_nat (sys_strlen m needle) in
    if (nlen =? 0)%nat then hay
    else
      let hlen := Z.to_nat (sys_strlen m hay) in
      if (hlen <? nlen)%nat then 0
      else
        let hs := read_range m hay hlen in
        let ns := read_range m needle nlen in
        match position (λ i, bytes_eqb (slice hs i (i + nlen)) ns) (seq 0 (hlen - nlen + 1)) with
        | Some i => hay + Z.of_nat i
        | None => 0
        end.

Definition to_ascii_lowercase (c : Z) : Z := if (65 <=? c) && (c <=? 90) then c + 32 else c.

Definition sys_strcasestr (m : memory) (hay needle : Z) : Z :=
  if (hay =? 0) || (needle =? 0) then 0
  else
    let hlen := Z.to_nat (sys_strlen m hay) in
    let nlen := Z.to_nat (sys_strlen m needle) in
    if (nlen =? 0)%nat then hay
    else if (hlen <? nlen)%nat then 0
    else
      let hs := to_ascii_lowercase <$> read_range m hay hlen in
      let ns := to_ascii_lowercase <$> read_range m needle nlen in
      match position (λ i, bytes_eqb (slice hs i (i + nlen)) ns) (seq 0 (hlen - nlen + 1)) with
      | Some i => hay + Z.of_nat i
      | None => 0
      end.

Fixpoint strchr_loop (fuel : nat) (m : memory) (p c : Z) : option Z :=
  match fuel with
  | O => None
  | S f =>
      let b := m p in
      if b =? u8 c then Some p else if b =? 0 then Some 0 else strchr_loop f m (p + 1) c
  end.

Definition sys_strchr (fuel : nat) (m : memory) (s c : Z) : option Z :=
  if s =? 0 then Some 0 else strchr_loop fuel m s c.

Fixpoint strrchr_loop (fuel : nat) (m : memory) (p c last : Z) : option Z :=
  match fuel with
  | O => None
  | S f =>
      let b := m p in
      let last' := if b =? u8 c then p else last in
      if b =? 0 then Some last' else strrchr_loop f m (p + 1) c last'
  end.

Definition sys_strrchr (fuel : nat) (m : memory) (s c : Z) : option Z :=
  if s =? 0 then Some 0 else strrchr_loop fuel m s c 0.

Fixpoint strnlen_loop (n : nat) (m : memory) (p : Z) : Z :=
  match n with
  | O => 0
  | S n' => if m p =? 0 then 0 else 1 + strnlen_loop n' m (p + 1)
  end.

Definition sys_strnlen (m : memory) (s n : Z) : Z := if s =? 0 then 0 else strnlen_loop (Z.to_nat n) m s.

Definition contains (l : bytes) (c : Z) : bool := existsb (Z.eqb c) l.

Fixpoint strcspn_loop (fuel : nat) (m : memory) (p : Z) (rs : bytes) : option Z :=
  match fuel with
  | O => None
  | S f =>
      let c := m p in
      if c =? 0 then Some 0
      else if contains rs c then Some 0
      else (λ n, 1 + n) <$> strcspn_loop f m (p + 1) rs
  end.

Definition set_at (m : memory) (p : Z) : bytes :=
  if negb (p =? 0) then read_range m p (Z.to_nat (sys_strlen m p)) else [].

Definition sys_strcspn (fuel : nat) (m : memory) (s reject : Z) : option Z :=
  if s =? 0 then Some 0 else strcspn_loop fuel m s (set_at m reject).

Fixpoint strspn_loop (fuel : nat) (m : memory) (p : Z) (acc : bytes) : option Z :=
  match fuel with
  | O => None
  | S f =>
      let c := m p in
      if (c =? 0) || negb (contains acc c) then Some 0
      else (λ n, 1 + n) <$> strspn_loop f m (p + 1) acc
  end.

Definition sys_strspn (fuel : nat) (m : memory) (s accept : Z) : option Z :=
  if s =? 0 then Some 0 else strspn_loop fuel m s (set_at m accept).

(** ** Copying *)

(** The result of a function that writes: the memory and the value. *)
Definition sys_memcpy (m : memory) (dst src n : Z) : memory * Z :=
  if (n =? 0) || negb (user_ptr_ok dst) || negb (user_ptr_ok src) then (m, dst)
  else (copy_bytes m src dst n, dst).

Definition sys_memmove (m : memory) (dst src n : Z) : memory * Z :=
  if (n =? 0) || negb (user_ptr_ok dst) || negb (user_ptr_ok src) then (m, dst)
  else (copy_bytes m src dst n, dst).

Definition sys_memset (m : memory) (dst val n : Z) : memory * Z :=
  if (n =? 0) || negb (user_ptr_ok dst) then (m, dst) else (write_bytes m dst (u8 val) n, dst).

Definition sys_bzero (m : memory) (dst n : Z) : memory * Z := sys_memset m dst 0 n.

Fixpoint strcpy_loop (fuel : nat) (m : memory) (pd ps : Z) : option memory :=
  match fuel with
  | O => None
  | S f =>
      let c := m ps in
      let m' := write_byte m pd c in
      if c =? 0 then Some m' else strcpy_loop f m' (pd + 1) (ps + 1)
  end.

Definition sys_strcpy (fuel : nat) (m : memory) (dst src : Z) : option (memory * Z) :=
  if (dst =? 0) || (src =? 0) then Some (m, dst)
  else m' ← strcpy_loop fuel m dst src; Some (m', dst).

Fixpoint strncpy_loop (n : nat) (m : memory) (pd ps src : Z) : memory :=
  match n with
  | O => m
  | S n' =>
      if negb (src =? 0) then strncpy_loop n' (write_byte m pd (m ps)) (pd + 1) (ps + 1) src
      else strncpy_loop n' (write_byte m pd 0) (pd + 1) ps src
  end.

Definition sys_strncpy (m : memory) (dst src n : Z) : memory * Z :=
  if dst =? 0 then (m, 0) else (strncpy_loop (Z.to_nat n) m dst src src, dst).

Definition sys_strcat (fuel : nat) (m : memory) (dst src : Z) : option (memory * Z) :=
  let dlen := sys_strlen m dst in
  r ← sys_strcpy fuel m (u64 (dst + dlen)) src; Some (r.1, dst).

Definition sys_strncat (m : memory) (dst src n : Z) : memory * Z :=
  let dlen := sys_strlen m dst in
  let m1 := (sys_strncpy m (u64 (dst + dlen)) src n).1 in
  (write_byte m1 (u64 (dst + u64 (dlen + n))) 0, dst).

(** ** Numbers *)

(** [x as i64]. *)
Definition i64 (z : Z) : Z := let r := wrap 64 z in if r <? 2 ^ 63 then r else r - 2 ^ 64.

Definition digit_of (c : Z) : option Z :=
  if (48 <=? c) && (c <=? 57) then Some (c - 48)
  else if (97 <=? c) && (c <=? 102) then Some (c - 97 + 10)
  else if (65 <=? c) && (c <=? 70) then Some (c - 65 + 10)
  else None.

(** The value and the number of digits. *)
Fixpoint strtol_loop (s : bytes) (base val : Z) (consumed : nat) : Z * nat :=
  match s with
  | [] => (val, consumed)
  | c :: s' =>
      match digit_of c with
      | None => (val, consumed)
      | Some d =>
          if base <=? d then (val, consumed)
          else strtol_loop s' base (i64 (i64 (val * base) + d)) (S consumed)
      end
  end.

(** The bytes [trim_start] removes, as far as the text is valid UTF-8. *)
Fixpoint leading_space (chars : list Z) : nat :=
  match chars with
  | [] => O
  | c :: chars' => if Http.is_whitespace c then (Http.utf8_width c + leading_space chars')%nat else O
  end.

(** [dangling] is the address of the empty slices the function falls back to. *)
Definition sys_strtol (dangling : Z) (m : memory) (s endptr base : Z) : memory * Z :=
  if s =? 0 then (m, 0)
  else
    let bytes := read_cstr m s in
    let '(text, ptr) :=
      match bytes with
      | Some bs =>
          match Http.from_utf8 bs with
          | Some chars => (drop (leading_space chars) bs, s + Z.of_nat (leading_space chars))
          | None => ([], dangling)
          end
      | None => ([], dangling)
      end in
    let '(neg, text1, ptr1) :=
      match strip_prefix [45] text with
      | Some t => (true, t, ptr + 1)
      | None => (false, text, ptr)
      end in
    let base1 := i64 (if base =? 0 then 10 else base) in
    let '(val, consumed) := strtol_loop text1 base1 0 0 in
    let m1 :=
      if negb (endptr =? 0)
      then write_word 8 m endptr (ptr1 + Z.of_nat consumed + if neg then 1 else 0) else m in
    (m1, if neg then i64 (- val) else val).

Definition sys_atoi (dangling : Z) (m : memory) (s : Z) : Z := (sys_strtol dangling m s 0 10).2.

(** The xorshift generator. *)
Definition sys_rand (x : Z) : Z * Z :=
  let x1 := Z.lxor x (u64 (Z.shiftl x 13)) in
  let x2 := Z.lxor x1 (Z.shiftr x1 7) in
  let x3 := Z.lxor x2 (u64 (Z.shiftl x2 17)) in
  (x3, Z.land x3 0x7FFFFFFF).

Definition sys_srand (seed : Z) : Z := Z.lor seed 1.

(** ** Strings as lists of bytes *)

(** The string [s] with its terminator is at [p]. *)
Fixpoint cstr (m : memory) (p : Z) (s : bytes) : Prop :=
  match s with
  | [] => m p = 0
  | c :: s' => m p = c ∧ 0 < c < 256 ∧ cstr m (p + 1) s'
  end.

(** The order of strings as unsigned bytes. *)
Fixpoint bytes_lt (s t : bytes) : Prop :=
  match s, t with
  | _, [] => False
  | [], _ :: _ => True
  | c :: s', d :: t' => c < d ∨ c = d ∧ bytes_lt s' t'
  end.

(** The sign of a comparison. *)
Definition compares_as (r : Z) (s t : bytes) : Prop := (r = 0 ↔ s = t) ∧ (r < 0 ↔ bytes_lt s t).

(** The longest prefix of bytes that satisfy [f]. *)
Fixpoint take_while (f : Z → bool) (s : bytes) : bytes :=
  match s with
  | [] => []
  | c :: s' => if f c then c :: take_while f s' else []
  end.

(** The last place of [c], from [i] on. *)
Fixpoint last_place (c : Z) (s : bytes) (i : nat) : option nat :=
  match s with
  | [] => None
  | d :: s' =>
      match last_place c s' (S i) with
      | Some j => Some j
      | None => if d =? c then Some i else None
      end
  end.

(** The first place [t] occurs in [s]. *)
Definition occurs (t s : bytes) (i : nat) : Prop := t `prefix_of` drop i s.
Definition first_place (P : nat → Prop) (p r : Z) : Prop :=
  (∃ i, P i ∧ (∀ j, (j < i)%nat → ¬ P j) ∧ r = p + Z.of_nat i) ∨ (∀ i, ¬ P i) ∧ r = 0.

Lemma cstr_byte m p s : cstr m p s → 0 ≤ m p < 256.
Proof. destruct s; cbn; intros H; [rewrite H; lia|destruct H as (-> & ? & _); lia]. Qed.

Lemma cstr_lookup m p s i : cstr m p s → (i ≤ length s)%nat → m (p + Z.of_nat i) = (s ++ [0]) !!! i.
Proof.
  revert p i. induction s as [|c s IH]; intros p i H Hi; cbn in H, Hi.
  - assert (i = 0)%nat as -> by lia. by rewrite Z.add_0_r.
  - destruct H as (Hc & _ & H). destruct i as [|i]; [by rewrite Z.add_0_r|].
    transitivity (m (p + 1 + Z.of_nat i)); [f_equal; lia|]. rewrite IH by (done || lia). done.
Qed.

Lemma cstr_end m p s : cstr m p s → m (p + Z.of_nat (length s)) = 0.
Proof. intros H. rewrite (cstr_lookup m p s) by done. by apply list_lookup_total_middle. Qed.

Lemma cstr_read m p s : cstr m p s → read_range m p (length s) = s.
Proof.
  intros H. apply list_eq_same_length with (n := length s); [done|by unfold read_range; rewrite length_map, length_seq|].
  intros i x y Hi Hx Hy. unfold read_range in Hx. rewrite list_lookup_fmap, lookup_seq_lt in Hx by done.
  cbn in Hx. injection Hx as <-. rewrite (cstr_lookup m p s) by (done || lia).
  apply list_lookup_total_correct. by rewrite lookup_app_l.
Qed.

Lemma cstr_nonzero m p s : cstr m p s → Forall (λ c, 0 < c < 256) s.
Proof. revert p. induction s as [|c s IH]; intros p; cbn; [constructor|]. intros (_ & ? & H). constructor; [done|by apply (IH (p + 1))]. Qed.

Lemma strlen_loop_ok s m p len fuel :
  cstr m p s → 0 ≤ len → len + Z.of_nat (length s) ≤ STRLEN_MAX → (length s < fuel)%nat →
  strlen_loop fuel m p len = len + Z.of_nat (length s).
Proof.
  revert p len fuel. induction s as [|c s IH]; intros p len fuel H H0 Hl Hf; cbn [length cstr] in *;
    (destruct fuel as [|fuel]; [lia|]); cbn [strlen_loop].
  - rewrite H. cbn. lia.
  - destruct H as (-> & Hc & H). rewrite (proj2 (Z.eqb_neq c 0)) by lia.
    rewrite (proj2 (Z.ltb_ge _ _)) by lia. rewrite IH; [lia|done|lia|lia|lia].
Qed.

Lemma cstr_len_ok l m p fuel : cstr m p l → (length l < fuel)%nat → cstr_len fuel m p = length l.
Proof.
  revert p fuel. induction l as [|c l IH]; intros p fuel H Hl; (destruct fuel as [|fuel]; [lia|]); cbn in H |- *;
    [by rewrite H|].
  destruct H as (-> & Hc & H). rewrite (proj2 (Z.eqb_neq c 0)) by lia. f_equal. apply IH; [done|]. cbn in Hl. lia.
Qed.

(** Addresses the functions accept. *)
Definition user_range (p : Z) : Prop := 0x10000 ≤ p < 0x800000000000.

Lemma strlen_ok m p s :
  cstr m p s → user_range p → Z.of_nat (length s) ≤ STRLEN_MAX → sys_strlen m p = Z.of_nat (length s).
Proof.
  intros H [? ?] Hl. unfold sys_strlen. rewrite (proj2 (Z.ltb_ge _ _)), (proj2 (Z.leb_gt _ _)) by lia. cbn [orb].
  rewrite (strlen_loop_ok s) by (done || lia). lia.
Qed.

Lemma compares_cons c s t r : 0 ≤ c → compares_as r s t → compares_as r (c :: s) (c :: t).
Proof.
  intros Hc [H1 H2]. split; cbn; [rewrite H1; split; [by intros ->|by intros [= ->]]|].
  rewrite H2. split; [by right|]. intros [?|[_ ?]]; [lia|done].
Qed.

(** Strings that differ in their first byte, the terminator included. *)
Lemma compares_differ s t :
  Forall (λ c, 0 < c < 256) s → Forall (λ c, 0 < c < 256) t → hd 0 s ≠ hd 0 t →
  compares_as (hd 0 s - hd 0 t) s t.
Proof.
  intros Hs Ht Hne. destruct Hs as [|c s Hc Hs], Ht as [|d t Hd Ht]; cbn in *; [done|..].
  - split; cbn; [split; [lia|done]|split; [done|lia]].
  - split; cbn; [split; [lia|done]|split; [lia|done]].
  - split; cbn; [split; [lia|intros [= ->]; lia]|split; [lia|intros [?|[-> _]]; lia]].
Qed.

Lemma cstr_hd m p s : cstr m p s → m p = hd 0 s.
Proof. destruct s; cbn; [done|by intros (-> & _)]. Qed.

Lemma strcmp_ok s t m a b fuel :
  cstr m a s → cstr m b t → (length s < fuel)%nat →
  ∃ r, strcmp_loop fuel m a b = Some r ∧ compares_as r s t.
Proof.
  revert t a b fuel. induction s as [|c s IH]; intros t a b fuel Ha Hb Hf; (destruct fuel as [|fuel]; [cbn in Hf; lia|]);
    cbn [strcmp_loop]; destruct (Z.eqb_spec (m a) (m b)) as [E|E]; cbn [negb];
    try (rewrite (cstr_hd _ _ _ Ha), (cstr_hd _ _ _ Hb) in *; eexists; split; [done|];
         apply compares_differ; [by eapply cstr_nonzero..|done]).
  - cbn in Ha. rewrite Ha in *. destruct t as [|d t]; [|cbn in Hb; lia].
    exists 0. cbn. repeat split; (done || lia).
  - destruct Ha as (Hc & Hc' & Ha). rewrite Hc. rewrite (proj2 (Z.eqb_neq c 0)) by lia.
    destruct t as [|d t]; [cbn in Hb; lia|]. destruct Hb as (Hd & _ & Hb). assert (c = d) as <- by lia.
    destruct (IH t (a + 1) (b + 1) fuel Ha Hb) as (r & Hr & Hcmp); [cbn in Hf; lia|].
    exists r. split; [done|]. apply compares_cons; [lia|done].
Qed.

Lemma strncmp_ok s t m a b n :
  cstr m a s → cstr m b t → compares_as (strncmp_loop n m a b) (take n s) (take n t).
Proof.
  revert s t a b. induction n as [|n IH]; intros s t a b Ha Hb; cbn [strncmp_loop]; [by repeat split|].
  destruct (Z.eqb_spec (m a) (m b)) as [E|E]; cbn [negb].
  - destruct s as [|c s].
    + cbn in Ha. rewrite Ha in *. destruct t as [|d t]; [by repeat split|cbn in Hb; lia].
    + destruct Ha as (Hc & Hc' & Ha). rewrite Hc, (proj2 (Z.eqb_neq c 0)) by lia.
      destruct t as [|d t]; [cbn in Hb; lia|]. destruct Hb as (Hd & _ & Hb). assert (c = d) as <- by lia.
      cbn [take firstn]. apply compares_cons; [lia|]. by apply IH.
  - rewrite (cstr_hd _ _ _ Ha), (cstr_hd _ _ _ Hb) in *.
    assert (∀ l : bytes, hd 0 (take (S n) l) = hd 0 l) as Hh by (by intros []).
    rewrite <- (Hh s), <- (Hh t). apply compares_differ; [by eapply Forall_take, cstr_nonzero..|by rewrite !Hh].
Qed.

(** *** Searching *)

Lemma strchr_ok s m p c fuel :
  cstr m p s → (length s < fuel)%nat →
  strchr_loop fuel m p c =
    Some match position (Z.eqb (u8 c)) (s ++ [0]) with Some i => p + Z.of_nat i | None => 0 end.
Proof.
  revert p fuel. induction s as [|d s IH]; intros p fuel H Hf; (destruct fuel as [|fuel]; [cbn in Hf; lia|]);
    cbn [strchr_loop app position]; rewrite (Z.eqb_sym (u8 c)).
  - cbn in H. rewrite H. destruct (0 =? u8 c); cbn; [by rewrite Z.add_0_r|done].
  - destruct H as (-> & Hd & H). destruct (d =? u8 c); [by rewrite Z.add_0_r|].
    rewrite (proj2 (Z.eqb_neq d 0)) by lia. rewrite IH by (done || cbn in Hf; lia).
    destruct (position _ (s ++ [0])); cbn [fmap option_fmap option_map]; [f_equal; lia|done].
Qed.

Lemma last_place_shift c s i : last_place c s (S i) = S <$> last_place c s i.
Proof.
  revert i. induction s as [|d s IH]; intros i; cbn; [done|]. rewrite (IH (S i)).
  destruct (last_place c s (S i)); cbn; [done|]. by destruct (d =? c).
Qed.

Lemma strrchr_ok s m p c last fuel :
  cstr m p s → (length s < fuel)%nat →
  strrchr_loop fuel m p c last =
    Some match last_place (u8 c) (s ++ [0]) 0 with Some i => p + Z.of_nat i | None => last end.
Proof.
  revert p last fuel. induction s as [|d s IH]; intros p last fuel H Hf; (destruct fuel as [|fuel]; [cbn in Hf; lia|]);
    cbn [strrchr_loop app last_place].
  - cbn in H. rewrite H. destruct (0 =? u8 c); cbn; [f_equal; lia|done].
  - destruct H as (-> & Hd & H). rewrite (proj2 (Z.eqb_neq d 0)) by lia.
    rewrite IH by (done || cbn in Hf; lia). rewrite last_place_shift.
    destruct (last_place (u8 c) (s ++ [0]) 0); cbn [fmap option_fmap option_map]; [f_equal; lia|].
    destruct (d =? u8 c); [by rewrite Z.add_0_r|done].
Qed.

Lemma strnlen_ok s m p n : cstr m p s → strnlen_loop n m p = Z.of_nat (n `min` length s).
Proof.
  revert s p. induction n as [|n IH]; intros s p H; cbn [strnlen_loop]; [done|].
  destruct s as [|c s]; cbn in H; [by rewrite H|]. destruct H as (-> & Hc & H).
  rewrite (proj2 (Z.eqb_neq c 0)) by lia. rewrite (IH s) by done. cbn [length]. lia.
Qed.

Lemma strcspn_ok s m p rs fuel :
  cstr m p s → (length s < fuel)%nat →
  strcspn_loop fuel m p rs = Some (Z.of_nat (length (take_while (λ c, negb (contains rs c)) s))).
Proof.
  revert p fuel. induction s as [|c s IH]; intros p fuel H Hf; (destruct fuel as [|fuel]; [cbn in Hf; lia|]);
    cbn [strcspn_loop take_while].
  - cbn in H. by rewrite H.
  - destruct H as (-> & Hc & H). rewrite (proj2 (Z.eqb_neq c 0)) by lia. destruct (contains rs c); [done|].
    rewrite IH by (done || cbn in Hf; lia). cbn. f_equal. lia.
Qed.

Lemma strspn_ok s m p acc fuel :
  cstr m p s → (length s < fuel)%nat →
  strspn_loop fuel m p acc = Some (Z.of_nat (length (take_while (contains acc) s))).
Proof.
  revert p fuel. induction s as [|c s IH]; intros p fuel H Hf; (destruct fuel as [|fuel]; [cbn in Hf; lia|]);
    cbn [strspn_loop take_while].
  - cbn in H. by rewrite H.
  - destruct H as (-> & Hc & H). rewrite (proj2 (Z.eqb_neq c 0)) by lia. cbn [orb]. destruct (contains acc c); [|done].
    cbn [negb]. rewrite IH by (done || cbn in Hf; lia). cbn. f_equal. lia.
Qed.

Lemma set_at_ok m p s :
  cstr m p s → user_range p → Z.of_nat (length s) ≤ STRLEN_MAX → set_at m p = s.
Proof.
  intros H Hp Hl. unfold set_at. rewrite (strlen_ok m p s), Nat2Z.id by done.
  rewrite (proj2 (Z.eqb_neq p 0)) by (destruct Hp; lia). by apply cstr_read.
Qed.

(** The loop over the places where [t] still fits. *)
Lemma search_ok (s t : bytes) :
  t ≠ [] → (length t ≤ length s)%nat →
  match position (λ i, bytes_eqb (slice s i (i + length t)) t) (seq 0 (length s - length t + 1)) with
  | Some i => occurs t s i ∧ ∀ j, (j < i)%nat → ¬ occurs t s j
  | None => ∀ i, ¬ occurs t s i
  end.
Proof.
  intros Hne Hl. set (k := (length s - length t + 1)%nat).
  assert (∀ i, bytes_eqb (slice s i (i + length t)) t = true ↔ occurs t s i) as Heq.
  { intros i. unfold slice, occurs. replace (i + length t - i)%nat with (length t) by lia. rewrite bytes_eqb_eq. split.
    - intros <-. apply prefix_take.
    - intros [r ->]. apply take_app_length. }
  assert (∀ i, occurs t s i → (i < k)%nat) as Hk.
  { intros i Hi. apply prefix_length in Hi. rewrite length_drop in Hi. destruct t; [done|]. cbn in *. lia. }
  destruct (position _ _) as [i|] eqn:E.
  - apply position_Some in E as [(x & Hx & Hp) Hb]. apply lookup_seq in Hx as [-> Hx]. split; [by apply Heq|].
    intros j Hj Hoc. apply Heq in Hoc. rewrite (Hb j j) in Hoc; [done|done|]. apply lookup_seq. lia.
  - rewrite position_None in E. intros i Hoc. pose proof (Hk i Hoc) as Hi. apply Heq in Hoc.
    eapply Forall_lookup_1 with (i := i) (x := i) in E; [|apply lookup_seq; lia]. cbn in E. congruence.
Qed.

Lemma strstr_ok m a b s t :
  cstr m a s → cstr m b t → user_range a → user_range b →
  Z.of_nat (length s) ≤ STRLEN_MAX → Z.of_nat (length t) ≤ STRLEN_MAX →
  first_place (occurs t s) a (sys_strstr m a b).
Proof.
  intros Ha Hb Hra Hrb Hls Hlt. unfold sys_strstr.
  rewrite (proj2 (Z.eqb_neq a 0)), (proj2 (Z.eqb_neq b 0)) by (destruct Hra, Hrb; lia). cbn [orb].
  rewrite (strlen_ok m b t), (strlen_ok m a s), !Nat2Z.id, (cstr_read m a s), (cstr_read m b t) by done.
  destruct (Nat.eqb_spec (length t) 0) as [E|E].
  { left. exists 0%nat. apply nil_length_inv in E as ->. split; [apply prefix_nil|]. split; [lia|lia]. }
  destruct (Nat.ltb_spec (length s) (length t)).
  - right. split; [|done]. intros i Hi. apply prefix_length in Hi. rewrite length_drop in Hi. lia.
  - pose proof (search_ok s t ltac:(by intros ->) ltac:(lia)) as Hs.
    destruct (position _ _) as [i|]; [left; exists i; by destruct Hs|by right].
Qed.

(** *** Copying *)

Lemma cstr_ext m m' p s :
  (∀ a, p ≤ a ≤ p + Z.of_nat (length s) → m' a = m a) → cstr m p s → cstr m' p s.
Proof.
  revert p. induction s as [|c s IH]; intros p H; cbn; [by rewrite H by (cbn; lia)|].
  cbn [length] in H. intros (<- & Hc & Hs). split; [apply H; lia|]. split; [done|].
  apply IH; [|done]. intros a Ha. apply H. lia.
Qed.

Lemma cstr_app m p s t :
  cstr m (p + Z.of_nat (length s)) t → (∀ i c, s !! i = Some c → m (p + Z.of_nat i) = c) →
  Forall (λ c, 0 < c < 256) s → cstr m p (s ++ t).
Proof.
  revert p. induction s as [|c s IH]; intros p Ht Hs Hc; cbn; [by rewrite Z.add_0_r in Ht|].
  apply Forall_cons in Hc as [Hc0 Hc]. split; [rewrite <- (Hs 0%nat c) by done; f_equal; lia|]. split; [done|].
  apply IH; [|intros i d Hi; rewrite <- (Hs (S i) d) by done; f_equal; lia|done].
  cbn [length] in Ht. by replace (p + 1 + Z.of_nat (length s)) with (p + Z.of_nat (S (length s))) by lia.
Qed.

Definition apart (p np q nq : Z) : Prop := p + np ≤ q ∨ q + nq ≤ p.

Lemma strcpy_loop_ok s m pd ps fuel :
  cstr m ps s → apart pd (Z.of_nat (length s) + 1) ps (Z.of_nat (length s) + 1) → (length s < fuel)%nat →
  ∃ m', strcpy_loop fuel m pd ps = Some m' ∧ ∀ a, m' a = copy_bytes m ps pd (Z.of_nat (length s) + 1) a.
Proof.
  revert m pd ps fuel. induction s as [|c s IH]; intros m pd ps fuel H Hap Hf; (destruct fuel as [|fuel]; [cbn in Hf; lia|]);
    cbn [strcpy_loop length] in *.
  - cbn in H. rewrite H. cbn. eexists. split; [done|]. intros a. unfold write_byte, copy_bytes.
    destruct (Z.eqb_spec a pd) as [->|].
    + rewrite (proj2 (Z.leb_le _ _)), (proj2 (Z.ltb_lt _ _)) by lia. cbn. rewrite <- H. f_equal. lia.
    + case_if; unbool; (lia || done).
  - destruct H as (Hc & Hc' & H). rewrite Hc, (proj2 (Z.eqb_neq c 0)) by lia. unfold apart in *.
    destruct (IH (write_byte m pd c) (pd + 1) (ps + 1) fuel) as (m' & E & Hm'); [|lia|lia|].
    { apply (cstr_ext m); [|done]. intros a Ha. unfold write_byte. destruct (Z.eqb_spec a pd); [lia|done]. }
    exists m'. split; [done|]. intros a. rewrite Hm'. unfold copy_bytes, write_byte.
    destruct (Z.leb_spec (pd + 1) a), (Z.ltb_spec a (pd + 1 + (Z.of_nat (length s) + 1))),
      (Z.leb_spec pd a), (Z.ltb_spec a (pd + (Z.of_nat (S (length s)) + 1))); cbn [andb]; try lia;
      repeat (case_if; unbool; try lia); try done; try (f_equal; lia).
    rewrite <- Hc. f_equal. lia.
Qed.

Lemma copied_cstr m m' pd ps s :
  cstr m ps s → (∀ a, m' a = copy_bytes m ps pd (Z.of_nat (length s) + 1) a) → cstr m' pd s.
Proof.
  intros H Hm. enough (∀ k l, s = k ++ l → cstr m' (pd + Z.of_nat (length k)) l) as Hk.
  { pose proof (Hk [] s eq_refl) as H0. cbn in H0. by rewrite Z.add_0_r in H0. }
  assert (∀ i, (i ≤ length s)%nat → m' (pd + Z.of_nat i) = (s ++ [0]) !!! i) as Hl.
  { intros i Hi. rewrite Hm, <- (cstr_lookup m ps s) by done. unfold copy_bytes.
    rewrite (proj2 (Z.leb_le _ _)), (proj2 (Z.ltb_lt _ _)) by lia. cbn. f_equal. lia. }
  pose proof (cstr_nonzero _ _ _ H) as Hnz. intros k l Ek. revert k Ek.
  induction l as [|c l IH]; intros k Ek; cbn.
  - rewrite Hl by (rewrite Ek, length_app; cbn; lia). rewrite app_nil_r in Ek. subst k. by apply list_lookup_total_middle.
  - split; [|split].
    + rewrite Hl by (rewrite Ek, length_app; cbn; lia). rewrite Ek, <- app_assoc. by apply list_lookup_total_middle.
    + rewrite Ek, Forall_app, Forall_cons in Hnz. tauto.
    + replace (pd + Z.of_nat (length k) + 1) with (pd + Z.of_nat (length (k ++ [c]))) by (rewrite length_app; cbn; lia).
      apply IH. by rewrite <- app_assoc.
Qed.

Lemma strncpy_loop_ok n m pd ps src :
  src ≠ 0 → apart pd (Z.of_nat n) ps (Z.of_nat n) →
  ∀ a, strncpy_loop n m pd ps src a = copy_bytes m ps pd (Z.of_nat n) a.
Proof.
  intros Hsrc. revert m pd ps. induction n as [|n IH]; intros m pd ps Hap a; cbn [strncpy_loop]; unfold apart in *.
  - unfold copy_bytes. case_if; unbool; (lia || done).
  - rewrite (proj2 (Z.eqb_neq src 0)) by done. cbn [negb]. rewrite IH by lia. unfold copy_bytes, write_byte.
    destruct (Z.leb_spec (pd + 1) a), (Z.ltb_spec a (pd + 1 + Z.of_nat n)),
      (Z.leb_spec pd a), (Z.ltb_spec a (pd + Z.of_nat (S n))); cbn [andb]; try lia;
      repeat (case_if; unbool; try lia); try done; try (f_equal; lia).
Qed.

(** *** Numbers *)

Lemma from_utf8_ascii bs : Forall (λ c, 0 ≤ c < 128) bs → Http.from_utf8 bs = Some bs.
Proof.
  induction 1 as [|c bs Hc H IH]; cbn; [done|]. rewrite (proj2 (Z.ltb_lt _ _)) by lia. by rewrite IH.
Qed.

Definition is_space (c : Z) : bool := ((9 <=? c) && (c <=? 13)) || (c =? 32).

Lemma whitespace_ascii c : 0 ≤ c < 128 → Http.is_whitespace c = is_space c.
Proof.
  intros Hc. unfold Http.is_whitespace, is_space, Http.in_range. cbn [existsb].
  destruct (Z.eqb_spec c 0x20); [by subst|].
  rewrite ?(proj2 (Z.eqb_neq c 0x85)), ?(proj2 (Z.eqb_neq c 0xA0)), ?(proj2 (Z.eqb_neq c 0x1680)),
    ?(proj2 (Z.eqb_neq c 0x2028)), ?(proj2 (Z.eqb_neq c 0x2029)), ?(proj2 (Z.eqb_neq c 0x202F)),
    ?(proj2 (Z.eqb_neq c 0x205F)), ?(proj2 (Z.eqb_neq c 0x3000)), (proj2 (Z.leb_gt 0x2000 c)) by lia.
  cbn [orb andb]. by rewrite !orb_false_r.
Qed.

Lemma leading_space_ok sp rest :
  Forall (λ c, 0 ≤ c < 128 ∧ is_space c = true) sp →
  match rest with [] => True | c :: _ => 0 ≤ c < 128 ∧ is_space c = false end →
  leading_space (sp ++ rest) = length sp.
Proof.
  induction 1 as [|c sp [Hc Hs] H IH]; intros Hr; cbn.
  - destruct rest as [|c rest]; [done|]. destruct Hr as [Hc Hs]. cbn. by rewrite whitespace_ascii, Hs.
  - rewrite whitespace_ascii, Hs by done. unfold Http.utf8_width. rewrite (proj2 (Z.ltb_lt _ _)) by lia. by rewrite IH.
Qed.

Definition decimal (v : Z) (ds : list Z) : Z := foldl (λ v d, v * 10 + d) v ds.

Lemma decimal_mono ds v : Forall (λ d, 0 ≤ d < 10) ds → 0 ≤ v → v ≤ decimal v ds.
Proof.
  intros H. revert v. induction H as [|d ds Hd H IH]; intros v Hv; cbn; [lia|].
  specialize (IH (v * 10 + d) ltac:(lia)). unfold decimal in IH. lia.
Qed.

Lemma i64_small z : 0 ≤ z < 2 ^ 63 → i64 z = z.
Proof. intros H. unfold i64, wrap. rewrite Z.mod_small by lia. by rewrite (proj2 (Z.ltb_lt _ _)) by lia. Qed.

Lemma digit_of_decimal d : 0 ≤ d < 10 → digit_of (48 + d) = Some d.
Proof.
  intros Hd. unfold digit_of. rewrite (proj2 (Z.leb_le 48 _)), (proj2 (Z.leb_le _ 57)) by lia. cbn. f_equal. lia.
Qed.

(** The character behind the digits. *)
Definition stops (rest : bytes) : Prop :=
  match rest with
  | [] => True
  | c :: _ => match digit_of c with Some d => 10 ≤ d | None => True end
  end.

Lemma strtol_loop_ok ds rest v k :
  Forall (λ d, 0 ≤ d < 10) ds → stops rest → 0 ≤ v → decimal v ds < 2 ^ 63 →
  strtol_loop (map (Z.add 48) ds ++ rest) 10 v k = (decimal v ds, (k + length ds)%nat).
Proof.
  intros H Hr. revert v k. induction H as [|d ds Hd H IH]; intros v k Hv Hlt; cbn [map app strtol_loop].
  - rewrite Nat.add_0_r. destruct rest as [|c rest]; cbn [strtol_loop]; [done|]. cbn in Hr.
    destruct (digit_of c) as [d|]; [|done]. by rewrite (proj2 (Z.leb_le _ _)) by lia.
  - rewrite digit_of_decimal, (proj2 (Z.leb_gt _ _)) by lia. cbn in Hlt.
    pose proof (decimal_mono ds (v * 10 + d) H ltac:(lia)) as Hm. unfold decimal in Hm.
    rewrite (i64_small (v * 10)), i64_small by lia. rewrite IH by (done || lia). cbn. f_equal. lia.
Qed.

(** ** Results *)

(** C34: On terminated strings of up to 1 MiB (where [strlen] stops) in user memory
    the functions that read agree with the definitions on lists: the length; the order of whole strings
    and of their first bytes; the first and the last place of a byte, the
    terminator included; the first occurrence of a string; the length of the
    longest prefix inside or outside a set. *)
Theorem string_functions_agree m a b s t c n fuel :
  cstr m a s → cstr m b t → user_range a → user_range b → Z.of_nat (length s) ≤ STRLEN_MAX →
  Z.of_nat (length t) ≤ STRLEN_MAX → (length s < fuel)%nat →
  sys_strlen m a = Z.of_nat (length s) ∧
  sys_strnlen m a n = Z.of_nat (Z.to_nat n `min` length s) ∧
  (∃ r, sys_strcmp fuel m a b = Some r ∧ compares_as r s t) ∧
  compares_as (sys_strncmp m a b n) (take (Z.to_nat n) s) (take (Z.to_nat n) t) ∧
  sys_strchr fuel m a c =
    Some match position (Z.eqb (u8 c)) (s ++ [0]) with Some i => a + Z.of_nat i | None => 0 end ∧
  sys_strrchr fuel m a c =
    Some match last_place (u8 c) (s ++ [0]) 0 with Some i => a + Z.of_nat i | None => 0 end ∧
  first_place (occurs t s) a (sys_strstr m a b) ∧
  sys_strspn fuel m a b = Some (Z.of_nat (length (take_while (contains t) s))) ∧
  sys_strcspn fuel m a b = Some (Z.of_nat (length (take_while (λ c, negb (contains t c)) s))).
Proof.
  intros Ha Hb Hra Hrb Hls Hlt Hf. assert (a =? 0 = false) as Ea by (apply Z.eqb_neq; destruct Hra; lia).
  assert (b =? 0 = false) as Eb by (apply Z.eqb_neq; destruct Hrb; lia).
  unfold sys_strnlen, sys_strcmp, sys_strncmp, sys_strchr, sys_strrchr, sys_strspn, sys_strcspn.
  rewrite Ea, Eb, (set_at_ok m b t) by done. cbn [orb]. split_and!.
  - by apply strlen_ok.
  - by apply strnlen_ok.
  - by apply strcmp_ok.
  - destruct (Z.eqb_spec n 0) as [->|]; [by repeat split|]. by apply strncmp_ok.
  - by apply strchr_ok.
  - by apply strrchr_ok.
  - by apply strstr_ok.
  - by apply strspn_ok.
  - by apply strcspn_ok.
Qed.

(** [strcpy] and [strcat] to memory apart from the source leave the string, or
    the two strings joined, at the destination and change nothing behind it. *)
Theorem string_copies_correct m dst src s d fuel :
  cstr m src s → cstr m dst d → user_range src → user_range dst →
  Z.of_nat (length s) + Z.of_nat (length d) ≤ STRLEN_MAX → (length s < fuel)%nat →
  apart dst (Z.of_nat (length d) + Z.of_nat (length s) + 1) src (Z.of_nat (length s) + 1) →
  (∃ m', sys_strcpy fuel m dst src = Some (m', dst) ∧ cstr m' dst s ∧
     ∀ a, ¬ (dst ≤ a ≤ dst + Z.of_nat (length s)) → m' a = m a) ∧
  (∃ m', sys_strcat fuel m dst src = Some (m', dst) ∧ cstr m' dst (d ++ s) ∧
     ∀ a, ¬ (dst + Z.of_nat (length d) ≤ a ≤ dst + Z.of_nat (length d) + Z.of_nat (length s)) → m' a = m a).
Proof.
  intros Hs Hd Hrs Hrd Hl Hf Hap. unfold apart in Hap.
  assert (∀ p m', (∀ a, m' a = copy_bytes m src p (Z.of_nat (length s) + 1) a) →
    ∀ a, ¬ (p ≤ a ≤ p + Z.of_nat (length s)) → m' a = m a) as Hout.
  { intros p m' Hm a Ha. rewrite Hm. unfold copy_bytes. case_if; unbool; (lia || done). }
  assert (src =? 0 = false) as Es by (apply Z.eqb_neq; destruct Hrs; lia). unfold user_range in *. split.
  - destruct (strcpy_loop_ok s m dst src fuel Hs) as (m' & E & Hm); [unfold apart; lia|done|].
    exists m'. unfold sys_strcpy. rewrite Es, (proj2 (Z.eqb_neq dst 0)) by lia. cbn [orb]. rewrite E.
    split; [done|]. split; [by apply (copied_cstr m m' dst src)|by apply Hout].
  - destruct (strcpy_loop_ok s m (dst + Z.of_nat (length d)) src fuel Hs) as (m' & E & Hm); [unfold apart; lia|done|].
    exists m'. unfold sys_strcat. rewrite (strlen_ok m dst d) by (done || lia).
    unfold STRLEN_MAX in *. unfold u64. rewrite wrap_small by (unfold is_u; lia). unfold sys_strcpy.
    rewrite Es, (proj2 (Z.eqb_neq (dst + _) 0)) by lia. cbn [orb]. rewrite E. split; [done|].
    split; [|by apply Hout]. apply cstr_app; [by apply (copied_cstr m m' _ src)| |by apply (cstr_nonzero m dst)].
    intros i c Hi. pose proof (lookup_lt_Some _ _ _ Hi). rewrite (Hout _ m' Hm) by lia.
    rewrite (cstr_lookup m dst d) by (done || lia). apply list_lookup_total_correct. by rewrite lookup_app_l.
Qed.

(** [strncpy] does not stop at the terminator: instead of filling the rest of
    the destination with zeros it copies what lies behind the source string. *)
Theorem strncpy_copies_past_terminator m dst src s n i :
  cstr m src s → user_range src → user_range dst → apart dst n src n →
  (length s < i)%nat → Z.of_nat i < n →
  (sys_strncpy m dst src n).1 (dst + Z.of_nat i) = m (src + Z.of_nat i).
Proof.
  intros Hs [Hrs _] [Hrd _] Hap Hi Hn. unfold sys_strncpy. rewrite (proj2 (Z.eqb_neq dst 0)) by lia. cbn [fst].
  rewrite strncpy_loop_ok by (rewrite ?Z2Nat.id by lia; (done || lia)). rewrite Z2Nat.id by lia.
  unfold copy_bytes. rewrite (proj2 (Z.leb_le _ _)), (proj2 (Z.ltb_lt _ _)) by lia. cbn. f_equal. lia.
Qed.

(** [strtol] in base ten returns the number the text starts with after white
    space; behind a number without sign it leaves [endptr], behind a negative
    one it leaves [endptr] one character too far. *)
Theorem strtol_negative_endptr dangling m s endptr (sp : bytes) (neg : bool) ds rest :
  let text := sp ++ (if neg then [45] else []) ++ map (Z.add 48) ds ++ rest in
  cstr m s text → user_range s → endptr ≠ 0 → (length text < MAX_CSTR)%nat →
  Forall (λ c, 0 ≤ c < 128) rest → Forall (λ c, 0 ≤ c < 128 ∧ is_space c = true) sp →
  ds ≠ [] → Forall (λ d, 0 ≤ d < 10) ds → stops rest → decimal 0 ds < 2 ^ 63 →
  sys_strtol dangling m s endptr 10 =
    (write_word 8 m endptr
       (s + Z.of_nat (length sp) + Z.of_nat (length ds) + if neg then 2 else 0),
     if neg then - decimal 0 ds else decimal 0 ds).
Proof.
  intros text Hc [Hs1 Hs2] He Hl Hrest Hsp Hne Hds Hstop Hdec. unfold sys_strtol.
  rewrite (proj2 (Z.eqb_neq s 0)) by lia. unfold read_cstr.
  rewrite (proj2 (Z.ltb_ge _ _)), (proj2 (Z.leb_gt _ _)) by lia. cbn [orb].
  rewrite (cstr_len_ok text), (cstr_read m s text) by done.
  assert (Forall (λ c, 0 ≤ c < 128) text) as Hascii.
  { unfold text. rewrite !Forall_app. split_and!.
    - eapply Forall_impl; [exact Hsp|]. by intros c [? _].
    - destruct neg; repeat constructor; lia.
    - apply Forall_forall. intros c Hin. apply list_elem_of_In, in_map_iff in Hin as (d & <- & Hd).
      rewrite Forall_forall in Hds. apply list_elem_of_In, Hds in Hd. cbn in Hd. lia.
    - done. }
  rewrite from_utf8_ascii by done. destruct ds as [|d0 ds']; [done|]. pose proof (Forall_inv Hds) as Hd0. cbn in Hd0.
  assert (leading_space text = length sp) as Hlead.
  { apply leading_space_ok; [done|]. destruct neg; cbn; [by split; [lia|]|]. split; [lia|].
    unfold is_space. rewrite (proj2 (Z.leb_gt _ 13)), (proj2 (Z.eqb_neq _ 32)), andb_false_r by lia. done. }
  rewrite Hlead. replace (drop (length sp) text) with ((if neg then [45] else []) ++ map (Z.add 48) (d0 :: ds') ++ rest)
    by (unfold text; by rewrite drop_app_length).
  assert (0 ≤ decimal 0 (d0 :: ds')) as Hd by (apply decimal_mono; [done|lia]).
  pose proof (strtol_loop_ok (d0 :: ds') rest 0 0 Hds Hstop ltac:(lia) Hdec) as Hloop. cbn [map app] in Hloop.
  rewrite (proj2 (Z.eqb_neq endptr 0)) by done. change (i64 (if 10 =? 0 then 10 else 10)) with 10. cbn [negb].
  destruct neg; cbn [app map strip_prefix].
  - rewrite Z.eqb_refl, Hloop. cbn [Nat.add]. f_equal; [f_equal; lia|]. unfold i64, wrap.
    destruct (Z.eq_dec (decimal 0 (d0 :: ds')) 0) as [->|]; [done|].
    replace ((- decimal 0 (d0 :: ds')) mod 2 ^ 64) with (2 ^ 64 - decimal 0 (d0 :: ds')).
    + rewrite (proj2 (Z.ltb_ge _ _)) by lia. lia.
    + apply Z.mod_unique with (q := -1); lia.
  - rewrite (proj2 (Z.eqb_neq 45 _)) by lia. rewrite Hloop. cbn [Nat.add]. reflexivity.
Qed.

(** ** Examples *)

(** Memory with [s] at [0x20000] and [t] at [0x30000], zero elsewhere. *)
Definition sample_memory (s t : bytes) : memory :=
  λ a, nth (Z.to_nat (a - 0x20000)) (if a <? 0x20000 then [] else s)
         (nth (Z.to_nat (a - 0x30000)) (if a <? 0x30000 then [] else t) 0).

Lemma string_functions_witness :
  let m := sample_memory (str "kernel") (str "ern") in
  sys_strlen m 0x20000 = 6 ∧ sys_strchr 7 m 0x20000 101 = Some 0x20001 ∧ sys_strrchr 7 m 0x20000 101 = Some 0x20004 ∧
  first_place (occurs (str "ern") (str "kernel")) 0x20000 (sys_strstr m 0x20000 0x30000).
Proof.
  destruct (string_functions_agree (sample_memory (str "kernel") (str "ern")) 0x20000 0x30000 (str "kernel") (str "ern")
    101 3 7) as (H1 & _ & _ & _ & H2 & H3 & H4 & _);
    [by vm_compute|by vm_compute|by split|by split|by vm_compute|by vm_compute|vm_compute; lia|].
  split; [exact H1|]. split; [exact H2|]. split; [exact H3|exact H4].
Defined.

Lemma string_copies_witness :
  ∃ m', sys_strcat 4 (sample_memory (str "user") (str "mem")) 0x20000 0x30000 = Some (m', 0x20000) ∧
    cstr m' 0x20000 (str "usermem").
Proof.
  destruct (string_copies_correct (sample_memory (str "user") (str "mem")) 0x20000 0x30000 (str "mem") (str "user") 4)
    as (_ & m' & H1 & H2 & _);
    [by vm_compute|by vm_compute|by split|by split|by vm_compute|vm_compute; lia|left; by vm_compute|].
  exists m'. split; [exact H1|exact H2].
Defined.

Lemma strncpy_past_witness :
  (sys_strncpy (sample_memory [97; 0; 120] []) 0x30000 0x20000 3).1 0x30002 = 120.
Proof.
  refine (eq_trans (strncpy_copies_past_terminator (sample_memory [97; 0; 120] []) 0x30000 0x20000 [97] 3 2 _ _ _ _ _ _) _);
    [by vm_compute|by split|by split|right; by vm_compute|cbn; lia|lia|reflexivity].
Defined.

Lemma strtol_endptr_witness :
  sys_strtol 1 (sample_memory (str " -42") []) 0x20000 0x40000 10 =
    (write_word 8 (sample_memory (str " -42") []) 0x40000 0x20005, -42).
Proof.
  refine (strtol_negative_endptr 1 (sample_memory (str " -42") []) 0x20000 0x40000 [32] true [4; 2] [] _ _ _ _ _ _ _ _ _ _);
    [by vm_compute|by split|done|unfold MAX_CSTR; cbn; lia|constructor|by repeat constructor|done
    |repeat (apply Forall_cons_2; [lia|]); apply Forall_nil_2|done|by vm_compute].
Defined.
End CString.
