(* ===== verification/UserHeap.v ===== *)
(** * The heap of user programs ([syscall/posix.rs])

    [malloc] and its relatives are system calls.  The kernel keeps one table of
    live blocks and one list of free blocks for all processes; a block is a
    run of pages of an address space, named by its page-table root, with a
    header of 16 bytes in front of the memory it hands out.  New blocks come
    from [VaAlloc.mmap_anon].

    [heap_blocks_disjoint] is the contract of an allocator, over histories of
    all calls in all address spaces; [realloc_keeps_contents] is about the
    bytes.  [malloc_size_wraps] and [aligned_alloc_ignores_alignment] are
    defects. *)

From Stdlib Require Import ZArith Lia Sorting.Sorted.
From stdpp Require Import base numbers strings option relations list gmap sorting.
From S2P Require Import Prelude FrameAlloc Paging VaAlloc CString.

Local Open Scope Z_scope.

Module UserHeap.
Import CString.

(** ** State *)

Record MallocBlock := mkBlock { pml4 : Z; base : Z; size : Z; pages : Z }.

#[global] Instance MallocBlock_inhabited : Inhabited MallocBlock := populate (mkBlock 0 0 0 0).

(** [MALLOC_ALLOCS] by address space and address, and [MALLOC_FREE]. *)
Record Heap := mkHeap { allocs : gmap (Z * Z) MallocBlock; free : list MallocBlock }.

Definition Heap_new : Heap := mkHeap ∅ [].

Definition set_size (b : MallocBlock) (n : Z) : MallocBlock := mkBlock (pml4 b) (base b) n (pages b).
Definition set_pages (b : MallocBlock) (n : Z) : MallocBlock := mkBlock (pml4 b) (base b) (size b) n.

(** The heap, the table of address ranges and the memory of each address
    space. *)
Record World := mkWorld { heap : Heap; ranges : VaAlloc.LibTable; umem : Z → memory }.

Definition set_umem (w : World) (p : Z) (m : memory) : World :=
  mkWorld (heap w) (ranges w) (λ q, if q =? p then m else umem w q).

(** ** The free list *)

(** [Vec::swap_remove]. *)
Definition swap_remove {A} (l : list A) (i : nat) : list A :=
  match last l with
  | Some x => if (S i =? length l)%nat then removelast l else <[i := x]> (removelast l)
  | None => l
  end.

Definition take_free_malloc_block (l : list MallocBlock) (p npages : Z) : option (list MallocBlock * MallocBlock) :=
  match position (λ b, (pml4 b =? p) && (npages <=? pages b)) l with
  | None => None
  | Some idx =>
      let block := l !!! idx in
      let l1 := swap_remove l idx in
      if npages <? pages block then
        let split_block := mkBlock p (u64 (base block + npages * 4096)) 0 (pages block - npages) in
        Some (l1 ++ [split_block], set_pages block npages)
      else Some (l1, block)
  end.

(** The order of the sort: the address space, then the address. *)
Definition block_le (a b : MallocBlock) : Prop := pml4 a < pml4 b ∨ pml4 a = pml4 b ∧ base a ≤ base b.
#[global] Instance block_le_dec a b : Decision (block_le a b).
Proof. unfold block_le. solve_decision. Defined.

(** One round of the loop that joins neighbours in place; the state is the
    vector and [write_idx]. *)
Definition coalesce_step (read_idx : nat) (s : list MallocBlock * nat) : outcome (list MallocBlock * nat) :=
  let '(l, write_idx) := s in
  let! next := load l read_idx in
  let! curr := load l write_idx in
  if (pml4 curr =? pml4 next) && (u64 (base curr + pages curr * 4096) =? base next) then
    let! l1 := store l write_idx (set_pages curr (pages curr + pages next)) in Val (l1, write_idx)
  else
    let! l1 := store l (S write_idx) next in Val (l1, S write_idx).

Definition coalesce_free_blocks (l : list MallocBlock) : outcome (list MallocBlock) :=
  if (length l <? 2)%nat then Val l
  else
    let sorted := merge_sort block_le l in
    let! r := for_range 1 (length sorted - 1) coalesce_step (sorted, O) in
    Val (take (S r.2) r.1).

(** ** Calls *)

Section calls.
(** The page tables when the call is made, the process and its root. *)
Context (mm : Paging.Mm) (pid root : Z).

Definition pages_of (n : Z) : Z := (u64 (n + 16) + 4095) / 4096.

Definition record_block (w : World) (ptr : Z) (b : MallocBlock) (l : list MallocBlock) (t : VaAlloc.LibTable) : World :=
  mkWorld (mkHeap (<[(root, ptr) := b]> (allocs (heap w))) l) t
    (λ q, if q =? root then write_u64_user (umem w root) (base b) (size b) else umem w q).

Definition sys_malloc (n : Z) (w : World) : World * Z :=
  if n =? 0 then (w, 8)
  else if pid =? 0 then (w, 0)
  else
    let npages := pages_of n in
    match take_free_malloc_block (free (heap w)) root npages with
    | Some (l, block) =>
        let ptr := u64 (base block + 16) in
        (record_block w ptr (set_size block n) l (ranges w), ptr)
    | None =>
        let '(t, va) := VaAlloc.mmap_anon mm (ranges w) root 0 npages in
        if va =? u64_MAX then (mkWorld (heap w) t (umem w), 0)
        else
          let ptr := u64 (va + 16) in
          (record_block w ptr (mkBlock root va n npages) (free (heap w)) t, ptr)
    end.

Definition sys_free (ptr : Z) (w : World) : outcome World :=
  if ptr <=? 16 then Val w
  else
    match allocs (heap w) !! (root, ptr) with
    | Some block =>
        let! l := coalesce_free_blocks (free (heap w) ++ [block]) in
        Val (mkWorld (mkHeap (delete (root, ptr) (allocs (heap w))) l) (ranges w) (umem w))
    | None => Val w
    end.

Definition sys_calloc (n sz : Z) (w : World) : World * Z :=
  let bytes := Z.min (n * sz) u64_MAX in
  let '(w1, ptr) := sys_malloc bytes w in
  if 0 <? i64 ptr then (set_umem w1 root (write_bytes (umem w1 root) ptr 0 bytes), ptr) else (w1, ptr).

Definition sys_realloc (ptr sz : Z) (w : World) : outcome (World * Z) :=
  if ptr =? 0 then Val (sys_malloc sz w)
  else if sz =? 0 then let! w1 := sys_free ptr w in Val (w1, 0)
  else
    let old_size :=
      match allocs (heap w) !! (root, ptr) with
      | Some b => size b
      | None => if 16 <=? ptr then read_word 8 (umem w root) (ptr - 16) else 0
      end in
    if sz <=? old_size then Val (w, ptr)
    else
      let '(w1, new_ptr) := sys_malloc sz w in
      if new_ptr =? 0 then Val (w1, 0)
      else
        let copy_len := Z.min old_size sz in
        let w2 := if 0 <? copy_len then set_umem w1 root (copy_bytes (umem w1 root) ptr new_ptr copy_len) else w1 in
        let! w3 := sys_free ptr w2 in
        Val (w3, new_ptr).

Definition sys_aligned_alloc (_align sz : Z) (w : World) : World * Z := sys_malloc sz w.

Definition sys_posix_memalign (pptr _align sz : Z) (w : World) : World * Z :=
  let '(w1, ptr) := sys_malloc sz w in
  (set_umem w1 root (write_u64_user (umem w1 root) pptr ptr), if ptr =? 0 then 12 else 0).

Definition sys_malloc_usable_size (ptr : Z) (w : World) : Z :=
  if ptr <? 16 then 0 else read_word 8 (umem w root) (ptr - 16).

Definition sys_strdup (s : Z) (w : World) : World * Z :=
  let len := sys_strlen (umem w root) s in
  let '(w1, new_ptr) := sys_malloc (len + 1) w in
  if new_ptr =? 0 then (w1, 0)
  else (set_umem w1 root (sys_memcpy (umem w1 root) new_ptr s (len + 1)).1, new_ptr).

Definition sys_strndup (s n : Z) (w : World) : World * Z :=
  let slen := sys_strlen (umem w root) s in
  let len := Z.min slen n in
  let '(w1, new_ptr) := sys_malloc (len + 1) w in
  if new_ptr =? 0 then (w1, 0)
  else
    let m1 := (sys_memcpy (umem w1 root) new_ptr s len).1 in
    (set_umem w1 root (write_byte m1 (u64 (new_ptr + len)) 0), new_ptr).
End calls.

(** ** Lists *)

Lemma swap_remove_perm {A} (l : list A) i x : l !! i = Some x → l ≡ₚ x :: swap_remove l i.
Proof.
  intros Hi. destruct l as [|y l] using rev_ind; [done|]. clear IHl. unfold swap_remove.
  rewrite last_snoc, removelast_last, length_app. cbn [length].
  destruct (Nat.eqb_spec (S i) (length l + 1)) as [E|E].
  - rewrite list_lookup_middle in Hi by lia. injection Hi as ->. by rewrite Permutation_app_comm.
  - pose proof (lookup_lt_Some _ _ _ Hi) as Hlt. rewrite length_app in Hlt. cbn in Hlt.
    rewrite lookup_app_l in Hi by lia. apply list_elem_of_split_length in Hi as (a & b & -> & ->).
    rewrite insert_app_r_alt, Nat.sub_diag by lia. cbn. rewrite <- app_assoc. cbn.
    rewrite <- Permutation_middle. constructor. apply Permutation_app_head. by rewrite <- Permutation_cons_append.
Qed.

(** What the loop of [coalesce_free_blocks] computes. *)
Definition adjacent (a b : MallocBlock) : bool :=
  (pml4 a =? pml4 b) && (u64 (base a + pages a * 4096) =? base b).

Fixpoint join (curr : MallocBlock) (l : list MallocBlock) : list MallocBlock :=
  match l with
  | [] => [curr]
  | next :: l' =>
      if adjacent curr next then join (set_pages curr (pages curr + pages next)) l'
      else curr :: join next l'
  end.

Lemma coalesce_loop rest :
  ∀ l r w done curr,
  drop r l = rest → take (S w) l = done ++ [curr] → length done = w → (w < r)%nat → (r ≤ length l)%nat →
  ∃ l' w', for_range r (length rest) coalesce_step (l, w) = Val (l', w') ∧ take (S w') l' = done ++ join curr rest.
Proof.
  induction rest as [|next rest IH]; intros l r w done curr Hd Ht Hw Hr Hl; cbn [length for_range].
  { eexists _, _. split; [done|]. exact Ht. }
  assert (l !! r = Some next) as Hn.
  { rewrite <- (Nat.add_0_r r), <- lookup_drop, Hd. done. }
  assert (drop (S r) l = rest) as Hd'.
  { rewrite <- Nat.add_1_r, <- drop_drop, Hd. done. }
  pose proof (lookup_lt_Some _ _ _ Hn) as Hrl.
  assert (l !! w = Some curr) as Hc.
  { rewrite <- (lookup_take_lt l (S w)) by lia. rewrite Ht. by apply list_lookup_middle. }
  assert (take w l = done) as Htw.
  { apply (f_equal (take w)) in Ht. rewrite take_take in Ht.
    rewrite Nat.min_l in Ht by lia. rewrite Ht. by rewrite take_app_le, take_ge by lia. }
  unfold coalesce_step at 1. unfold load. rewrite Hn, Hc. cbn [obind]. fold (adjacent curr next). cbn [join].
  destruct (adjacent curr next).
  - rewrite store_ok by lia. cbn [obind].
    apply (IH _ (S r) w done); [by rewrite drop_insert_lt by lia| |done|lia|by rewrite length_insert].
    rewrite (take_S_r _ w (set_pages curr (pages curr + pages next))) by (apply list_lookup_insert_eq; lia).
    rewrite take_insert_ge by lia. by rewrite Htw.
  - rewrite store_ok by lia. cbn [obind].
    destruct (IH (<[S w := next]> l) (S r) (S w) (done ++ [curr]) next) as (l' & w' & E & Et);
      [by rewrite drop_insert_lt by lia| |rewrite length_app; cbn; lia|lia|by rewrite length_insert|].
    + rewrite (take_S_r _ (S w) next) by (apply list_lookup_insert_eq; lia). rewrite take_insert_ge by lia. by rewrite Ht.
    + exists l', w'. split; [done|]. by rewrite Et, <- app_assoc.
Qed.

Lemma coalesce_ok l :
  ∃ l', coalesce_free_blocks l = Val l' ∧
    (l' = l ∨ ∃ curr rest, l ≡ₚ curr :: rest ∧ l' = join curr rest).
Proof.
  unfold coalesce_free_blocks. destruct (Nat.ltb_spec (length l) 2) as [H|H]; [eauto|].
  pose proof (merge_sort_Permutation block_le l) as Hp. destruct (merge_sort block_le l) as [|c rest] eqn:E.
  { apply Permutation_length in Hp. cbn in Hp. lia. }
  destruct (coalesce_loop rest (c :: rest) 1 0 [] c) as (l' & w' & Hl & Ht); [done|done|done|lia|cbn; lia|].
  replace (length (c :: rest) - 1)%nat with (length rest) by (cbn; lia). rewrite Hl. cbn [obind fst snd].
  eexists. split; [done|]. right. exists c, rest. by rewrite Hp.
Qed.

(** ** The invariant *)

Definition range (b : MallocBlock) : VaAlloc.RecycledRange := VaAlloc.mkRange (pml4 b) (base b) (pages b * 4096).

(** All blocks, live and free. *)
Definition blocks (h : Heap) : list MallocBlock := (map_to_list (allocs h)).*2 ++ free h.

(** A live block is found by its address and holds the requested size behind
    its header. *)
Definition live_ok (k : Z * Z) (b : MallocBlock) : Prop :=
  k = (pml4 b, base b + 16) ∧ 0 < size b ∧ size b + 16 ≤ pages b * 4096.

(** The blocks are reserved ranges, beside the ranges [others] reserved for
    other purposes. *)
Record heap_inv (w : World) (others : list VaAlloc.RecycledRange) : Prop := {
  hi_ranges : VaAlloc.inv (ranges w) (map range (blocks (heap w)) ++ others);
  hi_live : ∀ k b, allocs (heap w) !! k = Some b → live_ok k b
}.

Lemma inv_reorder t l l' : l ≡ₚ l' → VaAlloc.inv t l → VaAlloc.inv t l'.
Proof. intros H. apply VaAlloc.inv_perm; [done|]. unfold VaAlloc.all_ranges. by rewrite H. Qed.

Lemma map_perm {A B} (f : A → B) (l l' : list A) : l ≡ₚ l' → map f l ≡ₚ map f l'.
Proof. apply (Permutation_map f). Qed.

(** Two adjacent reserved ranges are one. *)
Lemma inv_join t a b live :
  VaAlloc.inv t (a :: b :: live) → VaAlloc.rr_pml4 b = VaAlloc.rr_pml4 a → VaAlloc.rr_end a = VaAlloc.rr_va b →
  VaAlloc.inv t (VaAlloc.mkRange (VaAlloc.rr_pml4 a) (VaAlloc.rr_va a) (VaAlloc.rr_size a + VaAlloc.rr_size b) :: live).
Proof.
  intros [Hc Hg Hp] Hpm Hadj. unfold VaAlloc.all_ranges in *. cbn [app] in *.
  apply Forall_cons in Hg as [(Sa & Va & Pa & ca & Ca & La) Hg]. apply Forall_cons in Hg as [(Sb & Vb & Pb & cb & Cb & Lb) Hg].
  rewrite Hpm, Ca in Cb. injection Cb as <-. unfold VaAlloc.rr_end in *. split; [done| |].
  - constructor; [|done]. unfold VaAlloc.good, VaAlloc.rr_end. cbn. split_and!; [lia|lia|done|].
    exists ca. split; [done|lia].
  - apply (VaAlloc.pairwise_merge a b); try done; try lia.
    + eapply Forall_impl; [exact Hg|]. by intros r (? & _).
    + left. unfold VaAlloc.rr_end. cbn. lia.
Qed.

Lemma range_bounds t l b live :
  VaAlloc.inv t (map range l ++ live) → b ∈ l →
  0 < pages b ∧ VaAlloc.ANON_VA_BASE ≤ base b ∧ base b + pages b * 4096 ≤ VaAlloc.USER_END ∧ pml4 b ≠ 0.
Proof.
  intros HI Hb. pose proof (VaAlloc.inv_bounds _ _ HI) as H. pose proof (VaAlloc.i_good _ _ HI) as Hg.
  apply Forall_app in H as [H _]. apply Forall_app in H as [H _]. apply Forall_app in Hg as [Hg _]. apply Forall_app in Hg as [Hg _].
  rewrite Forall_forall in H, Hg. assert (range b ∈ map range l) as Hin by (by apply list_elem_of_fmap_2).
  specialize (H _ Hin) as (? & ? & ?). specialize (Hg _ Hin) as (_ & _ & ? & _).
  unfold range, VaAlloc.rr_end in *. cbn in *. split_and!; (lia || done).
Qed.

Lemma join_inv t rest curr live :
  VaAlloc.inv t (map range (curr :: rest) ++ live) → VaAlloc.inv t (map range (join curr rest) ++ live).
Proof.
  revert curr live. induction rest as [|next rest IH]; intros curr live HI; cbn [join]; [done|].
  destruct (adjacent curr next) eqn:E.
  - apply IH. unfold adjacent in E. unbool.
    destruct (range_bounds _ _ curr _ HI) as (? & ? & ? & _); [left|].
    unfold VaAlloc.ANON_VA_BASE, VaAlloc.USER_END in *.
    match goal with H : u64 _ = _ |- _ => unfold u64 in H; rewrite wrap_small in H by (unfold is_u; lia) end.
    pose proof (inv_join t (range curr) (range next) (map range rest ++ live) HI) as HJ. unfold VaAlloc.rr_end in HJ. cbn in HJ.
    cbn. unfold range at 1. cbn. rewrite Z.mul_add_distr_r. apply HJ; [congruence|lia].
  - cbn. apply (inv_reorder _ (map range (join next rest) ++ range curr :: live)); [by rewrite Permutation_middle|].
    apply IH. eapply inv_reorder; [|exact HI]. cbn. rewrite <- Permutation_middle. apply perm_swap.
Qed.

Lemma blocks_delete h k b :
  allocs h !! k = Some b → blocks h ≡ₚ b :: (map_to_list (delete k (allocs h))).*2 ++ free h.
Proof.
  intros H. unfold blocks. rewrite <- (insert_delete_id _ _ _ H) at 1.
  rewrite map_to_list_insert by apply lookup_delete_eq. done.
Qed.

Lemma blocks_insert (al : gmap (Z * Z) MallocBlock) l k b :
  al !! k = None → blocks (mkHeap (<[k := b]> al) l) ≡ₚ b :: (map_to_list al).*2 ++ l.
Proof. intros H. unfold blocks. cbn. rewrite map_to_list_insert by done. done. Qed.

Lemma alloc_in_blocks h k b : allocs h !! k = Some b → b ∈ blocks h.
Proof.
  intros H. apply elem_of_app. left. apply list_elem_of_fmap. exists (k, b). split; [done|]. by apply elem_of_map_to_list.
Qed.

(** *** [free] *)

Lemma free_inv root ptr w others :
  heap_inv w others →
  ∃ w', sys_free root ptr w = Val w' ∧ heap_inv w' others ∧ umem w' = umem w ∧
    (16 < ptr → allocs (heap w') = delete (root, ptr) (allocs (heap w))) ∧
    (ptr ≤ 16 → w' = w).
Proof.
  intros [HI HL]. unfold sys_free. destruct (Z.leb_spec ptr 16) as [Hle|Hgt].
  { exists w. split_and!; [done|by split|done|lia|done]. }
  destruct (allocs (heap w) !! (root, ptr)) as [b|] eqn:E.
  2: { exists w. split_and!; [done|by split|done| |lia]. intros _. by rewrite delete_id. }
  destruct (coalesce_ok (free (heap w) ++ [b])) as (l' & -> & Hl'). cbn [obind]. eexists. split; [done|].
  split_and!; try done; [|lia]. split; cbn [heap ranges allocs free].
  - set (al := map_to_list (delete (root, ptr) (allocs (heap w)))).
    assert (VaAlloc.inv (ranges w) (map range (free (heap w) ++ [b]) ++ map range al.*2 ++ others)) as HI'.
    { eapply inv_reorder; [|exact HI]. rewrite (map_perm range _ _ (blocks_delete _ _ _ E)). fold al.
      rewrite (Permutation_app_comm (free (heap w)) [b]). cbn. rewrite !map_app, <- !app_assoc. constructor.
      apply Permutation_app_swap_app. }
    apply (inv_reorder _ (map range l' ++ map range al.*2 ++ others)).
    { unfold blocks. cbn. fold al. rewrite map_app, <- app_assoc. apply Permutation_app_swap_app. }
    destruct Hl' as [->|(c & rest & Hp & ->)]; [exact HI'|]. apply join_inv. eapply inv_reorder; [|exact HI'].
    by rewrite (map_perm range _ _ Hp).
  - intros k b' Hk. apply lookup_delete_Some in Hk as [_ Hk]. by apply HL.
Qed.

(** *** [malloc] *)

Lemma pages_of_spec n : 0 < n → n + 16 < 2 ^ 64 → 0 < pages_of n ∧ n + 16 ≤ pages_of n * 4096.
Proof.
  intros H0 H1. unfold pages_of, u64. rewrite wrap_small by (unfold is_u; lia).
  pose proof (Z.div_mod (n + 16 + 4095) 4096). pose proof (Z.mod_pos_bound (n + 16 + 4095) 4096). lia.
Qed.

Lemma take_free_inv t l p n l' b live :
  take_free_malloc_block l p n = Some (l', b) → 0 < n → VaAlloc.inv t (map range l ++ live) →
  VaAlloc.inv t (range b :: map range l' ++ live) ∧ pml4 b = p ∧ pages b = n.
Proof.
  unfold take_free_malloc_block. intros H Hn HI.
  destruct (position _ l) as [i|] eqn:Ei; [|done]. apply position_Some in Ei as [(x & Hx & Hp) _].
  rewrite (list_lookup_total_correct _ _ _ Hx) in H. unbool.
  pose proof (swap_remove_perm _ _ _ Hx) as Hperm.
  assert (VaAlloc.inv t (range x :: map range (swap_remove l i) ++ live)) as HI'.
  { eapply inv_reorder; [|exact HI]. by rewrite (map_perm range _ _ Hperm). }
  destruct (range_bounds t (x :: swap_remove l i) x live) as (? & ? & ? & _); [exact HI'|left|].
  unfold VaAlloc.ANON_VA_BASE, VaAlloc.USER_END in *.
  destruct (Z.ltb_spec n (pages x)) as [Hlt|Hge]; injection H as <- <-; [|split_and!; (done || lia)].
  split_and!; [|done..]. rewrite map_app, <- app_assoc. unfold u64. rewrite wrap_small by (unfold is_u; lia).
  pose proof (VaAlloc.inv_leftover t _ (range x) (map range (swap_remove l i) ++ live) (base x) (n * 4096) HI'
    (Permutation_refl _)) as HS.
  unfold VaAlloc.leftover, VaAlloc.rr_end in HS. cbn in HS.
  rewrite Z.ltb_irrefl, (proj2 (Z.ltb_lt _ _)) in HS by lia. cbn in HS.
  replace (base x + pages x * 4096 - (base x + n * 4096)) with ((pages x - n) * 4096) in HS by lia.
  eapply inv_reorder; [|apply HS; lia]. subst p. exact (perm_skip (range (set_pages x n)) (Permutation_middle _ _ _)).
Qed.

(** A new block has an address no live block has. *)
Lemma fresh_key (t : VaAlloc.LibTable) (al : gmap (Z * Z) MallocBlock) l b others :
  VaAlloc.inv t (range b :: map range ((map_to_list al).*2 ++ l) ++ others) →
  (∀ k b', al !! k = Some b' → live_ok k b') → al !! (pml4 b, base b + 16) = None.
Proof.
  intros HI HL. apply eq_None_not_Some. intros [b' Hb']. destruct (HL _ _ Hb') as (Hk & _). injection Hk as Hp Hb.
  pose proof (VaAlloc.i_pair _ _ HI) as [Hd _]. pose proof (VaAlloc.i_good _ _ HI) as Hg.
  assert (range b' ∈ map range ((map_to_list al).*2 ++ l)) as Hin.
  { apply list_elem_of_fmap_2, elem_of_app. left. apply list_elem_of_fmap. exists ((pml4 b, base b + 16), b'). split; [done|].
    by apply elem_of_map_to_list. }
  rewrite map_app in Hin. unfold VaAlloc.all_ranges in Hg. cbn [app] in Hg, Hd. apply Forall_cons in Hg as [(Hs & _) Hg].
  rewrite Forall_forall in Hd, Hg. rewrite map_app in Hd, Hg.
  specialize (Hd (range b')). specialize (Hg (range b')). rewrite !elem_of_app in Hd, Hg. rewrite elem_of_app in Hin.
  destruct Hg as (Hs' & _); [tauto|]. destruct Hd as [Hd|Hd]; [tauto| |].
  - cbn in Hd. congruence.
  - unfold VaAlloc.rr_end in *. cbn in *. lia.
Qed.

Lemma record_inv root w t l b others :
  VaAlloc.inv t (range b :: map range ((map_to_list (allocs (heap w))).*2 ++ l) ++ others) →
  (∀ k b', allocs (heap w) !! k = Some b' → live_ok k b') → live_ok (root, base b + 16) b →
  heap_inv (record_block root w (base b + 16) b l t) others.
Proof.
  intros HI HL Hb. pose proof (fresh_key _ _ _ _ _ HI HL) as Hf. pose proof Hb as (Hk & _). injection Hk as ->.
  split; cbn [heap ranges record_block].
  - eapply inv_reorder; [|exact HI]. by rewrite (map_perm range _ _ (blocks_insert _ _ _ _ Hf)).
  - intros k b'. cbn. destruct (decide (k = (pml4 b, base b + 16))) as [->|Hne].
    + rewrite lookup_insert_eq. by intros [= <-].
    + rewrite lookup_insert_ne by done. apply HL.
Qed.

(** What a call needs of its surroundings: a process, a request whose size can
    be computed, and room in the tables and in the address space. *)
Record ready (mm : Paging.Mm) (pid root n : Z) (w : World) : Prop := {
  rd_pid : pid ≠ 0;
  rd_root : root ≠ 0;
  rd_size : 0 ≤ n ∧ n + 16 < 2 ^ 64;
  rd_room : VaAlloc.room (ranges w) root;
  rd_unmapped : VaAlloc.recycled_unmapped mm (ranges w) root;
  rd_space : pages_of n ≤ 65536 →
    (VaAlloc.mmap_anon mm (ranges w) root 0 (pages_of n)).2 + pages_of n * 4096 ≤ VaAlloc.USER_END
}.

(** The outcomes of [malloc]: nothing asked, nothing given, or a new block. *)
Inductive malloc_result (root n : Z) (w : World) : World → Z → Prop :=
| mr_zero : n = 0 → malloc_result root n w w 8
| mr_none w' : heap w' = heap w → umem w' = umem w → malloc_result root n w w' 0
| mr_block b l t :
    live_ok (root, base b + 16) b → size b = n → allocs (heap w) !! (root, base b + 16) = None →
    malloc_result root n w (record_block root w (base b + 16) b l t) (base b + 16).

Lemma malloc_inv mm pid root n w others :
  ready mm pid root n w → heap_inv w others →
  heap_inv (sys_malloc mm pid root n w).1 others ∧
  malloc_result root n w (sys_malloc mm pid root n w).1 (sys_malloc mm pid root n w).2.
Proof.
  intros [Hpid Hroot [Hn0 Hn1] Hroom Hun Hsp] [HI HL]. unfold sys_malloc.
  destruct (Z.eqb_spec n 0) as [->|Hn]; [split; [by split|by constructor]|].
  destruct (Z.eqb_spec pid 0) as [|_]; [done|]. destruct (pages_of_spec n) as [Hp Hfit]; [lia|done|].
  assert (∀ t b l, VaAlloc.inv t (range b :: map range ((map_to_list (allocs (heap w))).*2 ++ l) ++ others) →
    pml4 b = root → size b = n → pages b = pages_of n →
    let r := (record_block root w (u64 (base b + 16)) b l t, u64 (base b + 16)) in
    heap_inv r.1 others ∧ malloc_result root n w r.1 r.2) as Hrec.
  { intros t b l HI' Hb <- Hpg.
    destruct (range_bounds t (b :: (map_to_list (allocs (heap w))).*2 ++ l) b others) as (? & ? & ? & _); [exact HI'|left|].
    unfold VaAlloc.ANON_VA_BASE, VaAlloc.USER_END in *. unfold u64. rewrite wrap_small by (unfold is_u; lia).
    assert (live_ok (root, base b + 16) b) as Hok.
    { unfold live_ok. rewrite Hpg. split_and!; [congruence|lia|done]. }
    cbn. split; [by apply record_inv|]. pose proof (fresh_key _ _ _ _ _ HI' HL) as Hf. rewrite Hb in Hf. by constructor. }
  destruct (take_free_malloc_block _ _ _) as [[l b]|] eqn:Et.
  - apply (take_free_inv (ranges w) _ _ _ _ _ (map range (map_to_list (allocs (heap w))).*2 ++ others)) in Et
      as (HI' & Hb & Hpg); [|done|].
    + apply (Hrec _ (set_size b n)); try done. eapply inv_reorder; [|exact HI']. cbn. rewrite map_app, <- app_assoc.
      apply perm_skip, Permutation_app_swap_app.
    + eapply inv_reorder; [|exact HI]. unfold blocks. rewrite map_app, <- app_assoc. apply Permutation_app_swap_app.
  - destruct (VaAlloc.mmap_anon _ _ _ _ _) as [t va] eqn:Em. cbn [snd] in Hsp.
    destruct (Z.ltb_spec 65536 (pages_of n)) as [Hbig|Hsm].
    { unfold VaAlloc.mmap_anon in Em. rewrite (proj2 (Z.ltb_lt _ _) Hbig), orb_true_r in Em. injection Em as <- <-. cbn.
      split; [by split|]. by constructor. }
    specialize (Hsp Hsm). unfold VaAlloc.USER_END in Hsp. rewrite (proj2 (Z.eqb_neq va u64_MAX)) by (unfold u64_MAX; lia).
    apply (Hrec t (mkBlock root va n (pages_of n)) (free (heap w))); try done.
    set (rs := map range (blocks (heap w)) ++ others) in *.
    apply (VaAlloc.vstep_inv (ranges w, rs) (t, VaAlloc.mkRange root va (pages_of n * 4096) :: rs)); [|exact HI].
    by apply (VaAlloc.v_mmap mm).
Qed.

(** ** Histories *)

Inductive call :=
| Malloc (n : Z) | Calloc (n sz : Z) | Realloc (ptr sz : Z) | AlignedAlloc (align sz : Z)
| PosixMemalign (pptr align sz : Z) | Strdup (s : Z) | Strndup (s n : Z).

Definition run (mm : Paging.Mm) (pid root : Z) (c : call) (w : World) : outcome World :=
  match c with
  | Malloc n => Val (sys_malloc mm pid root n w).1
  | Calloc n sz => Val (sys_calloc mm pid root n sz w).1
  | Realloc ptr sz => let! r := sys_realloc mm pid root ptr sz w in Val r.1
  | AlignedAlloc align sz => Val (sys_aligned_alloc mm pid root align sz w).1
  | PosixMemalign pptr align sz => Val (sys_posix_memalign mm pid root pptr align sz w).1
  | Strdup s => Val (sys_strdup mm pid root s w).1
  | Strndup s n => Val (sys_strndup mm pid root s n w).1
  end.

(** The size a call asks [malloc] for. *)
Definition request (root : Z) (c : call) (w : World) : Z :=
  match c with
  | Malloc n => n
  | Calloc n sz => Z.min (n * sz) u64_MAX
  | Realloc _ sz | AlignedAlloc _ sz | PosixMemalign _ _ sz => sz
  | Strdup s => sys_strlen (umem w root) s + 1
  | Strndup s n => Z.min (sys_strlen (umem w root) s) n + 1
  end.

Abbreviation hstate := (World * list VaAlloc.RecycledRange)%type.

(** One event: a call in some address space, a change of the ranges reserved
    for other purposes (libraries, mappings, forks), or programs writing to
    their memory in any way. *)
Inductive hstep : hstate → hstate → Prop :=
| h_call mm pid root c w w' others :
    ready mm pid root (request root c w) w → run mm pid root c w = Val w' → hstep (w, others) (w', others)
| h_free root ptr w w' others : sys_free root ptr w = Val w' → hstep (w, others) (w', others)
| h_ranges w t l others others' :
    VaAlloc.vstep (ranges w, map range (blocks (heap w)) ++ others) (t, l) →
    l ≡ₚ map range (blocks (heap w)) ++ others' →
    hstep (w, others) (mkWorld (heap w) t (umem w), others')
| h_write w m others : hstep (w, others) (mkWorld (heap w) (ranges w) m, others).

Lemma heap_inv_same w w' others : heap w' = heap w → ranges w' = ranges w → heap_inv w others → heap_inv w' others.
Proof. intros Hh Hr [HI HL]. split; by rewrite ?Hr, Hh. Qed.

Lemma realloc_inv mm pid root ptr sz w others :
  ready mm pid root sz w → heap_inv w others →
  ∃ w' r, sys_realloc mm pid root ptr sz w = Val (w', r) ∧ heap_inv w' others.
Proof.
  intros Hr HI. destruct (malloc_inv _ _ _ _ _ _ Hr HI) as [HI1 _]. unfold sys_realloc.
  destruct (ptr =? 0). { destruct (sys_malloc mm pid root sz w) as [w1 p]. by exists w1, p. }
  destruct (sz =? 0).
  { destruct (free_inv root ptr w others HI) as (w' & -> & HI' & _). by eexists _, _. }
  match goal with |- context [if sz <=? ?o then _ else _] => set (old := o); destruct (sz <=? old) end; [by eexists _, _|].
  destruct (sys_malloc mm pid root sz w) as [w1 p]. cbn [fst] in HI1.
  destruct (p =? 0); [by eexists _, _|].
  match goal with |- context [sys_free root ptr ?w2] => destruct (free_inv root ptr w2 others) as (w' & -> & HI' & _) end.
  - destruct (0 <? Z.min old sz); [|done]. by eapply heap_inv_same; [..|exact HI1].
  - by eexists _, _.
Qed.

Lemma run_inv mm pid root c w others :
  ready mm pid root (request root c w) w → heap_inv w others →
  ∃ w', run mm pid root c w = Val w' ∧ heap_inv w' others.
Proof.
  intros Hr HI. destruct (malloc_inv _ _ _ _ _ _ Hr HI) as [HI1 _].
  destruct c as [n|n sz|ptr sz|al sz|pp al sz|s|s n]; cbn [run request] in *.
  3: { destruct (realloc_inv _ _ _ ptr _ _ _ Hr HI) as (w' & r & -> & HI'). by exists w'. }
  all: eexists; split; [reflexivity|]; try exact HI1;
    unfold sys_calloc, sys_posix_memalign, sys_strdup, sys_strndup; destruct (sys_malloc _ _ _ _ w) as [w1 p];
    repeat case_match; (exact HI1 || by eapply heap_inv_same; [..|exact HI1]).
Qed.

Lemma hstep_inv s s' : hstep s s' → heap_inv s.1 s.2 → heap_inv s'.1 s'.2.
Proof.
  destruct 1 as [mm pid root c w w' others Hr E|root ptr w w' others E|w t l others others' Hv Hl|w m others]; cbn; intros HI.
  - destruct (run_inv _ _ _ _ _ _ Hr HI) as (w'' & E' & HI'). rewrite E in E'. by injection E' as ->.
  - destruct (free_inv root ptr _ _ HI) as (w'' & E' & HI' & _). rewrite E in E'. by injection E' as ->.
  - destruct HI as [HI HL]. split; [|done]. cbn. apply (inv_reorder _ l); [done|]. by apply (VaAlloc.vstep_inv _ _ Hv).
  - by eapply heap_inv_same; [..|exact HI].
Qed.

Definition start (m : Z → memory) : hstate := (mkWorld Heap_new VaAlloc.LibTable_new m, []).

Lemma heap_reachable_inv m w others : rtc hstep (start m) (w, others) → heap_inv w others.
Proof.
  intros H. assert (∀ s s', rtc hstep s s' → heap_inv s.1 s.2 → heap_inv s'.1 s'.2) as Hall.
  { induction 1 as [|s1 s2 s3 Hs _ IH]; [done|]. intros HI. apply IH. by eapply hstep_inv. }
  apply (Hall _ _ H). split; [exact VaAlloc.va_inv_new|]. intros k b Hk. cbn in Hk. by rewrite lookup_empty in Hk.
Qed.

Lemma alloc_apart w others k b :
  heap_inv w others → allocs (heap w) !! k = Some b →
  Forall (VaAlloc.disjoint (range b)) (map range ((map_to_list (delete k (allocs (heap w)))).*2 ++ free (heap w)) ++ others).
Proof.
  intros [HI _] Hk.
  assert (VaAlloc.inv (ranges w) (range b :: map range ((map_to_list (delete k (allocs (heap w)))).*2 ++ free (heap w)) ++ others)) as HI'.
  { eapply inv_reorder; [|exact HI]. by rewrite (map_perm range _ _ (blocks_delete _ _ _ Hk)). }
  destruct (VaAlloc.i_pair _ _ HI') as [Hd _]. by apply Forall_app in Hd as [Hd _].
Qed.

(** The memory of a live block with its header keeps clear of [r]. *)
Definition clear_of (ptr : Z) (b : MallocBlock) (r : VaAlloc.RecycledRange) : Prop :=
  VaAlloc.rr_pml4 r = pml4 b → ptr + size b ≤ VaAlloc.rr_va r ∨ VaAlloc.rr_end r ≤ ptr - 16.

Lemma live_clear root ptr b r : live_ok (root, ptr) b → VaAlloc.disjoint (range b) r → clear_of ptr b r.
Proof.
  intros (Hk & Hs & Hfit) [Hd|Hd] Hp; injection Hk as -> ->; unfold VaAlloc.rr_end in *; cbn in *; [congruence|lia].
Qed.

Lemma live_pair w others k1 b1 k2 b2 :
  heap_inv w others → allocs (heap w) !! k1 = Some b1 → allocs (heap w) !! k2 = Some b2 → k1 ≠ k2 →
  VaAlloc.disjoint (range b1) (range b2).
Proof.
  intros HI H1 H2 Hne. pose proof (alloc_apart _ _ _ _ HI H1) as Hd. rewrite Forall_forall in Hd. apply Hd.
  apply elem_of_app. left. apply list_elem_of_fmap_2, elem_of_app. left. apply list_elem_of_fmap. exists (k2, b2).
  split; [done|]. apply elem_of_map_to_list. by rewrite lookup_delete_ne.
Qed.

(** C11: In every history of heap calls of all processes, of changes to the other
    reserved ranges and of writes by the programs themselves, a live block is
    kept under its own address, lies above the anonymous base, and together with
    its header is disjoint from every other live block, from every free block and
    from every range reserved for another purpose in the same address space.
    The histories are those of [ready] and [VaAlloc.vstep]: a call is made by a
    process, its size plus the header does not wrap around (the code does not
    check), the table of 64 address spaces is not full, pages of recycled ranges
    are not mapped, ranges end in the user half, mappings are asked for without a
    hint, only parts of reserved ranges are given back and a forked space is new. *)
Theorem heap_blocks_disjoint m w others root ptr b :
  rtc hstep (start m) (w, others) → allocs (heap w) !! (root, ptr) = Some b →
  (pml4 b = root ∧ 0 < size b ∧ VaAlloc.ANON_VA_BASE + 16 ≤ ptr) ∧
  (∀ ptr' b', allocs (heap w) !! (root, ptr') = Some b' → ptr' ≠ ptr →
     ptr + size b ≤ ptr' - 16 ∨ ptr' + size b' ≤ ptr - 16) ∧
  Forall (clear_of ptr b) (map range (free (heap w)) ++ others).
Proof.
  intros H Hk. pose proof (heap_reachable_inv _ _ _ H) as HI. pose proof (hi_live _ _ HI _ _ Hk) as Hok.
  split; [|split].
  - destruct (range_bounds _ _ b _ (hi_ranges _ _ HI) (alloc_in_blocks _ _ _ Hk)) as (_ & ? & ? & _).
    destruct Hok as (E & ? & ?). injection E as -> ->. split_and!; (done || lia).
  - intros ptr' b' Hk' Hne. pose proof (hi_live _ _ HI _ _ Hk') as (E' & ? & ?). injection E' as Hp' ->.
    pose proof Hok as (E & _). injection E as Hp _.
    assert ((root, ptr) ≠ (root, base b' + 16)) as Hne' by congruence.
    pose proof (live_clear _ _ _ _ Hok (live_pair _ _ _ _ _ _ HI Hk Hk' Hne')) as Hc.
    unfold clear_of, VaAlloc.rr_end in Hc. cbn in Hc. destruct Hc; [congruence|lia..].
  - pose proof (alloc_apart _ _ _ _ HI Hk) as Hd. rewrite map_app, <- app_assoc in Hd. apply Forall_app in Hd as [_ Hd].
    eapply Forall_impl; [exact Hd|]. intros r. by apply (live_clear root).
Qed.

(** ** The bytes *)

(** The bytes of a live block are none of a second block. *)
Lemma byte_outside w others nb k root ptr b i :
  heap_inv w others → allocs (heap w) !! k = Some nb → allocs (heap w) !! (root, ptr) = Some b →
  k ≠ (root, ptr) → 0 ≤ i < size b →
  root ≠ pml4 nb ∨ ptr + i < base nb ∨ base nb + pages nb * 4096 ≤ ptr + i.
Proof.
  intros HI Hn Hb Hne Hi. destruct (hi_live _ _ HI _ _ Hb) as (E & ? & ?). injection E as -> ->.
  destruct (live_pair _ _ _ _ _ _ HI Hn Hb Hne) as [Hd|Hd]; unfold VaAlloc.rr_end in Hd; cbn in Hd; [left; congruence|lia].
Qed.

Lemma header_elsewhere m p v a : a < p ∨ p + 8 ≤ a → write_u64_user m p v a = m a.
Proof. intros H. unfold write_u64_user, write_word. destruct (user_ptr_ok p); [|done]. case_if; [unbool; lia|done]. Qed.

(** The new block of a growing [realloc] and the copy into it touch no byte
    of another live block. *)
Lemma copy_elsewhere w others root nb l t src n root2 ptr2 b2 i :
  let w1 := record_block root w (base nb + 16) nb l t in
  heap_inv w1 others → live_ok (root, base nb + 16) nb → n ≤ size nb →
  allocs (heap w) !! (root2, ptr2) = Some b2 → (root, base nb + 16) ≠ (root2, ptr2) → 0 ≤ i < size b2 →
  umem w1 root2 (ptr2 + i) = umem w root2 (ptr2 + i) ∧
  umem (set_umem w1 root (copy_bytes (umem w1 root) src (base nb + 16) n)) root2 (ptr2 + i) = umem w root2 (ptr2 + i).
Proof.
  intros w1 HI Hok Hn H2 Hne Hi.
  assert (umem w1 root2 (ptr2 + i) = umem w root2 (ptr2 + i) ∧
    (root2 ≠ root ∨ ptr2 + i < base nb ∨ base nb + pages nb * 4096 ≤ ptr2 + i)) as [Hw Hout].
  { destruct (byte_outside w1 others nb (root, base nb + 16) root2 ptr2 b2 i HI) as [Ho|Ho]; try done;
      [apply lookup_insert_eq|by cbn; rewrite lookup_insert_ne| |]; destruct Hok as (E & Hs & Hfit); injection E as ->.
    - split; [|tauto]. cbn. by rewrite (proj2 (Z.eqb_neq root2 (pml4 nb))) by done.
    - split; [|tauto]. cbn. destruct (Z.eqb_spec root2 (pml4 nb)) as [->|]; [|done]. apply header_elsewhere. lia. }
  split; [done|]. cbn [umem set_umem]. destruct (Z.eqb_spec root2 root) as [->|]; [|done].
  unfold copy_bytes. destruct Hok as (_ & Hs & Hfit). case_if; [unbool; destruct Hout; [done|lia]|done].
Qed.

(** In every reachable state, [realloc] of a live block to a non-zero size
    returns.  It fails without touching a block or a byte, or it gives a block
    of at least that size whose first bytes are the old ones, up to the smaller
    size; the old block is gone unless it is the answer, and every other live
    block is kept with its bytes. *)
Theorem realloc_keeps_contents m w others mm pid root ptr b sz :
  rtc hstep (start m) (w, others) → allocs (heap w) !! (root, ptr) = Some b → 0 < sz → ready mm pid root sz w →
  ∃ w' r, sys_realloc mm pid root ptr sz w = Val (w', r) ∧
    (r = 0 ∧ heap w' = heap w ∧ umem w' = umem w ∨
     ∃ b', allocs (heap w') = <[(root, r) := b']> (delete (root, ptr) (allocs (heap w))) ∧ sz ≤ size b' ∧
       (∀ i, 0 ≤ i < Z.min (size b) sz → umem w' root (r + i) = umem w root (ptr + i)) ∧
       (∀ root2 ptr2 b2 i, allocs (heap w) !! (root2, ptr2) = Some b2 → (root2, ptr2) ≠ (root, ptr) → 0 ≤ i < size b2 →
          umem w' root2 (ptr2 + i) = umem w root2 (ptr2 + i))).
Proof.
  intros H Hk Hsz Hr. pose proof (heap_reachable_inv _ _ _ H) as HI. pose proof (hi_live _ _ HI _ _ Hk) as (E & Hs & Hfit).
  destruct (range_bounds _ _ b _ (hi_ranges _ _ HI) (alloc_in_blocks _ _ _ Hk)) as (_ & Hlo & Hhi & _).
  injection E as Eroot Eptr. unfold VaAlloc.ANON_VA_BASE in Hlo.
  unfold sys_realloc. rewrite (proj2 (Z.eqb_neq ptr 0)), (proj2 (Z.eqb_neq sz 0)), Hk by lia.
  destruct (Z.leb_spec sz (size b)) as [Hle|Hgt].
  { exists w, ptr. split; [done|]. right. exists b. rewrite insert_delete_id by done. done. }
  destruct (malloc_inv _ _ _ _ _ _ Hr HI) as [HI1 Hres]. destruct (sys_malloc mm pid root sz w) as [w1 p]. cbn [fst snd] in *.
  destruct Hres as [|w1 Hh Hu|nb l t Hok Hnb Hnone]; [lia|by eexists _, _; split; [done|left]|].
  rewrite (proj2 (Z.eqb_neq (base nb + 16) 0)), (proj2 (Z.ltb_lt 0 (Z.min (size b) sz))) by
    (destruct (range_bounds _ _ nb _ (hi_ranges _ _ HI1)) as (_ & Hlo' & _);
      [by apply (alloc_in_blocks _ (root, base nb + 16)), lookup_insert_eq|unfold VaAlloc.ANON_VA_BASE in *; lia]).
  set (w1 := record_block root w (base nb + 16) nb l t) in *.
  match goal with |- context [sys_free root ptr ?x] => set (w2 := x) end.
  destruct (free_inv root ptr w2 others) as (w3 & -> & HI3 & Hu3 & Ha3 & _); [by eapply heap_inv_same; [..|exact HI1]|].
  cbn [obind]. eexists w3, _. split; [done|]. right. exists nb. rewrite Ha3, Hu3 by lia.
  assert ((root, base nb + 16) ≠ (root, ptr)) as Hne by congruence.
  split_and!; [|lia| |].
  - unfold w2. cbn. by rewrite delete_insert_ne.
  - intros i Hi. unfold w2. cbn [umem set_umem]. rewrite Z.eqb_refl. unfold copy_bytes.
    rewrite (proj2 (Z.leb_le _ _)), (proj2 (Z.ltb_lt _ _)) by lia. cbn [andb].
    replace (base nb + 16 + i - (base nb + 16) + ptr) with (ptr + i) by lia.
    eapply (proj1 (copy_elsewhere w others root nb l t 0 0 root ptr b i HI1 Hok ltac:(lia) Hk Hne ltac:(lia))).
  - intros root2 ptr2 b2 i H2 Hne2 Hi. eapply copy_elsewhere; try done; [lia|congruence].
Qed.

(** ** Defects *)

Lemma pages_of_wraps n : 2 ^ 64 - 16 < n < 2 ^ 64 → pages_of n = 1.
Proof.
  intros H. unfold pages_of, u64, wrap. replace (n + 16) with (n + 16 - 2 ^ 64 + 1 * 2 ^ 64) by lia.
  rewrite Z.mod_add, Z.mod_small by lia. symmetry. apply (Z.div_unique_pos _ _ _ (n + 16 - 2 ^ 64 - 1)); lia.
Qed.

(** A request within 15 bytes of the largest number wraps around when the
    header is added: in every reachable state in which one page can be had,
    [malloc] answers with a block of one page and records the huge size for it.
    [calloc] gets there with every product that does not fit, since it asks for
    the largest number then. *)
Theorem malloc_size_wraps m w others mm pid root n :
  rtc hstep (start m) (w, others) → ready mm pid root 1 w → 2 ^ 64 - 16 < n < 2 ^ 64 →
  (∃ b, (sys_malloc mm pid root n w).2 = base b + 16 ∧ size b = n ∧ pages b = 1 ∧
     allocs (heap (sys_malloc mm pid root n w).1) !! (root, base b + 16) = Some b) ∧
  ∀ k s, u64_MAX ≤ k * s → (sys_calloc mm pid root k s w).2 = (sys_malloc mm pid root u64_MAX w).2.
Proof.
  intros H [Hpid Hroot _ Hroom Hun Hsp] Hn. pose proof (heap_reachable_inv _ _ _ H) as [HI _]. split.
  2: { intros k s Hks. unfold sys_calloc. rewrite Z.min_r by done. destruct (sys_malloc _ _ _ _ _). by case_match. }
  change (pages_of 1) with 1 in Hsp. specialize (Hsp ltac:(lia)). unfold sys_malloc.
  rewrite (proj2 (Z.eqb_neq n 0)), (proj2 (Z.eqb_neq pid 0)), (pages_of_wraps n) by (done || lia).
  assert (∀ t b live, VaAlloc.inv t (range b :: live) → u64 (base b + 16) = base b + 16) as Hptr.
  { intros t b live HI'. destruct (range_bounds t [b] b live HI') as (? & ? & ? & _); [left|].
    unfold VaAlloc.ANON_VA_BASE, VaAlloc.USER_END in *. apply wrap_small. unfold is_u. lia. }
  destruct (take_free_malloc_block _ _ _) as [[l b]|] eqn:Et.
  - apply (take_free_inv (ranges w) _ _ _ _ _ (map range (map_to_list (allocs (heap w))).*2 ++ others)) in Et
      as (HI' & _ & Hpg); [|lia|].
    + rewrite (Hptr _ _ _ HI'). exists (set_size b n). split_and!; try done. apply lookup_insert_eq.
    + eapply inv_reorder; [|exact HI]. unfold blocks. rewrite map_app, <- app_assoc. apply Permutation_app_swap_app.
  - destruct (VaAlloc.mmap_anon _ _ _ _ _) as [t va] eqn:Em. cbn [snd] in Hsp.
    set (rs := map range (blocks (heap w)) ++ others) in *.
    pose proof (VaAlloc.vstep_inv (ranges w, rs) (t, range (mkBlock root va n 1) :: rs)) as HI'.
    specialize (HI' ltac:(by apply (VaAlloc.v_mmap mm)) HI). cbn [fst snd] in HI'. pose proof (Hptr _ _ _ HI') as E. cbn in E.
    unfold VaAlloc.USER_END in Hsp. rewrite (proj2 (Z.eqb_neq va u64_MAX)) by (unfold u64_MAX; lia). rewrite E.
    exists (mkBlock root va n 1). split_and!; try done. apply lookup_insert_eq.
Qed.

(** [aligned_alloc] and [posix_memalign] ignore the alignment: the first block
    of a fresh address space, whatever alignment it is asked for, starts 16
    bytes behind a page and is a multiple of no power of two above 16. *)
Theorem aligned_alloc_ignores_alignment mm pid root m sz :
  pid ≠ 0 → root ≠ 0 → 0 < sz ≤ 65536 * 4096 - 16 → (∀ a, Paging.translate_user_page mm root a = None) →
  ∀ align, (sys_aligned_alloc mm pid root align sz (start m).1).2 = VaAlloc.ANON_VA_BASE + 16 ∧
    ∀ k, 5 ≤ k → ¬ (2 ^ k | (sys_aligned_alloc mm pid root align sz (start m).1).2).
Proof.
  intros Hpid Hroot Hsz Hun align.
  assert ((sys_aligned_alloc mm pid root align sz (start m).1).2 = VaAlloc.ANON_VA_BASE + 16) as ->.
  { unfold sys_aligned_alloc, sys_malloc. rewrite (proj2 (Z.eqb_neq sz 0)), (proj2 (Z.eqb_neq pid 0)) by (done || lia).
    destruct (pages_of_spec sz) as [Hp _]; [lia..|].
    assert (pages_of sz ≤ 65536) as Hp'.
    { unfold pages_of, u64. rewrite wrap_small by (unfold is_u; lia). apply Z.lt_succ_r, Z.div_lt_upper_bound; lia. }
    destruct (VaAlloc.mmap_hint_not_reserved mm root (pages_of sz)) as [_ (t & E)]; [done|lia|done|].
    cbn [take_free_malloc_block position start fst heap free Heap_new ranges]. by rewrite E. }
  split; [done|]. intros k Hk Hd.
  assert (2 ^ 5 | VaAlloc.ANON_VA_BASE + 16) as [q Hq].
  { etransitivity; [|exact Hd]. exists (2 ^ (k - 5)). rewrite <- Z.pow_add_r by lia. f_equal. lia. }
  unfold VaAlloc.ANON_VA_BASE in Hq. lia.
Qed.

(** ** Witnesses: a process that allocates 100 and 5000 bytes *)

Definition sample_root : Z := VaAlloc.sample_root.
Definition sample_start : World := (start (λ _ _, 7)).1.
Definition sample_w1 : World := (sys_malloc Paging.sample_mm 5 sample_root 100 sample_start).1.
Definition sample_w2 : World := (sys_malloc Paging.sample_mm 5 sample_root 5000 sample_w1).1.

Lemma sample_ready n w :
  0 ≤ n → n + 16 < 2 ^ 64 → VaAlloc.room (ranges w) sample_root →
  (VaAlloc.mmap_anon Paging.sample_mm (ranges w) sample_root 0 (pages_of n)).2 + pages_of n * 4096 ≤ VaAlloc.USER_END →
  ready Paging.sample_mm 5 sample_root n w.
Proof. intros. by split. Qed.

Ltac solve_ready := apply sample_ready; [lia|lia|vm_compute; reflexivity|vm_compute; discriminate].

Lemma heap_history : rtc hstep (start (λ _ _, 7)) (sample_w2, []).
Proof.
  eapply rtc_l; [|eapply rtc_l; [|apply rtc_refl]].
  - apply (h_call Paging.sample_mm 5 sample_root (Malloc 100) sample_start sample_w1); [cbn [request]; solve_ready|reflexivity].
  - apply (h_call Paging.sample_mm 5 sample_root (Malloc 5000) sample_w1 sample_w2); [cbn [request]; solve_ready|reflexivity].
Qed.

Lemma heap_blocks_witness :
  allocs (heap sample_w2) !! (sample_root, 0x310000010) = Some (mkBlock sample_root 0x310000000 100 1) ∧
  allocs (heap sample_w2) !! (sample_root, 0x310200010) = Some (mkBlock sample_root 0x310200000 5000 2) ∧
  (0x310000010 + 100 ≤ 0x310200010 - 16 ∨ 0x310200010 + 5000 ≤ 0x310000010 - 16).
Proof.
  assert (allocs (heap sample_w2) !! (sample_root, 0x310000010) = Some (mkBlock sample_root 0x310000000 100 1)) as H1
    by (vm_compute; reflexivity).
  assert (allocs (heap sample_w2) !! (sample_root, 0x310200010) = Some (mkBlock sample_root 0x310200000 5000 2)) as H2
    by (vm_compute; reflexivity).
  split; [exact H1|]. split; [exact H2|].
  destruct (heap_blocks_disjoint _ _ _ _ _ _ heap_history H1) as (_ & H & _).
  apply (H _ _ H2). discriminate.
Defined.

Lemma realloc_witness :
  ∃ w' r, sys_realloc Paging.sample_mm 5 sample_root 0x310000010 9000 sample_w2 = Val (w', r) ∧ r = 0x310400010 ∧
    umem w' sample_root (r + 99) = 7.
Proof.
  destruct (realloc_keeps_contents (λ _ _, 7) sample_w2 [] Paging.sample_mm 5 sample_root 0x310000010
    (mkBlock sample_root 0x310000000 100 1) 9000) as (w' & r & E & H).
  - exact heap_history.
  - vm_compute. reflexivity.
  - lia.
  - solve_ready.
  - assert (r = 0x310400010) as Hr.
    { apply (f_equal (λ o, match o with Val x => x.2 | Panic => 0 end)) in E. vm_compute in E. by symmetry. }
    exists w', r. split; [exact E|]. split; [exact Hr|]. destruct H as [[H0 _]|(b' & _ & _ & H & _)].
    + rewrite H0 in Hr. discriminate.
    + rewrite (H 99); [vm_compute; reflexivity|cbn; lia].
Defined.

Lemma malloc_wraps_witness :
  ∃ b, (sys_malloc Paging.sample_mm 5 sample_root (2 ^ 64 - 1) sample_w2).2 = base b + 16 ∧ pages b = 1 ∧ size b = 2 ^ 64 - 1.
Proof.
  destruct (malloc_size_wraps (λ _ _, 7) sample_w2 [] Paging.sample_mm 5 sample_root (2 ^ 64 - 1)) as [(b & E & Hs & Hp & _) _].
  - exact heap_history.
  - solve_ready.
  - lia.
  - exists b. split; [exact E|]. split; [exact Hp|exact Hs].
Defined.

Lemma aligned_alloc_witness :
  (sys_aligned_alloc Paging.sample_mm 5 sample_root 4096 64 (start (λ _ _, 7)).1).2 = 0x310000010.
Proof.
  destruct (aligned_alloc_ignores_alignment Paging.sample_mm 5 sample_root (λ _ _, 7) 64) with (align := 4096) as [H _].
  - discriminate.
  - discriminate.
  - lia.
  - intros a. apply VaAlloc.sample_unmapped.
  - exact H.
Defined.
End UserHeap.
