(* ===== verification/PkgCache.v ===== *)
(** * Cache of on-demand packages ([kernel/src/pkg/cache.rs])

    Sixteen slots with least-recently-used eviction of unpinned entries; an
    eviction or a removal also uninstalls the app from the registry.  [now] is
    the compositor's frame counter at the call. *)

From Stdlib Require Import ZArith Lia.
From stdpp Require Import base numbers strings option relations list.
From S2P Require Import Prelude Ring EventQueue Wm Http Sha256 AppRegistry.

Module PkgCache.

Definition MAX_CACHED : nat := 16.

Record CacheEntry := mkEntry {
  active : bool; app_id : Z; e_hash : bytes; last_used : Z; pinned : bool
}.
Definition CacheEntry_empty : CacheEntry := mkEntry false 0 (replicate 32 0%Z) 0 false.

Abbreviation Cache := (list CacheEntry).
Definition CacheState_new : Cache := replicate MAX_CACHED CacheEntry_empty.

Definition set_used (now : Z) (e : CacheEntry) : CacheEntry :=
  mkEntry (active e) (app_id e) (e_hash e) now (pinned e).
Definition deactivate (e : CacheEntry) : CacheEntry :=
  mkEntry false (app_id e) (e_hash e) (last_used e) (pinned e).

Definition lookup (c : Cache) (h : bytes) (now : Z) : Cache * option Z :=
  let hit := λ e, active e && Sha256.hash_eq (e_hash e) h in
  match find_first hit c with
  | Some e => (default c (update_first hit (set_used now) c), Some (app_id e))
  | None => (c, None)
  end.

Definition lookup_by_id (c : Cache) (i : Z) : bool :=
  isSome (find_first (λ e, active e && (app_id e =? i)%Z) c).

(** [iter().enumerate().filter(..).min_by_key(..)]: the first minimum. *)
Definition evictable (e : CacheEntry) : bool := active e && negb (pinned e).
Fixpoint victim_from (i : nat) (best : option (nat * CacheEntry)) (c : Cache) : option (nat * CacheEntry) :=
  match c with
  | [] => best
  | e :: c' =>
      let best' :=
        if evictable e then
          match best with
          | Some (_, b) => if (last_used e <? last_used b)%Z then Some (i, e) else best
          | None => Some (i, e)
          end
        else best in
      victim_from (S i) best' c'
  end.
Definition victim (c : Cache) : option (nat * CacheEntry) := victim_from 0 None c.

Definition insert (c : Cache) (g : AppRegistry.Registry) (i : Z) (h : bytes) (pin : bool) (now : Z)
    : Cache * AppRegistry.Registry * bool :=
  let fresh := mkEntry true i h now pin in
  match update_first (λ e, negb (active e)) (λ _, fresh) c with
  | Some c' => (c', g, true)
  | None =>
      match victim c with
      | Some (idx, old) => (<[idx := fresh]> c, (AppRegistry.uninstall g (app_id old)).1, true)
      | None => (c, g, false)
      end
  end.

Definition remove (c : Cache) (g : AppRegistry.Registry) (i : Z) : Cache * AppRegistry.Registry * bool :=
  let mine := λ e, active e && (app_id e =? i)%Z in
  match find_first mine c with
  | None => (c, g, false)
  | Some e =>
      if pinned e then (c, g, false)
      else (default c (update_first mine deactivate c), (AppRegistry.uninstall g i).1, true)
  end.

Definition touch (c : Cache) (i : Z) (now : Z) : Cache :=
  default c (update_first (λ e, active e && (app_id e =? i)%Z) (set_used now) c).

Definition count (c : Cache) : nat * nat :=
  (countb active c, countb (λ e, active e && pinned e) c).

(** ** Lemmas *)

Lemma victim_from_spec c i best :
  (∀ k b, best = Some (k, b) → evictable b = true) →
  match victim_from i best c with
  | Some (k, e) =>
      evictable e = true ∧
      (best = Some (k, e) ∨ (i ≤ k ∧ c !! (k - i) = Some e)) ∧
      (∀ e', e' ∈ c → evictable e' = true → (last_used e ≤ last_used e')%Z) ∧
      (∀ k' b, best = Some (k', b) → (last_used e ≤ last_used b)%Z)
  | None => best = None ∧ ∀ e', e' ∈ c → evictable e' = false
  end.
Proof.
  revert i best. induction c as [|x c IH]; intros i best Hbest; cbn [victim_from].
  { destruct best as [[k b]|].
    - split_and!; [by eapply Hbest|by left|intros e' H; by apply elem_of_nil in H|].
      intros k' b' [= _ <-]. lia.
    - split; [done|]. intros e' H. by apply elem_of_nil in H. }
  set (best' := if evictable x then _ else best). specialize (IH (S i) best').
  assert (∀ k b, best' = Some (k, b) → evictable b = true) as Hb'.
  { unfold best'. intros k b. destruct (evictable x) eqn:Ex; [|apply Hbest].
    destruct best as [[k0 b0]|]; [case_if|]; intros [= <- <-]; eauto. }
  specialize (IH Hb'). destruct (victim_from (S i) best' c) as [[k e]|].
  - destruct IH as (H1 & H2 & H3 & H4).
    assert (best' = Some (k, e) → best = Some (k, e) ∨ (i ≤ k ∧ (x :: c) !! (k - i) = Some e)) as Hor.
    { unfold best'. destruct (evictable x); [|by left].
      destruct best as [[k0 b0]|]; [case_if|]; intros [= <- <-]; auto;
        right; (split; [lia|]); by rewrite Nat.sub_diag. }
    assert (evictable x = true → (last_used e ≤ last_used x)%Z) as Hx.
    { intros Ex. unfold best' in H4. rewrite Ex in H4. destruct best as [[k0 b0]|]; [|by eapply H4].
      destruct (Z.ltb_spec (last_used x) (last_used b0)); [by eapply H4|].
      specialize (H4 k0 b0 eq_refl). lia. }
    split_and!; [done| | |].
    + destruct H2 as [H2|[H2 H2']]; [by apply Hor|]. right. split; [lia|].
      replace (k - i) with (S (k - S i)) by lia. done.
    + intros e' [->|He]%elem_of_cons; auto.
    + intros k' b ->. unfold best' in H4. destruct (evictable x) eqn:Ex; [|by eapply H4].
      destruct (Z.ltb_spec (last_used x) (last_used b)).
      * specialize (H4 i x eq_refl). lia.
      * by eapply H4.
  - destruct IH as [H1 H2]. unfold best' in H1. destruct (evictable x) eqn:Ex.
    { destruct best as [[k0 b0]|]; [by case_if_in H1|done]. }
    split; [done|]. intros e' [->|He]%elem_of_cons; auto.
Qed.

Lemma victim_spec c :
  match victim c with
  | Some (k, e) => c !! k = Some e ∧ evictable e = true ∧
      ∀ e', e' ∈ c → evictable e' = true → (last_used e ≤ last_used e')%Z
  | None => ∀ e, e ∈ c → evictable e = false
  end.
Proof.
  unfold victim. pose proof (victim_from_spec c 0 None ltac:(done)) as H.
  destruct (victim_from 0 None c) as [[k e]|]; [|by destruct H].
  destruct H as (H1 & [|[_ H2]] & H3 & _); [done|]. by rewrite Nat.sub_0_r in H2.
Qed.

(** caching a package: a free slot is used first; with all slots in use
    the new entry replaces the least recently used unpinned one, whose app is
    uninstalled; it fails, changing nothing, only when every slot is pinned.
    Pinned entries always stay, and the new entry is in the cache. *)
Theorem cache_insert_lru c g i h pin now :
  let '(c', g', ok) := insert c g i h pin now in
  (∀ e, e ∈ c → active e = true → pinned e = true → e ∈ c') ∧ length c' = length c ∧
  (ok = true → mkEntry true i h now pin ∈ c') ∧
  ((∃ e, e ∈ c ∧ active e = false) ∧ ok = true ∧ g' = g ∧
     (∀ e, e ∈ c → active e = true → e ∈ c') ∨
   (∀ e, e ∈ c → active e = true) ∧
     ((∃ k old, c !! k = Some old ∧ pinned old = false ∧
         (∀ e, e ∈ c → pinned e = false → (last_used old ≤ last_used e)%Z) ∧
         ok = true ∧ c' = <[k := mkEntry true i h now pin]> c ∧
         g' = (AppRegistry.uninstall g (app_id old)).1) ∨
      (∀ e, e ∈ c → pinned e = true) ∧ ok = false ∧ c' = c ∧ g' = g)).
Proof.
  unfold insert. set (fresh := mkEntry true i h now pin).
  assert (∀ k old, c !! k = Some old → ∀ e, e ∈ c → e ≠ old → e ∈ <[k := fresh]> c) as Hkeep.
  { intros k old Hk e [j Hj]%list_elem_of_lookup Hne. apply list_elem_of_lookup. exists j.
    rewrite list_lookup_insert_ne; [done|]. intros ->. congruence. }
  assert (∀ k old, c !! k = Some old → fresh ∈ <[k := fresh]> c) as Hnew.
  { intros k old Hk. apply list_elem_of_lookup. exists k.
    apply list_lookup_insert_eq. by eapply lookup_lt_Some. }
  destruct (update_first _ _ c) as [c'|] eqn:E.
  - apply update_first_Some in E as (k & old & Hp & Hk & ->).
    apply position_Some in Hp as [(x & Hx & Hpx) _]. rewrite Hk in Hx. injection Hx as <-.
    apply negb_true_iff in Hpx.
    assert (∀ e, e ∈ c → active e = true → e ∈ <[k := fresh]> c) as Hact.
    { intros e He Ha. eapply Hkeep; [done|done|]. intros ->. congruence. }
    split_and!; [auto|apply length_insert|by eauto|]. left. split_and!; try done.
    exists old. split; [by eapply list_elem_of_lookup_2|done].
  - apply update_first_None, position_None in E. rewrite Forall_forall in E.
    assert (∀ e, e ∈ c → active e = true) as Hact by (intros e He; by apply negb_false_iff, E).
    pose proof (victim_spec c) as Hv. destruct (victim c) as [[k old]|].
    + destruct Hv as (Hk & Hev & Hmin). apply andb_true_iff in Hev as [_ Hpin%negb_true_iff].
      split_and!; [|apply length_insert|by eauto|].
      * intros e He _ Hpe. eapply Hkeep; [done|done|]. intros ->. congruence.
      * right. split; [done|]. left. exists k, old. split_and!; try done.
        intros e He Hpe. apply Hmin; [done|]. unfold evictable. by rewrite Hact, Hpe.
    + split_and!; try done. right. split; [done|]. right. split_and!; try done.
      intros e He. specialize (Hv e He). unfold evictable in Hv. rewrite Hact in Hv by done.
      by destruct (pinned e).
Qed.

End PkgCache.
