(* ===== verification/Resolver.v ===== *)
(** * Package resolver ([kernel/src/pkg/resolver.rs])

    The on-demand delivery pipeline composed from its parts: [Http.get] fetches,
    [Manifest.parse_catalog] reads the catalog, [Sha256] verifies bundles,
    [AppRegistry] installs and launches them and [PkgCache] tracks them.  The
    network is a function from request paths to TCP scripts; the Ed25519
    verification of the [ed25519_compact] crate is a parameter.

    [run] is any sequence of pipeline calls and the system calls that touch the
    same tables; its theorem is the chain of trust from the catalog key to the
    installed code. *)

From Stdlib Require Import ZArith Lia.
From stdpp Require Import base numbers strings option relations list.
From S2P Require Import Prelude Ring EventQueue Wm Http Sha256 Manifest AppRegistry PkgCache.
Import Manifest.

Module Resolver.

Definition CATALOG_PUBKEY : bytes :=
  [0x9e; 0x48; 0x65; 0x7d; 0x5f; 0x21; 0x44; 0x66; 0x79; 0x85; 0xe3; 0xb2; 0xbd; 0x8d; 0x34; 0xc3;
   0xc4; 0x03; 0x9b; 0xac; 0x6a; 0x44; 0x57; 0xff; 0x62; 0x5e; 0x8c; 0xe6; 0xf4; 0xdb; 0xa1; 0xb1]%Z.

Inductive ResolveError :=
| NoCatalog | NotFound | FetchFailed | HashMismatch | BadSignature | InstallFailed | CacheFull.

Record State := mkState {
  srv_ip : Z; srv_port : Z;
  CATALOG : list PkgManifest;
  cache : list PkgCache.CacheEntry;
  registry : AppRegistry.Registry;
  recovery : AppRegistry.Recovery
}.

Definition State_init : State :=
  mkState (be_val [10; 0; 2; 2]%Z) 8080 [] PkgCache.CacheState_new AppRegistry.Registry_init
          (AppRegistry.Recovery_init Wm.Core_init).

Definition set_server (s : State) (ip port : Z) : State :=
  mkState ip port (CATALOG s) (cache s) (registry s) (recovery s).
Definition set_catalog (s : State) (es : list PkgManifest) : State :=
  mkState (srv_ip s) (srv_port s) es (cache s) (registry s) (recovery s).
Definition set_cache (s : State) (c : list PkgCache.CacheEntry) : State :=
  mkState (srv_ip s) (srv_port s) (CATALOG s) c (registry s) (recovery s).
Definition set_registry (s : State) (g : AppRegistry.Registry) : State :=
  mkState (srv_ip s) (srv_port s) (CATALOG s) (cache s) g (recovery s).
Definition set_recovery (s : State) (r : AppRegistry.Recovery) : State :=
  mkState (srv_ip s) (srv_port s) (CATALOG s) (cache s) (registry s) r.

Definition find_manifest (s : State) (name : bytes) : option PkgManifest :=
  find_first (λ m, bytes_eqb (name_bytes m) (nul_trim name)) (CATALOG s).

Section resolver.
Context {PG : ProcessGroups}.
(** [PublicKey::verify] of [ed25519_compact]: key, message, 64-byte signature. *)
Context (ed25519_verify : bytes → bytes → bytes → bool).

Definition verify_catalog_sig (msg sig : bytes) : bool :=
  if (length sig =? 64)%nat then ed25519_verify CATALOG_PUBKEY msg sig else false.

(** [http::get] over the network [net]; only the result matters here. *)
Definition fetch (net : bytes → Http.Net) (s : State) (path : bytes) : outcome Http.http_result :=
  let! r := Http.get (net path) (srv_ip s) (srv_port s) path in Val r.1.

Definition refresh_catalog (net : bytes → Http.Net) (s : State) : outcome (State * (Z + ResolveError)) :=
  let! body := fetch net s (str "/catalog.bin") in
  match body with
  | inr _ => Val (s, inr FetchFailed)
  | inl body =>
      let! sig := fetch net s (str "/catalog.sig") in
      match sig with
      | inr _ => Val (s, inr BadSignature)
      | inl sig =>
          if negb (verify_catalog_sig body sig) then Val (s, inr BadSignature)
          else
            match parse_catalog body with
            | None => Val (s, inr FetchFailed)
            | Some entries => Val (set_catalog s entries, inl (Z.of_nat (length entries)))
            end
      end
  end.

Definition bundle_path (hash : bytes) : bytes := str "/pkg/" ++ Sha256.hash_hex hash ++ str ".osx".

Definition resolve (net : bytes → Http.Net) (now : Z) (s : State) (name : bytes)
    : outcome (State * (Z + ResolveError)) :=
  match find_manifest s name with
  | None => Val (s, inr NotFound)
  | Some m =>
      match PkgCache.lookup (cache s) (hash m) now with
      | (c, Some app_id) => Val (set_cache s c, inl app_id)
      | (_, None) =>
          let! r := fetch net s (bundle_path (hash m)) in
          match r with
          | inr _ => Val (s, inr FetchFailed)
          | inl bundle =>
              let computed := Sha256.hash bundle in
              if negb (Sha256.hash_eq computed (hash m)) then Val (s, inr HashMismatch)
              else
                match AppRegistry.install (registry s) bundle with
                | (g, None) => Val (set_registry s g, inr InstallFailed)
                | (g, Some app_id) =>
                    let '(c, g', _) := PkgCache.insert (cache s) g app_id (hash m) (is_system m) now in
                    Val (set_registry (set_cache s c) g', inl app_id)
                end
          end
      end
  end.

Definition resolve_and_launch (net : bytes → Http.Net) (now : Z) (host : bool) (spawn : option Z)
    (s : State) (name : bytes) : outcome (State * (Z + ResolveError)) :=
  let! r := resolve net now s name in
  match r with
  | (s1, inr e) => Val (s1, inr e)
  | (s1, inl app_id) =>
      let s2 := set_cache s1 (PkgCache.touch (cache s1) app_id now) in
      let '(rec, pid) := AppRegistry.launch (registry s2) (recovery s2) app_id host spawn in
      let s3 := set_recovery s2 rec in
      if (pid <? 0)%Z then Val (s3, inr InstallFailed) else Val (s3, inl (u32 pid))
  end.

(** ** Runs *)

Inductive call :=
| CSetServer (ip port : Z)
| CRefresh (net : bytes → Http.Net)
| CResolve (net : bytes → Http.Net) (now : Z) (name : bytes)
| CResolveLaunch (net : bytes → Http.Net) (now : Z) (host : bool) (spawn : option Z) (name : bytes)
| CEvict (app_id : Z)
| CUninstall (app_id : Z).

Definition exec (s : State) (c : call) : outcome State :=
  match c with
  | CSetServer ip port => Val (set_server s ip port)
  | CRefresh net => let! r := refresh_catalog net s in Val r.1
  | CResolve net now name => let! r := resolve net now s name in Val r.1
  | CResolveLaunch net now host spawn name =>
      let! r := resolve_and_launch net now host spawn s name in Val r.1
  | CEvict i =>
      let '(c, g, _) := PkgCache.remove (cache s) (registry s) i in
      Val (set_registry (set_cache s c) g)
  | CUninstall i => Val (set_registry s (AppRegistry.uninstall (registry s) i).1)
  end.

Fixpoint run (s : State) (cs : list call) : outcome State :=
  match cs with
  | [] => Val s
  | c :: cs' => let! s1 := exec s c in run s1 cs'
  end.

(** ** The chain of trust *)

(** [m] is listed in a catalog the key has signed. *)
Definition vouched (m : PkgManifest) : Prop :=
  ∃ body sig entries,
    length sig = 64 ∧ ed25519_verify CATALOG_PUBKEY body sig = true ∧
    parse_catalog body = Some entries ∧ m ∈ entries.

(** The bundle's SHA-256 is the one a vouched manifest gives. *)
Definition authentic (bundle : bytes) : Prop := ∃ m, vouched m ∧ Sha256.hash bundle = hash m.

Definition installed_bundles (s : State) : list bytes :=
  omap (λ c, match c with AppRegistry.Persist _ b => Some b | AppRegistry.RemoveBundle _ => None end)
       (AppRegistry.store_log (registry s)).

Record trusted (s : State) : Prop := {
  tr_catalog : Forall vouched (CATALOG s);
  tr_bundles : Forall authentic (installed_bundles s);
  tr_cache : Forall (λ e, PkgCache.active e = true → ∃ m, vouched m ∧ PkgCache.e_hash e = hash m) (cache s)
}.

Lemma vouched_hash_length m : vouched m → length (hash m) = 32.
Proof.
  intros (body & sig & es & _ & _ & Hp & Hm). unfold parse_catalog in Hp.
  case_if_in Hp; [done|]. case_if_in Hp; [done|]. injection Hp as <-. unbool.
  apply list_elem_of_fmap in Hm as (i & -> & Hi%elem_of_seq). unfold from_raw. cbn [hash].
  rewrite slice_length; [done|lia|]. rewrite length_drop. unfold MANIFEST_SIZE in *. nia.
Qed.

Lemma uninstall_bundles s i : installed_bundles (set_registry s (AppRegistry.uninstall (registry s) i).1)
  = installed_bundles s.
Proof.
  unfold installed_bundles, AppRegistry.uninstall. cbn [registry set_registry]. case_if; [done|].
  destruct (AppRegistry.remove _ _) as [t [|]]; cbn; [|done]. rewrite omap_app. simpl. by rewrite app_nil_r.
Qed.

Lemma trusted_uninstall s i : trusted s → trusted (set_registry s (AppRegistry.uninstall (registry s) i).1).
Proof. intros [H1 H2 H3]. constructor; [done| |done]. by rewrite uninstall_bundles. Qed.

Lemma trusted_cache s c :
  trusted s → Forall (λ e, PkgCache.active e = true → ∃ m, vouched m ∧ PkgCache.e_hash e = hash m) c →
  trusted (set_cache s c).
Proof. intros [H1 H2 H3] Hc. by constructor. Qed.

(** Refreshing a timestamp or clearing a slot keeps every entry vouched for. *)
Lemma trusted_update s p f :
  trusted s → (∀ e, PkgCache.active (f e) = true → PkgCache.active e = true) →
  (∀ e, PkgCache.e_hash (f e) = PkgCache.e_hash e) →
  trusted (set_cache s (default (cache s) (update_first p f (cache s)))).
Proof.
  intros Ht Ha Hh. apply trusted_cache; [done|].
  destruct (update_first p f (cache s)) as [c|] eqn:E; [|apply Ht]. cbn [default].
  eapply Forall_update_first; [exact E|apply Ht|]. intros e He Hact. rewrite Hh. auto.
Qed.

Lemma trusted_insert s g i m now b :
  trusted s → vouched m → Sha256.hash b = hash m →
  AppRegistry.install (registry s) b = (g, Some i) →
  let '(c, g', _) := PkgCache.insert (cache s) g i (hash m) (is_system m) now in
  trusted (set_registry (set_cache s c) g').
Proof.
  intros [H1 H2 H3] Hm Hb Hi.
  assert (trusted (set_registry s g)) as Hg.
  { constructor; [done| |done]. unfold installed_bundles. cbn [registry set_registry].
    assert (AppRegistry.store_log g = AppRegistry.store_log (registry s) ++ [AppRegistry.Persist i b]) as ->.
    { unfold AppRegistry.install in Hi. destruct (AppRegistry.parse_header b); [|done].
      destruct (AppRegistry.find_by_name _ _); [done|].
      destruct (AppRegistry.insert _ _); [|done]. injection Hi as <- <-. done. }
    rewrite omap_app. apply Forall_app. split; [done|]. constructor; [|constructor]. by exists m. }
  unfold PkgCache.insert. set (fresh := PkgCache.mkEntry _ _ _ _ _).
  assert (∃ m0, vouched m0 ∧ PkgCache.e_hash fresh = hash m0) as Hf by (exists m; done).
  destruct (update_first _ _ (cache s)) as [c|] eqn:E.
  - assert (trusted (set_cache (set_registry s g) c)) as [T1 T2 T3]; [|by constructor].
    apply trusted_cache; [done|]. eapply Forall_update_first; [exact E|done|]. auto.
  - destruct (PkgCache.victim (cache s)) as [[k old]|].
    + assert (trusted (set_cache (set_registry s g) (<[k := fresh]> (cache s)))) as Hc.
      { apply trusted_cache; [done|]. apply Forall_insert; auto. }
      apply (trusted_uninstall _ (PkgCache.app_id old)) in Hc as [T1 T2 T3]. by constructor.
    + destruct Hg. by constructor.
Qed.

Lemma trusted_resolve net now s name s' r :
  trusted s → resolve net now s name = Val (s', r) → trusted s'.
Proof.
  intros Ht. unfold resolve. destruct (find_manifest s name) as [m|] eqn:Em; [|by intros [= <- _]].
  assert (vouched m) as Hm.
  { apply find_first_Some in Em as [Hin _]. eapply (Forall_forall vouched); [apply Ht|done]. }
  unfold PkgCache.lookup. destruct (find_first _ (cache s)) as [e|].
  { intros [= <- _]. by apply trusted_update. }
  destruct (fetch net s _) as [[b|]|]; cbn [obind]; [|by intros [= <- _]|done].
  destruct (Sha256.hash_eq _ _) eqn:Eh; cbn [negb]; [|by intros [= <- _]].
  apply Sha256.hash_eq_spec in Eh; [|apply Sha256.hash_length|by apply vouched_hash_length].
  destruct (AppRegistry.install (registry s) b) as [g [i|]] eqn:Ei.
  - pose proof (trusted_insert s g i m now b Ht Hm Eh Ei) as H.
    destruct (PkgCache.insert _ _ _ _ _ _) as [[c g'] ok]. by intros [= <- _].
  - intros [= <- _]. destruct Ht as [H1 H2 H3]. constructor; [done| |done].
    unfold installed_bundles. cbn [registry set_registry].
    unfold AppRegistry.install in Ei. destruct (AppRegistry.parse_header b); [|by injection Ei as <-].
    destruct (AppRegistry.find_by_name _ _); [by injection Ei as <-|].
    destruct (AppRegistry.insert _ _); [done|]. by injection Ei as <-.
Qed.

Lemma trusted_refresh net s s' r : trusted s → refresh_catalog net s = Val (s', r) → trusted s'.
Proof.
  intros Ht. unfold refresh_catalog.
  destruct (fetch net s (str "/catalog.bin")) as [[body|]|]; cbn [obind]; [|by intros [= <- _]|done].
  destruct (fetch net s (str "/catalog.sig")) as [[sig|]|]; cbn [obind]; [|by intros [= <- _]|done].
  destruct (verify_catalog_sig body sig) eqn:Ev; cbn [negb]; [|by intros [= <- _]].
  destruct (parse_catalog body) as [es|] eqn:Ep; [|by intros [= <- _]]. intros [= <- _].
  destruct Ht as [H1 H2 H3]. constructor; [|done|done]. apply Forall_forall. intros m Hm.
  unfold verify_catalog_sig in Ev. destruct (Nat.eqb_spec (length sig) 64); [|done].
  exists body, sig, es. done.
Qed.

Lemma trusted_exec s c s' : trusted s → exec s c = Val s' → trusted s'.
Proof.
  intros Ht. destruct c as [ip port|net|net now name|net now host spawn name|i|i]; cbn [exec].
  - intros [= <-]. by destruct Ht.
  - destruct (refresh_catalog net s) as [[s1 r]|] eqn:E; [|done]. intros [= <-].
    by eapply trusted_refresh.
  - destruct (resolve net now s name) as [[s1 r]|] eqn:E; [|done]. intros [= <-].
    by eapply trusted_resolve.
  - unfold resolve_and_launch. destruct (resolve net now s name) as [[s1 r]|] eqn:E; [|done].
    cbn [obind]. apply trusted_resolve in E; [|done]. destruct r as [i|e]; [|by intros [= <-]].
    assert (trusted (set_cache s1 (PkgCache.touch (cache s1) i now))) as [T1 T2 T3]
      by by apply trusted_update.
    destruct (AppRegistry.launch _ _ _ _ _) as [rec pid]. case_if; intros [= <-]; by constructor.
  - unfold PkgCache.remove. destruct (find_first _ (cache s)) as [e|]; [|intros [= <-]; by destruct Ht].
    destruct (PkgCache.pinned e); [intros [= <-]; by destruct Ht|]. intros [= <-].
    assert (trusted (set_cache s (default (cache s) (update_first
      (λ e, PkgCache.active e && (PkgCache.app_id e =? i)%Z) PkgCache.deactivate (cache s))))) as Hc
      by by apply trusted_update.
    by apply (trusted_uninstall _ i) in Hc as [T1 T2 T3].
  - intros [= <-]. by apply trusted_uninstall.
Qed.

Lemma trusted_init : trusted State_init.
Proof.
  constructor; [constructor|constructor|]. apply Forall_replicate. done.
Qed.

(** C18: the chain of trust: whatever the network answers and whatever the
    order of refreshes, resolves, launches, evictions and uninstalls, every
    bundle the pipeline has installed has a SHA-256 digest listed in a catalog
    whose 64-byte signature verifies under the built-in key, and the current
    catalog and every active cache entry come from such a catalog too. *)
Theorem resolver_chain_of_trust cs s :
  run State_init cs = Val s →
  Forall authentic (installed_bundles s) ∧ Forall vouched (CATALOG s) ∧
  Forall (λ e, PkgCache.active e = true → ∃ m, vouched m ∧ PkgCache.e_hash e = hash m) (cache s).
Proof.
  intros Hr. cut (trusted s); [intros []; done|]. revert Hr. generalize trusted_init.
  generalize State_init. induction cs as [|c cs IH]; intros s0 Ht; cbn [run]; [by intros [= <-]|].
  destruct (exec s0 c) as [s1|] eqn:E; [|done]. cbn [obind]. apply IH. by eapply trusted_exec.
Qed.

(** a package uninstalled through the system call stays in the cache:
    resolving it again reports success with the old app id although no such
    app is installed, and launching it fails. *)
Theorem resolver_stale_after_uninstall net now host spawn s name m e r :
  find_manifest s name = Some m →
  find_first (λ e, PkgCache.active e && Sha256.hash_eq (PkgCache.e_hash e) (hash m)) (cache s) = Some e →
  NoDup (AppRegistry.id <$> AppRegistry.apps (AppRegistry.table (registry s))) →
  AppRegistry.find (AppRegistry.table (registry s)) (PkgCache.app_id e) = Some r →
  AppRegistry.system r = false →
  let s1 := set_registry s (AppRegistry.uninstall (registry s) (PkgCache.app_id e)).1 in
  (∃ s2, resolve net now s1 name = Val (s2, inl (PkgCache.app_id e)) ∧
     AppRegistry.find (AppRegistry.table (registry s2)) (PkgCache.app_id e) = None) ∧
  (∃ s3, resolve_and_launch net now host spawn s1 name = Val (s3, inr InstallFailed)).
Proof.
  intros Hm He Hnd Hf Hsys s1. set (i := PkgCache.app_id e) in *.
  assert (AppRegistry.find (AppRegistry.table (registry s1)) i = None) as Hnone.
  { unfold s1, AppRegistry.uninstall. cbn [registry set_registry]. rewrite Hf, Hsys.
    destruct (AppRegistry.remove _ i) as [t [|]] eqn:Er; cbn [AppRegistry.table AppRegistry.log_store AppRegistry.set_table fst].
    - apply AppRegistry.remove_spec in Er as (r' & Hr' & Hp & _). assert (r' = r) as -> by congruence.
      apply AppRegistry.find_None. rewrite Hp in Hnd. apply NoDup_cons in Hnd as [Hnd _].
      apply AppRegistry.find_Some in Hf as [_ <-]. done.
    - exfalso. unfold AppRegistry.remove in Er. destruct (update_first _ _ _) eqn:Eu; [done|].
      apply update_first_None, position_None in Eu. rewrite Forall_forall in Eu.
      apply AppRegistry.find_Some in Hf as [Hr Hid]. apply elem_of_flatten in Hr.
      specialize (Eu _ Hr). cbv beta iota in Eu. apply Z.eqb_neq in Eu. done. }
  assert (resolve net now s1 name = Val (set_cache s1 (default (cache s1)
    (update_first (λ e, PkgCache.active e && Sha256.hash_eq (PkgCache.e_hash e) (hash m))
       (PkgCache.set_used now) (cache s1))), inl i)) as Hres.
  { unfold resolve. change (find_manifest s1 name) with (find_manifest s name). rewrite Hm.
    unfold PkgCache.lookup. change (cache s1) with (cache s). by rewrite He. }
  split.
  - eexists. split; [exact Hres|]. exact Hnone.
  - unfold resolve_and_launch. rewrite Hres. cbn [obind]. unfold AppRegistry.launch.
    cbn [registry set_cache]. rewrite Hnone. cbn. by eexists.
Qed.

End resolver.

(** ** Witnesses: a server with one package *)

#[local] Existing Instance Wm.solo_groups.

Definition http_ok (body : bytes) : bytes :=
  str "HTTP/1.1 200 OK" ++ Http.crlf ++ str "Content-Length: " ++ Http.fmt_dec (Z.of_nat (length body))
  ++ Http.CRLF2 ++ body.

Definition sample_bundle : bytes := AppRegistry.sample_bundle (str "com.dotcorr.files").
Definition sample_manifest : PkgManifest :=
  mkManifest (AppRegistry.pad_to 64 (str "com.dotcorr.files")) (AppRegistry.pad_to 16 (str "1.0"))
    (Sha256.hash sample_bundle) (Z.of_nat (length sample_bundle)) 0 (replicate 8 0%Z).

Definition sample_net (path : bytes) : Http.Net :=
  Http.mkNet true (λ _, Http.EstYes) [Http.WOk 4096]
    [Http.RData (http_ok (if bytes_eqb path (str "/catalog.bin") then serialize_catalog [sample_manifest]
                          else if bytes_eqb path (str "/catalog.sig") then replicate 64 7%Z
                          else sample_bundle))].

(** A verifier that accepts one signature. *)
Definition sample_verify (pk msg sig : bytes) : bool := bytes_eqb sig (replicate 64 7%Z).

Definition sample_calls : list call :=
  [CRefresh sample_net; CResolve sample_net 1 (str "com.dotcorr.files")].

Definition sample_run : outcome State := run sample_verify State_init sample_calls.
Definition state_of (o : outcome State) : State := match o with Val s => s | Panic => State_init end.
Definition sample_state : State := state_of sample_run.

Lemma resolver_chain_witness :
  installed_bundles sample_state = [sample_bundle] ∧
  Forall (authentic sample_verify) (installed_bundles sample_state).
Proof.
  split; [vm_compute; reflexivity|].
  destruct (resolver_chain_of_trust sample_verify sample_calls sample_state) as [H _]; [|exact H].
  vm_compute. reflexivity.
Defined.

Lemma resolver_stale_witness :
  ∃ s3, resolve_and_launch sample_net 2 true (Some 7%Z)
          (set_registry sample_state (AppRegistry.uninstall (registry sample_state) 1).1)
          (str "com.dotcorr.files") = Val (s3, inr InstallFailed).
Proof.
  apply (resolver_stale_after_uninstall sample_net 2 true (Some 7%Z) sample_state (str "com.dotcorr.files")
    sample_manifest (PkgCache.mkEntry true 1 (hash sample_manifest) 1 false)
    (AppRegistry.record_of (AppRegistry.sample_header (str "com.dotcorr.files")) sample_bundle 1 false)).
  - vm_compute. reflexivity.
  - vm_compute. reflexivity.
  - apply (bool_decide_eq_true_1 _). vm_compute. reflexivity.
  - vm_compute. reflexivity.
  - vm_compute. reflexivity.
Defined.

End Resolver.
