(* ===== verification/Tar.v ===== *)
(** * The embedded archive ([fs/initramfs.rs])

    The kernel carries a tar archive and walks its headers of 512 bytes at
    every lookup.  [archive] is a reference writer of the format; the theorem
    [archive_served] says what the three walks answer on every archive it
    writes. *)

From Stdlib Require Import ZArith Lia.
From stdpp Require Import base numbers strings option list.
From S2P Require Import Prelude Http.

Local Open Scope Z_scope.

Module Tar.

(** ** Strings *)

(** [from_utf8(bs).unwrap_or("")]; a string is its bytes. *)
Definition str_of (bs : bytes) : bytes := if isSome (Http.from_utf8 bs) then bs else [].

(** [trim_start_matches] with a non-empty pattern takes off as many copies as
    there are, at most the length of the string. *)
Fixpoint trim_loop (fuel : nat) (p s : bytes) : bytes :=
  match fuel with
  | O => s
  | S f => match strip_prefix p s with Some r => trim_loop f p r | None => s end
  end.
Definition trim_start_matches (p s : bytes) : bytes := trim_loop (length s) p s.
Definition trim_end_slash (s : bytes) : bytes := reverse (trim_start_matches (str "/") (reverse s)).

(** ** Headers *)

Definition BLOCK : Z := 512.

Fixpoint octal_loop (s : bytes) (val : Z) : Z :=
  match s with
  | [] => val
  | b :: s' =>
      if (b =? 0) || (b =? 32) then val
      else octal_loop s' (if (48 <=? b) && (b <=? 55) then u64 (val * 8 + (b - 48)) else val)
  end.
Definition parse_octal (s : bytes) : Z := octal_loop s 0.

Definition header_name (h : bytes) : bytes := str_of (nul_trim (slice h 0 100)).
Definition header_size (h : bytes) : Z := parse_octal (slice h 124 135).
Definition typeflag (h : bytes) : Z := h !!! 156%nat.
Definition is_file (h : bytes) : bool := (typeflag h =? 48) || (typeflag h =? 0).

Definition div_ceil (n m : Z) : Z := (n + m - 1) / m.

(** The position of the header behind this one. *)
Definition next_pos (pos size : Z) : Z := pos + (BLOCK + div_ceil size BLOCK * BLOCK).

Definition range_of (data : bytes) (lo hi : Z) : bytes := slice data (Z.to_nat lo) (Z.to_nat hi).

(** Every round moves on by a block or more, so that the walks need no more
    rounds than the archive has bytes. *)
Fixpoint find_loop (fuel : nat) (data want : bytes) (pos : Z) : option bytes :=
  match fuel with
  | O => None
  | S f =>
      let len := Z.of_nat (length data) in
      if pos + BLOCK <=? len then
        let header := range_of data pos (pos + BLOCK) in
        if header !!! 0%nat =? 0 then None
        else
          let size := header_size header in
          let data_start := pos + BLOCK in
          let data_end := data_start + size in
          let cmp := trim_start_matches (str "./") (header_name header) in
          if is_file header && bytes_eqb cmp want && (data_end <=? len)
          then Some (range_of data data_start data_end)
          else find_loop f data want (next_pos pos size)
      else None
  end.

Definition find_in_tar (data path : bytes) : option bytes :=
  let want := trim_start_matches (str "./") (trim_start_matches (str "/") path) in
  find_loop (length data) data want 0.

(** The name a file is listed under. *)
Definition relative (prefix cmp : bytes) : option bytes :=
  match prefix with
  | [] => Some cmp
  | _ =>
      match strip_prefix prefix cmp with
      | Some r => let rest := trim_start_matches (str "/") r in
                  match rest with [] => None | _ => Some rest end
      | None => None
      end
  end.

(** The bytes written from [out] on; [written] is their number. *)
Definition emit (cap : Z) (out line : bytes) : bytes :=
  if Z.of_nat (length out) + (Z.of_nat (length line) + 1) <=? cap then out ++ line ++ [10] else out.

Fixpoint list_loop (fuel : nat) (data prefix : bytes) (cap : Z) (out : bytes) (pos : Z) : bytes :=
  match fuel with
  | O => out
  | S f =>
      if pos + BLOCK <=? Z.of_nat (length data) then
        let header := range_of data pos (pos + BLOCK) in
        if header !!! 0%nat =? 0 then out
        else
          let size := header_size header in
          let cmp := trim_start_matches (str "./") (header_name header) in
          let out' :=
            if is_file header then
              match relative prefix cmp with Some rel_name => emit cap out rel_name | None => out end
            else out in
          list_loop f data prefix cap out' (next_pos pos size)
      else out
  end.

Definition list_in_tar (data prefix : bytes) (cap : Z) : bytes :=
  list_loop (length data) data (trim_start_matches (str "/") prefix) cap [] 0.

(** A directory entry of that name, or a file below it. *)
Definition names_dir (want : bytes) (header : bytes) : bool :=
  let cmp := trim_end_slash (trim_start_matches (str "./") (header_name header)) in
  (typeflag header =? 53) && bytes_eqb cmp want
  || is_file header && (length want <? length cmp)%nat && (cmp !!! length want =? 47)
     && bytes_eqb (take (length want) cmp) want.

Fixpoint is_dir_loop (fuel : nat) (data want : bytes) (pos : Z) : bool :=
  match fuel with
  | O => false
  | S f =>
      if pos + BLOCK <=? Z.of_nat (length data) then
        let header := range_of data pos (pos + BLOCK) in
        if header !!! 0%nat =? 0 then false
        else if names_dir want header then true
        else is_dir_loop f data want (next_pos pos (header_size header))
      else false
  end.

Definition is_dir_in_embedded (data path : bytes) : bool :=
  let want := trim_end_slash (trim_start_matches (str "/") path) in
  match want with
  | [] => true
  | _ => is_dir_loop (length data) data want 0
  end.

(** ** A writer *)

(** What an entry of an archive holds, with the fields of its header the kernel
    does not read as they are. *)
Record entry := mkEntry {
  e_name : bytes; e_owner : bytes; e_date : bytes; e_type : Z; e_rest : bytes; e_data : bytes; e_pad : bytes
}.

Fixpoint octal (n : nat) (z : Z) : bytes :=
  match n with
  | O => []
  | S n' => octal n' (z / 8) ++ [48 + z mod 8]
  end.

(** The header: name, mode and owner, size, date and checksum, type, the rest. *)
Definition ustar_header (e : entry) : bytes :=
  (e_name e ++ replicate (100 - length (e_name e)) 0) ++ e_owner e ++ octal 11 (Z.of_nat (length (e_data e))) ++
  e_date e ++ [e_type e] ++ e_rest e.

Record entry_ok (e : entry) : Prop := {
  eo_name : e_name e ≠ [] ∧ (length (e_name e) ≤ 100)%nat ∧ Forall (λ b, b ≠ 0) (e_name e) ∧
    isSome (Http.from_utf8 (e_name e)) = true;
  eo_owner : length (e_owner e) = 24%nat;
  eo_date : length (e_date e) = 21%nat;
  eo_rest : length (e_rest e) = 355%nat;
  eo_size : Z.of_nat (length (e_data e)) < 8 ^ 11;
  eo_pad : Z.of_nat (length (e_data e) + length (e_pad e)) = div_ceil (Z.of_nat (length (e_data e))) BLOCK * BLOCK
}.

Definition encode (e : entry) : bytes := ustar_header e ++ e_data e ++ e_pad e.

(** An archive ends with a zero block or with the file. *)
Definition tail_ok (tail : bytes) : Prop := (length tail < 512)%nat ∨ tail !!! 0%nat = 0.

Definition archive (es : list entry) (tail : bytes) : bytes := mjoin (map encode es) ++ tail.

(** What the walks should answer. *)
Definition regular (e : entry) : bool := (e_type e =? 48) || (e_type e =? 0).
Definition plain_name (e : entry) : bytes := trim_start_matches (str "./") (e_name e).

(** The line of a file in the listing of [prefix]: what follows the prefix and
    any slashes in its name.  The prefix need not end at a slash. *)
Definition listed_as (prefix : bytes) (e : entry) (l : bytes) : Prop :=
  regular e = true ∧
  (prefix = [] ∧ l = plain_name e ∨
   prefix ≠ [] ∧ ∃ n b r, l = b :: r ∧ b ≠ 47 ∧ plain_name e = prefix ++ replicate n 47 ++ l).

(** The lines of the files of an archive, in its order. *)
Inductive lists (prefix : bytes) : list entry → list bytes → Prop :=
| lists_nil : lists prefix [] []
| lists_line e es l ls : listed_as prefix e l → lists prefix es ls → lists prefix (e :: es) (l :: ls)
| lists_skip e es ls : (¬ ∃ l, listed_as prefix e l) → lists prefix es ls → lists prefix (e :: es) ls.

Definition below (want : bytes) (e : entry) : bool :=
  let name := trim_end_slash (plain_name e) in
  (e_type e =? 53) && bytes_eqb name want || regular e && starts_with name (want ++ str "/").

(** ** Headers as written *)

Lemma octal_length n z : length (octal n z) = n.
Proof. revert z. induction n as [|n IH]; intros z; cbn; [done|]. rewrite length_app, IH. cbn. lia. Qed.

Lemma octal_loop_app s t v :
  Forall (λ b, 48 ≤ b ≤ 55) s → octal_loop (s ++ t) v = octal_loop t (octal_loop s v).
Proof.
  intros H. revert v. induction H as [|b s Hb _ IH]; intros v; cbn; [done|].
  rewrite (proj2 (Z.eqb_neq b 0)), (proj2 (Z.eqb_neq b 32)) by lia. cbn. apply IH.
Qed.

Lemma octal_digits n z : Forall (λ b, 48 ≤ b ≤ 55) (octal n z).
Proof.
  revert z. induction n as [|n IH]; intros z; cbn; [constructor|]. apply Forall_app. split; [apply IH|].
  constructor; [|constructor]. pose proof (Z.mod_pos_bound z 8). lia.
Qed.

Lemma parse_octal_digits n z : 0 ≤ z < 8 ^ Z.of_nat n → 8 ^ Z.of_nat n ≤ 2 ^ 64 → parse_octal (octal n z) = z.
Proof.
  unfold parse_octal. revert z. induction n as [|n IH]; intros z Hz Hn; [cbn in *; lia|].
  rewrite Nat2Z.inj_succ, Z.pow_succ_r in * by lia. cbn [octal]. rewrite octal_loop_app by apply octal_digits.
  pose proof (Z.div_mod z 8). pose proof (Z.mod_pos_bound z 8).
  rewrite IH; [|split; [apply Z.div_pos; lia|apply Z.div_lt_upper_bound; lia]|lia]. cbn [octal_loop].
  rewrite (proj2 (Z.eqb_neq (48 + z mod 8) 0)), (proj2 (Z.eqb_neq (48 + z mod 8) 32)),
    (proj2 (Z.leb_le 48 (48 + z mod 8))), (proj2 (Z.leb_le (48 + z mod 8) 55)) by lia. cbn [orb andb].
  unfold u64. rewrite wrap_small by (unfold is_u; lia). lia.
Qed.

Lemma nul_trim_padded s n : Forall (λ b, b ≠ 0) s → nul_trim (s ++ replicate n 0) = s.
Proof.
  intros H. unfold nul_trim, nul_end.
  destruct (position (Z.eqb 0) (s ++ replicate n 0)) as [i|] eqn:E; cbn.
  - apply position_Some in E as [(x & Hx & Hz) Hbefore]. unbool.
    assert (length s ≤ i)%nat as Hi.
    { destruct (Nat.le_gt_cases (length s) i); [done|]. rewrite lookup_app_l in Hx by lia.
      rewrite Forall_lookup in H. by specialize (H _ _ Hx). }
    destruct (Nat.eq_dec i (length s)) as [->|Hne]; [by rewrite take_app_length|].
    assert ((s ++ replicate n 0) !! length s = Some 0) as H0.
    { rewrite lookup_app_r, Nat.sub_diag by lia. apply lookup_replicate. split; [done|].
      apply lookup_lt_Some in Hx. rewrite length_app, length_replicate in Hx. lia. }
    specialize (Hbefore (length s) 0 ltac:(lia) H0). unbool. done.
  - apply position_None in E. destruct n as [|n]; [by rewrite app_nil_r, take_ge|].
    apply Forall_app in E as [_ E]. by apply Forall_cons in E as [? _].
Qed.

Section written.
Context (e : entry) (He : entry_ok e).

Lemma header_length : length (ustar_header e) = 512%nat.
Proof.
  destruct He as [(_ & Hn & _) Ho Hd Hr _ _]. unfold ustar_header.
  rewrite !length_app, length_replicate, octal_length, Ho, Hd, Hr. cbn [length]. lia.
Qed.

Lemma header_name_written : header_name (ustar_header e) = e_name e.
Proof.
  destruct He as [(_ & Hn & Hz & Hu) _ _ _ _ _]. unfold header_name.
  assert (slice (ustar_header e) 0 100 = e_name e ++ replicate (100 - length (e_name e)) 0) as ->.
  { apply (slice_at []); [done|]. rewrite length_app, length_replicate. lia. }
  rewrite nul_trim_padded by done. unfold str_of. by rewrite Hu.
Qed.

Lemma header_size_written : header_size (ustar_header e) = Z.of_nat (length (e_data e)).
Proof.
  destruct He as [(_ & Hn & _) Ho _ _ Hs _]. unfold header_size.
  assert (slice (ustar_header e) 124 135 = octal 11 (Z.of_nat (length (e_data e)))) as ->.
  { unfold ustar_header. rewrite app_assoc. apply slice_at; rewrite ?octal_length, ?length_app, ?length_replicate, ?Ho; lia. }
  apply parse_octal_digits; lia.
Qed.

Lemma typeflag_written : typeflag (ustar_header e) = e_type e.
Proof.
  destruct He as [(_ & Hn & _) Ho Hd _ _ _]. unfold typeflag, ustar_header. rewrite !app_assoc, <- (app_assoc _ [e_type e]).
  apply list_lookup_total_middle. rewrite !length_app, length_replicate, octal_length, Ho, Hd. lia.
Qed.

Lemma header_first : ustar_header e !!! 0%nat ≠ 0.
Proof.
  destruct He as [(Hne & _ & Hz & _) _ _ _ _ _]. unfold ustar_header. destruct (e_name e) as [|b s]; [done|].
  cbn. by apply Forall_cons in Hz as [? _].
Qed.

Lemma encode_length : Z.of_nat (length (encode e)) = BLOCK + div_ceil (Z.of_nat (length (e_data e))) BLOCK * BLOCK.
Proof.
  unfold encode. rewrite !length_app, header_length. pose proof (eo_pad _ He). unfold BLOCK in *. lia.
Qed.
End written.

(** ** One round of a walk *)

Lemma range_of_mid x y z lo hi :
  lo = Z.of_nat (length x) → hi = lo + Z.of_nat (length y) → range_of (x ++ y ++ z) lo hi = y.
Proof. intros -> ->. unfold range_of. apply slice_at; lia. Qed.

(** At the position of an entry a walk sees its header, and the next position
    is that of the rest. *)
Lemma at_entry pre e post pos :
  entry_ok e → pos = Z.of_nat (length pre) →
  let data := pre ++ encode e ++ post in
  (pos + BLOCK <=? Z.of_nat (length data)) = true ∧ range_of data pos (pos + BLOCK) = ustar_header e ∧
  (ustar_header e !!! 0%nat =? 0) = false ∧
  next_pos pos (header_size (ustar_header e)) = Z.of_nat (length (pre ++ encode e)) ∧
  (pos + BLOCK + Z.of_nat (length (e_data e)) <=? Z.of_nat (length data)) = true ∧
  range_of data (pos + BLOCK) (pos + BLOCK + Z.of_nat (length (e_data e))) = e_data e.
Proof.
  intros He Hpos data. pose proof (header_length e He) as Hl. pose proof (encode_length e He) as Hle.
  assert (data = pre ++ ustar_header e ++ (e_data e ++ e_pad e) ++ post) as Hd by (unfold data, encode; by rewrite <- !app_assoc).
  assert (data = (pre ++ ustar_header e) ++ e_data e ++ e_pad e ++ post) as Hd' by (rewrite Hd, <- !app_assoc; done).
  assert (Z.of_nat (length data) = pos + BLOCK + Z.of_nat (length (e_data e)) + Z.of_nat (length (e_pad e ++ post))) as Hlen.
  { rewrite Hd', !length_app, Hl. unfold BLOCK. lia. }
  split_and!.
  - apply Z.leb_le. lia.
  - rewrite Hd. apply range_of_mid; [done|]. by rewrite Hl.
  - apply Z.eqb_neq, (header_first e He).
  - rewrite (header_size_written e He). unfold next_pos. rewrite length_app, Nat2Z.inj_add, Hle. lia.
  - apply Z.leb_le. lia.
  - rewrite Hd'. apply range_of_mid; [|lia]. rewrite length_app, Hl. unfold BLOCK. lia.
Qed.

(** At the end of the archive a walk stops. *)
Lemma at_tail pre tail pos :
  tail_ok tail → pos = Z.of_nat (length pre) →
  (pos + BLOCK <=? Z.of_nat (length (pre ++ tail))) = false ∨
  (range_of (pre ++ tail) pos (pos + BLOCK) !!! 0%nat =? 0) = true.
Proof.
  intros Ht ->. rewrite length_app, Nat2Z.inj_add.
  destruct (Z.leb_spec (Z.of_nat (length pre) + BLOCK) (Z.of_nat (length pre) + Z.of_nat (length tail))) as [H|H]; [right|by left].
  destruct Ht as [Ht|Ht]; [unfold BLOCK in H; lia|]. apply Z.eqb_eq. rewrite <- Ht. unfold range_of, slice.
  rewrite !list_lookup_total_alt, lookup_take_lt, lookup_drop, lookup_app_r by (unfold BLOCK; lia). do 2 f_equal. lia.
Qed.

Lemma archive_cons pre e es tail : pre ++ archive (e :: es) tail = pre ++ encode e ++ archive es tail.
Proof. unfold archive. cbn. by rewrite <- app_assoc. Qed.

Lemma archive_length e es tail :
  length (archive (e :: es) tail) = (length (encode e) + length (archive es tail))%nat.
Proof. rewrite <- length_app. exact (f_equal length (archive_cons [] e es tail)). Qed.

Lemma is_file_written e : entry_ok e → is_file (ustar_header e) = regular e.
Proof. intros He. unfold is_file, regular. by rewrite (typeflag_written e He). Qed.

Lemma slash_prefix want name :
  (length want <? length name)%nat && (name !!! length want =? 47) && bytes_eqb (take (length want) name) want =
  starts_with name (want ++ str "/").
Proof.
  apply eq_true_iff_eq. unfold starts_with. split.
  - intros H. unbool. apply bytes_eqb_eq in H0. destruct (strip_prefix _ name) as [r|] eqn:E; [done|].
    assert (name = (want ++ str "/") ++ drop (S (length want)) name) as Hn.
    { rewrite <- (take_drop (length want) name) at 1. rewrite H0, <- app_assoc. f_equal.
      rewrite (drop_S name (name !!! length want)) by (by apply list_lookup_lookup_total_lt).
      match goal with H : _ = 47 |- _ => rewrite H end. reflexivity. }
    apply strip_prefix_Some in Hn. congruence.
  - destruct (strip_prefix _ name) as [r|] eqn:E; [|done]. apply strip_prefix_Some in E as ->. intros _.
    rewrite <- app_assoc, take_app_length, bytes_eqb_refl, length_app, (proj2 (Nat.ltb_lt _ _)) by (cbn; lia).
    change (str "/" ++ r) with (47 :: r). by rewrite list_lookup_total_middle.
Qed.

Lemma names_dir_written want e : entry_ok e → names_dir want (ustar_header e) = below want e.
Proof.
  intros He. unfold names_dir, below. rewrite (header_name_written e He), (typeflag_written e He), is_file_written by done.
  rewrite <- slash_prefix. fold (plain_name e). by rewrite <- !andb_assoc.
Qed.

Lemma encode_pos e : entry_ok e → (512 ≤ length (encode e))%nat.
Proof. intros He. unfold encode. rewrite length_app, (header_length e He). lia. Qed.

(** The line the walk writes for a file. *)
Definition line_of (prefix : bytes) (e : entry) : option bytes :=
  if regular e then relative prefix (plain_name e) else None.

Lemma trim_slashes n r :
  (length r ≤ n)%nat → ∃ k, r = replicate k 47 ++ trim_loop n (str "/") r ∧
    (trim_loop n (str "/") r = [] ∨ ∃ b s, trim_loop n (str "/") r = b :: s ∧ b ≠ 47).
Proof.
  revert r. induction n as [|n IH]; intros r Hn; [destruct r; [|cbn in Hn; lia]; exists O; cbn; auto|].
  destruct r as [|b r]; [exists O; cbn; auto|]. cbn [trim_loop]. cbn in Hn.
  assert (strip_prefix (str "/") (b :: r) = if 47 =? b then Some r else None) as -> by done.
  destruct (Z.eqb_spec 47 b) as [<-|Hb].
  - destruct (IH r ltac:(lia)) as (k & E & H). exists (S k). cbn [replicate app]. split; [|done]. by f_equal.
  - exists O. cbn. split; [done|]. right. exists b, r. split; congruence.
Qed.

Lemma line_of_listed prefix e :
  match line_of prefix e with Some l => listed_as prefix e l | None => ¬ ∃ l, listed_as prefix e l end.
Proof.
  unfold line_of, listed_as. destruct (regular e); [|intros [l [? _]]; done]. unfold relative.
  destruct prefix as [|p prefix]; [split; [done|by left]|]. set (q := p :: prefix). fold q.
  destruct (strip_prefix q (plain_name e)) as [r|] eqn:Es.
  - apply strip_prefix_Some in Es. destruct (trim_slashes (length r) r (le_n _)) as (k & Ek & Hh).
    unfold trim_start_matches. destruct (trim_loop (length r) (str "/") r) as [|b s] eqn:Et.
    + rewrite app_nil_r in Ek. intros [l (_ & [[? _]|(_ & n & b & s & -> & Hb & E)])]; [done|].
      rewrite E in Es. apply app_inv_head in Es. rewrite Ek in Es.
      apply Hb. assert (b ∈ replicate k 47) as Hin by (rewrite <- Es; apply elem_of_app; right; left).
      by apply elem_of_replicate in Hin as [-> _].
    + split; [done|right]. split; [done|]. destruct Hh as [?|(b' & s' & [= <- <-] & Hb)]; [done|].
      exists k, b, s. split_and!; try done. by rewrite Es, Ek.
  - intros [l (_ & [[? _]|(_ & n & b & s & -> & _ & E)])]; [done|]. apply strip_prefix_Some in E. congruence.
Qed.

Lemma lists_omap prefix es : lists prefix es (omap (line_of prefix) es).
Proof.
  induction es as [|e es IH]; [constructor|]. cbn. pose proof (line_of_listed prefix e) as H.
  destruct (line_of prefix e); by constructor.
Qed.

Section walks.
Context (tail : bytes) (Htail : tail_ok tail).

Lemma find_walk es want : Forall entry_ok es → ∀ fuel pre,
  (length (archive es tail) ≤ fuel)%nat →
  find_loop fuel (pre ++ archive es tail) want (Z.of_nat (length pre)) =
  e_data <$> find_first (λ e, regular e && bytes_eqb (plain_name e) want) es.
Proof.
  induction 1 as [|e es He _ IH]; intros fuel pre Hf.
  - destruct fuel as [|fuel]; [done|]. cbn [find_loop]. change (archive [] tail) with tail.
    destruct (at_tail pre tail _ Htail eq_refl) as [-> | ->]; [done|]. by case_match.
  - rewrite archive_cons. pose proof (encode_pos e He). rewrite archive_length in Hf.
    destruct fuel as [|fuel]; [lia|]. cbn [find_loop].
    destruct (at_entry pre e (archive es tail) _ He eq_refl) as (-> & -> & -> & -> & Hend & Hdata). cbn iota.
    rewrite (header_size_written e He), Hend, Hdata, (header_name_written e He), is_file_written by done. cbn [find_first].
    fold (plain_name e). destruct (regular e && bytes_eqb (plain_name e) want); [done|]. cbn [andb].
    rewrite app_assoc. apply IH. lia.
Qed.

Lemma list_walk es prefix cap : Forall entry_ok es → ∀ fuel pre out,
  (length (archive es tail) ≤ fuel)%nat →
  list_loop fuel (pre ++ archive es tail) prefix cap out (Z.of_nat (length pre)) =
  foldl (emit cap) out (omap (line_of prefix) es).
Proof.
  induction 1 as [|e es He _ IH]; intros fuel pre out Hf.
  - destruct fuel as [|fuel]; [done|]. cbn [list_loop]. change (archive [] tail) with tail.
    destruct (at_tail pre tail _ Htail eq_refl) as [-> | ->]; [done|]. by case_match.
  - rewrite archive_cons. pose proof (encode_pos e He). rewrite archive_length in Hf.
    destruct fuel as [|fuel]; [lia|]. cbn [list_loop].
    destruct (at_entry pre e (archive es tail) _ He eq_refl) as (-> & -> & -> & -> & _ & _). cbn iota.
    rewrite (header_name_written e He), is_file_written by done.
    fold (plain_name e). rewrite app_assoc, IH by lia. cbn. unfold line_of.
    destruct (regular e); [|done]. by destruct (relative prefix (plain_name e)).
Qed.

Lemma is_dir_walk es want : Forall entry_ok es → ∀ fuel pre,
  (length (archive es tail) ≤ fuel)%nat →
  is_dir_loop fuel (pre ++ archive es tail) want (Z.of_nat (length pre)) = existsb (below want) es.
Proof.
  induction 1 as [|e es He _ IH]; intros fuel pre Hf.
  - destruct fuel as [|fuel]; [done|]. cbn [is_dir_loop]. change (archive [] tail) with tail.
    destruct (at_tail pre tail _ Htail eq_refl) as [-> | ->]; [done|]. by case_match.
  - rewrite archive_cons. pose proof (encode_pos e He). rewrite archive_length in Hf.
    destruct fuel as [|fuel]; [lia|]. cbn [is_dir_loop].
    destruct (at_entry pre e (archive es tail) _ He eq_refl) as (-> & -> & -> & -> & _ & _). cbn iota.
    rewrite names_dir_written by done. cbn [existsb]. destruct (below want e); [done|].
    rewrite app_assoc. apply IH. lia.
Qed.
End walks.

(** A listing that fits is complete. *)
Lemma emit_all cap lines out :
  Z.of_nat (length (out ++ List.concat (map (λ l, l ++ [10]) lines))) ≤ cap →
  foldl (emit cap) out lines = out ++ List.concat (map (λ l, l ++ [10]) lines).
Proof.
  revert out. induction lines as [|l lines IH]; intros out; cbn; [by rewrite app_nil_r|].
  rewrite !length_app. cbn. intros H. unfold emit at 2. rewrite (proj2 (Z.leb_le _ _)) by lia.
  rewrite IH by (rewrite !length_app; cbn; lia). by rewrite <- !app_assoc.
Qed.

Lemma emit_bound cap lines out :
  Z.of_nat (length out) ≤ cap → Z.of_nat (length (foldl (emit cap) out lines)) ≤ cap.
Proof.
  revert out. induction lines as [|l lines IH]; intros out Ho; cbn; [done|]. apply IH. unfold emit. case_if; [|done].
  unbool. rewrite !length_app. cbn. lia.
Qed.

(** Shared by the theorem below and the file system. *)
Lemma archive_walks es tail path :
  Forall entry_ok es → tail_ok tail →
  find_in_tar (archive es tail) path =
    e_data <$> find_first (λ e, regular e && bytes_eqb (plain_name e)
      (trim_start_matches (str "./") (trim_start_matches (str "/") path))) es ∧
  is_dir_in_embedded (archive es tail) path =
    bytes_eqb (trim_end_slash (trim_start_matches (str "/") path)) [] ||
    existsb (below (trim_end_slash (trim_start_matches (str "/") path))) es.
Proof.
  intros Hes Htail. split.
  - by apply (find_walk tail Htail es _ Hes _ []).
  - unfold is_dir_in_embedded. destruct (trim_end_slash _) as [|b dir']; [done|]. by apply (is_dir_walk tail Htail es _ Hes _ []).
Qed.

(** C37: In every archive the writer makes, with names of at most 100 bytes in the
    name field (the kernel does not read the prefix field of a header),
    [find_in_tar] gives the contents of the first regular file whose name is the
    path, up to leading "./" and "/"; [list_in_tar] writes at most [cap] bytes and,
    if they fit, a line for every regular file whose name begins with the prefix
    and does not end with it, in the order of the archive: the rest of the name
    behind the prefix and slashes; [is_dir_in_embedded] accepts the root, the
    directory entries and the parents of files.  Each walk ends within its fuel. *)
Theorem archive_served es tail path prefix cap :
  Forall entry_ok es → tail_ok tail → 0 ≤ cap →
  let data := archive es tail in
  let want := trim_start_matches (str "./") (trim_start_matches (str "/") path) in
  let dir := trim_end_slash (trim_start_matches (str "/") path) in
  find_in_tar data path = e_data <$> find_first (λ e, regular e && bytes_eqb (plain_name e) want) es ∧
  Z.of_nat (length (list_in_tar data prefix cap)) ≤ cap ∧
  (∃ names, lists (trim_start_matches (str "/") prefix) es names ∧
     let listing := List.concat (map (λ l, l ++ [10]) names) in
     (Z.of_nat (length listing) ≤ cap → list_in_tar data prefix cap = listing)) ∧
  is_dir_in_embedded data path = bytes_eqb dir [] || existsb (below dir) es.
Proof.
  intros Hes Htail Hcap data want dir. set (names := omap (line_of (trim_start_matches (str "/") prefix)) es).
  assert (list_in_tar data prefix cap = foldl (emit cap) [] names) as Hlist.
  { apply (list_walk tail Htail es _ cap Hes _ []). done. }
  destruct (archive_walks es tail path Hes Htail) as [Hf Hd]. split_and!; [done| | |done].
  - rewrite Hlist. by apply emit_bound.
  - exists names. split; [apply lists_omap|]. intros listing H. rewrite Hlist. by apply emit_all.
Qed.

(** ** Witness: a directory and two files *)

Definition sample_entry (name : bytes) (type : Z) (content : bytes) : entry :=
  mkEntry name (replicate 24 48) (replicate 21 32) type (replicate 355 0) content
    (replicate (match length content with O => O | n => 512 - n end) 0).
Definition sample_entries : list entry :=
  [sample_entry (str "./etc/") 53 []; sample_entry (str "./etc/motd") 48 (str "hello");
   sample_entry (str "bin/init") 48 (str "ELF")].
Definition sample_archive : bytes := archive sample_entries (replicate 512 0).

Lemma sample_entries_ok : Forall entry_ok sample_entries.
Proof. repeat constructor; vm_compute; (reflexivity || discriminate || (repeat constructor; discriminate)). Qed.

(** The names of a listing are determined by the archive. *)
Lemma listed_as_unique prefix e l l' : listed_as prefix e l → listed_as prefix e l' → l = l'.
Proof.
  intros (Hr & [[Hp ->]|(Hp & n & b & r & -> & Hb & E)]) (_ & [[Hp' ->]|(Hp' & n' & b' & r' & -> & Hb' & E')]);
    try done. rewrite E in E'. apply app_inv_head in E'. clear E. revert n' E'.
  induction n as [|n IH]; intros [|n'] E'; cbn in E'; [congruence|congruence|congruence|].
  injection E' as E'. by apply (IH n').
Qed.

Lemma lists_unique prefix es ls ls' : lists prefix es ls → lists prefix es ls' → ls = ls'.
Proof.
  intros H. revert ls'. induction H as [|e es l ls Hl H IH|e es ls Hn H IH]; intros ls' H'; inversion H'; subst.
  - done.
  - f_equal; [by eapply listed_as_unique|by apply IH].
  - exfalso. eauto.
  - exfalso. eauto.
  - by apply IH.
Qed.

Lemma archive_served_witness :
  find_in_tar sample_archive (str "/etc/motd") = Some (str "hello") ∧
  list_in_tar sample_archive (str "/") 64 = str "etc/motd" ++ [10] ++ str "bin/init" ++ [10] ∧
  is_dir_in_embedded sample_archive (str "/etc/motd") = false.
Proof.
  destruct (archive_served sample_entries (replicate 512 0) (str "/etc/motd") (str "/") 64) as (Hf & _ & Hl & Hd).
  - exact sample_entries_ok.
  - right. reflexivity.
  - lia.
  - split; [|split].
    + unfold sample_archive. rewrite Hf. vm_compute. reflexivity.
    + destruct Hl as (names & Hn & Hl). unfold sample_archive.
      rewrite (lists_unique _ _ _ _ Hn (lists_omap _ _)) in Hl. rewrite Hl; vm_compute; (reflexivity || discriminate).
    + unfold sample_archive. rewrite Hd. vm_compute. reflexivity.
Defined.

(** A prefix is not taken for a directory: a file of [/binary] is listed below
    [/bin]. *)
Example listing_without_separator :
  list_in_tar (archive [sample_entry (str "binary/x") 48 (str "ELF")] (replicate 512 0)) (str "/bin") 64 =
  str "ary/x" ++ [10].
Proof. vm_compute. reflexivity. Qed.
End Tar.
