(* ===== verification/Ramdisk.v ===== *)
(** * The writable disk in memory ([fs/ramdisk.rs])

    Up to 32 files below "/tmp/" in a fixed table, 512 KiB together.
    [ramdisk_refines_map] shows that the table is a finite map from paths to
    contents with these bounds.  The contents are in vectors of their own,
    numbered here, because [lookup_static] gives a reference to the vector
    away: [deref] is what such a reference sees later. *)

From Stdlib Require Import ZArith Lia.
From stdpp Require Import base numbers strings option list gmap.
From S2P Require Import Prelude Http Tar.

Local Open Scope Z_scope.

Module Ramdisk.

(** ** State *)

Definition MAX_FILES : nat := 32.
Definition MAX_TOTAL_BYTES : Z := 512 * 1024.
Definition MAX_PATH_LEN : nat := 128.

(** A vector on the kernel heap: its number and its bytes. *)
Record Vec := mkVec { vec_id : Z; contents : bytes }.

Record RamdiskEntry := mkEntry { path : bytes; path_len : nat; data : option Vec }.
Record RamdiskState := mkState { entries : list RamdiskEntry; total_bytes : Z; next_vec : Z }.

#[global] Instance RamdiskEntry_inhabited : Inhabited RamdiskEntry := populate (mkEntry [] 0 None).

Definition RamdiskEntry_empty : RamdiskEntry := mkEntry (replicate MAX_PATH_LEN 0) 0 None.
Definition RAMDISK : RamdiskState := mkState (replicate MAX_FILES RamdiskEntry_empty) 0 0.

Definition path_str (e : RamdiskEntry) : bytes := Tar.str_of (take (path_len e) (path e)).

Definition vec_len (o : option Vec) : Z :=
  match o with Some v => Z.of_nat (length (contents v)) | None => 0 end.

(** ** Operations

    The sums do not wrap: [implements] bounds the total and a slice has fewer
    than 2^63 bytes. *)

Definition holds (p : bytes) (e : RamdiskEntry) : bool := isSome (data e) && bytes_eqb (path_str e) p.
Definition vacant (e : RamdiskEntry) : bool := negb (isSome (data e)) && (path_len e =? 0)%nat.

Definition write (st : RamdiskState) (p d : bytes) : outcome (RamdiskState * result unit) :=
  if negb (starts_with p (str "/tmp/")) then Val (st, Err "not under /tmp/")
  else if (MAX_PATH_LEN <? length p)%nat then Val (st, Err "path too long")
  else
    let existing_idx := position (holds p) (entries st) in
    let len := Z.of_nat (length d) in
    let old_len idx := vec_len (data (entries st !!! idx)) in
    let new_total :=
      match existing_idx with
      | Some idx => total_bytes st - old_len idx + len
      | None => total_bytes st + len
      end in
    if MAX_TOTAL_BYTES <? new_total then Val (st, Err "ramdisk full")
    else
      let new_data := mkVec (next_vec st) d in
      match existing_idx with
      | Some idx =>
          let! e := load (entries st) idx in
          let! es := store (entries st) idx (mkEntry (path e) (path_len e) (Some new_data)) in
          Val (mkState es (total_bytes st - old_len idx + len) (next_vec st + 1), Ok tt)
      | None =>
          match position vacant (entries st) with
          | Some idx =>
              let! e := load (entries st) idx in
              let! es := store (entries st) idx (mkEntry (copy_at (path e) 0 p) (length p) (Some new_data)) in
              Val (mkState es (total_bytes st + len) (next_vec st + 1), Ok tt)
          | None => Val (st, Err "ramdisk slot table full")
          end
      end.

(** The reference that is handed out. *)
Definition lookup_static (st : RamdiskState) (p : bytes) : option Vec :=
  match find_first (holds p) (entries st) with Some e => data e | None => None end.

Definition stat (st : RamdiskState) (p : bytes) : option Z :=
  match find_first (holds p) (entries st) with
  | Some e => Some (vec_len (data e))
  | None => None
  end.

(** The bytes behind a reference, [None] when its vector has been dropped. *)
Definition deref (st : RamdiskState) (id : Z) : option bytes :=
  contents <$> find_first (λ v, vec_id v =? id) (omap data (entries st)).

(** The bytes written from [out] on; the loop stops at the first name that does
    not fit. *)
Fixpoint list_loop (prefix_norm : bytes) (cap : Z) (l : list RamdiskEntry) (out : bytes) : bytes :=
  match l with
  | [] => out
  | entry :: l' =>
      if negb (isSome (data entry)) then list_loop prefix_norm cap l' out
      else
        match strip_prefix prefix_norm (path_str entry) with
        | None => list_loop prefix_norm cap l' out
        | Some r =>
            let rest := Tar.trim_start_matches (str "/") r in
            match rest with
            | [] => list_loop prefix_norm cap l' out
            | _ =>
                if cap <? Z.of_nat (length out) + (Z.of_nat (length rest) + 1) then out
                else list_loop prefix_norm cap l' (out ++ rest ++ [10])
            end
        end
  end.

Definition list_prefix (st : RamdiskState) (prefix : bytes) (out_null : bool) (cap : Z) : bytes :=
  if (cap =? 0) || out_null then []
  else list_loop (Tar.trim_end_slash prefix) cap (entries st) [].

(** ** The map it implements *)

Abbreviation disk := (gmap bytes bytes).

Definition sizes (l : list (bytes * bytes)) : Z := foldr (λ f n, Z.of_nat (length f.2) + n) 0 l.

Definition spec_write (m : disk) (p d : bytes) : disk * result unit :=
  if negb (starts_with p (str "/tmp/")) then (m, Err "not under /tmp/")
  else if (MAX_PATH_LEN <? length p)%nat then (m, Err "path too long")
  else if MAX_TOTAL_BYTES <? sizes (map_to_list (delete p m)) + Z.of_nat (length d) then (m, Err "ramdisk full")
  else if negb (isSome (m !! p)) && (size m =? MAX_FILES)%nat then (m, Err "ramdisk slot table full")
  else (<[p := d]> m, Ok tt).

Definition file_of (e : RamdiskEntry) : option (bytes * bytes) :=
  match data e with Some v => Some (path_str e, contents v) | None => None end.

Definition files (st : RamdiskState) : list (bytes * bytes) := omap file_of (entries st).

Definition ids (st : RamdiskState) : list Z := omap (λ e, vec_id <$> data e) (entries st).

(** A slot is free as made, or has a path that was written in full and a vector
    with an old number. *)
Definition slot_ok (n : Z) (e : RamdiskEntry) : Prop :=
  length (path e) = MAX_PATH_LEN ∧ (path_len e ≤ MAX_PATH_LEN)%nat ∧
  match data e with
  | None => path_len e = 0%nat
  | Some v => isSome (Http.from_utf8 (take (path_len e) (path e))) = true ∧ vec_id v < n
  end.

Record implements (st : RamdiskState) (m : disk) : Prop := {
  im_length : length (entries st) = MAX_FILES;
  im_slots : Forall (slot_ok (next_vec st)) (entries st);
  im_files : map_to_list m ≡ₚ files st;
  im_total : total_bytes st = sizes (map_to_list m);
  im_bound : total_bytes st ≤ MAX_TOTAL_BYTES;
  im_ids : NoDup (ids st)
}.

(** ** Lemmas on the table *)

Lemma sizes_perm l l' : l ≡ₚ l' → sizes l = sizes l'.
Proof. induction 1; unfold sizes in *; cbn in *; lia. Qed.

Lemma sizes_nonneg l : 0 ≤ sizes l.
Proof. unfold sizes. induction l; cbn in *; lia. Qed.

(** Changing a slot changes at most what it contributes. *)
Lemma omap_at {B} (f : RamdiskEntry → option B) (l : list RamdiskEntry) i e :
  l !! i = Some e → ∃ rest, omap f l ≡ₚ option_list (f e) ++ rest ∧
    (∀ e', omap f (<[i := e']> l) ≡ₚ option_list (f e') ++ rest) ∧ ∀ x, x ∈ rest → ∃ e', e' ∈ l ∧ f e' = Some x.
Proof.
  intros Hi. apply list_elem_of_split_length in Hi as (l1 & l2 & -> & ->).
  exists (omap f l1 ++ omap f l2).
  assert (∀ x, omap f (l1 ++ x :: l2) ≡ₚ option_list (f x) ++ omap f l1 ++ omap f l2) as H.
  { intros x. rewrite omap_app. cbn. destruct (f x); cbn; [by rewrite Permutation_middle|done]. }
  split_and!; [apply H| |].
  - intros e'. rewrite insert_app_r_alt, Nat.sub_diag by lia. apply H.
  - intros x. rewrite <- omap_app. intros Hx. apply list_elem_of_omap in Hx as (e' & He' & Hf). exists e'. split; [|done].
    set_solver.
Qed.

Lemma holds_file p e : holds p e = true → ∃ v, data e = Some v ∧ file_of e = Some (p, contents v).
Proof.
  unfold holds, file_of. destruct (data e) as [v|]; cbn; [|done]. intros H. apply bytes_eqb_eq in H as ->. by eexists.
Qed.

Lemma file_holds e p d : file_of e = Some (p, d) → holds p e = true.
Proof. unfold holds, file_of. destruct (data e); cbn; [|done]. intros [= <- _]. apply bytes_eqb_refl. Qed.

(** The table answers as the map. *)
Lemma lookup_file st m p :
  implements st m →
  match position (holds p) (entries st) with
  | Some i => ∃ e v, entries st !! i = Some e ∧ data e = Some v ∧ file_of e = Some (p, contents v) ∧ m !! p = Some (contents v)
  | None => m !! p = None
  end.
Proof.
  intros [_ _ Hf _ _ _]. destruct (position (holds p) (entries st)) as [i|] eqn:E.
  - apply position_Some in E as [(e & Hi & Hp) _]. destruct (holds_file _ _ Hp) as (v & Hv & Hfe).
    exists e, v. split_and!; try done. apply elem_of_map_to_list. rewrite Hf. apply list_elem_of_omap.
    exists e. split; [|done]. by apply list_elem_of_lookup_2 in Hi.
  - apply position_None in E. apply eq_None_not_Some. intros [d Hd]. apply elem_of_map_to_list in Hd.
    rewrite Hf in Hd. apply list_elem_of_omap in Hd as (e & He & Hfe). rewrite Forall_forall in E.
    specialize (E _ He). rewrite (file_holds _ _ _ Hfe) in E. done.
Qed.

Lemma files_length n l : Forall (slot_ok n) l → (length (omap file_of l) + countb vacant l = length l)%nat.
Proof.
  induction 1 as [|e l (_ & _ & He) _ IH]; [done|]. rewrite countb_cons. cbn. unfold vacant, file_of in *.
  destruct (data e); cbn; [lia|]. rewrite He. cbn. lia.
Qed.

Lemma vacant_position st m :
  implements st m → match position vacant (entries st) with
    | Some _ => (size m < MAX_FILES)%nat
    | None => size m = MAX_FILES
    end.
Proof.
  intros [Hl Hs Hf _ _ _]. pose proof (files_length _ _ Hs) as Hc.
  assert (size m = length (files st)) as -> by (rewrite <- Hf; symmetry; apply length_map_to_list). unfold files.
  destruct (position vacant (entries st)) as [i|] eqn:E.
  - apply position_Some in E as [(e & Hi & Hv) _]. apply list_elem_of_split_length in Hi as (l1 & l2 & El & _).
    rewrite El in Hc at 2. rewrite countb_app, countb_cons, Hv in Hc. lia.
  - rewrite (position_None_countb _ _ E) in Hc. lia.
Qed.

(** ** The refinement *)

Lemma map_to_list_delete (m : disk) p d :
  m !! p = Some d → map_to_list m ≡ₚ (p, d) :: map_to_list (delete p m).
Proof.
  intros H. rewrite <- (insert_delete_id m p d H) at 1. apply map_to_list_insert, lookup_delete_eq.
Qed.

Lemma map_to_list_put (m : disk) p d : map_to_list (<[p := d]> m) ≡ₚ (p, d) :: map_to_list (delete p m).
Proof. rewrite <- insert_delete_eq. apply map_to_list_insert, lookup_delete_eq. Qed.

Lemma slot_ok_mono n n' e : n ≤ n' → slot_ok n e → slot_ok n' e.
Proof. intros Hn (? & ? & He). split_and!; try done. destruct (data e); [|done]. destruct He. split; [done|lia]. Qed.

(** Writing a slot whose file, if it has one, is that of [p]. *)
Lemma implements_put st m i e e' p d :
  implements st m → entries st !! i = Some e → option_list (file_of e) = option_list (pair p <$> m !! p) →
  slot_ok (next_vec st + 1) e' → file_of e' = Some (p, d) → vec_id <$> data e' = Some (next_vec st) →
  sizes (map_to_list (delete p m)) + Z.of_nat (length d) ≤ MAX_TOTAL_BYTES →
  implements (mkState (<[i := e']> (entries st)) (sizes (map_to_list (delete p m)) + Z.of_nat (length d)) (next_vec st + 1))
    (<[p := d]> m).
Proof.
  intros [Hl Hs Hf Ht Hb Hids] Hi Hold Hok Hnew Hid Hfit. destruct (omap_at file_of _ _ _ Hi) as (rest & Hr & Hr' & _).
  assert (map_to_list (delete p m) ≡ₚ rest) as Hrest.
  { unfold files in Hf. rewrite Hold in Hr. rewrite Hr in Hf. destruct (m !! p) as [d0|] eqn:E; cbn in Hf.
    - rewrite (map_to_list_delete m p d0 E) in Hf. by apply Permutation_cons_inv in Hf.
    - by rewrite delete_id. }
  split; cbn [entries total_bytes next_vec].
  - by rewrite length_insert.
  - apply Forall_insert; [|done]. eapply Forall_impl; [exact Hs|]. intros x. apply slot_ok_mono. lia.
  - unfold files. cbn [entries]. rewrite Hr', Hnew, map_to_list_put. cbn. by rewrite Hrest.
  - rewrite (sizes_perm _ _ (map_to_list_put m p d)). unfold sizes. cbn. lia.
  - done.
  - destruct (omap_at (λ e, vec_id <$> data e) _ _ _ Hi) as (rest' & Hq & Hq' & Hin).
    unfold ids in *. cbn [entries]. rewrite Hq', Hid. rewrite Hq in Hids. apply NoDup_app in Hids as (_ & _ & Hids).
    cbn. constructor; [|done]. intros Hx. destruct (Hin _ Hx) as (e0 & He0 & Hd). rewrite Forall_forall in Hs.
    destruct (Hs _ He0) as (_ & _ & H0). destruct (data e0) as [v|]; [|done]. injection Hd as Hd. lia.
Qed.

Lemma total_without st m p : implements st m →
  sizes (map_to_list (delete p m)) = total_bytes st - vec_len (match position (holds p) (entries st) with
    | Some i => data (entries st !!! i) | None => None end).
Proof.
  intros HI. pose proof (lookup_file st m p HI) as HL. rewrite (im_total _ _ HI).
  destruct (position (holds p) (entries st)) as [i|].
  - destruct HL as (e & v & Hi & Hv & _ & Hm). rewrite (list_lookup_total_correct _ _ _ Hi), Hv.
    rewrite (sizes_perm _ _ (map_to_list_delete m p _ Hm)). unfold sizes. cbn. lia.
  - rewrite delete_id by done. cbn. lia.
Qed.

Lemma write_refines st m p d :
  implements st m → isSome (Http.from_utf8 p) = true →
  ∃ st', write st p d = Val (st', (spec_write m p d).2) ∧ implements st' (spec_write m p d).1.
Proof.
  intros HI Hu. unfold write, spec_write. destruct (starts_with p _); cbn [negb]; [|by eexists].
  destruct (Nat.ltb_spec MAX_PATH_LEN (length p)) as [|Hlen]; [by eexists|].
  pose proof (total_without st m p HI) as Htot. pose proof (lookup_file st m p HI) as HL. pose proof (im_slots _ _ HI) as Hs.
  rewrite Forall_lookup in Hs. destruct (position (holds p) (entries st)) as [i|] eqn:E.
  - destruct HL as (e & v & Hi & Hv & Hfe & Hm). rewrite (list_lookup_total_correct _ _ _ Hi), Hv in *.
    rewrite <- Htot, Hm. cbn [isSome negb andb]. case_if; [by eexists|]. unbool.
    rewrite (load_Some _ _ _ Hi). cbn [obind]. rewrite store_ok by (by eapply lookup_lt_Some). cbn [obind].
    eexists. split; [done|]. apply (implements_put st m i e); try done.
    + rewrite Hfe, Hm. done.
    + specialize (Hs _ _ Hi) as (? & ? & Hs). rewrite Hv in Hs. destruct Hs. repeat split; try done. cbn. lia.
    + unfold file_of in *. rewrite Hv in Hfe. injection Hfe as Hpath. by rewrite <- Hpath.
  - rewrite HL. cbn [isSome negb andb vec_len] in *. rewrite Z.sub_0_r in Htot. rewrite <- Htot.
    case_if; [by eexists|]. unbool. pose proof (vacant_position st m HI) as Hvac.
    destruct (position vacant (entries st)) as [i|] eqn:Ev; [|rewrite Hvac, Nat.eqb_refl; by eexists].
    rewrite (proj2 (Nat.eqb_neq _ _)) by lia. apply position_Some in Ev as [(e & Hi & Hv) _].
    rewrite (load_Some _ _ _ Hi). cbn [obind]. rewrite store_ok by (by eapply lookup_lt_Some). cbn [obind].
    eexists. split; [done|]. specialize (Hs _ _ Hi) as (Hlp & _ & _). apply (implements_put st m i e); try done.
    + rewrite HL. unfold vacant, file_of in *. by destruct (data e).
    + split_and!; cbn [path path_len data]; [|done|].
      * rewrite copy_at_length; [done|]. rewrite Hlp. cbn. lia.
      * rewrite take_copy_at_0. split; [done|cbn; lia].
    + unfold file_of, path_str, Tar.str_of. cbn. rewrite take_copy_at_0, Hu. done.
Qed.

Lemma implements_new : implements RAMDISK ∅.
Proof.
  split; [done| | | |done|].
  - apply Forall_replicate. split_and!; [done| |done]. cbn. unfold MAX_PATH_LEN. lia.
  - by vm_compute.
  - by vm_compute.
  - vm_compute. constructor.
Qed.

(** A sequence of writes with their results. *)
Fixpoint writes (st : RamdiskState) (ws : list (bytes * bytes)) : outcome (RamdiskState * list (result unit)) :=
  match ws with
  | [] => Val (st, [])
  | w :: ws' =>
      let! r := write st w.1 w.2 in
      let! rs := writes r.1 ws' in
      Val (rs.1, r.2 :: rs.2)
  end.

Fixpoint spec_writes (m : disk) (ws : list (bytes * bytes)) : disk * list (result unit) :=
  match ws with
  | [] => (m, [])
  | w :: ws' =>
      let r := spec_write m w.1 w.2 in
      let rs := spec_writes r.1 ws' in
      (rs.1, r.2 :: rs.2)
  end.

Lemma writes_refine ws st m :
  implements st m → Forall (λ w, isSome (Http.from_utf8 w.1) = true) ws →
  ∃ st', writes st ws = Val (st', (spec_writes m ws).2) ∧ implements st' (spec_writes m ws).1.
Proof.
  revert st m. induction ws as [|w ws IH]; intros st m HI Hu; cbn; [by exists st|].
  apply Forall_cons in Hu as [Hw Hu]. destruct (write_refines st m w.1 w.2 HI Hw) as (st1 & -> & HI1). cbn [obind fst snd].
  destruct (IH _ _ HI1 Hu) as (st2 & -> & HI2). by eexists.
Qed.

(** Any sequence of writes runs without a panic, gives the results of the map
    with the bounds of the disk, and leaves a table in which [lookup_static] and
    [stat] answer as the map; no more than 32 files and 512 KiB are kept. *)
Theorem ramdisk_refines_map ws :
  Forall (λ w, isSome (Http.from_utf8 w.1) = true) ws →
  ∃ st, writes RAMDISK ws = Val (st, (spec_writes ∅ ws).2) ∧
    (∀ p, contents <$> lookup_static st p = (spec_writes ∅ ws).1 !! p ∧
          stat st p = (λ d, Z.of_nat (length d)) <$> (spec_writes ∅ ws).1 !! p) ∧
    (length (files st) ≤ MAX_FILES)%nat ∧ total_bytes st = sizes (files st) ∧ total_bytes st ≤ MAX_TOTAL_BYTES.
Proof.
  intros Hu. destruct (writes_refine ws _ _ implements_new Hu) as (st & E & HI). exists st. split; [done|].
  set (m := (spec_writes ∅ ws).1) in *. split_and!.
  - intros p. pose proof (lookup_file st m p HI) as HL. unfold lookup_static, stat. rewrite find_first_position.
    destruct (position _ _) as [i|]; [|by rewrite HL]. destruct HL as (e & v & Hi & Hv & _ & ->).
    cbn. rewrite Hi, Hv. done.
  - pose proof (files_length _ _ (im_slots _ _ HI)) as H. rewrite (im_length _ _ HI) in H. unfold files. lia.
  - rewrite (im_total _ _ HI). apply sizes_perm, (im_files _ _ HI).
  - apply (im_bound _ _ HI).
Qed.

(** Until then the reference is good. *)
Lemma deref_lookup st m p v :
  implements st m → lookup_static st p = Some v → deref st (vec_id v) = Some (contents v).
Proof.
  intros HI Hl. assert (v ∈ omap data (entries st)) as Hv.
  { unfold lookup_static in Hl. destruct (find_first (holds p) (entries st)) as [e|] eqn:E; [|done].
    apply find_first_Some in E as [He _]. apply list_elem_of_omap. by exists e. }
  unfold deref. pose proof (im_ids _ _ HI) as Hn. unfold ids in Hn.
  assert (omap (λ e, vec_id <$> data e) (entries st) = vec_id <$> omap data (entries st)) as Hm.
  { clear. induction (entries st) as [|e l IH]; [done|]. cbn. destruct (data e); cbn; by rewrite IH. }
  rewrite Hm in Hn. clear Hm Hl HI. induction (omap data (entries st)) as [|x l IH]; [by apply elem_of_nil in Hv|].
  apply NoDup_cons in Hn as [Hx Hn]. cbn. destruct (Z.eqb_spec (vec_id x) (vec_id v)) as [Heq|Hne].
  - apply elem_of_cons in Hv as [->|Hv]; [done|]. destruct Hx. rewrite Heq. by apply list_elem_of_fmap_2.
  - apply elem_of_cons in Hv as [->|Hv]; [done|]. by apply IH.
Qed.

(** Writing a file again drops the vector a lookup has given away. *)
Lemma overwrite_drops st m p d v st' :
  implements st m → lookup_static st p = Some v → write st p d = Val (st', Ok tt) → deref st' (vec_id v) = None.
Proof.
  intros HI Hl Hw. unfold lookup_static in Hl. rewrite find_first_position in Hl.
  destruct (position (holds p) (entries st)) as [i|] eqn:E; [|done]. cbn in Hl.
  destruct (entries st !! i) as [e|] eqn:Hi; [|done].
  unfold write in Hw. case_match; [done|]. case_match; [done|]. rewrite E in Hw. cbn zeta in Hw. case_match; [done|].
  rewrite (load_Some _ _ _ Hi) in Hw. cbn [obind] in Hw. rewrite store_ok in Hw by (by eapply lookup_lt_Some).
  injection Hw as <-. unfold deref. cbn [entries].
  destruct (omap_at (λ e, vec_id <$> data e) _ _ _ Hi) as (rest & Hq & Hq' & _). pose proof (im_ids _ _ HI) as Hids.
  unfold ids in Hids. rewrite Hq, Hl in Hids. cbn in Hids. apply NoDup_cons in Hids as [Hnin _].
  apply fmap_None. apply find_first_None. intros v' Hv'. apply Z.eqb_neq. intros Heq.
  apply list_elem_of_omap in Hv' as (e' & He' & Hd').
  assert (vec_id v ∈ omap (λ e, vec_id <$> data e) (<[i := mkEntry (path e) (path_len e) (Some (mkVec (next_vec st) d))]> (entries st))) as Hin.
  { apply list_elem_of_omap. exists e'. split; [done|]. rewrite Hd'. cbn. by f_equal. }
  rewrite Hq' in Hin. cbn in Hin. apply elem_of_cons in Hin as [Hnew|Hin]; [|done].
  pose proof (im_slots _ _ HI) as Hs. rewrite Forall_lookup in Hs. destruct (Hs _ _ Hi) as (_ & _ & Hok). rewrite Hl in Hok. lia.
Qed.

(** ** Witness *)

Definition sample_writes : list (bytes * bytes) :=
  [(str "/tmp/a", str "first"); (str "/etc/a", str "no"); (str "/tmp/a", str "second")].

Lemma ramdisk_witness :
  ∃ st, writes RAMDISK sample_writes = Val (st, [Ok tt; Err "not under /tmp/"; Ok tt]) ∧
    contents <$> lookup_static st (str "/tmp/a") = Some (str "second").
Proof.
  destruct (ramdisk_refines_map sample_writes) as (st & E & H & _).
  - repeat constructor.
  - exists st. split; [exact E|]. destruct (H (str "/tmp/a")) as [-> _]. vm_compute. reflexivity.
Defined.
End Ramdisk.
