(* ===== verification/Vfs.v ===== *)
(** * The file system calls ([fs/mod.rs])

    Paths are served by the texts below "/sys", the writable disk below "/tmp"
    ([Ramdisk]) and the mounted archives ([Tar]).  The texts are written into
    static buffers at every lookup: [sysfs_texts] says that they fit and what
    they are.  [vfs_serves_files] is what a lookup finds after start-up and any
    writes.  A lookup gives a [Slice], a reference whose bytes are those of
    [bytes_of] at the time of the read. *)

From Stdlib Require Import ZArith Lia.
From stdpp Require Import base numbers strings option list gmap.
From S2P Require Import Prelude Http Tar Ramdisk PkgCache.

Local Open Scope Z_scope.

Module Vfs.

(** ** Texts below "/sys" *)

(** What the texts report: the release, the devices bits of the PS/2 driver,
    the pids with a user context, the installed applications, the USB
    controllers and the package cache. *)
Record SysInfo := mkInfo {
  pkg_version : bytes; PS2_DEVICES : Z; user_context : Z → bool; app_count : Z; xhci_count : Z;
  cache : list PkgCache.CacheEntry
}.

Definition device_count (i : SysInfo) : Z :=
  Z.b2z (Z.testbit (PS2_DEVICES i) 0) + Z.b2z (Z.testbit (PS2_DEVICES i) 1).

Definition device_info_packed (i : SysInfo) (n : Z) : Z :=
  let has_kbd := Z.testbit (PS2_DEVICES i) 0 in
  let has_mouse := Z.testbit (PS2_DEVICES i) 1 in
  if has_kbd && (n =? 0) then Z.lor 1 (Z.shiftl 1 4)
  else if has_mouse && ((if has_kbd then 1 else 0) =? n) then Z.lor 2 (Z.shiftl 12 4)
  else 0.

(** A buffer under construction: its bytes and the offset. *)
Abbreviation text := (bytes * nat)%type.

(** [buf[off..off + src.len()].copy_from_slice(src); off += src.len()] *)
Definition put (src : bytes) (t : text) : outcome text :=
  let '(buf, off) := t in
  if (off + length src <=? length buf)%nat then Val (copy_at buf off src, (off + length src)%nat) else Panic.

(** The digits, the lowest first; the array has room for ten. *)
Fixpoint tmp_digits (room : nat) (v : Z) : outcome bytes :=
  if v =? 0 then Val []
  else match room with
       | O => Panic
       | S r => let! ds := tmp_digits r (v / 10) in Val ((48 + v mod 10) :: ds)
       end.

Definition write_u32 (v : Z) (t : text) : outcome text :=
  let '(buf, off) := t in
  if v =? 0 then let! b := store buf off 48 in Val (b, S off)
  else
    let! tmp := tmp_digits 10 v in
    let n := length tmp in
    let! b := for_range 0 n (λ i b, store b (off + i) (tmp !!! (n - 1 - i)%nat)) buf in
    Val (b, (off + n)%nat).

Definition fill_sys_kernel_version (i : SysInfo) (buf : bytes) : outcome text :=
  let b := str "OSCortex " ++ pkg_version i ++ [10] in
  let len := Nat.min (length b) 128 in
  put (take len b) (buf, O).

Definition device_line (i : SysInfo) (n : nat) (t : text) : outcome text :=
  let info := device_info_packed i (Z.of_nat n) in
  let typ := Z.land info 0xF in
  let irq := Z.land (Z.shiftr info 4) 0xFF in
  let! t := put (if typ =? 1 then str "keyboard" else str "mouse") t in
  let! t := put [32] t in
  let! t := put (str "irq=") t in
  let! t := write_u32 irq t in
  put [10] t.

Definition fill_sys_input_devices (i : SysInfo) (buf : bytes) : outcome text :=
  let! t := put (str "# PS/2 input devices" ++ [10]) (buf, O) in
  for_range 0 (Z.to_nat (device_count i)) (device_line i) t.

Definition process_line (pid : Z) (t : text) : outcome text :=
  let! t := put (str "pid=") t in
  let! t := write_u32 pid t in
  put [10] t.

(** The loop over the pids stops when fewer than 32 bytes are left. *)
Fixpoint process_lines (i : SysInfo) (pids : list Z) (t : text) : outcome text :=
  match pids with
  | [] => Val t
  | pid :: pids' =>
      if user_context i pid then
        let! t := process_line pid t in
        if (2048 <=? t.2 + 32)%nat then Val t else process_lines i pids' t
      else process_lines i pids' t
  end.

Definition fill_sys_process_list (i : SysInfo) (buf : bytes) : outcome text :=
  let! t := put (str "# Running processes" ++ [10]) (buf, O) in
  process_lines i (zrange 1 255) t.

Definition fill_count (hdr : bytes) (n : Z) (buf : bytes) : outcome text :=
  let! t := put hdr (buf, O) in
  let! t := write_u32 n t in
  put [10] t.

Definition fill_sys_app_list (i : SysInfo) (buf : bytes) : outcome text :=
  fill_count (str "# Installed apps" ++ [10] ++ str "count=") (app_count i) buf.

Definition fill_sys_usb_controllers (i : SysInfo) (buf : bytes) : outcome text :=
  fill_count (str "# USB XHCI controllers" ++ [10] ++ str "count=") (xhci_count i) buf.

(** [status_text] of the package cache. *)
Definition status_text (c : list PkgCache.CacheEntry) (buf : bytes) : outcome text :=
  let total := Z.of_nat (countb PkgCache.active c) in
  let pin := Z.of_nat (countb (λ e, PkgCache.active e && PkgCache.pinned e) c) in
  let s := str "slots=" ++ Http.fmt_dec total ++ str "/" ++ Http.fmt_dec (Z.of_nat PkgCache.MAX_CACHED) ++ [10] ++
           str "pinned=" ++ Http.fmt_dec pin ++ [10] ++ str "ephemeral=" ++ Http.fmt_dec (total - pin) ++ [10] in
  put (take (Nat.min (length s) (length buf)) s) (buf, O).

Definition fill_sys_pkg_cache (i : SysInfo) (buf : bytes) : outcome text := status_text (cache i) buf.

(** The virtual files: path, size of the buffer, text. *)
Definition SYSFS : list (bytes * nat * (SysInfo → bytes → outcome text)) :=
  [(str "/sys/kernel/version", 128%nat, fill_sys_kernel_version);
   (str "/sys/input/devices", 512%nat, fill_sys_input_devices);
   (str "/sys/process/list", 2048%nat, fill_sys_process_list);
   (str "/sys/app/list", 4096%nat, fill_sys_app_list);
   (str "/sys/usb/controllers", 512%nat, fill_sys_usb_controllers);
   (str "/sys/pkg/cache", 256%nat, fill_sys_pkg_cache)].

(** ** State *)

Record RamFs := mkRamFs { fs_name : bytes; find : bytes → option bytes }.
Record MountEntry := mkMount { prefix : bytes; fs : RamFs }.

Definition MAX_MOUNTS : nat := 16.

(** The mount table, the archive, the disk and the buffers of the texts. *)
Record State := mkState {
  MOUNTS : list (option MountEntry); INITRAMFS_DATA : bytes; rd : Ramdisk.RamdiskState; sysbufs : list bytes
}.

Definition State_new (archive : bytes) : State :=
  mkState (replicate MAX_MOUNTS None) archive Ramdisk.RAMDISK (map (λ f, replicate f.1.2 0) SYSFS).

Definition set_rd (s : State) (r : Ramdisk.RamdiskState) : State := mkState (MOUNTS s) (INITRAMFS_DATA s) r (sysbufs s).

(** ** Calls *)

Definition mount (s : State) (p : bytes) (f : RamFs) : State :=
  match position (λ o, negb (isSome o)) (MOUNTS s) with
  | Some i => mkState (<[i := Some (mkMount p f)]> (MOUNTS s)) (INITRAMFS_DATA s) (rd s) (sysbufs s)
  | None => s
  end.

Definition EMBEDDED_RAMFS (archive : bytes) : RamFs := mkRamFs (str "initramfs") (Tar.find_in_tar archive).

Definition init (s : State) : State := mount s (str "/") (EMBEDDED_RAMFS (INITRAMFS_DATA s)).

(** A reference to static data, to a vector of the disk, or to the first bytes
    of a text buffer. *)
Inductive Slice :=
| Static (b : bytes)
| Vector (v : Ramdisk.Vec)
| SysBuf (k len : nat).

Definition slice_len (r : Slice) : Z :=
  match r with
  | Static b => Z.of_nat (length b)
  | Vector v => Z.of_nat (length (Ramdisk.contents v))
  | SysBuf _ len => Z.of_nat len
  end.

(** The bytes a read sees, [None] behind a dropped vector. *)
Definition bytes_of (s : State) (r : Slice) : option bytes :=
  match r with
  | Static b => Some b
  | Vector v => Ramdisk.deref (rd s) (Ramdisk.vec_id v)
  | SysBuf k len => take len <$> sysbufs s !! k
  end.

Definition sysfs_lookup (i : SysInfo) (s : State) (path : bytes) : outcome (State * option Slice) :=
  match position (λ f, bytes_eqb f.1.1 path) SYSFS with
  | Some k =>
      match SYSFS !! k with
      | Some f =>
          let! buf := load (sysbufs s) k in
          let! t := f.2 i buf in
          Val (mkState (MOUNTS s) (INITRAMFS_DATA s) (rd s) (<[k := t.1]> (sysbufs s)), Some (SysBuf k t.2))
      | None => Val (s, None)
      end
  | None => Val (s, None)
  end.

Definition under_tmp (path : bytes) : bool := starts_with path (str "/tmp/") || bytes_eqb path (str "/tmp").

Definition relative_to (p path : bytes) : bytes := default path (strip_prefix p path).

Fixpoint find_mounts (l : list MountEntry) (path : bytes) : option bytes :=
  match l with
  | [] => None
  | e :: l' =>
      match find (fs e) (relative_to (prefix e) path) with
      | Some d => Some d
      | None => find_mounts l' path
      end
  end.

Definition lookup (i : SysInfo) (s : State) (path : bytes) : outcome (State * option Slice) :=
  let! r := sysfs_lookup i s path in
  match r.2 with
  | Some d => Val (r.1, Some d)
  | None =>
      Val (r.1, if under_tmp path then Vector <$> Ramdisk.lookup_static (rd s) path
                else Static <$> find_mounts (flatten (MOUNTS s)) path)
  end.

Definition list_prefix (s : State) (p : bytes) (out_null : bool) (cap : Z) : bytes :=
  if (cap =? 0) || out_null then []
  else
    let w1 := Tar.list_in_tar (INITRAMFS_DATA s) p cap in
    let written := Z.of_nat (length w1) in
    if written <? cap then w1 ++ Ramdisk.list_prefix (rd s) p false (cap - written) else w1.

Definition write (s : State) (path d : bytes) : outcome (State * result unit) :=
  if negb (starts_with path (str "/tmp/")) then Val (s, Err "read-only: only /tmp/ is writable")
  else let! r := Ramdisk.write (rd s) path d in Val (set_rd s r.1, r.2).

Definition stat (i : SysInfo) (s : State) (path : bytes) : outcome (State * option Z) :=
  if under_tmp path then Val (s, Ramdisk.stat (rd s) path)
  else let! r := lookup i s path in Val (r.1, slice_len <$> r.2).

Definition is_dir (s : State) (path : bytes) : bool :=
  existsb (λ e, Tar.is_dir_in_embedded (INITRAMFS_DATA s) (relative_to (prefix e) path)) (flatten (MOUNTS s))
  || Tar.is_dir_in_embedded (INITRAMFS_DATA s) path.

(** ** Building texts *)

(** The buffer has its size and starts with [s], up to the offset. *)
Definition spells (cap : nat) (s : bytes) (t : text) : Prop :=
  length t.1 = cap ∧ t.2 = length s ∧ (length s ≤ cap)%nat ∧ take t.2 t.1 = s.

Lemma spells_copy cap s src buf off :
  spells cap s (buf, off) → (length s + length src ≤ cap)%nat →
  spells cap (s ++ src) (copy_at buf off src, (off + length src)%nat).
Proof.
  intros (Hl & Ho & _ & Ht) Hfit. cbn in *. subst off.
  split_and!; cbn [fst snd].
  - rewrite copy_at_length; [done|lia].
  - by rewrite length_app.
  - rewrite length_app. lia.
  - unfold copy_at. rewrite Ht, app_assoc. apply take_app_length'. by rewrite length_app.
Qed.

Lemma put_spells cap s src t :
  spells cap s t → (length s + length src ≤ cap)%nat → ∃ t', put src t = Val t' ∧ spells cap (s ++ src) t'.
Proof.
  destruct t as [buf off]. intros Hs Hfit. pose proof Hs as (Hl & Ho & _). cbn in Hl, Ho. unfold put.
  rewrite (proj2 (Nat.leb_le _ _)) by lia. eexists. split; [done|]. by apply spells_copy.
Qed.

(** The digits written from the lowest are the decimal text reversed. *)
Lemma tmp_digits_ok r v fuel :
  0 < v < 10 ^ Z.of_nat r → (r ≤ fuel)%nat →
  ∃ ds, tmp_digits r v = Val ds ∧ reverse ds = Http.dec_digits fuel v ∧ (0 < length ds ≤ r)%nat.
Proof.
  revert v fuel. induction r as [|r IH]; intros v fuel Hv Hf; [cbn in Hv; lia|].
  destruct fuel as [|fuel]; [lia|]. rewrite Nat2Z.inj_succ, Z.pow_succ_r in Hv by lia.
  cbn [tmp_digits Http.dec_digits]. rewrite (proj2 (Z.eqb_neq v 0)) by lia.
  pose proof (Z.div_mod v 10). pose proof (Z.mod_pos_bound v 10).
  destruct (Z.ltb_spec v 10) as [Hlt|Hge].
  - rewrite Z.div_small, Z.mod_small by lia. destruct r; cbn; (eexists; split; [done|split; [done|cbn; lia]]).
  - destruct (IH (v / 10) fuel) as (ds & -> & Hr & Hlen); [split; [lia|apply Z.div_lt_upper_bound; lia]|lia|].
    cbn [obind]. eexists. split; [done|]. rewrite reverse_cons, Hr. cbn. split; [done|lia].
Qed.

(** A loop that stores bytes one by one. *)
Lemma store_loop (f : nat → Z) (n : nat) (buf : bytes) (off : nat) :
  (off + n ≤ length buf)%nat →
  for_range 0 n (λ i b, store b (off + i) (f i)) buf = Val (copy_at buf off (map f (seq 0 n))).
Proof.
  intros H.
  assert (∀ k i b, (i + k)%nat = n → b = copy_at buf off (map f (seq 0 i)) →
    for_range i k (λ i b, store b (off + i) (f i)) b = Val (copy_at buf off (map f (seq 0 n)))) as Hall.
  { induction k as [|k IH]; intros i b Hi ->; cbn [for_range]; [do 5 f_equal; lia|].
    rewrite store_ok by (rewrite copy_at_length; rewrite ?length_map, ?length_seq; lia). cbn [obind].
    apply IH; [lia|]. rewrite seq_S, map_app. unfold copy_at. rewrite !length_app, !length_map, !length_seq. cbn [length map].
    rewrite insert_app_r_alt by (rewrite length_take; lia). rewrite length_take_le by lia.
    replace (off + i - off)%nat with i by lia.
    rewrite insert_app_r_alt by (rewrite length_map, length_seq; lia). rewrite length_map, length_seq, Nat.sub_diag.
    rewrite (drop_S _ (buf !!! (off + i)%nat)) by (apply list_lookup_lookup_total_lt; lia). cbn.
    rewrite <- app_assoc. cbn. do 3 f_equal. f_equal. lia. }
  apply Hall; [done|]. unfold copy_at. cbn. rewrite Nat.add_0_r. by rewrite take_drop.
Qed.

Lemma reverse_lookups (l : bytes) : map (λ i, l !!! (length l - 1 - i)%nat) (seq 0 (length l)) = reverse l.
Proof.
  apply list_eq. intros i. destruct (Nat.lt_ge_cases i (length l)) as [Hi|Hi].
  - rewrite list_lookup_fmap, lookup_seq_lt by done. cbn. rewrite reverse_lookup by done.
    rewrite (list_lookup_lookup_total_lt l) by lia. do 2 f_equal. lia.
  - rewrite !lookup_ge_None_2; [done|by rewrite length_reverse|by rewrite length_map, length_seq].
Qed.

Lemma write_u32_ok cap s v t :
  spells cap s t → 0 ≤ v < 2 ^ 32 → (length s + length (Http.fmt_dec v) ≤ cap)%nat →
  ∃ t', write_u32 v t = Val t' ∧ spells cap (s ++ Http.fmt_dec v) t'.
Proof.
  destruct t as [buf off]. intros Hs Hv Hfit. pose proof Hs as (Hl & Ho & _). cbn in Hl, Ho. unfold write_u32.
  destruct (Z.eqb_spec v 0) as [->|Hne].
  - change (Http.fmt_dec 0) with [48] in *. cbn in Hfit. rewrite store_ok by lia. cbn [obind]. eexists. split; [done|].
    pose proof (spells_copy cap s [48] buf off Hs Hfit) as H. cbn in H. rewrite Nat.add_1_r in H.
    unfold copy_at in H. cbn in H. replace (<[off := 48]> buf) with (take off buf ++ 48 :: drop (off + 1) buf); [done|].
    rewrite insert_take_drop by lia. by rewrite Nat.add_1_r.
  - destruct (tmp_digits_ok 10 v 20) as (ds & -> & Hr & _); [cbn; lia|lia|]. fold (Http.fmt_dec v) in Hr. cbn [obind].
    assert (length ds = length (Http.fmt_dec v)) as Hlen by (by rewrite <- Hr, length_reverse).
    rewrite (store_loop (λ i, ds !!! (length ds - 1 - i)%nat)) by lia. cbn [obind]. eexists. split; [done|].
    rewrite reverse_lookups, Hr, Hlen. by apply spells_copy.
Qed.

Lemma fmt_dec_length v : 0 ≤ v < 2 ^ 32 → (0 < length (Http.fmt_dec v) ≤ 10)%nat.
Proof.
  intros Hv. destruct (Z.eq_dec v 0) as [->|Hne]; [cbn; lia|].
  destruct (tmp_digits_ok 10 v 20) as (ds & _ & Hr & Hlen); [cbn; lia|lia|].
  unfold Http.fmt_dec. rewrite <- Hr, length_reverse. done.
Qed.

(** ** The texts *)

#[local] Arguments Http.fmt_dec : simpl never.

Definition device_text (i : SysInfo) (n : nat) : bytes :=
  let info := device_info_packed i (Z.of_nat n) in
  (if Z.land info 0xF =? 1 then str "keyboard" else str "mouse") ++ [32] ++ str "irq=" ++
  Http.fmt_dec (Z.land (Z.shiftr info 4) 0xFF) ++ [10].

Definition pid_text (pid : Z) : bytes := str "pid=" ++ Http.fmt_dec pid ++ [10].

Definition sys_text (i : SysInfo) (k : nat) : bytes :=
  match k with
  | O => take 128 (str "OSCortex " ++ pkg_version i ++ [10])
  | 1%nat => (str "# PS/2 input devices" ++ [10]) ++
         List.concat (map (device_text i) (seq 0 (Z.to_nat (device_count i))))
  | 2%nat => (str "# Running processes" ++ [10]) ++
         List.concat (map pid_text (List.filter (user_context i) (zrange 1 255)))
  | 3%nat => (str "# Installed apps" ++ [10] ++ str "count=") ++ Http.fmt_dec (app_count i) ++ [10]
  | 4%nat => (str "# USB XHCI controllers" ++ [10] ++ str "count=") ++ Http.fmt_dec (xhci_count i) ++ [10]
  | _ =>
      let total := Z.of_nat (countb PkgCache.active (cache i)) in
      let pin := Z.of_nat (countb (λ e, PkgCache.active e && PkgCache.pinned e) (cache i)) in
      take 256 (str "slots=" ++ Http.fmt_dec total ++ str "/16" ++ [10] ++
                str "pinned=" ++ Http.fmt_dec pin ++ [10] ++ str "ephemeral=" ++ Http.fmt_dec (total - pin) ++ [10])
  end.

(** The next part of a text. *)
Ltac spell_put :=
  match goal with
  | Hs : spells ?cap ?s ?t |- context [put ?src ?t] =>
      let t' := fresh "t" in let E := fresh "E" in let H := fresh "Hs" in
      destruct (put_spells cap s src t Hs) as (t' & E & H); [|rewrite E; cbn [obind]; clear E; clear Hs]
  | Hs : spells ?cap ?s ?t |- context [write_u32 ?v ?t] =>
      let t' := fresh "t" in let E := fresh "E" in let H := fresh "Hs" in
      destruct (write_u32_ok cap s v t Hs) as (t' & E & H); [| |rewrite E; cbn [obind]; clear E; clear Hs]
  end.

Ltac spell_end :=
  match goal with
  | H : spells ?cap ?s ?t |- context [put ?src ?t] =>
      let E := fresh "E" in
      destruct (put_spells cap s src t H) as (t' & E & H'); [|rewrite E; clear E]
  end.

Lemma spells_start cap buf : length buf = cap → spells cap [] (buf, O).
Proof. intros H. split_and!; cbn; (done || lia). Qed.

Lemma fill_count_ok hdr n buf cap :
  length buf = cap → 0 ≤ n < 2 ^ 32 → (length hdr + 11 ≤ cap)%nat →
  ∃ t, fill_count hdr n buf = Val t ∧ spells cap (hdr ++ Http.fmt_dec n ++ [10]) t.
Proof.
  intros Hb Hn Hfit. pose proof (spells_start cap buf Hb) as Hs. pose proof (fmt_dec_length n Hn). unfold fill_count.
  spell_put; [cbn; lia|]. spell_put; [done|cbn; lia|].
  spell_end; [rewrite !length_app; cbn; lia|].
  eexists. split; [done|]. cbn in H'. by rewrite <- app_assoc in H'.
Qed.

Definition total_length (l : list bytes) : nat := foldr (λ x n, (length x + n)%nat) O l.

Lemma process_line_ok s pid t :
  spells 2048 s t → 0 ≤ pid < 2 ^ 32 → (length s + length (pid_text pid) ≤ 2048)%nat →
  ∃ t', process_line pid t = Val t' ∧ spells 2048 (s ++ pid_text pid) t'.
Proof.
  intros Hs Hp Hfit. unfold pid_text in *. rewrite !length_app in Hfit. cbn in Hfit. unfold process_line.
  spell_put; [cbn; lia|]. spell_put; [done|rewrite length_app; cbn; lia|].
  spell_end; [rewrite !length_app; cbn; lia|].
  eexists. split; [done|]. by rewrite <- !app_assoc in H'.
Qed.

(** The list of all pids fits, so that the loop never stops early. *)
Lemma process_lines_ok i pids s t :
  spells 2048 s t → Forall (λ p, 0 ≤ p < 2 ^ 32) pids → (length s + total_length (map pid_text pids) < 2016)%nat →
  ∃ t', process_lines i pids t = Val t' ∧
    spells 2048 (s ++ List.concat (map pid_text (List.filter (user_context i) pids))) t'.
Proof.
  revert s t. induction pids as [|p pids IH]; intros s t Hs Hp Hfit; cbn [process_lines].
  { exists t. cbn. by rewrite app_nil_r. }
  apply Forall_cons in Hp as [Hp0 Hp]. change (total_length (map pid_text (p :: pids))) with (length (pid_text p) + total_length (map pid_text pids))%nat in Hfit.
  cbn [List.filter]. destruct (user_context i p).
  - destruct (process_line_ok s p t Hs Hp0) as (t1 & -> & Hs1); [lia|]. cbn [obind].
    pose proof Hs1 as (_ & Ho & _). rewrite length_app in Ho. rewrite (proj2 (Nat.leb_gt _ _)) by lia.
    destruct (IH _ _ Hs1 Hp) as (t' & -> & H'); [rewrite length_app; lia|]. exists t'. split; [done|].
    cbn [map List.concat]. by rewrite app_assoc.
  - apply IH; [done|done|lia].
Qed.

Lemma device_line_ok i n s t :
  spells 512 s t → (length s + 30 ≤ 512)%nat →
  ∃ t', device_line i n t = Val t' ∧ spells 512 (s ++ device_text i n) t' ∧ (length (device_text i n) ≤ 30)%nat.
Proof.
  intros Hs Hfit. unfold device_line, device_text. set (info := device_info_packed i (Z.of_nat n)).
  set (kind := if _ =? 1 then _ else _). set (irq := Z.land (Z.shiftr info 4) 255).
  assert (length kind ≤ 8)%nat as Hk by (unfold kind; case_match; cbn; lia).
  assert (0 ≤ irq < 2 ^ 32) as Hirq.
  { unfold irq. change 255 with (Z.ones 8). rewrite Z.land_ones by lia. pose proof (Z.mod_pos_bound (Z.shiftr info 4) (2 ^ 8)). lia. }
  pose proof (fmt_dec_length irq Hirq) as Hd.
  spell_put; [lia|]. spell_put; [rewrite length_app; cbn; lia|]. spell_put; [rewrite !length_app; cbn; lia|].
  spell_put; [done|rewrite !length_app; cbn; lia|].
  spell_end; [rewrite !length_app; cbn; lia|].
  exists t'. split; [done|]. split; [by rewrite <- !app_assoc in H'|]. rewrite !length_app. cbn. lia.
Qed.

Lemma device_lines_ok i n k s t :
  spells 512 s t → (length s + 30 * n ≤ 512)%nat →
  ∃ t', for_range k n (device_line i) t = Val t' ∧ spells 512 (s ++ List.concat (map (device_text i) (seq k n))) t'.
Proof.
  revert k s t. induction n as [|n IH]; intros k s t Hs Hfit; cbn [for_range].
  { exists t. cbn. by rewrite app_nil_r. }
  destruct (device_line_ok i k s t Hs) as (t1 & -> & Hs1 & Hl); [lia|]. cbn [obind].
  destruct (IH (S k) _ _ Hs1) as (t' & -> & H'); [rewrite length_app; lia|]. exists t'. split; [done|].
  cbn [seq map List.concat]. by rewrite app_assoc.
Qed.

Lemma take_put cap buf s :
  length buf = cap → ∃ t, put (take (Nat.min (length s) cap) s) (buf, O) = Val t ∧ spells cap (take cap s) t.
Proof.
  intros Hb. destruct (put_spells cap [] (take (Nat.min (length s) cap) s) (buf, O) (spells_start cap buf Hb)) as (t & -> & Ht).
  - rewrite length_take. cbn. lia.
  - exists t. split; [done|]. cbn in Ht. destruct (Nat.le_ge_cases (length s) cap).
    + rewrite Nat.min_l, take_ge in Ht by lia. by rewrite take_ge.
    + by rewrite Nat.min_r in Ht.
Qed.

(** Building a text succeeds and leaves it at the start of the buffer. *)
Lemma fill_ok i k f buf :
  SYSFS !! k = Some f → length buf = f.1.2 → is_u 32 (app_count i) → is_u 32 (xhci_count i) →
  ∃ t, f.2 i buf = Val t ∧ spells f.1.2 (sys_text i k) t.
Proof.
  intros Hk Hb Ha Hx. unfold is_u in *.
  destruct k as [|[|[|[|[|[|k]]]]]]; [..|done]; injection Hk as <-; cbn [fst snd] in *; cbn [sys_text].
  - apply take_put. done.
  - unfold fill_sys_input_devices. pose proof (spells_start 512 buf Hb) as Hs. spell_put; [cbn; lia|].
    apply device_lines_ok; [done|]. unfold device_count. destruct (Z.testbit _ 0), (Z.testbit _ 1); cbn; lia.
  - unfold fill_sys_process_list. pose proof (spells_start 2048 buf Hb) as Hs. spell_put; [cbn; lia|].
    apply process_lines_ok; [done| |].
    + apply Forall_forall. intros p Hp. apply elem_of_zrange in Hp. lia.
    + apply Nat.ltb_lt. vm_compute. reflexivity.
  - apply fill_count_ok; [done|done|cbn; lia].
  - apply fill_count_ok; [done|done|cbn; lia].
  - unfold fill_sys_pkg_cache, status_text. rewrite Hb. apply (take_put 256). done.
Qed.

(** C38: Every text below "/sys" fits its static buffer, so that building it never
    panics, and reads as specified: the release, a line for each PS/2 device, a
    line for each of the 255 pids with a user context, the two counters, and the
    state of the package cache. *)
Theorem sysfs_texts i k f buf :
  SYSFS !! k = Some f → length buf = f.1.2 → is_u 32 (app_count i) → is_u 32 (xhci_count i) →
  ∃ t, f.2 i buf = Val t ∧ length t.1 = f.1.2 ∧ t.2 = length (sys_text i k) ∧ take t.2 t.1 = sys_text i k.
Proof. intros Hk Hb Ha Hx. destruct (fill_ok i k f buf Hk Hb Ha Hx) as (t & E & Hl & Ho & _ & Ht). by exists t. Qed.

(** ** Lookups never panic *)

Definition info_ok (i : SysInfo) : Prop := is_u 32 (app_count i) ∧ is_u 32 (xhci_count i).

Definition bufs_ok (s : State) : Prop := Forall2 (λ f buf, length buf = f.1.2) SYSFS (sysbufs s).

Lemma lookup_total i s path :
  info_ok i → bufs_ok s → ∃ s' r, lookup i s path = Val (s', r) ∧ bufs_ok s' ∧ rd s' = rd s ∧ MOUNTS s' = MOUNTS s ∧ INITRAMFS_DATA s' = INITRAMFS_DATA s.
Proof.
  intros [Ha Hx] Hb. unfold lookup, sysfs_lookup.
  destruct (position _ _) as [k|] eqn:Ek; [|cbn; eauto 10].
  destruct (SYSFS !! k) as [f|] eqn:Ef; [|cbn; eauto 10].
  destruct (Forall2_lookup_l _ _ _ _ _ Hb Ef) as (buf & Hk & Hl). rewrite (load_Some _ _ _ Hk). cbn [obind].
  destruct (fill_ok i k f buf Ef Hl Ha Hx) as (t & -> & Ht & _). cbn [obind snd fst].
  eexists _, _. split; [done|]. split_and!; try done. unfold bufs_ok. cbn [sysbufs].
  rewrite <- (list_insert_id SYSFS k f) by done. by apply Forall2_insert.
Qed.

(** ** Files *)

(** Writes through the file system, and on the map of the disk. *)
Fixpoint writes (s : State) (ws : list (bytes * bytes)) : outcome (State * list (result unit)) :=
  match ws with
  | [] => Val (s, [])
  | w :: ws' =>
      let! r := write s w.1 w.2 in
      let! rs := writes r.1 ws' in
      Val (rs.1, r.2 :: rs.2)
  end.

Definition spec_write (m : Ramdisk.disk) (p d : bytes) : Ramdisk.disk * result unit :=
  if negb (starts_with p (str "/tmp/")) then (m, Err "read-only: only /tmp/ is writable") else Ramdisk.spec_write m p d.

Fixpoint spec_writes (m : Ramdisk.disk) (ws : list (bytes * bytes)) : Ramdisk.disk * list (result unit) :=
  match ws with
  | [] => (m, [])
  | w :: ws' =>
      let r := spec_write m w.1 w.2 in
      let rs := spec_writes r.1 ws' in
      (rs.1, r.2 :: rs.2)
  end.

Lemma vfs_writes_refine ws s m :
  Ramdisk.implements (rd s) m → Forall (λ w, isSome (Http.from_utf8 w.1) = true) ws →
  ∃ s', writes s ws = Val (s', (spec_writes m ws).2) ∧ Ramdisk.implements (rd s') (spec_writes m ws).1 ∧
    MOUNTS s' = MOUNTS s ∧ INITRAMFS_DATA s' = INITRAMFS_DATA s.
Proof.
  revert s m. induction ws as [|w ws IH]; intros s m HI Hu; cbn [writes spec_writes]; [by exists s|].
  apply Forall_cons in Hu as [Hw Hu]. unfold write at 1, spec_write. destruct (starts_with w.1 _); cbn [negb].
  - destruct (Ramdisk.write_refines _ m w.1 w.2 HI Hw) as (r & -> & HI1). cbn [obind fst snd].
    destruct (IH (set_rd s r) _ HI1 Hu) as (s' & -> & HI' & Hm & Hd). by eexists.
  - cbn [obind fst snd]. destruct (IH s m HI Hu) as (s' & -> & HI' & Hm & Hd). by eexists.
Qed.

(** Taking off leading slashes does not depend on how many there are. *)
Lemma trim_relative path : Tar.trim_start_matches (str "/") (relative_to (str "/") path) = Tar.trim_start_matches (str "/") path.
Proof.
  unfold relative_to, Tar.trim_start_matches. destruct (strip_prefix (str "/") path) as [r|] eqn:E; [|done]. cbn [default from_option id].
  pose proof E as E'. apply strip_prefix_Some in E' as ->. change (length (str "/" ++ r)) with (S (length r)).
  cbn [Tar.trim_loop]. by rewrite E.
Qed.

(** What a path names after start-up and the writes [ws]. *)
Definition file_at (es : list Tar.entry) (m : Ramdisk.disk) (path : bytes) : option bytes :=
  if under_tmp path then m !! path
  else
    let want := Tar.trim_start_matches (str "./") (Tar.trim_start_matches (str "/") path) in
    Tar.e_data <$> find_first (λ e, Tar.regular e && bytes_eqb (Tar.plain_name e) want) es.

(** A lookup finds the file of the path, and changes nothing. *)
Lemma vfs_lookup_file es tail s m i path :
  Forall Tar.entry_ok es → Tar.tail_ok tail → Ramdisk.implements (rd s) m →
  MOUNTS s = MOUNTS (init (State_new (Tar.archive es tail))) → position (λ f, bytes_eqb f.1.1 path) SYSFS = None →
  ∃ r, lookup i s path = Val (s, r) ∧ r ≫= bytes_of s = file_at es m path.
Proof.
  intros Hes Htail HI Hm Hsys. unfold lookup, sysfs_lookup. rewrite Hsys. cbn [obind fst snd].
  eexists. split; [done|]. unfold file_at. destruct (under_tmp path).
  - pose proof (Ramdisk.lookup_file _ _ path HI) as HL.
    destruct (Ramdisk.lookup_static (rd s) path) as [v|] eqn:Ev; cbn.
    + rewrite (Ramdisk.deref_lookup _ _ _ _ HI Ev). unfold Ramdisk.lookup_static in Ev. rewrite find_first_position in Ev.
      destruct (position (Ramdisk.holds path) _) as [k|]; [|done]. destruct HL as (e & v' & Hk & Hv & _ & ->). cbn in Ev. rewrite Hk in Ev. congruence.
    + unfold Ramdisk.lookup_static in Ev. rewrite find_first_position in Ev.
      destruct (position (Ramdisk.holds path) _) as [k|]; [|by rewrite HL]. destruct HL as (e & v' & Hk & Hv & _ & _). cbn in Ev. rewrite Hk in Ev. congruence.
  - rewrite Hm. change (flatten (MOUNTS (init (State_new (Tar.archive es tail)))))
      with [mkMount (str "/") (EMBEDDED_RAMFS (Tar.archive es tail))].
    cbn [find_mounts fs prefix EMBEDDED_RAMFS find].
    destruct (Tar.archive_walks es tail (relative_to (str "/") path) Hes Htail) as [Hf _]. rewrite Hf, trim_relative.
    by match goal with |- context [Static <$> match ?x with _ => _ end] => destruct x end.
Qed.

(** The length a reference carries is the length of what it reads. *)
Lemma lookup_length i s m path s' d b :
  Ramdisk.implements (rd s) m → position (λ f, bytes_eqb f.1.1 path) SYSFS = None →
  lookup i s path = Val (s', Some d) → bytes_of s d = Some b → slice_len d = Z.of_nat (length b).
Proof.
  intros HI Hsys Hl Hb. unfold lookup, sysfs_lookup in Hl. rewrite Hsys in Hl. cbn [obind fst snd] in Hl. injection Hl as _ Hd.
  destruct (under_tmp path).
  - apply fmap_Some in Hd as (v & Hv & ->). cbn in *. rewrite (Ramdisk.deref_lookup _ _ _ _ HI Hv) in Hb. congruence.
  - apply fmap_Some in Hd as (x & _ & ->). cbn in *. congruence.
Qed.

(** After start-up with any archive and any writes, a path that is not one of
    the virtual files is looked up without a change: below "/tmp" it names the
    file last written there, within the bounds of the disk, and elsewhere the
    file of the archive; the reference that is returned reads as that file. *)
Theorem vfs_serves_files es tail ws :
  Forall Tar.entry_ok es → Tar.tail_ok tail → Forall (λ w, isSome (Http.from_utf8 w.1) = true) ws →
  ∃ s, writes (init (State_new (Tar.archive es tail))) ws = Val (s, (spec_writes ∅ ws).2) ∧
    ∀ i path, position (λ f, bytes_eqb f.1.1 path) SYSFS = None →
      ∃ r, lookup i s path = Val (s, r) ∧ r ≫= bytes_of s = file_at es (spec_writes ∅ ws).1 path.
Proof.
  intros Hes Htail Hu. destruct (vfs_writes_refine ws (init (State_new (Tar.archive es tail))) ∅) as (s & E & HI & Hm & Hd);
    [apply Ramdisk.implements_new|done|].
  exists s. split; [done|]. intros i path Hsys. by apply (vfs_lookup_file es tail s _ i path).
Qed.

(** ** Witnesses *)

Definition sample_info : SysInfo :=
  mkInfo (str "0.1.0") 3 (λ p, p <=? 3) 7 1 PkgCache.CacheState_new.

Lemma sysfs_texts_witness :
  ∃ t, fill_sys_process_list sample_info (replicate 2048 0) = Val t ∧
    take t.2 t.1 = str "# Running processes" ++ [10] ++ str "pid=1" ++ [10] ++ str "pid=2" ++ [10] ++ str "pid=3" ++ [10].
Proof.
  destruct (sysfs_texts sample_info 2 (str "/sys/process/list", 2048%nat, fill_sys_process_list) (replicate 2048 0))
    as (t & E & _ & _ & Ht).
  - reflexivity.
  - reflexivity.
  - unfold is_u. cbn. lia.
  - unfold is_u. cbn. lia.
  - exists t. split; [exact E|]. rewrite Ht. vm_compute. reflexivity.
Defined.

Lemma vfs_serves_witness :
  ∃ s, writes (init (State_new Tar.sample_archive)) Ramdisk.sample_writes =
      Val (s, [Ok tt; Err "read-only: only /tmp/ is writable"; Ok tt]) ∧
    (∃ r, lookup sample_info s (str "/tmp/a") = Val (s, r) ∧ r ≫= bytes_of s = Some (str "second")) ∧
    (∃ r, lookup sample_info s (str "/bin/init") = Val (s, r) ∧ r ≫= bytes_of s = Some (str "ELF")).
Proof.
  destruct (vfs_serves_files Tar.sample_entries (replicate 512 0) Ramdisk.sample_writes) as (s & E & H).
  - exact Tar.sample_entries_ok.
  - right. reflexivity.
  - repeat constructor.
  - exists s. split; [exact E|]. split.
    + destruct (H sample_info (str "/tmp/a")) as (r & El & Hr); [reflexivity|]. exists r. split; [exact El|].
      rewrite Hr. vm_compute. reflexivity.
    + destruct (H sample_info (str "/bin/init")) as (r & El & Hr); [reflexivity|]. exists r. split; [exact El|].
      rewrite Hr. vm_compute. reflexivity.
Defined.
End Vfs.
