(* ===== verification/Ext2.v ===== *)
(** * The ext2 reader ([fs/ext2.rs])

    A volume is read through the block device one sector at a time; the device
    is the argument [sector].  [volume] says what it means for a disk to hold a
    given set of directories and files, and [ext2_refines_volume] that paths,
    listings and contents are those of the volume, on every disk.
    [ext2_file_as_directory] and [ext2_large_file_panics] are defects. *)

From Stdlib Require Import ZArith Lia.
From stdpp Require Import base numbers strings option list.
From S2P Require Import Prelude.

Local Open Scope Z_scope.

Module Ext2.

(** ** Structures on the disk *)

(** A little-endian field of [n] bytes at an offset. *)
Definition field (n : nat) (data : bytes) (off : nat) : Z := le_val (slice data off (off + n)).

(** The fields that are read. *)
Record Superblock := mkSuper {
  s_blocks_count : Z; s_log_block_size : Z; s_blocks_per_group : Z; s_inodes_per_group : Z;
  s_magic : Z; s_rev_level : Z; s_inode_size : Z
}.

Definition superblock_at (d : bytes) : Superblock :=
  mkSuper (field 4 d 4) (field 4 d 24) (field 4 d 32) (field 4 d 40) (field 2 d 56) (field 4 d 76) (field 2 d 88).

Definition EXT2_MAGIC : Z := 0xEF53.
Definition EXT2_FT_REG_FILE : Z := 1.
Definition EXT2_FT_DIR : Z := 2.
Definition S_IFMT : Z := 0xF000.
Definition S_IFREG : Z := 0x8000.

Record GroupDesc := mkGroup { bg_inode_table : Z }.
Definition group_at (d : bytes) : GroupDesc := mkGroup (field 4 d 8).

Record Inode := mkInode { i_mode : Z; i_size : Z; i_block : list Z }.
Definition inode_at (d : bytes) : Inode :=
  mkInode (field 2 d 0) (field 4 d 4) (map (λ k, field 4 d (40 + 4 * k)) (seq 0 15)).

Record DirEntry := mkDirEntry { de_inode : Z; rec_len : Z; name_len : Z; file_type : Z }.
Definition dir_entry_at (d : bytes) : DirEntry := mkDirEntry (field 4 d 0) (field 2 d 4) (field 1 d 6) (field 1 d 7).

Record Ext2Fs := mkFs { block_size : Z; inodes_per_group : Z; inode_size : Z; groups : list GroupDesc }.

(** ** The driver *)

Section driver.
(** A sector of the block device, if it can be read, and the bytes that happen
    to be behind a buffer of the kernel. *)
Context (sector : Z → option bytes) (behind : bytes).

(** [virtio_blk::read_sectors], one request for each sector. *)
Fixpoint read_from (n : nat) (s : Z) : option bytes :=
  match n with
  | O => Some []
  | S n' =>
      match sector s with
      | Some d => match read_from n' (s + 1) with Some r => Some (d ++ r) | None => None end
      | None => None
      end
  end.
Definition read_sectors (s n : Z) : option bytes := read_from (Z.to_nat n) s.

Section mounted.
Context (fs : Ext2Fs).

Definition read_block (block : Z) : option bytes :=
  if block =? 0 then None
  else
    let sectors_per_block := block_size fs / 512 in
    read_sectors (block * sectors_per_block) sectors_per_block.

Definition read_inode (ino : Z) : outcome (option Inode) :=
  if ino =? 0 then Val None
  else if inodes_per_group fs =? 0 then Panic
  else
    let idx := ino - 1 in
    let group := idx / inodes_per_group fs in
    let loc := idx mod inodes_per_group fs in
    match groups fs !! Z.to_nat group with
    | None => Val None
    | Some gd =>
        let byte_off := loc * inode_size fs in
        let s := bg_inode_table gd * (block_size fs / 512) + byte_off / 512 in
        match read_sectors s 1 with
        | None => Val None
        | Some data =>
            let in_sec := byte_off mod 512 in
            if Z.of_nat (length data) <? in_sec + inode_size fs then Val None
            else Val (Some (inode_at (drop (Z.to_nat in_sec) data ++ behind)))
        end
    end.

Definition nonzero (b : Z) : option Z := if b =? 0 then None else Some b.

(** [u32::from_le_bytes(data[off..off+4])] *)
Definition word_at (data : bytes) (off : Z) : outcome Z :=
  let! w := slice_checked data (Z.to_nat off) (Z.to_nat (off + 4)) in Val (le_val w).

Definition ptrs_per_block : Z := u32 (block_size fs / 4).

Definition file_block (inode : Inode) (logical : Z) : outcome (option Z) :=
  let p := ptrs_per_block in
  if logical <? 12 then Val (nonzero (i_block inode !!! Z.to_nat logical))
  else if logical <? u32 (12 + p) then
    match nonzero (i_block inode !!! 12%nat) ≫= read_block with
    | None => Val None
    | Some blk_data =>
        let! ptr := word_at blk_data ((logical - 12) * 4) in
        Val (nonzero ptr)
    end
  else
    let l2 := u32 (logical - 12 - p) in
    match nonzero (i_block inode !!! 13%nat) ≫= read_block with
    | None => Val None
    | Some l1_data =>
        if p =? 0 then Panic
        else
          let! l1_blk := word_at l1_data (l2 / p * 4) in
          match nonzero l1_blk ≫= read_block with
          | None => Val None
          | Some l2_data =>
              let! ptr := word_at l2_data ((l2 mod p) * 4) in
              Val (nonzero ptr)
          end
    end.

(** No block lies behind this one ([file_block_limit]), so that the loops over
    the blocks of a file have ended by then. *)
Definition block_limit : nat := Z.to_nat (12 + ptrs_per_block + ptrs_per_block * ptrs_per_block + 1).

(** The state is what has been written so far; [None] is the failure of the
    question mark. *)
Fixpoint read_blocks (fuel : nat) (inode : Inode) (out : bytes) (logical_blk : Z) : outcome (option bytes) :=
  match fuel with
  | O => Panic
  | S f =>
      let written := Z.of_nat (length out) in
      if written <? i_size inode then
        let! blk := file_block inode logical_blk in
        match blk ≫= read_block with
        | None => Val None
        | Some data =>
            let to_copy := Z.min (i_size inode - written) (block_size fs) in
            let! part := slice_checked data 0 (Z.to_nat to_copy) in
            read_blocks f inode (out ++ part) (logical_blk + 1)
        end
      else Val (Some out)
  end.

Definition read_file_bytes (inode : Inode) : outcome (option bytes) := read_blocks block_limit inode [] 0.

(** One block of a directory.  The callback gets the name, the inode and the
    type of an entry and says whether to go on; the result says so too, with
    the bytes gone through.  A record has eight bytes or more. *)
Fixpoint walk_block {S} (fuel : nat) (cb : S → bytes → Z → Z → S * bool) (data : bytes) (s : S) (in_blk : Z)
    : outcome (S * bool * Z) :=
  match fuel with
  | O => Val (s, true, in_blk)
  | Datatypes.S f =>
      let len := Z.of_nat (length data) in
      if in_blk + 8 <=? len then
        let de := dir_entry_at (drop (Z.to_nat in_blk) data) in
        let rec := rec_len de in
        if (rec <? 8) || (len <? in_blk + rec) then Val (s, true, in_blk)
        else if negb (de_inode de =? 0) then
          let! name := slice_checked data (Z.to_nat (in_blk + 8)) (Z.to_nat (in_blk + 8 + name_len de)) in
          let '(s', go_on) := cb s name (de_inode de) (file_type de) in
          if go_on then walk_block f cb data s' (in_blk + rec) else Val (s', false, in_blk)
        else walk_block f cb data s (in_blk + rec)
      else Val (s, true, in_blk)
  end.

Fixpoint walk_dir {S} (fuel : nat) (inode : Inode) (cb : S → bytes → Z → Z → S * bool) (s : S)
    (file_off logical_blk : Z) : outcome S :=
  match fuel with
  | O => Panic
  | Datatypes.S f =>
      if file_off <? i_size inode then
        let! blk := file_block inode logical_blk in
        match blk ≫= read_block with
        | None => Val s
        | Some data =>
            let! r := walk_block (length data) cb data s 0 in
            let '(s', go_on, in_blk) := r in
            if go_on then
              let next := logical_blk + 1 in
              walk_dir f inode cb s' (if block_size fs <=? in_blk then next * block_size fs else file_off + in_blk) next
            else Val s'
        end
      else Val s
  end.

Definition readdir {S} (inode : Inode) (cb : S → bytes → Z → Z → S * bool) (s : S) : outcome S :=
  walk_dir block_limit inode cb s 0 0.

Definition lookup (parent_ino : Z) (name : bytes) : outcome (option (Z * Z)) :=
  let! inode := read_inode parent_ino in
  match inode with
  | None => Val None
  | Some inode =>
      readdir inode (λ result n ino ft, if bytes_eqb n name then (Some (ino, ft), false) else (result, true)) None
  end.

(** [split(|&b| b == b'/')] *)
Fixpoint split_slash (path cur : bytes) : list bytes :=
  match path with
  | [] => [cur]
  | b :: path' => if b =? 47 then cur :: split_slash path' [] else split_slash path' (cur ++ [b])
  end.

Fixpoint resolve_from (components : list bytes) (ino ft : Z) : outcome (option (Z * Z)) :=
  match components with
  | [] => Val (Some (ino, ft))
  | [] :: rest => resolve_from rest ino ft
  | component :: rest =>
      let! r := lookup ino component in
      match r with
      | None => Val None
      | Some (next_ino, next_ft) => resolve_from rest next_ino next_ft
      end
  end.

Definition resolve_path (path : bytes) : outcome (option (Z * Z)) :=
  let path := default path (strip_prefix (str "/") path) in
  match path with
  | [] => Val (Some (2, EXT2_FT_DIR))
  | _ => resolve_from (split_slash path []) 2 EXT2_FT_DIR
  end.
End mounted.

(** ** Calls; the state is the mounted volume, if any *)

Fixpoint group_table (n : nat) (gd_buf : bytes) : list GroupDesc :=
  match n with
  | O => []
  | S n' => group_at gd_buf :: group_table n' (drop 32 gd_buf)
  end.

(** [is_ready] is the state of the device driver. *)
Definition mount (is_ready : bool) (FS : option Ext2Fs) : outcome (option Ext2Fs * result unit) :=
  if negb is_ready then Val (FS, Err "no virtio-blk device")
  else
    match read_sectors 2 2 with
    | None => Val (FS, Err "block read failed")
    | Some sb_buf =>
        let sb := superblock_at sb_buf in
        if negb (s_magic sb =? EXT2_MAGIC) then Val (FS, Err "ext2: bad magic (not an ext2 volume)")
        else
          let block_size := u64 (Z.shiftl 1024 (s_log_block_size sb mod 64)) in
          let inode_size := if 1 <=? s_rev_level sb then s_inode_size sb else 128 in
          if s_blocks_per_group sb =? 0 then Panic
          else
            let num_groups := u32 (s_blocks_count sb + s_blocks_per_group sb - 1) / s_blocks_per_group sb in
            let bgdt_block := if block_size =? 1024 then 2 else 1 in
            let bgdt_sectors := (num_groups * 32 + 511) / 512 in
            let bgdt_start_sector := bgdt_block * (block_size / 512) in
            match read_sectors bgdt_start_sector bgdt_sectors with
            | None => Val (FS, Err "ext2: failed to read block group table")
            | Some gd_buf =>
                Val (Some (mkFs block_size (s_inodes_per_group sb) inode_size (group_table (Z.to_nat num_groups) gd_buf)), Ok tt)
            end
    end.

(** The callback of [ls]: the output so far. *)
Definition ls_entry (cap : Z) (out name : bytes) (_ino2 ft2 : Z) : bytes * bool :=
  if bytes_eqb name (str ".") || bytes_eqb name (str "..") then (out, true)
  else
    let suffix := if ft2 =? EXT2_FT_DIR then str "/" else [] in
    let needed := Z.of_nat (length name + length suffix + 1) in
    if cap <? Z.of_nat (length out) + needed then (out, false) else (out ++ name ++ suffix ++ [10], true).

Definition ls (FS : option Ext2Fs) (path : bytes) (cap : Z) : outcome (result bytes) :=
  match FS with
  | None => Val (Err "ext2 not mounted")
  | Some fs =>
      let! r := resolve_path fs path in
      match r with
      | None => Val (Err "ext2: path not found")
      | Some (ino, ft) =>
          if negb (ft =? EXT2_FT_DIR) then Val (Err "ext2: not a directory")
          else
            let! i := read_inode fs ino in
            match i with
            | None => Val (Err "ext2: cannot read inode")
            | Some inode => let! out := readdir fs inode (ls_entry cap) [] in Val (Ok out)
            end
      end
  end.

Definition is_regular (inode : Inode) : bool := Z.land (i_mode inode) S_IFMT =? S_IFREG.

(** The bytes put into the buffer of [cap] bytes. *)
Definition read_file (FS : option Ext2Fs) (path : bytes) (cap : Z) : outcome (result bytes) :=
  match FS with
  | None => Val (Err "ext2 not mounted")
  | Some fs =>
      let! r := resolve_path fs path in
      match r with
      | None => Val (Err "ext2: path not found")
      | Some (ino, ft) =>
          let! check :=
            if negb (ft =? EXT2_FT_REG_FILE) then
              let! i2 := read_inode fs ino in
              Val (match i2 with
                   | None => Err "ext2: cannot read inode"
                   | Some inode2 => if negb (is_regular inode2) then Err "ext2: not a regular file" else Ok tt
                   end)
            else Val (Ok tt) in
          match check with
          | Err e => Val (Err e)
          | Ok _ =>
              let! i := read_inode fs ino in
              match i with
              | None => Val (Err "ext2: cannot read inode")
              | Some inode =>
                  let! d := read_file_bytes fs inode in
                  match d with
                  | None => Val (Err "ext2: read failed")
                  | Some data => Val (Ok (take (Nat.min (length data) (Z.to_nat cap)) data))
                  end
              end
          end
      end
  end.

Definition is_mounted (FS : option Ext2Fs) : bool := isSome FS.

Definition file_size (FS : option Ext2Fs) (path : bytes) : outcome Z :=
  match FS with
  | None => Val (-1)
  | Some fs =>
      let! r := resolve_path fs path in
      match r with
      | None => Val (-1)
      | Some (ino, _) =>
          let! i := read_inode fs ino in
          Val (match i with Some inode => i_size inode | None => -1 end)
      end
  end.
End driver.

(** ** Volumes *)

(** A directory record as written: inode, type, name and what fills it up to
    its length. *)
Record record := mkRecord { r_ino : Z; r_type : Z; r_name : bytes; r_fill : bytes }.

Definition record_len (r : record) : nat := 8 + length (r_name r) + length (r_fill r).

Definition record_bytes (r : record) : bytes :=
  le_bytes 4 (r_ino r) ++ le_bytes 2 (Z.of_nat (record_len r)) ++ [Z.of_nat (length (r_name r)); r_type r] ++
  r_name r ++ r_fill r.

Definition block_bytes (rs : list record) : bytes := List.concat (map record_bytes rs).

Definition record_ok (r : record) : Prop :=
  is_u 32 (r_ino r) ∧ is_byte (r_type r) ∧ (length (r_name r) < 256)%nat ∧ Z.of_nat (record_len r) < 2 ^ 16.

Inductive node :=
| File (content : bytes)
| Dir (rss : list (list record)).

(** The entries of a directory. *)
Definition entries_of (rss : list (list record)) : list record := List.filter (λ r, negb (r_ino r =? 0)) (List.concat rss).

Section volume.
Context (sector : Z → option bytes) (fs : Ext2Fs).

(** The bytes [d] are on the disk from the byte at [off] on. *)
Definition on_disk (off : Z) (d : bytes) : Prop :=
  ∀ k c, d !! k = Some c →
    ∃ x, sector ((off + Z.of_nat k) / 512) = Some x ∧ x !! Z.to_nat ((off + Z.of_nat k) mod 512) = Some c.

Definition block_on_disk (b : Z) (d : bytes) : Prop :=
  0 < b ∧ Z.of_nat (length d) = block_size fs ∧ on_disk (b * block_size fs) d.

(** Block [k] of a file is block [b] of the disk: twelve pointers are in the
    inode, those behind them in the block of the next pointer, and those behind
    these in the blocks that the block of the pointer after it points to. *)
Definition pointers : nat := Z.to_nat (block_size fs / 4).

Inductive pointer (inode : Inode) : nat → Z → Prop :=
| p_direct k b : (k < 12)%nat → i_block inode !! k = Some b → pointer inode k b
| p_indirect k t d b :
    (k < pointers)%nat → i_block inode !! 12%nat = Some t → block_on_disk t d → field 4 d (4 * k) = b →
    pointer inode (12 + k) b
| p_double j k t d u e b :
    (j < pointers)%nat → (k < pointers)%nat → i_block inode !! 13%nat = Some t → block_on_disk t d → field 4 d (4 * j) = u →
    block_on_disk u e → field 4 e (4 * k) = b → pointer inode (12 + pointers + (j * pointers + k)) b.

(** The blocks of an inode hold [blocks] in turn. *)
Definition holds_blocks (inode : Inode) (blocks : list bytes) : Prop :=
  ∀ k d, blocks !! k = Some d → ∃ b, pointer inode k b ∧ block_on_disk b d.

(** Inode [ino] is in the table of its group. *)
Definition inode_on_disk (ino : Z) (inode : Inode) : Prop :=
  ∃ g loc gd r, ino = Z.of_nat g * inodes_per_group fs + loc + 1 ∧ 0 ≤ loc < inodes_per_group fs ∧
    groups fs !! g = Some gd ∧ 0 ≤ bg_inode_table gd ∧ Z.of_nat (length r) = inode_size fs ∧
    on_disk (bg_inode_table gd * block_size fs + loc * inode_size fs) r ∧ inode = inode_at r.

(** The blocks are full of records. *)
Definition dir_blocks (inode : Inode) (rss : list (list record)) : Prop :=
  holds_blocks inode (map block_bytes rss) ∧ Forall (Forall record_ok) rss ∧
  i_size inode = Z.of_nat (length rss) * block_size fs.

Definition node_at (inode : Inode) (n : node) : Prop :=
  match n with
  | File content =>
      is_regular inode = true ∧
      ∃ blocks, holds_blocks inode blocks ∧ i_size inode = Z.of_nat (length content) ∧
        (length content ≤ length (List.concat blocks))%nat ∧
        take (length content) (List.concat blocks) = content
  | Dir rss =>
      is_regular inode = false ∧ dir_blocks inode rss
  end.

(** The disk holds the nodes; directories name nodes, with the type of the
    node. *)
Definition type_ok (nodes : Z → option node) (r : record) : Prop :=
  match nodes (r_ino r) with
  | Some (File _) => r_type r ≠ EXT2_FT_DIR
  | Some (Dir _) => r_type r = EXT2_FT_DIR
  | None => False
  end.

Record geometry : Prop := {
  ge_sectors : ∀ s d, sector s = Some d → length d = 512%nat;
  ge_size : 1024 ≤ block_size fs ≤ 65536;
  ge_whole : block_size fs mod 512 = 0;
  ge_inode : 128 ≤ inode_size fs ∧ 512 mod inode_size fs = 0
}.

Record volume (nodes : Z → option node) : Prop := {
  vo_geometry : geometry;
  vo_root : ∃ rss, nodes 2 = Some (Dir rss);
  vo_nodes : ∀ ino n, nodes ino = Some n → ∃ inode, inode_on_disk ino inode ∧ node_at inode n;
  vo_types : ∀ ino rss, nodes ino = Some (Dir rss) → Forall (type_ok nodes) (entries_of rss)
}.
End volume.

(** Paths in a volume.  A component is looked up in a directory only. *)
Inductive resolution := Found (ino ft : Z) | Missing | ThroughFile.

Fixpoint walk (nodes : Z → option node) (components : list bytes) (ino ft : Z) : resolution :=
  match components with
  | [] => Found ino ft
  | [] :: rest => walk nodes rest ino ft
  | c :: rest =>
      match nodes ino with
      | Some (Dir rss) =>
          match find_first (λ r, bytes_eqb (r_name r) c) (entries_of rss) with
          | Some r => walk nodes rest (r_ino r) (r_type r)
          | None => Missing
          end
      | _ => ThroughFile
      end
  end.

Definition path_of (nodes : Z → option node) (path : bytes) : resolution :=
  walk nodes (split_slash path []) 2 EXT2_FT_DIR.

(** ** Blocks *)

Section proofs.
Context (sector : Z → option bytes) (behind : bytes) (fs : Ext2Fs).
Context (Hgeo : geometry sector fs).
Let Hsectors := ge_sectors _ _ Hgeo.
Let Hsize := ge_size _ _ Hgeo.

Lemma read_from_length n s d : read_from sector n s = Some d → length d = (n * 512)%nat.
Proof.
  revert s d. induction n as [|n IH]; intros s d; cbn; [by intros [= <-]|].
  destruct (sector s) as [x|] eqn:E; [|done]. destruct (read_from sector n (s + 1)) as [r|] eqn:Er; [|done].
  intros [= <-]. rewrite length_app, (Hsectors _ _ E), (IH _ _ Er). lia.
Qed.

Lemma read_block_length b d : read_block sector fs b = Some d → Z.of_nat (length d) ≤ block_size fs.
Proof.
  unfold read_block. case_if; [done|]. intros H. apply read_from_length in H as ->.
  pose proof (Z.mul_div_le (block_size fs) 512). pose proof (Z.div_pos (block_size fs) 512). lia.
Qed.

Lemma ptrs_eq : ptrs_per_block fs = block_size fs / 4 ∧ 256 ≤ block_size fs / 4 ≤ 16384.
Proof.
  assert (256 ≤ block_size fs / 4 ≤ 16384) as H.
  { split; [apply Z.div_le_lower_bound; lia|]. apply Z.lt_succ_r, Z.div_lt_upper_bound; lia. }
  split; [|done]. unfold ptrs_per_block, u32. apply wrap_small. unfold is_u. lia.
Qed.

(** Behind the double indirect blocks there is nothing. *)
Lemma file_block_limit inode k b :
  12 + ptrs_per_block fs + ptrs_per_block fs * ptrs_per_block fs ≤ k < 2 ^ 32 →
  file_block sector fs inode k ≠ Val (Some b).
Proof.
  destruct ptrs_eq as [Ep Hp]. unfold file_block. rewrite Ep. set (p := block_size fs / 4) in *. intros Hk.
  assert (4 * p ≤ block_size fs < 4 * p + 4) as Hb.
  { unfold p. pose proof (Z.div_mod (block_size fs) 4). pose proof (Z.mod_pos_bound (block_size fs) 4). lia. }
  unfold u32. rewrite (wrap_small 32 (12 + p)), (wrap_small 32 (k - 12 - p)) by (unfold is_u; nia).
  rewrite (proj2 (Z.ltb_ge k 12)), (proj2 (Z.ltb_ge k (12 + p))) by nia.
  destruct (nonzero _ ≫= _) as [l1|] eqn:E1; [|done]. rewrite (proj2 (Z.eqb_neq p 0)) by lia.
  assert (p ≤ (k - 12 - p) / p) as Hq by (apply Z.div_le_lower_bound; lia).
  destruct (nonzero (i_block inode !!! 13%nat)) as [b1|]; [|done]. cbn in E1. apply read_block_length in E1.
  unfold word_at, slice_checked. rewrite (proj2 (Nat.leb_gt (Z.to_nat ((k - 12 - p) / p * 4 + 4)) (length l1))) by lia.
  by rewrite andb_false_r.
Qed.

(** ** What is on the disk is read *)

Lemma on_disk_app off d e : on_disk sector off (d ++ e) → on_disk sector off d ∧ on_disk sector (off + Z.of_nat (length d)) e.
Proof.
  intros H. split; intros k c Hk.
  - apply H. by apply lookup_app_l_Some.
  - replace (off + Z.of_nat (length d) + Z.of_nat k) with (off + Z.of_nat (length d + k)) by lia. apply H.
    rewrite lookup_app_r by lia. by replace (length d + k - length d)%nat with k by lia.
Qed.

(** Bytes within one sector. *)
Lemma on_disk_in s o d :
  0 ≤ o → o + Z.of_nat (length d) ≤ 512 → d ≠ [] → on_disk sector (s * 512 + o) d →
  ∃ x, sector s = Some x ∧ slice x (Z.to_nat o) (Z.to_nat o + length d) = d.
Proof.
  intros Ho Hfit Hne H.
  assert (∀ k c, d !! k = Some c → ∃ x, sector s = Some x ∧ x !! (Z.to_nat o + k)%nat = Some c) as Hk.
  { intros k c Hk. pose proof (lookup_lt_Some _ _ _ Hk). destruct (H k c Hk) as (x & Hx & Hc). exists x.
    replace (s * 512 + o + Z.of_nat k) with (o + Z.of_nat k + s * 512) in * by lia.
    rewrite Z.div_add, Z.div_small in Hx by lia. rewrite Z.mod_add, Z.mod_small in Hc by lia.
    replace (Z.to_nat (o + Z.of_nat k)) with (Z.to_nat o + k)%nat in Hc by lia. done. }
  destruct d as [|c0 d]; [done|]. destruct (Hk O c0 eq_refl) as (x & Hx & _). exists x. split; [done|].
  pose proof (Hsectors _ _ Hx) as Hl. apply list_eq_same_length with (length (c0 :: d)); [done|rewrite slice_length; cbn in *; lia|].
  intros k y z Hlt Hy Hz. destruct (Hk k z Hz) as (x' & Hx' & Hz'). rewrite Hx in Hx'. injection Hx' as <-.
  rewrite slice_lookup in Hy by lia. congruence.
Qed.

Lemma read_from_disk n : ∀ s d, length d = (n * 512)%nat → on_disk sector (s * 512) d → read_from sector n s = Some d.
Proof.
  induction n as [|n IH]; intros s d Hl Hd; cbn [read_from]; [by destruct d|].
  rewrite <- (take_drop 512 d) in Hd. apply on_disk_app in Hd as [H1 H2].
  assert (length (take 512 d) = 512%nat) as Ht by (rewrite length_take; lia). rewrite Ht in H2.
  replace (s * 512) with (s * 512 + 0) in H1 by lia. destruct (on_disk_in s 0 (take 512 d)) as (x & Hx & Hs);
    [done|lia|intros E; rewrite E in Ht; done|done|].
  pose proof (Hsectors _ _ Hx). rewrite Ht in Hs. unfold slice in Hs. change (Z.to_nat 0) with O in Hs. rewrite drop_0, (take_ge x) in Hs by lia.
  rewrite Hx, (IH (s + 1) (drop 512 d)); [by rewrite Hs, take_drop|rewrite length_drop; lia|].
  by replace ((s + 1) * 512) with (s * 512 + Z.of_nat 512) by lia.
Qed.

Lemma read_block_disk b d : block_on_disk sector fs b d → read_block sector fs b = Some d.
Proof.
  intros (Hb & Hl & Hd). unfold read_block. rewrite (proj2 (Z.eqb_neq b 0)) by lia.
  pose proof (Z.div_mod (block_size fs) 512 ltac:(lia)) as E. rewrite (ge_whole _ _ Hgeo) in E.
  apply read_from_disk; [lia|]. replace (b * (block_size fs / 512) * 512) with (b * block_size fs) by lia. done.
Qed.

Lemma word_field d k : (4 * k + 4 ≤ length d)%nat → word_at d (Z.of_nat k * 4) = Val (field 4 d (4 * k)).
Proof.
  intros H. unfold word_at, slice_checked, field. replace (Z.to_nat (Z.of_nat k * 4)) with (4 * k)%nat by lia.
  replace (Z.to_nat (Z.of_nat k * 4 + 4)) with (4 * k + 4)%nat by lia.
  rewrite (proj2 (Nat.leb_le _ _)), (proj2 (Nat.leb_le _ (length d))) by lia. done.
Qed.

Lemma pointers_eq : Z.of_nat (pointers fs) = ptrs_per_block fs ∧ 4 * Z.of_nat (pointers fs) = block_size fs ∧ 256 ≤ Z.of_nat (pointers fs) ≤ 16384.
Proof.
  destruct ptrs_eq as [Ep Hp]. unfold pointers. rewrite Ep, Z2Nat.id by lia. split; [done|]. split; [|done].
  pose proof (Z.div_mod (block_size fs) 512 ltac:(lia)) as E. rewrite (ge_whole _ _ Hgeo) in E.
  replace (block_size fs) with (128 * (block_size fs / 512) * 4) at 1 by lia. rewrite Z.div_mul by lia. lia.
Qed.

Lemma file_block_disk inode k b :
  pointer sector fs inode k b → 0 < b → file_block sector fs inode (Z.of_nat k) = Val (Some b).
Proof.
  destruct pointers_eq as (Ep & E4 & Hp). set (P := pointers fs) in *.
  assert (u32 (12 + ptrs_per_block fs) = 12 + Z.of_nat P) as Eu by (rewrite <- Ep; unfold u32; apply wrap_small; unfold is_u; lia).
  assert (∀ x, 0 < x → nonzero x = Some x) as Hnz by (intros x Hx; unfold nonzero; by rewrite (proj2 (Z.eqb_neq x 0)) by lia).
  intros [k' b' Hk Hi|k' t d b' Hk Hi Ht Hf|j k' t d u e b' Hj Hk Hi Ht Hf Hu Hg] Hb; unfold file_block; rewrite Eu.
  - rewrite (proj2 (Z.ltb_lt _ _)), Nat2Z.id, (list_lookup_total_correct _ _ _ Hi), Hnz by lia. done.
  - fold P in Hk. rewrite (proj2 (Z.ltb_ge _ 12)), (proj2 (Z.ltb_lt _ (12 + Z.of_nat P))) by lia.
    pose proof Ht as (Ht0 & Hl & _). rewrite (list_lookup_total_correct _ _ _ Hi), Hnz by done. cbn [mbind option_bind].
    rewrite (read_block_disk _ _ Ht). replace ((Z.of_nat (12 + k') - 12) * 4) with (Z.of_nat k' * 4) by lia.
    rewrite word_field, Hf by lia. cbn [obind]. by rewrite Hnz.
  - fold P in Hj, Hk |- *. rewrite (proj2 (Z.ltb_ge _ 12)), (proj2 (Z.ltb_ge _ (12 + Z.of_nat P))) by lia.
    pose proof Ht as (Ht0 & Hl & _). rewrite (list_lookup_total_correct _ _ _ Hi), Hnz by done. cbn [mbind option_bind].
    rewrite (read_block_disk _ _ Ht), <- Ep, (proj2 (Z.eqb_neq (Z.of_nat P) 0)) by lia.
    assert (u32 (Z.of_nat (12 + P + (j * P + k')) - 12 - Z.of_nat P) = Z.of_nat j * Z.of_nat P + Z.of_nat k') as ->.
    { unfold u32. rewrite wrap_small; [lia|]. unfold is_u. nia. }
    rewrite Z.div_add_l, Z.div_small, Z.add_0_r by lia. rewrite word_field, Hf by lia. cbn [obind].
    pose proof Hu as (Hu0 & Hl' & _). rewrite Hnz by done. cbn [mbind option_bind]. rewrite (read_block_disk _ _ Hu).
    rewrite Z.add_comm, Z.mod_add, Z.mod_small by lia. rewrite word_field, Hg by lia. cbn [obind]. by rewrite Hnz.
Qed.

Lemma found_block inode blocks k d :
  holds_blocks sector fs inode blocks → blocks !! k = Some d →
  Z.of_nat (length d) = block_size fs ∧ ∃ b, file_block sector fs inode (Z.of_nat k) = Val (Some b) ∧ read_block sector fs b = Some d.
Proof.
  intros H Hk. destruct (H k d Hk) as (b & Hp & Hb). pose proof Hb as (Hb0 & Hl & _). split; [done|]. exists b.
  split; [by apply file_block_disk|by apply read_block_disk].
Qed.

(** Only the first 100 bytes of an inode are looked at. *)
Lemma inode_at_app r x : (100 ≤ length r)%nat → inode_at (r ++ x) = inode_at r.
Proof.
  intros H. assert (∀ n o, (o + n ≤ 100)%nat → field n (r ++ x) o = field n r o) as Hf.
  { intros n o Hn. unfold field, slice. f_equal. rewrite drop_app_le, take_app_le by (rewrite ?length_drop; lia). done. }
  unfold inode_at. rewrite !Hf by lia. f_equal. apply map_ext_in. intros k Hk. apply in_seq in Hk. apply Hf. lia.
Qed.

Lemma read_inode_disk ino inode : inode_on_disk sector fs ino inode → read_inode sector behind fs ino = Val (Some inode).
Proof.
  intros (g & loc & gd & r & -> & Hloc & Hg & Ht & Hr & Hd & ->). destruct (ge_inode _ _ Hgeo) as [Hi Hdiv].
  pose proof (Z.div_mod (block_size fs) 512 ltac:(lia)) as E. rewrite (ge_whole _ _ Hgeo) in E.
  unfold read_inode. rewrite (proj2 (Z.eqb_neq (_ + 1) 0)), (proj2 (Z.eqb_neq (inodes_per_group fs) 0)) by nia.
  replace (Z.of_nat g * inodes_per_group fs + loc + 1 - 1) with (Z.of_nat g * inodes_per_group fs + loc) by lia.
  rewrite Z.div_add_l, Z.div_small, Z.add_0_r, Nat2Z.id, Hg by lia.
  rewrite (Z.add_comm (_ * _) loc), Z.mod_add, (Z.mod_small loc) by lia.
  set (o := loc * inode_size fs). pose proof (Z.div_mod o 512 ltac:(lia)) as Eo. pose proof (Z.mod_pos_bound o 512 ltac:(lia)) as Ho.
  assert (o mod 512 + inode_size fs ≤ 512) as Hin.
  { apply Z.mod_divide in Hdiv as [n Hn]; [|lia]. 
    assert (0 < n) as Hn0 by nia. rewrite Hn. unfold o. rewrite Z.mul_mod_distr_r by lia.
    pose proof (Z.mod_pos_bound loc n Hn0). nia. }
  destruct (on_disk_in (bg_inode_table gd * (block_size fs / 512) + o / 512) (o mod 512) r) as (x & Hx & Hs).
  - lia.
  - lia.
  - intros ->. cbn in Hr. lia.
  - replace ((bg_inode_table gd * (block_size fs / 512) + o / 512) * 512 + o mod 512) with (bg_inode_table gd * block_size fs + o) by nia. done.
  - unfold read_sectors. change (Z.to_nat 1) with 1%nat. cbn [read_from]. rewrite Hx, app_nil_r.
    pose proof (Hsectors _ _ Hx) as Hl. rewrite Hl, (proj2 (Z.ltb_ge _ _)) by lia. set (y := drop (Z.to_nat (o mod 512)) x).
    assert (take (length r) y = r) as Hy by (rewrite <- Hs at 2; unfold slice; f_equal; lia).
    rewrite <- (take_drop (length r) y), Hy, <- app_assoc, inode_at_app by lia. done.
Qed.

Lemma blocks_bound inode blocks :
  holds_blocks sector fs inode blocks → (length blocks < block_limit fs)%nat.
Proof.
  intros H. unfold block_limit. destruct ptrs_eq as [Ep Hp]. set (n := 12 + ptrs_per_block fs + ptrs_per_block fs * ptrs_per_block fs).
  assert (0 ≤ n < 2 ^ 32) as Hn by (unfold n; rewrite Ep; nia).
  destruct (Nat.le_gt_cases (length blocks) (Z.to_nat n)) as [|Hgt]; [lia|].
  destruct (lookup_lt_is_Some_2 blocks (Z.to_nat n) Hgt) as [d Hd]. destruct (found_block _ _ _ _ H Hd) as (_ & b & Hb & _).
  rewrite Z2Nat.id in Hb by lia. destruct (file_block_limit inode n b); [unfold n in *; lia|done].
Qed.

(** ** Contents *)

Lemma read_blocks_ok inode blocks content :
  holds_blocks sector fs inode blocks → i_size inode = Z.of_nat (length content) →
  (length content ≤ length (List.concat blocks))%nat → take (length content) (List.concat blocks) = content →
  ∀ todo finished fuel, blocks = finished ++ todo → (length todo < fuel)%nat →
  read_blocks sector fs fuel inode (take (length content) (List.concat finished)) (Z.of_nat (length finished)) =
  Val (Some content).
Proof.
  intros Hb Hs Hle Ht. induction todo as [|d todo IH]; intros finished fuel E Hf;
    (destruct fuel as [|fuel]; [cbn in Hf; lia|]); cbn [read_blocks]; rewrite Hs, length_take.
  - rewrite app_nil_r in E. subst finished. rewrite (proj2 (Z.ltb_ge _ _)) by lia. by rewrite Ht.
  - subst blocks. rewrite concat_app in Hle, Ht. cbn in Hle, Ht. cbn in Hf.
    destruct (Z.ltb_spec (Z.of_nat (length content `min` length (List.concat finished))) (Z.of_nat (length content))) as [Hlt|Hge].
    + destruct (found_block _ _ (length finished) d Hb) as (Hd & b & -> & Hr); [by apply list_lookup_middle|]. cbn [obind option_bind mbind].
      cbn. rewrite Hr. unfold slice_checked. rewrite (proj2 (Nat.leb_le _ (length d))) by lia. cbn [andb Nat.leb obind].
      replace (Z.of_nat (length finished) + 1) with (Z.of_nat (length (finished ++ [d]))) by (rewrite length_app; cbn; lia).
      assert (take (length content) (List.concat finished) ++
        slice d 0 (Z.to_nat (Z.min (Z.of_nat (length content) - Z.of_nat (length content `min` length (List.concat finished))) (block_size fs)))
        = take (length content) (List.concat (finished ++ [d]))) as ->.
      { rewrite concat_app. cbn. rewrite app_nil_r, take_app. f_equal. unfold slice. cbn. rewrite Nat.sub_0_r.
        rewrite Nat.min_r by lia. destruct (Z.min_spec (Z.of_nat (length content) - Z.of_nat (length (List.concat finished))) (block_size fs))
          as [[_ ->]|[? ->]]; [f_equal; lia|]. rewrite (take_ge d (Z.to_nat _)), (take_ge d) by lia. done. }
      apply IH; [by rewrite <- app_assoc|lia].
    + f_equal. f_equal. rewrite <- Ht at 2. rewrite take_app_le by lia. done.
Qed.

Lemma read_file_bytes_ok inode content :
  node_at sector fs inode (File content) → read_file_bytes sector fs inode = Val (Some content).
Proof.
  intros (_ & blocks & Hb & Hs & Hle & Ht). unfold read_file_bytes.
  pose proof (read_blocks_ok inode blocks content Hb Hs Hle Ht blocks [] (block_limit fs) eq_refl) as H.
  cbn [List.concat] in H. rewrite take_nil in H. apply H. by eapply blocks_bound.
Qed.

(** ** Directories *)

(** Giving the entries to a callback one by one until it stops. *)
Fixpoint feed {S} (cb : S → bytes → Z → Z → S * bool) (s : S) (es : list record) : S * bool :=
  match es with
  | [] => (s, true)
  | r :: es' =>
      let '(s', go_on) := cb s (r_name r) (r_ino r) (r_type r) in
      if go_on then feed cb s' es' else (s', false)
  end.

Lemma feed_app {S} (cb : S → bytes → Z → Z → S * bool) s es es' :
  feed cb s (es ++ es') = let r := feed cb s es in if r.2 then feed cb r.1 es' else r.
Proof.
  revert s. induction es as [|e es IH]; intros s; cbn; [done|]. destruct (cb _ _ _ _) as [s' [|]]; [apply IH|done].
Qed.

Definition live_entries (rs : list record) : list record := List.filter (λ r, negb (r_ino r =? 0)) rs.

Lemma record_bytes_length r : length (record_bytes r) = record_len r.
Proof. unfold record_bytes, record_len. rewrite !length_app, !le_bytes_length. cbn. lia. Qed.

Lemma dir_entry_written r rest :
  record_ok r → dir_entry_at (record_bytes r ++ rest) =
    mkDirEntry (r_ino r) (Z.of_nat (record_len r)) (Z.of_nat (length (r_name r))) (r_type r).
Proof.
  intros (Hi & Ht & Hn & Hl). unfold dir_entry_at, field, record_bytes, is_u, is_byte in *. rewrite <- !app_assoc.
  set (n := Z.of_nat (length (r_name r))). set (l := Z.of_nat (record_len r)) in *. set (tail := r_name r ++ _).
  assert (∀ k off x y z, length x = off → length y = k → le_val (slice (x ++ y ++ z) off (off + k)) = le_val y) as H
    by (intros; f_equal; apply slice_at; lia).
  f_equal.
  - etransitivity; [apply (H 4%nat 0%nat [] (le_bytes 4 (r_ino r))); by rewrite ?le_bytes_length|].
    rewrite le_val_bytes. apply Z.mod_small. lia.
  - etransitivity; [apply (H 2%nat 4%nat (le_bytes 4 (r_ino r)) (le_bytes 2 l)); by rewrite ?le_bytes_length|].
    rewrite le_val_bytes. apply Z.mod_small. unfold l in *. lia.
  - rewrite (app_assoc (le_bytes 4 _)).
    etransitivity; [apply (H 1%nat 6%nat _ [n] (r_type r :: tail)); by rewrite ?length_app, ?le_bytes_length|]. cbn. lia.
  - change ([n; r_type r] ++ tail) with ([n] ++ [r_type r] ++ tail). rewrite (app_assoc (le_bytes 4 _)), (app_assoc (_ ++ _)).
    etransitivity; [apply (H 1%nat 7%nat _ [r_type r] tail); by rewrite ?length_app, ?le_bytes_length|]. cbn. lia.
Qed.

(** The name behind the fields. *)
Lemma record_name pre r rest :
  slice_checked (pre ++ record_bytes r ++ rest) (length pre + 8) (length pre + 8 + length (r_name r)) = Val (r_name r).
Proof.
  unfold slice_checked. rewrite (proj2 (Nat.leb_le _ _)), (proj2 (Nat.leb_le _ (length (pre ++ _)))) by
    (rewrite ?length_app, ?record_bytes_length; unfold record_len; lia). cbn [andb]. f_equal. unfold record_bytes.
  set (h := le_bytes 4 (r_ino r) ++ le_bytes 2 (Z.of_nat (record_len r)) ++ [Z.of_nat (length (r_name r)); r_type r]).
  replace (pre ++ _ ++ rest) with ((pre ++ h) ++ r_name r ++ r_fill r ++ rest) by (unfold h; rewrite <- !app_assoc; done).
  apply slice_at; [|done]. unfold h. rewrite !length_app, !le_bytes_length. cbn. lia.
Qed.

Lemma walk_block_ok {S} (cb : S → bytes → Z → Z → S * bool) rs : Forall record_ok rs → ∀ fuel pre s,
  (length (block_bytes rs) ≤ fuel)%nat →
  let data := pre ++ block_bytes rs in
  let r := feed cb s (live_entries rs) in
  ∃ pos, walk_block fuel cb data s (Z.of_nat (length pre)) = Val (r.1, r.2, pos) ∧
    (r.2 = true → pos = Z.of_nat (length data)).
Proof.
  induction 1 as [|r rs Hr _ IH]; intros fuel pre s Hf; cbn zeta.
  - change (block_bytes []) with (@nil Z). rewrite app_nil_r. destruct fuel as [|fuel]; cbn [walk_block]; [by eexists|].
    rewrite (proj2 (Z.leb_gt _ _)) by lia. by eexists.
  - change (block_bytes (r :: rs)) with (record_bytes r ++ block_bytes rs) in *. rewrite length_app, record_bytes_length in Hf.
    assert (8 ≤ record_len r)%nat as H8 by (unfold record_len; lia). pose proof Hr as (_ & _ & _ & Hl).
    destruct fuel as [|fuel]; [lia|]. cbn [walk_block]. set (data := pre ++ record_bytes r ++ block_bytes rs).
    assert (Z.of_nat (length data) = Z.of_nat (length pre) + Z.of_nat (record_len r) + Z.of_nat (length (block_bytes rs))) as Hlen.
    { unfold data. rewrite !length_app, record_bytes_length. lia. }
    rewrite (proj2 (Z.leb_le _ _)) by lia. rewrite Nat2Z.id.
    assert (drop (length pre) data = record_bytes r ++ block_bytes rs) as -> by apply drop_app_length.
    rewrite dir_entry_written by done.
    cbn [rec_len de_inode name_len file_type].
    rewrite (proj2 (Z.ltb_ge _ 8)), (proj2 (Z.ltb_ge (Z.of_nat (length data)) _)) by lia. cbn [orb].
    assert (data = (pre ++ record_bytes r) ++ block_bytes rs) as Hd by (unfold data; by rewrite <- app_assoc).
    assert (Z.of_nat (length pre) + Z.of_nat (record_len r) = Z.of_nat (length (pre ++ record_bytes r))) as Hp
      by (rewrite length_app, record_bytes_length; lia).
    unfold live_entries. cbn [List.filter]. fold (live_entries rs). destruct (r_ino r =? 0); cbn [negb].
    + rewrite Hd, Hp. apply IH. lia.
    + replace (Z.to_nat (Z.of_nat (length pre) + 8)) with (length pre + 8)%nat by lia.
      replace (Z.to_nat (Z.of_nat (length pre) + 8 + Z.of_nat (length (r_name r)))) with (length pre + 8 + length (r_name r))%nat by lia.
      pose proof (record_name pre r (block_bytes rs)) as Hname. fold data in Hname. rewrite Hname. cbn [obind feed].
      destruct (cb s (r_name r) (r_ino r) (r_type r)) as [s' [|]]; [|by eexists].
      rewrite Hd, Hp. apply IH. lia.
Qed.

Lemma entries_of_cons rs rss : entries_of (rs :: rss) = live_entries rs ++ entries_of rss.
Proof. unfold entries_of, live_entries. cbn. apply List.filter_app. Qed.

Lemma walk_dir_ok {S} (cb : S → bytes → Z → Z → S * bool) inode rss :
  dir_blocks sector fs inode rss →
  ∀ todo finished fuel s, rss = finished ++ todo → (length todo < fuel)%nat →
  walk_dir sector fs fuel inode cb s (Z.of_nat (length finished) * block_size fs) (Z.of_nat (length finished)) =
  Val (feed cb s (entries_of todo)).1.
Proof.
  intros (Hb & Hok & Hs). induction todo as [|rs todo IH]; intros finished fuel s E Hf;
    (destruct fuel as [|fuel]; [cbn in Hf; lia|]); cbn [walk_dir]; rewrite Hs, E, length_app.
  - cbn [length]. rewrite (proj2 (Z.ltb_ge _ _)) by lia. done.
  - cbn [length] in *. rewrite (proj2 (Z.ltb_lt _ _)) by nia.
    destruct (found_block _ _ (length finished) (block_bytes rs) Hb) as (Hd & b & -> & Hr).
    { rewrite E, map_app. apply list_lookup_middle. by rewrite length_map. }
    cbn [obind mbind option_bind]. rewrite Hr.
    rewrite E, Forall_app, Forall_cons in Hok. destruct Hok as (_ & Hrs & _).
    destruct (walk_block_ok cb rs Hrs (length (block_bytes rs)) [] s) as (pos & Ew & Hpos); [done|].
    change (Z.of_nat (length [])) with 0 in Ew. cbn [app] in Ew, Hpos. rewrite Ew. cbn [obind].
    rewrite entries_of_cons, feed_app. destruct (feed cb s (live_entries rs)) as [s' [|]]; cbn [fst snd] in *; [|done].
    rewrite Hpos by done. rewrite (proj2 (Z.leb_le _ _)) by lia.
    replace (Z.of_nat (length finished) + 1) with (Z.of_nat (length (finished ++ [rs]))) by (rewrite length_app; cbn; lia).
    apply IH; [by rewrite <- app_assoc|lia].
Qed.

Lemma readdir_ok {S} (cb : S → bytes → Z → Z → S * bool) inode rss s :
  dir_blocks sector fs inode rss → readdir sector fs inode cb s = Val (feed cb s (entries_of rss)).1.
Proof.
  intros Hn. apply (walk_dir_ok cb inode rss Hn rss []); [done|]. destruct Hn as (Hb & _).
  apply blocks_bound in Hb. by rewrite length_map in Hb.
Qed.

Lemma feed_find name es s :
  (feed (λ result n ino ft, if bytes_eqb n name then (Some (ino, ft), false) else (result, true)) s es).1 =
  match find_first (λ r, bytes_eqb (r_name r) name) es with Some r => Some (r_ino r, r_type r) | None => s end.
Proof. induction es as [|r es IH]; cbn; [done|]. by destruct (bytes_eqb (r_name r) name). Qed.

(** ** Paths *)

Context (nodes : Z → option node) (Hvol : volume sector fs nodes).

Lemma lookup_ok ino rss name :
  nodes ino = Some (Dir rss) →
  lookup sector behind fs ino name =
    Val (match find_first (λ r, bytes_eqb (r_name r) name) (entries_of rss) with
         | Some r => Some (r_ino r, r_type r) | None => None end).
Proof.
  intros Hn. destruct (vo_nodes _ _ _ Hvol _ _ Hn) as (inode & Hi & _ & Hat). unfold lookup. rewrite (read_inode_disk _ _ Hi). cbn [obind].
  rewrite (readdir_ok _ _ _ _ Hat). by rewrite feed_find.
Qed.

Lemma resolve_from_ok components : ∀ ino ft,
  match walk nodes components ino ft with
  | Found i t => resolve_from sector behind fs components ino ft = Val (Some (i, t))
  | Missing => resolve_from sector behind fs components ino ft = Val None
  | ThroughFile => True
  end.
Proof.
  induction components as [|c rest IH]; intros ino ft; cbn [walk resolve_from]; [done|].
  destruct c as [|b c]; [apply IH|]. destruct (nodes ino) as [[|rss]|] eqn:Hn; [done| |done].
  rewrite (lookup_ok _ _ _ Hn). cbn [obind]. destruct (find_first _ _) as [r|]; [apply IH|done].
Qed.

(** A leading slash gives an empty component, which is skipped. *)
Lemma resolve_path_ok path :
  match path_of nodes path with
  | Found i t => resolve_path sector behind fs path = Val (Some (i, t))
  | Missing => resolve_path sector behind fs path = Val None
  | ThroughFile => True
  end.
Proof.
  unfold path_of, resolve_path.
  assert (walk nodes (split_slash path []) 2 EXT2_FT_DIR =
    walk nodes (split_slash (default path (strip_prefix (str "/") path)) []) 2 EXT2_FT_DIR) as ->.
  { destruct (strip_prefix (str "/") path) as [r|] eqn:E; [|done]. by apply strip_prefix_Some in E as ->. }
  destruct (default _ _) as [|b p]; [done|]. apply resolve_from_ok.
Qed.

(** What a path leads to is a node of the volume, with its type. *)
Lemma walk_node components : ∀ ino ft i t n0,
  nodes ino = Some n0 → (ft = EXT2_FT_DIR ↔ ∃ rss, n0 = Dir rss) → walk nodes components ino ft = Found i t →
  ∃ n, nodes i = Some n ∧ (t = EXT2_FT_DIR ↔ ∃ rss, n = Dir rss).
Proof.
  induction components as [|c rest IH]; intros ino ft i t n0 Hn Ht; cbn [walk]; [intros [= <- <-]; by exists n0|].
  destruct c as [|b c]; [by eapply IH|]. rewrite Hn. destruct n0 as [|rss]; [done|].
  destruct (find_first _ _) as [r|] eqn:E; [|done]. apply find_first_Some in E as [Hin _].
  pose proof (vo_types _ _ _ Hvol _ _ Hn) as HF. rewrite Forall_forall in HF. specialize (HF _ Hin). unfold type_ok in HF.
  destruct (nodes (r_ino r)) as [n|] eqn:Hr; [|done]. intros Hw. apply (IH _ _ _ _ n Hr) in Hw; [done|].
  destruct n as [content|rss']; split; try done; [by intros (? & ?)|]. intros _. by eexists.
Qed.

Lemma path_node path i t :
  path_of nodes path = Found i t → ∃ n, nodes i = Some n ∧ (t = EXT2_FT_DIR ↔ ∃ rss, n = Dir rss).
Proof.
  destruct (vo_root _ _ _ Hvol) as [rss Hroot]. apply (walk_node _ 2 EXT2_FT_DIR i t (Dir rss) Hroot). split; [|done]. by eexists.
Qed.
End proofs.

(** ** Listings *)

Definition not_dot (r : record) : bool := negb (bytes_eqb (r_name r) (str ".") || bytes_eqb (r_name r) (str "..")).
Definition line (r : record) : bytes := r_name r ++ (if r_type r =? EXT2_FT_DIR then str "/" else []) ++ [10].
Definition lines (es : list record) : list bytes := map line (List.filter not_dot es).

(** As many whole lines as fit behind [n] bytes. *)
Fixpoint fitting (cap : Z) (n : Z) (ls : list bytes) : nat :=
  match ls with
  | [] => O
  | l :: ls' => if cap <? n + Z.of_nat (length l) then O else S (fitting cap (n + Z.of_nat (length l)) ls')
  end.

Lemma feed_ls cap es out :
  (feed (ls_entry cap) out es).1 =
  out ++ List.concat (take (fitting cap (Z.of_nat (length out)) (lines es)) (lines es)).
Proof.
  revert out. unfold lines. induction es as [|r es IH]; intros out; cbn [feed List.filter]; [by rewrite app_nil_r|].
  change (not_dot r) with (negb (bytes_eqb (r_name r) (str ".") || bytes_eqb (r_name r) (str ".."))).
  unfold ls_entry at 1. destruct (_ || _); cbn [negb map]; [apply IH|].
  set (suffix := if r_type r =? EXT2_FT_DIR then str "/" else []).
  assert (line r = r_name r ++ suffix ++ [10]) as Hl by done.
  assert (length (line r) = length (r_name r) + length suffix + 1)%nat as Hn.
  { rewrite Hl, !length_app. cbn. lia. }
  cbn [fitting]. rewrite Hn. destruct (cap <? _); cbn [fst take List.concat]; [by rewrite app_nil_r|].
  rewrite IH, Hl, !length_app, <- !app_assoc. cbn [length].
  replace (Z.of_nat (length out + (length (r_name r) + (length suffix + 1))))
    with (Z.of_nat (length out) + Z.of_nat (length (r_name r) + length suffix + 1)) by lia. done.
Qed.

(** What fits is the longest part of the lines that does. *)
Lemma fitting_spec cap ls n :
  n ≤ cap →
  n + Z.of_nat (length (List.concat (take (fitting cap n ls) ls))) ≤ cap ∧
  ((fitting cap n ls < length ls)%nat → cap < n + Z.of_nat (length (List.concat (take (S (fitting cap n ls)) ls)))).
Proof.
  revert n. induction ls as [|l ls IH]; intros n Hn; cbn [fitting].
  { cbn. split; lia. }
  destruct (Z.ltb_spec cap (n + Z.of_nat (length l))) as [H|H].
  - cbn. rewrite app_nil_r. split; lia.
  - destruct (IH (n + Z.of_nat (length l)) H) as [H1 H2].
    set (k := fitting cap (n + Z.of_nat (length l)) ls) in *.
    change (take (S (S k)) (l :: ls)) with (l :: take (S k) ls). change (take (S k) (l :: ls)) with (l :: take k ls).
    cbn [List.concat length]. rewrite !length_app. split; [lia|]. intros Hk. assert (k < length ls)%nat by lia. lia.
Qed.

(** C13: On every disk that holds a volume, every path that does not lead through a
    regular file is resolved as in the volume, without a panic: a file reads as
    its contents, cut to the buffer, and has its size; a directory lists the
    lines of its entries, as many of the first ones as fit whole into the buffer;
    what is not there is not found.  (A path through a regular file is followed
    all the same, see [ext2_file_as_directory].) *)
Theorem ext2_refines_volume sector behind fs nodes path cap :
  volume sector fs nodes → 0 ≤ cap → path_of nodes path ≠ ThroughFile →
  match path_of nodes path with
  | Found ino ft =>
      match nodes ino with
      | Some (File content) =>
          read_file sector behind (Some fs) path cap = Val (Ok (take (Z.to_nat cap) content)) ∧
          file_size sector behind (Some fs) path = Val (Z.of_nat (length content)) ∧
          ls sector behind (Some fs) path cap = Val (Err "ext2: not a directory")
      | Some (Dir rss) =>
          let all := lines (entries_of rss) in
          read_file sector behind (Some fs) path cap = Val (Err "ext2: not a regular file") ∧
          ∃ n, ls sector behind (Some fs) path cap = Val (Ok (List.concat (take n all))) ∧
            Z.of_nat (length (List.concat (take n all))) ≤ cap ∧
            ((n < length all)%nat → cap < Z.of_nat (length (List.concat (take (S n) all))))
      | None => False
      end
  | Missing =>
      read_file sector behind (Some fs) path cap = Val (Err "ext2: path not found") ∧
      file_size sector behind (Some fs) path = Val (-1) ∧
      ls sector behind (Some fs) path cap = Val (Err "ext2: path not found")
  | ThroughFile => False
  end.
Proof.
  intros Hvol Hcap Hthrough. pose proof (vo_geometry _ _ _ Hvol) as Hgeo.
  pose proof (resolve_path_ok sector behind fs Hgeo nodes Hvol path) as Hres.
  pose proof (path_node sector fs nodes Hvol path) as Hnode. unfold read_file, file_size, ls.
  destruct (path_of nodes path) as [ino ft| |]; [|by rewrite Hres|done]. rewrite Hres. cbn [obind].
  destruct (Hnode _ _ eq_refl) as (n & Hn & Ht). rewrite Hn. destruct (vo_nodes _ _ _ Hvol _ _ Hn) as (inode & Hi & Hat).
  rewrite (read_inode_disk sector behind fs Hgeo _ _ Hi). cbn [obind]. destruct n as [content|rss].
  - assert (ft =? EXT2_FT_DIR = false) as ->.
    { apply Z.eqb_neq. intros E. apply Ht in E as [rss E]. done. }
    pose proof Hat as (Hreg & blocks & _ & Hs & _). rewrite Hreg. cbn [negb].
    rewrite (read_file_bytes_ok sector fs Hgeo _ _ Hat), Hs.
    replace (take (Z.to_nat cap) content) with (take (Nat.min (length content) (Z.to_nat cap)) content);
      [by destruct (ft =? EXT2_FT_REG_FILE)|].
    destruct (Nat.le_ge_cases (length content) (Z.to_nat cap)); [rewrite Nat.min_l, !take_ge by lia|rewrite Nat.min_r by lia]; done.
  - rewrite (proj2 Ht) by (by eexists). destruct Hat as [Hreg Hd]. cbn. rewrite Hreg. split; [done|].
    rewrite (readdir_ok sector fs Hgeo _ _ _ _ Hd). cbn [obind]. rewrite feed_ls. cbn [app length].
    eexists. split; [reflexivity|]. by apply (fitting_spec cap _ 0).
Qed.

(** ** Defects *)

(** A path is followed through a regular file as if it were a directory: the
    contents of the file decide which inode the next component names. *)
Theorem ext2_file_as_directory sector behind fs ino inode rss name :
  geometry sector fs → inode_on_disk sector fs ino inode → is_regular inode = true → dir_blocks sector fs inode rss →
  lookup sector behind fs ino name =
    Val (match find_first (λ r, bytes_eqb (r_name r) name) (entries_of rss) with
         | Some r => Some (r_ino r, r_type r) | None => None end).
Proof.
  intros Hgeo Hi _ Hd. unfold lookup. rewrite (read_inode_disk sector behind fs Hgeo _ _ Hi). cbn [obind]. rewrite (readdir_ok sector fs Hgeo _ _ _ _ Hd).
  by rewrite feed_find.
Qed.

(** The first block that would need a triple indirect block. *)
Definition double_end (fs : Ext2Fs) : Z := 12 + ptrs_per_block fs + ptrs_per_block fs * ptrs_per_block fs.

Lemma file_block_end sector fs inode b :
  geometry sector fs → file_block sector fs inode (double_end fs - 1) = Val (Some b) → file_block sector fs inode (double_end fs) = Panic.
Proof.
  intros Hgeo. destruct (ptrs_eq sector fs Hgeo) as [Ep Hp]. pose proof (ge_size _ _ Hgeo) as Hsize. unfold double_end, file_block. rewrite Ep.
  set (p := block_size fs / 4) in *.
  assert (4 * p ≤ block_size fs < 4 * p + 4) as Hb.
  { unfold p. pose proof (Z.div_mod (block_size fs) 4). pose proof (Z.mod_pos_bound (block_size fs) 4). lia. }
  unfold u32. rewrite (wrap_small 32 (12 + p)) by (unfold is_u; nia).
  rewrite !(proj2 (Z.ltb_ge _ 12)), !(proj2 (Z.ltb_ge _ (12 + p))) by nia.
  destruct (nonzero (i_block inode !!! 13%nat)) as [b1|]; [|done]. cbn [mbind option_bind].
  destruct (read_block sector fs b1) as [l1|] eqn:E; [|done]. intros _. rewrite (proj2 (Z.eqb_neq p 0)) by lia.
  apply (read_block_length sector fs Hgeo) in E.
  rewrite wrap_small by (unfold is_u; nia). replace (12 + p + p * p - 12 - p) with (p * p) by lia. rewrite Z.div_mul by lia.
  unfold word_at, slice_checked. rewrite (proj2 (Nat.leb_gt (Z.to_nat (p * 4 + 4)) (length l1))) by lia. by rewrite andb_false_r.
Qed.

(** Reading a file that has all its direct and indirect blocks and more bytes
    than they hold panics: 64 MiB and a bit for blocks of 1024 bytes. *)
Theorem ext2_large_file_panics sector fs inode blocks :
  geometry sector fs → holds_blocks sector fs inode blocks → Z.of_nat (length blocks) = double_end fs →
  double_end fs * block_size fs < i_size inode → read_file_bytes sector fs inode = Panic.
Proof.
  intros Hgeo Hb Hn Hbig. destruct (ptrs_eq sector fs Hgeo) as [Ep Hp]. pose proof (ge_size _ _ Hgeo) as Hsize.
  assert (file_block sector fs inode (double_end fs) = Panic) as Hend.
  { destruct (lookup_lt_is_Some_2 blocks (length blocks - 1)) as [d Hd]; [unfold double_end in Hn; rewrite Ep in Hn; nia|].
    destruct (found_block sector fs Hgeo _ _ _ _ Hb Hd) as (_ & b & Hf & _). apply (file_block_end sector fs inode b Hgeo). rewrite <- Hf. f_equal.
    unfold double_end in *. rewrite Ep in *. nia. }
  assert (∀ todo finished fuel, blocks = finished ++ todo → (length todo < fuel)%nat →
    Z.of_nat (length (List.concat finished)) = Z.of_nat (length finished) * block_size fs →
    read_blocks sector fs fuel inode (List.concat finished) (Z.of_nat (length finished)) = Panic) as Hall.
  { induction todo as [|d todo IH]; intros finished fuel E Hf Hl; (destruct fuel as [|fuel]; [cbn in Hf; lia|]); cbn [read_blocks].
    - rewrite app_nil_r in E. subst finished. rewrite Hl, (proj2 (Z.ltb_lt _ _)) by nia. by rewrite Hn, Hend.
    - assert (length blocks = (length finished + S (length todo))%nat) as Hlen by (rewrite E, length_app; done).
      destruct (found_block sector fs Hgeo _ _ (length finished) d Hb) as (Hd & b & -> & Hr); [rewrite E; by apply list_lookup_middle|].
      rewrite Hl, (proj2 (Z.ltb_lt _ _)) by nia. cbn [obind mbind option_bind]. rewrite Hr, Z.min_r by nia.
      unfold slice_checked. rewrite (proj2 (Nat.leb_le _ (length d))) by lia. cbn [Nat.leb andb obind].
      assert (slice d 0 (Z.to_nat (block_size fs)) = d) as ->
        by (unfold slice; rewrite Nat.sub_0_r, drop_0; apply take_ge; lia).
      replace (List.concat finished ++ d) with (List.concat (finished ++ [d])) by (rewrite concat_app; cbn; by rewrite app_nil_r).
      replace (Z.of_nat (length finished) + 1) with (Z.of_nat (length (finished ++ [d]))) by (rewrite length_app; cbn; lia).
      apply IH; [by rewrite <- app_assoc|cbn in Hf; lia|]. rewrite concat_app, !length_app. cbn [List.concat length].
      rewrite app_nil_r, !Nat2Z.inj_add, Hl, Hd. lia. }
  apply (Hall blocks []); [done| |done]. by eapply blocks_bound.
Qed.

(** ** Witnesses: a volume of blocks of 1024 bytes with one file *)

Definition sample_inode (mode size b : Z) : bytes :=
  le_bytes 2 mode ++ le_bytes 2 0 ++ le_bytes 4 size ++ replicate 32 0 ++ le_bytes 4 b ++ replicate 56 0 ++ replicate 28 0.

(** Inode 2 is the root and inode 11 the file; inode 12 is a file with the
    bytes of the root. *)
Definition sample_table : bytes :=
  replicate 128 0 ++ sample_inode 0x41ED 1024 10 ++ replicate (8 * 128) 0 ++
  sample_inode 0x81A4 5 11 ++ sample_inode 0x81A4 1024 10 ++ replicate (4 * 128) 0.

Definition sample_root : list record :=
  [mkRecord 2 2 (str ".") [0; 0; 0]; mkRecord 2 2 (str "..") [0; 0];
   mkRecord 11 1 (str "motd") (replicate (1024 - 24 - 12) 0)].

Definition sample_super : bytes :=
  replicate 4 0 ++ le_bytes 4 64 ++ replicate 24 0 ++ le_bytes 4 8192 ++ replicate 4 0 ++ le_bytes 4 16 ++
  replicate 12 0 ++ le_bytes 2 EXT2_MAGIC ++ replicate 18 0 ++ replicate 948 0.

(** Sectors 2 to 5 have the superblock and the group table, 10 to 13 the
    inodes, 20 to 23 the directory and the file. *)
Definition sample_disk : bytes :=
  replicate 1024 0 ++ sample_super ++ (replicate 8 0 ++ le_bytes 4 5 ++ replicate (1024 - 12) 0) ++ replicate (2 * 1024) 0 ++
  sample_table ++ replicate (3 * 1024) 0 ++ block_bytes sample_root ++ (str "hello" ++ replicate (1024 - 5) 0).

Definition sample_sector (s : Z) : option bytes :=
  if (0 <=? s) && (s <? 24) then Some (slice sample_disk (Z.to_nat (s * 512)) (Z.to_nat (s * 512) + 512)) else None.

Definition sample_fs : Ext2Fs := mkFs 1024 16 128 [mkGroup 5].

Definition sample_nodes (ino : Z) : option node :=
  if ino =? 2 then Some (Dir [sample_root]) else if ino =? 11 then Some (File (str "hello")) else None.

Lemma sample_mounted : mount sample_sector true None = Val (Some sample_fs, Ok tt).
Proof. vm_compute. reflexivity. Qed.

Lemma sample_sectors s d : sample_sector s = Some d → length d = 512%nat.
Proof.
  unfold sample_sector. case_if; [|done]. unbool. intros [= <-].
  assert (length sample_disk = Z.to_nat (24 * 512)) as Hl by (vm_compute; reflexivity).
  rewrite slice_length; lia.
Qed.

Lemma sample_on_disk off n d :
  0 ≤ off → off + Z.of_nat n ≤ 12288 → slice sample_disk (Z.to_nat off) (Z.to_nat off + n) = d → on_disk sample_sector off d.
Proof.
  assert (Z.of_nat (length sample_disk) = 12288) as Hl by (vm_compute; reflexivity).
  intros Ho Hn <- k c Hk. assert (k < n)%nat as Hkn by (apply lookup_lt_Some in Hk; rewrite slice_length in Hk; lia).
  rewrite slice_lookup in Hk by lia.
  pose proof (Z.div_mod (off + Z.of_nat k) 512 ltac:(lia)) as E. pose proof (Z.mod_pos_bound (off + Z.of_nat k) 512 ltac:(lia)) as Hm.
  assert (0 ≤ (off + Z.of_nat k) / 512 < 24) as Hq by lia.
  eexists. split; [unfold sample_sector; rewrite (proj2 (Z.leb_le _ _)), (proj2 (Z.ltb_lt _ _)) by lia; done|].
  rewrite slice_lookup by lia. rewrite <- Hk. f_equal. lia.
Qed.

Lemma sample_geometry : geometry sample_sector sample_fs.
Proof. split; [exact sample_sectors|cbn; lia|reflexivity|split; [cbn; lia|reflexivity]]. Qed.

Lemma sample_inode_on_disk ino mode size b :
  (ino, mode, size, b) ∈ [(2, 0x41ED, 1024, 10); (11, 0x81A4, 5, 11); (12, 0x81A4, 1024, 10)] →
  inode_on_disk sample_sector sample_fs ino (inode_at (sample_inode mode size b)).
Proof.
  intros H. exists 0%nat, (ino - 1), (mkGroup 5), (sample_inode mode size b).
  repeat (apply elem_of_cons in H as [[= -> -> -> ->]|H]); [..|by apply elem_of_nil in H];
    (split_and!; [reflexivity|cbn; lia|cbn; lia|reflexivity|cbn; lia|vm_compute; reflexivity| |reflexivity]).
  - apply (sample_on_disk (5120 + 128) 128); [lia|lia|vm_compute; reflexivity].
  - apply (sample_on_disk (5120 + 1280) 128); [lia|lia|vm_compute; reflexivity].
  - apply (sample_on_disk (5120 + 1408) 128); [lia|lia|vm_compute; reflexivity].
Qed.

(** One block that the inode points to itself. *)
Lemma sample_block mode size b d :
  (b, d) ∈ [(10, block_bytes sample_root); (11, str "hello" ++ replicate (1024 - 5) 0)] →
  holds_blocks sample_sector sample_fs (inode_at (sample_inode mode size b)) [d].
Proof.
  intros H [|k] d' Hk; [|done]. injection Hk as <-. exists b. repeat (apply elem_of_cons in H as [[= -> ->]|H]); [..|by apply elem_of_nil in H].
  - split; [apply p_direct; [lia|reflexivity]|]. split; [lia|]. split; [vm_compute; reflexivity|].
    apply (sample_on_disk 10240 1024); [lia|lia|vm_compute; reflexivity].
  - split; [apply p_direct; [lia|reflexivity]|]. split; [lia|]. split; [vm_compute; reflexivity|].
    apply (sample_on_disk 11264 1024); [lia|lia|vm_compute; reflexivity].
Qed.

Lemma sample_dir mode : dir_blocks sample_sector sample_fs (inode_at (sample_inode mode 1024 10)) [sample_root].
Proof.
  split_and!.
  - apply (sample_block mode 1024 10). left.
  - repeat constructor; vm_compute; (reflexivity || discriminate).
  - vm_compute. reflexivity.
Qed.

Lemma sample_volume : volume sample_sector sample_fs sample_nodes.
Proof.
  split.
  - exact sample_geometry.
  - exists [sample_root]. reflexivity.
  - intros ino n. unfold sample_nodes. destruct (Z.eqb_spec ino 2) as [->|_]; [|destruct (Z.eqb_spec ino 11) as [->|_]; [|done]];
      intros [= <-]; eexists.
    + split; [apply sample_inode_on_disk; left|]. split; [vm_compute; reflexivity|apply sample_dir].
    + split; [apply sample_inode_on_disk; right; left|]. split; [vm_compute; reflexivity|].
      exists [str "hello" ++ replicate (1024 - 5) 0]. split; [apply (sample_block 0x81A4 5 11); right; left|].
      split_and!; [vm_compute; reflexivity|vm_compute; lia|vm_compute; reflexivity].
  - intros ino rss. unfold sample_nodes. destruct (ino =? 2); [|by destruct (ino =? 11)]. intros [= <-].
    vm_compute. repeat constructor; discriminate.
Qed.

Lemma ext2_witness :
  read_file sample_sector [] (Some sample_fs) (str "/motd") 3 = Val (Ok (str "hel")) ∧
  ls sample_sector [] (Some sample_fs) (str "/") 100 = Val (Ok (str "motd" ++ [10])) ∧
  file_size sample_sector [] (Some sample_fs) (str "/none") = Val (-1).
Proof.
  split; [|split].
  - destruct (ext2_refines_volume sample_sector [] sample_fs sample_nodes (str "/motd") 3 sample_volume ltac:(lia)
      ltac:(vm_compute; discriminate)) as [H _].
    exact H.
  - destruct (ext2_refines_volume sample_sector [] sample_fs sample_nodes (str "/") 100 sample_volume ltac:(lia)
      ltac:(vm_compute; discriminate)) as (_ & n & H & _ & Hn).
    destruct n as [|n]; [exfalso; vm_compute in Hn; specialize (Hn ltac:(lia)); discriminate|].
    rewrite H. by destruct n.
  - destruct (ext2_refines_volume sample_sector [] sample_fs sample_nodes (str "/none") 0 sample_volume ltac:(lia)
      ltac:(vm_compute; discriminate)) as [_ [H _]].
    exact H.
Defined.

(** Inode 12 is a regular file. *)
Lemma ext2_file_as_directory_witness :
  lookup sample_sector [] sample_fs 12 (str "motd") = Val (Some (11, 1)).
Proof.
  rewrite (ext2_file_as_directory sample_sector [] sample_fs 12 (inode_at (sample_inode 0x81A4 1024 10)) [sample_root] (str "motd")).
  - vm_compute. reflexivity.
  - exact sample_geometry.
  - apply sample_inode_on_disk. right. right. left.
  - vm_compute. reflexivity.
  - apply sample_dir.
Defined.

(** A disk full of ones: every block pointer is the block 0x01010101. *)
Definition ones_sector (_ : Z) : option bytes := Some (replicate 512 1).
Definition ones_inode : Inode := mkInode S_IFREG (2 ^ 27) (replicate 15 0x01010101).

Lemma ones_geometry : geometry ones_sector sample_fs.
Proof. split; [|cbn; lia|reflexivity|split; [cbn; lia|reflexivity]]. intros s d [= <-]. reflexivity. Qed.

Lemma ones_block : block_on_disk ones_sector sample_fs 0x01010101 (replicate 1024 1).
Proof.
  split; [lia|]. split; [by rewrite length_replicate|]. intros k c Hk. apply lookup_replicate in Hk as [-> _].
  eexists. split; [done|]. apply lookup_replicate_2. pose proof (Z.mod_pos_bound (0x01010101 * block_size sample_fs + Z.of_nat k) 512). lia.
Qed.

Lemma ones_field k : (k < 256)%nat → field 4 (replicate 1024 1) (4 * k) = 0x01010101.
Proof.
  intros H. unfold field, slice. rewrite drop_replicate, take_replicate. replace (_ `min` _)%nat with 4%nat by lia. reflexivity.
Qed.

Lemma ones_pointer k : Z.of_nat k < double_end sample_fs → pointer ones_sector sample_fs ones_inode k 0x01010101.
Proof.
  change (double_end sample_fs) with 65804. intros Hk. assert (pointers sample_fs = 256%nat) as Hp by reflexivity.
  destruct (decide (k < 12)%nat) as [H12|H12]; [by apply p_direct, lookup_replicate_2; lia|].
  destruct (decide (k < 268)%nat) as [H268|H268].
  - replace k with (12 + (k - 12))%nat by lia. eapply p_indirect; [rewrite Hp; lia|done|exact ones_block|]. apply ones_field. lia.
  - pose proof (Nat.div_mod_eq (k - 268) 256) as E. pose proof (Nat.mod_upper_bound (k - 268) 256 ltac:(lia)) as Hm.
    replace k with (12 + pointers sample_fs + ((k - 268) / 256 * pointers sample_fs + (k - 268) mod 256))%nat by (rewrite Hp; lia).
    eapply p_double; [rewrite Hp; lia|rewrite Hp; lia|done|exact ones_block| |exact ones_block|]; apply ones_field; lia.
Qed.

Lemma ext2_large_file_witness : read_file_bytes ones_sector sample_fs ones_inode = Panic.
Proof.
  apply (ext2_large_file_panics ones_sector sample_fs ones_inode (replicate (Z.to_nat 65804) (replicate 1024 1))).
  - exact ones_geometry.
  - intros k d Hk. apply lookup_replicate in Hk as [-> Hk]. exists 0x01010101. split; [|exact ones_block].
    apply ones_pointer. change (double_end sample_fs) with 65804. lia.
  - rewrite length_replicate. change (double_end sample_fs) with 65804. lia.
  - vm_compute. reflexivity.
Defined.
End Ext2.
