(* ===== verification/Poll.v ===== *)
(** * Timers, event counters and epoll ([syscall/poll.rs])

    The tables of timer descriptors, event counters, epoll sets and of the
    threads that wait on one, with the calls that change them.
    [timer_counts_expirations] is about the arithmetic of periodic timers.
    How waiting and writing interleave is the subject of [EpollWait]. *)

From Stdlib Require Import ZArith Lia.
From stdpp Require Import base numbers strings option relations list gmap sorting.
From S2P Require Import Prelude CString.

Local Open Scope Z_scope.

Module Poll.
Import CString.

(** ** State *)

Record TimerState := mkTimer { deadline_ns : Z; period_ns : Z; pending : Z }.
Record EpollEntry := mkEntry { fd : Z; events : Z; data : Z }.

Record State := mkState {
  SYNTH_FD_NEXT : Z;
  TIMERFD_TABLE : gmap Z TimerState;
  EVENTFD_TABLE : gmap Z Z;
  EPOLL_TABLE : gmap Z (list EpollEntry);
  EPOLL_BLOCKED : gmap Z Z
}.

Definition State_new : State := mkState 64 ∅ ∅ ∅ ∅.

Definition set_timers (s : State) (m : gmap Z TimerState) : State :=
  mkState (SYNTH_FD_NEXT s) m (EVENTFD_TABLE s) (EPOLL_TABLE s) (EPOLL_BLOCKED s).
Definition set_eventfds (s : State) (m : gmap Z Z) : State :=
  mkState (SYNTH_FD_NEXT s) (TIMERFD_TABLE s) m (EPOLL_TABLE s) (EPOLL_BLOCKED s).
Definition set_epolls (s : State) (m : gmap Z (list EpollEntry)) : State :=
  mkState (SYNTH_FD_NEXT s) (TIMERFD_TABLE s) (EVENTFD_TABLE s) m (EPOLL_BLOCKED s).
Definition set_blocked (s : State) (m : gmap Z Z) : State :=
  mkState (SYNTH_FD_NEXT s) (TIMERFD_TABLE s) (EVENTFD_TABLE s) (EPOLL_TABLE s) m.

(** The keys of a tree map come in ascending order. *)
Definition keys {A} (m : gmap Z A) : list Z := merge_sort Z.le (map_to_list m).*1.

Definition sat_add64 (x y : Z) : Z := Z.min (x + y) u64_MAX.

(** ** Waking *)

Definition watches (f : Z) (entries : list EpollEntry) : bool := existsb (λ e, fd e =? f) entries.

(** The epoll descriptors that watch one of [fds]. *)
Definition watching (s : State) (fds : list Z) : list Z :=
  List.filter (λ epfd, match EPOLL_TABLE s !! epfd with
    | Some entries => existsb (λ e, existsb (Z.eqb (fd e)) fds) entries | None => false end) (keys (EPOLL_TABLE s)).

(** Takes the threads that wait on one of [epfds] out of the table. *)
Definition release (s : State) (epfds : list Z) : State * list Z :=
  let pids := List.filter (λ pid, match EPOLL_BLOCKED s !! pid with
    | Some epfd => existsb (Z.eqb epfd) epfds | None => false end) (keys (EPOLL_BLOCKED s)) in
  (set_blocked s (foldr (λ pid m, delete pid m) (EPOLL_BLOCKED s) pids), pids).

(** The result has the processes that are woken. *)
Definition epoll_wake (s : State) (f : Z) : State * list Z :=
  let watching_epfds := watching s [f] in
  match watching_epfds with
  | [] => (s, [])
  | _ => release s watching_epfds
  end.

Definition force_wake_all_task_runners (s : State) : State * list Z :=
  let tfds := keys (TIMERFD_TABLE s) in
  let poked := (λ t, if pending t =? 0 then mkTimer (deadline_ns t) (period_ns t) 1 else t) <$> TIMERFD_TABLE s in
  let efds := keys (EVENTFD_TABLE s) in
  let counted := (λ c, sat_add64 c 1) <$> EVENTFD_TABLE s in
  let s1 := set_eventfds (set_timers s poked) counted in
  release s1 (watching s1 (tfds ++ efds)).

(** ** Timers *)

(** The expirations up to [now] are added to the pending ones. *)
Definition fired (now : Z) (t : TimerState) : bool := negb (deadline_ns t =? 0) && (deadline_ns t <=? now).

Definition expire (now : Z) (t : TimerState) : TimerState :=
  if fired now t then
    if negb (period_ns t =? 0) then
      let elapsed := sat_sub now (deadline_ns t) in
      let n := 1 + elapsed / period_ns t in
      mkTimer (sat_add64 (deadline_ns t) (u64 (n * period_ns t))) (period_ns t) (sat_add64 (pending t) n)
    else mkTimer 0 (period_ns t) (sat_add64 (pending t) 1)
  else t.

Fixpoint wake_each (s : State) (fds : list Z) : State * list Z :=
  match fds with
  | [] => (s, [])
  | f :: fds' =>
      let '(s1, pids) := epoll_wake s f in
      let '(s2, pids') := wake_each s1 fds' in
      (s2, pids ++ pids')
  end.

Definition check_timerfds_and_wake (now : Z) (s : State) : State * list Z :=
  let to_wake := List.filter (λ f, match TIMERFD_TABLE s !! f with Some t => fired now t | None => false end)
    (keys (TIMERFD_TABLE s)) in
  wake_each (set_timers s (expire now <$> TIMERFD_TABLE s)) to_wake.

Definition alloc_synth_fd (s : State) : State * Z :=
  (mkState (u32 (SYNTH_FD_NEXT s + 1)) (TIMERFD_TABLE s) (EVENTFD_TABLE s) (EPOLL_TABLE s) (EPOLL_BLOCKED s), SYNTH_FD_NEXT s).

Definition sys_timerfd_create_real (s : State) : State * Z :=
  let '(s1, f) := alloc_synth_fd s in
  (set_timers s1 (<[f := mkTimer 0 0 0]> (TIMERFD_TABLE s1)), f).

Definition sys_eventfd2 (initval : Z) (s : State) : State * Z :=
  let '(s1, f) := alloc_synth_fd s in
  (set_eventfds s1 (<[f := initval]> (EVENTFD_TABLE s1)), f).

(** The counter before the wake-up. *)
Definition eventfd_add (s : State) (f val : Z) : option State :=
  match EVENTFD_TABLE s !! f with
  | Some c => Some (set_eventfds s (<[f := sat_add64 c (Z.max val 1)]> (EVENTFD_TABLE s)))
  | None => None
  end.

Definition eventfd_write (s : State) (f val : Z) : State * list Z :=
  match eventfd_add s f val with
  | Some s1 =>
      if 0 <? default 0 (EVENTFD_TABLE s1 !! f) then epoll_wake s1 f else (s1, [])
  | None => (s, [])
  end.

Definition sat_mul64 (x y : Z) : Z := Z.min (x * y) u64_MAX.

(** Seconds and nanoseconds of a [timespec] in user memory. *)
Definition read_timespec (m : memory) (p : Z) : Z :=
  sat_add64 (sat_mul64 (Z.max (i64 (read_word 8 m p)) 0) 1000000000) (Z.max (i64 (read_word 8 m (p + 8))) 0).

Definition sys_timerfd_settime_real (now : Z) (m : memory) (f flags new_value : Z) (s : State) : State * list Z * Z :=
  if new_value =? 0 then (s, [], -22)
  else
    let period := read_timespec m new_value in
    let value := read_timespec m (new_value + 16) in
    let deadline :=
      if value =? 0 then 0
      else if negb (Z.land flags 1 =? 0) then value else sat_add64 now value in
    let original_expired := negb (deadline =? 0) && (deadline <=? now) in
    let fire_now_oneshot := original_expired && (period =? 0) in
    let deadline := if original_expired && negb (period =? 0) then sat_add64 now 1000000 else deadline in
    let final_deadline := if fire_now_oneshot then 0 else deadline in
    let t :=
      match TIMERFD_TABLE s !! u32 f with
      | Some t => mkTimer final_deadline period (if fire_now_oneshot then Z.max (sat_add64 (pending t) 1) 1 else 0)
      | None => mkTimer final_deadline period (if fire_now_oneshot then 1 else 0)
      end in
    let '(s1, pids) := epoll_wake (set_timers s (<[u32 f := t]> (TIMERFD_TABLE s))) (u32 f) in
    (s1, pids, 0).

(** ** Reading and writing descriptors: the parts of [sys_read] and [sys_write]
    for timers and counters.  [None] means that [f] is neither. *)

Definition read_synth (now : Z) (s : State) (m : memory) (f buf_ptr len : Z) : option (State * memory * Z) :=
  match TIMERFD_TABLE s !! u32 f with
  | Some ts =>
      Some (if len <? 8 then (s, m, -22)
            else
              let t := expire now ts in
              if 0 <? pending t then
                (set_timers s (<[u32 f := mkTimer (deadline_ns t) (period_ns t) 0]> (TIMERFD_TABLE s)),
                 write_word 8 m buf_ptr (pending t), 8)
              else (set_timers s (<[u32 f := t]> (TIMERFD_TABLE s)), m, -11))
  | None =>
      match EVENTFD_TABLE s !! u32 f with
      | Some c =>
          Some (if len <? 8 then (s, m, -22)
                else if c =? 0 then (s, m, -11)
                else (set_eventfds s (<[u32 f := 0]> (EVENTFD_TABLE s)), write_word 8 m buf_ptr c, 8))
      | None => None
      end
  end.

Definition written_value (m : memory) (buf_ptr len : Z) : Z :=
  if (8 <=? len) && negb (buf_ptr =? 0) then Z.max (read_word 8 m buf_ptr) 1 else 1.

Definition write_timer (s : State) (m : memory) (f buf_ptr len : Z) : option (State * list Z) :=
  match TIMERFD_TABLE s !! u32 f with
  | Some ts =>
      let t := mkTimer (deadline_ns ts) (period_ns ts) (sat_add64 (pending ts) (written_value m buf_ptr len)) in
      Some (epoll_wake (set_timers s (<[u32 f := t]> (TIMERFD_TABLE s))) (u32 f))
  | None => None
  end.

Definition write_synth (s : State) (m : memory) (f buf_ptr len : Z) : option (State * list Z) :=
  match write_timer s m f buf_ptr len with
  | Some r => Some r
  | None =>
      match EVENTFD_TABLE s !! u32 f with
      | Some _ =>
          Some (eventfd_write s (u32 f) (if (8 <=? len) && negb (buf_ptr =? 0) then read_word 8 m buf_ptr else 1))
      | None => None
      end
  end.

(** ** Epoll sets *)

Definition sys_epoll_create_real (s : State) : State * Z :=
  let '(s1, f) := alloc_synth_fd s in
  (set_epolls s1 (<[f := []]> (EPOLL_TABLE s1)), f).

Definition EPOLL_EVENT_SIZE : Z := 12.
Definition EPOLL_DATA_OFF : Z := 4.

Definition sys_epoll_ctl_real (m : memory) (epfd op f event_ptr : Z) (s : State) : State * Z :=
  let list := default [] (EPOLL_TABLE s !! u32 epfd) in
  let put l := set_epolls s (<[u32 epfd := l]> (EPOLL_TABLE s)) in
  if op =? 2 then (put (List.filter (λ e, negb (fd e =? u32 f)) list), 0)
  else if (op =? 1) || (op =? 3) then
    if event_ptr =? 0 then (put list, -22)
    else
      let ev := read_word 4 m event_ptr in
      let d := read_word 8 m (event_ptr + EPOLL_DATA_OFF) in
      match update_first (λ e, fd e =? u32 f) (λ e, mkEntry (fd e) ev d) list with
      | Some l => (put l, 0)
      | None => (put (list ++ [mkEntry (u32 f) ev d]), 0)
      end
  else (put list, -22).

(** One event is written behind the [count] before it. *)
Definition put_event (m : memory) (events_out count d : Z) : memory :=
  let slot := events_out + count * EPOLL_EVENT_SIZE in
  write_word 8 (write_word 4 m slot 1) (slot + EPOLL_DATA_OFF) d.

Section collect.
(** [pipe_readable_for_fd] and the time. *)
Context (pipe_readable : Z → bool) (now : Z).

Fixpoint collect_loop (entries : list EpollEntry) (maxevents events_out : Z) (s : State) (m : memory) (count : Z)
    : State * memory * Z :=
  match entries with
  | [] => (s, m, count)
  | entry :: rest =>
      if maxevents <=? count then (s, m, count)
      else
        match TIMERFD_TABLE s !! fd entry with
        | Some ts =>
            let t := expire now ts in
            let s1 := set_timers s (<[fd entry := t]> (TIMERFD_TABLE s)) in
            if 0 <? pending t
            then collect_loop rest maxevents events_out s1 (put_event m events_out count (data entry)) (count + 1)
            else collect_loop rest maxevents events_out s1 m count
        | None =>
            if (0 <? default 0 (EVENTFD_TABLE s !! fd entry)) || pipe_readable (fd entry)
            then collect_loop rest maxevents events_out s (put_event m events_out count (data entry)) (count + 1)
            else collect_loop rest maxevents events_out s m count
        end
  end.

Definition epoll_collect_ready (s : State) (m : memory) (epfd events_out maxevents : Z) : State * memory * Z :=
  if (events_out =? 0) || (maxevents <=? 0) then (s, m, 0)
  else
    match EPOLL_TABLE s !! epfd with
    | None => (s, m, 0)
    | Some entries => collect_loop entries maxevents events_out s m 0
    end.
End collect.

(** ** Periodic timers *)

(** Calls that look at timers, at a time each. *)
Inductive call :=
| Check
| Collect (pipe_readable : Z → bool) (epfd events_out maxevents : Z)
| Read (g buf_ptr len : Z).

(** The state, user memory, and the sum of what has been read from [f]. *)
Definition run_call (f : Z) (now : Z) (c : call) (w : State * memory * Z) : State * memory * Z :=
  let '(s, m, total) := w in
  match c with
  | Check => ((check_timerfds_and_wake now s).1, m, total)
  | Collect pipe epfd out max =>
      let '(s', m', _) := epoll_collect_ready pipe now s m epfd out max in (s', m', total)
  | Read g buf len =>
      match read_synth now s m g buf len with
      | Some (s', m', r) => (s', m', if (u32 g =? f) && (r =? 8) then total + read_word 8 m' buf else total)
      | None => w
      end
  end.

Definition run_calls (f : Z) (cs : list (Z * call)) (w : State * memory * Z) : State * memory * Z :=
  foldl (λ w c, run_call f c.1 c.2 w) w cs.

(** The expirations up to a time of a timer armed for [d] with period [p]. *)
Definition expirations (d p now : Z) : Z := if d <=? now then (now - d) / p + 1 else 0.

Lemma le_val_word n v k : 
  le_val (map (λ i, u8 (Z.shiftr v (8 * (Z.of_nat i - Z.of_nat k)))) (seq k n)) = v mod 2 ^ (8 * Z.of_nat n).
Proof.
  assert (map (λ i, u8 (Z.shiftr v (8 * (Z.of_nat i - Z.of_nat k)))) (seq k n) = le_bytes n v) as ->; [|apply le_val_bytes].
  revert v k. induction n as [|n IH]; intros v k; [done|]. cbn [seq map le_bytes]. f_equal.
  - rewrite Z.sub_diag. done.
  - rewrite <- (IH _ (S k)). apply map_ext_in. intros i Hi. apply in_seq in Hi. f_equal.
    change 256 with (2 ^ 8). rewrite <- (Z.shiftr_div_pow2 v 8) by lia. rewrite Z.shiftr_shiftr by lia. f_equal. lia.
Qed.

Lemma read_write_word m p v : is_u 64 v → read_word 8 (write_word 8 m p v) p = v.
Proof.
  intros Hv. unfold read_word, read_range.
  assert (map (λ i, write_word 8 m p v (p + Z.of_nat i)) (seq 0 8) =
    map (λ i, u8 (Z.shiftr v (8 * (Z.of_nat i - Z.of_nat 0)))) (seq 0 8)) as ->.
  { apply map_ext_in. intros i Hi. apply in_seq in Hi. unfold write_word.
    rewrite (proj2 (Z.leb_le _ _)), (proj2 (Z.ltb_lt _ _)) by lia. cbn [andb]. do 3 f_equal. lia. }
  rewrite (le_val_word 8 v 0). apply Z.mod_small. exact Hv.
Qed.

Section periodic.
Context (d p : Z) (Hd : 0 < d < 2 ^ 62) (Hp : 0 < p < 2 ^ 62).

(** The timer after [k] expirations, of which [q] are pending. *)
Definition at_index (k q : Z) : TimerState := mkTimer (d + k * p) p q.

Lemma expirations_bound now : 0 ≤ now < 2 ^ 62 → 0 ≤ expirations d p now ≤ 2 ^ 62 ∧ expirations d p now * p < 2 ^ 63.
Proof.
  intros Hn. unfold expirations. destruct (Z.leb_spec d now); [|lia].
  pose proof (Z.div_mod (now - d) p). pose proof (Z.mod_pos_bound (now - d) p).
  assert ((now - d) / p ≤ now - d) by (apply Z.div_le_upper_bound; nia). pose proof (Z.div_pos (now - d) p). nia.
Qed.

Lemma expirations_mono now now' : now ≤ now' → expirations d p now ≤ expirations d p now'.
Proof.
  intros H. unfold expirations. destruct (Z.leb_spec d now), (Z.leb_spec d now'); try lia.
  - pose proof (Z.div_le_mono (now - d) (now' - d) p). lia.
  - pose proof (Z.div_pos (now' - d) p). lia.
Qed.

Lemma expire_index now k q :
  0 ≤ now < 2 ^ 62 → 0 ≤ k → 0 ≤ q ≤ k → k ≤ 2 ^ 62 → k * p < 2 ^ 63 →
  let k' := Z.max k (expirations d p now) in expire now (at_index k q) = at_index k' (q + (k' - k)).
Proof.
  intros Hn Hk Hq Hk1 Hk2. cbn zeta. destruct (expirations_bound now Hn) as [He1 He2]. unfold expire, fired, at_index. cbn.
  rewrite (proj2 (Z.eqb_neq (d + k * p) 0)), (proj2 (Z.eqb_neq p 0)) by nia. cbn [negb andb].
  destruct (Z.leb_spec (d + k * p) now) as [Hf|Hf].
  - assert (expirations d p now = k + (1 + (now - (d + k * p)) / p)) as He.
    { unfold expirations. rewrite (proj2 (Z.leb_le d now)) by nia.
      replace (now - d) with ((now - (d + k * p)) + k * p) by lia. rewrite Z.div_add by lia. lia. }
    pose proof (Z.div_pos (now - (d + k * p)) p). rewrite Z.max_r by lia. unfold sat_sub. rewrite Z.max_r by lia.
    set (n := 1 + (now - (d + k * p)) / p) in *. unfold sat_add64, u64, u64_MAX.
    rewrite wrap_small by (unfold is_u; nia). rewrite !Z.min_l by nia. rewrite He. f_equal; lia.
  - assert (expirations d p now ≤ k) as He.
    { unfold expirations. destruct (Z.leb_spec d now); [|lia]. apply Z.lt_pred_le.
      assert ((now - d) / p < k); [|lia]. apply Z.div_lt_upper_bound; nia. }
    rewrite Z.max_l by lia. f_equal. lia.
Qed.

Lemma wake_timers s f : TIMERFD_TABLE (epoll_wake s f).1 = TIMERFD_TABLE s.
Proof. unfold epoll_wake. by destruct (watching s [f]). Qed.

Lemma wake_each_timers fds s : TIMERFD_TABLE (wake_each s fds).1 = TIMERFD_TABLE s.
Proof.
  revert s. induction fds as [|f fds IH]; intros s; cbn; [done|]. pose proof (wake_timers s f) as H.
  destruct (epoll_wake s f) as [s1 l]. specialize (IH s1). destruct (wake_each s1 fds). cbn in *. congruence.
Qed.

(** What holds of a timer and is kept by [expire] is kept by a scan. *)
Lemma collect_timer (P : TimerState → Prop) f pipe now entries mx out :
  (∀ t, P t → P (expire now t)) → ∀ s m count,
  (∃ t, TIMERFD_TABLE s !! f = Some t ∧ P t) →
  ∃ t, TIMERFD_TABLE (collect_loop pipe now entries mx out s m count).1.1 !! f = Some t ∧ P t.
Proof.
  intros HP. induction entries as [|e entries IH]; intros s m count Ht; cbn; [done|].
  destruct (mx <=? count); [done|]. destruct (TIMERFD_TABLE s !! fd e) as [ts|] eqn:E.
  - assert (∃ t, TIMERFD_TABLE (set_timers s (<[fd e := expire now ts]> (TIMERFD_TABLE s))) !! f = Some t ∧ P t) as H.
    { cbn. destruct (decide (fd e = f)) as [<-|Hne].
      - rewrite lookup_insert_eq. exists (expire now ts). destruct Ht as (t & Ht & HPt). split; [done|]. apply HP. congruence.
      - by rewrite lookup_insert_ne. }
    by destruct (0 <? pending (expire now ts)); apply IH.
  - by destruct (_ || _); apply IH.
Qed.

(** The timer has counted [k] expirations, [q] of them not read yet. *)
Definition counted (now total : Z) (t : TimerState) : Prop :=
  ∃ k q, t = at_index k q ∧ 0 ≤ q ≤ k ∧ total + q = k ∧ k ≤ expirations d p now.

Lemma counted_later now now' total t : now ≤ now' → counted now total t → counted now' total t.
Proof.
  intros H (k & q & -> & Hq & Ht & Hk). exists k, q. split_and!; try (done || lia). pose proof (expirations_mono now now' H). lia.
Qed.

Lemma counted_expire now total t :
  0 ≤ now < 2 ^ 62 → counted now total t →
  counted now total (expire now t) ∧ total + pending (expire now t) = expirations d p now ∧ 0 ≤ pending (expire now t) ≤ 2 ^ 62.
Proof.
  intros Hn (k & q & -> & Hq & Ht & Hk). destruct (expirations_bound now Hn) as [H1 H2].
  rewrite expire_index by (try done; nia). rewrite Z.max_r by lia. cbn. split; [|lia].
  exists (expirations d p now), (q + (expirations d p now - k)). split_and!; (done || lia).
Qed.

Lemma run_call_counted f now c s m total t :
  0 ≤ now < 2 ^ 62 → TIMERFD_TABLE s !! f = Some t → counted now total t →
  ∃ t' s' m' total', run_call f now c (s, m, total) = (s', m', total') ∧
    TIMERFD_TABLE s' !! f = Some t' ∧ counted now total' t' ∧
    (∀ g buf len, c = Read g buf len → u32 g = f → 8 ≤ len → total' = expirations d p now).
Proof.
  intros Hn Ht Hc. destruct c as [|pipe epfd out mx|g buf len]; cbn [run_call].
  - eexists _, _, _, _. split; [done|]. unfold check_timerfds_and_wake. rewrite wake_each_timers. cbn.
    rewrite lookup_fmap, Ht. split; [done|]. split; [by apply counted_expire|done].
  - unfold epoll_collect_ready. destruct (_ || _); [by eexists _, _, _, _|].
    destruct (EPOLL_TABLE s !! epfd) as [entries|]; [|by eexists _, _, _, _].
    destruct (collect_timer (counted now total) f pipe now entries mx out) with (s := s) (m := m) (count := 0) as (t' & Ht' & Hc').
    + intros t0 H0. by apply counted_expire.
    + by exists t.
    + destruct (collect_loop _ _ _ _ _ _ _ _) as [[s' m'] r]. by eexists _, _, _, _.
  - unfold read_synth. destruct (Z.eq_dec (u32 g) f) as [Hg|Hg].
    + rewrite Hg, Ht, Z.eqb_refl. destruct (Z.ltb_spec len 8).
      * eexists _, _, _, _. split; [done|]. split; [done|]. split; [done|]. intros ? ? ? [= <- <- <-]. lia.
      * destruct (counted_expire now total t Hn Hc) as (Hc' & Hsum & Hb). destruct (Z.ltb_spec 0 (pending (expire now t))).
        -- eexists _, _, _, _. split; [done|]. cbn [TIMERFD_TABLE set_timers]. rewrite lookup_insert_eq. split; [done|].
           cbn [andb]. change (8 =? 8) with true. cbn iota. rewrite read_write_word by (unfold is_u; lia).
           split; [|intros; lia]. destruct Hc' as (k & q & E & Hq & Hk & Hle). rewrite E in *. cbn in *.
           exists k, 0. split_and!; (done || lia).
        -- eexists _, _, _, _. split; [done|]. cbn. rewrite lookup_insert_eq. split; [done|]. split; [done|]. intros; lia.
    + rewrite (proj2 (Z.eqb_neq _ _) Hg). cbn [andb].
      destruct (TIMERFD_TABLE s !! u32 g) as [ts|]; [|destruct (EVENTFD_TABLE s !! u32 g)]; repeat case_match; simplify_eq;
        (eexists _, _, _, _; split; [done|]; cbn; rewrite ?lookup_insert_ne by done; split; [done|]; split; [done|]; naive_solver).
Qed.
End periodic.

Lemma run_calls_counted d p f cs T :
  0 < d < 2 ^ 62 → 0 < p < 2 ^ 62 → ∀ now0 s m total t,
  StronglySorted Z.le (now0 :: cs.*1) → Forall (λ x, 0 ≤ x < 2 ^ 62 ∧ x ≤ T) (now0 :: cs.*1) →
  TIMERFD_TABLE s !! f = Some t → counted d p now0 total t →
  ∃ t' s' m' total', run_calls f cs (s, m, total) = (s', m', total') ∧ TIMERFD_TABLE s' !! f = Some t' ∧
    counted d p T total' t'.
Proof.
  intros Hd Hp. induction cs as [|[now c] cs IH]; intros now0 s m total t Hs Hb Ht Hc; cbn [run_calls foldl].
  { apply Forall_cons in Hb as [[_ Hb] _]. exists t, s, m, total. split_and!; try done. by apply (counted_later d p Hp now0). }
  cbn in Hs, Hb. apply StronglySorted_cons in Hs as [Hle Hs]. apply Forall_cons in Hle as [Hle _].
  apply Forall_cons in Hb as [_ Hb]. pose proof Hb as Hb'. apply Forall_cons in Hb' as [[Hn _] _].
  destruct (run_call_counted d p Hd Hp f now c s m total t) as (t1 & s1 & m1 & total1 & E & Ht1 & Hc1 & _);
    [done|done|by apply (counted_later d p Hp now0)|].
  cbn [fst snd]. rewrite E. by apply (IH now s1 m1 total1 t1).
Qed.

(** C21: A timer armed for [d] with period [p] counts exactly: whatever checks of all
    timers, epoll scans and reads of descriptors come before, at times that do
    not go back, a read at [now] leaves the sum of all counts read from the timer
    at the number of expirations up to [now]. *)
Theorem timer_counts_expirations f d p s m cs now g buf len :
  0 < d < 2 ^ 62 → 0 < p < 2 ^ 62 → u32 g = f → 8 ≤ len → TIMERFD_TABLE s !! f = Some (mkTimer d p 0) →
  StronglySorted Z.le (0 :: cs.*1) → Forall (λ x, 0 ≤ x ≤ now) cs.*1 → 0 ≤ now < 2 ^ 62 →
  (run_calls f (cs ++ [(now, Read g buf len)]) (s, m, 0)).2 = expirations d p now.
Proof.
  intros Hd Hp Hg Hlen Ht Hs Hb Hn. unfold run_calls. rewrite foldl_app. fold (run_calls f cs (s, m, 0)).
  destruct (run_calls_counted d p f cs now Hd Hp 0 s m 0 (mkTimer d p 0)) as (t' & s' & m' & total' & -> & Ht' & Hc'); try done.
  - constructor; [lia|]. eapply Forall_impl; [exact Hb|]. cbn. lia.
  - exists 0, 0. unfold at_index. rewrite Z.mul_0_l, Z.add_0_r. pose proof (expirations_bound d p Hd Hp 0). split_and!; (done || lia).
  - cbn [foldl fst snd]. destruct (run_call_counted d p Hd Hp f now (Read g buf len) s' m' total' t' Hn Ht' Hc')
      as (t2 & s2 & m2 & total2 & -> & _ & _ & H). cbn. by apply (H g buf len).
Qed.

(** ** Witness: a timer of 10 ms, looked at early, late, and read twice *)

Definition sample_timer : State :=
  set_timers State_new {[ 64 := mkTimer 100000000 10000000 0 ]}.

Lemma timer_witness :
  (run_calls 64 ([(90000000, Check); (105000000, Check); (125000000, Read 64 0x20000 8)] ++ [(170000000, Read 64 0x20000 8)])
     (sample_timer, λ _, 0, 0)).2 = 8.
Proof.
  rewrite (timer_counts_expirations 64 100000000 10000000 sample_timer (λ _, 0)
    [(90000000, Check); (105000000, Check); (125000000, Read 64 0x20000 8)] 170000000 64 0x20000 8).
  - vm_compute. reflexivity.
  - lia.
  - lia.
  - reflexivity.
  - lia.
  - reflexivity.
  - cbn. repeat (apply SSorted_cons || apply SSorted_nil); repeat (apply Forall_cons; split); first [lia|apply Forall_nil; done].
  - cbn. repeat (apply Forall_cons; split); first [lia|apply Forall_nil; done].
  - lia.
Defined.
End Poll.
