(* ===== verification/EpollWait.v ===== *)
(** * Waiting for events on several processors ([syscall/poll.rs])

    [sys_epoll_wait_real] enters the thread into the table of waiting threads,
    marks it as blocked, scans the descriptors and gives the processor away;
    [eventfd_write] counts, looks for the epoll sets that watch the counter,
    takes the waiting threads out of the table and wakes them.  Each of these is
    a step of its own here, because the locks are released in between.

    [epoll_no_lost_wakeup] holds in all interleavings in which no thread is
    taken out of the table between being entered and being marked, as on one
    processor, for calls with room for events; [epoll_lost_wakeup] shows that it
    fails in that window, [epoll_without_room_waits] without room. *)

From Stdlib Require Import ZArith Lia.
From stdpp Require Import base numbers strings option relations list gmap sorting functions.
From S2P Require Import Prelude CString Poll.

Local Open Scope Z_scope.

Module EpollWait.
Import Poll.

(** ** Threads *)

(** The arguments of a call of [epoll_wait]. *)
Record wait_args := mkWait { epfd : Z; events_out : Z; maxevents : Z }.

(** Without a buffer or without room for an event [epoll_collect_ready] looks at
    nothing. *)
Definition has_room (a : wait_args) : bool := negb ((events_out a =? 0) || (maxevents a <=? 0)).

(** A thread in [epoll_wait]: entered into the table; marked as blocked;
    scanning, with the entries left and the events found; taking itself out
    again; out of the table; given the processor to another thread, to run the
    call again when it is woken.  A thread that finds no other to run halts
    until the next interrupt and enters the table again. *)
Inductive waiting :=
| Elsewhere
| Entered (a : wait_args)
| Marked (a : wait_args)
| Scanning (a : wait_args) (todo : list EpollEntry) (count : Z)
| Leaving (a : wait_args)
| Left
| Parked (a : wait_args).

(** A thread in [eventfd_write]: has counted; knows the sets; has the threads
    to wake. *)
Inductive writing :=
| Idle
| Counted (f : Z)
| Watched (epfds : list Z)
| Waking (pids : list Z).

(** [blocked p]: the state of process [p] is [Blocked]. *)
Record World := mkWorld { poll : State; blocked : Z → bool; waits : Z → waiting; writes : Z → writing }.

Definition set_poll (w : World) (s : State) : World := mkWorld s (blocked w) (waits w) (writes w).
Definition set_waits (w : World) (p : Z) (x : waiting) : World := mkWorld (poll w) (blocked w) (<[p := x]> (waits w)) (writes w).
Definition set_writes (w : World) (n : Z) (x : writing) : World := mkWorld (poll w) (blocked w) (waits w) (<[n := x]> (writes w)).
Definition set_state (w : World) (p : Z) (b : bool) : World := mkWorld (poll w) (<[p := b]> (blocked w)) (waits w) (writes w).

(** ** Steps of [sys_epoll_wait_real] *)

Definition enter_table (w : World) (cur : Z) (a : wait_args) : World :=
  set_waits (set_poll w (set_blocked (poll w) (<[cur := epfd a]> (EPOLL_BLOCKED (poll w))))) cur (Entered a).

Definition mark (w : World) (cur : Z) (a : wait_args) : World := set_waits (set_state w cur true) cur (Marked a).

(** The scan copies the entries of the set, if there is room for events, and
    looks at them one by one. *)
Definition scan_start (w : World) (cur : Z) (a : wait_args) : World :=
  set_waits w cur
    (Scanning a (if has_room a then default [] (EPOLL_TABLE (poll w) !! epfd a) else []) 0).

(** The bytes of the events go to user memory, which is no part of the world. *)
Definition scan_one (pipe : Z → bool) (now : Z) (w : World) (cur : Z) (a : wait_args) (e : EpollEntry)
    (todo : list EpollEntry) (count : Z) : World :=
  let '(s, _, count') := collect_loop pipe now [e] (maxevents a) (events_out a) (poll w) (λ _, 0) count in
  set_waits (set_poll w s) cur (Scanning a todo count').

Definition leave_table (w : World) (cur : Z) : World :=
  set_waits (set_poll w (set_blocked (poll w) (delete cur (EPOLL_BLOCKED (poll w))))) cur Left.

Definition return_events (w : World) (cur : Z) : World := set_waits (set_state w cur false) cur Elsewhere.

(** ** Steps of [eventfd_write] and [epoll_wake] *)

Definition after_watching (w : World) (n f : Z) : World :=
  set_writes w n (match watching (poll w) [f] with [] => Idle | epfds => Watched epfds end).

Definition after_release (w : World) (n : Z) (epfds : list Z) : World :=
  let '(s, pids) := release (poll w) epfds in set_writes (set_poll w s) n (Waking pids).

(** [wake_process] makes a blocked process runnable and does nothing to another. *)
Definition wake_one (w : World) (n p : Z) (rest : list Z) : World := set_writes (set_state w p false) n (Waking rest).

(** ** Histories *)

Definition readable (s : State) (f : Z) : bool :=
  negb (isSome (TIMERFD_TABLE s !! f)) && (0 <? default 0 (EVENTFD_TABLE s !! f)).

Definition watched (s : State) (epfd f : Z) : Prop := ∃ e, e ∈ default [] (EPOLL_TABLE s !! epfd) ∧ fd e = f.

(** [window] allows a thread to be taken out of the table between entering and
    marking.  [i_probe] is the first look of [epoll_wait], before the loop. *)
Inductive istep (window : bool) : World → World → Prop :=
| i_probe pipe now m w epfd out max s m' r :
    epoll_collect_ready pipe now (poll w) m epfd out max = (s, m', r) → istep window w (set_poll w s)
| i_enter w cur a : waits w cur = Elsewhere → istep window w (enter_table w cur a)
| i_mark w cur a : waits w cur = Entered a → istep window w (mark w cur a)
| i_scan w cur a : waits w cur = Marked a → istep window w (scan_start w cur a)
| i_scan_one pipe now w cur a e todo count :
    waits w cur = Scanning a (e :: todo) count → istep window w (scan_one pipe now w cur a e todo count)
| i_ready w cur a count :
    waits w cur = Scanning a [] count → 0 < count → istep window w (set_waits w cur (Leaving a))
| i_timeout w cur a count :
    waits w cur = Scanning a [] count → count <= 0 → istep window w (set_waits w cur (Leaving a))
| i_leave w cur a : waits w cur = Leaving a → istep window w (leave_table w cur)
| i_return w cur : waits w cur = Left → istep window w (return_events w cur)
| i_park w cur a count :
    waits w cur = Scanning a [] count → count <= 0 → istep window w (set_waits w cur (Parked a))
| i_again w cur a count :
    waits w cur = Scanning a [] count → count <= 0 → istep window w (enter_table w cur a)
| i_resume w cur a : waits w cur = Parked a → blocked w cur = false → istep window w (set_waits w cur Elsewhere)
| i_write w n f val s :
    writes w n = Idle → eventfd_add (poll w) f val = Some s → istep window w (set_writes (set_poll w s) n (Counted f))
| i_watch w n f : writes w n = Counted f → istep window w (after_watching w n f)
| i_release w n epfds :
    writes w n = Watched epfds →
    (window = false → ∀ p a, p ∈ (release (poll w) epfds).2 → waits w p ≠ Entered a) →
    istep window w (after_release w n epfds)
| i_wake w n p rest : writes w n = Waking (p :: rest) → istep window w (wake_one w n p rest)
| i_woken w n : writes w n = Waking [] → istep window w (set_writes w n Idle)
| i_other_wake w p : istep window w (set_state w p false)
| i_read now m w f buf len s m' r :
    read_synth now (poll w) m f buf len = Some (s, m', r) → istep window w (set_poll w s)
| i_ctl m w epfd op f p s r :
    sys_epoll_ctl_real m epfd op f p (poll w) = (s, r) → op = 2 ∨ readable (poll w) (u32 f) = false →
    istep window w (set_poll w s).

(** Nobody waits or writes at the start. *)
Definition start (s : State) : World := mkWorld (set_blocked s ∅) (λ _, false) (λ _, Elsewhere) (λ _, Idle).

(** ** The invariant *)

(** A write to [f] is on its way to the threads that wait on [epfd]. *)
Definition in_flight (w : World) (f epfd : Z) : Prop :=
  ∃ n, writes w n = Counted f ∨ ∃ epfds, writes w n = Watched epfds ∧ epfd ∈ epfds.

Definition to_be_woken (w : World) (p : Z) : Prop := ∃ n pids, writes w n = Waking pids ∧ p ∈ pids.

(** The thread is in the table, and every readable counter of its set is yet to
    be scanned or its writer is on the way. *)
Definition attended (w : World) (p epfd : Z) (todo : list Z) : Prop :=
  EPOLL_BLOCKED (poll w) !! p = Some epfd ∧
  ∀ f, watched (poll w) epfd f → readable (poll w) f = true → f ∈ todo ∨ in_flight w f epfd.

Definition safe (w : World) (p epfd : Z) (todo : list Z) : Prop :=
  attended w p epfd todo ∨ to_be_woken w p ∨ blocked w p = false.

Definition wait_ok (w : World) (p : Z) : Prop :=
  match waits w p with
  | Entered a => EPOLL_BLOCKED (poll w) !! p = Some (epfd a)
  | Marked a => EPOLL_BLOCKED (poll w) !! p = Some (epfd a) ∨ to_be_woken w p ∨ blocked w p = false
  | Scanning a todo count => 0 <= count ∧ (has_room a = true → count <= 0 → safe w p (epfd a) (fd <$> todo))
  | Parked a => has_room a = true → safe w p (epfd a) []
  | _ => True
  end.

(** ** What the steps of writers do *)

Lemma elem_of_keys {A} (m : gmap Z A) k : k ∈ keys m ↔ is_Some (m !! k).
Proof.
  unfold keys. rewrite merge_sort_Permutation, list_elem_of_fmap. split.
  - intros ([k' x] & -> & H). apply elem_of_map_to_list in H. by eexists.
  - intros [x Hx]. exists (k, x). split; [done|]. by apply elem_of_map_to_list.
Qed.

Lemma existsb_eqb l x : existsb (Z.eqb x) l = true ↔ x ∈ l.
Proof.
  rewrite existsb_exists. setoid_rewrite <- list_elem_of_In. split; [intros (y & Hy & E); by apply Z.eqb_eq in E as ->|].
  intros H. exists x. split; [done|apply Z.eqb_refl].
Qed.

Lemma watching_spec s f epfd : watched s epfd f → epfd ∈ watching s [f].
Proof.
  intros (e & He & Hf). unfold watching. apply list_elem_of_In, filter_In.
  destruct (EPOLL_TABLE s !! epfd) as [l|] eqn:E; [|by apply elem_of_nil in He]. split.
  - apply list_elem_of_In, elem_of_keys. by eexists.
  - apply existsb_exists. exists e. split; [by apply list_elem_of_In|]. apply existsb_eqb. rewrite Hf. by left.
Qed.

Lemma release_pids s epfds p : p ∈ (release s epfds).2 ↔ ∃ epfd, EPOLL_BLOCKED s !! p = Some epfd ∧ epfd ∈ epfds.
Proof.
  unfold release. cbn. rewrite list_elem_of_In, filter_In, <- list_elem_of_In, elem_of_keys. split.
  - intros [[epfd E] H]. rewrite E in H. exists epfd. split; [done|]. by apply existsb_eqb.
  - intros (epfd & E & H). split; [by eexists|]. rewrite E. by apply existsb_eqb.
Qed.

Lemma foldr_delete_lookup (l : list Z) (m : gmap Z Z) p : foldr (λ q m, delete q m) m l !! p = if decide (p ∈ l) then None else m !! p.
Proof.
  induction l as [|q l IH]; cbn; [by rewrite decide_False by apply not_elem_of_nil|].
  destruct (decide (p = q)) as [->|Hne].
  - rewrite lookup_delete_eq, decide_True; [done|by left].
  - rewrite lookup_delete_ne by done. rewrite IH. apply decide_ext. rewrite elem_of_cons. tauto.
Qed.

Lemma release_table s epfds p epfd :
  EPOLL_BLOCKED s !! p = Some epfd → epfd ∉ epfds → EPOLL_BLOCKED (release s epfds).1 !! p = Some epfd.
Proof.
  intros E Hn. unfold release. cbn. rewrite foldr_delete_lookup, decide_False; [done|].
  intros H. apply (release_pids s epfds) in H as (epfd' & E' & Hin). congruence.
Qed.

(** Changing a thread or a writer other than the one in question. *)
Lemma in_flight_other w w' n f epfd :
  (∀ n', n' ≠ n → writes w' n' = writes w n') → in_flight w f epfd →
  (in_flight w' f epfd ∨ writes w n = Counted f ∨ ∃ epfds, writes w n = Watched epfds ∧ epfd ∈ epfds).
Proof.
  intros H (n' & Hn'). destruct (decide (n' = n)) as [->|Hne]; [tauto|]. left. exists n'. by rewrite H.
Qed.

Lemma to_be_woken_other w w' n p :
  (∀ n', n' ≠ n → writes w' n' = writes w n') → to_be_woken w p →
  to_be_woken w' p ∨ ∃ pids, writes w n = Waking pids ∧ p ∈ pids.
Proof.
  intros H (n' & pids & Hn' & Hp). destruct (decide (n' = n)) as [->|Hne]; [right; by exists pids|].
  left. exists n', pids. by rewrite H.
Qed.

(** What a step has to keep for a thread it does not move. *)
Record keeps (w w' : World) (p : Z) : Prop := {
  k_table : ∀ epfd, EPOLL_BLOCKED (poll w) !! p = Some epfd → EPOLL_BLOCKED (poll w') !! p = Some epfd;
  k_readable : ∀ epfd f, watched (poll w') epfd f → readable (poll w') f = true →
    watched (poll w) epfd f ∧ readable (poll w) f = true ∨ in_flight w' f epfd;
  k_flight : ∀ epfd f, watched (poll w) epfd f → in_flight w f epfd → in_flight w' f epfd;
  k_woken : to_be_woken w p → to_be_woken w' p ∨ blocked w' p = false;
  k_running : blocked w p = false → blocked w' p = false
}.

Lemma keeps_safe w w' p epfd todo : keeps w w' p → safe w p epfd todo → safe w' p epfd todo.
Proof.
  intros [Kt Kr Kf Kw Kb] [[Ht Ha]|[Hw|Hb]]; [left|destruct (Kw Hw); [by right; left|by right; right]|by right; right; auto].
  split; [by apply Kt|]. intros f Hf Hr. destruct (Kr _ _ Hf Hr) as [[Hf0 Hr0]|]; [|by right].
  destruct (Ha _ Hf0 Hr0); [by left|right]. by apply Kf.
Qed.

Lemma keeps_ok w w' p : waits w' p = waits w p → keeps w w' p → wait_ok w p → wait_ok w' p.
Proof.
  intros Hw HK. unfold wait_ok. rewrite Hw. destruct (waits w p) as [|a|a|a todo count|a| |a]; try done.
  - apply HK.
  - intros [Ht|[Hp|Hb]]; [left; by apply HK|destruct (k_woken _ _ _ HK Hp); tauto|right; right; by apply HK].
  - intros [H0 H]. split; [done|]. intros Hm Hc. by apply (keeps_safe w), H.
  - intros H Hm. by apply (keeps_safe w), H.
Qed.

(** Steps that leave the tables, the writers and the states as they are. *)
Lemma keeps_same w w' p :
  poll w' = poll w → blocked w' p = blocked w p → writes w' = writes w → keeps w w' p.
Proof.
  intros Hp Hb Hw. split; unfold in_flight, to_be_woken; rewrite ?Hp, ?Hb, ?Hw; tauto.
Qed.

(** Steps that change the tables only. *)
Lemma keeps_tables w s p :
  (∀ epfd, EPOLL_BLOCKED (poll w) !! p = Some epfd → EPOLL_BLOCKED s !! p = Some epfd) →
  (∀ epfd f, watched s epfd f → readable s f = true → watched (poll w) epfd f ∧ readable (poll w) f = true) →
  keeps w (set_poll w s) p.
Proof. intros Ht Hr. split; cbn; [done|intros; left; auto|done|tauto|done]. Qed.

Lemma keeps_waits w w' cur x p : keeps w w' p → keeps w (set_waits w' cur x) p.
Proof. intros [A B C D E]. by split. Qed.

Lemma waits_same w cur x p : p ≠ cur → waits (set_waits w cur x) p = waits w p.
Proof. intros H. cbn. by rewrite fn_lookup_insert_ne. Qed.

Lemma waits_new w cur x : waits (set_waits w cur x) cur = x.
Proof. cbn. by rewrite fn_lookup_insert. Qed.

Lemma wait_ok_new w cur x :
  (match x with
   | Entered a => EPOLL_BLOCKED (poll w) !! cur = Some (epfd a)
   | Marked a => EPOLL_BLOCKED (poll w) !! cur = Some (epfd a) ∨ to_be_woken w cur ∨ blocked w cur = false
   | Scanning a todo count => 0 <= count ∧ (has_room a = true → count <= 0 → safe w cur (epfd a) (fd <$> todo))
   | Parked a => has_room a = true → safe w cur (epfd a) []
   | _ => True
   end) → wait_ok (set_waits w cur x) cur.
Proof. intros H. unfold wait_ok. rewrite waits_new. exact H. Qed.

(** ** Steps of waiting threads *)

(** A scan changes timers only, and none of the counters. *)
Definition same_sets (s s' : State) : Prop :=
  EPOLL_BLOCKED s' = EPOLL_BLOCKED s ∧ EPOLL_TABLE s' = EPOLL_TABLE s ∧ ∀ f, readable s' f = readable s f.

Lemma expire_same now e ts s :
  TIMERFD_TABLE s !! fd e = Some ts → same_sets s (set_timers s (<[fd e := expire now ts]> (TIMERFD_TABLE s))).
Proof.
  intros E. split_and!; [done|done|]. intros f. unfold readable. cbn.
  destruct (decide (f = fd e)) as [->|Hne]; [by rewrite lookup_insert_eq, E|by rewrite lookup_insert_ne].
Qed.

Lemma same_sets_trans s1 s2 s3 : same_sets s1 s2 → same_sets s2 s3 → same_sets s1 s3.
Proof.
  intros (A1 & A2 & A3) (B1 & B2 & B3). split_and!; [congruence|congruence|]. intros f. by rewrite B3, A3.
Qed.

Lemma collect_loop_same pipe now l max out s m count :
  same_sets s (collect_loop pipe now l max out s m count).1.1.
Proof.
  revert s m count. induction l as [|e l IH]; intros s m count; cbn [collect_loop]; [done|].
  case_if; [done|]. destruct (TIMERFD_TABLE s !! fd e) as [ts|] eqn:Ets.
  - pose proof (expire_same now e ts s Ets). case_if; (eapply same_sets_trans; [done|apply IH]).
  - case_if; apply IH.
Qed.

(** A readable counter is found when there is room. *)
Lemma collect_one pipe now e max out s m count :
  0 <= count →
  let r := collect_loop pipe now [e] max out s m count in
  0 <= r.2 ∧ (r.2 <= 0 → count <= 0 ∧ (count < max → readable s (fd e) = false)).
Proof.
  intros H0. cbn. unfold readable. destruct (Z.leb_spec max count); [cbn; split; [done|]; intros; split; lia|].
  destruct (TIMERFD_TABLE s !! fd e) as [ts|]; cbn [isSome negb andb].
  - destruct (0 <? pending (expire now ts)); cbn; (split; [lia|intros; split; [lia|done]]).
  - destruct (Z.ltb_spec 0 (default 0 (EVENTFD_TABLE s !! fd e))); cbn; [split; lia|].
    destruct (pipe (fd e)); cbn; (split; [lia|intros; split; [lia|done]]).
Qed.

Lemma keeps_same_sets w s p : same_sets (poll w) s → keeps w (set_poll w s) p.
Proof.
  intros (Hb & Ht & Hr). apply keeps_tables; [by rewrite Hb|]. unfold watched. intros epfd' f. rewrite Ht, Hr. done.
Qed.

Lemma scan_one_ok pipe now w cur a e todo count :
  waits w cur = Scanning a (e :: todo) count → (∀ p, wait_ok w p) → ∀ p, wait_ok (scan_one pipe now w cur a e todo count) p.
Proof.
  intros Hcur Hok p. unfold scan_one. pose proof (Hok cur) as Hc. unfold wait_ok in Hc. rewrite Hcur in Hc.
  destruct Hc as [H0 Hsafe].
  pose proof (collect_loop_same pipe now [e] (maxevents a) (events_out a) (poll w) (λ _, 0) count) as Hs.
  destruct (collect_one pipe now e (maxevents a) (events_out a) (poll w) (λ _, 0) count H0) as [H0' Hfound].
  destruct (collect_loop _ _ _ _ _ _ _ _) as [[s m] count']. cbn [fst snd] in *.
  assert (∀ q, keeps w (set_poll w s) q) as HK by (intros q; by apply keeps_same_sets).
  destruct (decide (p = cur)) as [->|Hne].
  - apply wait_ok_new. split; [done|]. intros Hm Hc'. destruct (Hfound Hc') as [Hc Hnr].
    destruct (keeps_safe _ _ _ _ _ (HK cur) (Hsafe Hm Hc)) as [[H1 H2]|H]; [left|by right].
    split; [done|]. intros f Hf Hrf. destruct (H2 f Hf Hrf) as [Hin|]; [|by right].
    cbn in Hin. apply elem_of_cons in Hin as [->|Hin]; [|by left]. exfalso.
    destruct Hs as (_ & _ & Hr). cbn in Hrf. rewrite Hr, Hnr in Hrf; [done|].
    unfold has_room in Hm. lia.
  - apply (keeps_ok w); [by rewrite waits_same|by apply keeps_waits|done].
Qed.

Lemma probe_ok pipe now m w epfd out max s m' r :
  epoll_collect_ready pipe now (poll w) m epfd out max = (s, m', r) → (∀ p, wait_ok w p) →
  ∀ p, wait_ok (set_poll w s) p.
Proof.
  intros H Hok p. apply (keeps_ok w); [done| |done]. apply keeps_same_sets. unfold epoll_collect_ready in H.
  case_if_in H; [by injection H as <- _|]. destruct (EPOLL_TABLE (poll w) !! epfd) as [l|]; [|by injection H as <- _].
  pose proof (collect_loop_same pipe now l max out (poll w) m 0) as Hs. by rewrite H in Hs.
Qed.

(** A step that moves [cur] and is harmless to the others. *)
Lemma move_ok w w' cur x :
  (∀ p, wait_ok w p) → waits w' = waits w → (∀ p, p ≠ cur → keeps w w' p) → wait_ok (set_waits w' cur x) cur →
  ∀ p, wait_ok (set_waits w' cur x) p.
Proof.
  intros Hok Hw HK Hcur p. destruct (decide (p = cur)) as [->|Hne]; [done|].
  apply (keeps_ok w); [by rewrite waits_same, Hw|by apply keeps_waits, HK|done].
Qed.

Lemma enter_ok w cur a : (∀ p, wait_ok w p) → ∀ p, wait_ok (enter_table w cur a) p.
Proof.
  intros Hok. apply (move_ok w); [done|done| |].
  - intros p Hne. apply keeps_tables; [|done]. cbn. intros epfd'. by rewrite lookup_insert_ne.
  - apply wait_ok_new. cbn. apply lookup_insert_eq.
Qed.

Lemma leave_ok w cur : (∀ p, wait_ok w p) → ∀ p, wait_ok (leave_table w cur) p.
Proof.
  intros Hok. apply (move_ok w); [done|done| |by apply wait_ok_new].
  intros p Hne. apply keeps_tables; [|done]. cbn. intros epfd'. by rewrite lookup_delete_ne.
Qed.

Lemma mark_ok w cur a : waits w cur = Entered a → (∀ p, wait_ok w p) → ∀ p, wait_ok (mark w cur a) p.
Proof.
  intros Hcur Hok. apply (move_ok w); [done|done| |].
  - intros p Hne. apply keeps_same; [done| |done]. cbn. by rewrite fn_lookup_insert_ne.
  - apply wait_ok_new. left. specialize (Hok cur). unfold wait_ok in Hok. by rewrite Hcur in Hok.
Qed.

Lemma scan_start_ok w cur a : waits w cur = Marked a → (∀ p, wait_ok w p) → ∀ p, wait_ok (scan_start w cur a) p.
Proof.
  intros Hcur Hok. apply (move_ok w); [done|done|intros p _; by apply keeps_same|].
  apply wait_ok_new. specialize (Hok cur). unfold wait_ok in Hok. rewrite Hcur in Hok. split; [done|].
  intros -> _. destruct Hok as [Ht|H]; [left|by right]. split; [done|]. intros f (e & He & <-) _. left. by apply list_elem_of_fmap_2.
Qed.

Lemma return_ok w cur : (∀ p, wait_ok w p) → ∀ p, wait_ok (return_events w cur) p.
Proof.
  intros Hok. apply (move_ok w); [done|done| |by apply wait_ok_new].
  intros p Hne. apply keeps_same; [done| |done]. cbn. by rewrite fn_lookup_insert_ne.
Qed.

(** ** Steps of writers *)

Lemma writes_other w n x n' : n' ≠ n → writes (set_writes w n x) n' = writes w n'.
Proof. intros H. cbn. by rewrite fn_lookup_insert_ne. Qed.

Lemma writes_new w n x : writes (set_writes w n x) n = x.
Proof. cbn. by rewrite fn_lookup_insert. Qed.

Lemma write_ok w n f val s :
  writes w n = Idle → eventfd_add (poll w) f val = Some s → (∀ p, wait_ok w p) →
  ∀ p, wait_ok (set_writes (set_poll w s) n (Counted f)) p.
Proof.
  intros Hn Hs Hok p. set (w' := set_writes _ _ _). assert (∀ n', n' ≠ n → writes w' n' = writes w n') as Hw
    by (intros n' Hn'; exact (fn_lookup_insert_ne _ _ _ _ (not_eq_sym Hn'))).
  unfold eventfd_add in Hs. destruct (EVENTFD_TABLE (poll w) !! f) as [c|] eqn:E; [|done]. injection Hs as <-.
  apply (keeps_ok w); [done| |done]. split.
  - done.
  - intros epfd f' Hf Hr. destruct (decide (f' = f)) as [->|Hne].
    + right. exists n. left. apply writes_new.
    + left. split; [done|]. unfold readable in *. cbn in Hr. by rewrite lookup_insert_ne in Hr by done.
  - intros epfd f' _ H. apply (in_flight_other w w' n) in H as [|[H|(l & H & _)]]; [done|congruence|congruence|done].
  - intros H. apply (to_be_woken_other w w' n) in H as [|(l & H & _)]; [tauto|congruence|done].
  - done.
Qed.

Lemma watch_ok w n f : writes w n = Counted f → (∀ p, wait_ok w p) → ∀ p, wait_ok (after_watching w n f) p.
Proof.
  intros Hn Hok p. set (w' := after_watching w n f). assert (∀ n', n' ≠ n → writes w' n' = writes w n') as Hw
    by (intros n' Hn'; exact (fn_lookup_insert_ne _ _ _ _ (not_eq_sym Hn'))).
  apply (keeps_ok w); [done| |done]. split; [done|intros; by left| | |done].
  - intros epfd f' Hf H. apply (in_flight_other w w' n) in H as [|[H|(l & H & _)]]; [done| |congruence|done].
    rewrite Hn in H. injection H as <-. apply watching_spec in Hf. exists n. right. unfold w', after_watching.
    destruct (watching (poll w) [f]) as [|x l]; [by apply elem_of_nil in Hf|]. exists (x :: l). by rewrite writes_new.
  - intros H. apply (to_be_woken_other w w' n) in H as [|(l & H & _)]; [tauto|congruence|done].
Qed.

Lemma wake_ok w n p0 rest : writes w n = Waking (p0 :: rest) → (∀ p, wait_ok w p) → ∀ p, wait_ok (wake_one w n p0 rest) p.
Proof.
  intros Hn Hok p. set (w' := wake_one w n p0 rest). assert (∀ n', n' ≠ n → writes w' n' = writes w n') as Hw
    by (intros n' Hn'; exact (fn_lookup_insert_ne _ _ _ _ (not_eq_sym Hn'))).
  apply (keeps_ok w); [done| |done]. split; [done|intros; by left| | |].
  - intros epfd f' _ H. apply (in_flight_other w w' n) in H as [|[H|(l & H & _)]]; [done|congruence|congruence|done].
  - intros H. apply (to_be_woken_other w w' n) in H as [|(l & H & Hin)]; [tauto| |done].
    rewrite Hn in H. injection H as <-. apply elem_of_cons in Hin as [->|Hin].
    + right. cbn. by rewrite fn_lookup_insert.
    + left. exists n, rest. split; [apply writes_new|done].
  - intros Hb. cbn. destruct (decide (p = p0)) as [->|Hne]; [by rewrite fn_lookup_insert|by rewrite fn_lookup_insert_ne].
Qed.

Lemma woken_ok w n : writes w n = Waking [] → (∀ p, wait_ok w p) → ∀ p, wait_ok (set_writes w n Idle) p.
Proof.
  intros Hn Hok p. set (w' := set_writes w n Idle). assert (∀ n', n' ≠ n → writes w' n' = writes w n') as Hw
    by (intros n' Hn'; exact (fn_lookup_insert_ne _ _ _ _ (not_eq_sym Hn'))).
  apply (keeps_ok w); [done| |done]. split; [done|intros; by left| | |done].
  - intros epfd f' _ H. apply (in_flight_other w w' n) in H as [|[H|(l & H & _)]]; [done|congruence|congruence|done].
  - intros H. apply (to_be_woken_other w w' n) in H as [|(l & H & Hin)]; [tauto| |done].
    rewrite Hn in H. injection H as <-. by apply elem_of_nil in Hin.
Qed.

(** Taking threads out of the table: those are woken next. *)
Lemma release_ok w n epfds :
  writes w n = Watched epfds → (∀ p a, p ∈ (release (poll w) epfds).2 → waits w p ≠ Entered a) →
  (∀ p, wait_ok w p) → ∀ p, wait_ok (after_release w n epfds) p.
Proof.
  intros Hn Hwin Hok p. unfold after_release.
  pose proof (release_pids (poll w) epfds) as Hp. pose proof (release_table (poll w) epfds) as Ht.
  assert (EPOLL_TABLE (release (poll w) epfds).1 = EPOLL_TABLE (poll w) ∧
    ∀ f, readable (release (poll w) epfds).1 f = readable (poll w) f) as [He Hr] by done.
  destruct (release (poll w) epfds) as [s pids]. cbn [fst snd] in *. set (w' := set_writes _ _ _).
  assert (∀ n', n' ≠ n → writes w' n' = writes w n') as Hw
    by (intros n' Hn'; exact (fn_lookup_insert_ne _ _ _ _ (not_eq_sym Hn'))).
  destruct (decide (p ∈ pids)) as [Hin|Hout].
  - assert (to_be_woken w' p) as Hwk by (exists n, pids; split; [apply writes_new|done]).
    unfold wait_ok. change (waits w' p) with (waits w p). specialize (Hwin p). specialize (Hok p). unfold wait_ok in Hok.
    destruct (waits w p) as [|a|a|a todo count|a| |a]; try done; [by destruct (Hwin a)|right; by left| |].
    + split; [apply Hok|]. intros _ _. right. by left.
    + intros _. right. by left.
  - assert (∀ epfd, EPOLL_BLOCKED (poll w) !! p = Some epfd → epfd ∉ epfds) as Hnot.
    { intros epfd E Hin. apply Hout, Hp. by exists epfd. }
    assert (∀ f epfd, EPOLL_BLOCKED (poll w) !! p = Some epfd → in_flight w f epfd → in_flight w' f epfd) as Hfl.
    { intros f epfd E H. apply (in_flight_other w w' n) in H as [|[H|(l & H & Hin)]]; [done|congruence| |done].
      rewrite Hn in H. injection H as <-. by destruct (Hnot _ E). }
    assert (to_be_woken w p → to_be_woken w' p) as Hwk.
    { intros H. apply (to_be_woken_other w w' n) in H as [|(l & H & _)]; [done|congruence|done]. }
    assert (∀ epfd todo, safe w p epfd todo → safe w' p epfd todo) as Hsafe.
    { intros epfd todo [[H1 H2]|[H|H]]; [left|right; left; auto|by right; right]. split; [cbn; by apply Ht; [|apply Hnot]|].
      intros f Hf Hrf. cbn in Hrf. rewrite Hr in Hrf. unfold watched in Hf. cbn in Hf. rewrite He in Hf.
      destruct (H2 f Hf Hrf); [by left|right; by apply Hfl]. }
    specialize (Hok p). unfold wait_ok in *. change (waits w' p) with (waits w p).
    destruct (waits w p) as [|a|a|a todo count|a| |a]; try done; [by apply Ht; [|apply Hnot]|..].
    + destruct Hok as [H|[H|H]]; [left; by apply Ht; [|apply Hnot]|right; left; auto|by right; right].
    + split; [apply Hok|]. intros Hm Hc. by apply Hsafe, Hok.
    + intros Hm. by apply Hsafe, Hok.
Qed.

(** ** Reads and changes of a set *)

Lemma read_ok now m w f buf len s m' r :
  read_synth now (poll w) m f buf len = Some (s, m', r) → (∀ p, wait_ok w p) → ∀ p, wait_ok (set_poll w s) p.
Proof.
  intros H Hok p. apply (keeps_ok w); [done| |done].
  assert (EPOLL_BLOCKED s = EPOLL_BLOCKED (poll w) ∧ EPOLL_TABLE s = EPOLL_TABLE (poll w) ∧
    ∀ g, readable s g = true → readable (poll w) g = true) as (Hb & Ht & Hr).
  { unfold read_synth in H. destruct (TIMERFD_TABLE (poll w) !! u32 f) as [ts|] eqn:E.
    - assert (∀ t g, readable (set_timers (poll w) (<[u32 f := t]> (TIMERFD_TABLE (poll w)))) g = true → readable (poll w) g = true) as Hg.
      { intros t g. unfold readable. cbn. destruct (decide (g = u32 f)) as [->|Hne]; [by rewrite lookup_insert_eq|by rewrite lookup_insert_ne]. }
      repeat case_match; simplify_eq; (split_and!; [done|done|done || apply Hg]).
    - destruct (EVENTFD_TABLE (poll w) !! u32 f) as [c|]; [|done]. repeat case_match; simplify_eq; (split_and!; [done|done|try done]).
      intros g. unfold readable. cbn. destruct (decide (g = u32 f)) as [->|Hne]; [|by rewrite lookup_insert_ne].
      rewrite lookup_insert_eq. cbn. by rewrite andb_false_r. }
  apply keeps_tables; [by rewrite Hb|]. unfold watched. intros epfd g. rewrite Ht. auto.
Qed.

Lemma update_first_fd f ev d l l' e :
  update_first (λ e, fd e =? f) (λ e, mkEntry (fd e) ev d) l = Some l' → e ∈ l' → ∃ e0, e0 ∈ l ∧ fd e0 = fd e.
Proof.
  revert l'. induction l as [|x l IH]; intros l'; cbn; [done|]. destruct (fd x =? f).
  - intros [= <-] He. apply elem_of_cons in He as [->|He]; [exists x; split; [left|done]|]. exists e. split; [by right|done].
  - destruct (update_first _ _ l) as [l1|]; [|done]. intros [= <-] He. apply elem_of_cons in He as [->|He].
    + exists x. split; [left|done].
    + destruct (IH _ eq_refl He) as (e0 & H0 & Hf). exists e0. split; [by right|done].
Qed.

Lemma ctl_ok m w epfd op f ptr s r :
  sys_epoll_ctl_real m epfd op f ptr (poll w) = (s, r) → op = 2 ∨ readable (poll w) (u32 f) = false →
  (∀ p, wait_ok w p) → ∀ p, wait_ok (set_poll w s) p.
Proof.
  intros H Hop Hok p. apply (keeps_ok w); [done| |done].
  assert (∃ l, s = set_epolls (poll w) (<[u32 epfd := l]> (EPOLL_TABLE (poll w))) ∧
    ∀ e, e ∈ l → (∃ e0, e0 ∈ default [] (EPOLL_TABLE (poll w) !! u32 epfd) ∧ fd e0 = fd e) ∨ (fd e = u32 f ∧ op ≠ 2)) as (l & -> & Hl).
  { unfold sys_epoll_ctl_real in H. destruct (Z.eqb_spec op 2) as [Ho|Ho].
    - injection H as <- _. eexists. split; [done|]. intros e He. left. exists e. split; [|done].
      apply list_elem_of_In in He. apply filter_In in He as [He _]. by apply list_elem_of_In.
    - destruct (_ || _); [|injection H as <- _; eexists; split; [done|]; intros e He; left; by exists e].
      destruct (ptr =? 0); [injection H as <- _; eexists; split; [done|]; intros e He; left; by exists e|].
      destruct (update_first _ _ _) as [l1|] eqn:E; injection H as <- _; eexists; (split; [done|]); intros e He.
      + left. by eapply update_first_fd.
      + apply elem_of_app in He as [He|He]; [left; by exists e|]. apply list_elem_of_singleton in He as ->. by right. }
  apply keeps_tables; [done|]. intros epfd' g (e & He & <-) Hr. split; [|done]. cbn in He.
  destruct (decide (epfd' = u32 epfd)) as [->|Hne].
  - rewrite lookup_insert_eq in He. cbn in He. destruct (Hl e He) as [(e0 & H0 & Hf)|[Hf Hop2]]; [by exists e0|].
    destruct Hop as [|Hop]; [done|]. rewrite Hf in Hr. unfold readable in *. cbn in Hr. congruence.
  - rewrite lookup_insert_ne in He by done. by exists e.
Qed.

Lemma istep_ok w w' : istep false w w' → (∀ p, wait_ok w p) → ∀ p, wait_ok w' p.
Proof.
  destruct 1 as [| | | | |w cur a count Hc|w cur a count Hc| | |w cur a count Hc Hn| |w cur a Hc Hb| | | | | |w p0| |];
    intros Hok.
  - by eapply probe_ok.
  - by apply enter_ok.
  - by apply mark_ok.
  - by apply scan_start_ok.
  - by apply scan_one_ok.
  - apply (move_ok w); [done|done|intros p _; by apply keeps_same|by apply wait_ok_new].
  - apply (move_ok w); [done|done|intros p _; by apply keeps_same|by apply wait_ok_new].
  - by apply leave_ok.
  - by apply return_ok.
  - apply (move_ok w); [done|done|intros p _; by apply keeps_same|]. apply wait_ok_new. specialize (Hok cur).
    unfold wait_ok in Hok. rewrite Hc in Hok. intros Hm. by apply Hok.
  - by apply enter_ok.
  - apply (move_ok w); [done|done|intros p _; by apply keeps_same|by apply wait_ok_new].
  - by eapply write_ok.
  - by apply watch_ok.
  - apply release_ok; auto.
  - by apply wake_ok.
  - by apply woken_ok.
  - intros p. apply (keeps_ok w); [done| |done]. split; try done; [intros; by left|by left|]. cbn.
    destruct (decide (p = p0)) as [->|Hne]; [by rewrite fn_lookup_insert|by rewrite fn_lookup_insert_ne].
  - by eapply read_ok.
  - by eapply ctl_ok.
Qed.

(** C19: In every interleaving of waits, writes of event counters, reads, wake-ups
    and changes of epoll sets in which no thread is taken out of the table
    between entering it and being marked as blocked, and counters are not
    readable when they are added to a set: when no write is under way, a thread
    that waits with room for an event and has not been woken is in the table and
    none of the counters it waits for is readable. *)
Theorem epoll_no_lost_wakeup s w p a f :
  rtc (istep false) (start s) w → (∀ n, writes w n = Idle) → waits w p = Parked a → has_room a = true →
  blocked w p = true →
  EPOLL_BLOCKED (poll w) !! p = Some (epfd a) ∧ (watched (poll w) (epfd a) f → readable (poll w) f = false).
Proof.
  intros Hr Hidle Hp Hm Hb.
  assert (∀ w0, rtc (istep false) w0 w → (∀ q, wait_ok w0 q) → ∀ q, wait_ok w q) as Hinv.
  { intros w0 H. clear -H. induction H as [|x y z Hxy _ IH]; [done|]. intros Hx. apply IH. by apply (istep_ok x). }
  specialize (Hinv _ Hr ltac:(done) p). unfold wait_ok in Hinv. rewrite Hp in Hinv. specialize (Hinv Hm).
  destruct Hinv as [[Ht Ha]|[(n & pids & Hn & _)|Hrun]]; [|by rewrite Hidle in Hn|congruence].
  split; [done|]. intros Hw. apply not_true_is_false. intros Hread.
  destruct (Ha f Hw Hread) as [Hin|(n & [Hn|(l & Hn & _)])]; [by apply elem_of_nil in Hin|by rewrite Hidle in Hn|by rewrite Hidle in Hn].
Qed.

(** ** The window *)

(** The counter 64, watched by the set 65. *)
Definition one_counter : State :=
  mkState 66 ∅ {[ 64 := 0 ]} {[ 65 := [mkEntry 64 1 0] ]} ∅.

Definition counted (w : World) (n : Z) : World :=
  set_writes (set_poll w (default (poll w) (eventfd_add (poll w) 64 1))) n (Counted 64).
Definition drained (w : World) : World := set_poll w (set_eventfds (poll w) (<[64 := 0]> (EVENTFD_TABLE (poll w)))).

(** Thread 9 has counted and looked for the sets when the consumer, thread 5,
    reads the counter and waits again: it is taken out of the table before it is
    marked, and nothing puts it back. *)
Definition window_1 : World := after_watching (counted (start one_counter) 9) 9 64.
Definition consumer : wait_args := mkWait 65 0x30000 1.
Definition window_2 : World := enter_table (drained window_1) 5 consumer.
Definition window_3 : World := set_writes (wake_one (after_release window_2 9 [65]) 9 5 []) 9 Idle.
Definition window_4 : World :=
  set_waits (scan_one (λ _, false) 0 (scan_start (mark window_3 5 consumer) 5 consumer) 5 consumer (mkEntry 64 1 0) [] 0)
    5 (Parked consumer).
Definition window_5 : World := set_writes (after_release (after_watching (counted window_4 9) 9 64) 9 [65]) 9 Idle.

(** A wake-up that falls between entering the table and marking the thread as
    blocked is lost, and with it all later ones: with one writer and one
    consumer, the thread is blocked for good while the counter it waits for is
    readable and no write is under way. *)
Theorem epoll_lost_wakeup :
  ∃ w, rtc (istep true) (start one_counter) w ∧ writes w 9 = Idle ∧ waits w 5 = Parked consumer ∧ blocked w 5 = true ∧
    watched (poll w) 65 64 ∧ readable (poll w) 64 = true ∧ EPOLL_BLOCKED (poll w) = ∅.
Proof.
  exists window_5. split; [|split_and!; try reflexivity; exists (mkEntry 64 1 0); split; [left|reflexivity]].
  apply rtc_l with (counted (start one_counter) 9); [by apply i_write with 1|].
  apply rtc_l with window_1; [by apply i_watch|].
  apply rtc_l with (drained window_1); [by apply (i_read true 0 (λ _, 0) window_1 64 0x20000 8 _ (CString.write_word 8 (λ _, 0) 0x20000 1) 8)|].
  apply rtc_l with window_2; [by apply i_enter|].
  apply rtc_l with (after_release window_2 9 [65]); [by apply i_release|].
  apply rtc_l with (wake_one (after_release window_2 9 [65]) 9 5 []); [by apply i_wake|].
  apply rtc_l with window_3; [by apply i_woken|].
  apply rtc_l with (mark window_3 5 consumer); [by apply i_mark|].
  apply rtc_l with (scan_start (mark window_3 5 consumer) 5 consumer); [by apply i_scan|].
  eapply rtc_l; [by apply (i_scan_one true (λ _, false) 0 _ 5 consumer (mkEntry 64 1 0) [] 0)|].
  apply rtc_l with window_4; [by apply i_park with 0|].
  apply rtc_l with (counted window_4 9); [by apply i_write with 1|].
  apply rtc_l with (after_watching (counted window_4 9) 9 64); [by apply i_watch|].
  apply rtc_l with (after_release (after_watching (counted window_4 9) 9 64) 9 [65]); [by apply i_release|].
  apply rtc_l with window_5; [by apply i_woken|]. apply rtc_refl.
Qed.

(** ** No room *)

(** With no buffer for events nothing is looked at: such a call waits although
    its counter is readable and no write is under way. *)
Definition blind : wait_args := mkWait 65 0 1.
Definition full_counter : State := mkState 66 ∅ {[ 64 := 1 ]} {[ 65 := [mkEntry 64 1 0] ]} ∅.
Definition blind_1 : World := mark (enter_table (start full_counter) 5 blind) 5 blind.

Example epoll_without_room_waits :
  let w := set_waits (scan_start blind_1 5 blind) 5 (Parked blind) in
  rtc (istep false) (start full_counter) w ∧ (∀ n, writes w n = Idle) ∧ blocked w 5 = true ∧
  watched (poll w) 65 64 ∧ readable (poll w) 64 = true.
Proof.
  split; [|split_and!; try reflexivity; exists (mkEntry 64 1 0); split; [left|reflexivity]].
  apply rtc_l with (enter_table (start full_counter) 5 blind); [by apply i_enter|].
  apply rtc_l with blind_1; [by apply i_mark|].
  apply rtc_l with (scan_start blind_1 5 blind); [by apply i_scan|].
  apply rtc_once. by apply i_park with 0.
Qed.

(** ** Witness: a thread that parks on an empty counter *)

Definition parked_1 : World := mark (enter_table (start one_counter) 5 consumer) 5 consumer.
Definition parked_world : World :=
  set_waits (scan_one (λ _, false) 0 (scan_start parked_1 5 consumer) 5 consumer (mkEntry 64 1 0) [] 0) 5 (Parked consumer).

Lemma epoll_no_lost_wakeup_witness :
  EPOLL_BLOCKED (poll parked_world) !! 5 = Some 65 ∧ (watched (poll parked_world) 65 64 → readable (poll parked_world) 64 = false).
Proof.
  apply (epoll_no_lost_wakeup one_counter parked_world 5 consumer 64); [|reflexivity..].
  apply rtc_l with (enter_table (start one_counter) 5 consumer); [by apply i_enter|].
  apply rtc_l with parked_1; [by apply i_mark|].
  apply rtc_l with (scan_start parked_1 5 consumer); [by apply i_scan|].
  eapply rtc_l; [by apply (i_scan_one false (λ _, false) 0 _ 5 consumer (mkEntry 64 1 0) [] 0)|].
  apply rtc_once. by apply i_park with 0.
Defined.
End EpollWait.
