(* ===== verification/Fd.v ===== *)
(** * Descriptors ([syscall/handlers/fd.rs], [syscall/tables.rs])

    The table of open files, the pipes and the calls on descriptors, on top of
    the file system of [Vfs] and of the timers and counters of [Poll].

    [descriptors_refine] says that they are a table of open files and a byte
    queue for each pipe, whose ends are open when a descriptor names them: ring
    indices and reference counts are not observable.  [open_and_read] follows a
    file from its path to the memory of the reader.  [fstat_panics] and
    [open_file_dropped] are defects. *)

From Stdlib Require Import ZArith Lia FunctionalExtensionality.
From stdpp Require Import base numbers strings option relations list gmap.
From S2P Require Import Prelude Ring Http Tar Ramdisk Vfs CString Poll.

Local Open Scope Z_scope.

Module Fd.
Import CString.

(** ** State *)

Record OpenFile := mkFile {
  data : Vfs.Slice; offset : Z; used : bool; is_dir : bool; dir_path : bytes; dir_path_len : nat; pipe_id : Z;
  pipe_is_write : bool
}.

Definition MAX_OPEN_FILES : Z := 64.
Definition PIPE_BUF_SIZE : nat := 4096.
Definition MAX_PIPES : nat := 32.

Record PipeBuf := mkPipe { buf : bytes; head : nat; tail : nat; len : nat; r_refs : Z; w_refs : Z }.

Definition empty_file (d : Vfs.Slice) : OpenFile := mkFile d 0 true false (replicate 192 0) 0 (-1) false.
Definition closed_file : OpenFile := mkFile (Vfs.Static []) 0 false false (replicate 192 0) 0 (-1) false.
Definition pipe_end (pid : Z) (is_write : bool) : OpenFile :=
  mkFile (Vfs.Static []) 0 true false (replicate 192 0) 0 pid is_write.

(** The file system, the tables of [poll.rs], the two tables and the text
    written to the console. *)
Record Kernel := mkKernel {
  fs : Vfs.State; polls : Poll.State; OPEN_FILES : list OpenFile; PIPES : list PipeBuf; console : bytes
}.

Definition Kernel_new (archive : bytes) : Kernel :=
  mkKernel (Vfs.init (Vfs.State_new archive)) Poll.State_new (replicate (Z.to_nat MAX_OPEN_FILES) closed_file)
    (replicate MAX_PIPES (mkPipe (replicate PIPE_BUF_SIZE 0) 0 0 0 0 0)) [].

Definition set_fs (k : Kernel) (s : Vfs.State) : Kernel := mkKernel s (polls k) (OPEN_FILES k) (PIPES k) (console k).
Definition set_polls (k : Kernel) (p : Poll.State) : Kernel := mkKernel (fs k) p (OPEN_FILES k) (PIPES k) (console k).
Definition set_files (k : Kernel) (t : list OpenFile) : Kernel := mkKernel (fs k) (polls k) t (PIPES k) (console k).
Definition set_pipes (k : Kernel) (p : list PipeBuf) : Kernel := mkKernel (fs k) (polls k) (OPEN_FILES k) p (console k).
Definition set_console (k : Kernel) (t : bytes) : Kernel := mkKernel (fs k) (polls k) (OPEN_FILES k) (PIPES k) t.

Definition set_offset (f : OpenFile) (z : Z) : OpenFile :=
  mkFile (data f) z (used f) (is_dir f) (dir_path f) (dir_path_len f) (pipe_id f) (pipe_is_write f).
Definition set_pipe_id (f : OpenFile) (z : Z) : OpenFile :=
  mkFile (data f) (offset f) (used f) (is_dir f) (dir_path f) (dir_path_len f) z (pipe_is_write f).
(** [used = false] alone, and with the reset of data and offset. *)
Definition set_unused (f : OpenFile) : OpenFile :=
  mkFile (data f) (offset f) false (is_dir f) (dir_path f) (dir_path_len f) (pipe_id f) (pipe_is_write f).
Definition clear (f : OpenFile) : OpenFile :=
  mkFile (Vfs.Static []) 0 false (is_dir f) (dir_path f) (dir_path_len f) (pipe_id f) (pipe_is_write f).

(** ** Allocation *)

(** The first free slot from 3 on. *)
Definition free_slot (t : list OpenFile) : option nat :=
  (λ i, (i + 3)%nat) <$> position (λ f, negb (used f)) (drop 3 t).

Definition fd_alloc (k : Kernel) (d : Vfs.Slice) : Kernel * option Z :=
  match free_slot (OPEN_FILES k) with
  | Some i => (set_files k (<[i := empty_file d]> (OPEN_FILES k)), Some (Z.of_nat i))
  | None => (k, None)
  end.

Definition fd_alloc_dir (k : Kernel) (path : bytes) : Kernel * option Z :=
  match free_slot (OPEN_FILES k) with
  | Some i =>
      let n := Nat.min (length path) 192 in
      let b := copy_at (replicate 192 0) 0 (take n path) in
      (set_files k (<[i := mkFile (Vfs.Static []) 0 true true b n (-1) false]> (OPEN_FILES k)), Some (Z.of_nat i))
  | None => (k, None)
  end.

Definition free_pipe (p : PipeBuf) : bool := (r_refs p =? 0) && (w_refs p =? 0).

Definition sys_pipe2 (k : Kernel) (m : memory) (pipefd_ptr : Z) : outcome (Kernel * memory * Z) :=
  if pipefd_ptr =? 0 then Val (k, m, -14)
  else
    match position free_pipe (PIPES k) with
    | None => Val (k, m, -23)
    | Some pid =>
        let! p := load (PIPES k) pid in
        let k1 := set_pipes k (<[pid := mkPipe (buf p) 0 0 0 1 1]> (PIPES k)) in
        (* the loop over the slots: the first free one, then the next *)
        let rfd := free_slot (OPEN_FILES k1) in
        let t1 := match rfd with Some r => <[r := pipe_end (Z.of_nat pid) false]> (OPEN_FILES k1) | None => OPEN_FILES k1 end in
        let wfd := match rfd with Some _ => free_slot t1 | None => None end in
        match rfd, wfd with
        | Some r, Some w =>
            let t2 := <[w := pipe_end (Z.of_nat pid) true]> t1 in
            Val (set_files k1 t2, write_word 4 (write_word 4 m pipefd_ptr (Z.of_nat r)) (pipefd_ptr + 4) (Z.of_nat w), 0)
        | _, _ =>
            let! t2 :=
              match rfd with
              | Some r => let! f := load t1 r in Val (<[r := set_pipe_id (set_unused f) (-1)]> t1)
              | None => Val t1
              end in
            Val (mkKernel (fs k1) (polls k1) t2 (<[pid := mkPipe (buf p) 0 0 0 0 0]> (PIPES k1)) (console k1), m, -23)
        end
    end.

Definition fd_dir_path (k : Kernel) (fd : Z) : outcome (option bytes) :=
  if MAX_OPEN_FILES <=? fd then Val None
  else
    let! f := load (OPEN_FILES k) (Z.to_nat fd) in
    if negb (used f) || negb (is_dir f) then Val None
    else let! s := slice_checked (dir_path f) 0 (dir_path_len f) in Val (if isSome (Http.from_utf8 s) then Some s else None).

(** ** Writing *)

Definition read_user_bytes (m : memory) (ptr n : Z) : option bytes :=
  if (ptr =? 0) || (0x2000000 <? n) then None else Some (read_range m ptr (Z.to_nat n)).

Definition pipe_push (c : Z) (p : PipeBuf) : outcome PipeBuf :=
  let! b := store (buf p) (tail p) c in
  Val (mkPipe b (head p) ((tail p + 1) mod PIPE_BUF_SIZE) (len p) (r_refs p) (w_refs p)).

Definition add_len (p : PipeBuf) (n : nat) : PipeBuf :=
  mkPipe (buf p) (head p) (tail p) (len p + n) (r_refs p) (w_refs p).

(** The descriptors of the read ends of a pipe. *)
Definition read_fds (t : list OpenFile) (pid : nat) : list Z :=
  List.filter (λ r, match t !! Z.to_nat r with
    | Some f => used f && (pipe_id f =? Z.of_nat pid) && negb (pipe_is_write f) | None => false end) (zrange 0 (MAX_OPEN_FILES - 1)).

(** The result has the processes that are woken. *)
Definition pipe_write (k : Kernel) (m : memory) (f : OpenFile) (buf_ptr n : Z) : outcome (Kernel * list Z * Z) :=
  if negb (pipe_is_write f) then Val (k, [], -9)
  else
    match read_user_bytes m buf_ptr n with
    | None => Val (k, [], -14)
    | Some src =>
        let pid := Z.to_nat (pipe_id f) in
        let! p := load (PIPES k) pid in
        if r_refs p =? 0 then Val (k, [], -32)
        else
          let free := (PIPE_BUF_SIZE - len p)%nat in
          let written := Nat.min (length src) free in
          let! p1 := for_list (take written src) pipe_push p in
          let k1 := set_pipes k (<[pid := add_len p1 written]> (PIPES k)) in
          let '(ps, woken) :=
            if (0 <? written)%nat then Poll.wake_each (polls k1) (read_fds (OPEN_FILES k1) pid) else (polls k1, []) in
          Val (set_polls k1 ps, woken, if (written =? 0)%nat then -11 else Z.of_nat written)
    end.

(** All other descriptors print. *)
Definition print (k : Kernel) (m : memory) (buf_ptr n : Z) : Kernel * Z :=
  match read_user_bytes m buf_ptr n with
  | None => (k, -14)
  | Some b => (if isSome (Http.from_utf8 b) then set_console k (console k ++ b) else k, i64 n)
  end.

Definition sys_write (k : Kernel) (m : memory) (fd buf_ptr n : Z) : outcome (Kernel * list Z * Z) :=
  let printed := let '(k1, r) := print k m buf_ptr n in Val (k1, [], r) in
  if MAX_OPEN_FILES <=? fd then
    match Poll.write_synth (polls k) m fd buf_ptr n with
    | Some (ps, woken) => Val (set_polls k ps, woken, i64 n)
    | None => Val (k, [], i64 n)
    end
  else if 3 <=? fd then
    let! f := load (OPEN_FILES k) (Z.to_nat fd) in
    if used f && (0 <=? pipe_id f) then pipe_write k m f buf_ptr n
    else
      match Poll.write_timer (polls k) m fd buf_ptr n with
      | Some (ps, woken) => Val (set_polls k ps, woken, i64 n)
      | None => printed
      end
  else printed.

(** The entries that are left, the sum so far. *)
Fixpoint writev_loop (cnt : nat) (k : Kernel) (m : memory) (fd iov : Z) (woken : list Z) (total : Z)
    : outcome (Kernel * list Z * Z) :=
  match cnt with
  | O => Val (k, woken, total)
  | S c =>
      let ent_base := read_word 8 m iov in
      let ent_len := read_word 8 m (iov + 8) in
      if ent_len =? 0 then writev_loop c k m fd (iov + 16) woken total
      else
        let! (k1, w1, n) := sys_write k m fd ent_base ent_len in
        if n <? 0 then Val (k1, woken ++ w1, if 0 <? total then total else n)
        else if negb (u64 n =? ent_len) then Val (k1, woken ++ w1, i64 (total + n))
        else writev_loop c k1 m fd (iov + 16) (woken ++ w1) (i64 (total + n))
  end.

Definition sys_writev (k : Kernel) (m : memory) (fd iov_ptr iov_cnt : Z) : outcome (Kernel * list Z * Z) :=
  if (iov_ptr =? 0) || (iov_cnt =? 0) then Val (k, [], 0)
  else if 1024 <? iov_cnt then Val (k, [], -22)
  else writev_loop (Z.to_nat iov_cnt) k m fd iov_ptr [] 0.

(** ** Reading *)

Section reading.
(** What the memory of a dropped vector holds by the time it is read: the byte
    at each place of the vector with a given number. *)
Context (freed : Z → nat → Z).

(** The bytes behind a reference. *)
Definition contents (s : Vfs.State) (r : Vfs.Slice) : bytes :=
  match Vfs.bytes_of s r with
  | Some b => b
  | None => match r with
            | Vfs.Vector v => map (freed (Ramdisk.vec_id v)) (seq 0 (length (Ramdisk.contents v)))
            | _ => [] end
  end.

Definition write_list (m : memory) (p : Z) (bs : bytes) : memory :=
  λ a, if (p <=? a) && (a <? p + Z.of_nat (length bs)) then bs !!! Z.to_nat (a - p) else m a.

Fixpoint pipe_pop (n : nat) (m : memory) (dst : Z) (p : PipeBuf) : outcome (memory * PipeBuf) :=
  match n with
  | O => Val (m, p)
  | S n' =>
      let! c := load (buf p) (head p) in
      pipe_pop n' (write_byte m dst c) (dst + 1)
        (mkPipe (buf p) ((head p + 1) mod PIPE_BUF_SIZE) (tail p) (len p) (r_refs p) (w_refs p))
  end.

Definition sub_len (p : PipeBuf) (n : nat) : PipeBuf :=
  mkPipe (buf p) (head p) (tail p) (len p - n) (r_refs p) (w_refs p).

Definition pipe_read (k : Kernel) (m : memory) (f : OpenFile) (buf_ptr n : Z) : outcome (Kernel * memory * Z) :=
  if pipe_is_write f then Val (k, m, -9)
  else
    let pid := Z.to_nat (pipe_id f) in
    let! p := load (PIPES k) pid in
    if (len p =? 0)%nat then Val (k, m, if w_refs p =? 0 then 0 else -11)
    else
      let cnt := Nat.min (Z.to_nat n) (len p) in
      let! (m1, p1) := pipe_pop cnt m buf_ptr p in
      Val (set_pipes k (<[pid := sub_len p1 cnt]> (PIPES k)), m1, Z.of_nat cnt).

Definition sys_read (now : Z) (k : Kernel) (m : memory) (fd buf_ptr n : Z) : outcome (Kernel * memory * Z) :=
  if n =? 0 then Val (k, m, 0)
  else if buf_ptr =? 0 then Val (k, m, -14)
  else
    match Poll.read_synth now (polls k) m fd buf_ptr n with
    | Some (ps, m1, r) => Val (set_polls k ps, m1, r)
    | None =>
        if MAX_OPEN_FILES <=? fd then Val (k, m, -9)
        else
          let! f := load (OPEN_FILES k) (Z.to_nat fd) in
          if negb (used f) then Val (k, m, -9)
          else if 0 <=? pipe_id f then pipe_read k m f buf_ptr n
          else if Vfs.slice_len (data f) <=? offset f then Val (k, m, 0)
          else
            let available := Vfs.slice_len (data f) - offset f in
            let cnt := Z.min n available in
            let src := slice (contents (fs k) (data f)) (Z.to_nat (offset f)) (Z.to_nat (offset f + cnt)) in
            Val (set_files k (<[Z.to_nat fd := set_offset f (u64 (offset f + cnt))]> (OPEN_FILES k)),
                 write_list m buf_ptr src, cnt)
    end.
End reading.

(** ** Opening, closing, positions *)

Section paths.
(** What the texts below "/sys" report. *)
Context (i : Vfs.SysInfo).

Definition trim_nul (s : bytes) : bytes := reverse (Tar.trim_start_matches [0] (reverse s)).

Definition sys_open (k : Kernel) (m : memory) (path_ptr path_len : Z) : outcome (Kernel * Z) :=
  match read_user_bytes m path_ptr path_len with
  | None => Val (k, -14)
  | Some b =>
      if negb (isSome (Http.from_utf8 b)) then Val (k, -22)
      else
        let path := trim_nul b in
        let! (s, found) := Vfs.lookup i (fs k) path in
        let k1 := set_fs k s in
        let '(k2, fd) :=
          match found with
          | Some d => fd_alloc k1 d
          | None => if Vfs.is_dir s path then fd_alloc_dir k1 path else (k1, Some (-2))
          end in
        Val (k2, default (-23) fd)
  end.

Definition sys_close (k : Kernel) (fd : Z) : outcome (Kernel * Z) :=
  if (fd <? 3) || (MAX_OPEN_FILES <=? fd) then Val (k, 0)
  else
    let idx := Z.to_nat fd in
    let! f := load (OPEN_FILES k) idx in
    if negb (used f) then Val (k, 0)
    else if 0 <=? pipe_id f then
      let pid := Z.to_nat (pipe_id f) in
      let! p := load (PIPES k) pid in
      let w := if pipe_is_write f && (0 <? w_refs p) then w_refs p - 1 else w_refs p in
      let r := if negb (pipe_is_write f) && (0 <? r_refs p) then r_refs p - 1 else r_refs p in
      let k1 := set_pipes k (<[pid := mkPipe (buf p) (head p) (tail p) (len p) r w]> (PIPES k)) in
      Val (set_files k1 (<[idx := clear (set_pipe_id f (-1))]> (OPEN_FILES k)), 0)
    else Val (set_files k (<[idx := clear f]> (OPEN_FILES k)), 0).

Definition sys_lseek (k : Kernel) (fd off whence : Z) : outcome (Kernel * Z) :=
  if (fd <? 3) || (MAX_OPEN_FILES <=? fd) then Val (k, -9)
  else
    let! f := load (OPEN_FILES k) (Z.to_nat fd) in
    if negb (used f) then Val (k, -9)
    else
      let size := i64 (Vfs.slice_len (data f)) in
      let go new_off :=
        if new_off <? 0 then Val (k, -22)
        else Val (set_files k (<[Z.to_nat fd := set_offset f new_off]> (OPEN_FILES k)), new_off) in
      if whence =? 0 then go off
      else if whence =? 1 then go (i64 (i64 (offset f) + off))
      else if whence =? 2 then go (i64 (size + off))
      else Val (k, -22).

Definition put_stat (m : memory) (p size : Z) (dir : bool) : memory :=
  let mode := if dir then 0x41ED else 0x81A4 in
  let m := write_bytes m p 0 144 in
  let m := write_word 8 m (p + 48) size in
  let m := write_word 8 m (p + 56) 4096 in
  let m := write_word 8 m (p + 64) (u64 (size + 511) / 512) in
  write_word 4 m (p + 24) mode.

Definition sys_fstat (k : Kernel) (m : memory) (fd stat_ptr : Z) : outcome (memory * Z) :=
  let put size dir := if stat_ptr =? 0 then m else put_stat m stat_ptr size dir in
  if fd <? 3 then Val (put 0 false, 0)
  else
    let! f := load (OPEN_FILES k) (Z.to_nat fd) in
    if negb (used f) then Val (m, -9)
    else Val (put (Vfs.slice_len (data f)) (is_dir f), 0).

Definition sys_stat_path (k : Kernel) (m : memory) (path_ptr stat_ptr : Z) : outcome (Kernel * memory * Z) :=
  if path_ptr =? 0 then Val (k, m, -14)
  else
    let n := cstr_len 4096 m path_ptr in
    let! (k1, fd) := sys_open k m path_ptr (Z.of_nat n) in
    if fd <? 0 then Val (k1, m, fd)
    else
      let! (m1, r) := sys_fstat k1 m fd stat_ptr in
      let! (k2, _) := sys_close k1 fd in
      Val (k2, m1, r).

Definition sys_access_path (k : Kernel) (m : memory) (path_ptr : Z) : outcome (Kernel * Z) :=
  if path_ptr =? 0 then Val (k, -14)
  else
    let n := cstr_len 4096 m path_ptr in
    let! (k1, fd) := sys_open k m path_ptr (Z.of_nat n) in
    if fd <? 0 then Val (k1, fd)
    else
      let! (k2, _) := sys_close k1 fd in
      Val (k2, 0).

Definition sys_newfstatat (k : Kernel) (m : memory) (_dirfd path_ptr stat_ptr _flags : Z) : outcome (Kernel * memory * Z) :=
  sys_stat_path k m path_ptr stat_ptr.
End paths.

(** [epoll] asks whether a descriptor is the read end of a pipe with data. *)
Definition pipe_readable_for_fd (k : Kernel) (fd : Z) : outcome bool :=
  if MAX_OPEN_FILES <=? fd then Val false
  else
    let! f := load (OPEN_FILES k) (Z.to_nat fd) in
    if used f && (0 <=? pipe_id f) && negb (pipe_is_write f) then
      let! p := load (PIPES k) (Z.to_nat (pipe_id f)) in
      Val (0 <? len p)%nat
    else Val false.

(** ** What the calls mean: a table of open files and a queue for each pipe *)

Inductive kind := Regular | Directory (path : bytes) | End (p : nat) (w : bool).
Record file := mkOpen { a_data : Vfs.Slice; a_off : Z; a_kind : kind }.

Record Table := mkTable {
  a_fs : Vfs.State; a_polls : Poll.State; a_files : list (option file); a_queues : list bytes; a_console : bytes
}.

Definition Table_new (archive : bytes) : Table :=
  mkTable (Vfs.init (Vfs.State_new archive)) Poll.State_new (replicate 64 None) (replicate 32 []) [].

Definition is_end (p : nat) (w : bool) (o : option file) : bool :=
  match o with
  | Some f => match a_kind f with End p' w' => (p' =? p)%nat && Bool.eqb w' w | _ => false end
  | None => false
  end.

(** An end of a pipe is open when a descriptor names it. *)
Definition end_open (t : list (option file)) (p : nat) (w : bool) : bool := existsb (is_end p w) t.

Definition a_free (t : list (option file)) : option nat := (λ i, (i + 3)%nat) <$> position (λ o, negb (isSome o)) (drop 3 t).

Definition a_set_files (a : Table) (t : list (option file)) : Table := mkTable (a_fs a) (a_polls a) t (a_queues a) (a_console a).
Definition a_set_polls (a : Table) (p : Poll.State) : Table := mkTable (a_fs a) p (a_files a) (a_queues a) (a_console a).
Definition a_set_queue (a : Table) (p : nat) (q : bytes) : Table :=
  mkTable (a_fs a) (a_polls a) (a_files a) (<[p := q]> (a_queues a)) (a_console a).

(** The open file behind a descriptor. *)
Definition a_file (a : Table) (fd : Z) : option file := if fd <? MAX_OPEN_FILES then mjoin (a_files a !! Z.to_nat fd) else None.

Definition a_alloc (a : Table) (f : file) : Table * Z :=
  match a_free (a_files a) with
  | Some i => (a_set_files a (<[i := Some f]> (a_files a)), Z.of_nat i)
  | None => (a, -23)
  end.

Definition a_pipe2 (a : Table) (m : memory) (ptr : Z) : Table * memory * Z :=
  if ptr =? 0 then (a, m, -14)
  else
    match position (λ p, negb (end_open (a_files a) p false) && negb (end_open (a_files a) p true)) (seq 0 MAX_PIPES) with
    | None => (a, m, -23)
    | Some p =>
        match a_free (a_files a) with
        | None => (a_set_queue a p [], m, -23)
        | Some r =>
            let t := <[r := Some (mkOpen (Vfs.Static []) 0 (End p false))]> (a_files a) in
            match a_free t with
            | None => (a_set_queue a p [], m, -23)
            | Some w =>
                (a_set_queue (a_set_files a (<[w := Some (mkOpen (Vfs.Static []) 0 (End p true))]> t)) p [],
                 write_word 4 (write_word 4 m ptr (Z.of_nat r)) (ptr + 4) (Z.of_nat w), 0)
            end
        end
    end.

(** The descriptors of the read end. *)
Definition a_readers (t : list (option file)) (p : nat) : list Z :=
  List.filter (λ r, is_end p false (mjoin (t !! Z.to_nat r))) (zrange 0 (MAX_OPEN_FILES - 1)).

Definition a_print (a : Table) (m : memory) (ptr n : Z) : Table * Z :=
  match read_user_bytes m ptr n with
  | None => (a, -14)
  | Some b => (if isSome (Http.from_utf8 b) then mkTable (a_fs a) (a_polls a) (a_files a) (a_queues a) (a_console a ++ b) else a, i64 n)
  end.

Definition a_pipe_write (a : Table) (m : memory) (p : nat) (ptr n : Z) : Table * Z :=
  match read_user_bytes m ptr n with
  | None => (a, -14)
  | Some src =>
      if negb (end_open (a_files a) p false) then (a, -32)
      else
        let q := a_queues a !!! p in
        let taken := take (PIPE_BUF_SIZE - length q) src in
        let a1 := a_set_queue a p (q ++ taken) in
        match taken with
        | [] => (a1, -11)
        | _ => (a_set_polls a1 (Poll.wake_each (a_polls a) (a_readers (a_files a) p)).1, Z.of_nat (length taken))
        end
  end.

Definition a_write (a : Table) (m : memory) (fd ptr n : Z) : Table * Z :=
  if MAX_OPEN_FILES <=? fd then
    match Poll.write_synth (a_polls a) m fd ptr n with
    | Some (ps, _) => (a_set_polls a ps, i64 n)
    | None => (a, i64 n)
    end
  else if fd <? 3 then a_print a m ptr n
  else
    match a_kind <$> a_file a fd with
    | Some (End p w) => if w then a_pipe_write a m p ptr n else (a, -9)
    | _ =>
        match Poll.write_timer (a_polls a) m fd ptr n with
        | Some (ps, _) => (a_set_polls a ps, i64 n)
        | None => a_print a m ptr n
        end
    end.

Fixpoint a_writev_loop (cnt : nat) (a : Table) (m : memory) (fd iov total : Z) : Table * Z :=
  match cnt with
  | O => (a, total)
  | S c =>
      let n := read_word 8 m (iov + 8) in
      if n =? 0 then a_writev_loop c a m fd (iov + 16) total
      else
        let '(a1, r) := a_write a m fd (read_word 8 m iov) n in
        if r <? 0 then (a1, if 0 <? total then total else r)
        else if negb (u64 r =? n) then (a1, i64 (total + r))
        else a_writev_loop c a1 m fd (iov + 16) (i64 (total + r))
  end.

Definition a_writev (a : Table) (m : memory) (fd iov cnt : Z) : Table * Z :=
  if (iov =? 0) || (cnt =? 0) then (a, 0)
  else if 1024 <? cnt then (a, -22)
  else a_writev_loop (Z.to_nat cnt) a m fd iov 0.

Definition a_read (freed : Z → nat → Z) (now : Z) (a : Table) (m : memory) (fd ptr n : Z) : Table * memory * Z :=
  if n =? 0 then (a, m, 0)
  else if ptr =? 0 then (a, m, -14)
  else
    match Poll.read_synth now (a_polls a) m fd ptr n with
    | Some (ps, m1, r) => (a_set_polls a ps, m1, r)
    | None =>
        match a_file a fd with
        | None => (a, m, -9)
        | Some f =>
            match a_kind f with
            | End p true => (a, m, -9)
            | End p false =>
                match a_queues a !!! p with
                | [] => (a, m, if end_open (a_files a) p true then -11 else 0)
                | q => let got := take (Z.to_nat n) q in
                       (a_set_queue a p (drop (Z.to_nat n) q), write_list m ptr got, Z.of_nat (length got))
                end
            | _ =>
                if Vfs.slice_len (a_data f) <=? a_off f then (a, m, 0)
                else
                  let n := Z.min n (Vfs.slice_len (a_data f) - a_off f) in
                  (a_set_files a (<[Z.to_nat fd := Some (mkOpen (a_data f) (u64 (a_off f + n)) (a_kind f))]> (a_files a)),
                   write_list m ptr (slice (contents freed (a_fs a) (a_data f)) (Z.to_nat (a_off f)) (Z.to_nat (a_off f + n))), n)
            end
        end
    end.

Section a_paths.
Context (i : Vfs.SysInfo).

Definition a_lookup (s : Vfs.State) (path : bytes) : Vfs.State * option Vfs.Slice :=
  match Vfs.lookup i s path with Val r => r | Panic => (s, None) end.

Definition a_open (a : Table) (m : memory) (ptr n : Z) : Table * Z :=
  match read_user_bytes m ptr n with
  | None => (a, -14)
  | Some b =>
      if negb (isSome (Http.from_utf8 b)) then (a, -22)
      else
        let path := trim_nul b in
        let '(s, found) := a_lookup (a_fs a) path in
        let a1 := mkTable s (a_polls a) (a_files a) (a_queues a) (a_console a) in
        match found with
        | Some d => a_alloc a1 (mkOpen d 0 Regular)
        | None =>
            if Vfs.is_dir s path then a_alloc a1 (mkOpen (Vfs.Static []) 0 (Directory (take 192 path))) else (a1, -2)
        end
  end.

Definition a_close (a : Table) (fd : Z) : Table :=
  if (fd <? 3) || (MAX_OPEN_FILES <=? fd) then a else a_set_files a (<[Z.to_nat fd := None]> (a_files a)).

Definition a_lseek (a : Table) (fd off whence : Z) : Table * Z :=
  match (if fd <? 3 then None else a_file a fd) with
  | None => (a, -9)
  | Some f =>
      let go new_off :=
        if new_off <? 0 then (a, -22)
        else (a_set_files a (<[Z.to_nat fd := Some (mkOpen (a_data f) new_off (a_kind f))]> (a_files a)), new_off) in
      if whence =? 0 then go off
      else if whence =? 1 then go (i64 (i64 (a_off f) + off))
      else if whence =? 2 then go (i64 (i64 (Vfs.slice_len (a_data f)) + off))
      else (a, -22)
  end.

Definition a_fstat (a : Table) (m : memory) (fd ptr : Z) : memory * Z :=
  let put size dir := if ptr =? 0 then m else put_stat m ptr size dir in
  if fd <? 3 then (put 0 false, 0)
  else
    match a_file a fd with
    | None => (m, -9)
    | Some f => (put (Vfs.slice_len (a_data f)) match a_kind f with Directory _ => true | _ => false end, 0)
    end.

(** The descriptor that is opened for the two calls on paths is closed again. *)
Definition a_stat_path (a : Table) (m : memory) (path_ptr stat_ptr : Z) : Table * memory * Z :=
  if path_ptr =? 0 then (a, m, -14)
  else
    let '(a1, fd) := a_open a m path_ptr (Z.of_nat (cstr_len 4096 m path_ptr)) in
    if fd <? 0 then (a1, m, fd) else (a_close a1 fd, (a_fstat a1 m fd stat_ptr).1, (a_fstat a1 m fd stat_ptr).2).

Definition a_access_path (a : Table) (m : memory) (path_ptr : Z) : Table * Z :=
  if path_ptr =? 0 then (a, -14)
  else
    let '(a1, fd) := a_open a m path_ptr (Z.of_nat (cstr_len 4096 m path_ptr)) in
    if fd <? 0 then (a1, fd) else (a_close a1 fd, 0).
End a_paths.

(** Programs: sequences of calls on one memory. *)
Inductive call :=
| Open (i : Vfs.SysInfo) (path_ptr path_len : Z)
| Close (fd : Z)
| Read (now fd ptr n : Z)
| Write (fd ptr n : Z)
| Writev (fd iov cnt : Z)
| Lseek (fd off whence : Z)
| Fstat (fd ptr : Z)
| StatPath (i : Vfs.SysInfo) (path_ptr stat_ptr : Z)
| AccessPath (i : Vfs.SysInfo) (path_ptr : Z)
| Pipe2 (ptr : Z).

Definition run_call (freed : Z → nat → Z) (c : call) (k : Kernel) (m : memory) : outcome (Kernel * memory * Z) :=
  match c with
  | Open i p n => let! (k1, r) := sys_open i k m p n in Val (k1, m, r)
  | Close fd => let! (k1, r) := sys_close k fd in Val (k1, m, r)
  | Read now fd p n => sys_read freed now k m fd p n
  | Write fd p n => let! (k1, _, r) := sys_write k m fd p n in Val (k1, m, r)
  | Writev fd p n => let! (k1, _, r) := sys_writev k m fd p n in Val (k1, m, r)
  | Lseek fd off wh => let! (k1, r) := sys_lseek k fd off wh in Val (k1, m, r)
  | Fstat fd p => let! (m1, r) := sys_fstat k m fd p in Val (k, m1, r)
  | StatPath i p q => sys_stat_path i k m p q
  | AccessPath i p => let! (k1, r) := sys_access_path i k m p in Val (k1, m, r)
  | Pipe2 p => sys_pipe2 k m p
  end.

Definition spec_call (freed : Z → nat → Z) (c : call) (a : Table) (m : memory) : Table * memory * Z :=
  match c with
  | Open i p n => let '(a1, r) := a_open i a m p n in (a1, m, r)
  | Close fd => (a_close a fd, m, 0)
  | Read now fd p n => a_read freed now a m fd p n
  | Write fd p n => let '(a1, r) := a_write a m fd p n in (a1, m, r)
  | Writev fd p n => let '(a1, r) := a_writev a m fd p n in (a1, m, r)
  | Lseek fd off wh => let '(a1, r) := a_lseek a fd off wh in (a1, m, r)
  | Fstat fd p => (a, (a_fstat a m fd p).1, (a_fstat a m fd p).2)
  | StatPath i p q => a_stat_path i a m p q
  | AccessPath i p => let '(a1, r) := a_access_path i a m p in (a1, m, r)
  | Pipe2 p => a_pipe2 a m p
  end.

(** The counters the texts report fit their type. *)
Definition counters_ok (c : call) : Prop :=
  match c with Open i _ _ | StatPath i _ _ | AccessPath i _ => Vfs.info_ok i | _ => True end.

(** [fstat] gets a descriptor of the table. *)
Definition in_table (c : call) : bool := match c with Fstat fd _ => fd <? MAX_OPEN_FILES | _ => true end.

Definition call_ok (c : call) : Prop :=
  match c with
  | Open i _ _ | StatPath i _ _ | AccessPath i _ => Vfs.info_ok i
  | Fstat fd _ => fd < MAX_OPEN_FILES
  | _ => True
  end.

Fixpoint run_calls (freed : Z → nat → Z) (cs : list call) (k : Kernel) (m : memory) : outcome (Kernel * memory * list Z) :=
  match cs with
  | [] => Val (k, m, [])
  | c :: cs' =>
      let! (k1, m1, r) := run_call freed c k m in
      let! (k2, m2, rs) := run_calls freed cs' k1 m1 in
      Val (k2, m2, r :: rs)
  end.

Fixpoint spec_calls (freed : Z → nat → Z) (cs : list call) (a : Table) (m : memory) : Table * memory * list Z :=
  match cs with
  | [] => (a, m, [])
  | c :: cs' =>
      let '(a1, m1, r) := spec_call freed c a m in
      let '(a2, m2, rs) := spec_calls freed cs' a1 m1 in
      (a2, m2, r :: rs)
  end.

(** ** The relation *)

Definition file_rel (f : OpenFile) (o : option file) : Prop :=
  match o with
  | None => used f = false ∧ pipe_id f = -1
  | Some a =>
      used f = true ∧ data f = a_data a ∧ offset f = a_off a ∧
      match a_kind a with
      | Regular => is_dir f = false ∧ pipe_id f = -1
      | Directory path =>
          is_dir f = true ∧ pipe_id f = -1 ∧ length (dir_path f) = 192%nat ∧ (dir_path_len f ≤ 192)%nat ∧ take (dir_path_len f) (dir_path f) = path
      | End p w => is_dir f = false ∧ pipe_id f = Z.of_nat p ∧ pipe_is_write f = w ∧ (p < MAX_PIPES)%nat
      end
  end.

Definition ends (t : list (option file)) (p : nat) (w : bool) : nat := countb (is_end p w) t.

Record pipe_rel (t : list (option file)) (j : nat) (p : PipeBuf) (q : bytes) : Prop := {
  pr_buf : length (buf p) = PIPE_BUF_SIZE;
  pr_head : (head p < PIPE_BUF_SIZE)%nat;
  pr_len : (len p ≤ PIPE_BUF_SIZE)%nat;
  pr_tail : tail p = ring_slot PIPE_BUF_SIZE (head p) (len p);
  pr_queue : ring_view PIPE_BUF_SIZE (buf p) (head p) (len p) = q;
  pr_r : r_refs p = Z.of_nat (ends t j false);
  pr_w : w_refs p = Z.of_nat (ends t j true);
  pr_one : ∀ w, (ends t j w ≤ 1)%nat
}.

Record abstracts (k : Kernel) (a : Table) : Prop := {
  ab_fs : fs k = a_fs a;
  ab_polls : polls k = a_polls a;
  ab_console : console k = a_console a;
  ab_bufs : Vfs.bufs_ok (fs k);
  ab_len : length (a_files a) = 64%nat;
  ab_files : Forall2 file_rel (OPEN_FILES k) (a_files a);
  ab_pipes : length (PIPES k) = MAX_PIPES;
  ab_queues : length (a_queues a) = MAX_PIPES;
  ab_pipe : ∀ j p q, PIPES k !! j = Some p → a_queues a !! j = Some q → pipe_rel (a_files a) j p q
}.

(** ** Tables *)

Lemma pipe_buf_pos : (0 < PIPE_BUF_SIZE)%nat.
Proof. unfold PIPE_BUF_SIZE. lia. Qed.

#[local] Opaque PIPE_BUF_SIZE.

Lemma position_Forall2 {A B} (R : A → B → Prop) (p : A → bool) (q : B → bool) l l' :
  Forall2 R l l' → (∀ x y, R x y → p x = q y) → position p l = position q l'.
Proof. intros H HR. induction H as [|x y l l' Hxy _ IH]; [done|]. cbn. rewrite (HR x y Hxy). destruct (q y); [done|]. by rewrite IH. Qed.

Lemma file_rel_used f o : file_rel f o → used f = isSome o.
Proof. destruct o; [by intros [-> _]|by intros [-> _]]. Qed.

Lemma free_slot_rel t t' : Forall2 file_rel t t' → free_slot t = a_free t'.
Proof.
  intros H. unfold free_slot, a_free. f_equal. apply (position_Forall2 file_rel); [by apply Forall2_drop|].
  intros f o Hf. by rewrite (file_rel_used f o Hf).
Qed.

Lemma a_free_Some t i : a_free t = Some i → t !! i = Some None ∧ (3 ≤ i)%nat.
Proof.
  unfold a_free. intros H. apply fmap_Some in H as (j & Hj & ->). apply position_Some in Hj as [(o & Ho & Hn) _].
  rewrite lookup_drop in Ho. destruct o; [done|]. rewrite Nat.add_comm. split; [done|lia].
Qed.

Lemma end_open_ends t p w : end_open t p w = negb (ends t p w =? 0)%nat.
Proof.
  unfold end_open, ends. induction t as [|o t IH]; [done|]. rewrite countb_cons. cbn [existsb].
  destruct (is_end p w o); [done|]. by rewrite IH.
Qed.

Lemma ends_insert_same t n o o' p w :
  t !! n = Some o → is_end p w o = is_end p w o' → ends (<[n := o']> t) p w = ends t p w.
Proof. intros Hn He. pose proof (countb_insert (is_end p w) t n o o' Hn) as H. unfold ends. rewrite He in H. lia. Qed.

Lemma slot k a fd :
  abstracts k a → fd < 64 →
  ∃ f, load (OPEN_FILES k) (Z.to_nat fd) = Val f ∧ OPEN_FILES k !! Z.to_nat fd = Some f ∧
    a_files a !! Z.to_nat fd = Some (a_file a fd) ∧ file_rel f (a_file a fd).
Proof.
  intros H Hfd. pose proof (ab_len _ _ H) as Hl.
  destruct (lookup_lt_is_Some_2 (a_files a) (Z.to_nat fd)) as [o Ho]; [lia|].
  destruct (Forall2_lookup_r _ _ _ _ _ (ab_files _ _ H) Ho) as (f & Hf & Hrel). exists f.
  unfold a_file. rewrite (proj2 (Z.ltb_lt _ _)) by done. rewrite Ho. cbn. split_and!; try done. by apply load_Some.
Qed.

Lemma pipe_of k a j : abstracts k a → (j < MAX_PIPES)%nat →
  ∃ p, load (PIPES k) j = Val p ∧ PIPES k !! j = Some p ∧ a_queues a !! j = Some (a_queues a !!! j) ∧
    pipe_rel (a_files a) j p (a_queues a !!! j).
Proof.
  intros H Hj. destruct (lookup_lt_is_Some_2 (PIPES k) j) as [p Hp]; [by rewrite (ab_pipes _ _ H)|].
  destruct (lookup_lt_is_Some_2 (a_queues a) j) as [q Hq]; [by rewrite (ab_queues _ _ H)|].
  rewrite (list_lookup_total_correct _ _ _ Hq). exists p. split_and!; [by apply load_Some|done|done|by apply (ab_pipe _ _ H)].
Qed.

(** Changing a descriptor without opening or closing the end of a pipe. *)
Lemma set_file_rel k a n f o o' :
  abstracts k a → a_files a !! n = Some o → file_rel f o' → (∀ p w, is_end p w o = is_end p w o') →
  abstracts (set_files k (<[n := f]> (OPEN_FILES k))) (a_set_files a (<[n := o']> (a_files a))).
Proof.
  intros H Ho Hf He. destruct H. split; try done; cbn [a_files OPEN_FILES set_files a_set_files].
  - by rewrite length_insert.
  - by apply Forall2_insert.
  - intros j p q Hp Hq. destruct (ab_pipe0 j p q Hp Hq). split; try done; cbn; intros; by rewrite (ends_insert_same _ _ o).
Qed.

Lemma set_polls_rel k a ps : abstracts k a → abstracts (set_polls k ps) (a_set_polls a ps).
Proof. intros []. by split. Qed.

(** Changing the ring of one pipe. *)
Lemma set_pipe_rel k a j p q :
  abstracts k a → pipe_rel (a_files a) j p q → abstracts (set_pipes k (<[j := p]> (PIPES k))) (a_set_queue a j q).
Proof.
  intros [] Hp. split; try done; cbn [a_files PIPES set_pipes a_set_queue a_queues].
  - by rewrite length_insert.
  - by rewrite length_insert.
  - intros j' p' q' Hp' Hq'. apply list_lookup_insert_Some in Hp' as [(-> & -> & Hj)|[Hne Hp']].
    + rewrite list_lookup_insert_eq in Hq' by (rewrite ab_queues0, <- ab_pipes0; done). by injection Hq' as <-.
    + rewrite list_lookup_insert_ne in Hq' by done. by apply ab_pipe0.
Qed.

(** ** Allocation *)

Lemma alloc_rel k a f af :
  abstracts k a → file_rel f (Some af) → (∀ p w, is_end p w (Some af) = false) →
  ∃ k' o, match free_slot (OPEN_FILES k) with
          | Some i => (set_files k (<[i := f]> (OPEN_FILES k)), Some (Z.of_nat i))
          | None => (k, None) end = (k', o) ∧
    default (-23) o = (a_alloc a af).2 ∧ abstracts k' (a_alloc a af).1.
Proof.
  intros H Hf He. unfold a_alloc. rewrite (free_slot_rel _ _ (ab_files _ _ H)).
  destruct (a_free (a_files a)) as [i|] eqn:E; [|by eexists _, _]. eexists _, _. split; [done|]. split; [done|].
  apply a_free_Some in E as [E _]. apply (set_file_rel k a i f None); [done|done|done|]. intros p w. by rewrite He.
Qed.

Lemma fs_rel k a s : abstracts k a → Vfs.bufs_ok s →
  abstracts (set_fs k s) (mkTable s (a_polls a) (a_files a) (a_queues a) (a_console a)).
Proof. intros [] Hs. by split. Qed.

Lemma sys_open_rel i k a m ptr n :
  abstracts k a → Vfs.info_ok i →
  ∃ k', sys_open i k m ptr n = Val (k', (a_open i a m ptr n).2) ∧ abstracts k' (a_open i a m ptr n).1.
Proof.
  intros H Hi. unfold sys_open, a_open. destruct (read_user_bytes m ptr n) as [b|]; [|by exists k].
  destruct (negb _); [by exists k|].
  destruct (Vfs.lookup_total i (fs k) (trim_nul b) Hi (ab_bufs _ _ H)) as (s & r & E & Hs & _).
  unfold a_lookup. rewrite <- (ab_fs _ _ H), E. cbn [obind].
  pose proof (fs_rel k a s H Hs) as H1. set (a1 := mkTable s _ _ _ _) in *. set (k1 := set_fs k s) in *. destruct r as [d|].
  - destruct (alloc_rel k1 a1 (empty_file d) (mkOpen d 0 Regular) H1) as (k2 & o & E2 & Er & Hk); [done|done|].
    unfold fd_alloc. rewrite E2, Er. by exists k2.
  - destruct (Vfs.is_dir s (trim_nul b)); [|by exists k1].
    set (path := trim_nul b). set (n0 := Nat.min (length path) 192).
    destruct (alloc_rel k1 a1 (mkFile (Vfs.Static []) 0 true true (copy_at (replicate 192 0) 0 (take n0 path)) n0 (-1) false)
      (mkOpen (Vfs.Static []) 0 (Directory (take 192 path))) H1) as (k2 & o & E2 & Er & Hk); [|done|].
    + assert (length (take n0 path) = n0) as Hn by (rewrite length_take; lia).
      cbn [file_rel a_kind a_data a_off used data offset is_dir pipe_id dir_path dir_path_len]. split_and!; try done.
      * rewrite copy_at_length; [done|]. rewrite Hn, length_replicate. lia.
      * lia.
      * rewrite <- Hn at 1. rewrite take_copy_at_0. unfold n0. destruct (Nat.le_ge_cases (length path) 192).
        -- rewrite Nat.min_l, !take_ge by lia. done.
        -- by rewrite Nat.min_r by lia.
    + unfold fd_alloc_dir. fold n0. rewrite E2, Er. by exists k2.
Qed.

(** ** Closing and opening the ends of a pipe *)

(** Changing the ends of one pipe and its ring. *)
Lemma set_ends_rel k a t T j p q :
  abstracts k a → Forall2 file_rel T t → length t = 64%nat → (∀ j' w, j' ≠ j → ends t j' w = ends (a_files a) j' w) →
  pipe_rel t j p q → (j < MAX_PIPES)%nat →
  abstracts (mkKernel (fs k) (polls k) T (<[j := p]> (PIPES k)) (console k)) (a_set_queue (a_set_files a t) j q).
Proof.
  intros [] HT Ht He Hp Hj. split; try done; cbn [a_files PIPES a_set_queue a_queues a_set_files].
  - by rewrite length_insert.
  - by rewrite length_insert.
  - intros j' p' q' Hp' Hq'. apply list_lookup_insert_Some in Hp' as [(-> & -> & _)|[Hne Hp']].
    + rewrite list_lookup_insert_eq in Hq' by (by rewrite ab_queues0). by injection Hq' as <-.
    + rewrite list_lookup_insert_ne in Hq' by done. destruct (ab_pipe0 j' p' q' Hp' Hq').
      split; try done; intros; by rewrite He.
Qed.

Lemma is_end_other p w p' w' f : a_kind f = End p w → is_end p' w' (Some f) = (p =? p')%nat && Bool.eqb w w'.
Proof. intros H. cbn. by rewrite H. Qed.

Lemma ends_insert t n o o' p w :
  t !! n = Some o →
  (ends (<[n := o']> t) p w + (if is_end p w o then 1 else 0) = ends t p w + (if is_end p w o' then 1 else 0))%nat.
Proof. apply countb_insert. Qed.

Lemma a_id a n o : a_files a !! n = Some o → a_set_files a (<[n := o]> (a_files a)) = a.
Proof. intros H. unfold a_set_files. rewrite list_insert_id by done. by destruct a. Qed.

Lemma queue_id a j : a_queues a !! j = Some (a_queues a !!! j) → a_set_queue a j (a_queues a !!! j) = a.
Proof. intros H. unfold a_set_queue. rewrite list_insert_id by done. by destruct a. Qed.

Lemma sys_close_rel k a fd :
  abstracts k a → ∃ k', sys_close k fd = Val (k', 0) ∧ abstracts k' (a_close a fd).
Proof.
  intros H. unfold sys_close, a_close. destruct (_ || _) eqn:E; [by exists k|]. unbool.
  destruct (slot k a fd H) as (f & -> & Hf & Ho & Hrel); [done|]. cbn [obind]. rewrite (file_rel_used _ _ Hrel).
  destruct (a_file a fd) as [af|]; cbn [isSome negb]; [|exists k; by rewrite a_id].
  destruct Hrel as (Hu & Hd & Hof & Hk). destruct (a_kind af) as [|path|p w] eqn:Ek.
  - destruct Hk as [_ Hp]. rewrite Hp. cbn. eexists. split; [done|]. apply (set_file_rel k a _ _ (Some af)); try done.
    intros p w. cbn. by rewrite Ek.
  - destruct Hk as (_ & Hp & _). rewrite Hp. cbn. eexists. split; [done|]. apply (set_file_rel k a _ _ (Some af)); try done.
    intros p w. cbn. by rewrite Ek.
  - destruct Hk as (_ & Hp & Hw & Hlt). rewrite Hp, (proj2 (Z.leb_le _ _)), Nat2Z.id by lia.
    destruct (pipe_of k a p H Hlt) as (pb & -> & Hpb & Hq & Hr). cbn [obind]. eexists. split; [done|].
    set (t := <[Z.to_nat fd := None]> (a_files a)). set (q := a_queues a !!! p) in *.
    assert (a_set_files a t = a_set_queue (a_set_files a t) p q) as -> by (unfold a_set_queue, a_set_files, q; cbn; by rewrite list_insert_id).
    assert (∀ p' w', (ends t p' w' + (if (p =? p')%nat && Bool.eqb w w' then 1 else 0) = ends (a_files a) p' w')%nat) as Hends.
    { intros p' w'. pose proof (ends_insert (a_files a) _ _ None p' w' Ho) as He. rewrite (is_end_other p w _ _ _ Ek) in He. cbn in He. fold t in He. lia. }
    apply (set_ends_rel k a t _ p); try done.
    + apply Forall2_insert; [apply (ab_files _ _ H)|]. by split.
    + unfold t. rewrite length_insert. apply (ab_len _ _ H).
    + intros j' w' Hne. specialize (Hends j' w'). rewrite (proj2 (Nat.eqb_neq p j')) in Hends by done. cbn in Hends. lia.
    + destruct Hr. split; try done; cbn [r_refs w_refs]; try (specialize (Hends p)).
      * specialize (Hends false). rewrite Nat.eqb_refl, Hw, pr_r0 in *. specialize (pr_one0 false). destruct w; cbn in *; [lia|]. case_if; unbool; lia.
      * specialize (Hends true). rewrite Nat.eqb_refl, Hw, pr_w0 in *. specialize (pr_one0 true). destruct w; cbn in *; [|lia]. case_if; unbool; lia.
      * intros w'. specialize (pr_one0 w'). specialize (Hends w'). lia.
Qed.

Lemma free_pipe_rel k a :
  abstracts k a →
  position free_pipe (PIPES k) =
  position (λ p, negb (end_open (a_files a) p false) && negb (end_open (a_files a) p true)) (seq 0 MAX_PIPES).
Proof.
  intros H. apply (position_Forall2 (λ p j, ∃ q, pipe_rel (a_files a) j p q)).
  - apply Forall2_same_length_lookup_2; [by rewrite length_seq, (ab_pipes _ _ H)|]. intros i p j Hp Hj.
    apply lookup_seq in Hj as [-> Hj]. destruct (pipe_of k a i H Hj) as (p' & _ & Hp' & _ & Hr). rewrite Hp in Hp'.
    injection Hp' as <-. by eexists.
  - intros p j [q []]. unfold free_pipe. rewrite pr_r0, pr_w0, !end_open_ends, !negb_involutive.
    destruct (ends _ _ false), (ends _ _ true); done.
Qed.

Lemma pipe_new t j b r w :
  length b = PIPE_BUF_SIZE → r = Z.of_nat (ends t j false) → w = Z.of_nat (ends t j true) → (∀ x, (ends t j x ≤ 1)%nat) →
  pipe_rel t j (mkPipe b 0 0 0 r w) [].
Proof.
  intros. pose proof pipe_buf_pos. split; try done; cbn; lia.
Qed.

Lemma sys_pipe2_rel k a m ptr :
  abstracts k a →
  ∃ k', sys_pipe2 k m ptr = Val (k', (a_pipe2 a m ptr).1.2, (a_pipe2 a m ptr).2) ∧ abstracts k' (a_pipe2 a m ptr).1.1.
Proof.
  intros H. unfold sys_pipe2, a_pipe2. destruct (ptr =? 0); [by exists k|]. rewrite (free_pipe_rel k a H).
  destruct (position _ (seq _ _)) as [j|] eqn:Ej; [|by exists k]. apply position_Some in Ej as [(j' & Hj & Hfree) _].
  apply lookup_seq in Hj as [-> Hj]. cbn [Nat.add] in Hfree. rewrite !end_open_ends, !negb_involutive in Hfree. unbool.
  destruct (pipe_of k a j H Hj) as (p & -> & Hp & Hq & Hr). cbn [obind OPEN_FILES set_pipes].
  rewrite (free_slot_rel _ _ (ab_files _ _ H)).
  assert (∀ x, ends (a_files a) j x = O) as Hno by (intros []; done).
  assert (abstracts (mkKernel (fs k) (polls k) (OPEN_FILES k) (<[j := mkPipe (buf p) 0 0 0 0 0]> (PIPES k)) (console k)) (a_set_queue a j [])) as Hfail.
  { replace (a_set_queue a j []) with (a_set_queue (a_set_files a (a_files a)) j []) by done.
    apply set_ends_rel; try done; [apply (ab_files _ _ H)|apply (ab_len _ _ H)|].
    apply pipe_new; rewrite ?Hno; try done; [apply Hr|]. intros x. rewrite Hno. lia. }
  destruct (a_free (a_files a)) as [r|] eqn:Er; cbn [obind fst snd PIPES set_pipes].
  2: { rewrite list_insert_insert_eq. eexists. split; [done|]. exact Hfail. }
  apply a_free_Some in Er as [Er _].
  set (T1 := <[r := pipe_end (Z.of_nat j) false]> (OPEN_FILES k)). set (t1 := <[r := Some _]> (a_files a)).
  assert (Forall2 file_rel T1 t1) as HT1 by (apply Forall2_insert; [apply (ab_files _ _ H)|done]).
  rewrite (free_slot_rel _ _ HT1). destruct (a_free t1) as [w|] eqn:Ew.
  - eexists. split; [done|]. cbn [fst]. apply a_free_Some in Ew as [Ew _]. unfold set_files. cbn [fs polls PIPES console set_pipes].
    assert (∀ j' x, ends (<[w := Some (mkOpen (Vfs.Static []) 0 (End j true))]> t1) j' x =
                    (ends (a_files a) j' x + (if (j =? j')%nat then 1 else 0))%nat) as He.
    { intros j' x. pose proof (ends_insert _ _ _ (Some (mkOpen (Vfs.Static []) 0 (End j true))) j' x Ew) as E2.
      pose proof (ends_insert _ _ _ (Some (mkOpen (Vfs.Static []) 0 (End j false))) j' x Er) as E1. fold t1 in E1.
      cbn [is_end a_kind] in E1, E2. destruct (j =? j')%nat, x; cbn in *; lia. }
    apply set_ends_rel; try done.
    + by apply Forall2_insert.
    + unfold t1. rewrite !length_insert. apply (ab_len _ _ H).
    + intros j' x Hne. rewrite He, (proj2 (Nat.eqb_neq j j')) by done. lia.
    + apply pipe_new; [apply Hr|..]; intros; rewrite He, Hno, Nat.eqb_refl; done.
  - assert (r < length (OPEN_FILES k))%nat as Hlt by (rewrite (Forall2_length _ _ _ (ab_files _ _ H)); by eapply lookup_lt_Some).
    rewrite (load_Some T1 r (pipe_end (Z.of_nat j) false)) by (by apply list_lookup_insert_eq). cbn [obind].
    eexists. split; [done|]. cbn [fst fs polls console set_pipes]. rewrite list_insert_insert_eq.
    unfold T1. rewrite list_insert_insert_eq.
    set (f := set_pipe_id _ _). assert (Forall2 file_rel (<[r := f]> (OPEN_FILES k)) (a_files a)) as HT.
    { rewrite <- (list_insert_id (a_files a) r None) by done. apply Forall2_insert; [apply (ab_files _ _ H)|done]. }
    destruct Hfail. by split.
Qed.

(** ** Writing *)

Lemma push_loop src : ∀ p n q,
  length (buf p) = PIPE_BUF_SIZE → tail p = ring_slot PIPE_BUF_SIZE (head p) n →
  ring_view PIPE_BUF_SIZE (buf p) (head p) n = q → (n + length src ≤ PIPE_BUF_SIZE)%nat →
  ∃ b, for_list src pipe_push p =
      Val (mkPipe b (head p) (ring_slot PIPE_BUF_SIZE (head p) (n + length src)) (len p) (r_refs p) (w_refs p)) ∧
    length b = PIPE_BUF_SIZE ∧ ring_view PIPE_BUF_SIZE b (head p) (n + length src) = q ++ src.
Proof.
  assert (0 < PIPE_BUF_SIZE)%nat as Hpos by apply pipe_buf_pos.
  induction src as [|c src IH]; intros p n q Hb Ht Hq Hn; cbn [for_list length] in *.
  - rewrite Nat.add_0_r, app_nil_r, <- Ht. exists (buf p). by destruct p.
  - unfold pipe_push at 1. rewrite store_ok by (rewrite Hb, Ht; by apply ring_slot_lt). cbn [obind].
    set (p1 := mkPipe _ _ _ _ _ _).
    destruct (IH p1 (S n) (q ++ [c])) as (b & E & Hlb & Hv).
    + cbn. by rewrite length_insert.
    + cbn [tail head p1]. rewrite Ht, ring_slot_next by done. f_equal. lia.
    + cbn [buf head p1]. rewrite Ht, ring_view_push by (done || lia). by rewrite Hq.
    + lia.
    + exists b. rewrite <- app_assoc in Hv. replace (n + S (length src))%nat with (S n + length src)%nat by lia. by rewrite E.
Qed.

Lemma read_fds_rel T t p : Forall2 file_rel T t → read_fds T p = a_readers t p.
Proof.
  intros H. unfold read_fds, a_readers. apply List.filter_ext. intros r. destruct (T !! Z.to_nat r) as [f|] eqn:Ef.
  - destruct (Forall2_lookup_l _ _ _ _ _ H Ef) as (o & -> & Hrel). cbn [mjoin option_join]. rewrite (file_rel_used _ _ Hrel). destruct o as [af|]; [|done].
    destruct Hrel as (_ & _ & _ & Hk). cbn [isSome is_end andb]. change (mjoin (Some (Some af))) with (Some af). cbn [is_end].
    destruct (a_kind af) as [|path|p' w]; [destruct Hk as [_ ->]|destruct Hk as (_ & -> & _)|destruct Hk as (_ & -> & -> & _)].
    + rewrite (proj2 (Z.eqb_neq _ _)) by lia. done.
    + rewrite (proj2 (Z.eqb_neq _ _)) by lia. done.
    + destruct w; rewrite ?andb_false_r, ?andb_true_r; [done|]. cbn. rewrite ?andb_true_r.
      destruct (p' =? p)%nat eqn:E; unbool; [subst; apply Z.eqb_refl|]. apply Z.eqb_neq. lia.
  - assert (t !! Z.to_nat r = None) as ->; [|done]. apply lookup_ge_None. rewrite <- (Forall2_length _ _ _ H). by apply lookup_ge_None.
Qed.

Lemma pipe_write_rel k a m f p ptr n :
  abstracts k a → pipe_id f = Z.of_nat p → pipe_is_write f = true → (p < MAX_PIPES)%nat →
  ∃ k' w, pipe_write k m f ptr n = Val (k', w, (a_pipe_write a m p ptr n).2) ∧ abstracts k' (a_pipe_write a m p ptr n).1.
Proof.
  intros H Hp Hw Hlt. unfold pipe_write, a_pipe_write. rewrite Hw, Hp, Nat2Z.id. cbn [negb].
  destruct (read_user_bytes m ptr n) as [src|]; [|by exists k, []].
  destruct (pipe_of k a p H Hlt) as (pb & -> & Hpb & Hq & Hr). cbn [obind]. pose proof Hr as [].
  rewrite end_open_ends, negb_involutive, pr_r0. destruct (ends (a_files a) p false) as [|e] eqn:Ee; [by exists k, []|].
  rewrite (proj2 (Z.eqb_neq _ _)) by lia. cbn [Nat.eqb].
  set (q := a_queues a !!! p) in *. assert (length q = len pb) as Hlq by (rewrite <- pr_queue0; apply ring_view_length).
  rewrite Hlq. set (taken := take (PIPE_BUF_SIZE - len pb) src).
  assert (take (Nat.min (length src) (PIPE_BUF_SIZE - len pb)) src = taken) as ->.
  { unfold taken. destruct (Nat.le_ge_cases (length src) (PIPE_BUF_SIZE - len pb)); [rewrite Nat.min_l, !take_ge by lia; done|by rewrite Nat.min_r by lia]. }
  assert (Nat.min (length src) (PIPE_BUF_SIZE - len pb) = length taken) as -> by (unfold taken; rewrite length_take; lia).
  assert (len pb + length taken ≤ PIPE_BUF_SIZE)%nat as Hfit by (unfold taken; rewrite length_take; lia).
  destruct (push_loop taken pb (len pb) q) as (b & -> & Hlb & Hv); [done..|]. cbn [obind].
  assert (abstracts (set_pipes k (<[p := add_len (mkPipe b (head pb) (ring_slot PIPE_BUF_SIZE (head pb) (len pb + length taken)) (len pb) (r_refs pb) (w_refs pb)) (length taken)]> (PIPES k)))
    (a_set_queue a p (q ++ taken))) as H1.
  { apply set_pipe_rel; [done|]. split; try done. cbn. by rewrite Ee. }
  destruct taken as [|c taken]; cbn [length Nat.ltb Nat.leb Nat.eqb].
  - cbn [fst snd] in *. eexists _, _. split; [done|]. destruct H1. by split.
  - cbn [OPEN_FILES set_pipes polls]. rewrite (read_fds_rel _ _ p (ab_files _ _ H)), (ab_polls _ _ H).
    destruct (Poll.wake_each _ _) as [ps woken]. eexists _, _. split; [done|]. cbn [fst]. by apply set_polls_rel.
Qed.

Lemma print_rel k a m ptr n :
  abstracts k a → ∃ k', print k m ptr n = (k', (a_print a m ptr n).2) ∧ abstracts k' (a_print a m ptr n).1.
Proof.
  intros H. unfold print, a_print. destruct (read_user_bytes m ptr n) as [b|]; [|by exists k].
  destruct (isSome _); [|by exists k]. eexists. split; [done|]. destruct H. split; try done. cbn. by rewrite ab_console0.
Qed.

Lemma sys_write_rel k a m fd ptr n :
  abstracts k a → ∃ k' w, sys_write k m fd ptr n = Val (k', w, (a_write a m fd ptr n).2) ∧ abstracts k' (a_write a m fd ptr n).1.
Proof.
  intros H. unfold sys_write, a_write. pose proof (set_polls_rel k a) as Hps. rewrite (ab_polls _ _ H).
  destruct (MAX_OPEN_FILES <=? fd) eqn:E; [destruct (Poll.write_synth _ _ _ _ _) as [[ps w]|]; eauto|].
  destruct (print_rel k a m ptr n H) as (k1 & Ep & H1). rewrite Ep.
  destruct (fd <? 3) eqn:E3; [rewrite (proj2 (Z.leb_gt _ _)) by (by apply Z.ltb_lt); eauto|].
  apply Z.ltb_ge in E3. rewrite (proj2 (Z.leb_le _ _)) by done. unbool.
  destruct (slot k a fd H) as (f & -> & Hf & Ho & Hrel); [done|]. cbn [obind]. rewrite (file_rel_used _ _ Hrel).
  assert (∃ k' w, match Poll.write_timer (a_polls a) m fd ptr n with
      | Some (ps, woken) => Val (set_polls k ps, woken, i64 n) | None => Val (k1, [], (a_print a m ptr n).2) end =
      Val (k', w, (match Poll.write_timer (a_polls a) m fd ptr n with
        | Some (ps, _) => (a_set_polls a ps, i64 n) | None => a_print a m ptr n end).2) ∧
    abstracts k' (match Poll.write_timer (a_polls a) m fd ptr n with
        | Some (ps, _) => (a_set_polls a ps, i64 n) | None => a_print a m ptr n end).1) as Hother.
  { destruct (Poll.write_timer _ _ _ _ _) as [[ps w]|]; eauto. }
  destruct (a_file a fd) as [af|]; cbn [isSome andb fmap option_fmap option_map]; [|done].
  destruct Hrel as (_ & _ & _ & Hk). destruct (a_kind af) as [|path|p w].
  - destruct Hk as [_ ->]. done.
  - destruct Hk as (_ & -> & _). done.
  - destruct Hk as (_ & Hp & Hw & Hlt). rewrite Hp, (proj2 (Z.leb_le _ _)) by lia. destruct w; [by apply pipe_write_rel|].
    unfold pipe_write. rewrite Hw. cbn. by exists k, [].
Qed.

Lemma writev_loop_rel cnt : ∀ k a m fd iov w total,
  abstracts k a → ∃ k' w', writev_loop cnt k m fd iov w total = Val (k', w', (a_writev_loop cnt a m fd iov total).2) ∧
    abstracts k' (a_writev_loop cnt a m fd iov total).1.
Proof.
  induction cnt as [|cnt IH]; intros k a m fd iov w total H; cbn [writev_loop a_writev_loop]; [by exists k, w|].
  destruct (_ =? 0); [by apply IH|]. set (base := read_word 8 m iov). set (n := read_word 8 m (iov + 8)).
  destruct (sys_write_rel k a m fd base n H) as (k1 & w1 & -> & H1). cbn [obind].
  destruct (a_write a m fd base n) as [a1 r]. cbn [fst snd] in *. destruct (r <? 0); [by eexists _, _|].
  destruct (negb _); [by eexists _, _|]. by apply IH.
Qed.

Lemma sys_writev_rel k a m fd iov cnt :
  abstracts k a → ∃ k' w, sys_writev k m fd iov cnt = Val (k', w, (a_writev a m fd iov cnt).2) ∧ abstracts k' (a_writev a m fd iov cnt).1.
Proof.
  intros H. unfold sys_writev, a_writev. destruct (_ || _); [by eexists _, _|]. destruct (_ <? _); [by eexists _, _|].
  by apply writev_loop_rel.
Qed.

(** ** Reading *)

Lemma write_list_cons m p c bs : write_list (write_byte m p c) (p + 1) bs = write_list m p (c :: bs).
Proof.
  apply functional_extensionality. intros x. unfold write_list, write_byte. cbn [length].
  destruct (decide (x = p)) as [->|Hne].
  - rewrite Z.eqb_refl, (proj2 (Z.leb_gt (p + 1) p)), (proj2 (Z.leb_le p p)) by lia.
    cbn [andb]. rewrite (proj2 (Z.ltb_lt p (p + Z.of_nat (S (length bs))))), Z.sub_diag by lia. done.
  - rewrite (proj2 (Z.eqb_neq x p)) by done.
    destruct (decide (p < x < p + 1 + Z.of_nat (length bs))) as [Hin|Hout].
    + rewrite (proj2 (Z.leb_le (p + 1) x)), (proj2 (Z.ltb_lt x (p + 1 + _))), (proj2 (Z.leb_le p x)), (proj2 (Z.ltb_lt x (p + Z.of_nat (S _)))) by lia.
      cbn [andb]. replace (Z.to_nat (x - p)) with (S (Z.to_nat (x - (p + 1)))) by lia. done.
    + replace ((p + 1 <=? x) && (x <? p + 1 + Z.of_nat (length bs))) with false by (symmetry; apply andb_false_iff; rewrite Z.leb_gt, Z.ltb_ge; lia).
      replace ((p <=? x) && (x <? p + Z.of_nat (S (length bs)))) with false by (symmetry; apply andb_false_iff; rewrite Z.leb_gt, Z.ltb_ge; lia).
      done.
Qed.

Lemma write_list_nil m p : write_list m p [] = m.
Proof.
  apply functional_extensionality. intros x. unfold write_list. cbn [length].
  replace ((p <=? x) && (x <? p + Z.of_nat 0)) with false; [done|]. symmetry. apply andb_false_iff. rewrite Z.leb_gt, Z.ltb_ge. lia.
Qed.

Lemma pop_loop n : ∀ m dst p l,
  length (buf p) = PIPE_BUF_SIZE → (head p < PIPE_BUF_SIZE)%nat → (n ≤ l)%nat →
  let q := ring_view PIPE_BUF_SIZE (buf p) (head p) l in
  ∃ h, pipe_pop n m dst p = Val (write_list m dst (take n q), mkPipe (buf p) h (tail p) (len p) (r_refs p) (w_refs p)) ∧
    (h < PIPE_BUF_SIZE)%nat ∧ ring_view PIPE_BUF_SIZE (buf p) h (l - n) = drop n q ∧
    ring_slot PIPE_BUF_SIZE h (l - n) = ring_slot PIPE_BUF_SIZE (head p) l.
Proof.
  assert (0 < PIPE_BUF_SIZE)%nat as Hpos by apply pipe_buf_pos.
  induction n as [|n IH]; intros m dst p l Hb Hh Hn; cbn [pipe_pop].
  - exists (head p). cbn [take]. rewrite Nat.sub_0_r, write_list_nil. by destruct p.
  - destruct l as [|l]; [lia|]. cbn zeta. rewrite ring_view_pop by done.
    rewrite (load_Some _ _ (buf p !!! head p)) by (apply list_lookup_lookup_total_lt; lia). cbn [obind].
    set (p1 := mkPipe _ _ _ _ _ _).
    destruct (IH (write_byte m dst (buf p !!! head p)) (dst + 1) p1 l) as (h & -> & Hh' & Hv & Hs); [done| |lia|].
    { apply Nat.mod_upper_bound. lia. }
    exists h. cbn [buf head tail len r_refs w_refs p1 take drop Nat.sub] in *. rewrite write_list_cons. split_and!; try done.
    rewrite Hs. by rewrite ring_slot_succ.
Qed.

Lemma pipe_read_rel k a m f p ptr n :
  abstracts k a → pipe_id f = Z.of_nat p → pipe_is_write f = false → (p < MAX_PIPES)%nat →
  let r := match a_queues a !!! p with
    | [] => (a, m, if end_open (a_files a) p true then -11 else 0)
    | q => let got := take (Z.to_nat n) q in
           (a_set_queue a p (drop (Z.to_nat n) q), write_list m ptr got, Z.of_nat (length got))
    end in
  ∃ k', pipe_read k m f ptr n = Val (k', r.1.2, r.2) ∧ abstracts k' r.1.1.
Proof.
  intros H Hp Hw Hlt. unfold pipe_read. rewrite Hw, Hp, Nat2Z.id.
  destruct (pipe_of k a p H Hlt) as (pb & -> & Hpb & Hq & Hr). cbn [obind]. pose proof Hr as [].
  set (q := a_queues a !!! p) in *. assert (length q = len pb) as Hlq by (rewrite <- pr_queue0; apply ring_view_length).
  destruct q as [|c q'] eqn:Eq; cbn [length] in Hlq; rewrite <- Hlq; cbn [Nat.eqb].
  - rewrite end_open_ends, pr_w0. exists k. split; [|done]. destruct (ends (a_files a) p true); done.
  - set (q0 := c :: q') in *. rewrite Hlq in *. set (cnt := Nat.min _ _). assert (length q0 = len pb) as Hq0 by done. clearbody q0.
    assert (take cnt q0 = take (Z.to_nat n) q0 ∧ drop cnt q0 = drop (Z.to_nat n) q0 ∧ length (take (Z.to_nat n) q0) = cnt) as (Et & Ed & El).
    { rewrite length_take, Hq0. unfold cnt. split_and!; [| |done].
      all: destruct (Nat.le_ge_cases (Z.to_nat n) (len pb)) as [Hle|Hge]; [by rewrite Nat.min_l by lia|].
      all: rewrite Nat.min_r by lia; rewrite ?take_ge, ?drop_ge by lia; done. }
    destruct (pop_loop cnt m ptr pb (len pb)) as (h & -> & Hh & Hv & Hs); [done|done|unfold cnt; lia|].
    rewrite pr_queue0, Et, Ed in *. cbn [obind]. eexists. split; [by rewrite El|]. cbn [fst]. apply set_pipe_rel; [done|].
    split; try done; cbn; [lia|]. by rewrite pr_tail0.
Qed.

Lemma sys_read_rel freed now k a m fd ptr n :
  abstracts k a →
  ∃ k', sys_read freed now k m fd ptr n = Val (k', (a_read freed now a m fd ptr n).1.2, (a_read freed now a m fd ptr n).2) ∧
    abstracts k' (a_read freed now a m fd ptr n).1.1.
Proof.
  intros H. unfold sys_read, a_read. destruct (n =? 0); [by exists k|]. destruct (ptr =? 0); [by exists k|].
  rewrite (ab_polls _ _ H). destruct (Poll.read_synth _ _ _ _ _ _) as [[[ps m1] r]|].
  { eexists. split; [done|]. by apply set_polls_rel. }
  destruct (MAX_OPEN_FILES <=? fd) eqn:E.
  { unfold a_file. rewrite (proj2 (Z.ltb_ge _ _)) by (by apply Z.leb_le). by exists k. }
  unbool. destruct (slot k a fd H) as (f & -> & Hf & Ho & Hrel); [done|]. cbn [obind]. rewrite (file_rel_used _ _ Hrel).
  destruct (a_file a fd) as [af|]; cbn [isSome negb]; [|by exists k].
  pose proof Hrel as (Hu & Hd & Hof & Hk). rewrite Hd, Hof, (ab_fs _ _ H).
  set (got := Z.min n (Vfs.slice_len (a_data af) - a_off af)).
  assert (abstracts (set_files k (<[Z.to_nat fd := set_offset f (u64 (a_off af + got))]> (OPEN_FILES k)))
    (a_set_files a (<[Z.to_nat fd := Some (mkOpen (a_data af) (u64 (a_off af + got)) (a_kind af))]> (a_files a)))) as Hset.
  { apply (set_file_rel k a _ _ (Some af)); done. }
  destruct (a_kind af) as [|path|p w] eqn:Ek.
  - destruct Hk as [_ ->]. change (0 <=? -1) with false. cbn match. destruct (_ <=? _); [by exists k|]. by eexists.
  - destruct Hk as (_ & -> & _). change (0 <=? -1) with false. cbn match. destruct (_ <=? _); [by exists k|]. by eexists.
  - destruct Hk as (_ & Hp & Hw & Hlt). rewrite Hp, (proj2 (Z.leb_le _ _)) by lia. destruct w; [|by apply pipe_read_rel].
    unfold pipe_read. rewrite Hw. by exists k.
Qed.

(** ** Positions, [stat] and the calls on paths *)

Lemma sys_lseek_rel k a fd off wh :
  abstracts k a → ∃ k', sys_lseek k fd off wh = Val (k', (a_lseek a fd off wh).2) ∧ abstracts k' (a_lseek a fd off wh).1.
Proof.
  intros H. unfold sys_lseek, a_lseek. destruct (fd <? 3) eqn:E3; [by exists k|]. cbn [orb].
  destruct (MAX_OPEN_FILES <=? fd) eqn:E.
  { unfold a_file. rewrite (proj2 (Z.ltb_ge _ _)) by (by apply Z.leb_le). by exists k. }
  unbool. destruct (slot k a fd H) as (f & -> & Hf & Ho & Hrel); [done|]. cbn [obind]. rewrite (file_rel_used _ _ Hrel).
  destruct (a_file a fd) as [af|]; cbn [isSome negb]; [|by exists k].
  pose proof Hrel as (Hu & -> & -> & Hk).
  assert (∀ z, abstracts (set_files k (<[Z.to_nat fd := set_offset f z]> (OPEN_FILES k)))
    (a_set_files a (<[Z.to_nat fd := Some (mkOpen (a_data af) z (a_kind af))]> (a_files a)))) as Hset.
  { intros z. apply (set_file_rel k a _ _ (Some af)); try done. unfold file_rel in *. cbn. tauto. }
  repeat case_if; by eexists.
Qed.

Lemma sys_fstat_rel k a m fd ptr :
  abstracts k a → fd < MAX_OPEN_FILES → sys_fstat k m fd ptr = Val (a_fstat a m fd ptr).
Proof.
  intros H Hfd. unfold sys_fstat, a_fstat. destruct (fd <? 3); [done|].
  destruct (slot k a fd H Hfd) as (f & -> & Hf & Ho & Hrel). cbn [obind]. rewrite (file_rel_used _ _ Hrel).
  destruct (a_file a fd) as [af|]; cbn [isSome negb]; [|done]. destruct Hrel as (_ & -> & _ & Hk).
  destruct (a_kind af); destruct Hk as [-> _]; done.
Qed.

(** A descriptor that is handed out is in the table. *)
Lemma a_open_range i a m ptr n : length (a_files a) = 64%nat → (a_open i a m ptr n).2 < MAX_OPEN_FILES.
Proof.
  intros Hl. assert (∀ a' f, a_files a' = a_files a → (a_alloc a' f).2 < MAX_OPEN_FILES) as Halloc.
  { intros a' f Ha. unfold a_alloc. rewrite Ha. destruct (a_free (a_files a)) as [j|] eqn:Ej; [|done].
    apply a_free_Some in Ej as [Hj _]. apply lookup_lt_Some in Hj. cbn. unfold MAX_OPEN_FILES. lia. }
  unfold a_open. destruct (read_user_bytes m ptr n) as [b|]; [|done]. destruct (negb _); [done|].
  destruct (a_lookup _ _ _) as [s [d|]]; [by apply Halloc|]. destruct (Vfs.is_dir _ _); [by apply Halloc|done].
Qed.

Lemma sys_stat_path_rel i k a m p q :
  abstracts k a → Vfs.info_ok i →
  ∃ k', sys_stat_path i k m p q = Val (k', (a_stat_path i a m p q).1.2, (a_stat_path i a m p q).2) ∧
    abstracts k' (a_stat_path i a m p q).1.1.
Proof.
  intros H Hi. unfold sys_stat_path, a_stat_path. generalize (Z.of_nat (cstr_len 4096 m p)). intros n.
  destruct (p =? 0); [by exists k|].
  pose proof (a_open_range i a m p n (ab_len _ _ H)) as Hlt.
  destruct (sys_open_rel i k a m p n H Hi) as (k1 & -> & H1). cbn [obind].
  destruct (a_open _ _ _ _ _) as [a1 fd]. cbn [fst snd] in *. destruct (fd <? 0); [by exists k1|].
  rewrite (sys_fstat_rel k1 a1) by done. cbn [obind]. destruct (a_fstat a1 m fd q) as [m1 r].
  destruct (sys_close_rel k1 a1 fd H1) as (k2 & -> & H2). by exists k2.
Qed.

Lemma sys_access_path_rel i k a m p :
  abstracts k a → Vfs.info_ok i →
  ∃ k', sys_access_path i k m p = Val (k', (a_access_path i a m p).2) ∧ abstracts k' (a_access_path i a m p).1.
Proof.
  intros H Hi. unfold sys_access_path, a_access_path. generalize (Z.of_nat (cstr_len 4096 m p)). intros n.
  destruct (p =? 0); [by exists k|].
  destruct (sys_open_rel i k a m p n H Hi) as (k1 & -> & H1). cbn [obind].
  destruct (a_open _ _ _ _ _) as [a1 fd]. cbn [fst snd] in *. destruct (fd <? 0); [by exists k1|].
  destruct (sys_close_rel k1 a1 fd H1) as (k2 & -> & H2). by exists k2.
Qed.

Lemma run_call_rel freed c k a m :
  abstracts k a → call_ok c →
  ∃ k', run_call freed c k m = Val (k', (spec_call freed c a m).1.2, (spec_call freed c a m).2) ∧
    abstracts k' (spec_call freed c a m).1.1.
Proof.
  intros H Hc. destruct c; cbn [run_call spec_call] in *.
  - destruct (sys_open_rel i k a m path_ptr path_len H Hc) as (k1 & -> & H1). destruct (a_open _ _ _ _ _). by exists k1.
  - destruct (sys_close_rel k a fd H) as (k1 & -> & H1). by exists k1.
  - by apply sys_read_rel.
  - destruct (sys_write_rel k a m fd ptr n H) as (k1 & w & -> & H1). destruct (a_write _ _ _ _ _). by exists k1.
  - destruct (sys_writev_rel k a m fd iov cnt H) as (k1 & w & -> & H1). destruct (a_writev _ _ _ _ _). by exists k1.
  - destruct (sys_lseek_rel k a fd off whence H) as (k1 & -> & H1). destruct (a_lseek _ _ _ _). by exists k1.
  - rewrite (sys_fstat_rel k a) by done. destruct (a_fstat _ _ _ _). by exists k.
  - by apply sys_stat_path_rel.
  - destruct (sys_access_path_rel i k a m path_ptr H Hc) as (k1 & -> & H1). destruct (a_access_path _ _ _ _). by exists k1.
  - by apply sys_pipe2_rel.
Qed.

Lemma run_calls_rel freed cs : ∀ k a m,
  abstracts k a → Forall call_ok cs →
  ∃ k', run_calls freed cs k m = Val (k', (spec_calls freed cs a m).1.2, (spec_calls freed cs a m).2) ∧
    abstracts k' (spec_calls freed cs a m).1.1.
Proof.
  induction cs as [|c cs IH]; intros k a m H Hc; cbn [run_calls spec_calls]; [by exists k|].
  apply Forall_cons in Hc as [Hc Hcs]. destruct (run_call_rel freed c k a m H Hc) as (k1 & -> & H1). cbn [obind].
  destruct (spec_call freed c a m) as [[a1 m1] r]. cbn [fst snd] in *.
  destruct (IH k1 a1 m1 H1 Hcs) as (k2 & -> & H2). cbn [obind].
  destruct (spec_calls freed cs a1 m1) as [[a2 m2] rs]. by exists k2.
Qed.

Lemma abstracts_new archive : abstracts (Kernel_new archive) (Table_new archive).
Proof.
  split; try done.
  - repeat constructor.
  - apply Forall2_replicate. done.
  - intros j p q Hp Hq. apply lookup_replicate in Hp as [-> Hj]. apply lookup_replicate in Hq as [-> _].
    assert (∀ w, ends (replicate 64 None) j w = O) as He by done.
    apply pipe_new; rewrite ?He; try done. intros w. rewrite He. lia.
Qed.

Lemma fstat_outside k a m fd ptr : abstracts k a → MAX_OPEN_FILES ≤ fd → sys_fstat k m fd ptr = Panic.
Proof.
  intros H Hfd. unfold sys_fstat, MAX_OPEN_FILES in *. rewrite (proj2 (Z.ltb_ge _ _)) by lia.
  unfold load. rewrite lookup_ge_None_2; [done|]. rewrite (Forall2_length _ _ _ (ab_files _ _ H)), (ab_len _ _ H). lia.
Qed.

Lemma call_ok_split c : counters_ok c → in_table c = true → call_ok c.
Proof. destruct c; cbn; try done. intros _ H. by apply Z.ltb_lt. Qed.

Lemma run_calls_panic freed cs : ∀ k a m,
  abstracts k a → Forall counters_ok cs → forallb in_table cs = false → run_calls freed cs k m = Panic.
Proof.
  induction cs as [|c cs IH]; intros k a m H Hc Hb; cbn [run_calls forallb] in *; [done|].
  apply Forall_cons in Hc as [Hc Hcs]. destruct (in_table c) eqn:Ec.
  - destruct (run_call_rel freed c k a m H (call_ok_split c Hc Ec)) as (k1 & -> & H1). cbn [obind].
    by rewrite (IH k1 _ _ H1 Hcs Hb).
  - destruct c; try done. cbn [in_table run_call] in *. apply Z.ltb_ge in Ec.
    by rewrite (fstat_outside k a m fd _ H Ec).
Qed.

(** C12: From start-up with any archive, a program of calls on descriptors that
    never asks [fstat] about a descriptor from 64 on runs without a panic, and has
    the results and the effect on memory that the table of open files prescribes:
    descriptors are the lowest free ones, a pipe is a queue of 4096 bytes that is
    shared by the descriptors of its ends, reports a broken pipe or the end of the
    data when the other end is closed, and files are read from their own
    positions.  A program that does ask panics. *)
Theorem descriptors_refine freed archive cs m :
  Forall counters_ok cs →
  if forallb in_table cs then
    ∃ k, run_calls freed cs (Kernel_new archive) m =
      Val (k, (spec_calls freed cs (Table_new archive) m).1.2, (spec_calls freed cs (Table_new archive) m).2)
  else run_calls freed cs (Kernel_new archive) m = Panic.
Proof.
  intros Hc. destruct (forallb in_table cs) eqn:Eb; [|by apply (run_calls_panic _ _ _ _ _ (abstracts_new archive))].
  rewrite forallb_forall in Eb. assert (Forall call_ok cs) as Hok.
  { apply Forall_forall. intros c Hin. rewrite Forall_forall in Hc. apply call_ok_split; [by apply Hc|].
    by apply Eb, list_elem_of_In. }
  destruct (run_calls_rel freed cs _ _ m (abstracts_new archive) Hok) as (k & E & _). by exists k.
Qed.

(** ** From the path to the memory of the reader *)

Lemma write_list_app m p x y : write_list (write_list m p x) (p + Z.of_nat (length x)) y = write_list m p (x ++ y).
Proof.
  revert m p. induction x as [|c x IH]; intros m p; cbn [length app].
  - by rewrite write_list_nil, Z.add_0_r.
  - rewrite <- !write_list_cons, <- IH. f_equal. lia.
Qed.

(** A program that reads into consecutive memory, [ns] bytes at a time. *)
Fixpoint read_all (freed : Z → nat → Z) (now : Z) (ns : list Z) (k : Kernel) (m : memory) (fd dst : Z) : outcome (memory * Z) :=
  match ns with
  | [] => Val (m, 0)
  | n :: ns' =>
      let! (k1, m1, r) := sys_read freed now k m fd dst n in
      let! (m2, total) := read_all freed now ns' k1 m1 fd (dst + r) in
      Val (m2, r + total)
  end.

(** The descriptor is an open file with these contents, at a position. *)
Definition at_offset (k : Kernel) (fd : Z) (d : Vfs.Slice) (content : bytes) (o : nat) : Prop :=
  fd < MAX_OPEN_FILES ∧
  (∃ f, OPEN_FILES k !! Z.to_nat fd = Some f ∧ used f = true ∧ pipe_id f = -1 ∧ data f = d ∧ offset f = Z.of_nat o) ∧
  Vfs.bytes_of (fs k) d = Some content ∧ Vfs.slice_len d = Z.of_nat (length content) ∧
  Poll.TIMERFD_TABLE (polls k) !! u32 fd = None ∧ Poll.EVENTFD_TABLE (polls k) !! u32 fd = None.

Lemma sys_read_file freed now k m fd d content o dst n :
  at_offset k fd d content o → Z.of_nat (length content) < 2 ^ 64 → (o ≤ length content)%nat → 0 < n → 0 < dst →
  let got := slice content o (o + Nat.min (Z.to_nat n) (length content - o)) in
  ∃ k', sys_read freed now k m fd dst n = Val (k', write_list m dst got, Z.of_nat (length got)) ∧
    at_offset k' fd d content (o + length got).
Proof.
  intros (Hfd & (f & Hf & Hu & Hp & Hd & Ho) & Hb & Hl & Ht & He) Hlt Hle Hn Hdst got.
  assert (length got = Nat.min (Z.to_nat n) (length content - o)) as Hg by (unfold got; rewrite slice_length; lia).
  unfold sys_read, Poll.read_synth. rewrite (proj2 (Z.eqb_neq n 0)), (proj2 (Z.eqb_neq dst 0)), Ht, He by lia.
  rewrite (proj2 (Z.leb_gt _ _)), (load_Some _ _ _ Hf) by done. cbn [obind]. rewrite Hu, Hp, Hd, Ho, Hl. cbn [negb].
  change (0 <=? -1) with false. cbn match. destruct (Z.leb_spec (Z.of_nat (length content)) (Z.of_nat o)) as [Hend|Hmore].
  - assert (got = []) as -> by (apply nil_length_inv; lia). rewrite write_list_nil. exists k. split; [done|].
    rewrite Nat.add_0_r. by repeat (split || eexists).
  - unfold contents. rewrite Hb.
    assert (Z.min n (Z.of_nat (length content) - Z.of_nat o) = Z.of_nat (length got)) as -> by lia.
    assert (Z.to_nat (Z.of_nat o + Z.of_nat (length got)) = o + length got)%nat as -> by lia. rewrite Nat2Z.id.
    eexists. split; [by rewrite Hg|]. split; [done|]. split; [|by split_and!]. cbn [OPEN_FILES set_files].
    rewrite list_lookup_insert_eq by (by eapply lookup_lt_Some). eexists. split; [done|]. split_and!; try done. cbn [offset set_offset].
    unfold u64. rewrite wrap_small; [lia|]. unfold is_u. lia.
Qed.

Lemma read_all_file freed now ns : ∀ k m fd d content o dst,
  at_offset k fd d content o → Z.of_nat (length content) < 2 ^ 64 → (o ≤ length content)%nat → Forall (λ n, 0 < n) ns → 0 < dst →
  let total := Nat.min (Z.to_nat (foldr Z.add 0 ns)) (length content - o) in
  read_all freed now ns k m fd dst = Val (write_list m dst (slice content o (o + total)), Z.of_nat total).
Proof.
  induction ns as [|n ns IH]; intros k m fd d content o dst Hk Hlt Hle Hns Hdst; cbn [read_all foldr].
  { cbn. rewrite Nat.add_0_r. unfold slice. by rewrite Nat.sub_diag, write_list_nil. }
  apply Forall_cons in Hns as [Hn Hns]. destruct (sys_read_file freed now k m fd d content o dst n) as (k1 & -> & Hk1); [done..|].
  cbn [obind]. set (got := slice _ _ _) in *.
  assert (length got = Nat.min (Z.to_nat n) (length content - o)) as Hg by (unfold got; rewrite slice_length; lia).
  rewrite (IH k1 _ fd d content _ _ Hk1) by (done || lia). cbn [obind].
  assert (0 ≤ foldr Z.add 0 ns) as Hsum by (clear -Hns; induction Hns; cbn; lia).
  set (t2 := Nat.min _ _). set (total := Nat.min _ _).
  assert (total = length got + t2)%nat as -> by (unfold total, t2; lia). rewrite write_list_app. repeat f_equal; [|lia].
  unfold got at 1. rewrite <- Hg. rewrite slice_join by lia. f_equal. lia.
Qed.

(** The path is in user memory, and is not that of a virtual file. *)
Record path_at (m : memory) (ptr : Z) (path : bytes) : Prop := {
  pa_ptr : 0 < ptr;
  pa_bytes : read_range m ptr (length path) = path;
  pa_len : Z.of_nat (length path) ≤ 0x2000000;
  pa_utf8 : isSome (Http.from_utf8 path) = true;
  pa_trim : trim_nul path = path;
  pa_sys : position (λ f, bytes_eqb f.1.1 path) Vfs.SYSFS = None
}.

(** Opening a path that the file system finds without a change. *)
Lemma sys_open_found i k a m ptr path d fd :
  abstracts k a → path_at m ptr path → Vfs.lookup i (fs k) path = Val (fs k, Some d) → a_free (a_files a) = Some fd →
  sys_open i k m ptr (Z.of_nat (length path)) =
    Val (set_files k (<[fd := empty_file d]> (OPEN_FILES k)), Z.of_nat fd) ∧
  (fd < length (OPEN_FILES k))%nat ∧ Z.of_nat fd < MAX_OPEN_FILES.
Proof.
  intros H [Hptr Hby Hlen Hutf Htrim _] Hl Hfd. unfold sys_open, read_user_bytes.
  rewrite (proj2 (Z.eqb_neq ptr 0)), (proj2 (Z.ltb_ge _ _)), Nat2Z.id, Hby by lia. cbn [orb]. rewrite Hutf, Htrim, Hl. cbn [negb obind].
  unfold fd_alloc. cbn [set_fs OPEN_FILES]. rewrite (free_slot_rel _ _ (ab_files _ _ H)), Hfd.
  apply a_free_Some in Hfd as [Hfd _]. apply lookup_lt_Some in Hfd.
  rewrite (Forall2_length _ _ _ (ab_files _ _ H)). split; [|split; [done|]]; [done|]. rewrite (ab_len _ _ H) in Hfd. unfold MAX_OPEN_FILES. lia.
Qed.

(** C20: A program opens a file, of the archive or written before, by its path, and
    reads it in pieces of any sizes: it gets the next free descriptor, and the
    file, whole and unchanged, in its memory; the last result is the length. *)
Theorem open_and_read freed now es tail ws s rs i k a m ptr path content dst ns fd :
  Forall Tar.entry_ok es → Tar.tail_ok tail → Forall (λ w, isSome (Http.from_utf8 w.1) = true) ws →
  Vfs.writes (Vfs.init (Vfs.State_new (Tar.archive es tail))) ws = Val (s, rs) → fs k = s →
  abstracts k a → a_free (a_files a) = Some fd →
  Poll.TIMERFD_TABLE (polls k) !! Z.of_nat fd = None → Poll.EVENTFD_TABLE (polls k) !! Z.of_nat fd = None →
  path_at m ptr path → Vfs.file_at es (Vfs.spec_writes ∅ ws).1 path = Some content → Z.of_nat (length content) < 2 ^ 64 →
  0 < dst → Forall (λ n, 0 < n) ns → Z.of_nat (length content) ≤ foldr Z.add 0 ns →
  ∃ k1, sys_open i k m ptr (Z.of_nat (length path)) = Val (k1, Z.of_nat fd) ∧
    read_all freed now ns k1 m (Z.of_nat fd) dst = Val (write_list m dst content, Z.of_nat (length content)).
Proof.
  intros Hes Htail Hws Hs Hk Hab Hfd Ht He Hpath Hfile Hlt Hdst Hns Hsum. subst s.
  destruct (Vfs.vfs_writes_refine ws (Vfs.init (Vfs.State_new (Tar.archive es tail))) ∅) as (s & E & HI & Hm & _);
    [apply Ramdisk.implements_new|done|]. rewrite Hs in E. injection E as <- _.
  destruct (Vfs.vfs_lookup_file es tail (fs k) _ i path Hes Htail HI Hm (pa_sys _ _ _ Hpath)) as (r & Hl & Hr).
  rewrite Hfile in Hr. destruct r as [d|]; [|done]. cbn in Hr.
  destruct (sys_open_found i k a m ptr path d fd Hab Hpath Hl Hfd) as (-> & Hin & Hmax). eexists. split; [done|].
  assert (u32 (Z.of_nat fd) = Z.of_nat fd) as Hu.
  { unfold u32. apply wrap_small. unfold is_u, MAX_OPEN_FILES in *. lia. }
  rewrite (read_all_file freed now ns _ _ _ d content 0); [| |done|lia|done|done].
  - rewrite Nat.min_r by lia. unfold slice. rewrite drop_0, take_ge by lia. do 2 f_equal. lia.
  - split; [done|]. rewrite Nat2Z.id. split.
    + exists (empty_file d). split; [|done]. cbn [OPEN_FILES set_files]. by apply list_lookup_insert_eq.
    + cbn [fs polls set_files]. rewrite Hu. split_and!; try done.
      by apply (Vfs.lookup_length i (fs k) _ path (fs k) d content HI (pa_sys _ _ _ Hpath)).
Qed.

(** ** Defects *)


(** An open file keeps the reference to the vector it was opened with, also
    when the path is written again and the vector is dropped: the reader gets
    what that memory holds by then. *)
Theorem open_file_dropped freed now i k a disk m ptr path v fd d s dst n :
  abstracts k a → Ramdisk.implements (Vfs.rd (fs k)) disk → path_at m ptr path → Vfs.under_tmp path = true →
  Ramdisk.lookup_static (Vfs.rd (fs k)) path = Some v → a_free (a_files a) = Some fd →
  Poll.TIMERFD_TABLE (polls k) !! Z.of_nat fd = None → Poll.EVENTFD_TABLE (polls k) !! Z.of_nat fd = None →
  Vfs.write (fs k) path d = Val (s, Ok tt) → 0 < dst → 0 < n ≤ Z.of_nat (length (Ramdisk.contents v)) →
  ∃ k1 k2, sys_open i k m ptr (Z.of_nat (length path)) = Val (k1, Z.of_nat fd) ∧
    sys_read freed now (set_fs k1 s) m (Z.of_nat fd) dst n =
      Val (k2, write_list m dst (map (freed (Ramdisk.vec_id v)) (seq 0 (Z.to_nat n))), n).
Proof.
  intros Hab HI Hpath Htmp Hv Hfd Ht He Hw Hdst Hn.
  assert (Vfs.lookup i (fs k) path = Val (fs k, Some (Vfs.Vector v))) as Hl.
  { unfold Vfs.lookup, Vfs.sysfs_lookup. rewrite (pa_sys _ _ _ Hpath). cbn [obind fst snd]. by rewrite Htmp, Hv. }
  destruct (sys_open_found i k a m ptr path _ fd Hab Hpath Hl Hfd) as (-> & Hin & Hmax). eexists. enough (∃ k2, sys_read freed now (set_fs (set_files k (<[fd := empty_file (Vfs.Vector v)]> (OPEN_FILES k))) s) m (Z.of_nat fd) dst n =
    Val (k2, write_list m dst (map (freed (Ramdisk.vec_id v)) (seq 0 (Z.to_nat n))), n)) as [k2 E2] by (exists k2; by split).
  unfold Vfs.write in Hw. destruct (negb _); [done|].
  destruct (Ramdisk.write (Vfs.rd (fs k)) path d) as [[rd' res]|] eqn:Ew; [|done]. cbn in Hw. injection Hw as <- ->.
  pose proof (Ramdisk.overwrite_drops _ _ _ _ _ _ HI Hv Ew) as Hdrop.
  assert (u32 (Z.of_nat fd) = Z.of_nat fd) as Hu by (unfold u32; apply wrap_small; unfold is_u, MAX_OPEN_FILES in *; lia).
  unfold sys_read, Poll.read_synth. cbn [polls set_fs set_files]. rewrite Hu, Ht, He.
  rewrite (proj2 (Z.eqb_neq n 0)), (proj2 (Z.eqb_neq dst 0)), (proj2 (Z.leb_gt _ _)), Nat2Z.id by lia.
  rewrite (load_Some _ _ (empty_file (Vfs.Vector v))) by (cbn [OPEN_FILES set_fs set_files]; by apply list_lookup_insert_eq).
  cbn [obind used empty_file negb pipe_id data offset]. change (0 <=? -1) with false. cbn match.
  cbn [Vfs.slice_len]. rewrite (proj2 (Z.leb_gt _ _)), Z.sub_0_r, Z.min_l by lia.
  unfold contents. cbn [fs set_fs set_files Vfs.bytes_of Vfs.rd Vfs.set_rd]. rewrite Hdrop. cbn [Z.add].
  unfold slice. rewrite Nat.sub_0_r, drop_0, firstn_map, take_seq, Nat.min_l by lia. by eexists.
Qed.

(** ** Witnesses *)

(** Two paths and some text in memory. *)
Definition sample_memory : memory :=
  write_list (write_list (write_list (λ _, 0) 0x2000 (str "abc")) 0x3000 (str "/tmp/a")) 0x4000 (str "/bin/init").

Definition no_bytes : Z → nat → Z := λ _ _, 0.

Definition sample_calls : list call :=
  [Pipe2 0x1000; Write 4 0x2000 3; Read 0 3 0x5000 2; Close 4; Read 0 3 0x5000 8; Read 0 3 0x5000 8; Write 3 0x2000 3;
   Open Vfs.sample_info 0x4000 9; Read 0 4 0x6000 2; Lseek 4 0 2; Fstat 4 0x7000; Close 3; StatPath Vfs.sample_info 0x3000 0x7000].

Lemma descriptors_witness :
  ∃ k m, run_calls no_bytes sample_calls (Kernel_new Tar.sample_archive) sample_memory =
    Val (k, m, [0; 3; 2; 0; 1; 0; -9; 4; 2; 3; 0; 0; -2]).
Proof.
  destruct (descriptors_refine no_bytes Tar.sample_archive sample_calls sample_memory) as [k E].
  - repeat (apply Forall_cons; split); try (unfold counters_ok, Vfs.info_ok, is_u, MAX_OPEN_FILES; cbn; lia). apply Forall_nil. done.
  - assert ((spec_calls no_bytes sample_calls (Table_new Tar.sample_archive) sample_memory).2 = [0; 3; 2; 0; 1; 0; -9; 4; 2; 3; 0; 0; -2])
      as H by (vm_compute; reflexivity).
    rewrite H in E. eexists _, _. exact E.
Defined.

Definition sample_fs : Vfs.State :=
  match Vfs.writes (Vfs.init (Vfs.State_new Tar.sample_archive)) Ramdisk.sample_writes with
  | Val r => r.1 | Panic => Vfs.State_new [] end.

Definition sample_kernel : Kernel := set_fs (Kernel_new Tar.sample_archive) sample_fs.
Definition sample_table : Table :=
  mkTable sample_fs Poll.State_new (replicate 64 None) (replicate 32 []) [].

Lemma sample_abstracts : abstracts sample_kernel sample_table.
Proof.
  apply (fs_rel _ (Table_new Tar.sample_archive)); [apply abstracts_new|]. unfold Vfs.bufs_ok.
  vm_compute (Vfs.sysbufs sample_fs). repeat constructor.
Qed.

Lemma sample_path path ptr :
  (path = str "/tmp/a" ∧ ptr = 0x3000) ∨ (path = str "/bin/init" ∧ ptr = 0x4000) → path_at sample_memory ptr path.
Proof. intros [[-> ->]|[-> ->]]; split; try reflexivity; cbn; lia. Qed.

Lemma open_and_read_witness :
  ∃ k, sys_open Vfs.sample_info sample_kernel sample_memory 0x3000 6 = Val (k, 3) ∧
    read_all no_bytes 0 [4; 4; 4] k sample_memory 3 0x8000 = Val (write_list sample_memory 0x8000 (str "second"), 6).
Proof.
  destruct (Vfs.writes (Vfs.init (Vfs.State_new Tar.sample_archive)) Ramdisk.sample_writes) as [[s rs]|] eqn:E;
    [|vm_compute in E; discriminate].
  apply (open_and_read no_bytes 0 Tar.sample_entries (replicate 512 0) Ramdisk.sample_writes s rs Vfs.sample_info
    sample_kernel sample_table sample_memory 0x3000 (str "/tmp/a") (str "second") 0x8000 [4; 4; 4] 3).
  - exact Tar.sample_entries_ok.
  - right. reflexivity.
  - repeat constructor.
  - exact E.
  - cbn [fs sample_kernel set_fs]. unfold sample_fs. rewrite E. reflexivity.
  - exact sample_abstracts.
  - reflexivity.
  - reflexivity.
  - reflexivity.
  - apply sample_path. left. done.
  - vm_compute. reflexivity.
  - reflexivity.
  - lia.
  - repeat constructor.
  - cbn. lia.
Defined.


Definition sample_vec : Ramdisk.Vec := default (Ramdisk.mkVec 0 []) (Ramdisk.lookup_static (Vfs.rd sample_fs) (str "/tmp/a")).

Lemma open_file_dropped_witness :
  ∃ k1 k2 s, Vfs.write sample_fs (str "/tmp/a") (str "third") = Val (s, Ok tt) ∧
    sys_open Vfs.sample_info sample_kernel sample_memory 0x3000 6 = Val (k1, 3) ∧
    sys_read (λ _ _, 0xAA) 0 (set_fs k1 s) sample_memory 3 0x8000 4 =
      Val (k2, write_list sample_memory 0x8000 [0xAA; 0xAA; 0xAA; 0xAA], 4).
Proof.
  destruct (Vfs.write sample_fs (str "/tmp/a") (str "third")) as [[s r]|] eqn:E; [|vm_compute in E; discriminate].
  assert (r = Ok tt) as -> by (apply (f_equal (λ o, match o with Val x => x.2 | Panic => Ok tt end)) in E; vm_compute in E; done).
  destruct (Vfs.vfs_writes_refine Ramdisk.sample_writes (Vfs.init (Vfs.State_new Tar.sample_archive)) ∅) as (s0 & E0 & HI & _).
  { apply Ramdisk.implements_new. }
  { repeat constructor. }
  destruct (open_file_dropped (λ _ _, 0xAA) 0 Vfs.sample_info sample_kernel sample_table
    (Vfs.spec_writes ∅ Ramdisk.sample_writes).1 sample_memory 0x3000 (str "/tmp/a") sample_vec 3 (str "third") s 0x8000 4)
    as (k1 & k2 & Ho & Hr).
  - exact sample_abstracts.
  - cbn [fs sample_kernel set_fs]. unfold sample_fs. rewrite E0. exact HI.
  - apply sample_path. left. done.
  - reflexivity.
  - vm_compute. reflexivity.
  - reflexivity.
  - reflexivity.
  - reflexivity.
  - exact E.
  - lia.
  - vm_compute. split; [reflexivity|discriminate].
  - exists k1, k2, s. split; [reflexivity|]. split; [exact Ho|exact Hr].
Defined.
End Fd.
