(* ===== verification/AppStore.v ===== *)
(** * Persistent bundles ([app_store/mod.rs])

    Installed bundles on the first block device: a superblock in sector 0, a
    catalog of 48 entries in the sectors from 1 on, and the bundles behind them.
    The device is a map from sectors to their bytes that may stop taking
    requests after a number of writes; the sector loops and the self-test are
    those of [drivers/virtio_blk.rs].

    [apps_survive_reboot] says that what the registry of [AppRegistry] has
    installed is installed again when the store is opened later.
    [self_test_loses_apps], [crash_overwrites_bundle] and [store_formats_ext2]
    are defects. *)

From Stdlib Require Import ZArith Lia.
From stdpp Require Import base numbers strings option list.
From S2P Require Import Prelude Http AppRegistry Ext2.

Local Open Scope Z_scope.

Module AppStore.

(** ** The block device *)

(** [left] is the number of sectors that can still be written, [None] for a
    device that does not fail. *)
Record Device := mkDev { sectors : Z → bytes; capacity : Z; ready : bool; read_only : bool; left : option nat }.

Definition op_ok (d : Device) (s : Z) : bool :=
  (0 <=? s) && (s <? capacity d) && match left d with Some O => false | _ => true end.

Fixpoint read_loop (n : nat) (d : Device) (s : Z) : result bytes :=
  match n with
  | O => Ok []
  | S n' =>
      if op_ok d s then
        match read_loop n' d (s + 1) with Ok r => Ok (sectors d s ++ r) | Err e => Err e end
      else Err "virtio-blk: I/O error"
  end.

Definition read_sectors (d : Device) (s n : Z) : result bytes :=
  if negb (ready d) then Err "device not ready" else read_loop (Z.to_nat n) d s.

Definition put_sector (d : Device) (s : Z) (b : bytes) : Device :=
  mkDev (λ x, if x =? s then b else sectors d x) (capacity d) (ready d) (read_only d) (pred <$> left d).

Fixpoint write_loop (n : nat) (d : Device) (s : Z) (data : bytes) : Device * result unit :=
  match n with
  | O => (d, Ok tt)
  | S n' =>
      if op_ok d s then write_loop n' (put_sector d s (take 512 data)) (s + 1) (drop 512 data)
      else (d, Err "virtio-blk: I/O error")
  end.

Definition write_sectors (d : Device) (s n : Z) (data : bytes) : Device * result unit :=
  if negb (ready d) then (d, Err "device not ready")
  else if read_only d then (d, Err "read-only device")
  else if Z.of_nat (length data) <? n * 512 then (d, Err "data too small")
  else write_loop (Z.to_nat n) d s data.

(** Run when the driver is started. *)
Definition self_test (d : Device) : Device * result unit :=
  let pat := str "OSCTEST1" ++ replicate 504 0 in
  match write_sectors d 1 1 pat with
  | (d1, Err e) => (d1, Err e)
  | (d1, Ok _) =>
      match read_sectors d1 1 1 with
      | Err e => (d1, Err e)
      | Ok readback => if bytes_eqb (take 8 readback) (take 8 pat) then (d1, Ok tt) else (d1, Err "readback mismatch")
      end
  end.

(** ** Layout *)

Definition MAGIC : bytes := str "OSSTORE1".
Definition SUPER_SECTOR : Z := 0.
Definition CATALOG_SECTOR : Z := 1.
Definition CATALOG_SECTORS : Z := 12.
Definition CATALOG_ENTRIES : nat := 48.
Definition CATALOG_ENTRY_BYTES : nat := 128.
Definition DATA_START_SECTOR : Z := 64.

Record Superblock := mkSuper { sb_version : Z; sb_next_app_id : Z; sb_next_data_sector : Z; entry_count : Z }.

(** The packed structure has 520 bytes; those behind the sector are padding. *)
Definition sb_bytes (sb : Superblock) : bytes :=
  MAGIC ++ le_bytes 4 (sb_version sb) ++ le_bytes 4 (sb_next_app_id sb) ++ le_bytes 8 (sb_next_data_sector sb) ++
  le_bytes 4 (entry_count sb) ++ replicate 492 0.

Record CatalogEntry := mkEntry {
  flags : Z; e_id : Z; e_name : bytes; e_version : bytes; e_entry_offset : Z; e_stack_size : Z; data_sector : Z;
  bundle_sectors : Z; bundle_bytes : Z; e_pad : Z
}.

(** 124 bytes. *)
Definition entry_bytes (e : CatalogEntry) : bytes :=
  le_bytes 4 (flags e) ++ le_bytes 4 (e_id e) ++ e_name e ++ e_version e ++ le_bytes 8 (e_entry_offset e) ++
  le_bytes 8 (e_stack_size e) ++ le_bytes 8 (data_sector e) ++ le_bytes 4 (bundle_sectors e) ++ le_bytes 4 (bundle_bytes e) ++
  le_bytes 4 (e_pad e).

Definition field (n : nat) (b : bytes) (off : nat) : Z := le_val (slice b off (off + n)).

Definition entry_at (b : bytes) : CatalogEntry :=
  mkEntry (field 4 b 0) (field 4 b 4) (slice b 8 72) (slice b 72 88) (field 8 b 88) (field 8 b 96) (field 8 b 104)
    (field 4 b 112) (field 4 b 116) (field 4 b 120).

(** ** State *)

Record Store := mkStore { dev : Device; STORE_READY : bool; next_app_id : Z; next_data_sector : Z }.

Definition set_dev (s : Store) (d : Device) : Store := mkStore d (STORE_READY s) (next_app_id s) (next_data_sector s).

Definition sectors_for_bytes (n : nat) : Z := u32 ((Z.of_nat n + 511) / 512).

Definition read_superblock (d : Device) : result Superblock :=
  match read_sectors d SUPER_SECTOR 1 with
  | Err e => Err e
  | Ok buf =>
      if negb (bytes_eqb (slice buf 0 8) MAGIC) then Err "bad magic"
      else Ok (mkSuper (field 4 buf 8) (field 4 buf 12) (field 8 buf 16) (field 4 buf 24))
  end.

Definition write_superblock (d : Device) (sb : Superblock) : Device * result unit :=
  write_sectors d SUPER_SECTOR 1 (take 512 (sb_bytes sb)).

(** The loop over the catalog sectors. *)
Fixpoint zero_sectors (n : nat) (d : Device) (s : Z) : Device * result unit :=
  match n with
  | O => (d, Ok tt)
  | S n' =>
      match write_sectors d s 1 (replicate 512 0) with
      | (d1, Ok _) => zero_sectors n' d1 (s + 1)
      | (d1, Err e) => (d1, Err e)
      end
  end.

Definition format_store (d : Device) : Device * result unit :=
  match write_superblock d (mkSuper 1 1 DATA_START_SECTOR 0) with
  | (d1, Err e) => (d1, Err e)
  | (d1, Ok _) => zero_sectors (Z.to_nat CATALOG_SECTORS) d1 CATALOG_SECTOR
  end.

Definition entries_in (buf : bytes) : list CatalogEntry :=
  List.filter (λ e, flags e =? 1) (map (λ i, entry_at (drop (i * CATALOG_ENTRY_BYTES) buf)) (seq 0 CATALOG_ENTRIES)).

Definition read_catalog (d : Device) : result (list CatalogEntry) :=
  match read_sectors d CATALOG_SECTOR CATALOG_SECTORS with
  | Err e => Err e
  | Ok buf => Ok (entries_in buf)
  end.

Section writing.
(** The four bytes of memory behind the last entry of a vector. *)
Context (behind : bytes).

(** 128 bytes are copied from each entry, four of them from what follows it:
    [mem] is the memory from the entry on. *)
Fixpoint fill (i : nat) (es : list CatalogEntry) (mem buf : bytes) : bytes :=
  match es with
  | [] => buf
  | _ :: es' => fill (S i) es' (drop 124 mem) (copy_at buf (i * CATALOG_ENTRY_BYTES) (take CATALOG_ENTRY_BYTES mem))
  end.

Definition catalog_bytes (es : list CatalogEntry) : bytes :=
  fill 0 (take CATALOG_ENTRIES es) (List.concat (map entry_bytes es) ++ behind) (replicate (512 * 12) 0).

Definition write_catalog (d : Device) (es : list CatalogEntry) : Device * result unit :=
  write_sectors d CATALOG_SECTOR CATALOG_SECTORS (catalog_bytes es).

Definition bundle_from_entry (d : Device) (e : CatalogEntry) : result bytes :=
  match read_sectors d (data_sector e) (bundle_sectors e) with
  | Err er => Err er
  | Ok buf => Ok (take (Z.to_nat (bundle_bytes e)) buf)
  end.

Fixpoint hydrate (es : list CatalogEntry) (d : Device) (g : AppRegistry.Registry) (loaded : Z)
    : AppRegistry.Registry * result Z :=
  match es with
  | [] => (g, Ok loaded)
  | e :: es' =>
      match bundle_from_entry d e with
      | Err er => (g, Err er)
      | Ok b =>
          match AppRegistry.install_from_store g b (e_id e) with
          | (g1, Some _) => hydrate es' d g1 (loaded + 1)
          | (g1, None) => hydrate es' d g1 loaded
          end
      end
  end.

Definition hydrate_registry (d : Device) (g : AppRegistry.Registry) : AppRegistry.Registry * result Z :=
  match read_catalog d with Err e => (g, Err e) | Ok es => hydrate es d g 0 end.

Definition init (s : Store) (g : AppRegistry.Registry) : Store * AppRegistry.Registry * bool :=
  if negb (ready (dev s)) then (s, g, false)
  else
    let '(d1, formatted) := match read_superblock (dev s) with Err _ => format_store (dev s) | Ok _ => (dev s, Ok tt) end in
    match formatted with
    | Err _ => (set_dev s d1, g, false)
    | Ok _ =>
        match read_superblock d1 with
        | Err _ => (set_dev s d1, g, false)
        | Ok sb =>
            (mkStore d1 true (Z.max (sb_next_app_id sb) 1) (Z.max (sb_next_data_sector sb) DATA_START_SECTOR),
             (hydrate_registry d1 g).1, true)
        end
    end.

Definition super_of (s : Store) (n : nat) : Superblock := mkSuper 1 (next_app_id s) (next_data_sector s) (u32 (Z.of_nat n)).

Definition persist_bundle (s : Store) (app_id : Z) (bundle : bytes) : Store * result unit :=
  if negb (STORE_READY s) then (s, Ok tt)
  else
    match AppRegistry.parse_header bundle with
    | None => (s, Err "bad bundle")
    | Some hdr =>
        let sector := next_data_sector s in
        let n := sectors_for_bytes (length bundle) in
        let padded := take (Z.to_nat n * 512) (bundle ++ replicate (Z.to_nat n * 512 - length bundle) 0) in
        match write_sectors (dev s) sector n padded with
        | (d1, Err e) => (set_dev s d1, Err e)
        | (d1, Ok _) =>
            match read_catalog d1 with
            | Err e => (set_dev s d1, Err e)
            | Ok es =>
                if (CATALOG_ENTRIES <=? length es)%nat then (set_dev s d1, Err "catalog full")
                else
                  let es1 := es ++ [mkEntry 1 app_id (AppRegistry.h_name hdr) (AppRegistry.h_version hdr)
                                      (AppRegistry.h_entry_offset hdr) (AppRegistry.h_stack_size hdr) sector n
                                      (u32 (Z.of_nat (length bundle))) 0] in
                  match write_catalog d1 es1 with
                  | (d2, Err e) => (set_dev s d2, Err e)
                  | (d2, Ok _) =>
                      let s1 := mkStore d2 (STORE_READY s) (Z.max (Z.min (app_id + 1) u32_MAX) (next_app_id s)) (u64 (sector + n)) in
                      let '(d3, r) := write_superblock d2 (super_of s1 (length es1)) in
                      (set_dev s1 d3, r)
                  end
            end
        end
    end.

Definition remove_bundle (s : Store) (app_id : Z) : Store * result unit :=
  if negb (STORE_READY s) then (s, Ok tt)
  else
    match read_catalog (dev s) with
    | Err e => (s, Err e)
    | Ok es =>
        let es1 := List.filter (λ e, negb (e_id e =? app_id)) es in
        if (length es1 =? length es)%nat then (s, Err "not found")
        else
          match write_catalog (dev s) es1 with
          | (d1, Err e) => (set_dev s d1, Err e)
          | (d1, Ok _) =>
              let '(d2, r) := write_superblock d1 (super_of s (length es1)) in
              (set_dev s d2, r)
          end
    end.

(** The registry ignores the results. *)
Definition apply_call (s : Store) (c : AppRegistry.store_call) : Store :=
  match c with
  | AppRegistry.Persist i b => (persist_bundle s i b).1
  | AppRegistry.RemoveBundle i => (remove_bundle s i).1
  end.
Definition apply_log (s : Store) (log : list AppRegistry.store_call) : Store := foldl apply_call s log.
End writing.

(** After a restart the device takes requests again and the statics are as at
    the start. *)
Definition restarted (d : Device) : Store :=
  mkStore (mkDev (sectors d) (capacity d) (ready d) (read_only d) None) false 1 DATA_START_SECTOR.

(** The order of start-up: the driver with its self-test, then the store. *)
Definition boot (d : Device) (g : AppRegistry.Registry) : Store * AppRegistry.Registry * bool :=
  let s := restarted d in init (set_dev s (self_test (dev s)).1) g.
(** ** Reading and writing sectors *)

Record alive (d : Device) : Prop := {
  al_ready : ready d = true;
  al_rw : read_only d = false;
  al_left : left d = None;
  al_size : ∀ x, length (sectors d x) = 512%nat
}.

(** [d'] is [d] with [data] in the [n] sectors from [s] on. *)
Record wrote (d : Device) (s : Z) (n : nat) (data : bytes) (d' : Device) : Prop := {
  wr_alive : alive d';
  wr_capacity : capacity d' = capacity d;
  wr_other : ∀ x, ¬ (s ≤ x < s + Z.of_nat n) → sectors d' x = sectors d x;
  wr_read : read_loop n d' s = Ok (take (n * 512) data)
}.

Lemma op_alive d s : alive d → 0 ≤ s < capacity d → op_ok d s = true.
Proof. intros Ha Hs. unfold op_ok. rewrite (al_left d Ha). apply andb_true_iff. split; [|done]. lia. Qed.

Lemma put_alive d s b : alive d → length b = 512%nat → alive (put_sector d s b).
Proof.
  intros [H1 H2 H3 H4] Hb. split; cbn [put_sector ready read_only left sectors]; [done|done|by rewrite H3|].
  intros x. by case_if.
Qed.

Lemma read_loop_ext n d d' s :
  alive d → alive d' → capacity d' = capacity d →
  (∀ x, s ≤ x < s + Z.of_nat n → sectors d' x = sectors d x) → read_loop n d' s = read_loop n d s.
Proof.
  intros Ha Ha' Hc. revert s. induction n as [|n IH]; intros s H; [done|]. cbn [read_loop].
  unfold op_ok. rewrite Hc, (al_left d Ha), (al_left d' Ha'), (H s) by lia. rewrite IH; [done|].
  intros x Hx. apply H. lia.
Qed.

Lemma read_loop_length n d s b : alive d → read_loop n d s = Ok b → length b = (n * 512)%nat.
Proof.
  intros Ha. revert s b. induction n as [|n IH]; intros s b; [by intros [= <-]|]. cbn [read_loop].
  destruct (op_ok d s); [|done]. destruct (read_loop n d (s + 1)) as [r|] eqn:E; [|done].
  intros [= <-]. rewrite length_app, (al_size d Ha), (IH _ _ E). lia.
Qed.

Lemma read_loop_head n d s b :
  alive d → read_loop (S n) d s = Ok b → read_loop n d (s + 1) = Ok (drop 512 b) ∧ sectors d s = take 512 b.
Proof.
  intros Ha. cbn [read_loop]. destruct (op_ok d s); [|done]. destruct (read_loop n d (s + 1)) as [r|]; [|done].
  intros [= <-]. by rewrite take_app_length', drop_app_length' by (by rewrite (al_size d Ha)).
Qed.

Lemma read_loop_cons n d s r :
  alive d → 0 ≤ s < capacity d → read_loop n d (s + 1) = Ok r → read_loop (S n) d s = Ok (sectors d s ++ r).
Proof. intros Ha Hs E. cbn [read_loop]. by rewrite op_alive, E. Qed.

Lemma read_loop_sector n d s b k :
  alive d → read_loop n d s = Ok b → (k < n)%nat → sectors d (s + Z.of_nat k) = take 512 (drop (k * 512) b).
Proof.
  intros Ha. revert s b k. induction n as [|n IH]; intros s b k; [lia|]. cbn [read_loop].
  destruct (op_ok d s); [|done]. destruct (read_loop n d (s + 1)) as [r|] eqn:E; [|done].
  intros [= <-] Hk. destruct k as [|k].
  - rewrite Z.add_0_r, Nat.mul_0_l, drop_0. symmetry. by rewrite take_app_length' by (by rewrite (al_size d Ha)).
  - replace (s + Z.of_nat (S k)) with (s + 1 + Z.of_nat k) by lia. rewrite (IH _ _ k E) by lia. f_equal.
    replace (S k * 512)%nat with (512 + k * 512)%nat by lia. rewrite <- drop_drop.
    by rewrite drop_app_length' by (by rewrite (al_size d Ha)).
Qed.

Lemma write_loop_ok n d s data :
  alive d → 0 ≤ s → s + Z.of_nat n ≤ capacity d → (n * 512 ≤ length data)%nat →
  ∃ d', write_loop n d s data = (d', Ok tt) ∧ wrote d s n data d'.
Proof.
  revert d s data. induction n as [|n IH]; intros d s data Ha Hs Hc Hl; cbn [write_loop].
  { exists d. split; [done|]. by split. }
  rewrite op_alive by (done || lia).
  assert (alive (put_sector d s (take 512 data))) as Ha1 by (apply put_alive; [done|]; rewrite length_take; lia).
  destruct (IH _ (s + 1) (drop 512 data) Ha1) as (d' & E & [W1 W2 W3 W4]); [lia|cbn; lia|rewrite length_drop; lia|].
  exists d'. split; [done|]. cbn [capacity put_sector] in W2. split; [done|done| |].
  - intros x Hx. rewrite W3 by lia. cbn [put_sector sectors]. by rewrite (proj2 (Z.eqb_neq x s)) by lia.
  - cbn [read_loop]. rewrite op_alive by (rewrite ?W2; done || lia). rewrite W4, W3 by lia.
    cbn [put_sector sectors]. rewrite Z.eqb_refl. f_equal.
    replace (S n * 512)%nat with (512 + n * 512)%nat by lia. by rewrite take_take_drop.
Qed.

Lemma write_sectors_ok d s n data :
  alive d → 0 ≤ s → 0 ≤ n → s + n ≤ capacity d → length data = (Z.to_nat n * 512)%nat →
  ∃ d', write_sectors d s n data = (d', Ok tt) ∧ wrote d s (Z.to_nat n) data d'.
Proof.
  intros Ha Hs Hn Hc Hl. unfold write_sectors. rewrite (al_ready d Ha), (al_rw d Ha). cbn [negb].
  rewrite (proj2 (Z.ltb_ge _ _)) by lia. apply write_loop_ok; [done|done|lia|lia].
Qed.

Lemma read_alive d s n : alive d → read_sectors d s n = read_loop (Z.to_nat n) d s.
Proof. intros Ha. unfold read_sectors. by rewrite (al_ready d Ha). Qed.
(** ** The layouts read back *)

Record entry_ok (e : CatalogEntry) : Prop := {
  eo_flags : flags e = 1;
  eo_id : is_u 32 (e_id e);
  eo_name : length (e_name e) = 64%nat;
  eo_version : length (e_version e) = 16%nat;
  eo_entry : is_u 64 (e_entry_offset e);
  eo_stack : is_u 64 (e_stack_size e);
  eo_sector : is_u 64 (data_sector e);
  eo_sectors : is_u 32 (bundle_sectors e);
  eo_bytes : is_u 32 (bundle_bytes e);
  eo_pad : is_u 32 (e_pad e)
}.

Lemma field_at n (x z : bytes) v buf off :
  buf = x ++ le_bytes n v ++ z → off = length x → is_u (8 * Z.of_nat n) v → field n buf off = v.
Proof.
  intros -> -> Hv. unfold field. rewrite (slice_at x (le_bytes n v) z) by (rewrite ?le_bytes_length; done).
  rewrite le_val_bytes. by apply wrap_small.
Qed.

Lemma entry_bytes_length e : entry_ok e → length (entry_bytes e) = 124%nat.
Proof.
  intros He. unfold entry_bytes. rewrite !length_app, !le_bytes_length, (eo_name e He), (eo_version e He). done.
Qed.

Ltac reassoc := rewrite <- ?app_assoc; reflexivity.

Lemma entry_roundtrip e z : entry_ok e → entry_at (entry_bytes e ++ z) = e.
Proof.
  intros [F1 F2 F3 F4 F5 F6 F7 F8 F9 F10]. unfold entry_at, entry_bytes. destruct e as [f i nm ver eo st ds bs bb pd].
  cbn [flags e_id e_name e_version e_entry_offset e_stack_size data_sector bundle_sectors bundle_bytes e_pad] in *.
  subst f. rewrite <- !app_assoc.
  set (p1 := le_bytes 4 1 ++ le_bytes 4 i).
  assert (length p1 = 8%nat) as L1 by done.
  set (p2 := p1 ++ nm ++ ver). assert (length p2 = 88%nat) as L2 by (unfold p2; rewrite !length_app, F3, F4, L1; done).
  f_equal.
  - eapply (field_at 4 (le_bytes 4 1)); [reflexivity|reflexivity|exact F2].
  - rewrite (app_assoc (le_bytes 4 1)). apply (slice_at p1); [done|]. by rewrite F3.
  - rewrite (app_assoc (le_bytes 4 1)), (app_assoc p1). apply (slice_at (p1 ++ nm)); rewrite ?length_app, ?F3, ?F4, ?L1; done.
  - eapply (field_at 8 p2); [unfold p2, p1; reassoc|done|done].
  - eapply (field_at 8 (p2 ++ le_bytes 8 eo)); [unfold p2, p1; reassoc| |done]. rewrite length_app, L2. reflexivity.
  - eapply (field_at 8 (p2 ++ le_bytes 8 eo ++ le_bytes 8 st)); [unfold p2, p1; reassoc| |done]. rewrite length_app, L2. reflexivity.
  - eapply (field_at 4 (p2 ++ le_bytes 8 eo ++ le_bytes 8 st ++ le_bytes 8 ds)); [unfold p2, p1; reassoc| |done].
    rewrite length_app, L2. reflexivity.
  - eapply (field_at 4 (p2 ++ le_bytes 8 eo ++ le_bytes 8 st ++ le_bytes 8 ds ++ le_bytes 4 bs)); [unfold p2, p1; reassoc| |done].
    rewrite length_app, L2. reflexivity.
  - eapply (field_at 4 (p2 ++ le_bytes 8 eo ++ le_bytes 8 st ++ le_bytes 8 ds ++ le_bytes 4 bs ++ le_bytes 4 bb));
      [unfold p2, p1; reassoc| |done]. rewrite length_app, L2. reflexivity.
Qed.

Definition super_ok (sb : Superblock) : Prop :=
  is_u 32 (sb_version sb) ∧ is_u 32 (sb_next_app_id sb) ∧ is_u 64 (sb_next_data_sector sb) ∧ is_u 32 (entry_count sb).

Lemma sb_bytes_take sb :
  take 512 (sb_bytes sb) =
  MAGIC ++ le_bytes 4 (sb_version sb) ++ le_bytes 4 (sb_next_app_id sb) ++ le_bytes 8 (sb_next_data_sector sb) ++
  le_bytes 4 (entry_count sb) ++ replicate 484 0.
Proof. reflexivity. Qed.

Lemma super_written d sb :
  alive d → 1 ≤ capacity d → super_ok sb →
  ∃ d', write_superblock d sb = (d', Ok tt) ∧ wrote d 0 1 (take 512 (sb_bytes sb)) d' ∧ read_superblock d' = Ok sb.
Proof.
  intros Ha Hc (H1 & H2 & H3 & H4).
  assert (length (take 512 (sb_bytes sb)) = 512%nat) as Hl by reflexivity.
  destruct (write_sectors_ok d 0 1 (take 512 (sb_bytes sb)) Ha) as (d' & E & W); [lia|lia|lia|done|].
  exists d'. split; [done|]. split; [done|]. unfold read_superblock, SUPER_SECTOR.
  rewrite read_alive by apply W. rewrite (wr_read _ _ _ _ _ W).
  rewrite take_ge by (rewrite Hl; reflexivity). rewrite sb_bytes_take. set (m := MAGIC).
  change (slice (m ++ _) 0 8) with m. rewrite bytes_eqb_refl. cbn [negb]. destruct sb as [v a n c]. f_equal. f_equal.
  - by eapply (field_at 4 MAGIC).
  - by eapply (field_at 4 (MAGIC ++ le_bytes 4 v)); [reassoc| |].
  - by eapply (field_at 8 (MAGIC ++ le_bytes 4 v ++ le_bytes 4 a)); [reassoc| |].
  - by eapply (field_at 4 (MAGIC ++ le_bytes 4 v ++ le_bytes 4 a ++ le_bytes 8 n)); [reassoc| |].
Qed.
(** ** The catalog reads back *)

(** What [fill] puts for each entry: it and the four bytes behind it. *)
Fixpoint packed (es : list CatalogEntry) (behind : bytes) : bytes :=
  match es with
  | [] => []
  | e :: es' => (entry_bytes e ++ take 4 (List.concat (map entry_bytes es') ++ behind)) ++ packed es' behind
  end.

Definition scan (n k : nat) (buf : bytes) : list CatalogEntry :=
  List.filter (λ e, flags e =? 1) (map (λ i, entry_at (drop (i * CATALOG_ENTRY_BYTES) buf)) (seq k n)).

Lemma scan_app n m k buf : scan (n + m) k buf = scan n k buf ++ scan m (k + n) buf.
Proof. unfold scan. by rewrite seq_app, map_app, List.filter_app. Qed.

Lemma scan_zero m k A : length A = (k * 128)%nat → scan m k (A ++ replicate (m * 128) 0) = [].
Proof.
  revert k A. induction m as [|m IH]; intros k A HA; [done|].
  change (S m) with (1 + m)%nat at 1. rewrite scan_app. rewrite (Nat.add_comm k 1).
  replace (S m * 128)%nat with (128 + m * 128)%nat by lia. rewrite replicate_add, app_assoc.
  rewrite IH by (rewrite length_app, length_replicate, HA; lia). rewrite app_nil_r, <- app_assoc.
  unfold scan, CATALOG_ENTRY_BYTES. cbn [seq map]. by rewrite drop_app_length'.
Qed.

Lemma chunk_length_ge e es z :
  entry_ok e → (4 ≤ length z)%nat → length (entry_bytes e ++ take 4 (List.concat (map entry_bytes es) ++ z)) = 128%nat.
Proof. intros He Hz. rewrite length_app, length_take, length_app, (entry_bytes_length e He). lia. Qed.

Lemma packed_length_ge es z : Forall entry_ok es → (4 ≤ length z)%nat → length (packed es z) = (length es * 128)%nat.
Proof.
  intros Hes Hz. induction Hes as [|e es He _ IH]; [done|]. cbn [packed length].
  rewrite length_app, (chunk_length_ge e es z He Hz), IH. lia.
Qed.

Section catalog.
Context (behind : bytes) (Hbehind : length behind = 4%nat).

Lemma chunk_length e es :
  entry_ok e → length (entry_bytes e ++ take 4 (List.concat (map entry_bytes es) ++ behind)) = 128%nat.
Proof. intros He. apply chunk_length_ge; [done|lia]. Qed.

Lemma packed_length es : Forall entry_ok es → length (packed es behind) = (length es * 128)%nat.
Proof. intros Hes. apply packed_length_ge; [done|lia]. Qed.

Lemma fill_packed es A r i :
  Forall entry_ok es → length A = (i * 128)%nat → (length es ≤ r)%nat →
  fill i es (List.concat (map entry_bytes es) ++ behind) (A ++ replicate (r * 128) 0) =
  A ++ packed es behind ++ replicate ((r - length es) * 128) 0.
Proof.
  intros Hes. revert A r i. induction Hes as [|e es He _ IH]; intros A r i HA Hr.
  { cbn [fill packed length app]. by rewrite Nat.sub_0_r. }
  cbn [fill packed map List.concat length] in *. destruct r as [|r]; [lia|].
  rewrite <- (app_assoc (entry_bytes e)), (drop_app_length' (entry_bytes e)) by (by rewrite entry_bytes_length).
  assert (take CATALOG_ENTRY_BYTES (entry_bytes e ++ List.concat (map entry_bytes es) ++ behind) =
          entry_bytes e ++ take 4 (List.concat (map entry_bytes es) ++ behind)) as ->.
  { rewrite take_app_ge by (rewrite entry_bytes_length by done; unfold CATALOG_ENTRY_BYTES; lia).
    by rewrite entry_bytes_length by done. }
  pose proof (chunk_length e es He) as Hc. set (c := entry_bytes e ++ _) in *.
  assert (copy_at (A ++ replicate (S r * 128) 0) (i * CATALOG_ENTRY_BYTES) c = (A ++ c) ++ replicate (r * 128) 0) as ->.
  { unfold copy_at, CATALOG_ENTRY_BYTES. rewrite take_app_length' by done.
    rewrite <- app_assoc. f_equal. f_equal. rewrite drop_app_ge by lia.
    replace (i * 128 + length c - length A)%nat with 128%nat by lia.
    replace (S r * 128)%nat with (128 + r * 128)%nat by lia. rewrite replicate_add.
    by rewrite drop_app_length' by (by rewrite length_replicate). }
  rewrite IH; [|rewrite length_app, Hc, HA; lia|lia]. by rewrite <- !app_assoc.
Qed.

Lemma catalog_packed es :
  Forall entry_ok es → (length es ≤ 48)%nat →
  catalog_bytes behind es = packed es behind ++ replicate ((48 - length es) * 128) 0.
Proof.
  intros Hes Hl. unfold catalog_bytes. rewrite take_ge by (unfold CATALOG_ENTRIES; lia).
  apply (fill_packed es [] 48 0 Hes eq_refl Hl).
Qed.

Lemma catalog_length es : Forall entry_ok es → (length es ≤ 48)%nat → length (catalog_bytes behind es) = (12 * 512)%nat.
Proof.
  intros Hes Hl. rewrite catalog_packed, length_app, packed_length, length_replicate by done. lia.
Qed.

Lemma scan_packed es A Z m k :
  Forall entry_ok es → length A = (k * 128)%nat →
  scan (length es + m) k (A ++ packed es behind ++ Z) = es ++ scan m (k + length es) (A ++ packed es behind ++ Z).
Proof.
  intros Hes. revert A k. induction Hes as [|e es He _ IH]; intros A k HA; cbn [length].
  { cbn [Nat.add app]. by rewrite Nat.add_0_r. }
  change (S (length es) + m)%nat with (1 + (length es + m))%nat. rewrite scan_app. cbn [packed].
  pose proof (chunk_length e es He) as Hc.
  replace (scan 1 k _) with [e].
  - rewrite <- (app_assoc _ (packed es behind)), (app_assoc A).
    rewrite IH by (rewrite length_app, Hc, HA; lia). cbn [app]. f_equal. f_equal. f_equal. lia.
  - unfold scan, CATALOG_ENTRY_BYTES. cbn [seq map List.filter]. rewrite drop_app_length' by done.
    rewrite <- !app_assoc, (entry_roundtrip e _ He), (eo_flags e He). done.
Qed.

Lemma entries_scan buf : entries_in buf = scan CATALOG_ENTRIES 0 buf.
Proof. unfold entries_in, scan. reflexivity. Qed.

Lemma packed_zero es A k :
  Forall entry_ok es → length A = (k * 128)%nat → (k + length es ≤ 48)%nat →
  scan (48 - k) k (A ++ packed es behind ++ replicate ((48 - k - length es) * 128) 0) = es.
Proof.
  intros Hes HA Hl. replace (48 - k)%nat with (length es + (48 - k - length es))%nat at 1 by lia.
  rewrite scan_packed by done. rewrite app_assoc, scan_zero, app_nil_r; [done|].
  rewrite length_app, packed_length by done. lia.
Qed.

Lemma stored_catalog_roundtrip es :
  Forall entry_ok es → (length es ≤ 48)%nat → entries_in (catalog_bytes behind es) = es.
Proof.
  intros Hes Hl. rewrite entries_scan, catalog_packed by done. exact (packed_zero es [] 0 Hes eq_refl Hl).
Qed.

(** ** What the store holds *)

(** [e] is the entry of bundle [x]. *)
Record stored (s : Store) (x : Z * bytes) (e : CatalogEntry) : Prop := {
  so_ok : entry_ok e;
  so_id : e_id e = x.1;
  so_from : DATA_START_SECTOR ≤ data_sector e;
  so_below : data_sector e + bundle_sectors e ≤ next_data_sector s;
  so_read : bundle_from_entry (dev s) e = Ok x.2
}.

Record holds_entries (s : Store) (L : list (Z * bytes)) (es : list CatalogEntry) : Prop := {
  ho_alive : alive (dev s);
  ho_capacity : DATA_START_SECTOR ≤ next_data_sector s ≤ capacity (dev s);
  ho_width : capacity (dev s) < 2 ^ 64;
  ho_id : 1 ≤ next_app_id s ≤ u32_MAX;
  ho_super : ∃ c, read_superblock (dev s) = Ok (mkSuper 1 (next_app_id s) (next_data_sector s) c);
  ho_catalog : read_sectors (dev s) CATALOG_SECTOR CATALOG_SECTORS = Ok (catalog_bytes behind es);
  ho_length : (length L ≤ CATALOG_ENTRIES)%nat;
  ho_stored : Forall2 (stored s) L es
}.

Definition holds (s : Store) (L : list (Z * bytes)) : Prop := STORE_READY s = true ∧ ∃ es, holds_entries s L es.

Lemma stored_entries s L es : Forall2 (stored s) L es → Forall entry_ok es.
Proof. induction 1 as [|x e L es Hx _ IH]; constructor; [apply Hx|done]. Qed.

Lemma ho_ok s L es : holds_entries s L es → Forall entry_ok es ∧ (length es ≤ 48)%nat.
Proof.
  intros H. pose proof (ho_stored _ _ _ H) as Hs. split.
  - by eapply stored_entries.
  - rewrite <- (Forall2_length _ _ _ Hs). apply H.
Qed.

Lemma ho_entries s L es : holds_entries s L es → read_catalog (dev s) = Ok es.
Proof.
  intros H. destruct (ho_ok _ _ _ H) as [Hes Hl]. unfold read_catalog. rewrite (ho_catalog _ _ _ H).
  by rewrite stored_catalog_roundtrip.
Qed.

(** A bundle's sectors lie below the next free one, so what is written to the
    sectors before the data and from there on leaves it as it is. *)
Lemma stored_ext s s' x e :
  alive (dev s) → alive (dev s') → capacity (dev s') = capacity (dev s) → next_data_sector s ≤ next_data_sector s' →
  (∀ y, DATA_START_SECTOR ≤ y < next_data_sector s → sectors (dev s') y = sectors (dev s) y) →
  stored s x e → stored s' x e.
Proof.
  intros Ha Ha' Hc Hn Hs [H1 H2 H3 H4 H5]. split; try done; [lia|]. unfold bundle_from_entry in *.
  rewrite read_alive in * by done. pose proof (eo_sectors e H1) as [Hb _].
  rewrite (read_loop_ext _ (dev s)); try done. intros y Hy. apply Hs. lia.
Qed.

(** The end of both operations. *)
Lemma catalog_then_super d es sb :
  alive d → DATA_START_SECTOR ≤ capacity d → Forall entry_ok es → (length es ≤ 48)%nat → super_ok sb →
  ∃ d1 d2, write_catalog behind d es = (d1, Ok tt) ∧ write_superblock d1 sb = (d2, Ok tt) ∧
    alive d1 ∧ alive d2 ∧ capacity d1 = capacity d ∧ capacity d2 = capacity d ∧
    (∀ y, 13 ≤ y → sectors d2 y = sectors d y) ∧ (∀ y, 13 ≤ y → sectors d1 y = sectors d y) ∧ sectors d1 0 = sectors d 0 ∧
    read_superblock d2 = Ok sb ∧
    read_sectors d1 CATALOG_SECTOR CATALOG_SECTORS = Ok (catalog_bytes behind es) ∧
    read_sectors d2 CATALOG_SECTOR CATALOG_SECTORS = Ok (catalog_bytes behind es).
Proof.
  intros Ha Hc Hes Hl Hsb. unfold DATA_START_SECTOR in Hc. unfold write_catalog, CATALOG_SECTOR, CATALOG_SECTORS.
  destruct (write_sectors_ok d 1 12 (catalog_bytes behind es) Ha) as (d1 & E1 & W1); [lia|lia|lia|by apply catalog_length|].
  pose proof W1 as [A1 C1 O1 R1]. rewrite take_ge in R1 by (by rewrite catalog_length).
  destruct (super_written d1 sb A1) as (d2 & E2 & [A2 C2 O2 _] & R2); [lia|done|].
  exists d1, d2. rewrite !read_alive by done. rewrite (read_loop_ext _ d1 d2), R1; try done; [|intros y Hy; apply O2; lia].
  split_and!; try done; try congruence; intros; rewrite ?O2, ?O1 by lia; try done.
Qed.

(** A bundle the registry passes on. *)
Definition valid (x : Z * bytes) : Prop :=
  is_u 32 x.1 ∧ bytes_ok x.2 ∧ is_u 32 (Z.of_nat (length x.2)) ∧ isSome (AppRegistry.parse_header x.2) = true.

Lemma sectors_for n : is_u 32 (Z.of_nat n) → sectors_for_bytes n = (Z.of_nat n + 511) / 512.
Proof.
  intros [H1 H2]. unfold sectors_for_bytes. apply wrap_small. split; [apply Z.div_pos; lia|].
  apply Z.div_lt_upper_bound; lia.
Qed.

Lemma sectors_cover n : is_u 32 (Z.of_nat n) → (n ≤ Z.to_nat (sectors_for_bytes n) * 512)%nat.
Proof.
  intros H. rewrite sectors_for by done. pose proof (Z.div_mod (Z.of_nat n + 511) 512 ltac:(lia)).
  pose proof (Z.mod_pos_bound (Z.of_nat n + 511) 512 ltac:(lia)). lia.
Qed.

Lemma sectors_bounds n : is_u 32 (Z.of_nat n) → is_u 32 (sectors_for_bytes n).
Proof. intros _. apply is_u_wrap. lia. Qed.

(** The entry [persist_bundle] adds. *)
Definition entry_for (h : AppRegistry.BundleHeader) (x : Z * bytes) (sector : Z) : CatalogEntry :=
  mkEntry 1 x.1 (AppRegistry.h_name h) (AppRegistry.h_version h) (AppRegistry.h_entry_offset h) (AppRegistry.h_stack_size h)
    sector (sectors_for_bytes (length x.2)) (u32 (Z.of_nat (length x.2))) 0.

Lemma entry_for_ok h x sector :
  valid x → AppRegistry.parse_header x.2 = Some h → is_u 64 sector → entry_ok (entry_for h x sector).
Proof.
  intros (Hi & Hb & Hl & _) Hh Hs. unfold AppRegistry.parse_header, AppRegistry.HEADER_SIZE in Hh.
  destruct (Nat.ltb_spec (length x.2) 112); [done|]. do 3 (case_if_in Hh; [done|]). injection Hh as <-.
  assert (∀ a, (a + 8 ≤ length x.2)%nat → is_u 64 (le_val (slice x.2 a (a + 8)))) as H8.
  { intros a Ha. pose proof (le_val_bounds (slice x.2 a (a + 8)) (slice_bytes_ok _ _ _ Hb)) as Hv.
    rewrite slice_length in Hv by lia. by replace (a + 8 - a)%nat with 8%nat in Hv by lia. }
  split; cbn [flags e_id e_name e_version e_entry_offset e_stack_size data_sector bundle_sectors bundle_bytes e_pad entry_for
              AppRegistry.h_name AppRegistry.h_version AppRegistry.h_entry_offset AppRegistry.h_stack_size];
    try done.
  - by rewrite slice_length by lia.
  - by rewrite slice_length by lia.
  - apply (H8 88%nat). lia.
  - apply (H8 96%nat). lia.
  - by apply sectors_bounds.
  - apply is_u_wrap. lia.
Qed.

Lemma padded_eq (b : bytes) n :
  (length b ≤ n)%nat → take n (b ++ replicate (n - length b) 0) = b ++ replicate (n - length b) 0.
Proof. intros H. apply take_ge. rewrite length_app, length_replicate. lia. Qed.

(** The first write of [persist_bundle]: afterwards the new entry gives the
    bundle. *)
Lemma data_written d x sector h :
  alive d → valid x → AppRegistry.parse_header x.2 = Some h → 0 ≤ sector →
  sector + sectors_for_bytes (length x.2) ≤ capacity d →
  let n := sectors_for_bytes (length x.2) in
  let padded := take (Z.to_nat n * 512) (x.2 ++ replicate (Z.to_nat n * 512 - length x.2) 0) in
  ∃ d', write_sectors d sector n padded = (d', Ok tt) ∧ wrote d sector (Z.to_nat n) padded d' ∧
    read_sectors d' sector n = Ok padded ∧ bundle_from_entry d' (entry_for h x sector) = Ok x.2.
Proof.
  intros Ha (Hi & Hb & Hl & _) Hh Hs Hc n padded. pose proof (sectors_cover _ Hl) as Hcov.
  pose proof (sectors_bounds _ Hl) as [Hn _]. fold n in Hcov, Hn, Hc.
  assert (length padded = (Z.to_nat n * 512)%nat) as Hpl.
  { unfold padded. rewrite padded_eq, length_app, length_replicate by done. lia. }
  destruct (write_sectors_ok d sector n padded Ha Hs Hn Hc Hpl) as (d' & E & W).
  assert (read_sectors d' sector n = Ok padded) as Hr.
  { rewrite read_alive by apply W. rewrite (wr_read _ _ _ _ _ W). rewrite take_ge by (by rewrite Hpl). done. }
  exists d'. split_and!; [done|done|done|]. unfold bundle_from_entry. cbn [entry_for data_sector bundle_sectors bundle_bytes].
  fold n. rewrite Hr. f_equal. unfold u32. rewrite wrap_small by done. rewrite Nat2Z.id. unfold padded.
  rewrite padded_eq by done. apply take_app_length.
Qed.

(** ** The operations *)

Lemma Forall2_stored_ext s s' L es :
  alive (dev s) → alive (dev s') → capacity (dev s') = capacity (dev s) → next_data_sector s ≤ next_data_sector s' →
  (∀ y, DATA_START_SECTOR ≤ y < next_data_sector s → sectors (dev s') y = sectors (dev s) y) →
  Forall2 (stored s) L es → Forall2 (stored s') L es.
Proof. intros. eapply Forall2_impl; [done|]. intros x e. by apply stored_ext. Qed.

Lemma super_of_ok s n : 1 ≤ next_app_id s ≤ u32_MAX → is_u 64 (next_data_sector s) → super_ok (super_of s n).
Proof.
  intros Hi Hn. unfold super_ok, super_of. cbn [sb_version sb_next_app_id sb_next_data_sector entry_count].
  split_and!; [split; lia|unfold is_u, u32_MAX in *; lia|done|apply is_u_wrap; lia].
Qed.

(** Setting up a new catalog [es] and the superblock of [s]. *)
Lemma rewritten s L es :
  alive (dev s) → DATA_START_SECTOR ≤ next_data_sector s ≤ capacity (dev s) → capacity (dev s) < 2 ^ 64 →
  1 ≤ next_app_id s ≤ u32_MAX → STORE_READY s = true → (length L ≤ CATALOG_ENTRIES)%nat → Forall2 (stored s) L es →
  ∃ d1 d2, write_catalog behind (dev s) es = (d1, Ok tt) ∧
    write_superblock d1 (super_of s (length es)) = (d2, Ok tt) ∧ holds (set_dev s d2) L ∧
    capacity d2 = capacity (dev s).
Proof.
  intros Ha Hc Hw Hi Hr HL Hs. pose proof Hc as Hc'. unfold DATA_START_SECTOR in Hc'.
  pose proof (stored_entries s L es Hs) as Hes.
  assert (length es ≤ 48)%nat as Hl by (rewrite <- (Forall2_length _ _ _ Hs); exact HL).
  destruct (catalog_then_super (dev s) es (super_of s (length es)) Ha) as
    (d1 & d2 & E1 & E2 & A1 & A2 & C1 & C2 & O2 & _ & _ & R2 & _ & R3);
    [lia|done|done|apply super_of_ok; [done|split; lia]|].
  exists d1, d2. split_and!; [done|done| |done]. split; [done|]. exists es.
  split; cbn [dev set_dev next_data_sector next_app_id]; rewrite ?C2; try done.
  - by exists (u32 (Z.of_nat (length es))).
  - apply (Forall2_stored_ext s); cbn [dev set_dev next_data_sector]; try done.
    intros y Hy. apply O2. unfold DATA_START_SECTOR in Hy. lia.
Qed.

Lemma persist_ok s L x :
  holds s L → valid x → (length L < CATALOG_ENTRIES)%nat →
  next_data_sector s + sectors_for_bytes (length x.2) ≤ capacity (dev s) →
  let s' := (persist_bundle behind s x.1 x.2).1 in
  (persist_bundle behind s x.1 x.2).2 = Ok tt ∧ holds s' (L ++ [x]) ∧ capacity (dev s') = capacity (dev s) ∧
  next_data_sector s' = next_data_sector s + sectors_for_bytes (length x.2).
Proof.
  intros [Hrdy [es H]] Hx HL Hc s'. pose proof Hx as (Hi & Hb & Hl & Hp).
  destruct (AppRegistry.parse_header x.2) as [h|] eqn:Hh; [|done]. pose proof H as [A C W I _ _ _ S].
  unfold DATA_START_SECTOR in C. pose proof (sectors_bounds _ Hl) as [Hn _].
  destruct (data_written (dev s) x (next_data_sector s) h) as (d1 & E1 & [A1 C1 O1 _] & _ & R1);
    [done|done|done|lia|done|].
  assert (read_catalog d1 = Ok es) as R2.
  { rewrite <- (ho_entries _ _ _ H). unfold read_catalog. rewrite !read_alive by done.
    rewrite (read_loop_ext _ (dev s) d1); try done. intros y Hy. apply O1. unfold CATALOG_SECTOR, CATALOG_SECTORS in Hy. lia. }
  set (n := sectors_for_bytes (length x.2)) in *.
  set (s1 := mkStore d1 true (Z.max (Z.min (x.1 + 1) u32_MAX) (next_app_id s)) (u64 (next_data_sector s + n))).
  assert (u64 (next_data_sector s + n) = next_data_sector s + n) as Hu by (apply wrap_small; split; lia).
  assert (Forall2 (stored s1) (L ++ [x]) (es ++ [entry_for h x (next_data_sector s)])) as S1.
  { apply Forall2_app.
    - apply (Forall2_stored_ext s); cbn [s1 dev next_data_sector]; try done; [lia|]. intros y Hy. apply O1. lia.
    - constructor; [|constructor]. split; cbn [s1 dev next_data_sector entry_for data_sector bundle_sectors e_id];
        try done; [|unfold DATA_START_SECTOR; lia|fold n; lia].
      apply entry_for_ok; [done|done|split; lia]. }
  destruct (rewritten s1 (L ++ [x]) (es ++ [entry_for h x (next_data_sector s)])) as (d2 & d3 & E2 & E3 & H3 & C3);
    cbn [s1 dev next_data_sector next_app_id STORE_READY]; unfold DATA_START_SECTOR; rewrite ?C1; try done; try lia.
  { rewrite length_app. simpl. lia. }
  subst s'. unfold persist_bundle. rewrite Hrdy, Hh. cbn [negb]. fold n. rewrite E1, R2.
  rewrite (proj2 (Nat.leb_gt _ _)) by (rewrite <- (Forall2_length _ _ _ S); done).
  cbn [dev s1] in E2. unfold entry_for in E2, E3. fold n in E2, E3. rewrite E2. unfold super_of, s1 in E3.
  cbn [next_app_id next_data_sector] in E3. unfold super_of. cbn [next_app_id next_data_sector]. rewrite E3.
  split_and!; [done|exact H3|cbn [fst dev set_dev]; rewrite C3; exact C1|exact Hu].
Qed.

Definition without (i : Z) (L : list (Z * bytes)) : list (Z * bytes) := List.filter (λ x, negb (x.1 =? i)) L.

Lemma filter_length_le {A} (p : A → bool) l : (length (List.filter p l) ≤ length l)%nat.
Proof. induction l as [|a l IH]; [done|]. cbn. destruct (p a); cbn; lia. Qed.

Lemma filter_length_eq {A} (p : A → bool) l : length (List.filter p l) = length l → List.filter p l = l.
Proof.
  induction l as [|a l IH]; [done|]. cbn. pose proof (filter_length_le p l).
  destruct (p a); cbn; [|lia]. intros E. f_equal. apply IH. lia.
Qed.

Lemma without_stored s i L es :
  Forall2 (stored s) L es → Forall2 (stored s) (without i L) (List.filter (λ e, negb (e_id e =? i)) es).
Proof.
  induction 1 as [|x e L es Hx _ IH]; [constructor|]. unfold without in *. cbn [List.filter].
  rewrite (so_id _ _ _ Hx). destruct (x.1 =? i); [done|]. by constructor.
Qed.

Lemma remove_ok s L i :
  holds s L →
  let s' := (remove_bundle behind s i).1 in
  holds s' (without i L) ∧ capacity (dev s') = capacity (dev s) ∧ next_data_sector s' = next_data_sector s.
Proof.
  intros [Hrdy [es H]] s'. pose proof (without_stored s i L es (ho_stored _ _ _ H)) as S1.
  subst s'. unfold remove_bundle. rewrite Hrdy, (ho_entries _ _ _ H). cbn [negb].
  destruct (Nat.eqb_spec (length (List.filter (λ e, negb (e_id e =? i)) es)) (length es)) as [E|E].
  - cbn [fst]. split; [|done]. assert (without i L = L) as ->; [|by split; [|exists es]].
    apply filter_length_eq. fold (without i L). rewrite (Forall2_length _ _ _ S1), E. symmetry.
    apply (Forall2_length _ _ _ (ho_stored _ _ _ H)).
  - destruct (rewritten s (without i L) (List.filter (λ e, negb (e_id e =? i)) es)) as (d1 & d2 & E1 & E2 & H2 & C2);
      try apply H; try done.
    + pose proof (ho_length _ _ _ H). pose proof (filter_length_le (λ x : Z * bytes, negb (x.1 =? i)) L).
      unfold without. lia.
    + rewrite E1, E2. done.
Qed.

(** Reading the bundles in. *)
Definition load_one (g : AppRegistry.Registry) (x : Z * bytes) : AppRegistry.Registry :=
  (AppRegistry.install_from_store g x.2 x.1).1.

Lemma hydrate_loads s L es g k : Forall2 (stored s) L es → (hydrate es (dev s) g k).1 = foldl load_one g L.
Proof.
  intros H. revert g k. induction H as [|x e L es Hx _ IH]; intros g k; [done|]. cbn [hydrate foldl].
  rewrite (so_read _ _ _ Hx), (so_id _ _ _ Hx). unfold load_one at 2.
  destruct (AppRegistry.install_from_store g x.2 x.1) as [g1 [j|]]; apply IH.
Qed.

Lemma restarted_alive d : alive d → dev (restarted d) = d.
Proof. intros Ha. unfold restarted. cbn [dev]. destruct d. by rewrite <- (al_left _ Ha). Qed.

(** Starting on a store. *)
Lemma init_loads s L es g c :
  alive (dev s) → DATA_START_SECTOR ≤ next_data_sector s → 1 ≤ next_app_id s →
  read_superblock (dev s) = Ok (mkSuper 1 (next_app_id s) (next_data_sector s) c) →
  read_catalog (dev s) = Ok es → Forall2 (stored s) L es →
  init (restarted (dev s)) g = (mkStore (dev s) true (next_app_id s) (next_data_sector s), foldl load_one g L, true).
Proof.
  intros A C I R H S. unfold init. rewrite restarted_alive by done.
  rewrite (al_ready _ A), R. cbn [negb sb_next_app_id sb_next_data_sector]. rewrite !R.
  cbn [sb_next_app_id sb_next_data_sector].
  unfold hydrate_registry. rewrite H, (hydrate_loads s L es) by done. rewrite !Z.max_l by lia. done.
Qed.

Lemma holds_loads s L g : holds s L → (init (restarted (dev s)) g).1.2 = foldl load_one g L.
Proof.
  intros [_ [es H]]. destruct (ho_super _ _ _ H) as [c R].
  rewrite (init_loads s L es g c); try apply H; [done|exact R|by eapply ho_entries].
Qed.

Lemma zero_sectors_ok n d s :
  alive d → 0 ≤ s → s + Z.of_nat n ≤ capacity d →
  ∃ d', zero_sectors n d s = (d', Ok tt) ∧ wrote d s n (replicate (n * 512) 0) d'.
Proof.
  revert d s. induction n as [|n IH]; intros d s Ha Hs Hc; cbn [zero_sectors].
  { exists d. split; [done|]. by split. }
  destruct (write_sectors_ok d s 1 (replicate 512 0) Ha) as (d1 & -> & [A1 C1 O1 R1]); [lia|lia|lia|done|].
  destruct (IH d1 (s + 1) A1) as (d' & -> & [A2 C2 O2 R2]); [lia|lia|].
  exists d'. split; [done|]. split; [done|congruence| |].
  - intros x Hx. rewrite O2, O1 by lia. done.
  - assert (sectors d1 s = replicate 512 0) as E1.
    { cbn [read_loop Z.to_nat Pos.to_nat] in R1. change (Z.to_nat 1) with 1%nat in R1. cbn [read_loop] in R1.
      rewrite op_alive in R1 by (done || lia). rewrite app_nil_r in R1. by injection R1. }
    cbn [read_loop]. rewrite op_alive, R2, O2, E1 by (done || lia).
    rewrite !take_ge by (rewrite length_replicate; lia). by rewrite <- replicate_add.
Qed.

(** A device without a store gets an empty one. *)
Lemma init_formats d g e :
  alive d → DATA_START_SECTOR ≤ capacity d < 2 ^ 64 → read_superblock d = Err e →
  ∃ s, init (restarted d) g = (s, g, true) ∧ holds s [] ∧ capacity (dev s) = capacity d ∧
    next_data_sector s = DATA_START_SECTOR ∧ sectors (dev s) 2 = replicate 512 0 ∧
    (∀ y, 13 ≤ y → sectors (dev s) y = sectors d y).
Proof.
  intros Ha Hc He. unfold DATA_START_SECTOR in Hc. unfold init. rewrite restarted_alive by done.
  rewrite (al_ready _ Ha), He. cbn [negb]. unfold format_store.
  destruct (super_written d (mkSuper 1 1 DATA_START_SECTOR 0) Ha) as (d1 & -> & [A1 C1 O1 _] & R1);
    [lia|repeat split; done|].
  destruct (zero_sectors_ok (Z.to_nat CATALOG_SECTORS) d1 CATALOG_SECTOR A1) as (d2 & -> & [A2 C2 O2 R2]);
    [unfold CATALOG_SECTOR; lia|unfold CATALOG_SECTOR, CATALOG_SECTORS; lia|].
  unfold CATALOG_SECTOR, CATALOG_SECTORS in O2, R2.
  assert (read_superblock d2 = read_superblock d1) as ER.
  { unfold read_superblock. rewrite !read_alive by done. rewrite (read_loop_ext _ d1 d2); try done.
    intros x Hx. apply O2. unfold SUPER_SECTOR in Hx. lia. }
  rewrite ER, R1. cbn [sb_next_app_id sb_next_data_sector].
  assert (read_sectors d2 CATALOG_SECTOR CATALOG_SECTORS = Ok (catalog_bytes behind [])) as Hcat.
  { rewrite read_alive by done. unfold CATALOG_SECTOR, CATALOG_SECTORS. rewrite R2.
    rewrite catalog_packed, take_ge; [done|rewrite length_replicate; lia|constructor|simpl; lia]. }
  exists (mkStore d2 true 1 DATA_START_SECTOR). split; [|split; [split; [done|exists []]|]].
  - unfold hydrate_registry, read_catalog. rewrite Hcat, stored_catalog_roundtrip; [done|constructor|simpl; lia].
  - split; cbn [dev next_data_sector next_app_id]; unfold DATA_START_SECTOR; try done; try lia.
    + exists 0. by rewrite ER, R1.
    + simpl. lia.
  - cbn [dev next_data_sector]. split_and!; [congruence|done| |].
    + pose proof (read_loop_sector _ _ _ _ 1 A2 R2 ltac:(lia)) as E2. change (1 + Z.of_nat 1) with 2 in E2.
      rewrite E2, (take_ge (replicate _ _)), drop_replicate, take_replicate by (rewrite length_replicate; lia).
      reflexivity.
    + intros y Hy. rewrite O2, O1 by lia. done.
Qed.

(** ** Loading what was installed *)

Import AppRegistry.

(** The record the registry has for bundle [x]. *)
Definition record_for (x : Z * bytes) (r : AppRecord) : Prop :=
  ∃ h, parse_header x.2 = Some h ∧ r = record_of h x.2 x.1 false.

Lemma record_for_id x r : record_for x r → id r = x.1.
Proof. by intros (h & _ & ->). Qed.

Lemma load_one_adds g x r :
  record_for x r → (length (apps (table g)) < MAX_APPS)%nat →
  id r ∉ (id <$> apps (table g)) → app_name r ∉ (app_name <$> apps (table g)) →
  apps (table (load_one g x)) ≡ₚ r :: apps (table g).
Proof.
  intros (h & Hh & ->) Hl Hi Hn. unfold load_one, install_from_store, install_record. rewrite Hh.
  apply find_None in Hi. apply find_by_name_None in Hn. cbn [id record_of] in Hi. rewrite Hi.
  change (app_name (record_of h x.2 x.1 false)) with (nul_trim (h_name h)) in Hn. rewrite Hn.
  destruct (insert_total (table g) (record_of h x.2 x.1 false) Hl) as [t1 E]. rewrite E.
  apply insert_spec in E as (Hp & _ & _). cbn [fst table set_table]. by case_if.
Qed.

Lemma loads_all L rs g :
  Forall2 record_for L rs → NoDup (id <$> rs ++ apps (table g)) → NoDup (app_name <$> rs ++ apps (table g)) →
  (length (rs ++ apps (table g)) ≤ MAX_APPS)%nat →
  apps (table (foldl load_one g L)) ≡ₚ rs ++ apps (table g).
Proof.
  intros H. revert g. induction H as [|x r L rs Hx _ IH]; intros g Hi Hn Hl; [done|]. cbn [foldl].
  cbn [app fmap list_fmap length] in Hi, Hn, Hl. apply NoDup_cons in Hi as [Hi1 Hi2], Hn as [Hn1 Hn2].
  rewrite fmap_app, not_elem_of_app in Hi1. rewrite fmap_app, not_elem_of_app in Hn1. rewrite length_app in Hl.
  assert (apps (table (load_one g x)) ≡ₚ r :: apps (table g)) as Hp.
  { apply load_one_adds; [done|lia|tauto|tauto]. }
  rewrite IH; rewrite Hp; [by rewrite <- Permutation_middle| | |].
  - rewrite <- Permutation_middle. cbn. apply NoDup_cons. rewrite fmap_app, not_elem_of_app. by rewrite <- fmap_app.
  - rewrite <- Permutation_middle. cbn. apply NoDup_cons. rewrite fmap_app, not_elem_of_app. by rewrite <- fmap_app.
  - rewrite length_app. cbn. lia.
Qed.

(** The apps that are not system apps. *)
Definition users (t : AppTable) : list AppRecord := List.filter (λ r, negb (system r)) (apps t).

Lemma filter_perm {A} (p : A → bool) l l' : l ≡ₚ l' → List.filter p l ≡ₚ List.filter p l'.
Proof.
  induction 1 as [|a l l' _ IH|a b l|l1 l2 l3 _ IH1 _ IH2]; cbn; [done| | |by rewrite IH1].
  - destruct (p a); by rewrite ?IH.
  - destruct (p a), (p b); try done. constructor.
Qed.

Lemma filter_NoDup {A B} (f : A → B) (p : A → bool) l : NoDup (f <$> l) → NoDup (f <$> List.filter p l).
Proof.
  induction l as [|a l IH]; [done|]. cbn. intros [H1 H2]%NoDup_cons. destruct (p a); [|by apply IH].
  cbn. apply NoDup_cons. split; [|by apply IH]. intros (r & E & Hr)%list_elem_of_fmap. apply H1.
  apply list_elem_of_fmap. exists r. split; [done|]. apply list_elem_of_In, filter_In in Hr as [Hr _].
  by apply list_elem_of_In.
Qed.

Lemma elem_users t r : r ∈ users t ↔ r ∈ apps t ∧ system r = false.
Proof.
  unfold users. rewrite !list_elem_of_In, filter_In. by rewrite negb_true_iff.
Qed.

(** A table that holds the user apps of [t] and nothing else finds the same. *)
Lemma find_same t t' :
  NoDup (id <$> apps t) → apps t' ≡ₚ users t →
  ∀ i, find t' i = match find t i with Some r => if system r then None else Some r | None => None end.
Proof.
  intros Hnd Hp i. assert (NoDup (id <$> apps t')) as Hnd' by (rewrite Hp; by apply filter_NoDup).
  destruct (find t i) as [r|] eqn:E.
  - apply find_Some in E as [Hr <-]. destruct (system r) eqn:Es.
    + apply find_None. rewrite Hp. intros (r' & Ei & Hr')%list_elem_of_fmap. apply elem_users in Hr' as [Hr' Es'].
      pose proof (find_unique t r Hnd Hr) as E1. rewrite Ei, (find_unique t r' Hnd Hr') in E1. congruence.
    + apply find_unique; [done|]. rewrite Hp. by apply elem_users.
  - apply find_None. rewrite Hp. intros (r' & -> & Hr')%list_elem_of_fmap. apply elem_users in Hr' as [Hr' _].
    apply find_None in E. apply E, list_elem_of_fmap. eauto.
Qed.

(** ** Sessions *)

Inductive call := Install (b : bytes) | Uninstall (i : Z).

Definition do_call (g : Registry) (c : call) : Registry :=
  match c with Install b => (install g b).1 | Uninstall i => (uninstall g i).1 end.
Definition session (g : Registry) (cs : list call) : Registry := foldl do_call g cs.

Definition call_ok (c : call) : Prop :=
  match c with Install b => bytes_ok b ∧ is_u 32 (Z.of_nat (length b)) | Uninstall _ => True end.
(** The sectors a call can take. *)
Definition cost (c : call) : Z := match c with Install b => sectors_for_bytes (length b) | Uninstall _ => 0 end.
Definition costs (cs : list call) : Z := foldr (λ c n, cost c + n) 0 cs.

(** The store has the bundles of the registry's user apps. *)
Definition tracked (g : Registry) (s : Store) : Prop :=
  table_ok (table g) ∧ ∃ L rs, holds s L ∧ Forall2 record_for L rs ∧ rs ≡ₚ users (table g).

Lemma without_records i L rs :
  Forall2 record_for L rs → Forall2 record_for (without i L) (List.filter (λ r, negb (id r =? i)) rs).
Proof.
  induction 1 as [|x r L rs Hx _ IH]; [constructor|]. unfold without in *. cbn [List.filter].
  rewrite (record_for_id _ _ Hx). destruct (x.1 =? i); [done|]. by constructor.
Qed.

Lemma filter_all {A} (p : A → bool) l : (∀ x, x ∈ l → p x = true) → List.filter p l = l.
Proof.
  induction l as [|a l IH]; intros H; [done|]. cbn. rewrite (H a) by (by left). f_equal. apply IH.
  intros x Hx. apply H. by right.
Qed.

(** A call that does not reach the store. *)
Lemma tracked_same g g' s :
  tracked g s → table_ok (table g') → users (table g') = users (table g) → tracked g' s.
Proof. intros [_ (L & rs & H1 & H2 & H3)] Ht E. split; [done|]. exists L, rs. by rewrite E. Qed.

Lemma install_tracked g s b :
  tracked g s → next_id (table g) < u32_MAX → call_ok (Install b) →
  (length (users (table (install g b).1)) ≤ CATALOG_ENTRIES)%nat →
  next_data_sector s + sectors_for_bytes (length b) ≤ capacity (dev s) →
  ∃ log, store_log (install g b).1 = store_log g ++ log ∧
    let s' := apply_log behind s log in
    tracked (install g b).1 s' ∧ capacity (dev s') = capacity (dev s) ∧
    next_data_sector s' ≤ next_data_sector s + sectors_for_bytes (length b) ∧
    next_id (table (install g b).1) ≤ next_id (table g) + 1.
Proof.
  intros T Hn [Hb Hl] Hu Hc. pose proof (sectors_bounds _ Hl) as [Hs0 _].
  pose proof T as [Ht (L & rs & H1 & H2 & H3)]. pose proof (to_next _ Ht) as Hnx.
  destruct (install g b) as [g' o] eqn:E. pose proof (step_ok g g' Ht (step_install g b g' o Hn E)) as [Ht' _].
  cbn [fst] in *. unfold install in E. destruct (parse_header b) as [h|] eqn:Hh.
  2:{ injection E as <- <-. exists []. rewrite app_nil_r. cbn. split_and!; [done|done|done|lia|lia]. }
  destruct (find_by_name _ _).
  { injection E as <- <-. exists []. rewrite app_nil_r. cbn. split_and!; [done|done|done|lia|lia]. }
  destruct (insert _ _) as [t2|] eqn:Ei; injection E as <- <-.
  2:{ exists []. rewrite app_nil_r. cbn [apply_log foldl table set_table next_id].
      pose proof (next_id32_succ (next_id (table g)) ltac:(lia)). split_and!; [done| |done|lia|lia]. apply (tracked_same g); [done|exact Ht'|reflexivity]. }
  apply insert_spec in Ei as (Hp & Hn2 & _). cbn [table log_store set_table store_log] in *.
  apply (filter_perm (λ r, negb (system r))) in Hp. cbn [List.filter system record_of negb] in Hp.
  change (users t2 ≡ₚ record_of h b (next_id (table g)) false :: users (table g)) in Hp.
  set (x := (next_id (table g), b)). exists [Persist x.1 x.2]. split; [done|]. cbn [apply_log foldl apply_call].
  rewrite Hp in Hu. cbn [length] in Hu. rewrite <- H3, <- (Forall2_length _ _ _ H2) in Hu.
  destruct (persist_ok s L x H1) as (_ & P2 & P3 & P4); [|lia|done|].
  { split_and!; [split; unfold u32_MAX in *; cbn; lia|done|done|by cbn [x snd]; rewrite Hh]. }
  split_and!; [|done|rewrite P4; cbn [x snd]; lia|].
  - split; [done|]. exists (L ++ [x]), (rs ++ [record_of h b (next_id (table g)) false]). split_and!; [done| |].
    + apply Forall2_app; [done|]. constructor; [|constructor]. by exists h.
    + rewrite Hp, H3. by rewrite Permutation_app_comm.
  - rewrite Hn2. cbn [next_id]. rewrite next_id32_succ by lia. lia.
Qed.

Lemma uninstall_tracked g s i :
  tracked g s →
  ∃ log, store_log (uninstall g i).1 = store_log g ++ log ∧
    let s' := apply_log behind s log in
    tracked (uninstall g i).1 s' ∧ capacity (dev s') = capacity (dev s) ∧
    next_data_sector s' = next_data_sector s ∧ next_id (table (uninstall g i).1) = next_id (table g).
Proof.
  intros T. pose proof T as [Ht (L & rs & H1 & H2 & H3)].
  destruct (uninstall g i) as [g' o] eqn:E. pose proof (step_ok g g' Ht (step_uninstall g i g' o E)) as [Ht' _].
  cbn [fst] in *. unfold uninstall in E. case_if_in E.
  { injection E as <- <-. exists []. by rewrite app_nil_r. }
  destruct (remove (table g) i) as [t' [|]] eqn:Er; injection E as <- <-.
  2:{ apply remove_miss in Er as ->. exists []. rewrite app_nil_r. cbn. by split_and!. }
  apply remove_spec in Er as (r & Hf & Hp & Hnx). rewrite Hf in E0. apply find_Some in Hf as [Hr Hi].
  exists [RemoveBundle i]. split; [done|]. cbn [apply_log foldl apply_call table log_store set_table].
  destruct (remove_ok s L i H1) as (P1 & P2 & P3). split_and!; [|done|done|done]. split; [done|].
  exists (without i L), (List.filter (λ r, negb (id r =? i)) rs). split_and!; [done|by apply without_records|].
  pose proof (to_ids _ Ht) as Hnd. rewrite Hp in Hnd. cbn in Hnd. apply NoDup_cons in Hnd as [Hnd _].
  apply (filter_perm (λ r, negb (system r))) in Hp. cbn [List.filter] in Hp. rewrite E0 in Hp. cbn [negb] in Hp.
  change (users (table g) ≡ₚ r :: users t') in Hp. rewrite Hp in H3. rewrite (filter_perm _ _ _ H3). cbn [List.filter].
  rewrite (proj2 (Z.eqb_eq (id r) i) Hi). cbn [negb]. rewrite filter_all; [done|]. intros r' [Hr' _]%elem_users.
  apply negb_true_iff, Z.eqb_neq. intros E. apply Hnd. rewrite Hi, <- E. apply list_elem_of_fmap. eauto.
Qed.

Lemma session_tracked cs g s :
  tracked g s → Forall call_ok cs → next_id (table g) + Z.of_nat (length cs) ≤ u32_MAX →
  (∀ k, length (users (table (session g (take k cs)))) ≤ CATALOG_ENTRIES)%nat →
  next_data_sector s + costs cs ≤ capacity (dev s) →
  ∃ log, store_log (session g cs) = store_log g ++ log ∧ tracked (session g cs) (apply_log behind s log).
Proof.
  revert g s. induction cs as [|c cs IH]; intros g s T Hok Hn Hk Hc.
  { exists []. by rewrite app_nil_r. }
  apply Forall_cons_iff in Hok as [Hc1 Hok]. cbn [length costs foldr] in Hn, Hc. fold (costs cs) in Hc.
  assert (0 ≤ costs cs) as H0.
  { clear -Hok Hbehind. induction Hok as [|c cs H _ IH]; [done|]. cbn [costs foldr]. fold (costs cs).
    destruct c as [b|i]; cbn [cost]; [|lia]. destruct H as [_ H]. pose proof (sectors_bounds _ H) as [? _]. lia. }
  enough (∃ log, store_log (do_call g c) = store_log g ++ log ∧
            let s' := apply_log behind s log in
            tracked (do_call g c) s' ∧ capacity (dev s') = capacity (dev s) ∧
            next_data_sector s' ≤ next_data_sector s + cost c ∧ next_id (table (do_call g c)) ≤ next_id (table g) + 1)
    as (log & E & T1 & C1 & N1 & I1).
  { destruct (IH (do_call g c) (apply_log behind s log) T1 Hok) as (log' & E' & T'); [lia| |lia|].
    - intros k. apply (Hk (S k)).
    - exists (log ++ log'). cbn [session foldl] in *. fold (session (do_call g c) cs). rewrite E', E, app_assoc.
      split; [done|]. unfold apply_log in *. by rewrite foldl_app. }
  destruct c as [b|i]; cbn [do_call cost] in *.
  - apply install_tracked; [done|lia|done|exact (Hk 1%nat)|lia].
  - destruct (uninstall_tracked g s i T) as (log & E & T1 & C1 & N1 & I1). exists log. split_and!; [done|done|done|lia|lia].
Qed.

(** ** The system apps *)

Lemma find_first_append {A} (p : A → bool) l k :
  find_first p (l ++ k) = match find_first p l with Some x => Some x | None => find_first p k end.
Proof. induction l as [|a l IH]; cbn; [done|]. by destruct (p a). Qed.

Lemma insert_finds t r t' i : insert t r = Some t' → id r ≠ i → find t' i = find t i.
Proof.
  intros E Hi. unfold insert in E. case_if_in E; [done|]. unfold find.
  destruct (update_first _ _ _) as [ss|] eqn:Eu; injection E as <-; cbn [slots].
  - apply update_first_Some in Eu as (k & x & Hp & Hx & ->). apply position_Some in Hp as [(y & Hy & Hpy) _].
    destruct x as [a|]; [rewrite Hx in Hy; injection Hy as <-; done|]. destruct (flatten_insert (slots t) k None (Some r) Hx) as [E1 E2].
    rewrite E1, E2. cbn [flatten app]. rewrite !find_first_append. cbn [find_first app]. rewrite (proj2 (Z.eqb_neq _ _) Hi). done.
  - rewrite flatten_app, find_first_append. cbn [flatten find_first]. rewrite (proj2 (Z.eqb_neq _ _) Hi).
    by destruct (find_first _ _).
Qed.

Definition keeps (g g' : Registry) : Prop := ∀ i r, find (table g) i = Some r → find (table g') i = Some r.

Lemma record_keeps g b i sys : keeps g (install_record g b i sys).1.
Proof.
  intros j r Hj. unfold install_record. destruct (parse_header b) as [h|]; [|done].
  destruct (find (table g) i) eqn:Ei; [done|]. destruct (find_by_name _ _); [done|].
  destruct (insert _ _) as [t1|] eqn:E; [|done]. cbn [fst table set_table].
  assert (find t1 j = Some r) as H1.
  { rewrite (insert_finds _ _ _ _ E); [done|]. cbn [id record_of]. intros ->. congruence. }
  by case_if.
Qed.

Lemma allocate_id_free fuel t t1 i : allocate_id fuel t = Some (t1, i) → find t i = None ∧ slots t1 = slots t.
Proof.
  revert t. induction fuel as [|fuel IH]; intros t; [done|]. cbn [allocate_id].
  destruct (find _ _) eqn:E; [|intros [= <- <-]; by split]. by intros [H1 H2]%IH.
Qed.

Lemma auto_keeps g b sys : keeps g (install_record_auto_id g b sys).1.
Proof.
  intros j r Hj. unfold install_record_auto_id. destruct (parse_header b) as [h|]; [|done].
  destruct (find_by_name _ _); [done|]. destruct (allocate_id _ _) as [[t1 i]|] eqn:Ea; [|done].
  apply allocate_id_free in Ea as [Hi Hs].
  assert (find t1 j = Some r) as H1 by (unfold find in *; by rewrite Hs).
  destruct (insert _ _) as [t2|] eqn:E; [|done]. cbn [fst table set_table].
  rewrite (insert_finds _ _ _ _ E); [done|]. cbn [id record_of]. intros ->. congruence.
Qed.

Lemma foldl_keeps {A} (f : Registry → A → Registry) l g : (∀ g x, keeps g (f g x)) → keeps g (foldl f g l).
Proof. intros H. revert g. induction l as [|a l IH]; intros g i r Hi; [done|]. cbn. apply IH. by apply H. Qed.

Lemma system_apps_keep fs_lookup listing g : keeps g (install_system_apps fs_lookup listing g).
Proof.
  intros i r Hi. unfold install_system_apps, discover_applications_dir.
  assert (find (table (foldl (λ g x, (install_system_from_path fs_lookup g x.1 x.2).1) g SYSTEM_APPS)) i = Some r) as H1.
  { apply (foldl_keeps _ _ g); [|done]. intros g' x. unfold install_system_from_path.
    destruct (fs_lookup x.1); [apply record_keeps|by intros ??]. }
  case_if; [done|]. revert H1. apply foldl_keeps. intros g' x. unfold discover_line.
  case_if; [by intros ??|]. destruct (Http.Http.from_utf8 x); [|by intros ??]. destruct x; [by intros ??|].
  unfold install_system_from_path_auto. destruct (fs_lookup _); [apply auto_keeps|by intros ??].
Qed.

(** ** Theorems *)

(** C14: installed apps are there when the store is opened again: on a device
    without a store, after any
    sequence of installs and uninstalls that never has more than 48 user apps
    and fits on the device, opening the store again loads exactly the user apps
    that were installed, each with the same record under the same id, and they
    stay when the system apps are added. *)
Theorem apps_survive_reboot fs_lookup listing d e g0 cs :
  alive d → DATA_START_SECTOR ≤ capacity d < 2 ^ 64 → read_superblock d = Err e →
  reachable g0 → users (table g0) = [] → store_log g0 = [] →
  Forall call_ok cs → next_id (table g0) + Z.of_nat (length cs) ≤ u32_MAX →
  (∀ k, length (users (table (session g0 (take k cs)))) ≤ CATALOG_ENTRIES)%nat →
  DATA_START_SECTOR + costs cs ≤ capacity d →
  let s0 := (init (restarted d) Registry_init).1.1 in
  let g := session g0 cs in
  let s := apply_log behind s0 (store_log g) in
  let g' := (init (restarted (dev s)) Registry_init).1.2 in
  (∀ i, find (table g') i = match find (table g) i with Some r => if system r then None else Some r | None => None end) ∧
  (∀ i r, find (table g) i = Some r → system r = false →
     find (table (install_system_apps fs_lookup listing g')) i = Some r).
Proof.
  intros Ha Hc He Hg Hu Hlog Hok Hn Hk Hcost s0 g s g'.
  destruct (init_formats d Registry_init e Ha Hc He) as (s1 & E1 & H1 & C1 & N1 & _).
  assert (s0 = s1) as -> by (unfold s0; by rewrite E1). clear E1.
  destruct (session_tracked cs g0 s1) as (log & El & [Ht (L & rs & HL & HR & HP)]); try done; [|lia|].
  { split; [by apply reachable_ok|]. exists [], []. rewrite Hu. split_and!; [done|constructor|done]. }
  rewrite Hlog in El. cbn [app] in El. assert (s = apply_log behind s1 log) as Es by (unfold s, g; by rewrite El).
  assert (∀ i, find (table g') i = match find (table g) i with Some r => if system r then None else Some r | None => None end) as HF.
  { apply find_same; [apply Ht|]. unfold g'. rewrite Es, (holds_loads _ L) by done.
    pose proof (loads_all L rs Registry_init HR) as HA. change (apps (table Registry_init)) with (@nil AppRecord) in HA.
    rewrite !app_nil_r in HA. rewrite HA; [done| | |]; rewrite HP; [apply filter_NoDup, Ht|apply filter_NoDup, Ht|].
    etransitivity; [apply filter_length_le|apply Ht]. }
  split; [done|]. intros i r Hi Hr. apply system_apps_keep. by rewrite HF, Hi, Hr.
Qed.

(** ** Starting the driver *)

Lemma persists_ok L s L0 :
  holds s L0 → Forall valid L → (length L0 + length L ≤ CATALOG_ENTRIES)%nat →
  next_data_sector s + costs (map (λ x, Install x.2) L) ≤ capacity (dev s) →
  holds (apply_log behind s (map (λ x, Persist x.1 x.2) L)) (L0 ++ L).
Proof.
  intros H HV. revert s L0 H. induction HV as [|x L Hx HV IH]; intros s L0 H Hl Hc; [by rewrite app_nil_r|].
  cbn [length map costs foldr cost] in *. fold (costs (map (λ x : Z * bytes, Install x.2) L)) in Hc.
  assert (0 ≤ costs (map (λ x : Z * bytes, Install x.2) L)) as H0.
  { clear -HV Hbehind. induction HV as [|y L (_ & _ & Hy & _) _ IH]; [done|]. cbn [map costs foldr cost].
    fold (costs (map (λ x : Z * bytes, Install x.2) L)). pose proof (sectors_bounds _ Hy) as [? _]. lia. }
  destruct (persist_ok s L0 x H Hx) as (_ & P2 & P3 & P4); [lia|lia|].
  change (L0 ++ x :: L) with (L0 ++ [x] ++ L). rewrite app_assoc. apply IH; [done|rewrite length_app; cbn; lia|cbn [apply_call]; rewrite P3, P4; lia].
Qed.

Definition pattern : bytes := str "OSCTEST1" ++ replicate 504 0.

Lemma self_test_writes d : alive d → 2 ≤ capacity d → wrote d 1 1 pattern (self_test d).1.
Proof.
  intros Ha Hc. unfold self_test. fold pattern.
  destruct (write_sectors_ok d 1 1 pattern Ha) as (d1 & E & W); [lia|lia|lia|done|]. rewrite E.
  destruct (read_sectors d1 1 1); [|done]. by case_if.
Qed.

Lemma packed_app a b z : packed (a ++ b) z = packed a (List.concat (map entry_bytes b) ++ z) ++ packed b z.
Proof.
  induction a as [|e a IH]; [done|]. cbn [app packed]. rewrite IH, map_app, concat_app, <- !app_assoc. done.
Qed.

(** The first four entries lie in the sector the test overwrites. *)
Lemma pattern_entries es :
  Forall entry_ok es → (length es ≤ 48)%nat → entries_in (pattern ++ drop 512 (catalog_bytes behind es)) = drop 4 es.
Proof.
  intros Hes Hl. rewrite entries_scan, catalog_packed by done. unfold CATALOG_ENTRIES.
  change 48%nat with (4 + 44)%nat at 1. rewrite scan_app. set (rest := drop 512 _).
  assert (scan 4 0 (pattern ++ rest) = []) as -> by reflexivity. cbn [app Nat.add].
  destruct (decide (length es ≤ 4)%nat) as [H4|H4].
  - rewrite drop_ge by done. unfold rest. rewrite drop_app_ge by (rewrite packed_length by done; lia).
    rewrite packed_length, drop_replicate by done.
    replace ((48 - length es) * 128 - (512 - length es * 128))%nat with (44 * 128)%nat by lia.
    by apply (scan_zero 44 4 pattern).
  - assert (rest = packed (drop 4 es) behind ++ replicate ((48 - length es) * 128) 0) as ->.
    { unfold rest. rewrite <- (take_drop 4 es) at 1. rewrite packed_app, <- app_assoc. apply drop_app_length'.
      rewrite packed_length_ge, length_take; [lia|by apply Forall_take|rewrite length_app; lia]. }
    pose proof (packed_zero (drop 4 es) pattern 4) as HZ. rewrite length_drop in HZ.
    replace (48 - 4 - (length es - 4))%nat with (48 - length es)%nat in HZ by lia. apply HZ; [by apply Forall_drop|done|lia].
Qed.

Lemma self_test_catalog s L es :
  holds_entries s L es →
  let d := (self_test (dev s)).1 in
  alive d ∧ capacity d = capacity (dev s) ∧ (∀ y, y ≠ 1 → sectors d y = sectors (dev s) y) ∧
  read_catalog d = Ok (drop 4 es).
Proof.
  intros H d. destruct (ho_ok _ _ _ H) as [Hes Hl]. pose proof H as [A C _ _ _ K _ _]. unfold DATA_START_SECTOR in C.
  destruct (self_test_writes (dev s) A) as [A1 C1 O1 R1]; [lia|]. fold d in A1, C1, O1, R1.
  split_and!; [done|done|intros y Hy; apply O1; lia|].
  unfold read_catalog. rewrite read_alive in * by done. unfold CATALOG_SECTOR, CATALOG_SECTORS in *.
  destruct (read_loop_head 11 _ _ _ A K) as [K1 _]. destruct (read_loop_head 0 _ _ _ A1 R1) as [_ R2].
  change (Z.to_nat 12) with 12%nat. rewrite (read_loop_cons 11 d 1 (drop 512 (catalog_bytes behind es))); [|done|lia|].
  - rewrite R2. change (take 512 (take (1 * 512) pattern)) with pattern. by rewrite pattern_entries.
  - rewrite (read_loop_ext 11 (dev s) d); try done. intros y Hy. apply O1. lia.
Qed.

(** C40: the self-test of the block driver runs before the store is opened and writes
    its pattern over the first sector of the catalog: of the bundles that were
    stored, opening the store alone would load all, a restart loads all but the
    first four. *)
Theorem self_test_loses_apps d e L g :
  alive d → DATA_START_SECTOR ≤ capacity d < 2 ^ 64 → read_superblock d = Err e →
  Forall valid L → (length L ≤ CATALOG_ENTRIES)%nat →
  DATA_START_SECTOR + costs (map (λ x, Install x.2) L) ≤ capacity d →
  let s0 := (init (restarted d) g).1.1 in
  let s := apply_log behind s0 (map (λ x, Persist x.1 x.2) L) in
  (init (restarted (dev s)) g).1.2 = foldl load_one g L ∧ (boot (dev s) g).1.2 = foldl load_one g (drop 4 L).
Proof.
  intros Ha Hc He HV Hl Hcost s0 s.
  destruct (init_formats d g e Ha Hc He) as (s1 & E1 & H1 & C1 & N1 & _).
  assert (s0 = s1) as E0 by (unfold s0; by rewrite E1).
  assert (holds s L) as HL by (unfold s; rewrite E0; apply (persists_ok L s1 [] H1 HV); [done|lia]).
  split; [by apply holds_loads|]. destruct HL as [_ [es H]]. pose proof H as [A C _ I [c R] _ _ S].
  destruct (self_test_catalog s L es H) as (A1 & C1' & O1 & K1). unfold boot. cbn zeta.
  rewrite restarted_alive by done. set (d1 := (self_test (dev s)).1) in *.
  change (set_dev (restarted (dev s)) d1) with (set_dev (restarted d1) d1).
  assert (set_dev (restarted d1) d1 = restarted d1) as ->.
  { unfold set_dev. rewrite <- (restarted_alive d1 A1) at 1. by destruct (restarted d1). }
  change (restarted d1) with (restarted (dev (set_dev s d1))).
  rewrite (init_loads (set_dev s d1) (drop 4 L) (drop 4 es) g c); cbn [dev set_dev next_data_sector next_app_id]; try done; try lia.
  - rewrite <- R. unfold read_superblock. rewrite !read_alive by done. rewrite (read_loop_ext _ (dev s) d1); try done.
    intros y Hy. apply O1. unfold SUPER_SECTOR in Hy. lia.
  - apply Forall2_drop. apply (Forall2_stored_ext s); cbn [dev set_dev next_data_sector]; try done.
    intros y Hy. apply O1. unfold DATA_START_SECTOR in Hy. lia.
Qed.

(** A sector as the file system of [Ext2] reads it. *)
Definition sector_of (d : Device) (y : Z) : option bytes :=
  match read_sectors d y 1 with Ok b => Some b | Err _ => None end.

(** opening the store formats every device that does not hold one, also one with
    a file system on it: afterwards mounting it as ext2 fails. *)
Theorem store_formats_ext2 d e g FS :
  alive d → DATA_START_SECTOR ≤ capacity d < 2 ^ 64 → read_superblock d = Err e →
  let s := (init (restarted d) g).1.1 in
  Ext2.Ext2.mount (sector_of (dev s)) true FS = Val (FS, Err "ext2: bad magic (not an ext2 volume)").
Proof.
  intros Ha Hc He s. destruct (init_formats d g e Ha Hc He) as (s1 & E1 & [_ [es H1]] & C1 & _ & Z1 & _).
  assert (s = s1) as -> by (unfold s; by rewrite E1). unfold DATA_START_SECTOR in Hc. pose proof (ho_alive _ _ _ H1) as A1.
  assert (∀ y, 0 ≤ y < 64 → sector_of (dev s1) y = Some (sectors (dev s1) y)) as HS.
  { intros y Hy. unfold sector_of. rewrite read_alive by done. change (Z.to_nat 1) with 1%nat. cbn [read_loop].
    rewrite op_alive by (done || lia). by rewrite app_nil_r. }
  unfold Ext2.Ext2.mount. cbn [negb]. unfold Ext2.Ext2.read_sectors. change (Z.to_nat 2) with 2%nat. cbn [Ext2.Ext2.read_from].
  rewrite !HS, Z1 by lia. done.
Qed.
End catalog.

(** ** Witnesses *)

Definition blank : Device := mkDev (λ _, replicate 512 0) 1000 true false None.
Definition zeros : bytes := replicate 4 0.
Definition files : bytes := AppRegistry.sample_bundle (str "Files").
Definition notes : bytes := AppRegistry.sample_bundle (str "Notes").
Definition opened (d : Device) : Store := (init (restarted d) AppRegistry.Registry_init).1.1.
Definition loaded (d : Device) : AppRegistry.Registry := (init (restarted d) AppRegistry.Registry_init).1.2.

(** The order of the writes matters when power fails: a bundle whose catalog
    entry was written but not the superblock is loaded after the restart, but
    the next bundle is put into the same sectors.  Here app 4 then is the
    second bundle, which is not installed under its own id. *)
Example crash_overwrites_bundle :
  let s0 := opened blank in
  let failing := mkDev (sectors (dev s0)) (capacity (dev s0)) true false (Some 13%nat) in
  let s1 := persist_bundle zeros (set_dev s0 failing) 4 files in
  let s2 := opened (dev s1.1) in
  let s3 := persist_bundle zeros s2 5 notes in
  let g := loaded (dev s3.1) in
  s1.2 = Err "virtio-blk: I/O error" ∧
  AppRegistry.app_name <$> AppRegistry.find (AppRegistry.table (loaded (dev s1.1))) 4 = Some (str "Files") ∧
  s3.2 = Ok tt ∧
  AppRegistry.app_name <$> AppRegistry.find (AppRegistry.table g) 4 = Some (str "Notes") ∧
  AppRegistry.find (AppRegistry.table g) 5 = None.
Proof. vm_compute. done. Qed.

Lemma blank_alive : alive blank.
Proof. by split. Qed.

Lemma bundle_bytes_ok b : forallb (λ x, (0 <=? x) && (x <? 256)) b = true → bytes_ok b.
Proof.
  intros H. apply Forall_forall. intros x Hx%list_elem_of_In. rewrite forallb_forall in H. specialize (H x Hx).
  unfold is_byte. lia.
Qed.

Definition sample_calls : list call := [Install files; Install notes; Uninstall 1].

Lemma apps_survive_reboot_witness :
  let g := session AppRegistry.Registry_init sample_calls in
  let g' := loaded (dev (apply_log zeros (opened blank) (AppRegistry.store_log g))) in
  AppRegistry.app_name <$> AppRegistry.find (AppRegistry.table g') 2 = Some (str "Notes").
Proof.
  pose proof (apps_survive_reboot zeros eq_refl (λ _, None) [] blank "bad magic" AppRegistry.Registry_init sample_calls
    blank_alive) as H.
  destruct H as [H _]; [done|vm_compute; done|by constructor|done|done| |done| |vm_compute; done|].
  - repeat constructor; try (apply bundle_bytes_ok; vm_compute; reflexivity); vm_compute; done.
  - intros k. destruct k as [|[|[|k]]]; [vm_compute; lia..|]. rewrite take_ge by (simpl; lia). vm_compute. lia.
  - cbn zeta. unfold loaded, opened. rewrite H. vm_compute. reflexivity.
Defined.

Lemma self_test_loses_apps_witness :
  let s := apply_log zeros (opened blank) [AppRegistry.Persist 4 files] in
  isSome (AppRegistry.find (AppRegistry.table (loaded (dev s))) 4) = true ∧
  (boot (dev s) AppRegistry.Registry_init).1.2 = AppRegistry.Registry_init.
Proof.
  destruct (self_test_loses_apps zeros eq_refl blank "bad magic" [(4, files)] AppRegistry.Registry_init blank_alive)
    as [H1 H2]; [done|vm_compute; done| |simpl; unfold CATALOG_ENTRIES; lia|vm_compute; done|].
  - constructor; [|constructor]. split_and!; [done|apply bundle_bytes_ok; vm_compute; done|done|vm_compute; done].
  - split; [|exact H2]. unfold loaded, opened. cbn [map fst snd] in H1. rewrite H1. vm_compute. reflexivity.
Defined.

Lemma store_formats_ext2_witness :
  let s := opened blank in
  Ext2.Ext2.mount (sector_of (dev s)) true None = Val (None, Err "ext2: bad magic (not an ext2 volume)").
Proof.
  apply (store_formats_ext2 zeros eq_refl blank "bad magic" AppRegistry.Registry_init None blank_alive); [done|vm_compute; done].
Defined.
End AppStore.
